(* ===== verification/_CoqProject ===== *)
-Q . S2P
Prelude.v
PyFloat.v
PyText.v
CanonicalJson.v
Sha256.v
Availability.v
EpochInterface.v
Ownership.v
OwnershipJournal.v
EpochFence.v
TakeoverReadiness.v
ReplicationAck.v
Reconnect.v
Partition.v
ControlState.v
WorkStealing.v
TaskLedger.v
AdaptiveConcurrency.v
CancellationTree.v
CircuitBreaker.v
ResourceLeases.v
ModelPlacement.v
ArtifactRetention.v
InferenceMembership.v
ConsistentHash.v
Automation.v
PyNumText.v
FleetStore.v
FleetMessages.v
MemoryReplication.v
MemoryJournal.v
MemoryState.v
MemoryNetwork.v
MemoryCoordinator.v
BatchGuard.v
PyDate.v
JobRegistry.v
JobLeases.v
JobOutput.v
WorkerCapacity.v
DeploymentAdmission.v
ComputeFabric.v
ComputeIndex.v
ComputeRegistry.v
PlacementQueue.v
