(* ===== verification/Prelude.v ===== *)
(** Sonder Runtime, cluster control plane and scheduling core: a verification
    development.

    * The program

    Sonder Runtime runs language-model work on a small set of machines.  Its
    control plane decides which machine owns a resource, and in which epoch; when
    a control event counts as replicated; when a fenced owner may be replaced; how
    a disconnected client finds its work again; which workers may serve inference,
    and on which devices a model runs; and which partition, worker, lane or task is
    next.  These decisions are pure modules under [src/sonder_runtime/domain], with
    durable adapters (SQLite) and one coordinator of an external provider above them.
    The parts interact as follows.

    An owner acquires a lease from the ownership authority or from the durable
    journal; workers carry the lease's epoch and token to the effect boundary, where
    the epoch fence compares them with the grant in force; control events are
    replicated through a provider, whose acknowledgements and fence receipts the
    availability contract and the readiness gate judge; the coordinator collects
    both in order, and an allowed attempt becomes a proof that the authority accepts
    as a takeover, which issues the next epoch.  The inference pool admits workers from
    signed snapshots; a model deployment places ranks on their devices, its digest is
    what conformance evidence binds, and a lost shard is replaced only under accepted
    evidence; the artifacts a deployment or job refers to are kept until every
    reference is released.  Inside one machine, lanes start under an adaptive cap when
    their claims do not conflict, hold leases on ports and other resources, stop
    through the cancellation tree, and call external services behind circuit breakers.
    The agents a machine runs are rows of the fleet ledger, which several processes share:
    each registers as an owner with a heartbeat, and what an owner leaves behind when it
    dies is interrupted and may be retried once.  What the runtime remembers is a journal of
    mutations on one machine, the source, which a coordinator copies page by page to the
    journals of explicitly configured replicas.

    Long work runs as durable jobs: rows a worker claims under a lease, keeps by heartbeats,
    and finishes once, with a receipt, while its output is kept as a bounded tail.  Jobs that
    run on other machines need memory there: the worker's capacity tables, in the same
    database, reserve it before a job is dispatched, and a deployment is admitted when all of
    its ranks are.  Where a job goes is decided by the compute fabric: a registry holds the
    configured nodes with their last observations in an index of postings, the index selects
    candidates, and the scheduler judges and ranks them.

    * The files

    - [Prelude] (this file): Python exceptions and the result monad [res] ([raise]
      is [Err], a guard is [require]), dynamic values [pyval] with the validators the
      modules share, text as UTF-8 bytes with the identity and digest grammars,
      dictionaries built from lists ([dict_by]), stable sorting, and the proof
      automation ([res_inv] inverts monadic code, [res_eval] runs it, [to_prop] reads
      tests as propositions, [raises_tac] bounds the exceptions).
    - [PyFloat]: binary64 through the Standard Library's [SpecFloat].  [PyText]: strip,
      replace, split and case folding of text and the parts of a POSIX path.
      [CanonicalJson]: [json.dumps] with sorted keys and ASCII escapes, injective on
      canonical values.  [Sha256]: the digest, with the standard's test vectors.
    - [Availability]: [domain/cluster_availability.py].  The records with their
      constructors, the wire codecs, [validate_replication_acknowledgement],
      [evaluate_takeover] and the profile assessment.
    - [EpochInterface]: the class [EpochStore], what an ownership store promises its
      clients (every step issues the next epoch or keeps it), with the lemmas on
      runs proved once against it.
    - [Ownership]: [domain/cluster_ownership.py].  The authority's state is a map of
      leases and a map of epochs; [acquire], [validate], [renew], [release] and
      [takeover] are the methods; [authority_step] is the transition relation and
      an instance of [EpochStore].
    - [OwnershipJournal]: [adapters/persistence/sqlite/cluster_ownership.py].  The
      database file is a value with its schema and two tables of dynamically typed
      rows; every method is a transaction on it.  It is the second instance of
      [EpochStore].
    - [EpochFence]: [domain/worker_epoch_fence.py], and its theorem over every
      [EpochStore].
    - [TakeoverReadiness]: [domain/takeover_readiness.py], the three evidence gates.
    - [ReplicationAck]: [domain/replication_ack.py], the acknowledgement policy.
    - [Reconnect]: [domain/reconnect_reconciliation.py], discovery and worker-receipt
      reconciliation.
    - [Partition]: [domain/scheduler_partition.py], the partition inventory,
      weighted rendezvous routing and paging.
    - [ControlState]: [application/control_state.py], the coordinator; the provider
      is a parameter with a state of its own.
    - [WorkStealing]: [domain/work_stealing.py], deques and the scheduler.
    - [TaskLedger]: [domain/task_ledger.py], construction with the cycle check,
      dispatch and batches.
    - [AdaptiveConcurrency]: [domain/adaptive_concurrency.py].  Module [Lanes] holds
      claims, the conflict graph and admission; module [Cap] the state machine that
      [observe] steps.
    - [CancellationTree]: [domain/cancellation_tree.py].  Scopes and leases are objects
      of one store, so that parents and lease holders share them; module [Sections]
      interleaves the critical sections of concurrent threads.
    - [CircuitBreaker]: [domain/circuit_breaker.py].
    - [ResourceLeases]: [domain/resource_leases.py] and [adapters/resource_leases.py];
      the table is a map from kind and key to a lease, each operation a transaction,
      and what it observes of the machine the record [world].
    - [ModelPlacement]: modules [Deployment], [Conformance] and [Recovery] for
      [domain/model_deployment.py], [model_conformance.py] and
      [model_shard_recovery.py].
    - [ArtifactRetention]: [domain/artifact_retention.py], pages and the planner.
    - [InferenceMembership]: [domain/inference_membership.py], rosters, the high-water
      record and reconciliation.
    - [ConsistentHash]: [domain/consistent_hash.py], the ring with MD5 positions.
    - [Automation]: module [Machine] for [domain/automation/state_machine.py], [Runs] for
      [domain/automation/models.py] and [Service] for
      [application/automation/automation_service.py] over the class [AutomationStore], with
      an instance in [MapStore].
    - [PyNumText]: [float(text)] and ["%.3f"].  [FleetStore]:
      [adapters/persistence/fleet_store.py], the ledger of fleet agents; the database is a
      map per table, [fleet_op] names the operations and [run] performs a sequence of them.
      [FleetMessages]: its mailbox and listings; [mail_op] and [run_mail] extend the runs.
    - [MemoryReplication]: [domain/memory/replication.py], mutations, batches and receipts
      with their wire codecs.  [MemoryJournal]:
      [adapters/persistence/sqlite/memory_replication.py], the journal over a database value
      of two tables; [journal_step] is the transition relation and [grows] what a
      transaction does to the log.  [MemoryState]: what the log means, by replay.
      [MemoryNetwork]: an origin, its replicas and every page ever exported ([net_step]).
      [MemoryCoordinator]: [application/memory/replication.py], the coordinator and the
      receiver over the classes [MemorySink] and [MemorySource], with the SQLite sink as
      their instance.

    - [BatchGuard]: [domain/batch_coalescing.py], the guard that steers an agent from single
      reads to batch calls; [turn] plays a sequence of calls.
    - [PyDate]: [isoformat], its order, and sums of instants and seconds.
    - [JobRegistry]: [adapters/persistence/sqlite/job_registry.py] over the values of
      [application/ports/jobs.py]; the database is a value, [job_op] names the operations, [run]
      performs a sequence of them, [row_step] is what one may do to a row.  [JobLeases]: claims,
      heartbeats and receipts over all runs.  [JobOutput]: the retained output, against the
      specification that it is the longest tail within the bounds.
    - [WorkerCapacity]: [domain/worker_capacity.py] and
      [adapters/persistence/sqlite/worker_capacity.py] on top of the job tables; [cap_op] and
      [cap_run] extend the runs.  [DeploymentAdmission]:
      [application/compute_fabric/deployment_admission.py] over the class [CapacityPort] with the
      laws [CapacityLaws]; the SQLite worker is their instance.
    - [ComputeFabric]: [domain/compute_fabric.py], nodes, observations, requests and [place].
      [ComputeIndex]: [application/compute_fabric/index.py] and [registry.py], the postings, the
      expiry heap, the registry and its pages; [index_ok] is the invariant.  [ComputeRegistry]:
      the invariant over runs ([reg_run]) and what follows.
    - [PlacementQueue]: [application/compute_fabric/placement_queue.py], the waiting requests as
      a map whose views are sorted; [queue_run] are its runs.

    A definition has the name of the function it translates; a method [m] of a class
    [C] is [m] or [C_m], a constructor with its validation is [C_init].  A test with
    [isinstance] takes a [dyn] argument: [Inst x], or [Foreign] for a value of
    another class.  Random tokens and clock readings are arguments.

    * The theorems

    - Epochs: the epochs issued for a resource are exactly
      1..n, in memory and across restarts of the file; an accepted lease is the
      newest capability; a superseded one is refused forever.  The journal's
      operations are characterised on every branch, and replays are harmless.
    - Takeover gates: [evaluate_takeover] and [evaluate_takeover_readiness] allow
      exactly their evidence contracts; an attempt the coordinator allows suffices for the
      authority ([allowed_attempt_promotes], where the proof of takeover is made from the
      receipts of the attempt; the source has no code for that step).
    - Fencing: a worker mutates exactly while its very grant is in force, if what it is checked
      against is the store's grant; the source has no adapter that makes that observation.
    - Replication and reconnect: exact conditions for acknowledgement, discovery and
      resumption, and independence of the order of evidence.
    - Coordination: success only with accepted evidence; the fence is last.
    - Scheduling: routing is deterministic and stable, paging complete and
      snapshot-consistent; stealing conserves tasks (an item that is
      [None] may be lost) and finds work; the ledger's cycle
      check is exact, its batches are a schedule, dispatch never deadlocks; the hash
      ring returns the specified owner and moves only the keys it must.
    - Concurrency: lanes running together never overlap, and stay within
      the cap; the cap of the controller stays in its bounds,
      counts evidence once and recovers; a cancellation reaches exactly its subtree,
      also between threads, and [join] tells when the subtree is drained; a breaker
      refuses exactly while it is open.
    - Leases of resources: exact outcomes, a well-formed table, and no lease taken
      from an owner without proof that it is gone and the resource released.
    - Membership and placement: rosters are well formed, never roll authority back,
      activate only after probation and come to rest; a replacement plan is ready
      exactly under its contract and installs; the digest determines the manifest.
    - Retention: deletion is exact, safe, and independent of the order of evidence.
    - Runs and fleet agents: every operation follows the state machine; a claim keeps other
      workers out; a cancellation reaches a whole subtree and is final; a reconciliation
      interrupts exactly what lost its owner; a retry has one dispatcher; a finish is
      idempotent.  Messages stay inside one tree, within their bounds, and are delivered at
      most once and in order; a listing ends exactly when no agent is its own ancestor.  The
      runs are those of the modelled operations.
    - Memory replication: replicas hold gapless copies of one history whatever the network
      does, and catch up with an unpruned source; the reported records are the replayed log,
      pruning keeps them but closes the source to new replicas; a round accounts for every
      sink, is a run of the network, and each replica it lists holds the whole prefix;
      a receiver passes on exactly the authentic batches.
    - Durable jobs: a finished job stays as it is but for an explicit retry; while a claim is in
      force no other worker gets one, and a superseded worker can change nothing; a receipt is
      committed once per attempt and replayed exactly for the same payload; reconciliation interrupts exactly the
      lapsed leases.  The output kept is the longest tail within the bounds, whatever the
      batches, and following the cursor reads all of it.
    - Capacity: whatever jobs, reservations, dispatches and releases happen, the memory and the
      jobs a host holds stay within its budget; a reservation is dispatched at most once, and in
      time it can be.  An admission takes every rank or leaves no dispatched one of its own; a
      release frees what was admitted.
    - Compute fabric: placement ranks exactly the nodes that satisfy the request, in order of
      their scores, which are those of the listed rules; while every observation counts its
      jobs ([sound_op]) the index answers as a scan of all observations would and its totals are
      a recount; its pages show every node once.  The queue of waiting requests neither loses nor
      repeats one, and serves them in order.
    - The batch guard: refusals follow the schedule, and a target once tried is never refused,
      for a host that identifies targets the same way throughout the turn.

    * Bounds and fuel

    Epochs and sequences are bounded by 2^63 - 1 as in the code, and the theorems
    say what happens at the bound.  Removing a worker drains its deque with the
    deque's length as fuel; a walk over the pages takes one more step than there are
    partitions; the ledger's loops take the number of items; cancelling and refreshing a
    scope recurse by the number of scopes, since a child is created after its parent;
    a binary search takes the length of its list and a walk around the ring the number
    of positions; the passes that select a subtree of agents number the active agents and
    one, and a listing goes down one level more than there are agents; a walk up the
    parents stops after 64, as in the code; catching up takes as many pages as cover the
    distance between the cursors; the walk over the children of a job takes one step per job
    and one, and a client of the inventory asks for one page more than there are nodes.  In each case a theorem shows that the fuel is enough.

    * Not modelled

    The JSON digest of event payloads and of the ledger, the [as_dict] methods that
    print timestamps, the JSON text of a lease row, signed membership envelopes,
    failures of the disk or of SQLite with the retries around them, and the network; of the
    fleet ledger the snapshot, pruning, the credentials file and the schema migration; of
    memory replication the projection into the recall tables with the sink for facts, the
    HTTP client and the service with its state files, and floats in payloads; of the durable
    jobs the startup recovery of processes and the iterator by kind; of worker capacity the
    measurement of the host and the schema migration; of the compute fabric the digests of
    requests and observations (their text prints floats), the transport and the job
    coordinator.
    ISO dates are read by a parameter.  The rest of the runtime (agents, tools,
    inference providers, user interfaces) is input and output around external
    services. *)
From Stdlib Require Import Ascii ZArith.
From Stdlib Require Export Lia.
From Corelib Require Export Floats.SpecFloat.
From stdpp Require Export base list strings gmap sorting pretty.

(** ** Exceptions and the result monad *)

(** The exception classes the modelled modules raise. *)
Inductive exn_class :=
  | ValueError
  | TypeError
  | KeyError
  | AttributeError
  | RuntimeError
  | OverflowError
  | DependencyUnavailable
  | CapacityExceeded
  | AvailabilityProfileError
  | OwnershipError
  | OwnershipConflict
  | TakeoverDenied
  | ReconnectContractError
  | PartitionRoutingError
  | InvalidInput
  | MemoryReplicationError
  | ConformanceError
  | ShardRecoveryError
  | InvalidTransition
  | PermissionError
  | IntegrityError
  (** errors of the application taxonomy with the stable code the instance carries *)
  | Conflict (code : string)
  | Forbidden (code : string)
  | NotFound (code : string).

(** [except (TypeError, ValueError)] catches these: the contract errors of
    the cluster modules all derive from [ValueError]. *)
Definition caught_as_value_or_type (c : exn_class) : bool :=
  match c with
  | KeyError | AttributeError | RuntimeError | OverflowError | DependencyUnavailable | CapacityExceeded | InvalidInput
  | InvalidTransition | PermissionError | IntegrityError
  | Conflict _ | Forbidden _ | NotFound _ => false
  | _ => true
  end.

Record exn := Raise { exn_cls : exn_class; exn_msg : string }.

Inductive res (A : Type) :=
  | Ok (a : A)
  | Err (e : exn).
Arguments Ok {A} a.
Arguments Err {A} e.

#[export] Instance exn_class_eq_dec : EqDecision exn_class.
Proof. solve_decision. Defined.
#[export] Instance exn_eq_dec : EqDecision exn.
Proof. solve_decision. Defined.
#[export] Instance res_eq_dec `{EqDecision A} : EqDecision (res A).
Proof. solve_decision. Defined.

#[export] Instance res_ret : MRet res := @Ok.
#[export] Instance res_bind : MBind res := λ A B f m,
  match m with Ok a => f a | Err e => Err e end.
#[export] Instance res_fmap : FMap res := λ A B f m,
  match m with Ok a => Ok (f a) | Err e => Err e end.

(** [raise cls(msg)] *)
Definition throw {A} (c : exn_class) (msg : string) : res A := Err (Raise c msg).

(** [if not cond: raise cls(msg)] *)
Definition require (cond : bool) (c : exn_class) (msg : string) : res unit :=
  if cond then Ok tt else throw c msg.

(** [try: m except (TypeError, ValueError): raise cls(msg)] *)
Definition rewrap {A} (c : exn_class) (msg : string) (m : res A) : res A :=
  match m with
  | Ok a => Ok a
  | Err e => if caught_as_value_or_type (exn_cls e) then throw c msg else Err e
  end.

Definition is_ok {A} (m : res A) : bool :=
  match m with Ok _ => true | Err _ => false end.

Fixpoint mapM_res {A B} (f : A → res B) (l : list A) : res (list B) :=
  match l with
  | [] => Ok []
  | x :: l' => y ← f x; ys ← mapM_res f l'; Ok (y :: ys)
  end.

(** A value of unknown dynamic type: an instance of the class the code tests
    for with [isinstance], or something else. *)
Inductive dyn (A : Type) :=
  | Inst (a : A)
  | Foreign.
Arguments Inst {A} a.
Arguments Foreign {A}.

#[export] Instance Inst_inj {A} : Inj (=) (=) (@Inst A).
Proof. by intros x y [= ->]. Qed.

(** [if not isinstance(v, cls): raise c(msg)] *)
Definition inst_of {A} (c : exn_class) (msg : string) (v : dyn A) : res A :=
  match v with Inst a => Ok a | Foreign => throw c msg end.

(** ** Dynamic values *)

(** The Python values a constructor or parser may receive.  Text is the UTF-8
    encoding of the Python [str]: byte order then agrees with code point order.
    A member of a string enumeration is a [str] too and compares equal to its
    value, but [isinstance] also sees its class. *)
Local Set Warnings "-register-all".
Inductive pyval :=
  | PNone
  | PBool (b : bool)
  | PInt (z : Z)
  | PFloat (f : spec_float)
  | PStr (s : string)
  | PEnum (cls : string) (value : string)
  | PBytes (s : string)
  | PTuple (l : list pyval)
  | PList (l : list pyval)
  | PDict (l : list (pyval * pyval))
  | PDatetime (aware : bool) (utc_us : Z)
  | PObject (cls : string).

(** [isinstance(v, str)], with the text. *)
Definition py_str (v : pyval) : option string :=
  match v with PStr s => Some s | PEnum _ s => Some s | _ => None end.

(** [type(v) is int] *)
Definition py_int (v : pyval) : option Z :=
  match v with PInt z => Some z | _ => None end.

(** [type(v) is bool] *)
Definition py_bool (v : pyval) : option bool :=
  match v with PBool b => Some b | _ => None end.

(** The elements [tuple(v)] yields; text and bytes are refused before the code
    iterates, so they count as not iterable here. *)
Definition py_iter (v : pyval) : option (list pyval) :=
  match v with
  | PTuple l | PList l => Some l
  | PDict d => Some (d.*1)
  | _ => None
  end.

(** [bool(v)] *)
Definition py_truthy (v : pyval) : bool :=
  match v with
  | PNone => false
  | PBool b => b
  | PInt z => negb (z =? 0)%Z
  | PFloat (S754_zero _) => false
  | PStr s | PEnum _ s | PBytes s => negb (String.eqb s "")
  | PTuple l | PList l => negb (length l =? 0)%nat
  | PDict d => negb (length d =? 0)%nat
  | _ => true
  end.

(** [k == name] for a dictionary key [k] and a text [name]. *)
Definition key_is (name : string) (k : pyval) : bool :=
  match py_str k with Some s => String.eqb s name | None => false end.

(** [d.get(name)] *)
Fixpoint dict_get (name : string) (d : list (pyval * pyval)) : option pyval :=
  match d with
  | [] => None
  | (k, v) :: d' => if key_is name k then Some v else dict_get name d'
  end.

(** [d[name]] once the key set was checked. *)
Definition field_of (name : string) (d : list (pyval * pyval)) : pyval :=
  default PNone (dict_get name d).

(** [set(d) == expected] *)
Definition dict_keys_are (expected : list string) (d : list (pyval * pyval)) : bool :=
  forallb (λ kv, existsb (λ name, key_is name kv.1) expected) d
  && forallb (λ name, match dict_get name d with Some _ => true | None => false end) expected.

(** ** Text grammars *)

Definition ascii_between (lo hi : N) (c : ascii) : bool :=
  (N.leb lo (N_of_ascii c) && N.leb (N_of_ascii c) hi)%N.

(** [A-Za-z0-9] *)
Definition is_alnum (c : ascii) : bool :=
  ascii_between 48 57 c || ascii_between 65 90 c || ascii_between 97 122 c.

(** [A-Za-z0-9._:-] *)
Definition is_identity_char (c : ascii) : bool :=
  is_alnum c || bool_decide (c = "."%char) || bool_decide (c = "_"%char)
  || bool_decide (c = ":"%char) || bool_decide (c = "-"%char).

(** [0-9a-f] *)
Definition is_hex_char (c : ascii) : bool :=
  ascii_between 48 57 c || ascii_between 97 102 c.

Fixpoint str_forallb (p : ascii → bool) (s : string) : bool :=
  match s with
  | EmptyString => true
  | String c s' => p c && str_forallb p s'
  end.

(** [re.compile(r"[A-Za-z0-9][A-Za-z0-9._:-]{0,127}\Z").fullmatch] *)
Definition is_identity (s : string) : bool :=
  match s with
  | EmptyString => false
  | String c s' =>
      is_alnum c && str_forallb is_identity_char s' && (String.length s' <=? 127)%nat
  end.

(** [re.compile(r"[0-9a-f]{64}\Z").fullmatch] *)
Definition is_digest (s : string) : bool :=
  str_forallb is_hex_char s && (String.length s =? 64)%nat.

(** [not s.strip()]: every character is white space in the sense of
    [str.isspace]; the multi-byte cases are the UTF-8 forms of U+0085, U+00A0,
    U+1680, U+2000..200A, U+2028, U+2029, U+202F, U+205F and U+3000. *)
Fixpoint is_blank (s : string) : bool :=
  match s with
  | EmptyString => true
  | String c s' =>
      if ascii_between 9 13 c || ascii_between 28 32 c then is_blank s'
      else match N_of_ascii c, s' with
      | 194%N, String c1 s1 =>
          (N_of_ascii c1 =? 133)%N && is_blank s1 || (N_of_ascii c1 =? 160)%N && is_blank s1
      | 225%N, String c1 (String c2 s2) =>
          (N_of_ascii c1 =? 154)%N && (N_of_ascii c2 =? 128)%N && is_blank s2
      | 226%N, String c1 (String c2 s2) =>
          ((N_of_ascii c1 =? 128)%N
           && (ascii_between 128 138 c2 || ascii_between 168 169 c2
               || (N_of_ascii c2 =? 175)%N)
           || (N_of_ascii c1 =? 129)%N && (N_of_ascii c2 =? 159)%N) && is_blank s2
      | 227%N, String c1 (String c2 s2) =>
          (N_of_ascii c1 =? 128)%N && (N_of_ascii c2 =? 128)%N && is_blank s2
      | _, _ => false
      end
  end.

(** [len(s)]: code points, that is bytes that do not continue a sequence. *)
Fixpoint py_len (s : string) : Z :=
  match s with
  | EmptyString => 0
  | String c s' => (if ascii_between 128 191 c then 0 else 1) + py_len s'
  end%Z.

(** [sep.join(l)] *)
Fixpoint join_text (sep : string) (l : list string) : string :=
  match l with
  | [] => ""
  | [s] => s
  | s :: l' => s +:+ sep +:+ join_text sep l'
  end.

(** ** Lists as Python uses them *)

Definition zlen {A} (l : list A) : Z := Z.of_nat (length l).

Section ListOps.
  Context {A : Type} `{EqDecision A}.

  (** [x in l] *)
Definition mem (x : A) (l : list A) : bool := bool_decide (x ∈ l).

  (** [len(set(l)) == len(l)] *)
Definition no_dups (l : list A) : bool :=
    (length (remove_dups l) =? length l)%nat.

  (** [set(l) <= set(k)] *)
Definition subset (l k : list A) : bool := forallb (λ x, mem x k) l.

  (** [bool(set(l) & set(k))] *)
Definition meets (l k : list A) : bool := existsb (λ x, mem x k) l.

  (** [list(dict.fromkeys(l))]: the first occurrence of each element, in order. *)
Fixpoint fromkeys_aux (seen l : list A) : list A :=
    match l with
    | [] => []
    | x :: l' => if mem x seen then fromkeys_aux seen l'
                 else x :: fromkeys_aux (x :: seen) l'
    end.
Definition fromkeys (l : list A) : list A := fromkeys_aux [] l.

  (** [if x not in l: l.append(x)] *)
Definition add_once (l : list A) (x : A) : list A := if mem x l then l else l ++ [x].
End ListOps.

(** [{key(x): x for x in l}]: the last entry of a key wins; and the values of that
    dictionary, at the place of the key's first entry. *)
Definition dict_by `{Countable K} {V} (key : V → K) (l : list V) : gmap K V :=
  foldl (λ m x, <[key x := x]> m) ∅ l.

Definition dict_values `{Countable K} {V} (key : V → K) (l : list V) : list V :=
  omap (λ k, dict_by key l !! k) (fromkeys (key <$> l)).

(** [sorted(l, key=...)]: insertion sort, stable as Python's sort is. *)
Fixpoint insert_by {A} (le : A → A → bool) (x : A) (l : list A) : list A :=
  match l with
  | [] => [x]
  | y :: l' => if le x y then x :: y :: l' else y :: insert_by le x l'
  end.
Definition sort_by {A} (le : A → A → bool) (l : list A) : list A :=
  foldr (insert_by le) [] l.

Definition sorted_text (l : list string) : list string := sort_by String.leb l.

(** ** Field validators *)

(** [isinstance(v, str)] and the pattern matches, else [raise cls(msg)]. *)
Definition check_str (p : string → bool) (c : exn_class) (msg : string) (v : pyval)
  : res string :=
  match py_str v with
  | Some s => if p s then Ok s else throw c msg
  | None => throw c msg
  end.

(** [type(v) is int] and [lo <= v <= hi], else [raise cls(msg)]. *)
Definition check_int (lo hi : Z) (c : exn_class) (msg : string) (v : pyval) : res Z :=
  match py_int v with
  | Some z => if (lo <=? z)%Z && (z <=? hi)%Z then Ok z else throw c msg
  | None => throw c msg
  end.

(** [type(v) is bool], else [raise cls(msg)]. *)
Definition check_bool (c : exn_class) (msg : string) (v : pyval) : res bool :=
  match py_bool v with
  | Some b => Ok b
  | None => throw c msg
  end.

(** [cls(v)] for a string enumeration whose members have the given values:
    a member of the class itself or any text equal to a value is accepted. *)
Definition check_enum {A} (parse : string → option A) (c : exn_class) (msg : string)
  (v : pyval) : res A :=
  match py_str v with
  | Some s => match parse s with Some a => Ok a | None => throw c msg end
  | None => throw c msg
  end.

(** [isinstance(v, cls)] for a string enumeration: only a member of that class. *)
Definition check_member {A} (cls : string) (parse : string → option A) (c : exn_class)
  (msg : string) (v : pyval) : res A :=
  match v with
  | PEnum cls' s =>
      if decide (cls' = cls) then
        match parse s with Some a => Ok a | None => throw c msg end
      else throw c msg
  | _ => throw c msg
  end.

(** [(1 << 63) - 1] *)
Definition max_i64 : Z := Z.shiftl 1 63 - 1.

(** ** Lemmas: the result monad *)

Local Ltac iff_case :=
  unfold throw in *; split; intros;
  repeat match goal with
  | H : ∃ _, _ |- _ => destruct H
  | H : _ ∧ _ |- _ => destruct H
  end;
  simplify_eq/=; try congruence; try lia; eauto.

Lemma bind_ok {A B} (m : res A) (f : A → res B) b :
  m ≫= f = Ok b ↔ ∃ a, m = Ok a ∧ f a = Ok b.
Proof. destruct m; iff_case. Qed.

Lemma require_ok cond c msg u : require cond c msg = Ok u ↔ cond = true.
Proof. destruct cond, u; iff_case. Qed.

Lemma rewrap_ok {A} c msg (m : res A) a : rewrap c msg m = Ok a ↔ m = Ok a.
Proof.
  destruct m as [b|[k s]]; simpl; [done|].
  destruct (caught_as_value_or_type k); iff_case.
Qed.

Lemma mapM_res_ok {A B} (f : A → res B) l k :
  mapM_res f l = Ok k ↔ Forall2 (λ x y, f x = Ok y) l k.
Proof.
  revert k; induction l as [|x l IH]; intros k; simpl.
  - split; [by intros [= <-]|by inversion 1].
  - rewrite bind_ok. setoid_rewrite bind_ok. split.
    + intros (y & Hy & ys & Hys & [= <-]). constructor; [done|]. by apply IH.
    + inversion 1 as [|? y ? ys Hy Hys]; subst. exists y; split; [done|].
      exists ys. by rewrite IH.
Qed.

Lemma check_str_ok p c msg v s :
  check_str p c msg v = Ok s ↔ py_str v = Some s ∧ p s = true.
Proof.
  unfold check_str. destruct (py_str v) as [t|]; [|iff_case].
  destruct (p t) eqn:?; iff_case.
Qed.

Lemma check_int_ok lo hi c msg v z :
  check_int lo hi c msg v = Ok z ↔ v = PInt z ∧ (lo <= z <= hi)%Z.
Proof.
  unfold check_int. destruct v as [| |z0| | | | | | | | |]; simpl; try solve [iff_case];
  destruct (Z.leb_spec lo z0), (Z.leb_spec z0 hi); iff_case.
Qed.

Lemma check_bool_ok c msg v b : check_bool c msg v = Ok b ↔ v = PBool b.
Proof. unfold check_bool. destruct v; iff_case. Qed.

Lemma check_enum_ok {A} (parse : string → option A) c msg v a :
  check_enum parse c msg v = Ok a ↔ ∃ s, py_str v = Some s ∧ parse s = Some a.
Proof.
  unfold check_enum. destruct (py_str v) as [s|]; [|iff_case].
  destruct (parse s) eqn:?; iff_case.
Qed.

Lemma check_member_ok {A} cls (parse : string → option A) c msg v a :
  check_member cls parse c msg v = Ok a ↔
  ∃ s, v = PEnum cls s ∧ parse s = Some a.
Proof.
  unfold check_member. destruct v; try solve [iff_case].
  all: case_decide; [|iff_case]; subst; destruct (parse value) eqn:?; iff_case.
Qed.

Lemma check_str_PStr p c msg s : p s = true → check_str p c msg (PStr s) = Ok s.
Proof. intros. by apply check_str_ok. Qed.

Lemma check_int_PInt lo hi c msg z :
  (lo <= z <= hi)%Z → check_int lo hi c msg (PInt z) = Ok z.
Proof. intros. by apply check_int_ok. Qed.

Lemma require_true cond c msg : cond = true → require cond c msg = Ok tt.
Proof. by intros ->. Qed.

Lemma rewrap_Ok {A} c msg (m : res A) a : m = Ok a → rewrap c msg m = Ok a.
Proof. by intros ->. Qed.

Lemma bind_Ok {A B} (m : res A) (f : A → res B) a : m = Ok a → m ≫= f = f a.
Proof. by intros ->. Qed.

Lemma inst_of_ok {A} c msg (v : dyn A) a : inst_of c msg v = Ok a ↔ v = Inst a.
Proof. destruct v; iff_case. Qed.

Lemma mapM_inst_of {A} c msg (l : list A) : mapM_res (inst_of c msg) (Inst <$> l) = Ok l.
Proof. apply mapM_res_ok, Forall2_fmap_l, Forall_Forall2_diag, Forall_forall. done. Qed.

Lemma mapM_inst_of_ok {A} c msg (l : list (dyn A)) k :
  mapM_res (inst_of c msg) l = Ok k ↔ l = Inst <$> k.
Proof.
  split; [|intros ->; apply mapM_inst_of]. rewrite mapM_res_ok.
  induction 1 as [|x y l k H%inst_of_ok _ IH]; [done|]. by rewrite H, IH.
Qed.

(** A computation that fails only with exceptions of class [c]. *)
Definition raises_only {A} (c : exn_class) (m : res A) : Prop :=
  ∀ e, m = Err e → exn_cls e = c.

Lemma raises_only_ok {A} c (a : A) : raises_only c (Ok a).
Proof. by intros e ?. Qed.

Lemma raises_only_throw {A} c msg : raises_only c (throw c msg : res A).
Proof. by intros e [= <-]. Qed.

Lemma raises_only_require c cond msg : raises_only c (require cond c msg).
Proof. destruct cond; [apply raises_only_ok|apply raises_only_throw]. Qed.

Lemma raises_only_bind {A B} c (m : res A) (f : A → res B) :
  raises_only c m → (∀ a, raises_only c (f a)) → raises_only c (m ≫= f).
Proof. intros Hm Hf e. destruct m; simpl; [apply Hf|intros [= <-]; by apply Hm]. Qed.

Lemma raises_only_check_str p c msg v : raises_only c (check_str p c msg v).
Proof. intros e. unfold check_str. destruct (py_str v) as [s|]; [destruct (p s)|]; unfold throw; intros ?; by simplify_eq/=. Qed.

Lemma raises_only_check_int lo hi c msg v : raises_only c (check_int lo hi c msg v).
Proof. intros e. unfold check_int. destruct (py_int v); [destruct (_ && _)|]; unfold throw; intros ?; by simplify_eq/=. Qed.

Lemma raises_only_check_bool c msg v : raises_only c (check_bool c msg v).
Proof. intros e. unfold check_bool. destruct (py_bool v); unfold throw; intros ?; by simplify_eq/=. Qed.

Lemma raises_only_check_enum {A} (f : string → option A) c msg v :
  raises_only c (check_enum f c msg v).
Proof. intros e. unfold check_enum. destruct (py_str v) as [s|]; [destruct (f s)|]; unfold throw; intros ?; by simplify_eq/=. Qed.

Lemma raises_only_check_member {A} cls (f : string → option A) c msg v :
  raises_only c (check_member cls f c msg v).
Proof.
  intros e. unfold check_member. destruct v; try solve [unfold throw; by intros [= <-]].
  case_decide; [destruct (f value)|]; unfold throw; intros ?; by simplify_eq/=.
Qed.

Lemma raises_only_inst_of {A} c msg (v : dyn A) : raises_only c (inst_of c msg v).
Proof. destruct v; [apply raises_only_ok|apply raises_only_throw]. Qed.

Lemma raises_only_mapM {A B} c (f : A → res B) l :
  (∀ x, raises_only c (f x)) → raises_only c (mapM_res f l).
Proof.
  intros Hf. induction l; simpl; [apply raises_only_ok|].
  apply raises_only_bind; [done|]. intros. apply raises_only_bind; [done|].
  intros. apply raises_only_ok.
Qed.

Lemma raises_only_rewrap {A} c c' msg (m : res A) :
  raises_only c' m → caught_as_value_or_type c' = true → raises_only c (rewrap c msg m).
Proof.
  intros Hm Hc e. destruct m as [|x]; simpl; [done|].
  rewrite (Hm x eq_refl), Hc. by intros [= <-].
Qed.

(** ** Lemmas: lists *)

Section ListLemmas.
  Context {A : Type} `{EqDecision A}.
  Implicit Types l k : list A.

Lemma mem_spec x l : mem x l = true ↔ x ∈ l.
  Proof. apply bool_decide_eq_true. Qed.

Lemma mem_false x l : mem x l = false ↔ x ∉ l.
  Proof. apply bool_decide_eq_false. Qed.

Lemma length_remove_dups l : length (remove_dups l) ≤ length l.
  Proof. induction l; simpl; [lia|]. case_decide; simpl; lia. Qed.

Lemma no_dups_spec l : no_dups l = true ↔ NoDup l.
  Proof.
    unfold no_dups. rewrite Nat.eqb_eq. split.
    - induction l as [|x l IH]; simpl; [constructor|].
      pose proof (length_remove_dups l). case_decide; simpl; [lia|].
      intros ?. constructor; [done|]. apply IH. lia.
    - induction 1 as [|x l Hx _ IH]; simpl; [done|].
      case_decide; [done|]. simpl. by rewrite IH.
  Qed.

Lemma subset_spec l k : subset l k = true ↔ l ⊆ k.
  Proof.
    unfold subset. rewrite forallb_forall. setoid_rewrite <-list_elem_of_In.
    setoid_rewrite mem_spec. done.
  Qed.

Lemma meets_spec l k : meets l k = true ↔ ∃ x, x ∈ l ∧ x ∈ k.
  Proof.
    unfold meets. rewrite existsb_exists. setoid_rewrite <-list_elem_of_In.
    by setoid_rewrite mem_spec.
  Qed.

Lemma meets_false l k : meets l k = false ↔ ∀ x, x ∈ l → x ∉ k.
  Proof.
    rewrite <-not_true_iff_false, meets_spec. naive_solver.
  Qed.

Lemma fromkeys_aux_elem seen l x :
    x ∈ fromkeys_aux seen l ↔ x ∈ l ∧ x ∉ seen.
  Proof.
    revert seen; induction l as [|y l IH]; intros seen; simpl; [set_solver|].
    destruct (mem y seen) eqn:E.
    - apply mem_spec in E. rewrite IH. set_solver.
    - apply mem_false in E. rewrite elem_of_cons, IH.
      destruct (decide (x = y)); set_solver.
  Qed.

Lemma fromkeys_elem l x : x ∈ fromkeys l ↔ x ∈ l.
  Proof. unfold fromkeys. rewrite fromkeys_aux_elem. set_solver. Qed.

Lemma fromkeys_NoDup l : NoDup (fromkeys l).
  Proof.
    unfold fromkeys. generalize (@nil A). induction l as [|y l IH]; intros seen; simpl.
    - constructor.
    - destruct (mem y seen); [done|]. constructor; [|done].
      rewrite fromkeys_aux_elem. set_solver.
  Qed.

Lemma fromkeys_id l : NoDup l → fromkeys l = l.
  Proof.
    unfold fromkeys. intros Hl. assert (∀ x, x ∈ l → x ∉ @nil A) as Hs by set_solver.
    revert Hs. generalize (@nil A). induction Hl as [|x l Hx _ IH]; intros seen Hs; simpl; [done|].
    rewrite (proj2 (mem_false x seen)) by (apply Hs; set_solver).
    f_equal. apply IH. set_solver.
  Qed.

Lemma add_once_elem l x y : y ∈ add_once l x ↔ y ∈ l ∨ y = x.
  Proof.
    unfold add_once. destruct (mem x l) eqn:E; [apply mem_spec in E|]; set_solver.
  Qed.

Lemma add_once_NoDup l x : NoDup l → NoDup (add_once l x).
  Proof.
    intros Hl. unfold add_once. destruct (mem x l) eqn:E; [done|].
    apply mem_false in E. apply NoDup_app. split_and!; [done| |apply NoDup_singleton].
    set_solver.
  Qed.
End ListLemmas.

Lemma zlen_fmap {A B} (f : A → B) l : zlen (f <$> l) = zlen l.
Proof. unfold zlen. by rewrite length_fmap. Qed.

Lemma NoDup_fmap_same {A B} (f : A → B) l x y :
  NoDup (f <$> l) → x ∈ l → y ∈ l → f x = f y → x = y.
Proof.
  induction l as [|z l IH]; [by intros _ ?%elem_of_nil|]. cbn [fmap list_fmap].
  intros [Hz Hl]%NoDup_cons Hx Hy Hf.
  apply elem_of_cons in Hx as [->|Hx]; apply elem_of_cons in Hy as [->|Hy]; try by auto.
  - destruct Hz. rewrite Hf. by apply list_elem_of_fmap_2.
  - destruct Hz. rewrite <-Hf. by apply list_elem_of_fmap_2.
Qed.

Lemma remove_dups_one {A} `{EqDecision A} (x : A) l :
  (length (remove_dups (x :: l)) =? 1)%nat = true ↔ ∀ y, y ∈ l → y = x.
Proof.
  rewrite Nat.eqb_eq. split.
  - intros H y Hy. assert (y ∈ remove_dups (x :: l)) as Hy' by (apply elem_of_remove_dups; by right).
    assert (x ∈ remove_dups (x :: l)) as Hx' by (apply elem_of_remove_dups; by left).
    destruct (remove_dups (x :: l)) as [|z [|? ?]]; simpl in H; [done| |done].
    apply list_elem_of_singleton in Hy', Hx'. congruence.
  - intros H. pose proof (NoDup_remove_dups (x :: l)) as Hn.
    assert (∀ y, y ∈ remove_dups (x :: l) → y = x) as Hall.
    { intros y. rewrite elem_of_remove_dups, elem_of_cons. naive_solver. }
    assert (x ∈ remove_dups (x :: l)) as Hx by (apply elem_of_remove_dups; by left).
    destruct (remove_dups (x :: l)) as [|a [|b k]]; [by apply elem_of_nil in Hx|done|].
    apply NoDup_cons in Hn as [Hn _]. destruct Hn.
    rewrite (Hall a), (Hall b) by set_solver. by left.
Qed.

Lemma remove_dups_length_perm {A} `{EqDecision A} (l k : list A) :
  (∀ x, x ∈ l ↔ x ∈ k) → length (remove_dups l) = length (remove_dups k).
Proof.
  intros H. apply Permutation_length, NoDup_Permutation; [apply NoDup_remove_dups..|].
  intros x. by rewrite !elem_of_remove_dups.
Qed.

Lemma elem_of_filter_bool {A} (f : A → bool) l x : x ∈ List.filter f l ↔ x ∈ l ∧ f x = true.
Proof. by rewrite !list_elem_of_In, filter_In. Qed.

Lemma existsb_elem {A} (f : A → bool) l : existsb f l = true ↔ ∃ x, x ∈ l ∧ f x = true.
Proof. rewrite existsb_exists. by setoid_rewrite <-list_elem_of_In. Qed.

Lemma existsb_false {A} (f : A → bool) l : existsb f l = false ↔ ∀ x, x ∈ l → f x = false.
Proof.
  rewrite <-not_true_iff_false, existsb_elem. split.
  - intros H x Hx. destruct (f x) eqn:E; [|done]. destruct H. by exists x.
  - intros H (x & Hx & Hf). by rewrite (H x Hx) in Hf.
Qed.

Lemma find_none_iff {A} (f : A → bool) l : List.find f l = None ↔ existsb f l = false.
Proof.
  induction l as [|x l IH]; simpl; [done|]. destruct (f x); simpl; [done|exact IH].
Qed.

Lemma existsb_perm {A} (f : A → bool) l k : l ≡ₚ k → existsb f l = existsb f k.
Proof.
  intros H. apply eq_iff_eq_true. rewrite !existsb_exists. setoid_rewrite <-list_elem_of_In.
  by setoid_rewrite H.
Qed.

Lemma filter_bool_perm {A} (f : A → bool) l k : l ≡ₚ k → List.filter f l ≡ₚ List.filter f k.
Proof.
  induction 1 as [|x l k _ IH|x y l|l k m _ IH1 _ IH2]; simpl; [done| | |by etrans].
  - destruct (f x); [by constructor|done].
  - destruct (f x), (f y); try done. constructor.
Qed.

(** The last element of a sorted list bounds the others. *)
Lemma sorted_last {A} (R : A → A → Prop) l x y :
  StronglySorted R l → last l = Some x → y ∈ l → y = x ∨ R y x.
Proof.
  induction 1 as [|z l Hl IH Hz]; [by intros _ ?%elem_of_nil|]. intros Hx Hy.
  destruct l as [|w l].
  - apply list_elem_of_singleton in Hy as ->. left. by injection Hx.
  - assert (last (w :: l) = Some x) as Hx' by exact Hx.
    apply elem_of_cons in Hy as [->|Hy]; [|by apply IH].
    right. rewrite Forall_forall in Hz. apply Hz. by apply last_Some_elem_of.
Qed.

Lemma insert_by_Permutation {A} (le : A → A → bool) x l :
  insert_by le x l ≡ₚ x :: l.
Proof.
  induction l as [|y l IH]; simpl; [done|].
  destruct (le x y); [done|]. rewrite IH. constructor.
Qed.

Lemma sort_by_Permutation {A} (le : A → A → bool) l : sort_by le l ≡ₚ l.
Proof.
  induction l as [|x l IH]; simpl; [done|].
  by rewrite insert_by_Permutation, IH.
Qed.

Lemma sorted_text_Permutation l : sorted_text l ≡ₚ l.
Proof. apply sort_by_Permutation. Qed.

(** The order a [sort_by] key induces must be total and transitive. *)
Class SortKey {A} (le : A → A → bool) := {
  sort_total : ∀ x y, le x y = true ∨ le y x = true;
  sort_trans : ∀ x y z, le x y = true → le y z = true → le x z = true
}.

Section SortLemmas.
  Context {A : Type} (le : A → A → bool) `{!SortKey le}.

Lemma insert_by_sorted x l :
    StronglySorted (λ a b, le a b = true) l →
    StronglySorted (λ a b, le a b = true) (insert_by le x l).
  Proof.
    induction 1 as [|y l Hl IH Hy]; simpl; [by repeat constructor|].
    destruct (le x y) eqn:E.
    - constructor; [by constructor|]. constructor; [done|].
      eapply Forall_impl; [exact Hy|]. intros z ?. by eapply sort_trans.
    - constructor; [done|]. rewrite insert_by_Permutation.
      constructor; [|done]. destruct (sort_total x y); congruence.
  Qed.

Lemma sort_by_sorted l : StronglySorted (λ a b, le a b = true) (sort_by le l).
  Proof. induction l; simpl; [constructor|]. by apply insert_by_sorted. Qed.
End SortLemmas.

Lemma elem_insert_by {A} (le : A → A → bool) x y l : y ∈ insert_by le x l ↔ y = x ∨ y ∈ l.
Proof. by rewrite insert_by_Permutation, elem_of_cons. Qed.

Lemma sort_by_ext {A} (le le' : A → A → bool) l : (∀ x y, x ∈ l → y ∈ l → le x y = le' x y) → sort_by le l = sort_by le' l.
Proof.
  induction l as [|x l IH]; intros Hle; [done|].
  change (insert_by le x (sort_by le l) = insert_by le' x (sort_by le' l)). rewrite IH by (intros; apply Hle; by right).
  assert (∀ k, (∀ y, y ∈ k → y ∈ l) → insert_by le x k = insert_by le' x k) as Hins.
  { induction k as [|y k IHk]; intros Hk; [done|]. cbn. rewrite (Hle x y) by (by left || (right; apply Hk; by left)).
    rewrite IHk; [done|]. intros z Hz. apply Hk. by right. }
  apply Hins. intros y. by rewrite sort_by_Permutation.
Qed.

Lemma StronglySorted_lookup_2 {A} (R : A → A → Prop) l i j x y : StronglySorted R l → (i < j)%nat → l !! i = Some x → l !! j = Some y → R x y.
Proof.
  intros Hl. revert i j. induction Hl as [|z l _ IH Hz]; intros i j Hij Hi Hj; [done|].
  destruct i as [|i], j as [|j]; try lia; cbn in Hi, Hj.
  - injection Hi as <-. rewrite Forall_forall in Hz. apply Hz. by eapply list_elem_of_lookup_2.
  - eapply (IH i j); [lia|done..].
Qed.

Lemma elem_of_kept {A} (p : A → bool) x l : x ∈ List.filter p l ↔ x ∈ l ∧ p x = true.
Proof. by rewrite !list_elem_of_In, filter_In. Qed.

Lemma NoDup_kept {A B} (f : A → B) (p : A → bool) l : NoDup (f <$> l) → NoDup (f <$> List.filter p l).
Proof.
  induction l as [|x l IH]; [done|]. cbn. inversion_clear 1 as [|? ? Hx Hl]. destruct (p x); [|by apply IH].
  cbn. constructor; [|by apply IH]. intros (y & Hy & Hin)%list_elem_of_fmap. apply Hx. apply list_elem_of_fmap. exists y.
  split; [done|]. by apply elem_of_kept in Hin as [? _].
Qed.

Lemma StronglySorted_kept {A} (R : A → A → Prop) (p : A → bool) l : StronglySorted R l → StronglySorted R (List.filter p l).
Proof.
  induction 1 as [|x l _ IH Hx]; [constructor|]. cbn. destruct (p x); [|done]. constructor; [done|]. rewrite Forall_forall in Hx |- *.
  intros y [Hy _]%elem_of_kept. by apply Hx.
Qed.

#[export] Instance text_sort_key : SortKey String.leb.
Proof.
  split.
  - apply String.leb_total.
  - intros x y z Hxy%Is_true_true Hyz%Is_true_true. apply Is_true_true.
    by apply (PreOrder_Transitive (R := String.le) x y z).
Qed.

#[export] Instance Z_sort_key : SortKey Z.leb.
Proof. split; intros; rewrite ?Z.leb_le in *; lia. Qed.

Section DictLemmas.
  Context `{Countable K} {V : Type} (key : V → K).
  Implicit Types (l : list V) (m : gmap K V).

Lemma dict_by_absent l m k :
    k ∉ key <$> l → foldl (λ m x, <[key x := x]> m) m l !! k = m !! k.
  Proof.
    revert m. induction l as [|c l IH]; intros m Hr; cbn in *; [done|].
    apply not_elem_of_cons in Hr as [Hne Hr]. rewrite IH by done. by rewrite lookup_insert_ne.
  Qed.

Lemma dict_by_present l m c :
    NoDup (key <$> l) → c ∈ l → foldl (λ m x, <[key x := x]> m) m l !! key c = Some c.
  Proof.
    revert m. induction l as [|b l IH]; intros m Hn Hc; [by apply elem_of_nil in Hc|]. cbn in *.
    apply NoDup_cons in Hn as [Hb Hn]. apply elem_of_cons in Hc as [->|Hc]; [|by apply IH].
    rewrite dict_by_absent by done. by rewrite lookup_insert_eq.
  Qed.

Lemma dict_by_elem l k c : dict_by key l !! k = Some c → c ∈ l ∧ key c = k.
  Proof.
    unfold dict_by. induction l as [|b l IH] using rev_ind; simpl; [by rewrite lookup_empty|].
    rewrite foldl_snoc. destruct (decide (key b = k)) as [<-|Hne].
    - rewrite lookup_insert_eq. intros [= <-]. split; [|done]. apply elem_of_app. right. by left.
    - rewrite lookup_insert_ne by done. intros [? ?]%IH. split; [|done]. apply elem_of_app. by left.
  Qed.

  (** With distinct keys the dictionary is the list. *)
Lemma dict_by_lookup l k c : NoDup (key <$> l) → dict_by key l !! k = Some c ↔ c ∈ l ∧ key c = k.
  Proof.
    intros Hn. split; [apply dict_by_elem|]. intros [Hc <-]. by apply dict_by_present.
  Qed.

Lemma dict_by_dom l : dom (dict_by key l) =@{gset K} list_to_set (key <$> l).
  Proof.
    unfold dict_by. assert (∀ m,
      dom (foldl (λ m x, <[key x := x]> m) m l) =@{gset K} dom m ∪ list_to_set (key <$> l)) as Hd.
    { induction l as [|c l IH]; intros m; cbn; [set_solver|]. rewrite IH, dom_insert_L. set_solver. }
    rewrite Hd. set_solver.
  Qed.

Lemma dict_values_id l : NoDup (key <$> l) → dict_values key l = l.
  Proof.
    intros Hn. unfold dict_values. rewrite fromkeys_id by done.
    assert (∀ k, k ⊆ l → omap (λ k, dict_by key l !! k) (key <$> k) = k) as Hk; [|by apply Hk].
    induction k as [|c k IH]; intros Hs; [done|]. cbn.
    rewrite (proj2 (dict_by_lookup l (key c) c Hn)) by (split; [apply Hs; by left|done]).
    f_equal. apply IH. intros x Hx. apply Hs. by right.
  Qed.
End DictLemmas.

Lemma Forall2_eq_map {A B} (f : B → A) (P : A → B → Prop) l k :
  Forall2 P l k → (∀ x y, P x y → x = f y) → l = f <$> k.
Proof. induction 1; intros HP; simpl; [done|]. f_equal; auto. Qed.

Lemma Forall2_fmap_same {A B C} (f : A → C) (g : B → C) (P : A → B → Prop) l k :
  Forall2 P l k → (∀ x y, P x y → f x = g y) → f <$> l = g <$> k.
Proof. induction 1; intros HP; simpl; [done|]. f_equal; auto. Qed.

Lemma identity_length s : is_identity s = true → (String.length s <= 128)%nat.
Proof.
  destruct s as [|c s]; [done|]. simpl. intros [_ H%Nat.leb_le]%andb_true_iff. lia.
Qed.

Lemma identity_not_blank s : is_identity s = true → is_blank s = false.
Proof.
  destruct s as [|c s]; [done|]. simpl. intros [[H _]%andb_true_iff _]%andb_true_iff. clear -H.
  destruct c as [[] [] [] [] [] [] [] []]; by vm_compute in H.
Qed.

(** ** Automation *)

(** Turns hypotheses [_ = Ok _] of monadic code into facts about its steps. *)
Ltac res_step :=
  match goal with
  | H : mbind _ _ = Ok _ |- _ =>
      let a := fresh "a" in let Ha := fresh "Hok" in
      apply bind_ok in H as (a & Ha & H)
  | H : Ok _ = Ok _ |- _ => injection H as H
  | H : Err _ = Ok _ |- _ => discriminate H
  | H : throw _ _ = Ok _ |- _ => discriminate H
  | H : require _ _ _ = Ok _ |- _ => apply require_ok in H
  | H : rewrap _ _ _ = Ok _ |- _ => apply rewrap_ok in H
  | H : check_str _ _ _ _ = Ok _ |- _ => apply check_str_ok in H as [? ?]
  | H : check_int _ _ _ _ _ = Ok _ |- _ => apply check_int_ok in H as [? ?]
  | H : check_bool _ _ _ = Ok _ |- _ => apply check_bool_ok in H
  | H : check_enum _ _ _ _ = Ok _ |- _ => apply check_enum_ok in H as (? & ? & ?)
  | H : check_member _ _ _ _ _ = Ok _ |- _ => apply check_member_ok in H as (? & ? & ?)
  | H : inst_of _ _ _ = Ok _ |- _ => apply inst_of_ok in H
  | H : mapM_res (inst_of _ _) _ = Ok _ |- _ => apply mapM_inst_of_ok in H
  | H : mapM_res _ _ = Ok _ |- _ => apply mapM_res_ok in H
  end.
Ltac res_inv := repeat res_step; simplify_eq/=.

(** Evaluates a monadic goal [m = Ok _] step by step; the side conditions are
    the validity facts of the context. *)
Ltac res_eval :=
  repeat first
    [ rewrite bind_Ok with (1 := eq_refl)
    | erewrite bind_Ok; [|first
        [ apply check_str_PStr; by eauto
        | apply check_int_PInt; by eauto
        | apply require_true; by eauto
        | by eauto ]]; cbn beta ];
  try reflexivity.

(** Reads boolean tests as propositions. *)
Ltac to_prop :=
  repeat match goal with
  | H : _ && _ = true |- _ => apply andb_true_iff in H as [? ?]
  | H : _ || _ = false |- _ => apply orb_false_iff in H as [? ?]
  | H : negb _ = true |- _ => apply negb_true_iff in H
  | H : negb _ = false |- _ => apply negb_false_iff in H
  | H : (_ <=? _)%Z = true |- _ => apply Z.leb_le in H
  | H : (_ <=? _)%Z = false |- _ => apply Z.leb_gt in H
  | H : (_ <? _)%Z = true |- _ => apply Z.ltb_lt in H
  | H : (_ <? _)%Z = false |- _ => apply Z.ltb_ge in H
  | H : (_ =? _)%Z = true |- _ => apply Z.eqb_eq in H
  | H : (_ =? _)%Z = false |- _ => apply Z.eqb_neq in H
  | H : bool_decide _ = true |- _ => apply bool_decide_eq_true in H
  | H : bool_decide _ = false |- _ => apply bool_decide_eq_false in H
  | H : mem _ _ = true |- _ => apply mem_spec in H
  | H : mem _ _ = false |- _ => apply mem_false in H
  | H : no_dups _ = true |- _ => apply no_dups_spec in H
  | H : subset _ _ = true |- _ => apply subset_spec in H
  | H : meets _ _ = true |- _ => apply meets_spec in H as (? & ? & ?)
  | H : meets _ _ = false |- _ => rewrite meets_false in H
  end.

(** Splits every conditional of the goal or of a hypothesis. *)
Ltac cases_if :=
  repeat match goal with
  | H : context [if ?b then _ else _] |- _ => destruct b eqn:?; simplify_eq/=
  | |- context [if ?b then _ else _] => destruct b eqn:?; simplify_eq/=
  end.

(** Closes the conjuncts that hold by the context, leaving a last one that does not. *)
Ltac conjs := repeat (split; [done|]); try done.

(** Closes [raises_only] goals of constructor code. *)
Ltac raises_tac :=
  repeat first
    [ apply raises_only_bind; [|intros ?]
    | apply raises_only_ok | apply raises_only_throw | apply raises_only_require
    | apply raises_only_check_str | apply raises_only_check_int
    | apply raises_only_check_bool | apply raises_only_check_enum
    | apply raises_only_check_member | apply raises_only_inst_of
    | apply raises_only_mapM; intros ? ].

Create HintDb cluster discriminated.
#[export] Hint Resolve fromkeys_NoDup add_once_NoDup : cluster.
