(* ===== verification/PyFloat.v ===== *)
(** Python numbers used as clock readings and lease expiries.

    A Python [float] is an IEEE 754 binary64 value; the executable
    specification of its operations is the Standard Library's [SpecFloat] at
    precision 53 and exponent bound 1024, so additions round and overflow as
    the interpreter's do.  [num] is a Python [int] or [float]. *)
From S2P Require Import Prelude.

Local Open Scope Z_scope.

Definition f64_add (x y : spec_float) : spec_float := SFadd 53 1024 x y.

Definition f64_sub (x y : spec_float) : spec_float := SFsub 53 1024 x y.
Definition f64_mul (x y : spec_float) : spec_float := SFmul 53 1024 x y.
Definition f64_div (x y : spec_float) : spec_float := SFdiv 53 1024 x y.

(** [x < y], [x <= y] on floats, false with a NaN. *)
Definition f64_ltb (x y : spec_float) : bool :=
  match SFcompare x y with Some Lt => true | _ => false end.
Definition f64_leb (x y : spec_float) : bool :=
  match SFcompare x y with Some (Lt | Eq) => true | _ => false end.

(** [min(x, y)] and [max(x, y)]: the first argument unless the second is strictly better. *)
Definition f64_min (x y : spec_float) : spec_float := if f64_ltb y x then y else x.
Definition f64_max (x y : spec_float) : spec_float := if f64_ltb x y then y else x.

(** [float(z)], before the overflow test. *)
Definition f64_of_Z (z : Z) : spec_float := binary_normalize 53 1024 z 0 false.

(** [math.isfinite(x)] *)
Definition f64_finite (x : spec_float) : bool :=
  match x with S754_zero _ | S754_finite _ _ _ => true | _ => false end.

(** [math.nextafter(x, math.inf)] *)
Definition f64_next_up (x : spec_float) : spec_float := SFsucc 53 1024 x.

Inductive num :=
  | NInt (z : Z)
  | NFloat (f : spec_float).

#[export] Instance spec_float_eq_dec : EqDecision spec_float.
Proof. solve_decision. Defined.
#[export] Instance num_eq_dec : EqDecision num.
Proof. solve_decision. Defined.

(** The exact comparison of an integer with a finite float. *)
Definition Z_f64_compare (z : Z) (f : spec_float) : option comparison :=
  match f with
  | S754_nan => None
  | S754_infinity s => Some (if s then Gt else Lt)
  | S754_zero _ => Some (z ?= 0)
  | S754_finite s m e =>
      let v := if s then Z.neg m else Z.pos m in
      Some (if 0 <=? e then z ?= v * 2 ^ e else z * 2 ^ (- e) ?= v)
  end.

Definition num_compare (x y : num) : option comparison :=
  match x, y with
  | NInt a, NInt b => Some (a ?= b)
  | NInt a, NFloat f => Z_f64_compare a f
  | NFloat f, NInt b => option_map CompOpp (Z_f64_compare b f)
  | NFloat f, NFloat g => SFcompare f g
  end.

(** [x == y], [x < y], [x <= y] *)
Definition num_eqb (x y : num) : bool :=
  match num_compare x y with Some Eq => true | _ => false end.
Definition num_ltb (x y : num) : bool :=
  match num_compare x y with Some Lt => true | _ => false end.
Definition num_leb (x y : num) : bool :=
  match num_compare x y with Some (Lt | Eq) => true | _ => false end.

Definition num_finite (x : num) : bool :=
  match x with NInt _ => true | NFloat f => f64_finite f end.

(** The numeric reading of a dynamic value that is an [int] or [float] and
    not a [bool]. *)
Definition py_num (v : pyval) : option num :=
  match v with PInt z => Some (NInt z) | PFloat f => Some (NFloat f) | _ => None end.

(** ** Lemmas *)

Lemma SFcompare_refl f : f ≠ S754_nan → SFcompare f f = Some Eq.
Proof.
  destruct f as [| | |s m e]; simpl; try done; [by destruct s|].
  intros _. rewrite Z.compare_refl. change (Pos.compare_cont Eq m m) with (Pos.compare m m).
  by rewrite Pos.compare_refl; destruct s.
Qed.

Lemma num_eqb_refl x : num_finite x = true → num_eqb x x = true.
Proof.
  destruct x as [z|f]; unfold num_eqb; simpl; [by rewrite Z.compare_refl|].
  intros Hf. rewrite SFcompare_refl; [done|]. by intros ->.
Qed.

Lemma SFcompare_antisym f g : SFcompare g f = option_map CompOpp (SFcompare f g).
Proof.
  destruct f as [[]|[]| |[] m e], g as [[]|[]| |[] m' e']; simpl; try done;
    rewrite (Z.compare_antisym e e');
    change (Pos.compare_cont Eq) with Pos.compare;
    rewrite (Pos.compare_antisym m m'); by destruct (e ?= e'), (Pos.compare m m').
Qed.

Lemma f64_leb_refl x : x ≠ S754_nan → f64_leb x x = true.
Proof. intros. unfold f64_leb. by rewrite SFcompare_refl. Qed.

Lemma f64_min_le_r x y : y ≠ S754_nan → f64_leb (f64_min x y) y = true ∨ x = S754_nan.
Proof.
  intros Hy. unfold f64_min. destruct (f64_ltb y x) eqn:E; [left; by apply f64_leb_refl|].
  unfold f64_ltb, f64_leb in *. rewrite (SFcompare_antisym y x).
  destruct (SFcompare y x) as [[]|] eqn:C; try by left.
  destruct x as [[]|[]| |[] ? ?], y as [[]|[]| |[] ? ?]; simpl in C; try done; by right.
Qed.

(** On finite numbers [not (x < y)] is [y <= x]. *)
Lemma f64_total f g :
  f64_finite f = true → f64_finite g = true →
  num_ltb (NFloat f) (NFloat g) = negb (num_leb (NFloat g) (NFloat f)).
Proof.
  unfold num_ltb, num_leb; simpl. intros Hf Hg. rewrite (SFcompare_antisym f g).
  destruct f as [[]| | |[]], g as [[]| | |[]]; simpl in *; try done;
    by repeat match goal with |- context [Z.compare ?a ?b] => destruct (Z.compare a b) end;
    simpl; try done; destruct (Pos.compare_cont Eq m m0).
Qed.

(** ** The order of the numbers *)

(** Numbers compare as their keys do, lexicographically. *)
Definition f64_key (x : spec_float) : Z * Z * Z :=
  match x with
  | S754_infinity true => (-2, 0, 0)
  | S754_finite true m e => (-1, - e, Zneg m)
  | S754_zero _ | S754_nan => (0, 0, 0)
  | S754_finite false m e => (1, e, Zpos m)
  | S754_infinity false => (2, 0, 0)
  end.

Definition key_le (a b : Z * Z * Z) : Prop :=
  a.1.1 < b.1.1 ∨ a.1.1 = b.1.1 ∧ (a.1.2 < b.1.2 ∨ a.1.2 = b.1.2 ∧ a.2 <= b.2).

Lemma f64_leb_key x y : x ≠ S754_nan → y ≠ S754_nan → f64_leb x y = true ↔ key_le (f64_key x) (f64_key y).
Proof.
  intros Hx Hy. unfold f64_leb, key_le.
  destruct x as [[]|[]| |[] m e], y as [[]|[]| |[] m' e']; try done; simpl; try (split; [lia|done]);
    try (split; [done|lia]); change (Pos.compare_cont Eq) with Pos.compare;
    destruct (Z.compare_spec e e'), (Pos.compare_spec m m'); simpl; split; (done || lia).
Qed.

Lemma f64_ltb_key x y : x ≠ S754_nan → y ≠ S754_nan → f64_ltb x y = true ↔ ¬ key_le (f64_key y) (f64_key x).
Proof.
  intros Hx Hy. rewrite <- f64_leb_key by done. unfold f64_ltb, f64_leb. rewrite (SFcompare_antisym x y).
  assert (SFcompare x y ≠ None) as Hc by (by destruct x as [[]|[]| |[] ? ?], y as [[]|[]| |[] ? ?]).
  destruct (SFcompare x y) as [[]|]; simpl; split; try done; intros H; by destruct H.
Qed.

(** The same order as a test. *)
Definition key_ltb (a b : Z * Z * Z) : bool :=
  (a.1.1 <? b.1.1) || ((a.1.1 =? b.1.1) && ((a.1.2 <? b.1.2) || ((a.1.2 =? b.1.2) && (a.2 <? b.2)))).

Lemma f64_ltb_key_ltb f g : f ≠ S754_nan → g ≠ S754_nan → f64_ltb f g = key_ltb (f64_key f) (f64_key g).
Proof.
  intros Hf Hg. unfold f64_ltb, key_ltb, f64_key.
  destruct f as [[]|[]| |[] m e], g as [[]|[]| |[] m' e']; try done; cbn [SFcompare fst snd].
  all: change (Pos.compare_cont Eq m m') with (Pos.compare m m');
    destruct (Z.compare_spec e e'), (Pos.compare_spec m m'); cbn;
    repeat match goal with
    | |- context [?a <? ?b] => destruct (Z.ltb_spec a b)
    | |- context [?a =? ?b] => destruct (Z.eqb_spec a b)
    end; cbn; try done; lia.
Qed.
