(* ===== verification/CanonicalJson.v ===== *)
(** Canonical JSON as the digests use it: Python's
    [json.dumps(v, sort_keys=True, separators=(",", ":"), ensure_ascii=True)].

    [json_dumps] sorts the members of every object by name ([canon]) and prints without
    spaces, escaping everything outside printable ASCII ([print]).  The theorem of the
    file is that this text determines the value: two values with the same text are equal
    up to the order of object members, so a digest of the text binds the value. *)
From S2P Require Import Prelude PyText.
From Stdlib Require Import Ascii.

Local Open Scope Z_scope.

Inductive json :=
  | JNull
  | JBool (b : bool)
  | JInt (z : Z)
  | JStr (s : string)
  | JArr (l : list json)
  | JObj (m : list (string * json)).

Section JsonInd.
  Variable P : json → Prop.
  Hypotheses (Hnull : P JNull) (Hbool : ∀ b, P (JBool b)) (Hint : ∀ z, P (JInt z))
    (Hstr : ∀ s, P (JStr s)) (Harr : ∀ l, Forall P l → P (JArr l))
    (Hobj : ∀ m, Forall (λ kv, P kv.2) m → P (JObj m)).

Fixpoint json_ind' (v : json) : P v :=
    match v with
    | JNull => Hnull
    | JBool b => Hbool b
    | JInt z => Hint z
    | JStr s => Hstr s
    | JArr l => Harr l ((fix go l : Forall P l :=
        match l with [] => Forall_nil_2 P | x :: l' => Forall_cons_2 P x l' (json_ind' x) (go l') end) l)
    | JObj m => Hobj m ((fix go m : Forall (λ kv, P kv.2) m :=
        match m with
        | [] => Forall_nil_2 _
        | x :: m' => Forall_cons_2 (λ kv, P kv.2) x m' (json_ind' x.2) (go m')
        end) m)
    end.
End JsonInd.

(** ** Printing *)

Definition hex_digit (n : Z) : ascii := ascii_of (if n <? 10 then 48 + n else 87 + n).

(** [\uXXXX] *)
Definition hex_escape (n : Z) : string :=
  String "\" (String "u" (String (hex_digit (n / 4096)) (String (hex_digit (n / 256 mod 16))
    (String (hex_digit (n / 16 mod 16)) (String (hex_digit (n mod 16)) ""))))).

(** The escape of one code point, with a surrogate pair above the basic plane. *)
Definition escape (z : Z) : string :=
  if z =? 34 then String "\" (String (ascii_of 34) "")
  else if z =? 92 then "\\"
  else if z =? 10 then "\n"
  else if z =? 13 then "\r"
  else if z =? 9 then "\t"
  else if z =? 12 then "\f"
  else if z =? 8 then "\b"
  else if (32 <=? z) && (z <=? 126) then String (ascii_of z) ""
  else if z <? 65536 then hex_escape z
  else hex_escape (55296 + (z - 65536) / 1024) +:+ hex_escape (56320 + (z - 65536) mod 1024).

Fixpoint escapes (l : list Z) : string :=
  match l with
  | [] => ""
  | z :: l' => escape z +:+ escapes l'
  end.

Definition quote (s : string) : string :=
  String (ascii_of 34) (escapes (utf8_decode s) +:+ String (ascii_of 34) "").

(** The elements after the first, each after a comma. *)
Fixpoint commas (l : list string) : string :=
  match l with
  | [] => ""
  | s :: l' => String "," (s +:+ commas l')
  end.

Definition items (l : list string) : string :=
  match l with
  | [] => ""
  | s :: l' => s +:+ commas l'
  end.

Fixpoint print (v : json) : string :=
  match v with
  | JNull => "null"
  | JBool true => "true"
  | JBool false => "false"
  | JInt z => pretty z
  | JStr s => quote s
  | JArr l => String "[" (items (List.map print l) +:+ "]")
  | JObj m =>
      String "{" (items (List.map (λ kv, quote kv.1 +:+ String ":" (print kv.2)) m) +:+ "}")
  end.

Definition member_le (a b : string * json) : bool := String.leb a.1 b.1.

(** [sort_keys=True], at every level. *)
Fixpoint canon (v : json) : json :=
  match v with
  | JArr l => JArr (List.map canon l)
  | JObj m => JObj (sort_by member_le (List.map (λ kv, (kv.1, canon kv.2)) m))
  | _ => v
  end.

Definition json_dumps (v : json) : string := print (canon v).

(** ** Strings *)

Definition scalar (z : Z) : bool := (0 <=? z) && (z <? 55296) || (57344 <=? z) && (z <? 1114112).

(** The bytes are the UTF-8 form of a sequence of code points. *)
Definition valid_text (s : string) : bool :=
  forallb scalar (utf8_decode s) && String.eqb (utf8_encode (utf8_decode s)) s.

Definition unhex_digit (c : ascii) : Z :=
  let b := byte_of c in if b <? 58 then b - 48 else b - 87.

Definition unhex (a b c d : ascii) : Z :=
  unhex_digit a * 4096 + unhex_digit b * 256 + unhex_digit c * 16 + unhex_digit d.

(** Reads one escaped code point back. *)
Definition unescape (s : string) : option (Z * string) :=
  match s with
  | String "\"%char (String "u"%char (String a (String b (String c (String d s'))))) =>
      let n := unhex a b c d in
      if (55296 <=? n) && (n <? 56320) then
        match s' with
        | String _ (String _ (String a' (String b' (String c' (String d' s''))))) =>
            Some (65536 + (n - 55296) * 1024 + (unhex a' b' c' d' - 56320), s'')
        | _ => None
        end
      else Some (n, s')
  | String "\"%char (String c s') =>
      let b := byte_of c in
      Some ((if b =? 110 then 10 else if b =? 114 then 13 else if b =? 116 then 9
             else if b =? 102 then 12 else if b =? 98 then 8 else b), s')
  | String c s' => Some (byte_of c, s')
  | EmptyString => None
  end.

Lemma byte_of_ascii_of z : 0 <= z < 256 → byte_of (ascii_of z) = z.
Proof. intros Hz. unfold byte_of, ascii_of. rewrite N_ascii_embedding; lia. Qed.

Lemma unhex_hex_digit n : 0 <= n < 16 → unhex_digit (hex_digit n) = n.
Proof.
  intros Hn. unfold unhex_digit, hex_digit. destruct (Z.ltb_spec n 10);
    rewrite byte_of_ascii_of by lia; [destruct (Z.ltb_spec (48 + n) 58)|destruct (Z.ltb_spec (87 + n) 58)]; lia.
Qed.

Lemma unhex_escape n :
  0 <= n < 65536 →
  unhex (hex_digit (n / 4096)) (hex_digit (n / 256 mod 16)) (hex_digit (n / 16 mod 16))
    (hex_digit (n mod 16)) = n.
Proof.
  intros Hn. unfold unhex.
  assert (n / 256 = n / 16 / 16) as E1 by (rewrite Z.div_div by lia; done).
  assert (n / 4096 = n / 16 / 16 / 16) as E2 by (rewrite !Z.div_div by lia; done).
  rewrite !unhex_hex_digit; rewrite ?E1, ?E2; try (apply Z.mod_pos_bound; lia).
  - pose proof (Z.div_mod n 16 ltac:(lia)). pose proof (Z.div_mod (n / 16) 16 ltac:(lia)).
    pose proof (Z.div_mod (n / 16 / 16) 16 ltac:(lia)). 
    assert (n / 16 / 16 / 16 < 16) by (rewrite !Z.div_div by lia; apply Z.div_lt_upper_bound; lia).
    lia.
  - rewrite !Z.div_div by lia. split; [apply Z.div_pos; lia|apply Z.div_lt_upper_bound; lia].
Qed.

Lemma unescape_hex n r :
  0 <= n < 65536 → ¬ 55296 <= n < 56320 → unescape (hex_escape n +:+ r) = Some (n, r).
Proof.
  intros Hn Hs. unfold hex_escape. simpl.
  rewrite unhex_escape by done.
  destruct (Z.leb_spec 55296 n), (Z.ltb_spec n 56320); try done; lia.
Qed.

(** Reading an escaped code point gives it back, whatever follows. *)
Lemma unescape_escape z r : scalar z = true → unescape (escape z +:+ r) = Some (z, r).
Proof.
  intros Hz. unfold escape.
  destruct (Z.eqb_spec z 34) as [->|]; [done|]. destruct (Z.eqb_spec z 92) as [->|]; [done|].
  destruct (Z.eqb_spec z 10) as [->|]; [done|]. destruct (Z.eqb_spec z 13) as [->|]; [done|].
  destruct (Z.eqb_spec z 9) as [->|]; [done|]. destruct (Z.eqb_spec z 12) as [->|]; [done|].
  destruct (Z.eqb_spec z 8) as [->|]; [done|].
  assert (0 <= z) as Hpos by (unfold scalar in Hz; lia).
  destruct ((32 <=? z) && (z <=? 126)) eqn:Hp.
  - to_prop. pose proof (byte_of_ascii_of z ltac:(lia)) as Hb. simpl.
    destruct (ascii_of z) as [[] [] [] [] [] [] [] []] eqn:Ha; try (by rewrite Hb);
      vm_compute in Hb; lia.
  - destruct (Z.ltb_spec z 65536) as [Hb|Hb].
    + apply unescape_hex; [lia|]. unfold scalar in Hz. lia.
    + unfold scalar in Hz.
      assert (0 <= (z - 65536) / 1024 < 1024) as Hq
        by (split; [apply Z.div_pos; lia|apply Z.div_lt_upper_bound; lia]).
      pose proof (Z.mod_pos_bound (z - 65536) 1024 ltac:(lia)) as Hm.
      pose proof (Z.div_mod (z - 65536) 1024 ltac:(lia)) as Hdm.
      set (q := (z - 65536) / 1024) in *. set (m := (z - 65536) mod 1024) in *.
      unfold hex_escape. simpl. rewrite !unhex_escape by lia.
      destruct (Z.leb_spec 55296 (55296 + q)), (Z.ltb_spec (55296 + q) 56320); try lia.
      simpl. do 2 f_equal. lia.
Qed.

Lemma append_assoc (a b c : string) : (a +:+ b) +:+ c = a +:+ (b +:+ c).
Proof. induction a as [|x a IH]; [done|]. exact (f_equal (String x) IH). Qed.

Lemma escape_inj z w r r' :
  scalar z = true → scalar w = true → escape z +:+ r = escape w +:+ r' → z = w ∧ r = r'.
Proof.
  intros Hz Hw H. pose proof (unescape_escape z r Hz) as H1. pose proof (unescape_escape w r' Hw) as H2.
  rewrite H, H2 in H1. by simplify_eq.
Qed.

Lemma escape_head z : scalar z = true → ∃ c s, escape z = String c s ∧ c ≠ ascii_of 34.
Proof.
  intros Hz. unfold escape, hex_escape. assert (0 <= z) as Hpos by (unfold scalar in Hz; lia).
  destruct (Z.eqb_spec z 34) as [|Hq]; [by do 2 eexists|].
  destruct (z =? 92); [by do 2 eexists|]. destruct (z =? 10); [by do 2 eexists|].
  destruct (z =? 13); [by do 2 eexists|]. destruct (z =? 9); [by do 2 eexists|].
  destruct (z =? 12); [by do 2 eexists|]. destruct (z =? 8); [by do 2 eexists|].
  destruct ((32 <=? z) && (z <=? 126)) eqn:Hp; [|destruct (z <? 65536); by do 2 eexists].
  to_prop. do 2 eexists. split; [done|]. intros E%(f_equal byte_of).
  rewrite !byte_of_ascii_of in E by lia. done.
Qed.

Lemma escapes_inj l l' r r' :
  Forall (λ z, scalar z = true) l → Forall (λ z, scalar z = true) l' →
  escapes l +:+ String (ascii_of 34) r = escapes l' +:+ String (ascii_of 34) r' → l = l' ∧ r = r'.
Proof.
  intros Hl. revert l'; induction Hl as [|z l Hz _ IH]; intros l' Hl' H; destruct Hl' as [|w l' Hw Hl'].
  - by simplify_eq/=.
  - destruct (escape_head w Hw) as (c & s & E & Hc). simpl in H. rewrite E in H. by simplify_eq/=.
  - destruct (escape_head z Hz) as (c & s & E & Hc). simpl in H. rewrite E in H. by simplify_eq/=.
  - cbn [escapes] in H. rewrite !append_assoc in H.
    apply escape_inj in H as [-> H]; [|done..]. apply IH in H as [-> ->]; done.
Qed.

Lemma valid_text_spec s :
  valid_text s = true ↔ Forall (λ z, scalar z = true) (utf8_decode s) ∧ utf8_encode (utf8_decode s) = s.
Proof.
  unfold valid_text. rewrite andb_true_iff, forallb_forall, String.eqb_eq, Forall_forall.
  by setoid_rewrite list_elem_of_In.
Qed.

Lemma quote_inj s t r r' :
  valid_text s = true → valid_text t = true → quote s +:+ r = quote t +:+ r' → s = t ∧ r = r'.
Proof.
  intros [Hs Es]%valid_text_spec [Ht Et]%valid_text_spec H. unfold quote in H. simpl in H.
  injection H as H. rewrite !append_assoc in H. apply escapes_inj in H as [H ->]; [|done..].
  by rewrite <-Es, H, Et.
Qed.

(** ** Numbers *)

Definition int_char (c : ascii) : bool := ascii_between 48 57 c || Ascii.eqb c "-".

(** What may follow a value inside an array, an object or at the end. *)
Definition ends (r : string) : bool :=
  match r with EmptyString => true | String c _ => mem c [","; "]"; "}"]%char end.

Lemma span_inj (p : ascii → bool) a b r r' :
  str_forallb p a = true → str_forallb p b = true →
  match r with EmptyString => True | String c _ => p c = false end →
  match r' with EmptyString => True | String c _ => p c = false end →
  a +:+ r = b +:+ r' → a = b ∧ r = r'.
Proof.
  intros Ha. revert b; induction a as [|c a IH]; intros b Hb Hr Hr' H; destruct b as [|d b]; simpl in *.
  - done.
  - change (r = String d (b +:+ r')) in H. rewrite H in Hr.
    apply andb_true_iff in Hb as [Hd _]. congruence.
  - change (String c (a +:+ r) = r') in H. rewrite <-H in Hr'.
    apply andb_true_iff in Ha as [Hd _]. congruence.
  - apply andb_true_iff in Ha as [_ Ha]. apply andb_true_iff in Hb as [_ Hb]. injection H as -> H.
    destruct (IH Ha b Hb Hr Hr' H) as [-> ->]. done.
Qed.

Lemma pretty_N_char_digit n : ascii_between 48 57 (pretty_N_char n) = true.
Proof. unfold pretty_N_char. by repeat (case_match; try done). Qed.

Lemma pretty_N_go_digits n s :
  str_forallb (ascii_between 48 57) s = true →
  str_forallb (ascii_between 48 57) (pretty_N_go n s) = true.
Proof.
  revert s. induction (N.lt_wf_0 n) as [n _ IH]. intros s Hs.
  destruct (decide (n = 0%N)) as [->|Hn]; [by rewrite pretty_N_go_0|].
  rewrite pretty_N_go_step by lia. apply IH; [apply N.div_lt; lia|].
  simpl. by rewrite pretty_N_char_digit.
Qed.

Lemma pretty_N_digits (n : N) : str_forallb (ascii_between 48 57) (pretty n) = true.
Proof. unfold pretty, pretty_N. case_decide; [done|]. by apply pretty_N_go_digits. Qed.

Lemma str_forallb_impl (p q : ascii → bool) s :
  (∀ c, p c = true → q c = true) → str_forallb p s = true → str_forallb q s = true.
Proof.
  intros H. induction s as [|c s IH]; [done|]. simpl. intros [? ?]%andb_true_iff.
  apply andb_true_iff. auto.
Qed.

Lemma pretty_Z_chars (z : Z) : str_forallb int_char (pretty z) = true.
Proof.
  assert (∀ n : N, str_forallb int_char (pretty n) = true) as Hn.
  { intros n. eapply str_forallb_impl; [|apply pretty_N_digits]. intros c Hc. unfold int_char. by rewrite Hc. }
  destruct z as [|p|p]; [done|exact (Hn (N.pos p))|].
  change (pretty (Z.neg p)) with (String "-" (pretty (N.pos p))). simpl. apply Hn.
Qed.

(** ** Values *)

Fixpoint json_valid (v : json) : bool :=
  match v with
  | JStr s => valid_text s
  | JArr l => forallb json_valid l
  | JObj m => forallb (λ kv, valid_text kv.1 && json_valid kv.2) m
  | _ => true
  end.

(** The first character tells the kinds of value apart. *)
Definition head_tag (s : string) : nat :=
  match s with
  | EmptyString => 0
  | String c _ =>
      if Ascii.eqb c "n" then 1 else if Ascii.eqb c "t" then 2 else if Ascii.eqb c "f" then 3
      else if int_char c then 4 else if Ascii.eqb c (ascii_of 34) then 5
      else if Ascii.eqb c "[" then 6 else if Ascii.eqb c "{" then 7 else 0
  end%nat.

Definition tag (v : json) : nat :=
  match v with
  | JNull => 1 | JBool true => 2 | JBool false => 3 | JInt _ => 4 | JStr _ => 5
  | JArr _ => 6 | JObj _ => 7
  end%nat.

Lemma pretty_Z_head (z : Z) : ∃ c s, pretty z = String c s ∧ int_char c = true.
Proof.
  pose proof (pretty_Z_chars z) as H. destruct (pretty z) as [|c s] eqn:E.
  - destruct z as [|p|p]; [done| |done].
    assert (pretty (N.pos p) = "") as E' by exact E. unfold pretty, pretty_N in E'.
    case_decide; [done|]. rewrite pretty_N_go_step in E' by lia.
    assert (∀ n s, s ≠ "" → pretty_N_go n s ≠ "") as Hne; [|by eapply Hne in E'].
    clear. intros n. induction (N.lt_wf_0 n) as [n _ IH]. intros s Hs.
    destruct (decide (n = 0%N)) as [->|Hn]; [by rewrite pretty_N_go_0|].
    rewrite pretty_N_go_step by lia. apply IH; [apply N.div_lt; lia|done].
  - exists c, s. simpl in H. apply andb_true_iff in H as [? _]. done.
Qed.

Lemma head_tag_print v r : head_tag (print v +:+ r) = tag v.
Proof.
  destruct v as [|[]|z|s|l|m]; try done.
  destruct (pretty_Z_head z) as (c & s & E & Hc). simpl. rewrite E. simpl.
  destruct (Ascii.eqb_spec c "n") as [->|]; [done|]. destruct (Ascii.eqb_spec c "t") as [->|]; [done|].
  destruct (Ascii.eqb_spec c "f") as [->|]; [done|]. by rewrite Hc.
Qed.

Section Items.
  Context {A : Type} (f : A → string) (good : A → Prop) (close : ascii).
  Hypothesis Hclose : mem close ["]"; "}"]%char = true.

  (** The text of an element determines it, whatever ends it. *)
Definition determined (x : A) : Prop :=
    ∀ y r r', good y → ends r = true → ends r' = true → f x +:+ r = f y +:+ r' → x = y ∧ r = r'.

Lemma ends_commas l r : ends (commas l +:+ String close r) = true.
  Proof. destruct l; [|done]. simpl. to_prop. unfold mem. apply bool_decide_eq_true. set_solver. Qed.

Lemma close_not_comma : close ≠ ","%char.
  Proof. intros ->. by vm_compute in Hclose. Qed.

Lemma commas_inj l l' r r' :
    Forall determined l → Forall good l' →
    commas (List.map f l) +:+ String close r = commas (List.map f l') +:+ String close r' →
    l = l' ∧ r = r'.
  Proof.
    intros Hl. revert l'; induction Hl as [|x l Hx _ IH]; intros l' Hl' H; destruct Hl' as [|y l' Hy Hl'].
    - by injection H.
    - injection H as E _. by destruct (close_not_comma E).
    - injection H as E _. by destruct (close_not_comma (eq_sym E)).
    - cbn [List.map commas] in H. injection H as H.
      change ((f x +:+ commas (List.map f l)) +:+ String close r
              = (f y +:+ commas (List.map f l')) +:+ String close r') in H.
      rewrite !append_assoc in H.
      apply Hx in H as [-> H]; [|done|apply ends_commas..]. apply IH in H as [-> ->]; done.
  Qed.

Lemma items_inj l l' r r' :
    (∀ x s, (x ∈ l ∨ good x) → f x +:+ s ≠ String close r ∧ f x +:+ s ≠ String close r') →
    Forall determined l → Forall good l' →
    items (List.map f l) +:+ String close r = items (List.map f l') +:+ String close r' →
    l = l' ∧ r = r'.
  Proof.
    intros Hhead Hl Hl' H. destruct Hl as [|x l Hx Hl], Hl' as [|y l' Hy Hl'].
    - by injection H.
    - cbn [List.map items] in H. rewrite append_assoc in H. symmetry in H.
      by apply (Hhead y) in H; [|right].
    - cbn [List.map items] in H. rewrite append_assoc in H. by apply (Hhead x) in H; [|left; left].
    - cbn [List.map items] in H. rewrite !append_assoc in H.
      apply Hx in H as [-> H]; [|done|apply ends_commas..].
      apply commas_inj in H as [-> ->]; done.
  Qed.
End Items.

Lemma head_not_close v s c r : mem c ["]"; "}"]%char = true → print v +:+ s ≠ String c r.
Proof.
  intros Hc H. pose proof (head_tag_print v s) as Ht. rewrite H in Ht. to_prop.
  assert (c = "]"%char ∨ c = "}"%char) as [->| ->] by set_solver;
    destruct v as [|[]| | | |]; by vm_compute in Ht.
Qed.

(** The printed text of a valid value determines it. *)
Lemma print_determined v :
  json_valid v = true → determined print (λ w, json_valid w = true) v.
Proof.
  induction v as [|b|z|s|l IH|m IH] using json_ind'; intros Hv w r r' Hw Hr Hr' H;
    pose proof (head_tag_print w r') as Htag; rewrite <-H, head_tag_print in Htag;
    destruct w as [|[]|z'|s'|l'|m']; try done; try (destruct b; done).
  - by injection H.
  - destruct b; [|done]. by injection H.
  - destruct b; [done|]. by injection H.
  - simpl in H. apply (span_inj int_char) in H as [H ->].
    + split; [|done]. f_equal. by apply (inj pretty).
    + apply pretty_Z_chars.
    + apply pretty_Z_chars.
    + destruct r as [|c r]; [done|]. simpl in Hr. to_prop. clear -Hr.
      repeat (apply elem_of_cons in Hr as [->|Hr]; [done|]). by apply elem_of_nil in Hr.
    + destruct r' as [|c r']; [done|]. simpl in Hr'. to_prop. clear -Hr'.
      repeat (apply elem_of_cons in Hr' as [->|Hr']; [done|]). by apply elem_of_nil in Hr'.
  - simpl in H. apply quote_inj in H as [-> ->]; done.
  - simpl in H. injection H as H. rewrite !append_assoc in H. simpl in *.
    rewrite forallb_forall in Hv, Hw.
    eapply (items_inj print (λ w, json_valid w = true) "]") in H as [-> ->]; [done|done|..].
    + intros x s _. split; by apply head_not_close.
    + rewrite Forall_forall in IH |- *. intros x Hx. apply IH; [done|]. by apply Hv, list_elem_of_In.
    + apply Forall_forall. intros x Hx. by apply Hw, list_elem_of_In.
  - simpl in H. injection H as H. rewrite !append_assoc in H. simpl in *.
    rewrite forallb_forall in Hv, Hw.
    eapply (items_inj (λ kv, quote kv.1 +:+ String ":" (print kv.2))
      (λ kv, valid_text kv.1 && json_valid kv.2 = true) "}") in H as [-> ->]; [done|done|..].
    + intros x s _. by split.
    + rewrite Forall_forall in IH |- *. intros [k v] Hx [k' v'] q q' Hg Hq Hq' Heq. simpl in *.
      specialize (Hv (k, v) (proj1 (list_elem_of_In _ _) Hx)). simpl in Hv. to_prop.
      rewrite !append_assoc in Heq. apply quote_inj in Heq as [-> Heq]; [|done..].
      injection Heq as Heq. pose proof (IH (k', v) Hx ltac:(done)) as Hd. simpl in Hd.
      by destruct (Hd v' q q' ltac:(done) Hq Hq' Heq) as [-> ->].
    + apply Forall_forall. intros x Hx. by apply Hw, list_elem_of_In.
Qed.

Lemma canon_valid v : json_valid v = true → json_valid (canon v) = true.
Proof.
  induction v as [|b|z|s|l IH|m IH] using json_ind'; try done; simpl; rewrite !forallb_forall; intros Hv.
  - intros x Hx. apply in_map_iff in Hx as (y & <- & Hy). rewrite Forall_forall in IH.
    apply IH; [by apply list_elem_of_In|auto].
  - intros x Hx. apply list_elem_of_In in Hx. rewrite sort_by_Permutation in Hx.
    apply list_elem_of_In, in_map_iff in Hx as (y & <- & Hy). simpl.
    specialize (Hv y Hy). to_prop. apply andb_true_iff. split; [done|].
    rewrite Forall_forall in IH. apply IH; [by apply list_elem_of_In|done].
Qed.

Lemma sort_by_id {A} (le : A → A → bool) l : StronglySorted (λ a b, le a b = true) l → sort_by le l = l.
Proof.
  induction 1 as [|x l Hl IH Hx]; [done|]. simpl. rewrite IH. destruct Hx as [|y l' Hy _]; [done|]. simpl. by rewrite Hy.
Qed.

#[export] Instance member_sort_key : SortKey member_le.
Proof.
  unfold member_le. split; [intros; apply (sort_total (le := String.leb))|].
  intros [x ?] [y ?] [z ?]. apply (sort_trans (le := String.leb)).
Qed.

Lemma insert_by_map {A B} (le : A → A → bool) (le' : B → B → bool) (f : A → B) x l :
  (∀ a b, le' (f a) (f b) = le a b) → List.map f (insert_by le x l) = insert_by le' (f x) (List.map f l).
Proof. intros Hf. induction l as [|y l IH]; [done|]. simpl. rewrite Hf. destruct (le x y); simpl; [done|]. by rewrite IH. Qed.

Lemma sort_by_map {A B} (le : A → A → bool) (le' : B → B → bool) (f : A → B) l :
  (∀ a b, le' (f a) (f b) = le a b) → List.map f (sort_by le l) = sort_by le' (List.map f l).
Proof. intros Hf. induction l as [|x l IH]; [done|]. simpl. by rewrite (insert_by_map le le') by done; rewrite IH. Qed.

(** Reading back canonical text and printing it again changes nothing. *)
Lemma canon_idem v : canon (canon v) = canon v.
Proof.
  induction v as [|b|z|s|l IH|m IH] using json_ind'; try done; simpl; f_equal.
  - rewrite List.map_map. apply map_ext_Forall. exact IH.
  - rewrite (sort_by_map member_le member_le) by done. rewrite (sort_by_id _ (sort_by _ _)) by apply sort_by_sorted, _.
    f_equal. rewrite List.map_map. apply map_ext_Forall. eapply Forall_impl; [exact IH|]. simpl. intros [k v] H. by f_equal.
Qed.

(** The canonical text determines the value: two values of valid strings have the same
    canonical JSON exactly when they are equal up to the order of object members. *)
Lemma json_dumps_injective v w :
  json_valid v = true → json_valid w = true →
  json_dumps v = json_dumps w ↔ canon v = canon w.
Proof.
  intros Hv%canon_valid Hw%canon_valid. unfold json_dumps. split; [|by intros ->].
  intros H. pose proof (print_determined (canon v) Hv (canon w) "" "" Hw eq_refl eq_refl) as Hd.
  assert (∀ s : string, s +:+ "" = s) as Hnil
    by (induction s as [|c s IH]; [done|exact (f_equal (String c) IH)]).
  rewrite !Hnil in Hd. by apply Hd.
Qed.

(** ASCII text is valid. *)
Lemma ascii_decode s :
  str_forallb (ascii_between 0 127) s = true →
  Forall (λ z, 0 <= z < 128) (utf8_decode s) ∧ utf8_encode (utf8_decode s) = s.
Proof.
  induction s as [|c s IH]; [by split|]. simpl. intros [Hc Hs]%andb_true_iff.
  destruct (IH Hs) as [Hd He]. unfold ascii_between in Hc. apply andb_true_iff in Hc as [_ Hc%N.leb_le].
  assert (0 <= byte_of c < 128) as Hb by (unfold byte_of; lia).
  destruct (Z.ltb_spec (byte_of c) 192); [|lia]. split; [by constructor|]. simpl.
  destruct (Z.ltb_spec (byte_of c) 128); [|lia].
  assert (ascii_of (byte_of c) = c) as -> by (unfold ascii_of, byte_of; rewrite N2Z.id; apply ascii_N_embedding).
  exact (f_equal (String c) He).
Qed.

Lemma ascii_valid_text s : str_forallb (ascii_between 0 127) s = true → valid_text s = true.
Proof.
  intros [Hd He]%ascii_decode. apply valid_text_spec. split; [|done].
  eapply Forall_impl; [exact Hd|]. simpl. intros z Hz. unfold scalar. lia.
Qed.

Example json_dumps_escapes :
  json_dumps (JObj [("k", JArr [JNull; JBool true; JInt (-12)]); ("a", JStr "é😀")])
  = "{" +:+ quote "a" +:+ ":" +:+ quote "é😀" +:+ "," +:+ quote "k" +:+ ":[null,true,-12]}".
Proof. vm_compute. reflexivity. Qed.
