(* ===== verification/Sha256.v ===== *)
(** SHA-256, as the runtime uses it through [hashlib.sha256(...).hexdigest()].

    The Standard Library function of the host language, written over bytes as
    integers with 32-bit wrap-around, so that the routing and idempotency keys
    computed from it can be evaluated.  The test vectors at the end are those of
    the standard. *)
From Stdlib Require Import Ascii.
From S2P Require Import Prelude.

Local Open Scope Z_scope.

Definition w32 (z : Z) : Z := Z.land z 4294967295.
Definition add32 (x y : Z) : Z := w32 (x + y).
Definition rotr (n x : Z) : Z := Z.lor (Z.shiftr x n) (w32 (Z.shiftl x (32 - n))).
Definition big_sigma0 (x : Z) : Z := Z.lxor (rotr 2 x) (Z.lxor (rotr 13 x) (rotr 22 x)).
Definition big_sigma1 (x : Z) : Z := Z.lxor (rotr 6 x) (Z.lxor (rotr 11 x) (rotr 25 x)).
Definition small_sigma0 (x : Z) : Z := Z.lxor (rotr 7 x) (Z.lxor (rotr 18 x) (Z.shiftr x 3)).
Definition small_sigma1 (x : Z) : Z := Z.lxor (rotr 17 x) (Z.lxor (rotr 19 x) (Z.shiftr x 10)).
Definition choose (x y z : Z) : Z := Z.lxor (Z.land x y) (Z.land (Z.lxor x 4294967295) z).
Definition majority (x y z : Z) : Z := Z.lxor (Z.land x y) (Z.lxor (Z.land x z) (Z.land y z)).

(** The constants of the standard are the leading 32 bits of the fractional parts
    of roots of the first primes: cube roots for the rounds, square roots for the
    initial state. *)
Definition first_primes (n : nat) : list Z :=
  take n (List.filter (λ p, forallb (λ d, negb (p mod d =? 0)) (seqZ 2 (p - 2))) (seqZ 2 320)).

(** The integer cube root by bisection; [fuel] bits are enough below [8 ^ fuel]. *)
Fixpoint cube_root (fuel : nat) (root z : Z) : Z :=
  match fuel with
  | O => root
  | S f =>
      let next := root + Z.shiftl 1 (Z.of_nat f) in
      cube_root f (if next * next * next <=? z then next else root) z
  end.

Definition round_constants : list Z := Eval vm_compute in
  (λ p, w32 (cube_root 40 0 (Z.shiftl p 96))) <$> first_primes 64.

Definition initial_state : list Z := Eval vm_compute in
  (λ p, w32 (Z.sqrt (Z.shiftl p 64))) <$> first_primes 8.

(** The bytes of a text, and the message with its padding. *)
Fixpoint text_bytes (s : string) : list Z :=
  match s with
  | EmptyString => []
  | String c s' => Z.of_N (N_of_ascii c) :: text_bytes s'
  end.

Definition be_bytes (n : nat) (z : Z) : list Z :=
  (λ i, Z.land (Z.shiftr z (8 * Z.of_nat (n - 1 - i))) 255) <$> seq 0 n.

Definition pad (l : list Z) : list Z :=
  let n := zlen l in
  l ++ 128 :: replicate (Z.to_nat ((55 - n) mod 64)) 0 ++ be_bytes 8 (8 * n).

(** Big-endian words of four bytes. *)
Fixpoint words_of (l : list Z) : list Z :=
  match l with
  | a :: b :: c :: d :: l' =>
      Z.lor (Z.shiftl a 24) (Z.lor (Z.shiftl b 16) (Z.lor (Z.shiftl c 8) d)) :: words_of l'
  | _ => []
  end.

(** The message schedule: [prev] holds the last sixteen words, newest first;
    one round consumes the oldest of them. *)
Definition next_word (prev : list Z) : Z :=
  add32 (small_sigma1 (nth 1 prev 0))
    (add32 (nth 6 prev 0) (add32 (small_sigma0 (nth 14 prev 0)) (nth 15 prev 0))).

Record regs := mk_regs { ra : Z; rb : Z; rc : Z; rd : Z; re : Z; rf : Z; rg : Z; rh : Z }.

Definition compress_round (k w : Z) (r : regs) : regs :=
  let t1 := add32 (rh r) (add32 (big_sigma1 (re r))
              (add32 (choose (re r) (rf r) (rg r)) (add32 k w))) in
  let t2 := add32 (big_sigma0 (ra r)) (majority (ra r) (rb r) (rc r)) in
  mk_regs (add32 t1 t2) (ra r) (rb r) (rc r) (add32 (rd r) t1) (re r) (rf r) (rg r).

Fixpoint rounds (ks : list Z) (prev : list Z) (r : regs) : regs :=
  match ks with
  | [] => r
  | k :: ks' =>
      let w := nth 15 prev 0 in
      rounds ks' (next_word prev :: take 15 prev) (compress_round k w r)
  end.

Definition compress (h block : list Z) : list Z :=
  let r := rounds round_constants (reverse block)
             (mk_regs (nth 0 h 0) (nth 1 h 0) (nth 2 h 0) (nth 3 h 0)
                      (nth 4 h 0) (nth 5 h 0) (nth 6 h 0) (nth 7 h 0)) in
  zip_with add32 h [ra r; rb r; rc r; rd r; re r; rf r; rg r; rh r].

(** [n] blocks of sixteen words. *)
Fixpoint blocks (n : nat) (h ws : list Z) : list Z :=
  match n with
  | O => h
  | S n' => blocks n' (compress h (take 16 ws)) (drop 16 ws)
  end.

(** The eight words of the digest. *)
Definition sha256_words (s : string) : list Z :=
  let ws := words_of (pad (text_bytes s)) in
  blocks (length ws / 16) initial_state ws.

Definition hex_char (z : Z) : ascii :=
  ascii_of_N (Z.to_N (if z <? 10 then 48 + z else 87 + z)).

Fixpoint hex_digits (n : nat) (z : Z) : string :=
  match n with
  | O => ""
  | S n' => String (hex_char (Z.land (Z.shiftr z (4 * Z.of_nat n')) 15)) (hex_digits n' z)
  end.

(** [hashlib.sha256(s).hexdigest()] *)
Definition sha256_hex (s : string) : string :=
  foldr (λ w t, hex_digits 8 w +:+ t) "" (sha256_words s).

(** [int.from_bytes(hashlib.sha256(s).digest()[:16], "big")] *)
Definition sha256_prefix128 (s : string) : Z :=
  foldl (λ acc w, Z.lor (Z.shiftl acc 32) w) 0 (take 4 (sha256_words s)).

(** ** The digest has its shape *)

Lemma hex_char_hex z : is_hex_char (hex_char (Z.land z 15)) = true.
Proof.
  change 15 with (Z.ones 4). rewrite Z.land_ones by lia.
  assert (0 <= z mod 2 ^ 4 < 16) as H by (apply Z.mod_pos_bound; lia).
  revert H. generalize (z mod 2 ^ 4). intros d Hd.
  assert (d = 0 ∨ d = 1 ∨ d = 2 ∨ d = 3 ∨ d = 4 ∨ d = 5 ∨ d = 6 ∨ d = 7 ∨ d = 8 ∨ d = 9
    ∨ d = 10 ∨ d = 11 ∨ d = 12 ∨ d = 13 ∨ d = 14 ∨ d = 15) as Hc by lia.
  by repeat destruct Hc as [->|Hc]; [..|subst d].
Qed.

Lemma hex_digits_shape n z :
  str_forallb is_hex_char (hex_digits n z) = true ∧ String.length (hex_digits n z) = n.
Proof.
  induction n as [|n [IH1 IH2]]; simpl; [done|]. by rewrite hex_char_hex, IH1, IH2.
Qed.

Lemma str_forallb_app p s t :
  str_forallb p (s +:+ t) = str_forallb p s && str_forallb p t.
Proof. induction s as [|c s IH]; simpl; [done|]. by rewrite IH, andb_assoc. Qed.

Lemma text_length_app s t : String.length (s +:+ t) = (String.length s + String.length t)%nat.
Proof. induction s; simpl; auto. Qed.

Lemma sha256_words_length s : length (sha256_words s) = 8%nat.
Proof.
  unfold sha256_words. set (ws := words_of _). generalize (length ws / 16)%nat as n.
  intros n. assert (length initial_state = 8%nat) as H0 by done.
  revert H0. generalize initial_state as h. generalize ws as l.
  induction n as [|n IH]; intros l h Hh; simpl; [done|].
  apply IH. unfold compress. by rewrite length_zip_with, Hh.
Qed.

(** Every digest is 64 lower-case hexadecimal characters: it satisfies the
    digest grammar the cluster records are validated with. *)
Lemma sha256_hex_is_digest s : is_digest (sha256_hex s) = true.
Proof.
  unfold is_digest, sha256_hex. pose proof (sha256_words_length s) as Hl.
  assert (∀ l, str_forallb is_hex_char (foldr (λ w t, hex_digits 8 w +:+ t) "" l) = true
    ∧ String.length (foldr (λ w t, hex_digits 8 w +:+ t) "" l) = (8 * length l)%nat) as H.
  { induction l as [|w l [IH1 IH2]]; [done|]. cbn [foldr].
    destruct (hex_digits_shape 8 w) as [H1 H2].
    rewrite str_forallb_app, text_length_app, H1, H2, IH1, IH2. split; [done|].
    cbn [length]. lia. }
  destruct (H (sha256_words s)) as [H1 H2]. by rewrite H1, H2, Hl.
Qed.

(** ** Test vectors *)

Example sha256_abc :
  sha256_hex "abc" = "ba7816bf8f01cfea414140de5dae2223b00361a396177a9cb410ff61f20015ad".
Proof. vm_compute. reflexivity. Qed.

Example sha256_two_blocks :
  sha256_hex "abcdbcdecdefdefgefghfghighijhijkijkljklmklmnlmnomnopnopq"
  = "248d6a61d20638b8e5c026930c3e6039a33ce45964ff2167f6ecedd419db06c1".
Proof. vm_compute. reflexivity. Qed.
