(* ===== verification/Availability.v ===== *)
(** Availability profiles and the provider-neutral takeover gates
    ([sonder_runtime/domain/cluster_availability.py]).

    The evidence records with their constructors, dictionary forms and parsers,
    the replication and takeover gates, and the topology assessment.  A
    constructor takes the raw Python values and runs the checks of
    [__post_init__] in their order; a record is what a successful construction
    stores. *)
From S2P Require Import Prelude.

Local Open Scope Z_scope.

Definition CONTROL_STATE_PROTOCOL_VERSION : Z := 1.
Definition MAX_PROFILE_MEMBERS : Z := 16.
Definition MAX_REPLICA_IDS : Z := 64.
Definition MAX_EVENT_SEQUENCE : Z := Z.shiftl 1 63 - 1.
Definition _RESOURCE_KINDS : list string :=
  ["session"; "attempt"; "job"; "approval"; "memory_write"].

Inductive AvailabilityProfile := SINGLE_PC | TWO_PC.
Inductive ControlStateBackend := LOCAL_SQLITE | PER_NODE_LOCAL_SQLITE.
Inductive PartitionState := SAFE | AMBIGUOUS | MINORITY | UNAVAILABLE.

#[export] Instance AvailabilityProfile_eq_dec : EqDecision AvailabilityProfile.
Proof. solve_decision. Defined.
#[export] Instance PartitionState_eq_dec : EqDecision PartitionState.
Proof. solve_decision. Defined.

Definition profile_value (p : AvailabilityProfile) : string :=
  match p with SINGLE_PC => "single-pc" | TWO_PC => "two-pc" end.
Definition backend_value (b : ControlStateBackend) : string :=
  match b with LOCAL_SQLITE => "local-sqlite" | PER_NODE_LOCAL_SQLITE => "per-node-local-sqlite" end.
Definition partition_value (p : PartitionState) : string :=
  match p with
  | SAFE => "safe" | AMBIGUOUS => "ambiguous"
  | MINORITY => "minority" | UNAVAILABLE => "unavailable"
  end.

Definition profile_of_value (s : string) : option AvailabilityProfile :=
  if String.eqb s "single-pc" then Some SINGLE_PC
  else if String.eqb s "two-pc" then Some TWO_PC else None.
Definition partition_of_value (s : string) : option PartitionState :=
  if String.eqb s "safe" then Some SAFE
  else if String.eqb s "ambiguous" then Some AMBIGUOUS
  else if String.eqb s "minority" then Some MINORITY
  else if String.eqb s "unavailable" then Some UNAVAILABLE else None.

(** ** Field checks *)

Definition _identity (value : pyval) (field : string) : res string :=
  check_str is_identity AvailabilityProfileError
    (field +:+ " must be a bounded stable identity") value.

Definition _positive_integer (value : pyval) (field : string) (maximum : Z) : res Z :=
  check_int 1 maximum AvailabilityProfileError
    (field +:+ " must be an integer within 1.." +:+ pretty maximum) value.

Definition _protocol_version (value : pyval) (field : string) : res Z :=
  _positive_integer value field 16.

Definition _digest (value : pyval) (field : string) : res string :=
  check_str is_digest AvailabilityProfileError
    (field +:+ " must be a canonical SHA-256 digest") value.

Definition _resource_kind (value : pyval) : res string :=
  kind ← _identity value "resource_kind";
  _ ← require (mem kind _RESOURCE_KINDS) AvailabilityProfileError
        "resource_kind is not supported";
  Ok kind.

Definition _identities (values : pyval) (field : string) (maximum : Z) : res (list string) :=
  match values with
  | PTuple l =>
      _ ← require (zlen l <=? maximum) AvailabilityProfileError
            (field +:+ " must be an immutable tuple of at most " +:+ pretty maximum
             +:+ " identities");
      normalized ← mapM_res (λ v, _identity v field) l;
      _ ← require (no_dups normalized) AvailabilityProfileError
            (field +:+ " must not contain duplicates");
      Ok normalized
  | _ => throw AvailabilityProfileError
           (field +:+ " must be an immutable tuple of at most " +:+ pretty maximum
            +:+ " identities")
  end.

(** A member of the enumeration is text equal to its value, so the class test
    and the lookup by value agree. *)
Definition _profile (value : pyval) : res AvailabilityProfile :=
  match py_str value with
  | Some s =>
      if String.eqb s "single-host" then Ok SINGLE_PC
      else if String.eqb s "pooled-pair" then Ok TWO_PC
      else match profile_of_value s with
           | Some p => Ok p
           | None => throw AvailabilityProfileError "profile must be single-pc or two-pc"
           end
  | None => throw AvailabilityProfileError "profile must be a supported availability profile"
  end.

(** ** Evidence records *)

Record OwnershipScope := mk_OwnershipScope {
  os_cluster_id : string;
  os_resource_kind : string;
  os_resource_id : string;
  os_owner_id : string;
  os_epoch : Z
}.
#[export] Instance OwnershipScope_eq_dec : EqDecision OwnershipScope.
Proof. solve_decision. Defined.

Definition OwnershipScope_init
    (cluster_id resource_kind resource_id owner_id epoch : pyval) : res OwnershipScope :=
  cluster ← _identity cluster_id "cluster_id";
  kind ← _resource_kind resource_kind;
  resource ← _identity resource_id "resource_id";
  owner ← _identity owner_id "owner_id";
  e ← _positive_integer epoch "epoch" MAX_EVENT_SEQUENCE;
  Ok (mk_OwnershipScope cluster kind resource owner e).

Definition OwnershipScope_owner_epoch (s : OwnershipScope) : Z := os_epoch s.

Definition OwnershipScope_as_dict (s : OwnershipScope) : pyval :=
  PDict [(PStr "cluster_id", PStr (os_cluster_id s));
         (PStr "resource_kind", PStr (os_resource_kind s));
         (PStr "resource_id", PStr (os_resource_id s));
         (PStr "owner_id", PStr (os_owner_id s));
         (PStr "epoch", PInt (os_epoch s))].

(** The lease is any object: [None], or its readable attributes. *)
Definition OwnershipScope_from_lease (lease : option (list (pyval * pyval)))
  : res OwnershipScope :=
  match lease with
  | None => throw AvailabilityProfileError "lease is required"
  | Some attrs =>
      match dict_get "cluster_id" attrs, dict_get "resource_kind" attrs,
            dict_get "resource_id" attrs, dict_get "owner_id" attrs,
            dict_get "epoch" attrs with
      | Some c, Some k, Some r, Some o, Some e => OwnershipScope_init c k r o e
      | _, _, _, _, _ =>
          throw AvailabilityProfileError "lease lacks scoped ownership fields"
      end
  end.

Record ControlStateEvent := mk_ControlStateEvent {
  ev_event_id : string;
  ev_cluster_id : string;
  ev_resource_kind : string;
  ev_resource_id : string;
  ev_owner_id : string;
  ev_owner_epoch : Z;
  ev_sequence : Z;
  ev_payload_digest : string;
  ev_protocol_version : Z
}.
#[export] Instance ControlStateEvent_eq_dec : EqDecision ControlStateEvent.
Proof. solve_decision. Defined.

Definition ControlStateEvent_init
    (event_id cluster_id resource_kind resource_id owner_id owner_epoch sequence
     payload_digest protocol_version : pyval) : res ControlStateEvent :=
  event ← _identity event_id "event_id";
  cluster ← _identity cluster_id "cluster_id";
  resource ← _identity resource_id "resource_id";
  owner ← _identity owner_id "owner_id";
  kind ← _resource_kind resource_kind;
  epoch ← _positive_integer owner_epoch "owner_epoch" MAX_EVENT_SEQUENCE;
  seq ← _positive_integer sequence "sequence" MAX_EVENT_SEQUENCE;
  payload ← _digest payload_digest "payload_digest";
  version ← _protocol_version protocol_version "protocol_version";
  Ok (mk_ControlStateEvent event cluster kind resource owner epoch seq payload version).

Definition ControlStateEvent_scope (e : ControlStateEvent) : res OwnershipScope :=
  OwnershipScope_init (PStr (ev_cluster_id e)) (PStr (ev_resource_kind e))
    (PStr (ev_resource_id e)) (PStr (ev_owner_id e)) (PInt (ev_owner_epoch e)).

Definition ControlStateEvent_as_dict (e : ControlStateEvent) : pyval :=
  PDict [(PStr "event_id", PStr (ev_event_id e));
         (PStr "cluster_id", PStr (ev_cluster_id e));
         (PStr "resource_kind", PStr (ev_resource_kind e));
         (PStr "resource_id", PStr (ev_resource_id e));
         (PStr "owner_id", PStr (ev_owner_id e));
         (PStr "owner_epoch", PInt (ev_owner_epoch e));
         (PStr "sequence", PInt (ev_sequence e));
         (PStr "payload_digest", PStr (ev_payload_digest e));
         (PStr "protocol_version", PInt (ev_protocol_version e))].

Definition ControlStateEvent_fields : list string :=
  ["event_id"; "cluster_id"; "resource_kind"; "resource_id"; "owner_id"; "owner_epoch";
   "sequence"; "payload_digest"; "protocol_version"].

Definition ControlStateEvent_from_dict (value : pyval) : res ControlStateEvent :=
  match value with
  | PDict d =>
      _ ← require (dict_keys_are ControlStateEvent_fields d) AvailabilityProfileError
            "control-state event fields are invalid";
      rewrap AvailabilityProfileError "control-state event is invalid"
        (ControlStateEvent_init (field_of "event_id" d) (field_of "cluster_id" d)
           (field_of "resource_kind" d) (field_of "resource_id" d) (field_of "owner_id" d)
           (field_of "owner_epoch" d) (field_of "sequence" d) (field_of "payload_digest" d)
           (field_of "protocol_version" d))
  | _ => throw AvailabilityProfileError "control-state event must be an object"
  end.

Record ReplicatedControlStateCapabilities := mk_Capabilities {
  cap_provider_id : string;
  cap_protocol_version : Z;
  cap_data_replica_ids : list string;
  cap_witness_ids : list string;
  cap_durable_acknowledgements : bool;
  cap_external_fencing : bool;
  cap_partition_policy : PartitionState
}.

Definition Capabilities_init
    (provider_id protocol_version data_replica_ids witness_ids durable_acknowledgements
     external_fencing partition_policy : pyval) : res ReplicatedControlStateCapabilities :=
  provider ← _identity provider_id "provider_id";
  version ← _protocol_version protocol_version "protocol_version";
  data ← _identities data_replica_ids "data_replica_ids" MAX_REPLICA_IDS;
  witnesses ← _identities witness_ids "witness_ids" MAX_REPLICA_IDS;
  _ ← require (negb (meets data witnesses)) AvailabilityProfileError
        "a provider identity cannot be both a data replica and a witness";
  durable ← check_bool AvailabilityProfileError
              "durable_acknowledgements must be boolean" durable_acknowledgements;
  fencing ← check_bool AvailabilityProfileError
              "external_fencing must be boolean" external_fencing;
  policy ← check_member "PartitionState" partition_of_value AvailabilityProfileError
             "partition_policy must be a PartitionState" partition_policy;
  Ok (mk_Capabilities provider version data witnesses durable fencing policy).

Definition Capabilities_data_replica_count (c : ReplicatedControlStateCapabilities) : Z :=
  zlen (cap_data_replica_ids c).

Record ReplicationAcknowledgement := mk_Acknowledgement {
  ack_event_id : string;
  ack_cluster_id : string;
  ack_owner_epoch : Z;
  ack_sequence : Z;
  ack_provider_id : string;
  ack_protocol_version : Z;
  ack_data_replica_ids : list string;
  ack_witness_ids : list string;
  ack_durable : bool
}.

Definition Acknowledgement_init
    (event_id cluster_id owner_epoch sequence provider_id protocol_version
     data_replica_ids witness_ids durable : pyval) : res ReplicationAcknowledgement :=
  event ← _identity event_id "event_id";
  cluster ← _identity cluster_id "cluster_id";
  epoch ← _positive_integer owner_epoch "owner_epoch" MAX_EVENT_SEQUENCE;
  seq ← _positive_integer sequence "sequence" MAX_EVENT_SEQUENCE;
  provider ← _identity provider_id "provider_id";
  version ← _protocol_version protocol_version "protocol_version";
  data ← _identities data_replica_ids "data_replica_ids" MAX_REPLICA_IDS;
  witnesses ← _identities witness_ids "witness_ids" MAX_REPLICA_IDS;
  _ ← require (negb (meets data witnesses)) AvailabilityProfileError
        "an acknowledgement identity cannot be both data and witness";
  d ← check_bool AvailabilityProfileError "durable must be boolean" durable;
  Ok (mk_Acknowledgement event cluster epoch seq provider version data witnesses d).

Definition Acknowledgement_data_replica_count (a : ReplicationAcknowledgement) : Z :=
  zlen (ack_data_replica_ids a).

Definition Acknowledgement_as_dict (a : ReplicationAcknowledgement) : pyval :=
  PDict [(PStr "event_id", PStr (ack_event_id a));
         (PStr "cluster_id", PStr (ack_cluster_id a));
         (PStr "owner_epoch", PInt (ack_owner_epoch a));
         (PStr "sequence", PInt (ack_sequence a));
         (PStr "provider_id", PStr (ack_provider_id a));
         (PStr "protocol_version", PInt (ack_protocol_version a));
         (PStr "data_replica_ids", PList (PStr <$> ack_data_replica_ids a));
         (PStr "witness_ids", PList (PStr <$> ack_witness_ids a));
         (PStr "durable", PBool (ack_durable a))].

Definition Acknowledgement_fields : list string :=
  ["event_id"; "cluster_id"; "owner_epoch"; "sequence"; "provider_id"; "protocol_version";
   "data_replica_ids"; "witness_ids"; "durable"].

(** [isinstance(v, (list, tuple))] *)
Definition as_sequence (v : pyval) : option (list pyval) :=
  match v with PList l | PTuple l => Some l | _ => None end.

Definition Acknowledgement_from_dict (value : pyval) : res ReplicationAcknowledgement :=
  match value with
  | PDict d =>
      _ ← require (dict_keys_are Acknowledgement_fields d) AvailabilityProfileError
            "replication acknowledgement fields are invalid";
      match as_sequence (field_of "data_replica_ids" d), as_sequence (field_of "witness_ids" d) with
      | Some replica_values, Some witness_values =>
          rewrap AvailabilityProfileError "replication acknowledgement is invalid"
            (Acknowledgement_init (field_of "event_id" d) (field_of "cluster_id" d)
               (field_of "owner_epoch" d) (field_of "sequence" d) (field_of "provider_id" d)
               (field_of "protocol_version" d) (PTuple replica_values) (PTuple witness_values)
               (field_of "durable" d))
      | _, _ => throw AvailabilityProfileError
                  "replication acknowledgement replica fields are invalid"
      end
  | _ => throw AvailabilityProfileError "replication acknowledgement must be an object"
  end.

Record FenceReceipt := mk_FenceReceipt {
  fr_receipt_id : string;
  fr_cluster_id : string;
  fr_resource_kind : string;
  fr_resource_id : string;
  fr_previous_owner_id : string;
  fr_previous_owner_epoch : Z;
  fr_provider_id : string;
  fr_protocol_version : Z;
  fr_partition_state : PartitionState;
  fr_external : bool;
  fr_accepted : bool
}.

Definition FenceReceipt_init
    (receipt_id cluster_id resource_kind resource_id previous_owner_id previous_owner_epoch
     provider_id protocol_version partition_state external accepted : pyval)
  : res FenceReceipt :=
  receipt ← _identity receipt_id "receipt_id";
  cluster ← _identity cluster_id "cluster_id";
  kind ← _resource_kind resource_kind;
  resource ← _identity resource_id "resource_id";
  owner ← _identity previous_owner_id "previous_owner_id";
  epoch ← _positive_integer previous_owner_epoch "previous_owner_epoch" MAX_EVENT_SEQUENCE;
  provider ← _identity provider_id "provider_id";
  version ← _protocol_version protocol_version "protocol_version";
  state ← check_member "PartitionState" partition_of_value AvailabilityProfileError
            "partition_state must be a PartitionState" partition_state;
  ext ← check_bool AvailabilityProfileError "external must be boolean" external;
  acc ← check_bool AvailabilityProfileError "accepted must be boolean" accepted;
  Ok (mk_FenceReceipt receipt cluster kind resource owner epoch provider version state ext acc).

Definition FenceReceipt_as_dict (r : FenceReceipt) : pyval :=
  PDict [(PStr "receipt_id", PStr (fr_receipt_id r));
         (PStr "cluster_id", PStr (fr_cluster_id r));
         (PStr "resource_kind", PStr (fr_resource_kind r));
         (PStr "resource_id", PStr (fr_resource_id r));
         (PStr "previous_owner_id", PStr (fr_previous_owner_id r));
         (PStr "previous_owner_epoch", PInt (fr_previous_owner_epoch r));
         (PStr "provider_id", PStr (fr_provider_id r));
         (PStr "protocol_version", PInt (fr_protocol_version r));
         (PStr "partition_state", PStr (partition_value (fr_partition_state r)));
         (PStr "external", PBool (fr_external r));
         (PStr "accepted", PBool (fr_accepted r))].

Definition FenceReceipt_fields : list string :=
  ["receipt_id"; "cluster_id"; "resource_kind"; "resource_id"; "previous_owner_id";
   "previous_owner_epoch"; "provider_id"; "protocol_version"; "partition_state"; "external";
   "accepted"].

(** [PartitionState(v)] raises [ValueError] on any other value, which the
    surrounding handler turns into the contract error. *)
Definition FenceReceipt_from_dict (value : pyval) : res FenceReceipt :=
  match value with
  | PDict d =>
      _ ← require (dict_keys_are FenceReceipt_fields d) AvailabilityProfileError
            "fence receipt fields are invalid";
      rewrap AvailabilityProfileError "fence receipt is invalid"
        (state ← check_enum partition_of_value ValueError "is not a valid PartitionState"
                   (field_of "partition_state" d);
         FenceReceipt_init (field_of "receipt_id" d) (field_of "cluster_id" d)
           (field_of "resource_kind" d) (field_of "resource_id" d)
           (field_of "previous_owner_id" d) (field_of "previous_owner_epoch" d)
           (field_of "provider_id" d) (field_of "protocol_version" d)
           (PEnum "PartitionState" (partition_value state))
           (field_of "external" d) (field_of "accepted" d))
  | _ => throw AvailabilityProfileError "fence receipt must be an object"
  end.

(** ** The replication and takeover gates *)

Record ReplicationDecision := mk_ReplicationDecision {
  rd_accepted : bool;
  rd_reason : string;
  rd_data_replica_count : Z
}.

Record TakeoverDecision := mk_TakeoverDecision {
  td_allowed : bool;
  td_reason : string;
  td_next_epoch : option Z;
  td_data_replica_count : Z
}.

Definition validate_replication_acknowledgement
    (event : dyn ControlStateEvent) (acknowledgement : dyn ReplicationAcknowledgement)
    (provider : dyn ReplicatedControlStateCapabilities) (minimum_data_replicas : pyval)
  : res ReplicationDecision :=
  let refuse reason := Ok (mk_ReplicationDecision false reason 0) in
  match event, acknowledgement, provider with
  | Foreign, _, _ => refuse "invalid_event"
  | _, Foreign, _ => refuse "invalid_acknowledgement"
  | _, _, Foreign => refuse "invalid_provider"
  | Inst ev, Inst ack, Inst prov =>
      minimum ← check_int 1 MAX_REPLICA_IDS AvailabilityProfileError
        "minimum_data_replicas is outside the supported bound" minimum_data_replicas;
      if negb (ev_protocol_version ev =? ack_protocol_version ack)
         || negb (ev_protocol_version ev =? cap_protocol_version prov)
      then refuse "protocol_version_mismatch"
      else if negb (String.eqb (ack_provider_id ack) (cap_provider_id prov))
      then refuse "provider_mismatch"
      else if negb (String.eqb (ack_event_id ack) (ev_event_id ev))
              || negb (String.eqb (ack_cluster_id ack) (ev_cluster_id ev))
      then refuse "acknowledgement_mismatch"
      else if negb (ack_owner_epoch ack =? ev_owner_epoch ev)
              || negb (ack_sequence ack =? ev_sequence ev)
      then refuse "acknowledgement_mismatch"
      else if negb (cap_durable_acknowledgements prov) || negb (ack_durable ack)
      then refuse "durable_acknowledgement_required"
      else if negb (subset (ack_data_replica_ids ack) (cap_data_replica_ids prov))
      then refuse "unrecognized_data_replica"
      else
        let count := Acknowledgement_data_replica_count ack in
        if count <? minimum
        then Ok (mk_ReplicationDecision false "insufficient_data_replicas" count)
        else Ok (mk_ReplicationDecision true "acknowledgement-accepted" count)
  end.

Definition evaluate_takeover
    (ownership : dyn OwnershipScope) (new_owner_id : pyval) (event : dyn ControlStateEvent)
    (acknowledgement : dyn ReplicationAcknowledgement) (fence_receipt : dyn FenceReceipt)
    (provider : option (dyn ReplicatedControlStateCapabilities)) (minimum_data_replicas : pyval)
  : res TakeoverDecision :=
  let refuse reason := Ok (mk_TakeoverDecision false reason None 0) in
  match ownership with
  | Foreign => refuse "invalid_ownership"
  | Inst own =>
  match provider with
  | None => refuse "external_provider_required"
  | Some Foreign => refuse "invalid_provider"
  | Some (Inst prov) =>
  match _identity new_owner_id "new_owner_id" with
  | Err _ => refuse "invalid_new_owner"
  | Ok candidate_owner =>
  if String.eqb candidate_owner (os_owner_id own) then refuse "owner_must_change"
  else if MAX_EVENT_SEQUENCE <=? os_epoch own then refuse "epoch_exhausted"
  else if negb (cap_external_fencing prov) then refuse "external_fencing_required"
  else if bool_decide (cap_partition_policy prov ≠ SAFE) then refuse "partition_policy_unverified"
  else match event with
  | Foreign => refuse "invalid_event"
  | Inst ev =>
  scope ← ControlStateEvent_scope ev;
  if bool_decide (scope ≠ own) then refuse "ownership_mismatch"
  else
  result ← validate_replication_acknowledgement event acknowledgement (Inst prov)
             minimum_data_replicas;
  if negb (rd_accepted result)
  then Ok (mk_TakeoverDecision false (rd_reason result) None (rd_data_replica_count result))
  else match fence_receipt with
  | Foreign => refuse "invalid_fence_receipt"
  | Inst receipt =>
  if negb (fr_protocol_version receipt =? ev_protocol_version ev)
     || negb (fr_protocol_version receipt =? cap_protocol_version prov)
  then refuse "protocol_version_mismatch"
  else if negb (String.eqb (fr_provider_id receipt) (cap_provider_id prov))
  then refuse "provider_mismatch"
  else if negb (fr_external receipt) || negb (fr_accepted receipt)
  then refuse "external_fence_receipt_required"
  else if bool_decide (fr_partition_state receipt = AMBIGUOUS) then refuse "ambiguous_partition"
  else if bool_decide (fr_partition_state receipt = MINORITY) then refuse "minority_partition"
  else if bool_decide (fr_partition_state receipt ≠ SAFE)
  then refuse "partition_state_unavailable"
  else if negb (String.eqb (fr_cluster_id receipt) (os_cluster_id own))
          || negb (String.eqb (fr_resource_kind receipt) (os_resource_kind own))
          || negb (String.eqb (fr_resource_id receipt) (os_resource_id own))
          || negb (String.eqb (fr_previous_owner_id receipt) (os_owner_id own))
          || negb (fr_previous_owner_epoch receipt =? os_epoch own)
  then refuse "fence_scope_mismatch"
  else Ok (mk_TakeoverDecision true "takeover-proof-satisfied" (Some (os_epoch own + 1))
             (rd_data_replica_count result))
  end end end end end.

(** ** Topology assessment *)

Record AvailabilityProfileStatus := mk_Status {
  st_profile : AvailabilityProfile;
  st_member_ids : list string;
  st_local_node_id : string;
  st_preferred_primary : string;
  st_control_state_scope : ControlStateBackend;
  st_resource_pooling : bool;
  st_provider_contract_valid : bool;
  st_automatic_takeover_available : bool;
  st_automatic_failback_available : bool;
  st_takeover_mode : string;
  st_partition_policy : string;
  st_reasons : list string;
  st_guarantees : list string;
  st_limits : list string
}.

Definition Status_valid (s : AvailabilityProfileStatus) : bool := true.

Definition takeover_reason (mode : string) : string :=
  if String.eqb mode "disabled" then "single-PC control state has no remote takeover path"
  else if String.eqb mode "external-provider-required" then
    "two-PC pooling has no external replicated control-state provider"
  else if String.eqb mode "protocol-version-mismatch" then
    "external provider protocol version does not match this contract"
  else if String.eqb mode "external-provider-contract-invalid" then
    "external provider does not satisfy durable data and fencing prerequisites"
  else if String.eqb mode "external-provider-proof-required" then
    "provider capability contract is present; exact fence and data evidence is still required"
  else "takeover is unavailable".

Definition capability (available : bool) (reason : string) : pyval :=
  PDict [(PStr "available", PBool available); (PStr "reason", PStr reason)].

Definition Status_as_dict (s : AvailabilityProfileStatus) : pyval :=
  PDict [(PStr "profile", PStr (profile_value (st_profile s)));
         (PStr "configured_members", PList (PStr <$> st_member_ids s));
         (PStr "local_node", PStr (st_local_node_id s));
         (PStr "preferred_primary", PStr (st_preferred_primary s));
         (PStr "control_state_scope", PStr (backend_value (st_control_state_scope s)));
         (PStr "resource_pooling", PBool (st_resource_pooling s));
         (PStr "provider_contract_valid", PBool (st_provider_contract_valid s));
         (PStr "partition_policy", PStr (st_partition_policy s));
         (PStr "capabilities", PDict
            [(PStr "automatic_takeover",
              capability (st_automatic_takeover_available s) (takeover_reason (st_takeover_mode s)));
             (PStr "automatic_failback",
              capability (st_automatic_failback_available s)
                "automatic failback requires the same external provider proof");
             (PStr "acknowledged_state_replication",
              capability false
                "this contract does not instantiate or verify a replicated provider");
             (PStr "worker_epoch_fencing",
              capability false
                "provider evidence is required at each worker effect boundary")]);
         (PStr "reasons", PList (PStr <$> st_reasons s));
         (PStr "guarantees", PList (PStr <$> st_guarantees s));
         (PStr "limits", PList (PStr <$> st_limits s))].

Fixpoint bounded_members_loop (normalized : list string) (l : list pyval) : res (list string) :=
  match l with
  | [] => Ok normalized
  | value :: l' =>
      _ ← require (negb (MAX_PROFILE_MEMBERS <=? zlen normalized)) AvailabilityProfileError
            ("member_ids cannot contain more than " +:+ pretty MAX_PROFILE_MEMBERS
             +:+ " members");
      s ← _identity value "member_id";
      bounded_members_loop (normalized ++ [s]) l'
  end.

Definition _bounded_members (members : pyval) : res (list string) :=
  match py_iter members with
  | None => throw AvailabilityProfileError "member_ids must be an iterable of identities"
  | Some l =>
      normalized ← bounded_members_loop [] l;
      _ ← require (no_dups normalized) AvailabilityProfileError
            "member_ids must not contain duplicates";
      Ok normalized
  end.

(** The list [provider_errors] of the two-PC branch. *)
Definition provider_errors (prov : ReplicatedControlStateCapabilities) (expected : Z)
  : list string :=
  (if negb (cap_protocol_version prov =? expected)
   then ["provider protocol version mismatch"] else [])
  ++ (if negb (cap_durable_acknowledgements prov)
      then ["provider does not declare durable acknowledgements"] else [])
  ++ (if negb (cap_external_fencing prov)
      then ["provider does not declare external fencing"] else [])
  ++ (if Capabilities_data_replica_count prov <? 2
      then ["provider must declare at least two data replicas"] else [])
  ++ (if bool_decide (cap_partition_policy prov ≠ SAFE)
      then ["provider partition policy is not fail-closed and safe"] else []).

Definition assess_availability_profile
    (profile member_ids local_node_id preferred_primary : pyval)
    (provider : option ReplicatedControlStateCapabilities) (protocol_version : pyval)
  : res AvailabilityProfileStatus :=
  selected ← _profile profile;
  members ← _bounded_members member_ids;
  local ← _identity local_node_id "local_node_id";
  expected_protocol ← _protocol_version protocol_version "protocol_version";
  _ ← require (mem local members) AvailabilityProfileError
        "local_node_id must name a configured member";
  preferred ← (if py_truthy preferred_primary then
                 p ← _identity preferred_primary "preferred_primary";
                 _ ← require (mem p members) AvailabilityProfileError
                       "preferred_primary must name a configured member";
                 Ok p
               else Ok local);
  match selected with
  | SINGLE_PC =>
      _ ← require (zlen members =? 1) AvailabilityProfileError
            "single-pc requires exactly one configured member";
      _ ← require (match provider with None => true | Some _ => false end)
            AvailabilityProfileError
            "single-pc keeps control state in local SQLite; external replication is not accepted";
      Ok (mk_Status selected members local preferred LOCAL_SQLITE false false false false
            "disabled" "pause-on-ambiguous-partition"
            ["single-PC mode is local-only for authoritative control state"]
            ["The configured PC may use its existing local SQLite control-state graph.";
             "No remote owner is promoted when this PC is unavailable."]
            ["SQLite remains a single-host store and is not a replica.";
             "A local lease timeout cannot prove that another process or PC is fenced."])
  | TWO_PC =>
      _ ← require (zlen members =? 2) AvailabilityProfileError
            "two-pc requires exactly two configured members";
      let '(provider_valid, takeover_mode, reasons) :=
        match provider with
        | None =>
            (false, "external-provider-required",
             ["an external replicated control-state and fencing provider is required before takeover"])
        | Some prov =>
            let errors := provider_errors prov expected_protocol in
            match errors with
            | _ :: _ =>
                (false,
                 if negb (cap_protocol_version prov =? expected_protocol)
                 then "protocol-version-mismatch" else "external-provider-contract-invalid",
                 errors)
            | [] =>
                (true, "external-provider-proof-required",
                 ["provider capability shape is valid; live replication and fence receipts remain unverified"])
            end
        end in
      Ok (mk_Status selected members local preferred PER_NODE_LOCAL_SQLITE true provider_valid
            false false takeover_mode "pause-on-ambiguous-partition" reasons
            ["The two configured PCs may pool independently admitted private whole jobs.";
             "A preferred primary is an operator preference and grants no authority."]
            ["Each PC keeps its own local SQLite control state until an external provider is integrated.";
             "A provider capability declaration does not claim live replication, fencing, or an HA guarantee.";
             "Ambiguous partitions must pause mutations; a witness does not replace a data copy."])
  end.

Definition validate_availability_profile
    (profile member_ids local_node_id preferred_primary : pyval)
    (provider : option ReplicatedControlStateCapabilities) (protocol_version : pyval)
    (require_provider_contract : bool) : res AvailabilityProfileStatus :=
  status ← assess_availability_profile profile member_ids local_node_id preferred_primary
             provider protocol_version;
  _ ← require (negb (require_provider_contract && bool_decide (st_profile status = TWO_PC)
                     && negb (st_provider_contract_valid status)))
        AvailabilityProfileError
        ("external provider contract is required: " +:+ join_text "; " (st_reasons status));
  Ok status.

(** ** Well-formedness *)

Record wf_event (e : ControlStateEvent) : Prop := {
  wfe_event : is_identity (ev_event_id e) = true;
  wfe_cluster : is_identity (ev_cluster_id e) = true;
  wfe_kind : is_identity (ev_resource_kind e) = true;
  wfe_kind_in : mem (ev_resource_kind e) _RESOURCE_KINDS = true;
  wfe_resource : is_identity (ev_resource_id e) = true;
  wfe_owner : is_identity (ev_owner_id e) = true;
  wfe_epoch : 1 <= ev_owner_epoch e <= MAX_EVENT_SEQUENCE;
  wfe_sequence : 1 <= ev_sequence e <= MAX_EVENT_SEQUENCE;
  wfe_digest : is_digest (ev_payload_digest e) = true;
  wfe_version : 1 <= ev_protocol_version e <= 16
}.

Record wf_identities (maximum : Z) (l : list string) : Prop := {
  wfi_identity : Forall (λ s, is_identity s = true) l;
  wfi_bound : zlen l <= maximum;
  wfi_nodup : NoDup l
}.

Record wf_acknowledgement (a : ReplicationAcknowledgement) : Prop := {
  wfa_event : is_identity (ack_event_id a) = true;
  wfa_cluster : is_identity (ack_cluster_id a) = true;
  wfa_epoch : 1 <= ack_owner_epoch a <= MAX_EVENT_SEQUENCE;
  wfa_sequence : 1 <= ack_sequence a <= MAX_EVENT_SEQUENCE;
  wfa_provider : is_identity (ack_provider_id a) = true;
  wfa_version : 1 <= ack_protocol_version a <= 16;
  wfa_data : wf_identities MAX_REPLICA_IDS (ack_data_replica_ids a);
  wfa_witness : wf_identities MAX_REPLICA_IDS (ack_witness_ids a);
  wfa_disjoint : meets (ack_data_replica_ids a) (ack_witness_ids a) = false
}.

Record wf_capabilities (c : ReplicatedControlStateCapabilities) : Prop := {
  wfc_provider : is_identity (cap_provider_id c) = true;
  wfc_version : 1 <= cap_protocol_version c <= 16;
  wfc_data : wf_identities MAX_REPLICA_IDS (cap_data_replica_ids c);
  wfc_witness : wf_identities MAX_REPLICA_IDS (cap_witness_ids c);
  wfc_disjoint : meets (cap_data_replica_ids c) (cap_witness_ids c) = false
}.

Record wf_receipt (r : FenceReceipt) : Prop := {
  wfr_receipt : is_identity (fr_receipt_id r) = true;
  wfr_cluster : is_identity (fr_cluster_id r) = true;
  wfr_kind : is_identity (fr_resource_kind r) = true;
  wfr_kind_in : mem (fr_resource_kind r) _RESOURCE_KINDS = true;
  wfr_resource : is_identity (fr_resource_id r) = true;
  wfr_owner : is_identity (fr_previous_owner_id r) = true;
  wfr_epoch : 1 <= fr_previous_owner_epoch r <= MAX_EVENT_SEQUENCE;
  wfr_provider : is_identity (fr_provider_id r) = true;
  wfr_version : 1 <= fr_protocol_version r <= 16
}.

#[local] Hint Resolve wfe_event wfe_cluster wfe_kind wfe_kind_in wfe_resource wfe_owner
  wfe_epoch wfe_sequence wfe_digest wfe_version : core.
#[local] Hint Resolve wfa_event wfa_cluster wfa_epoch wfa_sequence wfa_provider wfa_version
  wfa_data wfa_witness : core.
#[local] Hint Resolve wfr_receipt wfr_cluster wfr_kind wfr_kind_in wfr_resource wfr_owner
  wfr_epoch wfr_provider wfr_version : core.

(** ** Lemmas: constructors and parsers *)

Local Ltac unfold_checks :=
  unfold _protocol_version, _positive_integer, _identity, _digest in *.

Lemma _resource_kind_ok v k :
  _resource_kind v = Ok k ↔
  py_str v = Some k ∧ is_identity k = true ∧ mem k _RESOURCE_KINDS = true.
Proof.
  unfold _resource_kind, _identity. rewrite bind_ok. split.
  - intros (a & ? & ?). by res_inv.
  - intros (? & ? & ?). exists k. rewrite check_str_ok. split; [done|].
    by rewrite (bind_Ok _ _ tt) by (by apply require_true).
Qed.

Lemma _resource_kind_PStr k :
  is_identity k = true → mem k _RESOURCE_KINDS = true → _resource_kind (PStr k) = Ok k.
Proof. intros. by apply _resource_kind_ok. Qed.

Lemma _identities_ok v field maximum l :
  _identities v field maximum = Ok l → wf_identities maximum l.
Proof.
  unfold _identities, _identity. intros H. destruct v; res_inv. to_prop.
  match goal with H : Forall2 _ _ _ |- _ => rename H into HF end.
  pose proof (Forall2_length _ _ _ HF) as Hlen. split; [|unfold zlen in *; lia|done].
  clear -HF. induction HF as [|x y l k Hxy _ IH]; constructor; [|done].
  by apply check_str_ok in Hxy as [_ ?].
Qed.

Lemma _identities_PTuple field maximum l :
  wf_identities maximum l → _identities (PTuple (PStr <$> l)) field maximum = Ok l.
Proof.
  intros [Hid Hb Hnd]. unfold _identities, zlen in *. rewrite length_fmap.
  rewrite (bind_Ok _ _ tt) by (apply require_true; lia).
  rewrite (bind_Ok _ _ l).
  - by rewrite (bind_Ok _ _ tt) by (apply require_true; by apply no_dups_spec).
  - apply mapM_res_ok. clear -Hid. induction Hid; simpl; constructor; [|done].
    by apply check_str_PStr.
Qed.

Lemma ControlStateEvent_init_wf a1 a2 a3 a4 a5 a6 a7 a8 a9 e :
  ControlStateEvent_init a1 a2 a3 a4 a5 a6 a7 a8 a9 = Ok e → wf_event e.
Proof.
  unfold ControlStateEvent_init. intros H. unfold_checks. res_inv.
  match goal with H : _resource_kind _ = Ok _ |- _ => apply _resource_kind_ok in H as (? & ? & ?) end.
  by constructor.
Qed.

Lemma Acknowledgement_init_wf a1 a2 a3 a4 a5 a6 a7 a8 a9 a :
  Acknowledgement_init a1 a2 a3 a4 a5 a6 a7 a8 a9 = Ok a → wf_acknowledgement a.
Proof.
  unfold Acknowledgement_init. intros H. unfold_checks. res_inv. constructor; simpl; eauto using _identities_ok.
  by apply negb_true_iff.
Qed.

Lemma Capabilities_init_wf a1 a2 a3 a4 a5 a6 a7 c :
  Capabilities_init a1 a2 a3 a4 a5 a6 a7 = Ok c → wf_capabilities c.
Proof.
  unfold Capabilities_init. intros H. unfold_checks. res_inv. constructor; simpl; eauto using _identities_ok.
  by apply negb_true_iff.
Qed.

Lemma FenceReceipt_init_wf a1 a2 a3 a4 a5 a6 a7 a8 a9 a10 a11 r :
  FenceReceipt_init a1 a2 a3 a4 a5 a6 a7 a8 a9 a10 a11 = Ok r → wf_receipt r.
Proof.
  unfold FenceReceipt_init. intros H. unfold_checks. res_inv.
  match goal with H : _resource_kind _ = Ok _ |- _ => apply _resource_kind_ok in H as (? & ? & ?) end.
  by constructor.
Qed.

(** Runs a constructor on the dictionary form of a valid record. *)
Local Ltac run_init :=
  repeat (erewrite bind_Ok;
    [|first [ apply check_str_PStr; by eauto
            | apply check_int_PInt; by eauto
            | apply _resource_kind_PStr; by eauto
            | apply _identities_PTuple; by eauto
            | apply require_true; by eauto
            | apply require_true, negb_true_iff; by eauto
            | reflexivity ]]);
  reflexivity.

Lemma event_roundtrip e :
  wf_event e → ControlStateEvent_from_dict (ControlStateEvent_as_dict e) = Ok e.
Proof.
  intros W. unfold ControlStateEvent_from_dict, ControlStateEvent_as_dict.
  rewrite (bind_Ok _ _ tt) by reflexivity. apply rewrap_Ok.
  destruct e; unfold ControlStateEvent_init; unfold_checks. destruct W; simpl in *. run_init.
Qed.

Lemma acknowledgement_roundtrip a :
  wf_acknowledgement a → Acknowledgement_from_dict (Acknowledgement_as_dict a) = Ok a.
Proof.
  intros W. unfold Acknowledgement_from_dict, Acknowledgement_as_dict.
  rewrite (bind_Ok _ _ tt) by reflexivity. apply rewrap_Ok.
  destruct a; unfold Acknowledgement_init; unfold_checks. destruct W; simpl in *. run_init.
Qed.

Lemma partition_of_partition_value p : partition_of_value (partition_value p) = Some p.
Proof. by destruct p. Qed.

Lemma receipt_roundtrip r :
  wf_receipt r → FenceReceipt_from_dict (FenceReceipt_as_dict r) = Ok r.
Proof.
  intros W. unfold FenceReceipt_from_dict, FenceReceipt_as_dict.
  rewrite (bind_Ok _ _ tt) by reflexivity. apply rewrap_Ok.
  rewrite (bind_Ok _ _ (fr_partition_state r))
    by (apply check_enum_ok; eexists; split; [reflexivity|apply partition_of_partition_value]).
  destruct r as [? ? ? ? ? ? ? ? p ? ?]; unfold FenceReceipt_init; unfold_checks.
  destruct W; simpl in *. destruct p; run_init.
Qed.

Lemma event_scope_wf e :
  wf_event e →
  ControlStateEvent_scope e =
    Ok (mk_OwnershipScope (ev_cluster_id e) (ev_resource_kind e) (ev_resource_id e)
          (ev_owner_id e) (ev_owner_epoch e)).
Proof.
  intros W. unfold ControlStateEvent_scope, OwnershipScope_init. unfold_checks.
  destruct W. run_init.
Qed.

(** ** The contract of the takeover gate *)

(** What the acknowledgement gate demands of one event, receipt and provider. *)
Record AcknowledgedOn (ev : ControlStateEvent) (ack : ReplicationAcknowledgement)
    (prov : ReplicatedControlStateCapabilities) (minimum : Z) : Prop := {
  ao_minimum : 1 <= minimum <= MAX_REPLICA_IDS;
  ao_version : ev_protocol_version ev = ack_protocol_version ack
               ∧ ev_protocol_version ev = cap_protocol_version prov;
  ao_provider : ack_provider_id ack = cap_provider_id prov;
  ao_event : ack_event_id ack = ev_event_id ev ∧ ack_cluster_id ack = ev_cluster_id ev
             ∧ ack_owner_epoch ack = ev_owner_epoch ev ∧ ack_sequence ack = ev_sequence ev;
  ao_durable : cap_durable_acknowledgements prov = true ∧ ack_durable ack = true;
  ao_replicas : ack_data_replica_ids ack ⊆ cap_data_replica_ids prov;
  ao_count : minimum <= zlen (ack_data_replica_ids ack)
}.

(** What the takeover gate demands, as one predicate over all the evidence. *)
Record TakeoverEvidence (own : OwnershipScope) (candidate : string) (ev : ControlStateEvent)
    (ack : ReplicationAcknowledgement) (receipt : FenceReceipt)
    (prov : ReplicatedControlStateCapabilities) (minimum : Z) : Prop := {
  te_candidate : is_identity candidate = true;
  te_owner_changes : candidate ≠ os_owner_id own;
  te_epoch_room : os_epoch own < MAX_EVENT_SEQUENCE;
  te_fencing : cap_external_fencing prov = true;
  te_policy : cap_partition_policy prov = SAFE;
  te_scope : ControlStateEvent_scope ev = Ok own;
  te_acknowledged : AcknowledgedOn ev ack prov minimum;
  te_receipt_version : fr_protocol_version receipt = ev_protocol_version ev;
  te_receipt_provider : fr_provider_id receipt = cap_provider_id prov;
  te_receipt_external : fr_external receipt = true ∧ fr_accepted receipt = true;
  te_receipt_partition : fr_partition_state receipt = SAFE;
  te_receipt_scope : fr_cluster_id receipt = os_cluster_id own
    ∧ fr_resource_kind receipt = os_resource_kind own
    ∧ fr_resource_id receipt = os_resource_id own
    ∧ fr_previous_owner_id receipt = os_owner_id own
    ∧ fr_previous_owner_epoch receipt = os_epoch own
}.

(** Refutes or establishes the tests of a chain of guards. *)
Local Ltac guards :=
  repeat match goal with
  | H : context [if ?b then _ else _] |- _ => destruct b eqn:?; simplify_eq/=
  end;
  to_prop;
  repeat match goal with
  | H : String.eqb _ _ = true |- _ => apply String.eqb_eq in H
  | H : String.eqb _ _ = false |- _ => apply String.eqb_neq in H
  | H : ¬ (_ ≠ _) |- _ => apply dec_stable in H
  end.

Lemma validate_accepted ev ack prov minimum r :
  validate_replication_acknowledgement ev ack prov minimum = Ok r →
  rd_accepted r = true →
  ∃ ev' ack' prov' m, ev = Inst ev' ∧ ack = Inst ack' ∧ prov = Inst prov' ∧ minimum = PInt m
    ∧ AcknowledgedOn ev' ack' prov' m
    ∧ rd_data_replica_count r = zlen (ack_data_replica_ids ack').
Proof.
  unfold validate_replication_acknowledgement. intros H Hacc.
  destruct ev as [ev|], ack as [ack|], prov as [prov|]; res_inv; try done.
  guards; try done. do 4 eexists. split_and!; by try constructor.
Qed.

Lemma validate_complete ev ack prov m :
  AcknowledgedOn ev ack prov m →
  validate_replication_acknowledgement (Inst ev) (Inst ack) (Inst prov) (PInt m)
  = Ok (mk_ReplicationDecision true "acknowledgement-accepted"
          (zlen (ack_data_replica_ids ack))).
Proof.
  intros [? [Hv1 Hv2] Hp (He & Hc & Hep & Hs) [Hd1 Hd2] Hsub Hcount].
  unfold validate_replication_acknowledgement, Acknowledgement_data_replica_count.
  rewrite (bind_Ok _ _ m) by (by apply check_int_PInt).
  rewrite <-Hv1, <-Hv2, Hp, He, Hc, Hep, Hs, Hd1, Hd2, !Z.eqb_refl, !String.eqb_refl.
  rewrite (proj2 (subset_spec _ _) Hsub), (proj2 (Z.ltb_ge _ _) Hcount). done.
Qed.

#[local] Arguments validate_replication_acknowledgement : simpl never.

Lemma evaluate_takeover_sound own new ev ack receipt prov minimum d :
  evaluate_takeover own new ev ack receipt prov minimum = Ok d →
  td_allowed d = true →
  ∃ own' candidate ev' ack' receipt' prov' m,
    own = Inst own' ∧ py_str new = Some candidate ∧ ev = Inst ev' ∧ ack = Inst ack'
    ∧ receipt = Inst receipt' ∧ prov = Some (Inst prov') ∧ minimum = PInt m
    ∧ TakeoverEvidence own' candidate ev' ack' receipt' prov' m
    ∧ d = mk_TakeoverDecision true "takeover-proof-satisfied" (Some (os_epoch own' + 1))
            (zlen (ack_data_replica_ids ack')).
Proof.
  unfold evaluate_takeover. intros H Hal.
  destruct own as [own|], prov as [[prov|]|]; res_inv; try done.
  destruct (_identity new _) as [cand|] eqn:Hnew; res_inv; try done.
  unfold _identity in Hnew. res_inv.
  destruct (String.eqb cand _) eqn:?; simplify_eq/=.
  destruct (MAX_EVENT_SEQUENCE <=? _) eqn:?; simplify_eq/=.
  destruct (negb (cap_external_fencing prov)) eqn:?; simplify_eq/=.
  case_bool_decide; simplify_eq/=.
  destruct ev as [ev|]; simplify_eq/=. res_inv.
  case_bool_decide; simplify_eq/=. res_inv.
  destruct (negb (rd_accepted _)) eqn:?; simplify_eq/=.
  destruct receipt as [receipt|]; simplify_eq/=.
  guards; try done.
  match goal with H : validate_replication_acknowledgement _ _ _ _ = _ |- _ =>
    apply validate_accepted in H as (? & ack' & ? & m & ? & ? & ? & ? & Hack & Hcount); [|done] end.
  simplify_eq. rewrite Hcount.
  do 7 eexists. split_and!; try done; by constructor.
Qed.

Lemma evaluate_takeover_complete own new candidate ev ack receipt prov m :
  py_str new = Some candidate →
  TakeoverEvidence own candidate ev ack receipt prov m →
  evaluate_takeover (Inst own) new (Inst ev) (Inst ack) (Inst receipt) (Some (Inst prov)) (PInt m)
  = Ok (mk_TakeoverDecision true "takeover-proof-satisfied" (Some (os_epoch own + 1))
          (zlen (ack_data_replica_ids ack))).
Proof.
  intros Hnew [Hid Hne Hroom Hfence Hpol Hscope Hack Hver Hprov [Hext Hacc] Hpart
               (Hc & Hk & Hr & Ho & He)].
  assert (_identity new "new_owner_id" = Ok candidate) as Hcand by (by apply check_str_ok).
  assert (fr_protocol_version receipt = cap_protocol_version prov) as Hver'
    by (destruct Hack as [_ [_ ?] _ _ _ _ _]; congruence).
  unfold evaluate_takeover. rewrite Hcand.
  rewrite (proj2 (String.eqb_neq _ _) Hne), (proj2 (Z.leb_gt _ _) Hroom), Hfence, Hpol; simpl.
  rewrite (bind_Ok _ _ own) by done. rewrite bool_decide_eq_false_2 by naive_solver.
  erewrite bind_Ok by (by apply validate_complete). simpl.
  rewrite Hver', Hprov, Hext, Hacc, Hpart, Hc, Hk, Hr, Ho, He.
  replace (ev_protocol_version ev) with (cap_protocol_version prov) by congruence.
  by rewrite !Z.eqb_refl, !String.eqb_refl.
Qed.

(** ** Lemmas: topology assessment *)

Lemma bounded_members_loop_bound acc l k :
  bounded_members_loop acc l = Ok k → zlen acc <= MAX_PROFILE_MEMBERS →
  zlen k <= MAX_PROFILE_MEMBERS.
Proof.
  revert acc; induction l as [|v l IH]; intros acc H Hacc; simpl in H; res_inv; [done|].
  eapply IH; [done|]. to_prop. unfold zlen in *. rewrite length_app. simpl. lia.
Qed.

Lemma _bounded_members_ok v k :
  _bounded_members v = Ok k → NoDup k ∧ zlen k <= MAX_PROFILE_MEMBERS.
Proof.
  unfold _bounded_members. intros H. destruct (py_iter v); res_inv. to_prop.
  split; [done|]. by eapply bounded_members_loop_bound.
Qed.

(** The provider contract a two-PC assessment checks. *)
Definition provider_contract (prov : ReplicatedControlStateCapabilities) (expected : Z) : Prop :=
  cap_protocol_version prov = expected
  ∧ cap_durable_acknowledgements prov = true
  ∧ cap_external_fencing prov = true
  ∧ 2 <= zlen (cap_data_replica_ids prov)
  ∧ cap_partition_policy prov = SAFE.

Lemma provider_errors_nil prov expected :
  provider_errors prov expected = [] ↔ provider_contract prov expected.
Proof.
  unfold provider_errors, provider_contract, Capabilities_data_replica_count. split.
  - intros H. guards. split_and!; done.
  - intros (-> & -> & -> & Hc & ->).
    by rewrite Z.eqb_refl, (proj2 (Z.ltb_ge _ _) Hc).
Qed.

Lemma assess_members profile members local preferred prov version s :
  assess_availability_profile profile members local preferred prov version = Ok s →
  NoDup (st_member_ids s)
  ∧ zlen (st_member_ids s) = match st_profile s with SINGLE_PC => 1 | TWO_PC => 2 end
  ∧ st_local_node_id s ∈ st_member_ids s ∧ st_preferred_primary s ∈ st_member_ids s
  ∧ st_automatic_takeover_available s = false ∧ st_automatic_failback_available s = false.
Proof.
  unfold assess_availability_profile. intros H. res_inv. to_prop.
  match goal with H : _bounded_members _ = Ok _ |- _ => apply _bounded_members_ok in H as [? _] end.
  assert (∀ p, (if py_truthy preferred then
                 p ← _identity preferred "preferred_primary";
                 _ ← require (mem p a0) AvailabilityProfileError
                       "preferred_primary must name a configured member";
                 Ok p
               else Ok a1) = Ok p → p ∈ a0) as Hpref.
  { intros p Hp. destruct (py_truthy preferred); res_inv; by to_prop. }
  destruct a; res_inv; [|destruct (match prov with Some _ => _ | None => _ end) as [[? ?] ?]; res_inv];
    to_prop; split_and!; by eauto.
Qed.

Lemma assess_contract profile members local preferred prov version s :
  assess_availability_profile profile members local preferred prov version = Ok s →
  st_provider_contract_valid s = true ↔
  st_profile s = TWO_PC ∧ ∃ p v, prov = Some p ∧ version = PInt v ∧ provider_contract p v.
Proof.
  unfold assess_availability_profile, _protocol_version, _positive_integer.
  intros H. res_inv. destruct a; res_inv; [naive_solver|].
  destruct prov as [p|]; res_inv; [|naive_solver].
  match goal with H : context [provider_errors p ?v] |- _ =>
    pose proof (provider_errors_nil p v) as Hnil; destruct (provider_errors p v) end;
    res_inv; split; intros; destruct_and?; try done.
  - split; [done|]. do 2 eexists. split_and!; [done..|]. by apply Hnil.
  - match goal with H : ∃ _, _ |- _ => destruct H as (? & ? & ? & ? & Hc) end. simplify_eq.
    by apply Hnil in Hc.
Qed.

Lemma takeover_provider_contract own candidate ev ack receipt p m d :
  evaluate_takeover (Inst own) (PStr candidate) (Inst ev) (Inst ack) (Inst receipt)
    (Some (Inst p)) (PInt m) = Ok d →
  td_allowed d = true → 2 <= m → wf_acknowledgement ack →
  provider_contract p (ev_protocol_version ev).
Proof.
  intros H Hal Hm Wa.
  destruct (evaluate_takeover_sound _ _ _ _ _ _ _ _ H Hal)
    as (? & ? & ? & ack' & ? & p' & ? & ? & ? & ? & ? & ? & ? & ? & E & _); simplify_eq/=.
  destruct E as [_ _ _ Hf Hp _ [_ [_ Hv] _ _ [Hd _] Hsub Hc] _ _ _ _ _].
  unfold provider_contract. split_and!; try done.
  assert (length (ack_data_replica_ids ack') ≤ length (cap_data_replica_ids p'))%nat
    by (apply submseteq_length, NoDup_submseteq; [apply Wa|done]).
  unfold zlen in *. lia.
Qed.

Lemma _identities_raises v field m :
  raises_only AvailabilityProfileError (_identities v field m).
Proof. unfold _identities, _identity. destruct v; raises_tac. Qed.

Lemma _resource_kind_raises v : raises_only AvailabilityProfileError (_resource_kind v).
Proof. unfold _resource_kind, _identity. raises_tac. Qed.

Local Ltac init_raises :=
  unfold_checks; raises_tac; auto using _identities_raises, _resource_kind_raises.

Lemma ControlStateEvent_init_raises a1 a2 a3 a4 a5 a6 a7 a8 a9 :
  raises_only AvailabilityProfileError (ControlStateEvent_init a1 a2 a3 a4 a5 a6 a7 a8 a9).
Proof. unfold ControlStateEvent_init. init_raises. Qed.

Lemma Acknowledgement_init_raises a1 a2 a3 a4 a5 a6 a7 a8 a9 :
  raises_only AvailabilityProfileError (Acknowledgement_init a1 a2 a3 a4 a5 a6 a7 a8 a9).
Proof.
  unfold Acknowledgement_init. unfold_checks.
  repeat (apply raises_only_bind; [auto using _identities_raises; raises_tac|intros ?]).
  raises_tac.
Qed.

Lemma FenceReceipt_init_raises a1 a2 a3 a4 a5 a6 a7 a8 a9 a10 a11 :
  raises_only AvailabilityProfileError (FenceReceipt_init a1 a2 a3 a4 a5 a6 a7 a8 a9 a10 a11).
Proof. unfold FenceReceipt_init. init_raises. Qed.

Lemma event_from_dict_raises v :
  raises_only AvailabilityProfileError (ControlStateEvent_from_dict v).
Proof.
  unfold ControlStateEvent_from_dict. destruct v; raises_tac.
  eapply raises_only_rewrap; [apply ControlStateEvent_init_raises|done].
Qed.

Lemma acknowledgement_from_dict_raises v :
  raises_only AvailabilityProfileError (Acknowledgement_from_dict v).
Proof.
  unfold Acknowledgement_from_dict. destruct v; raises_tac.
  destruct (as_sequence (field_of "data_replica_ids" l)),
    (as_sequence (field_of "witness_ids" l)); raises_tac.
  eapply raises_only_rewrap; [apply Acknowledgement_init_raises|done].
Qed.

Lemma receipt_from_dict_raises v :
  raises_only AvailabilityProfileError (FenceReceipt_from_dict v).
Proof.
  unfold FenceReceipt_from_dict. destruct v; raises_tac.
  destruct (check_enum _ _ _ _) as [st|x] eqn:E; simpl.
  - eapply raises_only_rewrap; [apply FenceReceipt_init_raises|done].
  - apply raises_only_check_enum in E. rewrite E. apply raises_only_throw.
Qed.

(** ** Sample evidence, used by the instances below *)

Module Sample.
Definition digest : string :=
    "0123456789abcdef0123456789abcdef0123456789abcdef0123456789abcdef".
Definition own := mk_OwnershipScope "c1" "job" "job-7" "node-a" 4.
Definition event :=
    mk_ControlStateEvent "ev-1" "c1" "job" "job-7" "node-a" 4 9 digest 1.
Definition ack :=
    mk_Acknowledgement "ev-1" "c1" 4 9 "prov" 1 ["r1"; "r2"] ["w1"] true.
Definition provider :=
    mk_Capabilities "prov" 1 ["r1"; "r2"; "r3"] ["w1"] true true SAFE.
Definition receipt :=
    mk_FenceReceipt "rc-1" "c1" "job" "job-7" "node-a" 4 "prov" 1 SAFE true true.
End Sample.

Lemma sample_ack_wf : wf_acknowledgement Sample.ack.
Proof.
  by apply (Acknowledgement_init_wf (PStr "ev-1") (PStr "c1") (PInt 4) (PInt 9) (PStr "prov")
    (PInt 1) (PTuple [PStr "r1"; PStr "r2"]) (PTuple [PStr "w1"]) (PBool true)).
Defined.

Lemma sample_provider_wf : wf_capabilities Sample.provider.
Proof.
  by apply (Capabilities_init_wf (PStr "prov") (PInt 1) (PTuple [PStr "r1"; PStr "r2"; PStr "r3"])
    (PTuple [PStr "w1"]) (PBool true) (PBool true) (PEnum "PartitionState" "safe")).
Defined.

(** ** Theorems *)

(** The takeover gate is exactly its evidence contract.  For arguments of
    any dynamic type the gate returns an allowing decision precisely when every
    argument is an instance of its class and the complete evidence
    [TakeoverEvidence] holds: a changed, valid owner, room for the next epoch, a
    provider that declares fencing and a safe partition policy, an event of
    exactly this owner and epoch, a durable acknowledgement of that event on
    enough admitted data replicas, and an external accepted fence receipt of
    exactly this owner and epoch from the same provider in a safe partition. *)
Theorem evaluate_takeover_allowed_iff own new ev ack receipt prov minimum :
  (∃ d, evaluate_takeover own new ev ack receipt prov minimum = Ok d ∧ td_allowed d = true) ↔
  ∃ own' candidate ev' ack' receipt' prov' m,
    own = Inst own' ∧ py_str new = Some candidate ∧ ev = Inst ev' ∧ ack = Inst ack'
    ∧ receipt = Inst receipt' ∧ prov = Some (Inst prov') ∧ minimum = PInt m
    ∧ TakeoverEvidence own' candidate ev' ack' receipt' prov' m.
Proof.
  split.
  - intros (d & H & Hal).
    destruct (evaluate_takeover_sound _ _ _ _ _ _ _ _ H Hal)
      as (o & c & e & a & r & p & m & ? & ? & ? & ? & ? & ? & ? & ? & _).
    exists o, c, e, a, r, p, m. by split_and!.
  - intros (o & c & e & a & r & p & m & -> & Hc & -> & -> & -> & -> & -> & Hev).
    eexists. split; [by eapply evaluate_takeover_complete|done].
Qed.

(** What an allowed takeover guarantees.  With records built by their
    constructors, an allowing decision names the next epoch, which is the
    fenced epoch plus one and still fits the 63-bit sequence space; it changes
    the owner; and it rests on at least [minimum] distinct data replicas that
    the provider admits, none of which is one of the provider's witnesses. *)
Theorem evaluate_takeover_guarantees own candidate ev ack receipt prov m d :
  wf_acknowledgement ack → wf_capabilities prov →
  evaluate_takeover (Inst own) (PStr candidate) (Inst ev) (Inst ack) (Inst receipt)
    (Some (Inst prov)) (PInt m) = Ok d →
  td_allowed d = true →
  (∃ e, td_next_epoch d = Some e ∧ e = fr_previous_owner_epoch receipt + 1
        ∧ e <= MAX_EVENT_SEQUENCE)
  ∧ candidate ≠ fr_previous_owner_id receipt
  ∧ (∃ replicas, NoDup replicas ∧ m <= zlen replicas
       ∧ td_data_replica_count d = zlen replicas
       ∧ ∀ x, x ∈ replicas → x ∈ cap_data_replica_ids prov ∧ x ∉ cap_witness_ids prov).
Proof.
  intros Wa Wc H Hal.
  destruct (evaluate_takeover_sound _ _ _ _ _ _ _ _ H Hal)
    as (o & c & e & a & r & p & m' & ? & ? & ? & ? & ? & ? & ? & E & ->); simplify_eq/=.
  destruct E as [_ Hne Hroom _ _ _ [_ _ _ _ _ Hsub Hcount] _ _ _ _ (_ & _ & _ & Ho & He)].
  split_and!.
  - eexists. split_and!; [done|lia|lia].
  - congruence.
  - exists (ack_data_replica_ids a). split_and!; [apply Wa|lia|done|].
    intros x Hx. split; [by apply Hsub|]. by apply (proj1 (meets_false _ _) (wfc_disjoint _ Wc)), Hsub.
Qed.

(** C26: dictionary round trips.  Every valid control-state event,
    acknowledgement and fence receipt is recovered by its parser from its
    transport dictionary, unchanged. *)
Theorem wire_roundtrip :
  (∀ e, wf_event e → ControlStateEvent_from_dict (ControlStateEvent_as_dict e) = Ok e)
  ∧ (∀ a, wf_acknowledgement a → Acknowledgement_from_dict (Acknowledgement_as_dict a) = Ok a)
  ∧ (∀ r, wf_receipt r → FenceReceipt_from_dict (FenceReceipt_as_dict r) = Ok r).
Proof.
  split_and!; auto using event_roundtrip, acknowledgement_roundtrip, receipt_roundtrip.
Qed.

(** Parsers admit only valid values.  Whatever value is parsed, a parser
    that returns has seen a dictionary with exactly the expected keys and
    returns a well-formed record, and a parser that fails raises the contract
    error of the module and nothing else. *)
Theorem wire_parsers_strict v :
  match ControlStateEvent_from_dict v with
  | Ok e => wf_event e ∧ ∃ d, v = PDict d ∧ dict_keys_are ControlStateEvent_fields d = true
  | Err x => exn_cls x = AvailabilityProfileError
  end
  ∧ match Acknowledgement_from_dict v with
    | Ok a => wf_acknowledgement a
              ∧ ∃ d, v = PDict d ∧ dict_keys_are Acknowledgement_fields d = true
    | Err x => exn_cls x = AvailabilityProfileError
    end
  ∧ match FenceReceipt_from_dict v with
    | Ok r => wf_receipt r ∧ ∃ d, v = PDict d ∧ dict_keys_are FenceReceipt_fields d = true
    | Err x => exn_cls x = AvailabilityProfileError
    end.
Proof.
  split_and!.
  - destruct (ControlStateEvent_from_dict v) eqn:E; [|by eapply event_from_dict_raises].
    unfold ControlStateEvent_from_dict in E. destruct v; res_inv.
    eauto using ControlStateEvent_init_wf.
  - destruct (Acknowledgement_from_dict v) eqn:E; [|by eapply acknowledgement_from_dict_raises].
    unfold Acknowledgement_from_dict in E. destruct v; res_inv.
    repeat case_match; res_inv. eauto using Acknowledgement_init_wf.
  - destruct (FenceReceipt_from_dict v) eqn:E; [|by eapply receipt_from_dict_raises].
    unfold FenceReceipt_from_dict in E. destruct v; res_inv.
    eauto using FenceReceipt_init_wf.
Qed.

(** The topology assessment and the takeover gate agree on the provider.
    An assessment that returns names one member (single-PC) or two (two-PC)
    distinct members containing the local node and the preferred primary, never
    offers automatic takeover or failback, and reports a valid provider contract
    exactly for a two-PC profile with a provider that meets it; and whenever the
    takeover gate allows with a minimum of two replicas, the provider it used
    meets that contract at the event's protocol version. *)
Theorem assess_sound_for_takeover profile members local preferred prov version s :
  assess_availability_profile profile members local preferred prov version = Ok s →
  NoDup (st_member_ids s)
  ∧ zlen (st_member_ids s) = match st_profile s with SINGLE_PC => 1 | TWO_PC => 2 end
  ∧ st_local_node_id s ∈ st_member_ids s ∧ st_preferred_primary s ∈ st_member_ids s
  ∧ st_automatic_takeover_available s = false ∧ st_automatic_failback_available s = false
  ∧ (st_provider_contract_valid s = true ↔
     st_profile s = TWO_PC ∧ ∃ p v, prov = Some p ∧ version = PInt v ∧ provider_contract p v)
  ∧ ∀ own candidate ev ack receipt p m d,
      evaluate_takeover (Inst own) (PStr candidate) (Inst ev) (Inst ack) (Inst receipt)
        (Some (Inst p)) (PInt m) = Ok d →
      td_allowed d = true → 2 <= m → wf_acknowledgement ack →
      provider_contract p (ev_protocol_version ev).
Proof.
  intros H. assert (∀ own c ev ack receipt p m d,
      evaluate_takeover (Inst own) (PStr c) (Inst ev) (Inst ack) (Inst receipt)
        (Some (Inst p)) (PInt m) = Ok d →
      td_allowed d = true → 2 <= m → wf_acknowledgement ack →
      provider_contract p (ev_protocol_version ev)) as Hgate
    by eauto using takeover_provider_contract.
  pose proof (assess_members _ _ _ _ _ _ _ H) as (? & ? & ? & ? & ? & ?).
  pose proof (assess_contract _ _ _ _ _ _ _ H). by split_and!.
Qed.

Lemma evaluate_takeover_guarantees_witness :
  (∃ e, Some 5 = Some e ∧ e = 5 ∧ e <= MAX_EVENT_SEQUENCE)
  ∧ "node-b" ≠ "node-a"
  ∧ (∃ replicas, NoDup replicas ∧ 2 <= zlen replicas ∧ 2 = zlen replicas
       ∧ ∀ x, x ∈ replicas →
           x ∈ cap_data_replica_ids Sample.provider ∧ x ∉ cap_witness_ids Sample.provider).
Proof.
  exact (evaluate_takeover_guarantees Sample.own "node-b" Sample.event Sample.ack Sample.receipt
    Sample.provider 2 (mk_TakeoverDecision true "takeover-proof-satisfied" (Some 5) 2)
    sample_ack_wf sample_provider_wf eq_refl eq_refl).
Defined.

Lemma assess_sound_for_takeover_witness :
  ∃ s, assess_availability_profile (PStr "pooled-pair") (PList [PStr "node-a"; PStr "node-b"])
         (PStr "node-b") (PStr "") (Some Sample.provider) (PInt 1) = Ok s
       ∧ zlen (st_member_ids s) = 2 ∧ st_provider_contract_valid s = true.
Proof.
  destruct (assess_availability_profile (PStr "pooled-pair")
    (PList [PStr "node-a"; PStr "node-b"]) (PStr "node-b") (PStr "") (Some Sample.provider)
    (PInt 1)) as [s|] eqn:E; [|by vm_compute in E].
  exists s. split; [done|].
  destruct (assess_sound_for_takeover _ _ _ _ _ _ _ E) as (_ & Hlen & _ & _ & _ & _ & Hc & _).
  vm_compute in E. injection E as <-. split; [exact Hlen|]. apply Hc. split; [done|].
  exists Sample.provider, 1. by vm_compute.
Defined.

Lemma wire_roundtrip_witness :
  Acknowledgement_from_dict (Acknowledgement_as_dict Sample.ack) = Ok Sample.ack.
Proof. apply (proj1 (proj2 wire_roundtrip)), sample_ack_wf. Defined.
