(* ===== verification/EpochInterface.v ===== *)
(** What an ownership authority promises its clients.

    Two components of the runtime hand out scoped owner leases: the in-process
    authority of [cluster_ownership.py] and the SQLite journal of
    [adapters/persistence/sqlite/cluster_ownership.py].  [EpochStore] states the
    part of their behaviour a client relies on; the fencing guarantees below are
    proved once against it, for every run of either. *)
From S2P Require Import Prelude.

Local Open Scope Z_scope.

Abbreviation resource_key := (string * string * string)%type.

(** The capability a lease carries: who may act on which resource in which
    epoch, and the token that proves it. *)
Record grant := mk_grant {
  g_key : resource_key;
  g_epoch : Z;
  g_owner : string;
  g_token : string
}.

(** A transition either issues a new grant or issues none. *)
Class EpochStore (S : Type) := {
  es_step : S → option grant → S → Prop;
  es_inv : S → Prop;
  es_epoch : S → resource_key → Z;
  es_current : S → resource_key → option grant;
  es_step_inv s g s' : es_step s g s' → es_inv s → es_inv s';
  es_current_epoch s k g : es_inv s → es_current s k = Some g →
    g_key g = k ∧ g_epoch g = es_epoch s k;
  es_step_quiet s s' : es_step s None s' → es_inv s →
    (∀ k, es_epoch s' k = es_epoch s k)
    ∧ ∀ k g, es_current s' k = Some g → es_current s k = Some g;
  es_step_issue s g s' : es_step s (Some g) s' → es_inv s →
    g_epoch g = es_epoch s (g_key g) + 1
    ∧ es_current s' (g_key g) = Some g
    ∧ ∀ k, k ≠ g_key g → es_epoch s' k = es_epoch s k ∧ es_current s' k = es_current s k
}.

Section Fencing.
  Context {S : Type} `{!EpochStore S}.

  (** A store in which nothing was issued yet. *)
Definition fresh (s : S) : Prop :=
    es_inv s ∧ (∀ k, es_epoch s k = 0) ∧ ∀ k, es_current s k = None.

  (** The runs from [s0] with the grants issued on the way, newest first. *)
Inductive run (s0 : S) : S → list grant → Prop :=
    | run_nil : run s0 s0 []
    | run_quiet s s' issued : run s0 s issued → es_step s None s' → run s0 s' issued
    | run_issue s s' issued g :
        run s0 s issued → es_step s (Some g) s' → run s0 s' (g :: issued).

Record run_inv (s : S) (issued : list grant) : Prop := {
    ri_inv : es_inv s;
    ri_epoch : ∀ k, es_epoch s k = zlen (filter (λ g, g_key g = k) issued);
    ri_bound : ∀ g, g ∈ issued → 1 <= g_epoch g <= es_epoch s (g_key g);
    ri_nodup : NoDup ((λ g, (g_key g, g_epoch g)) <$> issued);
    ri_current : ∀ k g, es_current s k = Some g → g ∈ issued
  }.

Lemma run_inv_quiet s s' issued :
    run_inv s issued → es_step s None s' → run_inv s' issued.
  Proof.
    intros [Hi He Hb Hn Hc] Hs. destruct (es_step_quiet _ _ Hs Hi) as [He' Hc'].
    split; [by eapply es_step_inv|..|done|].
    - intros k. by rewrite He'.
    - intros g Hg. rewrite He'. by apply Hb.
    - intros k g Hg. by eapply Hc, Hc'.
  Qed.

Lemma run_inv_issue s s' issued g :
    run_inv s issued → es_step s (Some g) s' → run_inv s' (g :: issued).
  Proof.
    intros [Hi He Hb Hn Hc] Hs. destruct (es_step_issue _ _ _ Hs Hi) as (Hg & Hcur & Hoth).
    assert (es_inv s') as Hi' by (by eapply es_step_inv).
    assert (es_epoch s' (g_key g) = es_epoch s (g_key g) + 1) as Hnew.
    { by destruct (es_current_epoch _ _ _ Hi' Hcur) as [_ <-]. }
    assert (0 <= es_epoch s (g_key g)) by (rewrite He; unfold zlen; lia).
    split; [done|..].
    - intros k. unfold zlen in *. rewrite filter_cons. case_decide as Hk.
      + subst. rewrite Hnew, He. simpl. lia.
      + by rewrite (proj1 (Hoth k (not_eq_sym Hk))), He.
    - intros g' [->|Hg']%elem_of_cons; [lia|]. specialize (Hb _ Hg').
      destruct (decide (g_key g' = g_key g)) as [Hk|Hk]; [rewrite Hk in *; lia|].
      by rewrite (proj1 (Hoth _ Hk)).
    - simpl. constructor; [|done]. intros (g' & [= Hk Hep] & Hg')%list_elem_of_fmap.
      specialize (Hb _ Hg'). rewrite <-Hk in Hb. lia.
    - intros k g' Hg'. destruct (decide (k = g_key g)) as [->|Hk].
      + rewrite Hcur in Hg'. simplify_eq. by left.
      + rewrite (proj2 (Hoth _ Hk)) in Hg'. right. by eapply Hc.
  Qed.

Lemma run_inv_holds s0 s issued : fresh s0 → run s0 s issued → run_inv s issued.
  Proof.
    intros (Hi & He & Hc). induction 1;
      [|by eapply run_inv_quiet|by eapply run_inv_issue].
    split; [done|intros k; by rewrite He|by intros g ?%elem_of_nil|constructor|].
    intros k g. by rewrite Hc.
  Qed.

  (** The epochs issued for a key, oldest first, are 1, 2, ..., n. *)
Lemma run_epochs_dense s0 s issued k :
    fresh s0 → run s0 s issued →
    reverse (g_epoch <$> filter (λ g, g_key g = k) issued) = seqZ 1 (es_epoch s k).
  Proof.
    intros Hf Hr. induction Hr as [|s s' issued Hr IH Hs|s s' issued g Hr IH Hs].
    - destruct Hf as (_ & He & _). by rewrite He.
    - pose proof (run_inv_holds _ _ _ Hf Hr) as Hi.
      by rewrite (proj1 (es_step_quiet _ _ Hs (ri_inv _ _ Hi))).
    - pose proof (run_inv_holds _ _ _ Hf Hr) as Hi.
      pose proof (run_inv_issue _ _ _ _ Hi Hs) as Hi'.
      destruct (es_step_issue _ _ _ Hs (ri_inv _ _ Hi)) as (Hg & Hcur & Hoth).
      destruct (es_current_epoch _ _ _ (ri_inv _ _ Hi') Hcur) as [_ Hn].
      pose proof (ri_epoch _ _ Hi (g_key g)) as Hz. unfold zlen in Hz.
      rewrite filter_cons. case_decide as Hk.
      + subst k. rewrite fmap_cons, reverse_cons, IH, <-Hn, Hg.
        rewrite (seqZ_app 1 (es_epoch s (g_key g)) 1) by lia.
        f_equal. unfold seqZ. simpl. f_equal. lia.
      + by rewrite (proj1 (Hoth k (not_eq_sym Hk))).
  Qed.

  (** The grant in force is the newest one of its key. *)
Lemma run_current_newest s0 s issued k g :
    fresh s0 → run s0 s issued → es_current s k = Some g →
    g ∈ issued ∧ ∀ g', g' ∈ issued → g_key g' = k → g_epoch g' <= g_epoch g.
  Proof.
    intros Hf Hr Hg. destruct (run_inv_holds _ _ _ Hf Hr) as [Hi _ Hb _ Hc].
    split; [by eapply Hc|]. intros g' Hin Hk.
    destruct (es_current_epoch _ _ _ Hi Hg) as [_ He]. specialize (Hb _ Hin).
    rewrite Hk in Hb. lia.
  Qed.
End Fencing.
