(* ===== verification/Ownership.v ===== *)
(** Scoped ownership epochs and lease fencing
    ([sonder_runtime/domain/cluster_ownership.py]).

    The authority is a record of its two dictionaries; an operation takes the
    readings of the clock and the freshly drawn token it consumes as arguments
    and returns the new authority, or the exception with the authority left as
    it was. *)
From S2P Require Import Prelude PyFloat EpochInterface.

Local Open Scope Z_scope.

Definition _RESOURCE_KINDS : list string :=
  ["session"; "attempt"; "job"; "approval"; "memory_write"].
Definition MAX_LEASE_SECONDS : Z := 900.
Definition MAX_REPLICAS_IN_PROOF : Z := 64.

Definition _identity (value : pyval) (field : string) : res string :=
  check_str is_identity OwnershipError
    (field +:+ " must be a bounded stable identity") value.

Definition _resource_kind (value : pyval) : res string :=
  check_str (λ s, mem s _RESOURCE_KINDS) OwnershipError "resource_kind is not supported" value.

Definition _epoch (value : pyval) (field : string) : res Z :=
  check_int 1 (Z.shiftl 1 63 - 1) OwnershipError
    (field +:+ " must be a positive bounded integer") value.

Definition _lease_seconds (value : pyval) : res Z :=
  check_int 1 MAX_LEASE_SECONDS OwnershipError
    ("lease_seconds must be an integer within 1.." +:+ pretty MAX_LEASE_SECONDS) value.

(** ** Leases and proofs *)

Record OwnerLease := mk_OwnerLease {
  ol_cluster_id : string;
  ol_resource_kind : string;
  ol_resource_id : string;
  ol_owner_id : string;
  ol_epoch : Z;
  ol_token : string;
  ol_expires_at : num
}.

Definition OwnerLease_init
    (cluster_id resource_kind resource_id owner_id epoch token expires_at : pyval)
  : res OwnerLease :=
  cluster ← _identity cluster_id "cluster_id";
  kind ← _resource_kind resource_kind;
  resource ← _identity resource_id "resource_id";
  owner ← _identity owner_id "owner_id";
  e ← _epoch epoch "epoch";
  t ← _identity token "lease token";
  match py_num expires_at with
  | None => throw OwnershipError "expires_at must be numeric"
  | Some x =>
      _ ← require (num_finite x) OwnershipError "expires_at must be finite";
      Ok (mk_OwnerLease cluster kind resource owner e t x)
  end.

(** The key of a lease: resource kind, resource and cluster. *)
Abbreviation lease_key := (string * string * string)%type.

Definition OwnerLease_key (l : OwnerLease) : lease_key :=
  (ol_resource_kind l, ol_resource_id l, ol_cluster_id l).

(** The generated [__eq__] of the lease class: numbers compare by value. *)
Definition lease_eqb (a b : OwnerLease) : bool :=
  String.eqb (ol_cluster_id a) (ol_cluster_id b)
  && String.eqb (ol_resource_kind a) (ol_resource_kind b)
  && String.eqb (ol_resource_id a) (ol_resource_id b)
  && String.eqb (ol_owner_id a) (ol_owner_id b)
  && (ol_epoch a =? ol_epoch b)
  && String.eqb (ol_token a) (ol_token b)
  && num_eqb (ol_expires_at a) (ol_expires_at b).

Record OwnershipDecision := mk_OwnershipDecision {
  od_allowed : bool;
  od_reason : string;
  od_epoch : option Z
}.

Record TakeoverProof := mk_TakeoverProof {
  tp_cluster_id : string;
  tp_resource_kind : string;
  tp_resource_id : string;
  tp_previous_owner_id : string;
  tp_previous_epoch : Z;
  tp_fence_receipt : string;
  tp_data_ack_epoch : Z;
  tp_replica_ids : list string
}.

Definition TakeoverProof_init
    (cluster_id resource_kind resource_id previous_owner_id previous_epoch fence_receipt
     data_ack_epoch replica_ids : pyval) : res TakeoverProof :=
  cluster ← _identity cluster_id "cluster_id";
  kind ← _resource_kind resource_kind;
  resource ← _identity resource_id "resource_id";
  owner ← _identity previous_owner_id "previous_owner_id";
  epoch ← _epoch previous_epoch "previous_epoch";
  receipt ← check_str (λ s, Z.of_nat (String.length s) <=? 4096) OwnershipError
              "fence_receipt must be bounded text" fence_receipt;
  ack ← check_int 0 (Z.shiftl 1 63 - 1) OwnershipError
          "data_ack_epoch must be a bounded integer" data_ack_epoch;
  match replica_ids with
  | PTuple l =>
      _ ← require ((1 <=? zlen l) && (zlen l <=? MAX_REPLICAS_IN_PROOF)) OwnershipError
            "replica_ids must be a bounded tuple";
      normalized ← mapM_res (λ v, _identity v "replica_id") l;
      _ ← require (no_dups normalized) OwnershipError "replica_ids must not contain duplicates";
      Ok (mk_TakeoverProof cluster kind resource owner epoch receipt ack normalized)
  | _ => throw OwnershipError "replica_ids must be a bounded tuple"
  end.

(** ** The authority *)

Record Authority := mk_Authority {
  au_cluster_id : string;
  au_max_resources : Z;
  au_leases : gmap lease_key OwnerLease;
  au_epochs : gmap lease_key Z
}.

Definition Authority_init (cluster_id max_resources : pyval) : res Authority :=
  cluster ← _identity cluster_id "cluster_id";
  m ← check_int 1 1000000 OwnershipError
        "max_resources must be a bounded positive integer" max_resources;
  Ok (mk_Authority cluster m ∅ ∅).

(** [_now()] for the value the clock returned. *)
Definition _now (reading : pyval) : res spec_float :=
  match reading with
  | PInt z =>
      let f := f64_of_Z z in
      if f64_finite f then Ok f
      else throw OverflowError "int too large to convert to float"
  | PFloat f =>
      _ ← require (f64_finite f) OwnershipError "clock returned a non-finite value";
      Ok f
  | _ => throw OwnershipError "clock returned a non-numeric value"
  end.

(** [token] is the value of [secrets.token_hex(24)]. *)
Definition _make_lease (self : Authority) (kind resource owner : string) (epoch ttl : Z)
    (now : spec_float) (token : string) : res OwnerLease :=
  let key := (kind, resource, au_cluster_id self) in
  _ ← require (negb ((au_max_resources self <=? Z.of_nat (size (au_leases self)))
                     && bool_decide (au_leases self !! key = None)))
        OwnershipConflict "ownership resource capacity exhausted";
  OwnerLease_init (PStr (au_cluster_id self)) (PStr kind) (PStr resource) (PStr owner)
    (PInt epoch) (PStr token) (PFloat (f64_add now (f64_of_Z ttl))).

Definition store (self : Authority) (key : lease_key) (l : OwnerLease) (epoch : Z) : Authority :=
  mk_Authority (au_cluster_id self) (au_max_resources self)
    (<[key := l]> (au_leases self)) (<[key := epoch]> (au_epochs self)).

Definition acquire (self : Authority) (resource_kind resource_id owner_id lease_seconds : pyval)
    (clock : pyval) (token : string) : res (Authority * OwnerLease) :=
  kind ← _resource_kind resource_kind;
  resource ← _identity resource_id "resource_id";
  owner ← _identity owner_id "owner_id";
  ttl ← _lease_seconds lease_seconds;
  now ← _now clock;
  let key := (kind, resource, au_cluster_id self) in
  _ ← require (match au_leases self !! key with
               | Some current => negb (num_ltb (NFloat now) (ol_expires_at current))
               | None => true
               end) OwnershipConflict "resource is already owned";
  let epoch := default 0 (au_epochs self !! key) + 1 in
  lease ← _make_lease self kind resource owner epoch ttl now token;
  Ok (store self key lease epoch, lease).

Definition validate (self : Authority) (lease : dyn OwnerLease) (clock : pyval)
  : res OwnershipDecision :=
  match lease with
  | Foreign => Ok (mk_OwnershipDecision false "invalid_lease" None)
  | Inst l =>
      if negb (String.eqb (ol_cluster_id l) (au_cluster_id self))
      then Ok (mk_OwnershipDecision false "cluster_mismatch" None)
      else match au_leases self !! OwnerLease_key l with
      | None => Ok (mk_OwnershipDecision false "no_owner" None)
      | Some current =>
          let refuse reason := Ok (mk_OwnershipDecision false reason (Some (ol_epoch current))) in
          if negb (ol_epoch current =? ol_epoch l) then refuse "stale_epoch"
          else if negb (String.eqb (ol_owner_id current) (ol_owner_id l))
          then refuse "owner_mismatch"
          else if negb (String.eqb (ol_token current) (ol_token l)) then refuse "stale_lease"
          else
            now ← _now clock;
            if num_leb (ol_expires_at current) (NFloat now) then refuse "lease_expired"
            else Ok (mk_OwnershipDecision true "current" (Some (ol_epoch current)))
      end
  end.

(** [clock1] is read by [validate], [clock2] by the renewal itself.  A value
    that is not a lease is refused by [validate]. *)
Definition renew (self : Authority) (lease : dyn OwnerLease) (lease_seconds : pyval)
    (clock1 clock2 : pyval) : res (Authority * OwnerLease) :=
  ttl ← _lease_seconds lease_seconds;
  decision ← validate self lease clock1;
  _ ← require (od_allowed decision) OwnershipConflict (od_reason decision);
  now ← _now clock2;
  match lease with
  | Foreign => throw OwnershipConflict (od_reason decision)
  | Inst l =>
      renewed ← OwnerLease_init (PStr (ol_cluster_id l)) (PStr (ol_resource_kind l))
                  (PStr (ol_resource_id l)) (PStr (ol_owner_id l)) (PInt (ol_epoch l))
                  (PStr (ol_token l)) (PFloat (f64_add now (f64_of_Z ttl)));
      Ok (mk_Authority (au_cluster_id self) (au_max_resources self)
            (<[OwnerLease_key l := renewed]> (au_leases self)) (au_epochs self), renewed)
  end.

Definition release (self : Authority) (lease : dyn OwnerLease) : Authority * bool :=
  match lease with
  | Foreign => (self, false)
  | Inst l =>
      if negb (String.eqb (ol_cluster_id l) (au_cluster_id self)) then (self, false)
      else match au_leases self !! OwnerLease_key l with
      | None => (self, false)
      | Some current =>
          if negb (lease_eqb current l) then (self, false)
          else (mk_Authority (au_cluster_id self) (au_max_resources self)
                  (delete (OwnerLease_key l) (au_leases self)) (au_epochs self), true)
      end
  end.

Definition takeover (self : Authority) (proof : dyn TakeoverProof) (new_owner_id lease_seconds : pyval)
    (resource_id : option pyval) (clock : pyval) (token : string) : res (Authority * OwnerLease) :=
  match proof with
  | Foreign => throw TakeoverDenied "takeover proof is invalid"
  | Inst p =>
      owner ← _identity new_owner_id "new_owner_id";
      ttl ← _lease_seconds lease_seconds;
      _ ← require (String.eqb (tp_cluster_id p) (au_cluster_id self)) TakeoverDenied
            "takeover proof cluster does not match authority";
      _ ← match resource_id with
          | None => Ok tt
          | Some v =>
              r ← _identity v "resource_id";
              require (String.eqb r (tp_resource_id p)) TakeoverDenied
                "takeover resource does not match proof"
          end;
      match au_leases self !! (tp_resource_kind p, tp_resource_id p, au_cluster_id self) with
      | None => throw TakeoverDenied "takeover current owner does not match proof"
      | Some current =>
          _ ← require (String.eqb (ol_owner_id current) (tp_previous_owner_id p)
                       && (ol_epoch current =? tp_previous_epoch p)) TakeoverDenied
                "takeover current owner does not match proof";
          _ ← require (negb (String.eqb owner (ol_owner_id current))) TakeoverDenied
                "takeover owner must change";
          _ ← require (negb (is_blank (tp_fence_receipt p))) TakeoverDenied
                "takeover requires external owner fence receipt";
          _ ← require (negb (zlen (tp_replica_ids p) <? 2)) TakeoverDenied
                "takeover requires acknowledged data on at least two replicas";
          _ ← require (negb (tp_data_ack_epoch p <? ol_epoch current)) TakeoverDenied
                "takeover acknowledged data is behind current epoch";
          now ← _now clock;
          replacement ← _make_lease self (tp_resource_kind p) (tp_resource_id p) owner
                          (ol_epoch current + 1) ttl now token;
          Ok (store self (OwnerLease_key replacement) replacement (ol_epoch replacement),
              replacement)
      end
  end.

Arguments acquire : simpl never.
Arguments validate : simpl never.
Arguments renew : simpl never.
Arguments takeover : simpl never.
Arguments _make_lease : simpl never.
Arguments store : simpl never.

(** ** Transitions *)

(** The capability a lease carries. *)
Definition lease_grant (l : OwnerLease) : grant :=
  mk_grant (OwnerLease_key l) (ol_epoch l) (ol_owner_id l) (ol_token l).

(** The operations as transitions of the authority; the checks that change
    nothing are quiet steps. *)
Inductive authority_step (self : Authority) : option grant → Authority → Prop :=
  | step_acquire kind resource owner ttl clock token self' l :
      acquire self kind resource owner ttl clock token = Ok (self', l) →
      authority_step self (Some (lease_grant l)) self'
  | step_takeover proof owner ttl resource clock token self' l :
      takeover self proof owner ttl resource clock token = Ok (self', l) →
      authority_step self (Some (lease_grant l)) self'
  | step_renew lease ttl clock1 clock2 self' l :
      renew self lease ttl clock1 clock2 = Ok (self', l) →
      authority_step self None self'
  | step_release lease self' b :
      release self lease = (self', b) →
      authority_step self None self'.

(** ** Well-formedness *)

Record wf_lease (l : OwnerLease) : Prop := {
  wfl_cluster : is_identity (ol_cluster_id l) = true;
  wfl_kind : mem (ol_resource_kind l) _RESOURCE_KINDS = true;
  wfl_resource : is_identity (ol_resource_id l) = true;
  wfl_owner : is_identity (ol_owner_id l) = true;
  wfl_epoch : 1 <= ol_epoch l <= max_i64;
  wfl_token : is_identity (ol_token l) = true;
  wfl_expires : num_finite (ol_expires_at l) = true
}.

Record authority_inv (self : Authority) : Prop := {
  ai_lease : ∀ k l, au_leases self !! k = Some l →
    OwnerLease_key l = k ∧ ol_cluster_id l = au_cluster_id self ∧ wf_lease l
    ∧ au_epochs self !! k = Some (ol_epoch l);
  ai_epochs : ∀ k e, au_epochs self !! k = Some e → 1 <= e <= max_i64;
  ai_capacity : Z.of_nat (size (au_leases self)) <= au_max_resources self
}.

(** ** Lemmas *)

Lemma OwnerLease_init_ok a1 a2 a3 a4 a5 a6 a7 l :
  OwnerLease_init a1 a2 a3 a4 a5 a6 a7 = Ok l →
  wf_lease l ∧ py_str a1 = Some (ol_cluster_id l) ∧ py_str a2 = Some (ol_resource_kind l)
  ∧ py_str a3 = Some (ol_resource_id l) ∧ py_str a4 = Some (ol_owner_id l)
  ∧ a5 = PInt (ol_epoch l) ∧ py_str a6 = Some (ol_token l)
  ∧ py_num a7 = Some (ol_expires_at l).
Proof.
  unfold OwnerLease_init, _identity, _resource_kind, _epoch. intros H. res_inv.
  destruct (py_num a7) eqn:?; res_inv. by split_and!.
Qed.

(** What [_make_lease] returns: exactly the requested capability. *)
Lemma _make_lease_ok self kind resource owner epoch ttl now token l :
  _make_lease self kind resource owner epoch ttl now token = Ok l →
  wf_lease l
  ∧ l = mk_OwnerLease (au_cluster_id self) kind resource owner epoch token
          (NFloat (f64_add now (f64_of_Z ttl)))
  ∧ (Z.of_nat (size (au_leases self)) < au_max_resources self
     ∨ au_leases self !! (kind, resource, au_cluster_id self) ≠ None).
Proof.
  unfold _make_lease. intros H. res_inv.
  match goal with H : OwnerLease_init _ _ _ _ _ _ _ = Ok _ |- _ =>
    apply OwnerLease_init_ok in H as (? & ? & ? & ? & ? & ? & ? & ?) end.
  destruct l; simplify_eq/=. split_and!; [done..|].
  to_prop. apply andb_false_iff in Hok as [?|?]; to_prop; [left; lia|by right].
Qed.

(** The state an issuing operation leaves, for the key it issues. *)
Definition issues (self : Authority) (l : OwnerLease) (self' : Authority) : Prop :=
  wf_lease l ∧ ol_cluster_id l = au_cluster_id self
  ∧ ol_epoch l = default 0 (au_epochs self !! OwnerLease_key l) + 1
  ∧ self' = store self (OwnerLease_key l) l (ol_epoch l)
  ∧ (Z.of_nat (size (au_leases self)) < au_max_resources self
     ∨ au_leases self !! OwnerLease_key l ≠ None).

Lemma acquire_issues self kind resource owner ttl clock token self' l :
  acquire self kind resource owner ttl clock token = Ok (self', l) → issues self l self'.
Proof.
  unfold acquire. intros H. res_inv.
  match goal with H : _make_lease _ _ _ _ _ _ _ _ = Ok _ |- _ =>
    apply _make_lease_ok in H as (? & -> & ?) end.
  unfold issues. by split_and!.
Qed.

Lemma takeover_issues self proof owner ttl resource clock token self' l :
  authority_inv self →
  takeover self proof owner ttl resource clock token = Ok (self', l) → issues self l self'.
Proof.
  intros Hinv. unfold takeover. intros H. destruct proof as [p|]; res_inv.
  destruct (au_leases self !! _) as [current|] eqn:Hcur; res_inv.
  match goal with H : _make_lease _ _ _ _ _ _ _ _ = Ok _ |- _ =>
    apply _make_lease_ok in H as (? & -> & ?) end.
  destruct (ai_lease _ Hinv _ _ Hcur) as (_ & _ & _ & Hep).
  unfold issues. split_and!; try done. unfold OwnerLease_key; simpl. by rewrite Hep.
Qed.

Lemma issues_inv self l self' :
  authority_inv self → issues self l self' → authority_inv self'.
Proof.
  intros [Hl He Hc] (Hwf & Hcl & Hep & -> & Hcap). split; simpl.
  - intros k l'. rewrite !lookup_insert. case_decide as Hk; [|apply Hl].
    intros [= <-]. by split_and!.
  - intros k e. rewrite lookup_insert. case_decide; [|apply He].
    intros [= <-]. apply Hwf.
  - destruct (au_leases self !! OwnerLease_key l) as [l'|] eqn:E.
    + by rewrite map_size_insert_Some by done.
    + rewrite map_size_insert_None by done. destruct Hcap as [?|?]; [lia|done].
Qed.

Lemma validate_allowed self lease clock d :
  validate self lease clock = Ok d → od_allowed d = true →
  ∃ l current now, lease = Inst l ∧ ol_cluster_id l = au_cluster_id self
    ∧ au_leases self !! OwnerLease_key l = Some current
    ∧ ol_epoch current = ol_epoch l ∧ ol_owner_id current = ol_owner_id l
    ∧ ol_token current = ol_token l ∧ _now clock = Ok now
    ∧ num_leb (ol_expires_at current) (NFloat now) = false.
Proof.
  unfold validate. intros H Hal. destruct lease as [l|]; res_inv; try done.
  destruct (negb (String.eqb _ _)) eqn:E1; simplify_eq/=.
  destruct (au_leases self !! OwnerLease_key l) as [current|] eqn:Hcur; simplify_eq/=.
  destruct (negb (_ =? _)) eqn:E2; simplify_eq/=.
  destruct (negb (String.eqb (ol_owner_id _) _)) eqn:E3; simplify_eq/=.
  destruct (negb (String.eqb (ol_token _) _)) eqn:E4; simplify_eq/=.
  res_inv. destruct (num_leb _ _) eqn:E5; simplify_eq/=. to_prop.
  exists l, current, a. split_and!; try done; by apply String.eqb_eq.
Qed.

Lemma renew_ok self lease ttl clock1 clock2 self' r :
  renew self lease ttl clock1 clock2 = Ok (self', r) →
  ∃ l current, lease = Inst l ∧ au_leases self !! OwnerLease_key l = Some current
    ∧ ol_cluster_id l = au_cluster_id self ∧ wf_lease r
    ∧ lease_grant r = lease_grant l ∧ ol_epoch current = ol_epoch l
    ∧ ol_owner_id current = ol_owner_id l ∧ ol_token current = ol_token l
    ∧ self' = mk_Authority (au_cluster_id self) (au_max_resources self)
                (<[OwnerLease_key l := r]> (au_leases self)) (au_epochs self).
Proof.
  unfold renew. intros H. res_inv.
  match goal with H : validate _ _ _ = Ok _ |- _ =>
    apply validate_allowed in H as (l & current & n & -> & ? & ? & ? & ? & ? & _); [|done] end.
  res_inv.
  match goal with H : OwnerLease_init _ _ _ _ _ _ _ = Ok _ |- _ =>
    apply OwnerLease_init_ok in H as (? & ? & ? & ? & ? & ? & ? & ?) end.
  exists l, current. split_and!; try done.
  unfold lease_grant, OwnerLease_key. simplify_eq/=. congruence.
Qed.

Lemma lease_eqb_grant a b : lease_eqb a b = true → lease_grant a = lease_grant b.
Proof.
  unfold lease_eqb, lease_grant, OwnerLease_key. intros H. to_prop.
  repeat match goal with H : String.eqb _ _ = true |- _ => apply String.eqb_eq in H end.
  congruence.
Qed.

Lemma release_cases self lease self' b :
  release self lease = (self', b) →
  (b = false ∧ self' = self) ∨
  (b = true ∧ ∃ l current, lease = Inst l ∧ au_leases self !! OwnerLease_key l = Some current
     ∧ lease_eqb current l = true
     ∧ self' = mk_Authority (au_cluster_id self) (au_max_resources self)
                 (delete (OwnerLease_key l) (au_leases self)) (au_epochs self)).
Proof.
  unfold release. intros H. destruct lease as [l|]; [|simplify_eq; by left].
  destruct (negb (String.eqb _ _)); [simplify_eq; by left|].
  destruct (au_leases self !! _) as [current|] eqn:E; [|simplify_eq; by left].
  destruct (lease_eqb current l) eqn:E'; simplify_eq/=; [|by left].
  right. split; [done|]. by exists l, current.
Qed.

Lemma authority_step_inv self g self' :
  authority_step self g self' → authority_inv self → authority_inv self'.
Proof.
  intros Hs Hi. destruct Hs as [? ? ? ? ? ? ? ? H|? ? ? ? ? ? ? ? H|? ? ? ? ? ? H|? ? ? H].
  - eauto using issues_inv, acquire_issues.
  - eauto using issues_inv, takeover_issues.
  - apply renew_ok in H as (l0 & current & -> & Hcur & Hcl & Hwf & Hg & He & Ho & Ht & ->).
    destruct Hi as [Hl Hep Hc]. pose proof (f_equal g_key Hg) as Hk. pose proof (f_equal g_epoch Hg) as Hge. simpl in Hk, Hge.
    destruct (Hl _ _ Hcur) as (_ & _ & _ & Hece). split; simpl.
    + intros k r'. rewrite lookup_insert. case_decide as Hkk; [|apply Hl].
      intros [= <-]. subst k. split_and!; [done| |done|congruence].
      apply (f_equal snd) in Hk. simpl in Hk. congruence.
    + done.
    + by rewrite map_size_insert_Some by done.
  - apply release_cases in H as [[_ ->]|(_ & l0 & current & -> & Hcur & _ & ->)]; [done|].
    destruct Hi as [Hl Hep Hc]. split; simpl; [|done|].
    + intros k r [? Hr]%lookup_delete_Some. by apply Hl.
    + rewrite map_size_delete_Some by done. lia.
Qed.

#[export] Program Instance authority_epoch_store : EpochStore Authority := {|
  es_step := authority_step;
  es_inv := authority_inv;
  es_epoch self k := default 0 (au_epochs self !! k);
  es_current self k := lease_grant <$> au_leases self !! k;
  es_step_inv := authority_step_inv
|}.
Next Obligation.
  intros self k g Hi; simpl. destruct (au_leases self !! k) as [l|] eqn:E; simpl; [|done].
  intros [= <-]. destruct (ai_lease _ Hi _ _ E) as (<- & _ & _ & ->). done.
Qed.
Next Obligation.
  intros self self' Hs Hi. inversion Hs as [| |lease ttl c1 c2 ? l H|lease ? b H]; subst.
  - apply renew_ok in H as (l0 & current & -> & Hcur & _ & _ & Hg & He & Ho & Ht & ->). simpl.
    split; [done|]. intros k g. rewrite lookup_insert. case_decide as Hk; [|done].
    subst k. simpl. intros [= <-]. rewrite Hcur, Hg. simpl. f_equal.
    destruct (ai_lease _ Hi _ _ Hcur) as (Hk & _). unfold lease_grant. congruence.
  - apply release_cases in H as [[_ ->]|(_ & l & current & -> & Hcur & _ & ->)]; [done|].
    simpl. split; [done|]. intros k g. rewrite lookup_delete. by case_decide.
Qed.
Next Obligation.
  intros self g self' Hs Hi.
  assert (∃ l, g = lease_grant l ∧ issues self l self') as (l & -> & Hl).
  { inversion Hs; subst; eexists; split; eauto using acquire_issues, takeover_issues. }
  destruct Hl as (_ & _ & Hep & -> & _). simpl. split_and!; [done|..].
  - by rewrite lookup_insert_eq.
  - intros k Hk. by rewrite !lookup_insert_ne.
Qed.

Lemma authority_init_fresh cluster maximum self :
  Authority_init cluster maximum = Ok self → fresh self.
Proof.
  unfold Authority_init, _identity. intros H. res_inv. split; [|done].
  split; simpl; [done|done|]. rewrite map_size_empty. lia.
Qed.

(** What the decision says, reason by reason, when the lease names a stored key. *)
Lemma validate_other_epoch self l current clock :
  ol_cluster_id l = au_cluster_id self →
  au_leases self !! OwnerLease_key l = Some current → ol_epoch current ≠ ol_epoch l →
  validate self (Inst l) clock
  = Ok (mk_OwnershipDecision false "stale_epoch" (Some (ol_epoch current))).
Proof.
  intros Hc Hl He. unfold validate. rewrite Hc, String.eqb_refl, Hl. simpl.
  by rewrite (proj2 (Z.eqb_neq _ _)).
Qed.

Lemma validate_current self l clock d :
  authority_inv self → validate self (Inst l) clock = Ok d → od_allowed d = true →
  es_current self (OwnerLease_key l) = Some (lease_grant l).
Proof.
  intros Hi H Hal. destruct (validate_allowed _ _ _ _ H Hal)
    as (? & current & now & [= <-] & _ & Hcur & He & Ho & Ht & _).
  simpl. rewrite Hcur. simpl. destruct (ai_lease _ Hi _ _ Hcur) as (Hk & _).
  unfold lease_grant. by rewrite Hk, He, Ho, Ht.
Qed.

(** ** Theorems *)

(** C1: whatever sequence of acquisitions, renewals, releases and takeovers an
    authority has been through, the epochs it issued for a resource are, oldest
    first, exactly 1, 2, ..., n: no epoch is ever reused, also not after a
    release or an expiry, and none is skipped. *)
Theorem authority_epochs_dense cluster maximum self0 self issued k :
  Authority_init cluster maximum = Ok self0 → run self0 self issued →
  reverse (g_epoch <$> filter (λ g, g_key g = k) issued)
    = seqZ 1 (default 0 (au_epochs self !! k))
  ∧ NoDup ((λ g, (g_key g, g_epoch g)) <$> issued).
Proof.
  intros Hi Hr. apply authority_init_fresh in Hi. split.
  - exact (run_epochs_dense self0 self issued k Hi Hr).
  - by eapply ri_nodup, run_inv_holds.
Qed.

(** A lease the authority accepts is the newest capability it ever issued
    for that resource, with the owner and token it was issued with, and no
    other capability for the resource is accepted in that state. *)
Theorem authority_validate_newest cluster maximum self0 self issued l clock d :
  Authority_init cluster maximum = Ok self0 → run self0 self issued →
  validate self (Inst l) clock = Ok d → od_allowed d = true →
  lease_grant l ∈ issued
  ∧ (∀ g, g ∈ issued → g_key g = OwnerLease_key l → g_epoch g <= ol_epoch l)
  ∧ ∀ l' clock' d', validate self (Inst l') clock' = Ok d' → od_allowed d' = true →
      OwnerLease_key l' = OwnerLease_key l → lease_grant l' = lease_grant l.
Proof.
  intros Hi Hr Hv Hal. apply authority_init_fresh in Hi.
  pose proof (ri_inv _ _ (run_inv_holds _ _ _ Hi Hr)) as Hinv.
  pose proof (validate_current _ _ _ _ Hinv Hv Hal) as Hcur.
  destruct (run_current_newest _ _ _ _ _ Hi Hr Hcur) as [Hin Hmax].
  split_and!; [done|done|]. intros l' clock' d' Hv' Hal' Hk.
  pose proof (validate_current _ _ _ _ Hinv Hv' Hal') as Hcur'. congruence.
Qed.

(** Once a newer capability was issued for a resource, every older lease of
    it is refused in every later state, whatever the clock says: with
    [stale_epoch] while the resource is owned and [no_owner] after a release. *)
Theorem authority_superseded_refused cluster maximum self0 self issued l g clock :
  Authority_init cluster maximum = Ok self0 → run self0 self issued →
  ol_cluster_id l = au_cluster_id self →
  g ∈ issued → g_key g = OwnerLease_key l → ol_epoch l < g_epoch g →
  validate self (Inst l) clock =
    Ok (match au_leases self !! OwnerLease_key l with
        | Some current => mk_OwnershipDecision false "stale_epoch" (Some (ol_epoch current))
        | None => mk_OwnershipDecision false "no_owner" None
        end).
Proof.
  intros Hi Hr Hc Hin Hk Hlt. apply authority_init_fresh in Hi.
  pose proof (ri_inv _ _ (run_inv_holds _ _ _ Hi Hr)) as Hinv.
  destruct (au_leases self !! OwnerLease_key l) as [current|] eqn:E.
  - apply validate_other_epoch; [done|done|].
    assert (es_current self (OwnerLease_key l) = Some (lease_grant current)) as Hcur
      by (simpl; by rewrite E).
    destruct (run_current_newest _ _ _ _ _ Hi Hr Hcur) as [_ Hmax].
    specialize (Hmax _ Hin Hk). simpl in Hmax. lia.
  - unfold validate. by rewrite Hc, String.eqb_refl, E.
Qed.

(** The condition under which an issuing operation can build its lease. *)
Definition can_issue (self : Authority) (kind resource owner : string) (epoch ttl : Z)
    (now : spec_float) (token : string) : Prop :=
  mem kind _RESOURCE_KINDS = true ∧ is_identity resource = true ∧ is_identity owner = true
  ∧ 1 <= ttl <= MAX_LEASE_SECONDS ∧ f64_finite now = true
  ∧ is_identity token = true ∧ epoch <= max_i64
  ∧ f64_finite (f64_add now (f64_of_Z ttl)) = true
  ∧ (Z.of_nat (size (au_leases self)) < au_max_resources self
     ∨ au_leases self !! (kind, resource, au_cluster_id self) ≠ None).

Lemma _make_lease_total self kind resource owner epoch ttl now token :
  is_identity (au_cluster_id self) = true → 1 <= epoch →
  can_issue self kind resource owner epoch ttl now token →
  _make_lease self kind resource owner epoch ttl now token
  = Ok (mk_OwnerLease (au_cluster_id self) kind resource owner epoch token
          (NFloat (f64_add now (f64_of_Z ttl)))).
Proof.
  intros Hc He (Hk & Hr & Ho & _ & _ & Ht & Hb & Hf & Hcap). unfold _make_lease.
  rewrite bind_Ok with (a := tt).
  2:{ apply require_true. apply negb_true_iff, andb_false_iff.
      destruct Hcap as [?|?]; [left; by apply Z.leb_gt|right; by apply bool_decide_eq_false]. }
  unfold OwnerLease_init, _identity, _resource_kind, _epoch. unfold max_i64 in Hb.
  res_eval. simpl. by rewrite Hf.
Qed.

(** Exactly when an acquisition succeeds, and what it grants.  It needs a
    supported kind, identities, a lease within 1..900 seconds, room for the
    resource, and that no lease of the resource is unexpired on the clock, also
    not one of the same owner; the epoch granted is one above the last epoch
    ever issued for the resource. *)
Theorem acquire_iff self kind resource owner ttl now token self' l :
  authority_inv self → is_identity (au_cluster_id self) = true →
  let key := (kind, resource, au_cluster_id self) in
  let epoch := default 0 (au_epochs self !! key) + 1 in
  acquire self (PStr kind) (PStr resource) (PStr owner) (PInt ttl) (PFloat now) token
    = Ok (self', l)
  ↔ can_issue self kind resource owner epoch ttl now token
    ∧ (∀ current, au_leases self !! key = Some current →
         num_ltb (NFloat now) (ol_expires_at current) = false)
    ∧ l = mk_OwnerLease (au_cluster_id self) kind resource owner epoch token
            (NFloat (f64_add now (f64_of_Z ttl)))
    ∧ self' = store self key l epoch.
Proof.
  intros Hinv Hc key epoch.
  assert (1 <= epoch) as He.
  { unfold epoch. destruct (au_epochs self !! key) as [e|] eqn:E; simpl; [|lia].
    apply (ai_epochs _ Hinv) in E. lia. }
  split.
  - unfold acquire, _identity, _resource_kind, _lease_seconds. intros H. do 2 res_inv.
    match goal with H : _make_lease _ _ _ _ _ _ _ _ = Ok _ |- _ =>
      apply _make_lease_ok in H as (Hwf & -> & ?) end.
    destruct Hwf as [? ? ? ? Hwe ? ?]. simpl in *. split_and!; try done; [unfold can_issue; naive_solver|].
    intros current E. fold key in Hok4. rewrite E in Hok4. by apply negb_true_iff.
  - intros (Hcan & Hexp & -> & ->). pose proof Hcan as (? & ? & ? & ? & Hf & _).
    unfold acquire, _identity, _resource_kind, _lease_seconds, _now. res_eval. simpl. rewrite Hf. simpl.
    fold key. rewrite bind_Ok with (a := tt).
    2:{ apply require_true. destruct (au_leases self !! key) as [c|] eqn:E; [|done].
        by rewrite Hexp. }
    by rewrite (bind_Ok _ _ _ (_make_lease_total _ _ _ _ _ _ _ _ Hc He Hcan)).
Qed.

(** When a takeover succeeds, and its result. *)
Lemma takeover_exact self p owner ttl now token self' l :
  authority_inv self → is_identity (au_cluster_id self) = true →
  takeover self (Inst p) (PStr owner) (PInt ttl) None (PFloat now) token = Ok (self', l)
  ↔ ∃ current,
      au_leases self !! (tp_resource_kind p, tp_resource_id p, au_cluster_id self) = Some current
      ∧ tp_cluster_id p = au_cluster_id self
      ∧ ol_owner_id current = tp_previous_owner_id p
      ∧ ol_epoch current = tp_previous_epoch p
      ∧ owner ≠ ol_owner_id current
      ∧ is_blank (tp_fence_receipt p) = false
      ∧ 2 <= zlen (tp_replica_ids p)
      ∧ ol_epoch current <= tp_data_ack_epoch p
      ∧ can_issue self (tp_resource_kind p) (tp_resource_id p) owner (ol_epoch current + 1)
          ttl now token
      ∧ l = mk_OwnerLease (au_cluster_id self) (tp_resource_kind p) (tp_resource_id p) owner
              (ol_epoch current + 1) token (NFloat (f64_add now (f64_of_Z ttl)))
      ∧ self' = store self (OwnerLease_key l) l (ol_epoch l)
      ∧ ∀ clock, validate self' (Inst current) clock
          = Ok (mk_OwnershipDecision false "stale_epoch" (Some (ol_epoch l))).
Proof.
  intros Hinv Hc. split.
  - unfold takeover, _identity, _lease_seconds. intros H. res_inv.
    destruct (au_leases self !! _) as [current|] eqn:Hcur; do 2 res_inv. exists current.
    match goal with H : _make_lease _ _ _ _ _ _ _ _ = Ok _ |- _ =>
      apply _make_lease_ok in H as (Hwf & -> & ?) end.
    destruct (ai_lease _ Hinv _ _ Hcur) as (Hk & Hcc & _ & _).
    destruct Hwf as [? ? ? ? Hwe ? ?]. simpl in *. to_prop.
    repeat match goal with
    | H : String.eqb _ _ = true |- _ => apply String.eqb_eq in H
    | H : String.eqb _ _ = false |- _ => apply String.eqb_neq in H
    end.
    split_and!; try done; [unfold can_issue; rewrite mem_spec; naive_solver|].
    intros clock. set (l := mk_OwnerLease _ _ _ _ _ _ _).
    apply (validate_other_epoch (store self (OwnerLease_key l) l (ol_epoch l)) current l);
      [done| |subst l; simpl; lia].
    rewrite Hk. by apply lookup_insert_eq.
  - intros (current & Hcur & Hp & Ho & He & Hne & Hb & Hz & Ha & Hcan & -> & -> & _).
    pose proof Hcan as (? & ? & ? & ? & Hf & _).
    destruct (ai_lease _ Hinv _ _ Hcur) as (_ & _ & Hw & _). pose proof (wfl_epoch _ Hw).
    assert (1 <= ol_epoch current + 1) as Hpos by lia.
    unfold takeover, _identity, _lease_seconds, _now. rewrite Hp, String.eqb_refl. res_eval.
    rewrite Hcur, Ho, He, String.eqb_refl, Z.eqb_refl. simpl. rewrite Hb.
    apply String.eqb_neq in Hne. rewrite <-Ho, Hne. simpl.
    rewrite (proj2 (Z.ltb_ge _ _) Hz). simpl. rewrite <-He, (proj2 (Z.ltb_ge _ _) Ha). simpl.
    rewrite (bind_Ok _ _ _ (_make_lease_total _ _ _ _ _ _ _ _ Hc Hpos Hcan)).
    done.
Qed.

Lemma TakeoverProof_run c k r o e f a l :
  is_identity c = true → mem k _RESOURCE_KINDS = true → is_identity r = true →
  is_identity o = true → 1 <= e <= max_i64 → Z.of_nat (String.length f) <= 4096 →
  0 <= a <= max_i64 → Forall (λ s, is_identity s = true) l → NoDup l →
  1 <= zlen l <= MAX_REPLICAS_IN_PROOF →
  TakeoverProof_init (PStr c) (PStr k) (PStr r) (PStr o) (PInt e) (PStr f) (PInt a)
    (PTuple (PStr <$> l)) = Ok (mk_TakeoverProof c k r o e f a l).
Proof.
  intros Hc Hk Hr Ho He Hf%Z.leb_le Ha Hid Hnd Hl.
  unfold TakeoverProof_init, _identity, _resource_kind, _epoch. unfold max_i64 in *. res_eval.
  rewrite (bind_Ok _ _ tt).
  2:{ apply require_true. unfold zlen in *. rewrite length_fmap. apply andb_true_iff.
      by rewrite !Z.leb_le. }
  rewrite (bind_Ok _ _ l); [by rewrite (proj2 (no_dups_spec l) Hnd)|].
  apply mapM_res_ok. clear -Hid. induction Hid; simpl; constructor; [|done].
  by apply check_str_PStr.
Qed.

Lemma takeover_granted self p current owner ttl now token :
  authority_inv self → tp_cluster_id p = au_cluster_id self →
  au_leases self !! (tp_resource_kind p, tp_resource_id p, au_cluster_id self) = Some current →
  ol_owner_id current = tp_previous_owner_id p → ol_epoch current = tp_previous_epoch p →
  owner ≠ tp_previous_owner_id p → is_blank (tp_fence_receipt p) = false →
  2 <= zlen (tp_replica_ids p) → tp_previous_epoch p <= tp_data_ack_epoch p →
  can_issue self (tp_resource_kind p) (tp_resource_id p) owner (ol_epoch current + 1) ttl now token →
  ∃ self' l,
    takeover self (Inst p) (PStr owner) (PInt ttl) None (PFloat now) token = Ok (self', l)
    ∧ ol_owner_id l = owner ∧ ol_epoch l = tp_previous_epoch p + 1.
Proof.
  intros Hinv Hcl Hcur Ho He Hne Hb Hz Ha Hcan.
  destruct (ai_lease _ Hinv _ _ Hcur) as (Hk & Hcc & Hwf & _).
  set (l := mk_OwnerLease (au_cluster_id self) (tp_resource_kind p) (tp_resource_id p) owner
    (ol_epoch current + 1) token (NFloat (f64_add now (f64_of_Z ttl)))).
  exists (store self (OwnerLease_key l) l (ol_epoch l)), l.
  split; [|split; [done|simpl; congruence]].
  apply takeover_exact; [done|rewrite <-Hcc; apply Hwf|]. exists current.
  repeat (split; [solve [done | congruence | lia]|]).
  intros clock. apply (validate_other_epoch (store self (OwnerLease_key l) l (ol_epoch l)) current l);
    [by rewrite Hcc|rewrite Hk; by apply lookup_insert_eq|simpl; lia].
Qed.

(** A takeover succeeds exactly when the proof names the current owner and
    epoch, the owner changes, the external fence receipt is not blank, at least
    two replicas acknowledged data and the acknowledged data is not behind the
    current epoch; the new epoch is one above the fenced one, and the fenced
    lease is refused from then on. *)
Theorem takeover_iff self p owner ttl now token self' l :
  authority_inv self → is_identity (au_cluster_id self) = true →
  takeover self (Inst p) (PStr owner) (PInt ttl) None (PFloat now) token = Ok (self', l)
  ↔ ∃ current,
      au_leases self !! (tp_resource_kind p, tp_resource_id p, au_cluster_id self) = Some current
      ∧ tp_cluster_id p = au_cluster_id self
      ∧ ol_owner_id current = tp_previous_owner_id p
      ∧ ol_epoch current = tp_previous_epoch p
      ∧ owner ≠ ol_owner_id current
      ∧ is_blank (tp_fence_receipt p) = false
      ∧ 2 <= zlen (tp_replica_ids p)
      ∧ ol_epoch current <= tp_data_ack_epoch p
      ∧ can_issue self (tp_resource_kind p) (tp_resource_id p) owner (ol_epoch current + 1)
          ttl now token
      ∧ l = mk_OwnerLease (au_cluster_id self) (tp_resource_kind p) (tp_resource_id p) owner
              (ol_epoch current + 1) token (NFloat (f64_add now (f64_of_Z ttl)))
      ∧ self' = store self (OwnerLease_key l) l (ol_epoch l)
      ∧ ∀ clock, validate self' (Inst current) clock
          = Ok (mk_OwnershipDecision false "stale_epoch" (Some (ol_epoch l))).
Proof. apply takeover_exact. Qed.

(** ** Sample histories *)

Module Sample.
Definition tok (c : string) : string := c +:+ "1f2e3d4c5b6a79880716253443526170".
Definition at_second (z : Z) : pyval := PFloat (f64_of_Z z).

Definition start : Authority := mk_Authority "lab" 4 ∅ ∅.

  (** [node-a] acquires the job at second 0 for 30 seconds. *)
Definition first_lease : OwnerLease :=
    mk_OwnerLease "lab" "job" "job-7" "node-a" 1 (tok "a") (NFloat (f64_of_Z 30)).
Definition owned : Authority := store start (OwnerLease_key first_lease) first_lease 1.

  (** [node-a] is fenced and [node-b] takes over at second 10. *)
Definition proof : TakeoverProof :=
    mk_TakeoverProof "lab" "job" "job-7" "node-a" 1 "fence-receipt-9" 1 ["r1"; "r2"].
Definition second_lease : OwnerLease :=
    mk_OwnerLease "lab" "job" "job-7" "node-b" 2 (tok "b") (NFloat (f64_of_Z 40)).
Definition taken : Authority := store owned (OwnerLease_key second_lease) second_lease 2.

Lemma start_init : Authority_init (PStr "lab") (PInt 4) = Ok start.
  Proof. reflexivity. Qed.

Lemma acquired :
    acquire start (PStr "job") (PStr "job-7") (PStr "node-a") (PInt 30) (at_second 0) (tok "a")
    = Ok (owned, first_lease).
  Proof. vm_compute. reflexivity. Qed.

Lemma took_over :
    takeover owned (Inst proof) (PStr "node-b") (PInt 30) None (at_second 10) (tok "b")
    = Ok (taken, second_lease).
  Proof. vm_compute. reflexivity. Qed.

Lemma history : run start taken [lease_grant second_lease; lease_grant first_lease].
  Proof.
    eapply run_issue; [eapply run_issue; [apply run_nil|]|].
    - eapply step_acquire, acquired.
    - eapply step_takeover, took_over.
  Qed.

Lemma owned_inv : authority_inv owned.
  Proof.
    eapply (authority_step_inv start); [eapply step_acquire, acquired|].
    eapply (authority_init_fresh _ _ _ start_init).
  Qed.
End Sample.

Lemma authority_epochs_dense_witness :
  reverse (g_epoch <$> filter (λ g, g_key g = ("job", "job-7", "lab"))
             [lease_grant Sample.second_lease; lease_grant Sample.first_lease]) = seqZ 1 2.
Proof.
  destruct (authority_epochs_dense _ _ _ _ _ ("job", "job-7", "lab")
              Sample.start_init Sample.history) as [H _]. exact H.
Defined.

Lemma authority_validate_newest_witness :
  g_epoch (lease_grant Sample.first_lease) <= 2.
Proof.
  refine (proj1 (proj2 (authority_validate_newest _ _ _ _ _ Sample.second_lease
    (Sample.at_second 39) (mk_OwnershipDecision true "current" (Some 2))
    Sample.start_init Sample.history _ _)) (lease_grant Sample.first_lease) _ eq_refl);
    [vm_compute; reflexivity|reflexivity|right; left].
Defined.

Lemma authority_superseded_refused_witness :
  validate Sample.taken (Inst Sample.first_lease) (Sample.at_second 11)
  = Ok (mk_OwnershipDecision false "stale_epoch" (Some 2)).
Proof.
  refine (authority_superseded_refused _ _ _ _ _ Sample.first_lease
    (lease_grant Sample.second_lease) _ Sample.start_init Sample.history _ _ _ _);
    [reflexivity|left|reflexivity|reflexivity].
Defined.

Lemma acquire_iff_witness :
  num_ltb (NFloat (f64_of_Z 30)) (ol_expires_at Sample.first_lease) = false.
Proof.
  refine (proj1 (proj2 (proj1 (acquire_iff Sample.owned "job" "job-7" "node-b" 30 (f64_of_Z 30)
    (Sample.tok "b") _ _ Sample.owned_inv _) _)) Sample.first_lease _);
    [|vm_compute; reflexivity..|reflexivity]; reflexivity.
Defined.

Lemma takeover_iff_witness :
  ∃ current, ol_owner_id current = "node-a" ∧ is_blank (tp_fence_receipt Sample.proof) = false.
Proof.
  destruct (proj1 (takeover_iff Sample.owned Sample.proof "node-b" 30 (f64_of_Z 10)
    (Sample.tok "b") Sample.taken Sample.second_lease Sample.owned_inv eq_refl) Sample.took_over)
    as (current & _ & _ & Ho & _ & _ & Hb & _).
  exists current. split; [exact Ho|exact Hb].
Defined.

(** An expired lease is handed to another owner by plain acquisition: no
    fence receipt and no data acknowledgement is asked for. *)
Theorem acquire_after_expiry_needs_no_proof :
  acquire Sample.owned (PStr "job") (PStr "job-7") (PStr "node-b") (PInt 30)
    (Sample.at_second 30) (Sample.tok "b")
  = Ok (store Sample.owned ("job", "job-7", "lab")
          (mk_OwnerLease "lab" "job" "job-7" "node-b" 2 (Sample.tok "b") (NFloat (f64_of_Z 60))) 2,
        mk_OwnerLease "lab" "job" "job-7" "node-b" 2 (Sample.tok "b") (NFloat (f64_of_Z 60))).
Proof. vm_compute. reflexivity. Qed.
