(* ===== verification/OwnershipJournal.v ===== *)
(** The durable single-host ownership journal
    ([sonder_runtime/adapters/persistence/sqlite/cluster_ownership.py]).

    The database file is a value: its schema version and columns and the two
    tables, each a finite map from the primary key to a row whose columns are
    dynamic values, so that the validation of loaded rows is part of the model.
    [None] is a missing file.  A transaction runs a body on the database; an
    exception rolls it back, which here means that no new file value exists.
    Failures of the disk or of the SQLite library are outside the model.  The
    [CHECK] constraints of the schema bind nothing here: every epoch that is
    written comes from a constructed lease and is at least 1. *)
From S2P Require Import Prelude PyFloat Sha256 EpochInterface Ownership.

Local Open Scope Z_scope.

Definition SCHEMA_VERSION : Z := 1.
Definition _MAX_EPOCH : Z := Z.shiftl 1 63 - 1.
Definition _EPOCH_COLUMNS : list string :=
  ["cluster_id"; "resource_kind"; "resource_id"; "epoch"; "released_epoch"; "released_token"].
Definition _LEASE_COLUMNS : list string :=
  ["cluster_id"; "resource_kind"; "resource_id"; "epoch"; "owner_id"; "token"; "expires_at";
   "renew_key"].

Record epoch_row := mk_epoch_row {
  er_epoch : pyval;
  er_released_epoch : pyval;
  er_released_token : pyval
}.

Record lease_row := mk_lease_row {
  lr_epoch : pyval;
  lr_owner_id : pyval;
  lr_token : pyval;
  lr_expires_at : pyval;
  lr_renew_key : pyval
}.

Record Db := mk_Db {
  db_user_version : Z;
  db_epoch_columns : list string;
  db_lease_columns : list string;
  db_epochs : gmap resource_key epoch_row;
  db_leases : gmap resource_key lease_row
}.

(** A handle on the file: the fields of the journal object. *)
Record Journal := mk_Journal {
  jn_cluster_id : string;
  jn_max_resources : Z
}.

(** ** Opening *)

Definition empty_db : Db := mk_Db SCHEMA_VERSION _EPOCH_COLUMNS _LEASE_COLUMNS ∅ ∅.

Definition _create_schema (file : option Db) : res (option Db) :=
  match file with
  | Some _ => throw OwnershipError "owner lease journal already exists"
  | None => Ok (Some empty_db)
  end.

Definition _open_connection (file : option Db) : res Db :=
  match file with
  | Some db => Ok db
  | None => throw OwnershipError "owner lease journal is missing"
  end.

Definition _verify_schema (db : Db) : res unit :=
  _ ← require (db_user_version db =? SCHEMA_VERSION) OwnershipError
        "owner lease journal schema mismatch";
  _ ← require (bool_decide (db_epoch_columns db = _EPOCH_COLUMNS)) OwnershipError
        "owner lease journal schema mismatch";
  require (bool_decide (db_lease_columns db = _LEASE_COLUMNS)) OwnershipError
    "owner lease journal schema mismatch".

Definition _transaction {A} (file : option Db) (body : Db → res (Db * A))
  : res (option Db * A) :=
  db ← _open_connection file;
  _ ← _verify_schema db;
  r ← body db;
  Ok (Some r.1, r.2).

Definition Journal_init (file : option Db) (cluster_id max_resources : pyval) (create : bool)
  : res (option Db * Journal) :=
  authority ← Authority_init cluster_id max_resources;
  file' ← (if create then _create_schema file else Ok file);
  let self := mk_Journal (au_cluster_id authority) (au_max_resources authority) in
  _transaction file' (λ db, Ok (db, self)).

(** ** Helpers *)

Definition _now (reading : pyval) : res spec_float :=
  match reading with
  | PInt z =>
      let f := f64_of_Z z in
      _ ← require (f64_finite f) OwnershipError "clock returned a non-finite value";
      Ok f
  | PFloat f =>
      _ ← require (f64_finite f) OwnershipError "clock returned a non-finite value";
      Ok f
  | _ => throw OwnershipError "clock returned a non-numeric value"
  end.

Definition _scope (self : Journal) (resource_kind resource_id owner_id : pyval)
  : res (string * string * string) :=
  probe ← OwnerLease_init (PStr (jn_cluster_id self)) resource_kind resource_id owner_id
            (PInt 1) (PStr "probe") (PFloat (f64_of_Z 0));
  Ok (ol_resource_kind probe, ol_resource_id probe, ol_owner_id probe).

Definition _next_epoch (epoch : Z) : res Z :=
  _ ← require ((0 <=? epoch) && (epoch <? _MAX_EPOCH)) OwnershipError
        "owner lease epoch is exhausted or invalid";
  Ok (epoch + 1).

Definition _row_to_lease (key : resource_key) (row : lease_row) : res OwnerLease :=
  let bad := "owner lease journal contains an invalid lease" in
  let '(kind, resource, cluster) := key in
  match lr_epoch row, lr_owner_id row, lr_token row, lr_expires_at row with
  | PInt _, PStr _, PStr _, (PInt _ | PFloat _) =>
      rewrap OwnershipError bad
        (OwnerLease_init (PStr cluster) (PStr kind) (PStr resource) (lr_owner_id row)
           (lr_epoch row) (lr_token row) (lr_expires_at row))
  | _, _, _, _ => throw OwnershipError bad
  end.

Definition journal_key (self : Journal) (kind resource : string) : resource_key :=
  (kind, resource, jn_cluster_id self).

Definition _load_lease (self : Journal) (db : Db) (kind resource : string)
  : res (option (OwnerLease * option string)) :=
  let key := journal_key self kind resource in
  match db_leases db !! key with
  | None => Ok None
  | Some row =>
      match lr_renew_key row with
      | PNone => l ← _row_to_lease key row; Ok (Some (l, None))
      | PStr s => l ← _row_to_lease key row; Ok (Some (l, Some s))
      | _ => throw OwnershipError "owner lease journal contains an invalid renewal key"
      end
  end.

Definition _epoch_row (self : Journal) (db : Db) (kind resource : string)
  : res (option (Z * option Z * option string)) :=
  match db_epochs db !! journal_key self kind resource with
  | None => Ok None
  | Some row =>
      let bad_epoch := "owner lease journal contains an invalid epoch" in
      let bad_release := "owner lease journal contains an invalid release epoch" in
      epoch ← match er_epoch row with PInt z => Ok z | _ => throw OwnershipError bad_epoch end;
      released ← match er_released_epoch row with
                 | PNone => Ok None
                 | PInt z => Ok (Some z)
                 | _ => throw OwnershipError bad_release
                 end;
      token ← match er_released_token row with
              | PNone => Ok None
              | PStr s => Ok (Some s)
              | _ => throw OwnershipError "owner lease journal contains an invalid release token"
              end;
      _ ← require ((0 <=? epoch) && (epoch <=? _MAX_EPOCH)) OwnershipError bad_epoch;
      _ ← require (match released with
                   | Some z => (1 <=? z) && (z <=? _MAX_EPOCH)
                   | None => true
                   end) OwnershipError bad_release;
      Ok (Some (epoch, released, token))
  end.

(** [a = b] and [a > b] of SQL for a stored value and a bound parameter. *)
Definition sql_eqb (a b : pyval) : bool :=
  match py_num a, py_num b with
  | Some x, Some y => num_eqb x y
  | _, _ => match a, b with PStr s, PStr t => String.eqb s t | _, _ => false end
  end.
Definition sql_after (a : pyval) (now : spec_float) : bool :=
  match a with
  | PInt z => num_ltb (NFloat now) (NInt z)
  | PFloat f => num_ltb (NFloat now) (NFloat f)
  | PStr _ | PBytes _ => true
  | _ => false
  end.

(** [UPDATE ... WHERE key AND where_] and its row count. *)
Definition update_row {V} (m : gmap resource_key V) (key : resource_key) (where_ : V → bool)
    (f : V → V) : gmap resource_key V * Z :=
  match m !! key with
  | Some row => if where_ row then (<[key := f row]> m, 1) else (m, 0)
  | None => (m, 0)
  end.

Definition set_leases (db : Db) (m : gmap resource_key lease_row) : Db :=
  mk_Db (db_user_version db) (db_epoch_columns db) (db_lease_columns db) (db_epochs db) m.
Definition set_epochs (db : Db) (m : gmap resource_key epoch_row) : Db :=
  mk_Db (db_user_version db) (db_epoch_columns db) (db_lease_columns db) m (db_leases db).

Definition _active_count (self : Journal) (db : Db) (now : spec_float) : Z :=
  zlen (filter (λ kv : resource_key * lease_row,
    String.eqb kv.1.2 (jn_cluster_id self) && sql_after (lr_expires_at kv.2) now = true)
    (map_to_list (db_leases db))).

Definition _new_epoch (self : Journal) (db : Db) (kind resource : string)
    (current_epoch : option Z) : res (Db * Z) :=
  let key := journal_key self kind resource in
  prior ← _epoch_row self db kind resource;
  match prior with
  | None =>
      Ok (set_epochs db (<[key := mk_epoch_row (PInt 1) PNone PNone]> (db_epochs db)), 1)
  | Some (prior_epoch, _, _) =>
      _ ← require (match current_epoch with
                   | Some e => prior_epoch =? e
                   | None => true
                   end) OwnershipConflict "ownership epoch changed during acquire";
      epoch ← _next_epoch prior_epoch;
      Ok (set_epochs db (update_row (db_epochs db) key
            (λ row, sql_eqb (er_epoch row) (PInt prior_epoch))
            (λ row, mk_epoch_row (PInt epoch) PNone PNone)).1, epoch)
  end.

(** The value SQLite stores for a Python number in a [REAL] column, and the
    binding of an integer parameter, which must fit 64 bits. *)
Definition num_value (x : num) : pyval :=
  match x with NInt z => PInt z | NFloat f => PFloat f end.
Definition bind_num (x : num) : res pyval :=
  match x with
  | NInt z => _ ← require ((- Z.shiftl 1 63 <=? z) && (z <=? _MAX_EPOCH)) OverflowError
                    "Python int too large to convert to SQLite INTEGER";
              Ok (PInt z)
  | NFloat f => Ok (PFloat f)
  end.

(** ** Operations *)

Definition acquire (self : Journal) (file : option Db)
    (resource_kind resource_id owner_id lease_seconds : pyval) (clock : pyval) (token : string)
  : res (option Db * OwnerLease) :=
  scope ← _scope self resource_kind resource_id owner_id;
  let '(kind, resource, owner) := scope in
  ttl ← _lease_seconds lease_seconds;
  _transaction file (λ db,
    now ← _now clock;
    loaded ← _load_lease self db kind resource;
    let key := journal_key self kind resource in
    let lease_at epoch :=
      OwnerLease_init (PStr (jn_cluster_id self)) (PStr kind) (PStr resource) (PStr owner)
        (PInt epoch) (PStr token) (PFloat (f64_add now (f64_of_Z ttl))) in
    match loaded with
    | Some (current, _) =>
        if num_ltb (NFloat now) (ol_expires_at current) then
          if String.eqb (ol_owner_id current) owner then Ok (db, current)
          else throw OwnershipConflict "resource is already owned"
        else
          new ← _new_epoch self db kind resource (Some (ol_epoch current));
          lease ← lease_at new.2;
          let upd := update_row (db_leases new.1) key
            (λ row, sql_eqb (lr_epoch row) (PInt (ol_epoch current))
                    && sql_eqb (lr_token row) (PStr (ol_token current)))
            (λ row, mk_lease_row (PInt (ol_epoch lease)) (PStr (ol_owner_id lease))
                      (PStr (ol_token lease)) (num_value (ol_expires_at lease)) PNone) in
          _ ← require (upd.2 =? 1) OwnershipConflict "ownership changed during acquire";
          Ok (set_leases new.1 upd.1, lease)
    | None =>
        _ ← require (negb (jn_max_resources self <=? _active_count self db now))
              OwnershipConflict "ownership resource capacity exhausted";
        new ← _new_epoch self db kind resource None;
        lease ← lease_at new.2;
        _ ← require (bool_decide (db_leases new.1 !! key = None)) OwnershipConflict
              "ownership changed during acquire";
        Ok (set_leases new.1
              (<[key := mk_lease_row (PInt (ol_epoch lease)) (PStr (ol_owner_id lease))
                          (PStr (ol_token lease)) (num_value (ol_expires_at lease)) PNone]>
                 (db_leases new.1)), lease)
    end).

Definition _decision (requested : OwnerLease) (current : option OwnerLease)
    (now : option spec_float) : OwnershipDecision :=
  match current with
  | None => mk_OwnershipDecision false "no_owner" None
  | Some c =>
      let refuse reason := mk_OwnershipDecision false reason (Some (ol_epoch c)) in
      if negb (ol_epoch c =? ol_epoch requested) then refuse "stale_epoch"
      else if negb (String.eqb (ol_owner_id c) (ol_owner_id requested))
      then refuse "owner_mismatch"
      else if negb (String.eqb (ol_token c) (ol_token requested)) then refuse "stale_lease"
      else if match now with Some t => num_leb (ol_expires_at c) (NFloat t) | None => false end
      then refuse "lease_expired"
      else mk_OwnershipDecision true "current" (Some (ol_epoch c))
  end.

(** The durable check; the file is returned as the transaction leaves it. *)
Definition validate (self : Journal) (file : option Db) (lease : dyn OwnerLease) (clock : pyval)
  : res (option Db * OwnershipDecision) :=
  match lease with
  | Foreign => Ok (file, mk_OwnershipDecision false "invalid_lease" None)
  | Inst l =>
      if negb (String.eqb (ol_cluster_id l) (jn_cluster_id self))
      then Ok (file, mk_OwnershipDecision false "cluster_mismatch" None)
      else _transaction file (λ db,
        loaded ← _load_lease self db (ol_resource_kind l) (ol_resource_id l);
        match loaded with
        | None => Ok (db, mk_OwnershipDecision false "no_owner" None)
        | Some (current, _) =>
            now ← _now clock;
            Ok (db, _decision l (Some current) (Some now))
        end)
  end.

(** [float(x).hex()] for a finite binary64 value. *)
Definition signed_dec (z : Z) : string :=
  if z <? 0 then pretty z else "+" +:+ pretty z.
Definition f64_hex (f : spec_float) : string :=
  match f with
  | S754_zero s => (if s then "-" else "") +:+ "0x0.0p+0"
  | S754_finite s m e =>
      (if s then "-" else "") +:+
      (if Z.testbit (Zpos m) 52
       then "0x1." +:+ hex_digits 13 (Zpos m) +:+ "p" +:+ signed_dec (e + 52)
       else "0x0." +:+ hex_digits 13 (Zpos m) +:+ "p-1022")
  | S754_infinity s => if s then "-inf" else "inf"
  | S754_nan => "nan"
  end.

(** [float(x)] *)
Definition num_float (x : num) : res spec_float :=
  match x with
  | NInt z => let f := f64_of_Z z in
              _ ← require (f64_finite f) OverflowError "int too large to convert to float"; Ok f
  | NFloat f => Ok f
  end.

Definition _renew_key (l : OwnerLease) (lease_seconds : Z) : res string :=
  expires ← num_float (ol_expires_at l);
  Ok (sha256_hex (join_text (String (Ascii.ascii_of_nat 31) "")
    [ol_cluster_id l; ol_resource_kind l; ol_resource_id l; ol_owner_id l;
     pretty (ol_epoch l); ol_token l; f64_hex expires; pretty lease_seconds])).

Definition renew (self : Journal) (file : option Db) (lease : dyn OwnerLease)
    (lease_seconds : pyval) (clock : pyval) : res (option Db * OwnerLease) :=
  ttl ← _lease_seconds lease_seconds;
  match lease with
  | Foreign => throw OwnershipConflict "invalid_lease"
  | Inst l =>
      _ ← require (String.eqb (ol_cluster_id l) (jn_cluster_id self)) OwnershipConflict
            "cluster_mismatch";
      request_key ← _renew_key l ttl;
      _transaction file (λ db,
        loaded ← _load_lease self db (ol_resource_kind l) (ol_resource_id l);
        match loaded with
        | None => throw OwnershipConflict (od_reason (_decision l None None))
        | Some (current, stored_key) =>
            now ← _now clock;
            let decision := _decision l (Some current) (Some now) in
            _ ← require (od_allowed decision) OwnershipConflict (od_reason decision);
            if bool_decide (stored_key = Some request_key) then Ok (db, current)
            else
              let candidate := f64_add now (f64_of_Z ttl) in
              expires_at ←
                (if num_leb (NFloat candidate) (ol_expires_at current) then
                   f ← num_float (ol_expires_at current);
                   let next := f64_next_up f in
                   _ ← require (f64_finite next) OwnershipError "owner lease expiry is exhausted";
                   Ok next
                 else Ok candidate);
              renewed ← OwnerLease_init (PStr (ol_cluster_id current))
                          (PStr (ol_resource_kind current)) (PStr (ol_resource_id current))
                          (PStr (ol_owner_id current)) (PInt (ol_epoch current))
                          (PStr (ol_token current)) (PFloat expires_at);
              current_expires ← bind_num (ol_expires_at current);
              let upd := update_row (db_leases db)
                (journal_key self (ol_resource_kind l) (ol_resource_id l))
                (λ row, sql_eqb (lr_epoch row) (PInt (ol_epoch current))
                        && sql_eqb (lr_owner_id row) (PStr (ol_owner_id current))
                        && sql_eqb (lr_token row) (PStr (ol_token current))
                        && sql_eqb (lr_expires_at row) current_expires)
                (λ row, mk_lease_row (lr_epoch row) (lr_owner_id row) (lr_token row)
                          (num_value (ol_expires_at renewed)) (PStr request_key)) in
              _ ← require (upd.2 =? 1) OwnershipConflict "ownership changed during renewal";
              Ok (set_leases db upd.1, renewed)
        end)
  end.

Definition release (self : Journal) (file : option Db) (lease : dyn OwnerLease)
  : res (option Db * bool) :=
  match lease with
  | Foreign => Ok (file, false)
  | Inst l =>
      if negb (String.eqb (ol_cluster_id l) (jn_cluster_id self)) then Ok (file, false)
      else _transaction file (λ db,
        let kind := ol_resource_kind l in
        let resource := ol_resource_id l in
        let key := journal_key self kind resource in
        loaded ← _load_lease self db kind resource;
        match loaded with
        | Some (current, _) =>
            if negb (lease_eqb current l) then Ok (db, false)
            else
              bound ← bind_num (ol_expires_at l);
              match db_leases db !! key with
              | None => Ok (db, false)
              | Some row =>
                  if negb (sql_eqb (lr_epoch row) (PInt (ol_epoch l))
                           && sql_eqb (lr_token row) (PStr (ol_token l))
                           && sql_eqb (lr_expires_at row) bound)
                  then Ok (db, false)
                  else
                    let db1 := set_leases db (delete key (db_leases db)) in
                    tombstone ← _epoch_row self db1 kind resource;
                    _ ← require (match tombstone with
                                 | Some (e, _, _) => e =? ol_epoch l
                                 | None => false
                                 end) OwnershipError "owner lease epoch tombstone is missing";
                    Ok (set_epochs db1 (update_row (db_epochs db1) key
                          (λ row, sql_eqb (er_epoch row) (PInt (ol_epoch l)))
                          (λ row, mk_epoch_row (er_epoch row) (PInt (ol_epoch l))
                                    (PStr (ol_token l)))).1, true)
              end
        | None =>
            tombstone ← _epoch_row self db kind resource;
            Ok (db, match tombstone with
                    | Some (e, released, token) =>
                        (e =? ol_epoch l) && bool_decide (released = Some (ol_epoch l))
                        && bool_decide (token = Some (ol_token l))
                    | None => false
                    end)
        end)
  end.

Definition takeover (self : Journal) (file : option Db)
    (proof new_owner_id lease_seconds : pyval) (resource_id : option pyval)
  : res (option Db * OwnerLease) :=
  throw TakeoverDenied
    "automatic takeover requires external fencing and replicated proof; the SQLite journal is single-host".

Local Opaque _MAX_EPOCH.
Arguments acquire : simpl never.
Arguments validate : simpl never.
Arguments renew : simpl never.
Arguments release : simpl never.
Arguments _row_to_lease : simpl never.
Arguments _load_lease : simpl never.
Arguments _epoch_row : simpl never.
Arguments _new_epoch : simpl never.
Arguments _renew_key : simpl never.
Arguments _decision : simpl never.
Arguments _transaction : simpl never.
Arguments bind_num : simpl never.

(** ** The stored form of leases and tombstones *)

Definition text_value (o : option string) : pyval :=
  match o with Some s => PStr s | None => PNone end.

Definition lease_to_row (l : OwnerLease) (renew_key : option string) : lease_row :=
  mk_lease_row (PInt (ol_epoch l)) (PStr (ol_owner_id l)) (PStr (ol_token l))
    (num_value (ol_expires_at l)) (text_value renew_key).

(** An epoch row; [released] is the token of a released lease of that epoch. *)
Definition tombstone_row (e : Z) (released : option string) : epoch_row :=
  mk_epoch_row (PInt e) (match released with Some _ => PInt e | None => PNone end)
    (text_value released).

Record stored_lease (db : Db) (k : resource_key) (l : OwnerLease) (renew_key : option string)
  : Prop := {
  sl_row : db_leases db !! k = Some (lease_to_row l renew_key);
  sl_key : OwnerLease_key l = k;
  sl_wf : wf_lease l;
  sl_float : ∃ f, ol_expires_at l = NFloat f;
  sl_epoch : db_epochs db !! k = Some (tombstone_row (ol_epoch l) None)
}.

Record db_inv (db : Db) : Prop := {
  di_lease : ∀ k row, db_leases db !! k = Some row → ∃ l rk, stored_lease db k l rk;
  di_epoch : ∀ k row, db_epochs db !! k = Some row →
    ∃ e t, row = tombstone_row e t ∧ 1 <= e <= _MAX_EPOCH;
  di_schema : _verify_schema db = Ok tt
}.

Definition file_inv (file : option Db) : Prop :=
  match file with Some db => db_inv db | None => True end.

Definition epoch_of (db : Db) (k : resource_key) : Z :=
  match db_epochs db !! k with
  | Some row => match er_epoch row with PInt z => z | _ => 0 end
  | None => 0
  end.

Definition current_of (db : Db) (k : resource_key) : option grant :=
  match db_leases db !! k with
  | Some row => match _row_to_lease k row with Ok l => Some (lease_grant l) | Err _ => None end
  | None => None
  end.

Definition file_epoch (file : option Db) (k : resource_key) : Z :=
  match file with Some db => epoch_of db k | None => 0 end.
Definition file_current (file : option Db) (k : resource_key) : option grant :=
  match file with Some db => current_of db k | None => None end.

(** ** Loading never fails on a well-formed database *)

Lemma row_to_lease_stored l rk :
  wf_lease l → _row_to_lease (OwnerLease_key l) (lease_to_row l rk) = Ok l.
Proof.
  intros [Hc Hk Hr Ho He Ht Hx]. unfold _row_to_lease, OwnerLease_key, lease_to_row. simpl.
  assert (OwnerLease_init (PStr (ol_cluster_id l)) (PStr (ol_resource_kind l))
    (PStr (ol_resource_id l)) (PStr (ol_owner_id l)) (PInt (ol_epoch l)) (PStr (ol_token l))
    (num_value (ol_expires_at l)) = Ok l) as ->.
  { unfold OwnerLease_init, _identity, _resource_kind, _epoch. unfold max_i64 in He. res_eval.
    destruct l as [? ? ? ? ? ? x]. simpl in *. destruct x; simpl in *; [done|]. by rewrite Hx. }
  by destruct (ol_expires_at l).
Qed.

Lemma load_lease_spec self db kind resource :
  db_inv db →
  let k := journal_key self kind resource in
  (db_leases db !! k = None ∧ _load_lease self db kind resource = Ok None)
  ∨ ∃ l rk, stored_lease db k l rk ∧ _load_lease self db kind resource = Ok (Some (l, rk)).
Proof.
  intros Hi k. unfold _load_lease. fold k.
  destruct (db_leases db !! k) as [row|] eqn:E; [right|by left].
  destruct (di_lease _ Hi _ _ E) as (l & rk & Hs). exists l, rk. split; [done|].
  pose proof (sl_row _ _ _ _ Hs) as Hr. rewrite E in Hr. injection Hr as ->.
  rewrite <-(sl_key _ _ _ _ Hs), row_to_lease_stored by apply Hs. by destruct rk.
Qed.

Lemma load_lease_stored self db kind resource l rk :
  stored_lease db (journal_key self kind resource) l rk →
  _load_lease self db kind resource = Ok (Some (l, rk)).
Proof.
  intros Hs. unfold _load_lease. rewrite (sl_row _ _ _ _ Hs).
  rewrite <-(sl_key _ _ _ _ Hs), row_to_lease_stored by apply Hs. by destruct rk.
Qed.

Lemma epoch_row_stored self db kind resource e t :
  db_epochs db !! journal_key self kind resource = Some (tombstone_row e t) →
  1 <= e <= _MAX_EPOCH →
  _epoch_row self db kind resource
  = Ok (Some (e, match t with Some _ => Some e | None => None end, t)).
Proof.
  intros Hr [H1 H2]. unfold _epoch_row. rewrite Hr. apply Z.leb_le in H1, H2.
  assert ((0 <=? e) = true) as H0 by (apply Z.leb_le; apply Z.leb_le in H1; lia).
  destruct t; simpl; rewrite H0, H2; simpl; [by rewrite H1|done].
Qed.

Lemma epoch_row_spec self db kind resource :
  db_inv db →
  let k := journal_key self kind resource in
  (db_epochs db !! k = None ∧ _epoch_row self db kind resource = Ok None)
  ∨ ∃ e t, db_epochs db !! k = Some (tombstone_row e t) ∧ 1 <= e <= _MAX_EPOCH
      ∧ _epoch_row self db kind resource
        = Ok (Some (e, match t with Some _ => Some e | None => None end, t)).
Proof.
  intros Hi k. destruct (db_epochs db !! k) as [row|] eqn:E.
  - right. destruct (di_epoch _ Hi _ _ E) as (e & t & -> & He).
    exists e, t. split_and!; try done; try apply He. by apply epoch_row_stored.
  - left. unfold _epoch_row. fold k. by rewrite E.
Qed.

(** ** The shapes of the transitions *)

Definition issue_db (db : Db) (l : OwnerLease) : Db :=
  set_leases (set_epochs db
      (<[OwnerLease_key l := tombstone_row (ol_epoch l) None]> (db_epochs db)))
    (<[OwnerLease_key l := lease_to_row l None]> (db_leases db)).

Definition renew_db (db : Db) (l : OwnerLease) (request_key : string) : Db :=
  set_leases db (<[OwnerLease_key l := lease_to_row l (Some request_key)]> (db_leases db)).

Definition release_db (db : Db) (l : OwnerLease) : Db :=
  set_epochs (set_leases db (delete (OwnerLease_key l) (db_leases db)))
    (<[OwnerLease_key l := tombstone_row (ol_epoch l) (Some (ol_token l))]> (db_epochs db)).

Lemma new_epoch_ok self db kind resource ce db' e :
  db_inv db → _new_epoch self db kind resource ce = Ok (db', e) →
  let k := journal_key self kind resource in
  e = epoch_of db k + 1
  ∧ db' = set_epochs db (<[k := tombstone_row e None]> (db_epochs db)).
Proof.
  intros Hi H k. unfold _new_epoch in H. fold k in H. unfold epoch_of.
  destruct (epoch_row_spec self db kind resource Hi)
    as [[E Hr]|(e0 & t & E & He & Hr)]; fold k in E; rewrite E; rewrite Hr in H.
  - simpl in H. simplify_eq. by rewrite Z.add_0_l.
  - cbn [mbind res_bind] in H. unfold _next_epoch in H. res_inv. split; [done|].
    unfold update_row. rewrite E. cbn [tombstone_row er_epoch].
    unfold sql_eqb; simpl. by rewrite num_eqb_refl.
Qed.

Lemma transaction_ok {A} file (body : Db → res (Db * A)) file' a :
  _transaction file body = Ok (file', a) →
  ∃ db db', file = Some db ∧ file' = Some db' ∧ body db = Ok (db', a)
            ∧ _verify_schema db = Ok tt.
Proof.
  unfold _transaction, _open_connection. intros H. destruct file as [db|]; [|done].
  simpl in H. apply bind_ok in H as ([] & Hv & H). apply bind_ok in H as ([db' b] & Hb & [= <- <-]).
  by exists db, db'.
Qed.

(** The lease a new epoch issues, in the stored form the branches share. *)
Lemma issue_shape self db k r o ttl now token db1 e l :
  db_inv db → (∃ ce, _new_epoch self db k r ce = Ok (db1, e)) →
  OwnerLease_init (PStr (jn_cluster_id self)) (PStr k) (PStr r) (PStr o) (PInt e) (PStr token)
    (PFloat (f64_add now (f64_of_Z ttl))) = Ok l →
  OwnerLease_key l = journal_key self k r ∧ ol_cluster_id l = jn_cluster_id self ∧ wf_lease l
  ∧ (∃ f, ol_expires_at l = NFloat f) ∧ ol_epoch l = epoch_of db (OwnerLease_key l) + 1
  ∧ db_leases db1 = db_leases db
  ∧ issue_db db l
    = set_leases db1 (<[journal_key self k r := lease_to_row l None]> (db_leases db1)).
Proof.
  intros Hf [ce Hn] Hl. apply new_epoch_ok in Hn as [-> ->]; [|done].
  apply OwnerLease_init_ok in Hl as (Hwf & ? & ? & ? & ? & ? & ? & Hx). simplify_eq/=.
  assert (OwnerLease_key l = journal_key self (ol_resource_kind l) (ol_resource_id l)) as Hk
    by (unfold OwnerLease_key, journal_key; congruence).
  rewrite Hk. split_and!; try done; [by eauto|]. unfold issue_db. rewrite Hk. congruence.
Qed.

Lemma acquire_cases self file kind resource owner ttl clock token file' l :
  file_inv file → acquire self file kind resource owner ttl clock token = Ok (file', l) →
  ∃ db, file = Some db ∧ ol_cluster_id l = jn_cluster_id self
  ∧ ((file' = Some db ∧ ∃ rk, stored_lease db (OwnerLease_key l) l rk)
     ∨ (file' = Some (issue_db db l) ∧ wf_lease l ∧ (∃ f, ol_expires_at l = NFloat f)
        ∧ ol_epoch l = epoch_of db (OwnerLease_key l) + 1)).
Proof.
  intros Hf. unfold acquire. intros H. res_inv. destruct a as [[k r] o]. res_inv.
  apply transaction_ok in H as (db & db' & -> & -> & H & _). exists db. split; [done|].
  simpl in Hf. apply bind_ok in H as (now & Hnow & H). apply bind_ok in H as (loaded & HL' & H).
  destruct (load_lease_spec self db k r Hf) as [[Hn HL]|(cur & rk & Hs & HL)];
    rewrite HL in HL'; injection HL' as <-.
  - apply bind_ok in H as (? & _ & H). apply bind_ok in H as ([db1 e] & Hne & H). apply bind_ok in H as (l' & Hl & H).
    destruct (issue_shape _ _ _ _ _ _ _ _ _ _ _ Hf (ex_intro _ _ Hne) Hl)
      as (Hk & Hc & Hw & Hx & He & Hdb & Hi).
    apply bind_ok in H as (? & _ & H). simplify_eq/=. split; [done|]. right. by rewrite Hi.
  - destruct (num_ltb _ _) eqn:Hexp.
    + destruct (String.eqb _ _); res_inv.
      pose proof (sl_key _ _ _ _ Hs) as Hk. split; [by injection Hk|].
      left. split; [done|]. exists rk. by rewrite Hk.
    + apply bind_ok in H as ([db1 e] & Hne & H). apply bind_ok in H as (l' & Hl & H).
      destruct (issue_shape _ _ _ _ _ _ _ _ _ _ _ Hf (ex_intro _ _ Hne) Hl)
        as (Hk & Hc & Hw & Hx & He & Hdb & Hi).
      apply bind_ok in H as (? & _ & H). simplify_eq/=. split; [done|]. right.
      rewrite Hi. split_and!; try done. do 2 f_equal. unfold update_row. rewrite Hdb, (sl_row _ _ _ _ Hs).
      unfold sql_eqb; simpl. by rewrite num_eqb_refl, String.eqb_refl.
Qed.

Lemma decision_allowed l c now :
  od_allowed (_decision l (Some c) (Some now)) = true →
  ol_epoch c = ol_epoch l ∧ ol_owner_id c = ol_owner_id l ∧ ol_token c = ol_token l
  ∧ num_leb (ol_expires_at c) (NFloat now) = false.
Proof.
  unfold _decision. intros H. cases_if. to_prop.
  repeat match goal with H : String.eqb _ _ = true |- _ => apply String.eqb_eq in H end.
  done.
Qed.

Lemma renew_cases self file lease ttl clock file' r :
  file_inv file → renew self file lease ttl clock = Ok (file', r) →
  ∃ l db cur rk0 t key, lease = Inst l ∧ file = Some db ∧ ttl = PInt t
    ∧ ol_cluster_id l = jn_cluster_id self ∧ _renew_key l t = Ok key
    ∧ stored_lease db (OwnerLease_key l) cur rk0 ∧ lease_grant cur = lease_grant l
    ∧ ((file' = Some db ∧ r = cur ∧ rk0 = Some key)
       ∨ (file' = Some (renew_db db r key) ∧ lease_grant r = lease_grant cur ∧ wf_lease r
          ∧ ∃ f, ol_expires_at r = NFloat f)).
Proof.
  intros Hf. unfold renew. intros H. apply bind_ok in H as (t & Ht & H).
  unfold Ownership._lease_seconds in Ht. apply check_int_ok in Ht as [-> _].
  destruct lease as [l|]; [|done]. apply bind_ok in H as ([] & Hc & H).
  apply require_ok, String.eqb_eq in Hc. apply bind_ok in H as (key & Hkey & H).
  apply transaction_ok in H as (db & db' & -> & -> & H & _). simpl in Hf.
  assert (journal_key self (ol_resource_kind l) (ol_resource_id l) = OwnerLease_key l) as Hjk
    by (unfold journal_key, OwnerLease_key; congruence).
  apply bind_ok in H as (loaded & HL' & H).
  destruct (load_lease_spec self db (ol_resource_kind l) (ol_resource_id l) Hf)
    as [[Hn HL]|(cur & rk & Hs & HL)]; rewrite HL in HL'; injection HL' as <-; [done|].
  rewrite Hjk in Hs. apply bind_ok in H as (now & _ & H). apply bind_ok in H as ([] & Hd & H).
  apply require_ok, decision_allowed in Hd as (He & Ho & Ht & _).
  assert (lease_grant cur = lease_grant l) as Hg
    by (unfold lease_grant; rewrite (sl_key _ _ _ _ Hs); congruence).
  exists l, db, cur, rk, t, key. split_and!; try done.
  case_bool_decide as Hrk; [left; by simplify_eq|right].
  apply bind_ok in H as (x & _ & H). apply bind_ok in H as (r' & Hr & H).
  apply bind_ok in H as (b & Hb & H). apply bind_ok in H as ([] & Hu & H).
  apply OwnerLease_init_ok in Hr as (Hwf & ? & ? & ? & ? & ? & ? & Hx).
  assert (OwnerLease_key r' = OwnerLease_key cur) as Hk
    by (unfold OwnerLease_key; simplify_eq/=; congruence).
  assert (lease_grant r' = lease_grant cur) as Hg'
    by (unfold lease_grant; rewrite Hk; simplify_eq/=; congruence).
  injection H as <- <-. injection Hx as Hx. split_and!; [|done|done|by eauto].
  f_equal. unfold renew_db. rewrite Hk, (sl_key _ _ _ _ Hs). rewrite Hjk in *.
  assert (ol_epoch r' = ol_epoch cur ∧ ol_owner_id r' = ol_owner_id cur
    ∧ ol_token r' = ol_token cur) as (E1 & E2 & E3) by (by injection Hg').
  revert Hu. unfold update_row. rewrite (sl_row _ _ _ _ Hs).
  destruct (_ && _); [|done]. intros _. unfold lease_to_row. simpl. by rewrite E1, E2, E3.
Qed.

(** What a release that returns true leaves behind. *)
Definition released (db : Db) (l : OwnerLease) : Prop :=
  db_leases db !! OwnerLease_key l = None
  ∧ db_epochs db !! OwnerLease_key l = Some (tombstone_row (ol_epoch l) (Some (ol_token l))).

Lemma release_journal_cases self file lease file' b :
  file_inv file → release self file lease = Ok (file', b) →
  (file' = file ∧ (b = true → ∃ l db, lease = Inst l ∧ file = Some db
     ∧ ol_cluster_id l = jn_cluster_id self ∧ released db l))
  ∨ b = true ∧ ∃ l db cur rk, lease = Inst l ∧ file = Some db
      ∧ ol_cluster_id l = jn_cluster_id self
      ∧ stored_lease db (OwnerLease_key l) cur rk ∧ lease_eqb cur l = true
      ∧ file' = Some (release_db db l).
Proof.
  intros Hf. unfold release. intros H. destruct lease as [l|]; [|left; by simplify_eq/=].
  destruct (negb (String.eqb _ _)) eqn:Hc; [left; by simplify_eq/=|].
  apply negb_false_iff, String.eqb_eq in Hc.
  apply transaction_ok in H as (db & db' & -> & -> & H & _). simpl in Hf.
  assert (journal_key self (ol_resource_kind l) (ol_resource_id l) = OwnerLease_key l) as Hjk
    by (unfold journal_key, OwnerLease_key; congruence).
  apply bind_ok in H as (loaded & HL' & H).
  destruct (load_lease_spec self db (ol_resource_kind l) (ol_resource_id l) Hf)
    as [[Hn HL]|(cur & rk & Hs & HL)]; rewrite HL in HL'; injection HL' as <-.
  - apply bind_ok in H as (t & Ht & H). left. injection H as <- <-. split; [done|]. intros Hb.
    exists l, db. split_and!; try done. rewrite Hjk in Hn. split; [done|].
    destruct (epoch_row_spec self db (ol_resource_kind l) (ol_resource_id l) Hf)
      as [[_ Hr]|(e & tk & Hr & _ & Hr')]; [rewrite Hr in Ht; by simplify_eq/=|].
    rewrite Hr' in Ht. injection Ht as <-. rewrite Hjk in Hr. to_prop. subst e. by subst tk.
  - rewrite Hjk in *.
    destruct (lease_eqb cur l) eqn:Heq; simpl in H; [|left; by simplify_eq/=].
    apply bind_ok in H as (bound & Hb & H). rewrite (sl_row _ _ _ _ Hs) in H.
    destruct (negb _); [left; by simplify_eq/=|].
    apply bind_ok in H as (t & Ht & H). apply bind_ok in H as ([] & He & H).
    injection H as <- <-. right. split; [done|]. exists l, db, cur, rk. split_and!; try done.
    apply lease_eqb_grant in Heq. assert (ol_epoch cur = ol_epoch l) as E1 by (by injection Heq).
    unfold release_db, update_row. simpl. rewrite (sl_epoch _ _ _ _ Hs), E1. simpl.
    unfold sql_eqb; simpl. by rewrite num_eqb_refl.
Qed.

(** ** The invariant is kept *)

Lemma issue_db_inv db l :
  db_inv db → wf_lease l → (∃ f, ol_expires_at l = NFloat f) → db_inv (issue_db db l).
Proof.
  intros [Hl He Hv] Hwf Hf. split; simpl; [..|done].
  - intros k row. rewrite lookup_insert. case_decide as Hk.
    + intros [= <-]. exists l, None. by split; simpl; rewrite ?Hk, ?lookup_insert_eq.
    + intros Hr. destruct (Hl _ _ Hr) as (l' & rk & [? ? ? ? ?]). exists l', rk.
      by split; simpl; rewrite ?lookup_insert_ne.
  - intros k row. rewrite lookup_insert. case_decide; [|apply He].
    intros [= <-]. exists (ol_epoch l), None. split; [done|]. apply Hwf.
Qed.

Lemma renew_db_inv db cur rk0 r key :
  db_inv db → stored_lease db (OwnerLease_key r) cur rk0 → lease_grant r = lease_grant cur →
  wf_lease r → (∃ f, ol_expires_at r = NFloat f) → db_inv (renew_db db r key).
Proof.
  intros [Hl He Hv] Hs Hg Hwf Hf. split; simpl; [|done|done].
  intros k row. rewrite lookup_insert. case_decide as Hk.
  - intros [= <-]. exists r, (Some key). subst k.
    split; simpl; rewrite ?lookup_insert_eq; try done.
    rewrite (sl_epoch _ _ _ _ Hs). apply (f_equal g_epoch) in Hg. simpl in Hg. by rewrite Hg.
  - intros Hr. destruct (Hl _ _ Hr) as (l' & rk & [? ? ? ? ?]). exists l', rk.
    by split; simpl; rewrite ?lookup_insert_ne.
Qed.

Lemma release_db_inv db l :
  db_inv db → 1 <= ol_epoch l <= _MAX_EPOCH → db_inv (release_db db l).
Proof.
  intros [Hl He Hv] Hb. split; simpl; [..|done].
  - intros k row [Hk Hr]%lookup_delete_Some. destruct (Hl _ _ Hr) as (l' & rk & [? ? ? ? ?]).
    exists l', rk. by split; simpl; rewrite ?lookup_delete_ne, ?lookup_insert_ne.
  - intros k row. rewrite lookup_insert. case_decide; [|apply He].
    intros [= <-]. by exists (ol_epoch l), (Some (ol_token l)).
Qed.

(** ** Transitions of the file *)

#[export] Instance grant_eq_dec : EqDecision grant.
Proof. solve_decision. Defined.

(** The grant an acquisition issued, unless it returned the one in force. *)
Definition newly_issued (file : option Db) (l : OwnerLease) : option grant :=
  if decide (file_current file (OwnerLease_key l) = Some (lease_grant l)) then None
  else Some (lease_grant l).

(** Any number of handles, of any cluster and capacity, act on the file, one
    write transaction at a time; opening a handle may create a missing file. *)
Inductive journal_step (file : option Db) : option grant → option Db → Prop :=
  | journal_open cluster maximum create file' self :
      Journal_init file cluster maximum create = Ok (file', self) →
      journal_step file None file'
  | journal_acquire self kind resource owner ttl clock token file' l :
      acquire self file kind resource owner ttl clock token = Ok (file', l) →
      journal_step file (newly_issued file l) file'
  | journal_validate self lease clock file' d :
      validate self file lease clock = Ok (file', d) →
      journal_step file None file'
  | journal_renew self lease ttl clock file' l :
      renew self file lease ttl clock = Ok (file', l) →
      journal_step file None file'
  | journal_release self lease file' b :
      release self file lease = Ok (file', b) →
      journal_step file None file'
  | journal_takeover self proof owner ttl resource file' l :
      takeover self file proof owner ttl resource = Ok (file', l) →
      journal_step file (Some (lease_grant l)) file'.

Lemma stored_current db k l rk :
  stored_lease db k l rk → current_of db k = Some (lease_grant l) ∧ epoch_of db k = ol_epoch l.
Proof.
  intros Hs. unfold current_of, epoch_of. rewrite (sl_row _ _ _ _ Hs), (sl_epoch _ _ _ _ Hs).
  rewrite <-(sl_key _ _ _ _ Hs), row_to_lease_stored by apply Hs. done.
Qed.

Lemma current_stored db k g :
  db_inv db → current_of db k = Some g → ∃ l rk, stored_lease db k l rk ∧ g = lease_grant l.
Proof.
  intros Hi. unfold current_of. destruct (db_leases db !! k) as [row|] eqn:E; [|done].
  destruct (di_lease _ Hi _ _ E) as (l & rk & Hs). pose proof (sl_row _ _ _ _ Hs) as Hr.
  rewrite E in Hr. injection Hr as ->. rewrite <-(sl_key _ _ _ _ Hs) at 1.
  rewrite row_to_lease_stored by apply Hs. intros [= <-]. by exists l, rk.
Qed.

Lemma validate_same_file self file lease clock file' d :
  validate self file lease clock = Ok (file', d) → file' = file.
Proof.
  unfold validate. intros H. destruct lease as [l|]; [|by injection H].
  destruct (negb _); [by injection H|]. apply transaction_ok in H as (db & db' & -> & -> & H & _).
  apply bind_ok in H as ([[c rk]|] & _ & H); [|by injection H as ->].
  apply bind_ok in H as (n & _ & H). by injection H as ->.
Qed.

Lemma init_file file cluster maximum create file' self :
  Journal_init file cluster maximum create = Ok (file', self) →
  file' = file ∨ file = None ∧ file' = Some empty_db.
Proof.
  unfold Journal_init. intros H. apply bind_ok in H as (? & _ & H).
  apply bind_ok in H as (f1 & Hf & H). apply transaction_ok in H as (db & db' & -> & -> & H & _).
  injection H as <- _. destruct create; [|left; by injection Hf].
  right. unfold _create_schema in Hf. destruct file; [done|]. by injection Hf as <-.
Qed.

Lemma release_epoch_bound db k cur rk l :
  stored_lease db k cur rk → lease_eqb cur l = true → 1 <= ol_epoch l <= _MAX_EPOCH.
Proof.
  intros Hs Heq%lease_eqb_grant%(f_equal g_epoch). simpl in Heq. rewrite <-Heq.
  apply (sl_wf _ _ _ _ Hs).
Qed.

Lemma journal_step_inv file g file' :
  journal_step file g file' → file_inv file → file_inv file'.
Proof.
  intros Hs Hi. destruct Hs as [? ? ? ? ? H|? ? ? ? ? ? ? ? ? H|? ? ? ? ? H|? ? ? ? ? ? H|? ? ? ? H|].
  - apply init_file in H as [->|[-> ->]]; [done|]. by split; simpl.
  - apply acquire_cases in H as (db & -> & _ & [[-> _]|(-> & Hw & Hf & _)]); [done| |done].
    by apply issue_db_inv.
  - by apply validate_same_file in H as ->.
  - apply renew_cases in H as (l0 & db & cur & rk & t & key & -> & -> & _ & _ & _ & Hs & Hg & [(-> & _)|(-> & Hg' & Hw & Hf)]);
      [done| |done].
    apply (renew_db_inv db cur rk); try done. rewrite <-Hg' in Hg.
    by rewrite (f_equal g_key Hg : OwnerLease_key _ = OwnerLease_key _).
  - apply release_journal_cases in H as [[-> _]|(_ & l & db & cur & rk & -> & -> & _ & Hs & Heq & ->)];
      [done| |done].
    apply release_db_inv; [done|]. by eapply release_epoch_bound.
  - done.
Qed.

Lemma journal_current_epoch file k g :
  file_inv file → file_current file k = Some g → g_key g = k ∧ g_epoch g = file_epoch file k.
Proof.
  intros Hi Hg. destruct file as [db|]; [|done]. simpl in *.
  destruct (current_stored _ _ _ Hi Hg) as (l & rk & Hs & ->).
  destruct (stored_current _ _ _ _ Hs) as [_ ->]. split; [apply Hs|done].
Qed.

(** An acquisition that is not new leaves the file as it was. *)
Lemma acquire_label self file kind resource owner ttl clock token file' l :
  file_inv file → acquire self file kind resource owner ttl clock token = Ok (file', l) →
  (newly_issued file l = None ∧ file' = file
   ∧ file_current file (OwnerLease_key l) = Some (lease_grant l))
  ∨ (newly_issued file l = Some (lease_grant l)
     ∧ ∃ db, file = Some db ∧ file' = Some (issue_db db l) ∧ wf_lease l
       ∧ ol_epoch l = epoch_of db (OwnerLease_key l) + 1).
Proof.
  intros Hi H. unfold newly_issued.
  apply acquire_cases in H as (db & -> & _ & [(-> & rk & Hs)|(-> & Hw & _ & He)]); [| |done].
  - left. destruct (stored_current _ _ _ _ Hs) as [Hc _]. by rewrite decide_True.
  - right. rewrite decide_False; [split; [done|]; by exists db|]. intros Hc.
    apply (journal_current_epoch (Some db)) in Hc as [_ Hc]; [|done]. simpl in Hc. lia.
Qed.

Lemma renew_db_current db r cur rk0 key k :
  stored_lease db (OwnerLease_key r) cur rk0 → lease_grant r = lease_grant cur → wf_lease r →
  current_of (renew_db db r key) k = current_of db k.
Proof.
  intros Hs Hg Hw. unfold current_of at 1; simpl. rewrite lookup_insert. case_decide as Hk; [|done].
  subst k. rewrite row_to_lease_stored, Hg by done. symmetry. by apply (stored_current _ _ _ _ Hs).
Qed.

Lemma journal_step_quiet file file' :
  journal_step file None file' → file_inv file →
  (∀ k, file_epoch file' k = file_epoch file k)
  ∧ ∀ k g, file_current file' k = Some g → file_current file k = Some g.
Proof.
  intros Hs Hi. inversion Hs as [? ? ? ? ? H|? ? ? ? ? ? ? ? ? H Hn|? ? ? ? ? H|? ? ? ? ? ? H|? ? ? ? H|];
    subst.
  - by apply init_file in H as [->|[-> ->]].
  - apply acquire_label in H as [(_ & -> & _)|(Hl & _)]; [done|congruence|done].
  - by apply validate_same_file in H as ->.
  - apply renew_cases in H as (l0 & db & cur & rk & t & key & -> & -> & _ & _ & _ & Hst & Hg & [(-> & _)|(-> & Hg' & Hw & Hf)]);
      [done| |done].
    split; [done|]. simpl. intros k g. erewrite renew_db_current; [done| |done|done].
    rewrite <-Hg' in Hg. by rewrite (f_equal g_key Hg : OwnerLease_key _ = OwnerLease_key _).
  - apply release_journal_cases in H as [[-> _]|(_ & l & db & cur & rk & -> & -> & _ & Hst & Heq & ->)];
      [done| |done].
    split; simpl; intros k.
    + unfold epoch_of; simpl. rewrite lookup_insert. case_decide as Hk; [|done].
      subst k. rewrite (sl_epoch _ _ _ _ Hst). by apply lease_eqb_grant, (f_equal g_epoch) in Heq.
    + intros g. unfold current_of; simpl. rewrite lookup_delete. by case_decide.
Qed.

Lemma journal_step_issue file g file' :
  journal_step file (Some g) file' → file_inv file →
  g_epoch g = file_epoch file (g_key g) + 1
  ∧ file_current file' (g_key g) = Some g
  ∧ ∀ k, k ≠ g_key g →
      file_epoch file' k = file_epoch file k ∧ file_current file' k = file_current file k.
Proof.
  intros Hs Hi. inversion Hs as [|? ? ? ? ? ? ? ? l H Hn| | | |]; subst; [|done].
  apply acquire_label in H as [(Hl & _)|(Hl & db & -> & -> & Hw & He)]; [congruence| |done].
  rewrite Hl in Hn. injection Hn as <-. simpl. split_and!; [done|..].
  - unfold current_of; simpl. by rewrite lookup_insert_eq, row_to_lease_stored.
  - intros k Hk. unfold epoch_of, current_of; simpl. by rewrite !lookup_insert_ne.
Qed.

(** The journal keeps the promise of an ownership authority. *)
#[export] Instance journal_epoch_store : EpochStore (option Db) := {|
  es_step := journal_step;
  es_inv := file_inv;
  es_epoch := file_epoch;
  es_current := file_current;
  es_step_inv := journal_step_inv;
  es_current_epoch := journal_current_epoch;
  es_step_quiet := journal_step_quiet;
  es_step_issue := journal_step_issue
|}.

Lemma missing_file_fresh : fresh (None : option Db).
Proof. done. Qed.

(** ** Theorems *)

(** C2: starting from no file at all, whatever handles of whatever clusters do
    through any number of restarts, the epochs issued for a resource are, oldest
    first, exactly 1, 2, ..., n; a release leaves the epoch in place. *)
Theorem journal_epochs_dense file issued k :
  run None file issued →
  reverse (g_epoch <$> filter (λ g, g_key g = k) issued) = seqZ 1 (file_epoch file k)
  ∧ NoDup ((λ g, (g_key g, g_epoch g)) <$> issued).
Proof.
  intros Hr. split.
  - exact (run_epochs_dense None file issued k missing_file_fresh Hr).
  - eapply ri_nodup, run_inv_holds; [apply missing_file_fresh|done].
Qed.

(** C3: a lease the journal accepts is the newest capability it issued for that
    resource, and no two different capabilities are accepted for it. *)
Theorem journal_validate_newest file issued self l clock file' d :
  run None file issued → validate self file (Inst l) clock = Ok (file', d) →
  od_allowed d = true →
  file' = file ∧ lease_grant l ∈ issued
  ∧ (∀ g, g ∈ issued → g_key g = OwnerLease_key l → g_epoch g <= ol_epoch l)
  ∧ file_current file (OwnerLease_key l) = Some (lease_grant l).
Proof.
  intros Hr H Hal. pose proof (ri_inv _ _ (run_inv_holds _ _ _ missing_file_fresh Hr)) as Hi.
  assert (file_current file (OwnerLease_key l) = Some (lease_grant l)) as Hc.
  { unfold validate in H. destruct (negb (String.eqb _ _)) eqn:Hcl; [by simplify_eq/=|].
    apply negb_false_iff, String.eqb_eq in Hcl.
    apply transaction_ok in H as (db & db' & -> & -> & H & _). simpl in Hi |- *.
    assert (journal_key self (ol_resource_kind l) (ol_resource_id l) = OwnerLease_key l) as Hjk
      by (unfold journal_key, OwnerLease_key; congruence).
    apply bind_ok in H as (loaded & HL' & H).
    destruct (load_lease_spec self db (ol_resource_kind l) (ol_resource_id l) Hi)
      as [[_ HL]|(cur & rk & Hs & HL)]; rewrite HL in HL'; injection HL' as <-; [by simplify_eq/=|].
    apply bind_ok in H as (now & _ & H). injection H as _ <-.
    apply decision_allowed in Hal as (He & Ho & Ht & _). rewrite Hjk in Hs.
    destruct (stored_current _ _ _ _ Hs) as [-> _]. unfold lease_grant.
    rewrite (sl_key _ _ _ _ Hs). congruence. }
  split; [by eapply validate_same_file|].
  destruct (run_current_newest _ _ _ _ _ missing_file_fresh Hr Hc). done.
Qed.

(** On every file the journal can have produced, the validation of loaded
    rows succeeds: no handle ever reports a mismatched schema or an invalid
    lease, renewal key, epoch or release token. *)
Theorem journal_rows_always_load file issued self kind resource :
  run None file issued →
  match file with
  | None => True
  | Some db =>
      _verify_schema db = Ok tt
      ∧ (∃ r, _load_lease self db kind resource = Ok r)
      ∧ ∃ e, _epoch_row self db kind resource = Ok e
  end.
Proof.
  intros Hr. pose proof (ri_inv _ _ (run_inv_holds _ _ _ missing_file_fresh Hr)) as Hi.
  destruct file as [db|]; [|done]. simpl in Hi. split_and!; [apply Hi|..].
  - destruct (load_lease_spec self db kind resource Hi) as [[_ ->]|(? & ? & _ & ->)]; by eauto.
  - destruct (epoch_row_spec self db kind resource Hi) as [[_ ->]|(? & ? & _ & _ & ->)]; by eauto.
Qed.

Lemma transaction_run {A} db (body : Db → res (Db * A)) db' a :
  db_inv db → body db = Ok (db', a) → _transaction (Some db) body = Ok (Some db', a).
Proof. intros Hi Hb. unfold _transaction. simpl. by rewrite (di_schema _ Hi), Hb. Qed.

(** ** Acquisition on every branch *)

(** The arguments pass validation and the requested expiry is finite. *)
Definition acquirable (self : Journal) (kind resource owner : string) (ttl : Z)
    (now : spec_float) (token : string) : Prop :=
  is_identity (jn_cluster_id self) = true ∧ mem kind _RESOURCE_KINDS = true
  ∧ is_identity resource = true ∧ is_identity owner = true ∧ is_identity token = true
  ∧ 1 <= ttl <= MAX_LEASE_SECONDS ∧ f64_finite now = true
  ∧ f64_finite (f64_add now (f64_of_Z ttl)) = true.

(** The lease a row stores. *)
Definition stored_at (db : Db) (key : resource_key) : option OwnerLease :=
  match db_leases db !! key with
  | Some row => match _row_to_lease key row with Ok l => Some l | Err _ => None end
  | None => None
  end.

(** What an acquisition must do, in terms of the stored lease, the stored epoch
    and the number of active leases alone. *)
Definition acquire_outcome (self : Journal) (db : Db) (kind resource owner : string) (ttl : Z)
    (now : spec_float) (token : string) : res (option Db * OwnerLease) :=
  let key := journal_key self kind resource in
  let l := mk_OwnerLease (jn_cluster_id self) kind resource owner (epoch_of db key + 1) token
             (NFloat (f64_add now (f64_of_Z ttl))) in
  let issue :=
    if epoch_of db key <? _MAX_EPOCH then Ok (Some (issue_db db l), l)
    else throw OwnershipError "owner lease epoch is exhausted or invalid" in
  match stored_at db key with
  | Some current =>
      if num_ltb (NFloat now) (ol_expires_at current) then
        if String.eqb (ol_owner_id current) owner then Ok (Some db, current)
        else throw OwnershipConflict "resource is already owned"
      else issue
  | None =>
      if jn_max_resources self <=? _active_count self db now
      then throw OwnershipConflict "ownership resource capacity exhausted"
      else issue
  end.

Lemma transaction_body {A} db (body : Db → res (Db * A)) :
  db_inv db →
  _transaction (Some db) body = (r ← body db; Ok (Some r.1, r.2)).
Proof. intros Hi. unfold _transaction. simpl. by rewrite (di_schema _ Hi). Qed.

Lemma max_epoch_pos : 0 < _MAX_EPOCH.
Proof. done. Qed.

Lemma new_epoch_run self db kind resource ce :
  db_inv db →
  let k := journal_key self kind resource in
  (∀ e, ce = Some e → epoch_of db k = e) →
  _new_epoch self db kind resource ce
  = if epoch_of db k <? _MAX_EPOCH
    then Ok (set_epochs db (<[k := tombstone_row (epoch_of db k + 1) None]> (db_epochs db)),
             epoch_of db k + 1)
    else throw OwnershipError "owner lease epoch is exhausted or invalid".
Proof.
  intros Hi k Hce. unfold _new_epoch. fold k.
  destruct (epoch_row_spec self db kind resource Hi) as [[E Hr]|(e0 & t & E & He & Hr)];
    fold k in E; rewrite Hr; simpl.
  - unfold epoch_of. rewrite E. by rewrite (proj2 (Z.ltb_lt _ _)) by apply max_epoch_pos.
  - assert (epoch_of db k = e0) as He0 by (unfold epoch_of; by rewrite E).
    rewrite bind_Ok with (a := tt).
    2:{ apply require_true. destruct ce as [e|]; [|done]. apply Z.eqb_eq. rewrite <-He0. by apply Hce. }
    unfold _next_epoch. rewrite He0. rewrite (proj2 (Z.leb_le 0 e0)) by lia. simpl.
    destruct (e0 <? _MAX_EPOCH); [|done]. simpl. unfold update_row. rewrite E. unfold sql_eqb.
    simpl. by rewrite num_eqb_refl.
Qed.

Lemma OwnerLease_run c k r o e t f :
  is_identity c = true → mem k _RESOURCE_KINDS = true → is_identity r = true →
  is_identity o = true → 1 <= e <= max_i64 → is_identity t = true → f64_finite f = true →
  OwnerLease_init (PStr c) (PStr k) (PStr r) (PStr o) (PInt e) (PStr t) (PFloat f)
  = Ok (mk_OwnerLease c k r o e t (NFloat f)).
Proof.
  intros Hc Hk Hr Ho He Ht Hf. unfold OwnerLease_init, _identity, _resource_kind, _epoch.
  unfold max_i64 in He. res_eval. simpl. by rewrite Hf.
Qed.

Lemma lease_at_run self kind resource owner ttl now token e :
  acquirable self kind resource owner ttl now token → 1 <= e <= _MAX_EPOCH →
  OwnerLease_init (PStr (jn_cluster_id self)) (PStr kind) (PStr resource) (PStr owner) (PInt e)
    (PStr token) (PFloat (f64_add now (f64_of_Z ttl)))
  = Ok (mk_OwnerLease (jn_cluster_id self) kind resource owner e token
          (NFloat (f64_add now (f64_of_Z ttl)))).
Proof. intros (? & ? & ? & ? & ? & _ & _ & ?) ?. by apply OwnerLease_run. Qed.

Lemma stored_at_stored db k l rk : stored_lease db k l rk → stored_at db k = Some l.
Proof.
  intros Hs. unfold stored_at. rewrite (sl_row _ _ _ _ Hs), <-(sl_key _ _ _ _ Hs).
  by rewrite row_to_lease_stored by apply Hs.
Qed.

Lemma stored_epoch db k l rk : stored_lease db k l rk → epoch_of db k = ol_epoch l.
Proof. intros Hs. unfold epoch_of. by rewrite (sl_epoch _ _ _ _ Hs). Qed.

Lemma epoch_of_nonneg db k : db_inv db → 0 <= epoch_of db k.
Proof.
  intros Hi. unfold epoch_of. destruct (db_epochs db !! k) as [row|] eqn:E; [|done].
  destruct (di_epoch _ Hi _ _ E) as (e & t & -> & He). simpl. lia.
Qed.

(** What [acquire] does on every branch.  On a well-formed database and with
    valid arguments its outcome, errors included, is [acquire_outcome]: an
    unexpired lease is returned to its owner and refused to anyone else, an
    expired one is replaced under the next epoch, and a resource without a lease
    is granted the next epoch when fewer leases than the limit are active.  The
    limit is not consulted when an expired lease is replaced: the witness reaches
    two active leases under a limit of one. *)
Theorem journal_acquire_outcome self db kind resource owner ttl now token :
  db_inv db → acquirable self kind resource owner ttl now token →
  acquire self (Some db) (PStr kind) (PStr resource) (PStr owner) (PInt ttl) (PFloat now) token
  = acquire_outcome self db kind resource owner ttl now token.
Proof.
  intros Hi Ha. pose proof Ha as (Hc & Hk & Hr & Ho & Ht & Hl & Hn & Hf).
  unfold acquire. rewrite bind_Ok with (a := (kind, resource, owner)).
  2:{ unfold _scope. by rewrite OwnerLease_run. }
  unfold _lease_seconds. res_eval. rewrite transaction_body by done. unfold _now. rewrite Hn. simpl.
  unfold acquire_outcome. set (k := journal_key self kind resource).
  pose proof (epoch_of_nonneg db k Hi) as He0.
  destruct (load_lease_spec self db kind resource Hi) as [[En ->]|(cur & rk & Hs & ->)]; simpl.
  - unfold stored_at. fold k in En |- *. rewrite En. destruct (_ <=? _); [done|]. simpl.
    rewrite new_epoch_run by done. fold k. destruct (Z.ltb_spec (epoch_of db k) _MAX_EPOCH); [|done].
    simpl. rewrite (lease_at_run _ _ _ _ _ _ _ _ Ha) by lia. simpl. by rewrite En.
  - fold k in Hs. rewrite (stored_at_stored _ _ _ _ Hs).
    destruct (num_ltb _ _); [by destruct (String.eqb _ _)|].
    rewrite new_epoch_run by (done || (intros ? [= <-]; by eapply stored_epoch)). fold k.
    destruct (Z.ltb_spec (epoch_of db k) _MAX_EPOCH); [|done].
    simpl. rewrite (lease_at_run _ _ _ _ _ _ _ _ Ha) by lia. simpl.
    unfold update_row. simpl. rewrite (sl_row _ _ _ _ Hs). unfold sql_eqb. simpl.
    by rewrite num_eqb_refl, String.eqb_refl.
Qed.

(** Replaying a renewal is harmless.  When a renewal request succeeded,
    the same request sent again before the renewed lease expires returns the
    same lease and leaves the file as it is. *)
Theorem renew_replay file issued self l ttl clock file' r clock' now' :
  run None file issued →
  renew self file (Inst l) ttl clock = Ok (file', r) →
  _now clock' = Ok now' → num_leb (ol_expires_at r) (NFloat now') = false →
  renew self file' (Inst l) ttl clock' = Ok (file', r).
Proof.
  intros Hr H Hn Hx. pose proof (ri_inv _ _ (run_inv_holds _ _ _ missing_file_fresh Hr)) as Hi.
  assert (file_inv file') as Hi' by (eapply journal_step_inv; [by eapply journal_renew|done]).
  assert (∃ t, ttl = PInt t ∧ _lease_seconds (PInt t) = Ok t) as (t & -> & Ht).
  { unfold renew in H. apply bind_ok in H as (t & Ht & _). exists t.
    pose proof Ht as Ht'. unfold _lease_seconds in Ht'. by apply check_int_ok in Ht' as [-> _]. }
  destruct (renew_cases _ _ _ _ _ _ _ Hi H)
    as (? & db & cur & rk0 & ? & key & [= <-] & -> & [= <-] & Hc & Hkey & Hs & Hg & Hcase).
  assert (∃ db', file' = Some db' ∧ stored_lease db' (OwnerLease_key l) r (Some key)
    ∧ lease_grant r = lease_grant l) as (db' & -> & Hs' & Hg').
  { destruct Hcase as [(-> & -> & ->)|(-> & Hg' & Hw & Hf)]; [by exists db|].
    rewrite Hg in Hg'. pose proof (f_equal g_key Hg') as Hk. simpl in Hk.
    eexists. split_and!; [done| |done]. split; simpl; rewrite <-?Hk, ?lookup_insert_eq; try done.
    rewrite Hk, (sl_epoch _ _ _ _ Hs). rewrite <-Hg in Hg'.
    apply (f_equal g_epoch) in Hg'. simpl in Hg'. by rewrite Hg'. }
  unfold renew. rewrite Ht. simpl. rewrite Hc, String.eqb_refl. simpl. rewrite Hkey. simpl.
  apply transaction_run; [done|]. rewrite (load_lease_stored _ _ _ _ r (Some key)).
  2:{ unfold journal_key. rewrite <-Hc. exact Hs'. }
  simpl. rewrite Hn. simpl. unfold _decision.
  injection Hg' as _ _ _ -> -> ->. rewrite Z.eqb_refl, !String.eqb_refl, Hx. simpl.
  by rewrite bool_decide_true.
Qed.

(** A release is final and replayable.  After a release returned true, the
    released lease is refused with [no_owner], its epoch stays recorded, and
    releasing it again returns true and changes nothing. *)
Theorem release_replay file issued self l file' :
  run None file issued → release self file (Inst l) = Ok (file', true) →
  release self file' (Inst l) = Ok (file', true)
  ∧ (∀ clock, validate self file' (Inst l) clock
       = Ok (file', mk_OwnershipDecision false "no_owner" None))
  ∧ file_epoch file' (OwnerLease_key l) = ol_epoch l.
Proof.
  intros Hr H. pose proof (ri_inv _ _ (run_inv_holds _ _ _ missing_file_fresh Hr)) as Hi.
  assert (file_inv file') as Hi' by (eapply journal_step_inv; [by eapply journal_release|done]).
  assert (∃ db', file' = Some db' ∧ ol_cluster_id l = jn_cluster_id self ∧ released db' l)
    as (db' & -> & Hc & Hl & He).
  { destruct (release_journal_cases _ _ _ _ _ Hi H)
      as [[-> Hb]|(_ & ? & db & cur & rk & [= <-] & -> & Hc & _ & _ & ->)].
    - destruct (Hb eq_refl) as (? & db & [= <-] & -> & ? & ?). by exists db.
    - eexists. split_and!; [done|done|]. split; simpl;
        [apply lookup_delete_eq|apply lookup_insert_eq]. }
  assert (1 <= ol_epoch l <= _MAX_EPOCH) as Hb.
  { destruct (di_epoch _ Hi' _ _ He) as (e & t & [= -> _] & ?). done. }
  assert (journal_key self (ol_resource_kind l) (ol_resource_id l) = OwnerLease_key l) as Hjk
    by (unfold journal_key, OwnerLease_key; congruence).
  assert (_load_lease self db' (ol_resource_kind l) (ol_resource_id l) = Ok None) as HL
    by (unfold _load_lease; by rewrite Hjk, Hl).
  split_and!.
  - unfold release. rewrite Hc, String.eqb_refl. simpl. apply transaction_run; [done|].
    rewrite HL. simpl. erewrite epoch_row_stored; [|by rewrite Hjk|done]. simpl.
    by rewrite Z.eqb_refl, !bool_decide_true.
  - intros clock. unfold validate. rewrite Hc, String.eqb_refl. simpl.
    apply transaction_run; [done|]. by rewrite HL.
  - simpl. unfold epoch_of. by rewrite He.
Qed.

(** ** Sample histories *)

Module JournalSample.
Definition self : Journal := mk_Journal "lab" 1.
Definition at_second (z : Z) : pyval := PFloat (f64_of_Z z).
Definition lease (resource owner : string) (epoch : Z) (token : string) (expires : Z) : OwnerLease :=
  mk_OwnerLease "lab" "job" resource owner epoch token (NFloat (f64_of_Z expires)).

Definition l1 : OwnerLease := lease "job-7" "node-a" 1 "aa11" 30.
Definition owned : Db := issue_db empty_db l1.

(** The lease renewed at second 10, and the file then. *)
Definition l2 : OwnerLease := lease "job-7" "node-a" 1 "aa11" 40.

Lemma opened :
  Journal_init None (PStr "lab") (PInt 1) true = Ok (Some empty_db, self).
Proof. vm_compute. reflexivity. Qed.

Lemma journal_acquired :
  acquire self (Some empty_db) (PStr "job") (PStr "job-7") (PStr "node-a") (PInt 30)
    (at_second 0) "aa11" = Ok (Some owned, l1).
Proof. vm_compute. reflexivity. Qed.

Lemma journal_history : run None (Some owned) [lease_grant l1].
Proof.
  eapply run_issue; [eapply run_quiet; [apply run_nil|eapply journal_open, opened]|].
  exact (journal_acquire _ _ _ _ _ _ _ _ _ _ journal_acquired).
Qed.

Lemma owned_db_inv : db_inv owned.
Proof.
  apply (journal_step_inv (Some empty_db) _ (Some owned)
    (journal_acquire _ _ _ _ _ _ _ _ _ _ journal_acquired)).
  exact (journal_step_inv _ _ _ (journal_open _ _ _ _ _ _ opened) I).
Qed.
End JournalSample.

Lemma journal_epochs_dense_witness : [1] = seqZ 1 (epoch_of JournalSample.owned ("job", "job-7", "lab")).
Proof.
  exact (proj1 (journal_epochs_dense _ _ ("job", "job-7", "lab") JournalSample.journal_history)).
Defined.

Lemma journal_validate_newest_witness :
  lease_grant JournalSample.l1 ∈ [lease_grant JournalSample.l1].
Proof.
  refine (proj1 (proj2 (journal_validate_newest _ _ JournalSample.self JournalSample.l1
    (JournalSample.at_second 29) (Some JournalSample.owned)
    (mk_OwnershipDecision true "current" (Some 1)) JournalSample.journal_history _ _)));
    vm_compute; reflexivity.
Defined.

Lemma journal_rows_always_load_witness :
  ∃ r, _load_lease JournalSample.self JournalSample.owned "job" "job-7" = Ok r.
Proof.
  exact (proj1 (proj2 (journal_rows_always_load _ _ JournalSample.self "job" "job-7"
    JournalSample.journal_history))).
Defined.

Lemma renew_replay_witness :
  ∃ file', renew JournalSample.self (Some JournalSample.owned) (Inst JournalSample.l1) (PInt 30)
             (JournalSample.at_second 10) = Ok (file', JournalSample.l2)
    ∧ renew JournalSample.self file' (Inst JournalSample.l1) (PInt 30)
        (JournalSample.at_second 12) = Ok (file', JournalSample.l2).
Proof.
  eexists. split; [vm_compute; reflexivity|].
  refine (renew_replay _ _ JournalSample.self JournalSample.l1 (PInt 30)
    (JournalSample.at_second 10) _ JournalSample.l2 _ (f64_of_Z 12)
    JournalSample.journal_history _ _ _); vm_compute; reflexivity.
Defined.

Lemma release_replay_witness :
  file_epoch (Some (release_db JournalSample.owned JournalSample.l1))
    (OwnerLease_key JournalSample.l1) = 1.
Proof.
  refine (proj2 (proj2 (release_replay _ _ JournalSample.self JournalSample.l1 _
    JournalSample.journal_history _))); vm_compute; reflexivity.
Defined.

(** With room for one resource: a second resource acquired after the first
    lease expired, then the first resource again; two unexpired leases. *)
Lemma journal_acquire_outcome_witness :
  match acquire_outcome JournalSample.self JournalSample.owned "job" "job-8" "node-b" 30
          (f64_of_Z 31) "bb22" with
  | Ok (Some f1, _) =>
      match acquire JournalSample.self (Some f1) (PStr "job") (PStr "job-7") (PStr "node-c")
              (PInt 30) (JournalSample.at_second 32) "cc33" with
      | Ok (Some f2, _) =>
          _active_count JournalSample.self f2 (f64_of_Z 32) = 2
          ∧ jn_max_resources JournalSample.self = 1
      | _ => False
      end
  | _ => False
  end.
Proof.
  rewrite <-(journal_acquire_outcome JournalSample.self JournalSample.owned "job" "job-8" "node-b"
    30 (f64_of_Z 31) "bb22" JournalSample.owned_db_inv); [by vm_compute|].
  unfold acquirable. split_and!; by vm_compute.
Defined.
