(* ===== verification/EpochFence.v ===== *)
(** Owner-epoch checks at the effect boundary of a worker
    ([sonder_runtime/domain/worker_epoch_fence.py]).

    The last section is the client side of [EpochStore]: a worker that carries a
    grant to the effect boundary, and an observation of the grant in force there.
    The source has the records and the decision but no adapter that fills them
    from a store; [request_of] and [observe] state what such an adapter has to
    report. *)
From S2P Require Import Prelude EpochInterface Sha256 PyFloat Ownership.

Local Open Scope Z_scope.

Definition MAX_EPOCH : Z := Z.shiftl 1 63 - 1.

Inductive EffectKind := READ | WRITE | EXECUTE | DELETE | CONTROL.

Inductive WorkerEffectReason :=
  | CURRENT_OWNER
  | READ_UNFENCED
  | OWNER_EVIDENCE_MISSING
  | OWNER_INACTIVE
  | OWNERSHIP_SCOPE_MISMATCH
  | OWNER_MISMATCH
  | STALE_OWNER_EPOCH
  | OWNER_EPOCH_MISMATCH
  | STALE_OWNER_TOKEN.

#[export] Instance EffectKind_eq_dec : EqDecision EffectKind.
Proof. solve_decision. Defined.

Definition effect_value (e : EffectKind) : string :=
  match e with
  | READ => "read" | WRITE => "write" | EXECUTE => "execute" | DELETE => "delete"
  | CONTROL => "control"
  end.
Definition effect_of_value (s : string) : option EffectKind :=
  List.find (λ e, String.eqb (effect_value e) s) [READ; WRITE; EXECUTE; DELETE; CONTROL].

Definition effect_reason_value (r : WorkerEffectReason) : string :=
  match r with
  | CURRENT_OWNER => "current_owner"
  | READ_UNFENCED => "read_unfenced"
  | OWNER_EVIDENCE_MISSING => "owner_evidence_missing"
  | OWNER_INACTIVE => "owner_inactive"
  | OWNERSHIP_SCOPE_MISMATCH => "ownership_scope_mismatch"
  | OWNER_MISMATCH => "owner_mismatch"
  | STALE_OWNER_EPOCH => "stale_owner_epoch"
  | OWNER_EPOCH_MISMATCH => "owner_epoch_mismatch"
  | STALE_OWNER_TOKEN => "stale_owner_token"
  end.

Definition _identity (value : pyval) (field : string) : res string :=
  check_str is_identity ValueError (field +:+ " must be a bounded stable identity") value.
Definition _epoch (value : pyval) (field : string) : res Z :=
  check_int 1 MAX_EPOCH ValueError (field +:+ " must be within 1.." +:+ pretty MAX_EPOCH) value.
Definition _digest (value : pyval) (field : string) : res string :=
  check_str is_digest ValueError (field +:+ " must be a lowercase SHA-256 digest") value.
Definition _effect (value : pyval) : res EffectKind :=
  check_enum effect_of_value ValueError
    "effect must be read, write, execute, delete, or control" value.
Definition _boolean (value : pyval) (field : string) : res bool :=
  check_bool ValueError (field +:+ " must be boolean") value.

Record WorkerEffectRequest := mk_WorkerEffectRequest {
  wr_cluster_id : string;
  wr_resource_kind : string;
  wr_resource_id : string;
  wr_owner_id : string;
  wr_owner_epoch : Z;
  wr_lease_token_digest : string;
  wr_effect : EffectKind;
  wr_operation_id : string
}.

Definition WorkerEffectRequest_init
    (cluster_id resource_kind resource_id owner_id owner_epoch lease_token_digest effect
     operation_id : pyval) : res WorkerEffectRequest :=
  cluster ← _identity cluster_id "cluster_id";
  kind ← _identity resource_kind "resource_kind";
  resource ← _identity resource_id "resource_id";
  owner ← _identity owner_id "owner_id";
  epoch ← _epoch owner_epoch "owner_epoch";
  digest ← _digest lease_token_digest "lease_token_digest";
  e ← _effect effect;
  op ← _identity operation_id "operation_id";
  Ok (mk_WorkerEffectRequest cluster kind resource owner epoch digest e op).

Definition WorkerEffectRequest_scope_key (r : WorkerEffectRequest) : string * string * string :=
  (wr_cluster_id r, wr_resource_kind r, wr_resource_id r).

Record OwnerEpochObservation := mk_OwnerEpochObservation {
  ob_cluster_id : string;
  ob_resource_kind : string;
  ob_resource_id : string;
  ob_owner_id : string;
  ob_owner_epoch : Z;
  ob_lease_token_digest : string;
  ob_active : bool
}.

Definition OwnerEpochObservation_init
    (cluster_id resource_kind resource_id owner_id owner_epoch lease_token_digest active : pyval)
  : res OwnerEpochObservation :=
  cluster ← _identity cluster_id "cluster_id";
  kind ← _identity resource_kind "resource_kind";
  resource ← _identity resource_id "resource_id";
  owner ← _identity owner_id "owner_id";
  epoch ← _epoch owner_epoch "owner_epoch";
  digest ← _digest lease_token_digest "lease_token_digest";
  a ← _boolean active "active";
  Ok (mk_OwnerEpochObservation cluster kind resource owner epoch digest a).

Definition OwnerEpochObservation_scope_key (o : OwnerEpochObservation)
  : string * string * string :=
  (ob_cluster_id o, ob_resource_kind o, ob_resource_id o).

Record WorkerEffectDecision := mk_WorkerEffectDecision {
  we_allowed : bool;
  we_effect : EffectKind;
  we_reason_code : string;
  we_expected_epoch : Z;
  we_observed_epoch : option Z;
  we_operation_id : string
}.

Definition WorkerEffectDecision_blocked (d : WorkerEffectDecision) : bool := negb (we_allowed d).
Definition WorkerEffectDecision_reason (d : WorkerEffectDecision) : string := we_reason_code d.

Definition WorkerEffectDecision_as_dict (d : WorkerEffectDecision) : pyval :=
  PDict [(PStr "allowed", PBool (we_allowed d));
         (PStr "effect", PStr (effect_value (we_effect d)));
         (PStr "reason_code", PStr (we_reason_code d));
         (PStr "expected_epoch", PInt (we_expected_epoch d));
         (PStr "observed_epoch",
            match we_observed_epoch d with Some z => PInt z | None => PNone end);
         (PStr "operation_id", PStr (we_operation_id d))].

Definition _decision (request : WorkerEffectRequest) (reason : WorkerEffectReason)
    (allowed : bool) (observed_epoch : option Z) : WorkerEffectDecision :=
  mk_WorkerEffectDecision allowed (wr_effect request) (effect_reason_value reason)
    (wr_owner_epoch request) observed_epoch (wr_operation_id request).

Definition evaluate_worker_effect (request : dyn WorkerEffectRequest)
    (observation : option (dyn OwnerEpochObservation)) : res WorkerEffectDecision :=
  match request with
  | Foreign => throw TypeError "request must be a WorkerEffectRequest"
  | Inst r =>
      obs ← match observation with
            | None => Ok None
            | Some (Inst o) => Ok (Some o)
            | Some Foreign =>
                throw TypeError "observation must be an OwnerEpochObservation or None"
            end;
      if bool_decide (wr_effect r = READ) then
        Ok (_decision r READ_UNFENCED true (ob_owner_epoch <$> obs))
      else match obs with
      | None => Ok (_decision r OWNER_EVIDENCE_MISSING false None)
      | Some o =>
          let refuse reason := Ok (_decision r reason false (Some (ob_owner_epoch o))) in
          if bool_decide (OwnerEpochObservation_scope_key o ≠ WorkerEffectRequest_scope_key r)
          then refuse OWNERSHIP_SCOPE_MISMATCH
          else if negb (ob_active o) then refuse OWNER_INACTIVE
          else if negb (String.eqb (ob_owner_id o) (wr_owner_id r)) then refuse OWNER_MISMATCH
          else if ob_owner_epoch o <? wr_owner_epoch r then refuse STALE_OWNER_EPOCH
          else if negb (ob_owner_epoch o =? wr_owner_epoch r) then refuse OWNER_EPOCH_MISMATCH
          else if negb (String.eqb (ob_lease_token_digest o) (wr_lease_token_digest r))
          then refuse STALE_OWNER_TOKEN
          else Ok (_decision r CURRENT_OWNER true (Some (ob_owner_epoch o)))
      end
  end.

Arguments evaluate_worker_effect : simpl never.

(** The decision, as one equivalence. *)
Lemma worker_effect_decided r obs :
  ∃ d, evaluate_worker_effect (Inst r) (Inst <$> obs) = Ok d
    ∧ we_operation_id d = wr_operation_id r ∧ we_expected_epoch d = wr_owner_epoch r
    ∧ we_effect d = wr_effect r
    ∧ (we_allowed d = true ↔
         wr_effect r = READ
         ∨ obs = Some (mk_OwnerEpochObservation (wr_cluster_id r) (wr_resource_kind r)
                         (wr_resource_id r) (wr_owner_id r) (wr_owner_epoch r)
                         (wr_lease_token_digest r) true)).
Proof.
  unfold evaluate_worker_effect.
  destruct obs as [[c k s o e t a]|]; simpl; cases_if; eexists; split_and!; try done;
    to_prop; split; try done; intros H;
    repeat match goal with
    | H : _ ∨ _ |- _ => destruct H
    | H : ¬ (_ ≠ _) |- _ => apply dec_stable in H
    end;
    unfold OwnerEpochObservation_scope_key, WorkerEffectRequest_scope_key in *;
    simplify_eq/=; try done; try lia; try (by left);
    repeat match goal with
    | H : String.eqb _ _ = true |- _ => apply String.eqb_eq in H
    | H : String.eqb _ _ = false |- _ => apply String.eqb_neq in H
    end; try congruence.
  right. congruence.
Qed.

(** A worker effect is allowed exactly when it is a read, or when the
    observation exists, is active, and agrees with the request on cluster,
    kind, resource, owner, epoch and token digest; every other observation
    blocks it, and the decision is always about the requested operation. *)
Theorem evaluate_worker_effect_iff r obs :
  ∃ d, evaluate_worker_effect (Inst r) (Inst <$> obs) = Ok d
    ∧ we_operation_id d = wr_operation_id r ∧ we_expected_epoch d = wr_owner_epoch r
    ∧ we_effect d = wr_effect r
    ∧ (we_allowed d = true ↔
         wr_effect r = READ
         ∨ obs = Some (mk_OwnerEpochObservation (wr_cluster_id r) (wr_resource_kind r)
                         (wr_resource_id r) (wr_owner_id r) (wr_owner_epoch r)
                         (wr_lease_token_digest r) true)).
Proof. apply worker_effect_decided. Qed.

(** ** Workers of an ownership store *)

Section Workers.
Context {S : Type} `{!EpochStore S}.

(** The digest carried in place of a token; any function will do. *)
Context (token_digest : string → string).

(** The request of a worker that was handed [g]. *)
Definition request_of (g : grant) (effect : EffectKind) (op : string) : WorkerEffectRequest :=
  let '(kind, resource, cluster) := g_key g in
  mk_WorkerEffectRequest cluster kind resource (g_owner g) (g_epoch g) (token_digest (g_token g)) effect op.

(** What an adapter has to report of the store at the effect boundary: the grant in
    force, and whether its owner counts as active. *)
Definition observe (s : S) (k : resource_key) (active : bool) : option OwnerEpochObservation :=
  (λ g, let '(kind, resource, cluster) := k in
        mk_OwnerEpochObservation cluster kind resource (g_owner g) (g_epoch g) (token_digest (g_token g))
          active) <$> es_current s k.

(** C14: in every run of an ownership store, a worker that holds an issued
    grant can perform a mutating effect only while that very grant is the one in
    force: a worker whose grant was superseded or released is blocked, even if
    it has the same owner identity as the current holder. *)
Theorem worker_effect_fenced s0 s issued g effect op active d :
  fresh s0 → run s0 s issued → g ∈ issued → effect ≠ READ →
  evaluate_worker_effect (Inst (request_of g effect op)) (Inst <$> observe s (g_key g) active) = Ok d →
  (we_allowed d = true ↔ active = true ∧ es_current s (g_key g) = Some g).
Proof.
  intros Hf Hr Hg He Hd. pose proof (run_inv_holds _ _ _ Hf Hr) as Hi.
  destruct (worker_effect_decided (request_of g effect op) (observe s (g_key g) active))
    as (d' & Hd' & _ & _ & _ & Hal). rewrite Hd in Hd'. injection Hd' as <-. rewrite Hal. clear Hal.
  unfold request_of, observe. destruct (g_key g) as [[kind resource] cluster] eqn:Hk. simpl.
  split.
  - intros [?|H]; [done|]. destruct (es_current s _) as [g'|] eqn:Hc; [|done]. simpl in H.
    injection H as Ho Hep Ht ->. split; [done|]. f_equal.
    destruct (es_current_epoch _ _ _ (ri_inv _ _ Hi) Hc) as [Hk' _].
    pose proof (ri_current _ _ Hi _ _ Hc) as Hg'.
    apply (NoDup_fmap_same (λ g, (g_key g, g_epoch g)) issued); [apply Hi|done|done|congruence].
  - intros [-> ->]. by right.
Qed.
End Workers.

(** The fenced first owner of the sample history: its write is blocked. *)
Lemma worker_effect_fenced_witness :
  ∃ d, evaluate_worker_effect
         (Inst (request_of sha256_hex (lease_grant Sample.first_lease) WRITE "op-1"))
         (Inst <$> observe sha256_hex Sample.taken ("job", "job-7", "lab") true) = Ok d
    ∧ we_reason_code d = "owner_mismatch"
    ∧ (we_allowed d = true ↔
         true = true ∧ es_current Sample.taken ("job", "job-7", "lab")
                       = Some (lease_grant Sample.first_lease)).
Proof.
  eexists. split; [vm_compute; reflexivity|]. split; [reflexivity|].
  refine (worker_effect_fenced sha256_hex Sample.start Sample.taken _
    (lease_grant Sample.first_lease) WRITE "op-1" true _
    (authority_init_fresh _ _ _ Sample.start_init) Sample.history _ _ _);
    [right; left|discriminate|vm_compute; reflexivity].
Defined.
