(* ===== verification/TakeoverReadiness.v ===== *)
(** The evidence gate for takeover readiness
    ([sonder_runtime/domain/takeover_readiness.py]). *)
From S2P Require Import Prelude PyFloat Ownership.

Local Open Scope Z_scope.

Definition _RESOURCE_KINDS : list string :=
  ["session"; "attempt"; "job"; "approval"; "memory_write"].
Definition MAX_REPLICA_IDS : Z := 64.
Definition MAX_WITNESS_IDS : Z := 32.
Definition MAX_VOTES : Z := 64.
Definition MAX_EPOCH : Z := Z.shiftl 1 63 - 1.

Inductive TakeoverTopology := SINGLE_HOST | TWO_NODE | MULTI_NODE.

Inductive TakeoverReadinessReason :=
  | READY
  | OLD_OWNER_FENCE_MISSING
  | OLD_OWNER_FENCE_SCOPE_MISMATCH
  | OLD_OWNER_FENCE_UNCONFIRMED
  | OLD_OWNER_FENCE_NOT_INDEPENDENT
  | REPLICATION_EVIDENCE_MISSING
  | REPLICATION_SCOPE_MISMATCH
  | REPLICATION_NOT_ACKNOWLEDGED
  | REPLICATION_NOT_DURABLE
  | REPLICATION_QUORUM_NOT_REACHED
  | REPLICATION_SOURCE_MISSING
  | QUORUM_EVIDENCE_MISSING
  | QUORUM_SCOPE_MISMATCH
  | QUORUM_DENIED
  | QUORUM_NOT_REACHED
  | QUORUM_NOT_INDEPENDENT
  | WITNESS_NOT_INDEPENDENT.

Definition topology_value (t : TakeoverTopology) : string :=
  match t with
  | SINGLE_HOST => "single-host" | TWO_NODE => "pooled-pair" | MULTI_NODE => "multi-node"
  end.
Definition topology_of_value (s : string) : option TakeoverTopology :=
  List.find (λ t, String.eqb (topology_value t) s) [SINGLE_HOST; TWO_NODE; MULTI_NODE].

Definition readiness_reason_value (r : TakeoverReadinessReason) : string :=
  match r with
  | READY => "ready"
  | OLD_OWNER_FENCE_MISSING => "old_owner_fence_missing"
  | OLD_OWNER_FENCE_SCOPE_MISMATCH => "old_owner_fence_scope_mismatch"
  | OLD_OWNER_FENCE_UNCONFIRMED => "old_owner_fence_unconfirmed"
  | OLD_OWNER_FENCE_NOT_INDEPENDENT => "old_owner_fence_not_independent"
  | REPLICATION_EVIDENCE_MISSING => "replication_evidence_missing"
  | REPLICATION_SCOPE_MISMATCH => "replication_scope_mismatch"
  | REPLICATION_NOT_ACKNOWLEDGED => "replication_not_acknowledged"
  | REPLICATION_NOT_DURABLE => "replication_not_durable"
  | REPLICATION_QUORUM_NOT_REACHED => "replication_quorum_not_reached"
  | REPLICATION_SOURCE_MISSING => "replication_source_missing"
  | QUORUM_EVIDENCE_MISSING => "quorum_evidence_missing"
  | QUORUM_SCOPE_MISMATCH => "quorum_scope_mismatch"
  | QUORUM_DENIED => "quorum_denied"
  | QUORUM_NOT_REACHED => "quorum_not_reached"
  | QUORUM_NOT_INDEPENDENT => "quorum_not_independent"
  | WITNESS_NOT_INDEPENDENT => "witness_not_independent"
  end.

(** ** Validators *)

Definition _identity (value : pyval) (field : string) : res string :=
  check_str is_identity ValueError (field +:+ " must be a bounded stable identity") value.
Definition _resource_kind (value : pyval) : res string :=
  check_str (λ s, mem s _RESOURCE_KINDS) ValueError "resource_kind is not supported" value.
Definition _epoch (value : pyval) (field : string) : res Z :=
  check_int 1 MAX_EPOCH ValueError (field +:+ " must be within 1.." +:+ pretty MAX_EPOCH) value.
Definition _digest (value : pyval) : res string :=
  check_str is_digest ValueError "state_digest must be a lowercase SHA-256 digest" value.
Definition _boolean (value : pyval) (field : string) : res bool :=
  check_bool ValueError (field +:+ " must be boolean") value.

Definition _bounded_ids (value : pyval) (field : string) (maximum : Z) : res (list string) :=
  match py_iter value with
  | None => throw ValueError (field +:+ " must be a bounded tuple of identities")
  | Some values =>
      _ ← require ((1 <=? zlen values) && (zlen values <=? maximum)) ValueError
            (field +:+ " must contain 1.." +:+ pretty maximum +:+ " identities");
      normalized ← mapM_res (λ v, _identity v (field +:+ " member")) values;
      _ ← require (no_dups normalized) ValueError (field +:+ " must not contain duplicates");
      Ok normalized
  end.

Definition _receipt (value : pyval) (field : string) : res string := _identity value field.

Definition _topology (value : pyval) : res TakeoverTopology :=
  check_enum topology_of_value ValueError
    "topology must be single-host, pooled-pair, or multi-node" value.

(** ** Evidence *)

Record TakeoverRequest := mk_TakeoverRequest {
  tr_cluster_id : string;
  tr_resource_kind : string;
  tr_resource_id : string;
  tr_previous_owner_id : string;
  tr_previous_epoch : Z;
  tr_new_owner_id : string;
  tr_topology : TakeoverTopology
}.

Definition TakeoverRequest_init
    (cluster_id resource_kind resource_id previous_owner_id previous_epoch new_owner_id topology
     : pyval) : res TakeoverRequest :=
  cluster ← _identity cluster_id "cluster_id";
  kind ← _resource_kind resource_kind;
  resource ← _identity resource_id "resource_id";
  owner ← _identity previous_owner_id "previous_owner_id";
  epoch ← _epoch previous_epoch "previous_epoch";
  new ← _identity new_owner_id "new_owner_id";
  t ← _topology topology;
  _ ← require (negb (String.eqb owner new)) ValueError
        "new_owner_id must differ from previous_owner_id";
  Ok (mk_TakeoverRequest cluster kind resource owner epoch new t).

(** The five attributes [_scope_matches] reads from any evidence. *)
Record evidence_scope := mk_evidence_scope {
  es_cluster_id : string;
  es_resource_kind : string;
  es_resource_id : string;
  es_previous_owner_id : string;
  es_previous_epoch : Z
}.

Definition evidence_scope_init
    (cluster_id resource_kind resource_id previous_owner_id previous_epoch : pyval)
  : res evidence_scope :=
  cluster ← _identity cluster_id "cluster_id";
  kind ← _resource_kind resource_kind;
  resource ← _identity resource_id "resource_id";
  owner ← _identity previous_owner_id "previous_owner_id";
  epoch ← _epoch previous_epoch "previous_epoch";
  Ok (mk_evidence_scope cluster kind resource owner epoch).

Record OldOwnerFenceEvidence := mk_OldOwnerFenceEvidence {
  fe_scope : evidence_scope;
  fe_receipt_id : string;
  fe_authority_id : string;
  fe_confirmed : bool
}.

Definition OldOwnerFenceEvidence_init
    (cluster_id resource_kind resource_id previous_owner_id previous_epoch receipt_id
     authority_id confirmed : pyval) : res OldOwnerFenceEvidence :=
  scope ← evidence_scope_init cluster_id resource_kind resource_id previous_owner_id
            previous_epoch;
  receipt ← _receipt receipt_id "receipt_id";
  authority ← _identity authority_id "authority_id";
  c ← _boolean confirmed "confirmed";
  Ok (mk_OldOwnerFenceEvidence scope receipt authority c).

Record DurableStateReplicationEvidence := mk_ReplicationEvidence {
  re_scope : evidence_scope;
  re_receipt_id : string;
  re_state_digest : string;
  re_acknowledged : bool;
  re_durable : bool;
  re_replica_ids : list string
}.

Definition ReplicationEvidence_init
    (cluster_id resource_kind resource_id previous_owner_id previous_epoch receipt_id
     state_digest acknowledged durable replica_ids : pyval)
  : res DurableStateReplicationEvidence :=
  scope ← evidence_scope_init cluster_id resource_kind resource_id previous_owner_id
            previous_epoch;
  receipt ← _receipt receipt_id "receipt_id";
  digest ← _digest state_digest;
  a ← _boolean acknowledged "acknowledged";
  d ← _boolean durable "durable";
  ids ← _bounded_ids replica_ids "replica_ids" MAX_REPLICA_IDS;
  Ok (mk_ReplicationEvidence scope receipt digest a d ids).

Record IndependentQuorumDecision := mk_QuorumDecision {
  qd_scope : evidence_scope;
  qd_decision_id : string;
  qd_authority_id : string;
  qd_witness_ids : list string;
  qd_required_votes : Z;
  qd_received_votes : Z;
  qd_granted : bool
}.

Definition QuorumDecision_init
    (cluster_id resource_kind resource_id previous_owner_id previous_epoch decision_id
     authority_id witness_ids required_votes received_votes granted : pyval)
  : res IndependentQuorumDecision :=
  scope ← evidence_scope_init cluster_id resource_kind resource_id previous_owner_id
            previous_epoch;
  decision ← _receipt decision_id "decision_id";
  authority ← _identity authority_id "authority_id";
  witnesses ← _bounded_ids witness_ids "witness_ids" MAX_WITNESS_IDS;
  required ← check_int 1 MAX_VOTES ValueError "required_votes must be within 1..64" required_votes;
  received ← check_int 0 MAX_VOTES ValueError "received_votes must be within 0..64" received_votes;
  g ← _boolean granted "granted";
  Ok (mk_QuorumDecision scope decision authority witnesses required received g).

Record TakeoverReadinessDecision := mk_ReadinessDecision {
  rd_ready : bool;
  rd_profile : string;
  rd_cluster_id : string;
  rd_resource_kind : string;
  rd_resource_id : string;
  rd_previous_owner_id : string;
  rd_previous_epoch : Z;
  rd_new_owner_id : string;
  rd_reason_codes : list string;
  rd_limitations : list string
}.

Definition ReadinessDecision_blocked (d : TakeoverReadinessDecision) : bool := negb (rd_ready d).
Definition ReadinessDecision_reason (d : TakeoverReadinessDecision) : string :=
  join_text "; " (rd_reason_codes d).

Definition ReadinessDecision_as_dict (d : TakeoverReadinessDecision) : pyval :=
  PDict [(PStr "ready", PBool (rd_ready d));
         (PStr "profile", PStr (rd_profile d));
         (PStr "cluster_id", PStr (rd_cluster_id d));
         (PStr "resource_kind", PStr (rd_resource_kind d));
         (PStr "resource_id", PStr (rd_resource_id d));
         (PStr "previous_owner_id", PStr (rd_previous_owner_id d));
         (PStr "previous_epoch", PInt (rd_previous_epoch d));
         (PStr "new_owner_id", PStr (rd_new_owner_id d));
         (PStr "reason_codes", PList (PStr <$> rd_reason_codes d));
         (PStr "limitations", PList (PStr <$> rd_limitations d))].

(** ** The gate *)

Definition _scope_matches (request : TakeoverRequest) (e : evidence_scope) : bool :=
  String.eqb (es_cluster_id e) (tr_cluster_id request)
  && String.eqb (es_resource_kind e) (tr_resource_kind request)
  && String.eqb (es_resource_id e) (tr_resource_id request)
  && String.eqb (es_previous_owner_id e) (tr_previous_owner_id request)
  && (es_previous_epoch e =? tr_previous_epoch request).

Definition _limitations (topology : TakeoverTopology) : list string :=
  "This pure contract evaluates evidence only; it performs no election, network I/O, process fencing, or promotion."
  :: match topology with
     | SINGLE_HOST => ["single-host supplies local control state only; an external replicated state provider and independent witness are required."]
     | TWO_NODE => ["pooled-pair has two data nodes; a third independent witness is required to prevent split-brain."]
     | MULTI_NODE => ["multi-node membership does not provide live fencing, replication transport, or quorum; those remain external provider capabilities."]
     end.

(** [if cond: reasons.append(r)] *)
Definition reason_if (cond : bool) (r : TakeoverReadinessReason) : list TakeoverReadinessReason :=
  if cond then [r] else [].

Definition fence_reasons (request : TakeoverRequest) (fence : option OldOwnerFenceEvidence)
  : list TakeoverReadinessReason :=
  match fence with
  | None => [OLD_OWNER_FENCE_MISSING]
  | Some f =>
      if negb (_scope_matches request (fe_scope f)) then [OLD_OWNER_FENCE_SCOPE_MISMATCH]
      else reason_if (negb (fe_confirmed f)) OLD_OWNER_FENCE_UNCONFIRMED
        ++ reason_if (mem (fe_authority_id f) [tr_previous_owner_id request; tr_new_owner_id request])
             OLD_OWNER_FENCE_NOT_INDEPENDENT
  end.

Definition replication_reasons (request : TakeoverRequest) (fence : option OldOwnerFenceEvidence)
    (replication : option DurableStateReplicationEvidence) (minimum_replicas : Z)
  : list TakeoverReadinessReason :=
  match replication with
  | None => [REPLICATION_EVIDENCE_MISSING]
  | Some r =>
      if negb (_scope_matches request (re_scope r)) then [REPLICATION_SCOPE_MISMATCH]
      else reason_if (negb (re_acknowledged r)) REPLICATION_NOT_ACKNOWLEDGED
        ++ reason_if (negb (re_durable r)) REPLICATION_NOT_DURABLE
        ++ reason_if (zlen (re_replica_ids r) <? minimum_replicas) REPLICATION_QUORUM_NOT_REACHED
        ++ reason_if (negb (mem (tr_previous_owner_id request) (re_replica_ids r)))
             REPLICATION_SOURCE_MISSING
        ++ reason_if (match fence with
                      | Some f => _scope_matches request (fe_scope f)
                                  && mem (fe_authority_id f) (re_replica_ids r)
                      | None => false
                      end) OLD_OWNER_FENCE_NOT_INDEPENDENT
  end.

Definition quorum_reasons (request : TakeoverRequest)
    (replication : option DurableStateReplicationEvidence)
    (quorum : option IndependentQuorumDecision) : list TakeoverReadinessReason :=
  match quorum with
  | None => [QUORUM_EVIDENCE_MISSING]
  | Some q =>
      let data_replicas := match replication with Some r => re_replica_ids r | None => [] end in
      let owners := [tr_previous_owner_id request; tr_new_owner_id request] in
      if negb (_scope_matches request (qd_scope q)) then [QUORUM_SCOPE_MISMATCH]
      else reason_if (negb (qd_granted q)) QUORUM_DENIED
        ++ reason_if ((qd_received_votes q <? qd_required_votes q)
                      || (zlen (qd_witness_ids q) <? qd_received_votes q)) QUORUM_NOT_REACHED
        ++ reason_if (mem (qd_authority_id q) owners || mem (qd_authority_id q) data_replicas)
             QUORUM_NOT_INDEPENDENT
        ++ reason_if (meets (qd_witness_ids q) (owners ++ data_replicas)) WITNESS_NOT_INDEPENDENT
  end.

Definition evaluate_takeover_readiness (request : dyn TakeoverRequest)
    (fence : option OldOwnerFenceEvidence) (replication : option DurableStateReplicationEvidence)
    (quorum : option IndependentQuorumDecision) (minimum_replicas : pyval)
  : res TakeoverReadinessDecision :=
  match request with
  | Foreign => throw TypeError "request must be a TakeoverRequest"
  | Inst r =>
      minimum ← check_int 2 MAX_REPLICA_IDS ValueError "minimum_replicas must be within 2..64"
                  minimum_replicas;
      let reasons := readiness_reason_value <$>
        fence_reasons r fence ++ replication_reasons r fence replication minimum
        ++ quorum_reasons r replication quorum in
      let decision ready codes :=
        mk_ReadinessDecision ready (topology_value (tr_topology r)) (tr_cluster_id r)
          (tr_resource_kind r) (tr_resource_id r) (tr_previous_owner_id r) (tr_previous_epoch r)
          (tr_new_owner_id r) codes (_limitations (tr_topology r)) in
      match reasons with
      | [] => Ok (decision true [readiness_reason_value READY])
      | _ => Ok (decision false (fromkeys reasons))
      end
  end.

Arguments evaluate_takeover_readiness : simpl never.

(** ** The evidence a ready decision stands for *)

Definition about_request (request : TakeoverRequest) (e : evidence_scope) : Prop :=
  e = mk_evidence_scope (tr_cluster_id request) (tr_resource_kind request)
        (tr_resource_id request) (tr_previous_owner_id request) (tr_previous_epoch request).

Record ready_evidence (request : TakeoverRequest) (f : OldOwnerFenceEvidence)
    (r : DurableStateReplicationEvidence) (q : IndependentQuorumDecision) (minimum : Z) : Prop := {
  ry_fence_scope : about_request request (fe_scope f);
  ry_fence_confirmed : fe_confirmed f = true;
  ry_fence_independent : fe_authority_id f ≠ tr_previous_owner_id request
    ∧ fe_authority_id f ≠ tr_new_owner_id request ∧ fe_authority_id f ∉ re_replica_ids r;
  ry_replication_scope : about_request request (re_scope r);
  ry_acknowledged : re_acknowledged r = true;
  ry_durable : re_durable r = true;
  ry_replicas : minimum <= zlen (re_replica_ids r);
  ry_source : tr_previous_owner_id request ∈ re_replica_ids r;
  ry_quorum_scope : about_request request (qd_scope q);
  ry_granted : qd_granted q = true;
  ry_votes : qd_required_votes q <= qd_received_votes q <= zlen (qd_witness_ids q);
  ry_quorum_independent : qd_authority_id q ≠ tr_previous_owner_id request
    ∧ qd_authority_id q ≠ tr_new_owner_id request ∧ qd_authority_id q ∉ re_replica_ids r;
  ry_witnesses : ∀ w, w ∈ qd_witness_ids q →
    w ≠ tr_previous_owner_id request ∧ w ≠ tr_new_owner_id request ∧ w ∉ re_replica_ids r
}.

Lemma scope_matches_spec request e : _scope_matches request e = true ↔ about_request request e.
Proof.
  unfold _scope_matches, about_request. destruct e. simpl. rewrite !andb_true_iff, Z.eqb_eq.
  rewrite !String.eqb_eq. naive_solver congruence.
Qed.

Lemma reason_if_nil c r : reason_if c r = [] ↔ c = false.
Proof. by destruct c. Qed.

Lemma fence_reasons_nil request fence :
  fence_reasons request fence = [] ↔
  ∃ f, fence = Some f ∧ about_request request (fe_scope f) ∧ fe_confirmed f = true
    ∧ fe_authority_id f ≠ tr_previous_owner_id request
    ∧ fe_authority_id f ≠ tr_new_owner_id request.
Proof.
  unfold fence_reasons. destruct fence as [f|]; [|naive_solver].
  destruct (_scope_matches request (fe_scope f)) eqn:E; simpl.
  - apply scope_matches_spec in E. rewrite app_nil, !reason_if_nil, negb_false_iff, mem_false.
    set_solver.
  - apply not_true_iff_false in E. rewrite scope_matches_spec in E. naive_solver.
Qed.

Lemma replication_reasons_nil request fence replication m :
  replication_reasons request fence replication m = [] ↔
  ∃ r, replication = Some r ∧ about_request request (re_scope r) ∧ re_acknowledged r = true
    ∧ re_durable r = true ∧ m <= zlen (re_replica_ids r)
    ∧ tr_previous_owner_id request ∈ re_replica_ids r
    ∧ ∀ f, fence = Some f → about_request request (fe_scope f) →
        fe_authority_id f ∉ re_replica_ids r.
Proof.
  unfold replication_reasons. destruct replication as [r|]; [|naive_solver].
  destruct (_scope_matches request (re_scope r)) eqn:E; simpl.
  - apply scope_matches_spec in E.
    rewrite !app_nil, !reason_if_nil, !negb_false_iff, mem_spec, Z.ltb_ge.
    assert (match fence with
            | Some f => _scope_matches request (fe_scope f) && mem (fe_authority_id f) (re_replica_ids r)
            | None => false
            end = false ↔ ∀ f, fence = Some f → about_request request (fe_scope f) →
                            fe_authority_id f ∉ re_replica_ids r) as ->.
    { destruct fence as [f|]; [|naive_solver]. rewrite andb_false_iff, mem_false.
      rewrite <-(not_true_iff_false (_scope_matches _ _)), scope_matches_spec.
      split; [naive_solver|]. intros H.
      destruct (decide (fe_authority_id f ∈ re_replica_ids r)); [left|by right]. naive_solver. }
    naive_solver.
  - apply not_true_iff_false in E. rewrite scope_matches_spec in E. naive_solver.
Qed.

Lemma quorum_reasons_nil request replication quorum :
  quorum_reasons request replication quorum = [] ↔
  ∃ q, quorum = Some q ∧ about_request request (qd_scope q) ∧ qd_granted q = true
    ∧ qd_required_votes q <= qd_received_votes q <= zlen (qd_witness_ids q)
    ∧ let outside x := x ≠ tr_previous_owner_id request ∧ x ≠ tr_new_owner_id request
        ∧ ∀ r, replication = Some r → x ∉ re_replica_ids r in
      outside (qd_authority_id q) ∧ ∀ w, w ∈ qd_witness_ids q → outside w.
Proof.
  unfold quorum_reasons. destruct quorum as [q|]; [|naive_solver].
  destruct (_scope_matches request (qd_scope q)) eqn:E; simpl.
  - apply scope_matches_spec in E.
    rewrite !app_nil, !reason_if_nil, negb_false_iff, !orb_false_iff, !mem_false, !Z.ltb_ge.
    rewrite meets_false. destruct replication as [r|]; set_solver.
  - apply not_true_iff_false in E. rewrite scope_matches_spec in E. naive_solver.
Qed.

Lemma no_reasons request fence replication quorum m :
  fence_reasons request fence ++ replication_reasons request fence replication m
    ++ quorum_reasons request replication quorum = []
  ↔ ∃ f r q, fence = Some f ∧ replication = Some r ∧ quorum = Some q
      ∧ ready_evidence request f r q m.
Proof.
  rewrite !app_nil, fence_reasons_nil, replication_reasons_nil, quorum_reasons_nil. split.
  - intros ((f & -> & ? & ? & ? & ?) & (r & -> & ? & ? & ? & ? & ? & Hf)
      & (q & -> & ? & ? & ? & (? & ? & Hq) & Hw)).
    exists f, r, q. split_and!; [done..|]. split; try done.
    + split_and!; [done..|]. by apply Hf.
    + split_and!; [done..|]. by apply Hq.
    + intros w (? & ? & Hr)%Hw. split_and!; [done..|]. by apply Hr.
  - intros (f & r & q & -> & -> & -> & [? ? (? & ? & ?) ? ? ? ? ? ? ? ? (? & ? & ?) Hw]).
    split_and!; [by exists f| |].
    + exists r. split_and!; try done. by intros ? [= <-] _.
    + exists q. simpl. naive_solver.
Qed.

Lemma readiness_decided request fence replication quorum m :
  2 <= m <= MAX_REPLICA_IDS →
  ∃ d, evaluate_takeover_readiness (Inst request) fence replication quorum (PInt m) = Ok d
    ∧ (rd_ready d = true ↔ ∃ f r q, fence = Some f ∧ replication = Some r ∧ quorum = Some q
         ∧ ready_evidence request f r q m)
    ∧ (rd_ready d = true ↔ rd_reason_codes d = ["ready"])
    ∧ (rd_ready d = false → rd_reason_codes d ≠ [] ∧ "ready" ∉ rd_reason_codes d)
    ∧ NoDup (rd_reason_codes d)
    ∧ rd_previous_epoch d = tr_previous_epoch request
    ∧ rd_new_owner_id d = tr_new_owner_id request.
Proof.
  intros Hm. unfold evaluate_takeover_readiness. rewrite check_int_PInt by done. simpl.
  pose proof (no_reasons request fence replication quorum m) as Hno.
  set (l := fence_reasons _ _ ++ _) in *.
  assert (READY ∉ l) as Hready.
  { subst l. unfold fence_reasons, replication_reasons, quorum_reasons, reason_if.
    rewrite !not_elem_of_app. split_and!; repeat case_match;
      rewrite ?not_elem_of_app, ?not_elem_of_cons; split_and?; try done; apply not_elem_of_nil. }
  assert ("ready" ∉ readiness_reason_value <$> l) as Hcode.
  { intros (r & Hr & Hin)%list_elem_of_fmap. by destruct r. }
  destruct l as [|x l]; cbn [fmap list_fmap] in *.
  - eexists. split; [done|]. rewrite <-Hno. simpl. split_and!; try done. apply NoDup_singleton.
  - eexists. split; [done|]. rewrite <-Hno. cbn [rd_ready rd_reason_codes rd_previous_epoch rd_new_owner_id].
    set (codes := readiness_reason_value x :: _) in *.
    assert (∃ c, c ∈ fromkeys codes) as [c Hc].
    { exists (readiness_reason_value x). apply fromkeys_elem. by left. }
    assert ("ready" ∉ fromkeys codes) by (by rewrite fromkeys_elem).
    refine (conj _ (conj _ (conj _ (conj _ (conj _ _))))); try done.
    + split; [done|]. intros E. rewrite E in *. set_solver.
    + apply fromkeys_NoDup.
Qed.

(** ** Theorems *)

(** C23: readiness is exactly the three independent gates.  With a minimum of
    2..64 replicas a decision is always returned; it is ready exactly when a
    confirmed fence of the previous owner, an acknowledged durable copy on the
    minimum number of replicas including the source, and a granted quorum with
    enough votes are all about the requested transition, and the fencing
    authority, the quorum authority and all witnesses are neither owners nor data
    replicas.  A blocked decision lists at least one reason, each once, and never
    [ready]. *)
Theorem evaluate_takeover_readiness_iff request fence replication quorum m :
  2 <= m <= MAX_REPLICA_IDS →
  ∃ d, evaluate_takeover_readiness (Inst request) fence replication quorum (PInt m) = Ok d
    ∧ (rd_ready d = true ↔ ∃ f r q, fence = Some f ∧ replication = Some r ∧ quorum = Some q
         ∧ ready_evidence request f r q m)
    ∧ (rd_ready d = true ↔ rd_reason_codes d = ["ready"])
    ∧ (rd_ready d = false → rd_reason_codes d ≠ [] ∧ "ready" ∉ rd_reason_codes d)
    ∧ NoDup (rd_reason_codes d)
    ∧ rd_previous_epoch d = tr_previous_epoch request
    ∧ rd_new_owner_id d = tr_new_owner_id request.
Proof. apply readiness_decided. Qed.

(** ** Sample evidence *)

Module ReadySample.
Definition request : TakeoverRequest :=
  mk_TakeoverRequest "lab" "job" "job-7" "node-a" 1 "node-b" TWO_NODE.
Definition scope : evidence_scope := mk_evidence_scope "lab" "job" "job-7" "node-a" 1.
Definition fence : OldOwnerFenceEvidence :=
  mk_OldOwnerFenceEvidence scope "fence-9" "power-authority" true.
Definition replication : DurableStateReplicationEvidence :=
  mk_ReplicationEvidence scope "repl-3"
    "0123456789abcdef0123456789abcdef0123456789abcdef0123456789abcdef" true true
    ["node-a"; "node-b"].
Definition quorum : IndependentQuorumDecision :=
  mk_QuorumDecision scope "vote-1" "witness-service" ["w1"; "w2"] 2 2 true.
End ReadySample.

Lemma evaluate_takeover_readiness_iff_witness :
  ∃ d, evaluate_takeover_readiness (Inst ReadySample.request) None
         (Some ReadySample.replication) (Some ReadySample.quorum) (PInt 2) = Ok d
    ∧ rd_reason_codes d = ["old_owner_fence_missing"] ∧ NoDup (rd_reason_codes d).
Proof.
  destruct (evaluate_takeover_readiness_iff ReadySample.request None
    (Some ReadySample.replication) (Some ReadySample.quorum) 2) as (d & Hd & H);
    [split; discriminate|].
  exists d. split; [exact Hd|]. split; [|apply H]. vm_compute in Hd. by injection Hd as <-.
Defined.
