(* ===== verification/ReplicationAck.v ===== *)
(** Acknowledgement policy for durable replication
    ([sonder_runtime/domain/replication_ack.py]).

    A frozen set of identities is a list without duplicates; the order of the
    receipts a caller passes is kept, because the loop over them fixes the order
    of the reasons. *)
From S2P Require Import Prelude PyFloat Sha256.

Local Open Scope Z_scope.

Definition _MAX_MEMBERS : Z := 1024.
Definition _MAX_ACKNOWLEDGEMENTS : Z := 1024.
Definition _MAX_EPOCH : Z := Z.shiftl 1 63 - 1.

Inductive ReplicationMode := LOCAL_SQLITE | POOLED_PAIR | REPLICATED_DATA_QUORUM.
Inductive ReplicaRole := DATA | ARBITRATION_WITNESS.
Inductive ReplicationState := ACKNOWLEDGED | LOCAL_ONLY | PAUSED | UNAVAILABLE.
Inductive ReplicationReason :=
  | LOCAL_SQLITE_ONLY
  | LOCAL_DURABILITY_MISSING
  | DATA_REPLICA_NOT_CONFIGURED
  | DATA_REPLICA_EVIDENCE_MISSING
  | DATA_QUORUM_REACHED
  | DATA_QUORUM_NOT_REACHED
  | ARBITRATION_WITNESS_NOT_DATA
  | REPLICA_NOT_AUTHORIZED
  | REPLICA_NOT_DISTINCT
  | REPLICA_NOT_DATA
  | REPLICA_UNREACHABLE
  | REPLICA_NOT_DURABLE
  | CONFLICTING_REPLICA_EVIDENCE
  | CLUSTER_MISMATCH
  | EVENT_ID_MISMATCH
  | SOURCE_NODE_MISMATCH
  | OWNER_ID_MISMATCH
  | OWNER_EPOCH_MISMATCH
  | LEASE_MISMATCH
  | EVENT_DIGEST_MISMATCH
  | PARTITION_PREVENTS_ACK.

#[export] Instance ReplicationMode_eq_dec : EqDecision ReplicationMode.
Proof. solve_decision. Defined.
#[export] Instance ReplicaRole_eq_dec : EqDecision ReplicaRole.
Proof. solve_decision. Defined.
#[export] Instance ReplicationState_eq_dec : EqDecision ReplicationState.
Proof. solve_decision. Defined.

Definition mode_value (m : ReplicationMode) : string :=
  match m with
  | LOCAL_SQLITE => "local_sqlite" | POOLED_PAIR => "pooled_pair"
  | REPLICATED_DATA_QUORUM => "replicated_data_quorum"
  end.
Definition mode_of_value (s : string) : option ReplicationMode :=
  List.find (λ m, String.eqb (mode_value m) s) [LOCAL_SQLITE; POOLED_PAIR; REPLICATED_DATA_QUORUM].
Definition role_value (r : ReplicaRole) : string :=
  match r with DATA => "data" | ARBITRATION_WITNESS => "arbitration_witness" end.
Definition role_of_value (s : string) : option ReplicaRole :=
  List.find (λ r, String.eqb (role_value r) s) [DATA; ARBITRATION_WITNESS].
Definition state_value (s : ReplicationState) : string :=
  match s with
  | ACKNOWLEDGED => "acknowledged" | LOCAL_ONLY => "local_only" | PAUSED => "paused"
  | UNAVAILABLE => "unavailable"
  end.
Definition replication_reason_value (r : ReplicationReason) : string :=
  match r with
  | LOCAL_SQLITE_ONLY => "local_sqlite_only"
  | LOCAL_DURABILITY_MISSING => "local_durability_missing"
  | DATA_REPLICA_NOT_CONFIGURED => "data_replica_not_configured"
  | DATA_REPLICA_EVIDENCE_MISSING => "data_replica_evidence_missing"
  | DATA_QUORUM_REACHED => "data_quorum_reached"
  | DATA_QUORUM_NOT_REACHED => "data_quorum_not_reached"
  | ARBITRATION_WITNESS_NOT_DATA => "arbitration_witness_not_data"
  | REPLICA_NOT_AUTHORIZED => "replica_not_authorized"
  | REPLICA_NOT_DISTINCT => "replica_not_distinct"
  | REPLICA_NOT_DATA => "replica_not_data"
  | REPLICA_UNREACHABLE => "replica_unreachable"
  | REPLICA_NOT_DURABLE => "replica_not_durable"
  | CONFLICTING_REPLICA_EVIDENCE => "conflicting_replica_evidence"
  | CLUSTER_MISMATCH => "cluster_mismatch"
  | EVENT_ID_MISMATCH => "event_id_mismatch"
  | SOURCE_NODE_MISMATCH => "source_node_mismatch"
  | OWNER_ID_MISMATCH => "owner_id_mismatch"
  | OWNER_EPOCH_MISMATCH => "owner_epoch_mismatch"
  | LEASE_MISMATCH => "lease_mismatch"
  | EVENT_DIGEST_MISMATCH => "event_digest_mismatch"
  | PARTITION_PREVENTS_ACK => "partition_prevents_ack"
  end.

(** ** Validators *)

Definition _identity (value : pyval) (field : string) : res string :=
  check_str is_identity ValueError (field +:+ " must be a bounded stable identity") value.
Definition _digest (value : pyval) (field : string) : res string :=
  check_str is_digest ValueError (field +:+ " must be a lowercase SHA-256 digest") value.
Definition _positive (value : pyval) (field : string) : res Z :=
  check_int 1 _MAX_EPOCH ValueError (field +:+ " must be within 1.." +:+ pretty _MAX_EPOCH) value.
Definition _strict_bool (value : pyval) (field : string) : res bool :=
  check_bool ValueError (field +:+ " must be boolean") value.

Definition _members (value : pyval) (field : string) : res (list string) :=
  match py_iter value with
  | None => throw ValueError (field +:+ " must be a bounded collection of identities")
  | Some values =>
      _ ← require (negb (_MAX_MEMBERS <? zlen values)) ValueError
            (field +:+ " exceeds the member bound");
      normalized ← mapM_res (λ v, _identity v (field +:+ " member")) values;
      _ ← require (no_dups normalized) ValueError (field +:+ " must not contain duplicates");
      Ok normalized
  end.

(** ** Events and receipts *)

Record ControlEvent := mk_ControlEvent {
  ce_cluster_id : string;
  ce_event_id : string;
  ce_source_node_id : string;
  ce_owner_id : string;
  ce_owner_epoch : Z;
  ce_lease_id : string;
  ce_event_digest : string
}.

Definition ControlEvent_init
    (cluster_id event_id source_node_id owner_id owner_epoch lease_id event_digest : pyval)
  : res ControlEvent :=
  cluster ← _identity cluster_id "cluster_id";
  event ← _identity event_id "event_id";
  source ← _identity source_node_id "source_node_id";
  owner ← _identity owner_id "owner_id";
  epoch ← _positive owner_epoch "owner_epoch";
  lease ← _identity lease_id "lease_id";
  digest ← _digest event_digest "event_digest";
  Ok (mk_ControlEvent cluster event source owner epoch lease digest).

Record ReplicaAcknowledgement := mk_ReplicaAcknowledgement {
  ra_acknowledgement_id : string;
  ra_cluster_id : string;
  ra_event_id : string;
  ra_source_node_id : string;
  ra_replica_id : string;
  ra_role : ReplicaRole;
  ra_authorized : bool;
  ra_reachable : bool;
  ra_durable : bool;
  ra_owner_id : string;
  ra_owner_epoch : Z;
  ra_lease_id : string;
  ra_event_digest : string
}.

Definition ReplicaAcknowledgement_init
    (acknowledgement_id cluster_id event_id source_node_id replica_id role authorized reachable
     durable owner_id owner_epoch lease_id event_digest : pyval) : res ReplicaAcknowledgement :=
  ack ← _identity acknowledgement_id "acknowledgement_id";
  cluster ← _identity cluster_id "cluster_id";
  event ← _identity event_id "event_id";
  source ← _identity source_node_id "source_node_id";
  replica ← _identity replica_id "replica_id";
  r ← check_enum role_of_value ValueError "role must be data or arbitration_witness" role;
  a ← _strict_bool authorized "authorized";
  re ← _strict_bool reachable "reachable";
  d ← _strict_bool durable "durable";
  owner ← _identity owner_id "owner_id";
  epoch ← _positive owner_epoch "owner_epoch";
  lease ← _identity lease_id "lease_id";
  digest ← _digest event_digest "event_digest";
  Ok (mk_ReplicaAcknowledgement ack cluster event source replica r a re d owner epoch lease digest).

(** [text[:n]] of an ASCII text. *)
Definition text_take (n : nat) (s : string) : string := String.substring 0 n s.

(** [replica_id] is text; the identifier defaults to a digest of the pair. *)
Definition ReplicaAcknowledgement_for_event (event : dyn ControlEvent) (replica_id : string)
    (acknowledgement_id : option pyval) (role authorized reachable durable : pyval)
  : res ReplicaAcknowledgement :=
  match event with
  | Foreign => throw ValueError "event must be a ControlEvent"
  | Inst e =>
      let ack_id := match acknowledgement_id with
        | Some v => v
        | None => PStr ("ack-" +:+ text_take 32
                          (sha256_hex (ce_event_id e +:+ ":" +:+ replica_id)))
        end in
      ReplicaAcknowledgement_init ack_id (PStr (ce_cluster_id e)) (PStr (ce_event_id e))
        (PStr (ce_source_node_id e)) (PStr replica_id) role authorized reachable durable
        (PStr (ce_owner_id e)) (PInt (ce_owner_epoch e)) (PStr (ce_lease_id e))
        (PStr (ce_event_digest e))
  end.

Record fingerprint := mk_fingerprint {
  fp_cluster_id : string;
  fp_event_id : string;
  fp_source_node_id : string;
  fp_replica_id : string;
  fp_role : ReplicaRole;
  fp_authorized : bool;
  fp_reachable : bool;
  fp_durable : bool;
  fp_owner_id : string;
  fp_owner_epoch : Z;
  fp_lease_id : string;
  fp_event_digest : string
}.
#[export] Instance fingerprint_eq_dec : EqDecision fingerprint.
Proof. solve_decision. Defined.

Definition ReplicaAcknowledgement_fingerprint (a : ReplicaAcknowledgement) : fingerprint :=
  mk_fingerprint (ra_cluster_id a) (ra_event_id a) (ra_source_node_id a) (ra_replica_id a)
    (ra_role a) (ra_authorized a) (ra_reachable a) (ra_durable a) (ra_owner_id a)
    (ra_owner_epoch a) (ra_lease_id a) (ra_event_digest a).

Record ReplicationDecision := mk_ReplicationDecision {
  rp_mode : ReplicationMode;
  rp_state : ReplicationState;
  rp_acknowledged : bool;
  rp_local_durable : bool;
  rp_data_replica_count : Z;
  rp_required_data_replicas : Z;
  rp_replica_ids : list string;
  rp_reason_codes : list string;
  rp_event_digest : string;
  rp_owner_epoch : Z;
  rp_lease_id : string
}.

Definition ReplicationDecision_replicated (d : ReplicationDecision) : bool := rp_acknowledged d.
Definition ReplicationDecision_available (d : ReplicationDecision) : bool :=
  bool_decide (rp_state d = ACKNOWLEDGED).
Definition ReplicationDecision_paused (d : ReplicationDecision) : bool :=
  bool_decide (rp_state d = PAUSED).
Definition ReplicationDecision_unavailable (d : ReplicationDecision) : bool :=
  bool_decide (rp_state d = UNAVAILABLE).
Definition ReplicationDecision_takeover_safe (d : ReplicationDecision) : bool := false.

Definition ReplicationDecision_as_dict (d : ReplicationDecision) : pyval :=
  PDict [(PStr "mode", PStr (mode_value (rp_mode d)));
         (PStr "state", PStr (state_value (rp_state d)));
         (PStr "acknowledged", PBool (rp_acknowledged d));
         (PStr "replicated", PBool (ReplicationDecision_replicated d));
         (PStr "local_durable", PBool (rp_local_durable d));
         (PStr "data_replica_count", PInt (rp_data_replica_count d));
         (PStr "required_data_replicas", PInt (rp_required_data_replicas d));
         (PStr "replica_ids", PList (PStr <$> rp_replica_ids d));
         (PStr "reason_codes", PList (PStr <$> rp_reason_codes d));
         (PStr "event_digest", PStr (rp_event_digest d));
         (PStr "owner_epoch", PInt (rp_owner_epoch d));
         (PStr "lease_id", PStr (rp_lease_id d));
         (PStr "takeover_safe", PBool (ReplicationDecision_takeover_safe d))].

(** ** The policy *)

Record Policy := mk_Policy {
  po_mode : ReplicationMode;
  po_local_node_id : string;
  po_authorized_data_replica_ids : list string;
  po_arbitration_witness_ids : list string;
  po_required_data_replicas : Z
}.

Definition default_required (m : ReplicationMode) : Z :=
  match m with LOCAL_SQLITE => 0 | POOLED_PAIR => 1 | REPLICATED_DATA_QUORUM => 2 end.

Definition Policy_init (mode local_node_id authorized_data_replica_ids arbitration_witness_ids
    required_data_replicas : pyval) : res Policy :=
  m ← check_enum mode_of_value ValueError
        "mode must be local_sqlite, pooled_pair, or replicated_data_quorum" mode;
  local ← _identity local_node_id "local_node_id";
  data_ids ← _members authorized_data_replica_ids "authorized_data_replica_ids";
  witness_ids ← _members arbitration_witness_ids "arbitration_witness_ids";
  _ ← require (negb (mem local data_ids || mem local witness_ids)) ValueError
        "local node cannot be listed as a replica or witness";
  _ ← require (negb (meets data_ids witness_ids)) ValueError
        "data replicas and arbitration witnesses must be disjoint";
  required ← match required_data_replicas with
             | PNone => Ok (default_required m)
             | v => check_int 0 _MAX_MEMBERS ValueError
                      "required_data_replicas must be a bounded non-negative integer" v
             end;
  _ ← require (negb (bool_decide (m = LOCAL_SQLITE) && negb (required =? 0))) ValueError
        "local_sqlite requires required_data_replicas=0";
  _ ← require (negb (bool_decide (m = POOLED_PAIR) && negb (required =? 1))) ValueError
        "pooled_pair requires required_data_replicas=1";
  _ ← require (negb (bool_decide (m = REPLICATED_DATA_QUORUM) && (required <? 2))) ValueError
        "replicated_data_quorum requires required_data_replicas>=2";
  Ok (mk_Policy m local data_ids witness_ids required).

(** [add(reason)] *)
Definition add (reasons : list string) (r : ReplicationReason) : list string :=
  add_once reasons (replication_reason_value r).

Definition add_if (cond : bool) (r : ReplicationReason) (reasons : list string) : list string :=
  if cond then add reasons r else reasons.

(** The checks of one receipt, in order, each with its reason. *)
Definition receipt_checks (self : Policy) (event : ControlEvent) (replica_id : string)
    (ack : ReplicaAcknowledgement) : list (bool * ReplicationReason) :=
  [ (negb (String.eqb (ra_cluster_id ack) (ce_cluster_id event)), CLUSTER_MISMATCH);
    (negb (String.eqb (ra_event_id ack) (ce_event_id event)), EVENT_ID_MISMATCH);
    (negb (String.eqb (ra_source_node_id ack) (ce_source_node_id event)), SOURCE_NODE_MISMATCH);
    (negb (String.eqb (ra_owner_id ack) (ce_owner_id event)), OWNER_ID_MISMATCH);
    (negb (ra_owner_epoch ack =? ce_owner_epoch event), OWNER_EPOCH_MISMATCH);
    (negb (String.eqb (ra_lease_id ack) (ce_lease_id event)), LEASE_MISMATCH);
    (negb (String.eqb (ra_event_digest ack) (ce_event_digest event)), EVENT_DIGEST_MISMATCH);
    (String.eqb replica_id (po_local_node_id self)
     || String.eqb replica_id (ce_source_node_id event), REPLICA_NOT_DISTINCT);
    (mem replica_id (po_arbitration_witness_ids self)
     || bool_decide (ra_role ack = ARBITRATION_WITNESS), ARBITRATION_WITNESS_NOT_DATA);
    (negb (mem replica_id (po_authorized_data_replica_ids self)), REPLICA_NOT_AUTHORIZED);
    (negb (bool_decide (ra_role ack = DATA)), REPLICA_NOT_DATA);
    (negb (ra_authorized ack), REPLICA_NOT_AUTHORIZED);
    (negb (ra_reachable ack), REPLICA_UNREACHABLE);
    (negb (ra_durable ack), REPLICA_NOT_DURABLE) ].

(** The variables the loop over the groups updates. *)
Record loop_state := mk_loop_state {
  ls_reasons : list string;
  ls_valid_ids : list string;
  ls_saw_unreachable : bool
}.

Definition group_of (receipts : list ReplicaAcknowledgement) (replica_id : string)
  : list ReplicaAcknowledgement :=
  filter (λ a, ra_replica_id a = replica_id) receipts.

(** [by_replica], in the order the replicas first appear. *)
Definition by_replica (receipts : list ReplicaAcknowledgement)
  : list (string * list ReplicaAcknowledgement) :=
  (λ r, (r, group_of receipts r)) <$> fromkeys (ra_replica_id <$> receipts).

Definition group_step (self : Policy) (event : ControlEvent) (st : loop_state)
    (entry : string * list ReplicaAcknowledgement) : loop_state :=
  let '(replica_id, grouped) := entry in
  let fingerprints := remove_dups (ReplicaAcknowledgement_fingerprint <$> grouped) in
  match grouped with
  | ack :: _ =>
      if negb (length fingerprints =? 1)%nat then
        mk_loop_state (add (ls_reasons st) CONFLICTING_REPLICA_EVIDENCE) (ls_valid_ids st)
          (ls_saw_unreachable st)
      else
        let checks := receipt_checks self event replica_id ack in
        mk_loop_state
          (foldl (λ rs c, add_if c.1 c.2 rs) (ls_reasons st) checks)
          (if existsb fst checks then ls_valid_ids st else ls_valid_ids st ++ [replica_id])
          (ls_saw_unreachable st || negb (ra_reachable ack))
  | [] => st
  end.

Definition _decision (self : Policy) (event : ControlEvent) (state : ReplicationState)
    (acknowledged local_durable : bool) (count : Z) (replica_ids reasons : list string)
  : ReplicationDecision :=
  mk_ReplicationDecision (po_mode self) state acknowledged local_durable count
    (po_required_data_replicas self) replica_ids reasons (ce_event_digest event)
    (ce_owner_epoch event) (ce_lease_id event).

(** [v == b] for a boolean [b]. *)
Definition equals_bool (v : pyval) (b : bool) : bool :=
  match py_num v with
  | Some x => num_eqb x (NInt (Z.b2z b))
  | None => match v with PBool c => Bool.eqb c b | _ => false end
  end.

(** The part of [evaluate] after the arguments were validated. *)
Definition evaluate_evidence (self : Policy) (event : ControlEvent)
    (receipts : list ReplicaAcknowledgement) (local_durable partitioned : bool)
  : ReplicationDecision :=
  let reasons := add_if (negb local_durable) LOCAL_DURABILITY_MISSING [] in
  let required := po_required_data_replicas self in
  if bool_decide (po_mode self = LOCAL_SQLITE) then
    _decision self event (if local_durable then LOCAL_ONLY else UNAVAILABLE) false local_durable 0
      [] (add reasons LOCAL_SQLITE_ONLY)
  else if (length (po_authorized_data_replica_ids self) =? 0)%nat then
    _decision self event (if negb local_durable then PAUSED else UNAVAILABLE) false local_durable
      0 [] (add reasons DATA_REPLICA_NOT_CONFIGURED)
  else
    let st := foldl (group_step self event) (mk_loop_state reasons [] false)
                (by_replica receipts) in
    let valid_ids := sorted_text (ls_valid_ids st) in
    let count := zlen valid_ids in
    let reached := (required <=? count) && (0 <? required) in
    let split := partitioned || ls_saw_unreachable st in
    let reasons := add_if (count =? 0) DATA_REPLICA_EVIDENCE_MISSING (ls_reasons st) in
    let reasons := if reached then add reasons DATA_QUORUM_REACHED
                   else add_if (0 <? count) DATA_QUORUM_NOT_REACHED reasons in
    let reasons := add_if split PARTITION_PREVENTS_ACK reasons in
    let '(state, acknowledged) :=
      if negb local_durable then (PAUSED, false)
      else if reached && negb split then (ACKNOWLEDGED, true)
      else if split || (0 <? count) then (PAUSED, false)
      else (UNAVAILABLE, false) in
    _decision self event state acknowledged local_durable count valid_ids reasons.

(** [acknowledgements] is [None] when the argument is not iterable. *)
Definition evaluate (self : Policy) (event : dyn ControlEvent)
    (acknowledgements : option (list (dyn ReplicaAcknowledgement)))
    (local_durable : pyval) (local_commit_durable : option bool) (partitioned : pyval)
  : res ReplicationDecision :=
  match event with
  | Foreign => throw ValueError "event must be a ControlEvent"
  | Inst e =>
      chosen ← match local_durable, local_commit_durable with
               | PNone, Some b => Ok (PBool b)
               | PNone, None => Ok (PBool false)
               | v, Some b => _ ← require (equals_bool v b) ValueError
                                    "local_durable and local_commit_durable disagree";
                              Ok v
               | v, None => Ok v
               end;
      durable ← _strict_bool chosen "local_durable";
      split ← _strict_bool partitioned "partitioned";
      match acknowledgements with
      | None => throw ValueError "acknowledgements must be a bounded collection"
      | Some l =>
          _ ← require (negb (_MAX_ACKNOWLEDGEMENTS <? zlen l)) ValueError
                "acknowledgements exceed the evidence bound";
          receipts ← mapM_res (λ a : dyn ReplicaAcknowledgement, match a with
              | Inst x => Ok x
              | Foreign => throw ValueError
                             "acknowledgements must contain ReplicaAcknowledgement values"
              end) l;
          Ok (evaluate_evidence self e receipts durable split)
      end
  end.

(** [assess] is an alias of [evaluate]. *)
Definition assess := evaluate.

Arguments evaluate : simpl never.
Arguments evaluate_evidence : simpl never.
Arguments receipt_checks : simpl never.

(** ** What counts as a data copy *)

(** The only evidence that counts for replica [x]. *)
Definition expected_fingerprint (e : ControlEvent) (x : string) : fingerprint :=
  mk_fingerprint (ce_cluster_id e) (ce_event_id e) (ce_source_node_id e) x DATA true true true
    (ce_owner_id e) (ce_owner_epoch e) (ce_lease_id e) (ce_event_digest e).

(** All receipts of [x] carry the fingerprint [fp], and there is one. *)
Definition consistent (receipts : list ReplicaAcknowledgement) (x : string) (fp : fingerprint)
  : Prop :=
  (∃ a, a ∈ receipts ∧ ra_replica_id a = x)
  ∧ ∀ a, a ∈ receipts → ra_replica_id a = x → ReplicaAcknowledgement_fingerprint a = fp.

Record counts (self : Policy) (e : ControlEvent) (receipts : list ReplicaAcknowledgement)
    (x : string) : Prop := {
  ct_evidence : consistent receipts x (expected_fingerprint e x);
  ct_not_local : x ≠ po_local_node_id self;
  ct_not_source : x ≠ ce_source_node_id e;
  ct_not_witness : x ∉ po_arbitration_witness_ids self;
  ct_authorized : x ∈ po_authorized_data_replica_ids self
}.

Definition unreachable (receipts : list ReplicaAcknowledgement) (x : string) : Prop :=
  ∃ fp, consistent receipts x fp ∧ fp_reachable fp = false.

(** ** The loop *)

Definition same_evidence (grouped : list ReplicaAcknowledgement) : bool :=
  (length (remove_dups (ReplicaAcknowledgement_fingerprint <$> grouped)) =? 1)%nat.

Definition group_valid (self : Policy) (e : ControlEvent)
    (receipts : list ReplicaAcknowledgement) (x : string) : bool :=
  match group_of receipts x with
  | ack :: _ => same_evidence (group_of receipts x)
                && negb (existsb fst (receipt_checks self e x ack))
  | [] => false
  end.

Definition group_unreachable (receipts : list ReplicaAcknowledgement) (x : string) : bool :=
  match group_of receipts x with
  | ack :: _ => same_evidence (group_of receipts x) && negb (ra_reachable ack)
  | [] => false
  end.

Lemma loop_result self e receipts keys st :
  let st' := foldl (group_step self e) st ((λ r, (r, group_of receipts r)) <$> keys) in
  ls_valid_ids st'
    = ls_valid_ids st ++ filter (λ x, group_valid self e receipts x = true) keys
  ∧ ls_saw_unreachable st'
    = ls_saw_unreachable st || existsb (group_unreachable receipts) keys.
Proof.
  revert st. induction keys as [|x keys IH]; intros st; cbv zeta.
  - simpl. by rewrite app_nil_r, orb_false_r.
  - rewrite fmap_cons. cbn [foldl existsb]. destruct (IH (group_step self e st (x, group_of receipts x))) as [-> ->].
    pose proof (eq_refl (group_valid self e receipts x)) as Hv. unfold group_valid at 1 in Hv.
    pose proof (eq_refl (group_unreachable receipts x)) as Hu.
    unfold group_unreachable at 1 in Hu. unfold group_step, same_evidence in *.
    rewrite filter_cons. destruct (group_of receipts x) as [|ack g].
    + rewrite <-Hv, <-Hu. done.
    + revert Hv. generalize (existsb fst (receipt_checks self e x ack)). intros fails Hv.
      destruct (_ =? 1)%nat; simpl in Hv, Hu |- *; rewrite <-Hv, <-Hu; [|done].
      destruct fails; simpl; split; first [by rewrite <-?app_assoc|by rewrite <-orb_assoc].
Qed.

Lemma group_consistent receipts x ack g :
  group_of receipts x = ack :: g →
  ra_replica_id ack = x
  ∧ (same_evidence (ack :: g) = true
     ↔ consistent receipts x (ReplicaAcknowledgement_fingerprint ack)).
Proof.
  intros Hg.
  assert (∀ a, a ∈ ack :: g ↔ ra_replica_id a = x ∧ a ∈ receipts) as Hin
    by (intros a; rewrite <-Hg; unfold group_of; by rewrite list_elem_of_filter).
  pose proof (proj1 (Hin ack) ltac:(by left)) as [Hx Hr]. split; [done|].
  unfold same_evidence. rewrite fmap_cons, remove_dups_one. split.
  - intros H. split; [by exists ack|]. intros a Ha Hax.
    pose proof (proj2 (Hin a) (conj Hax Ha)) as [->|Ha']%elem_of_cons; [done|].
    apply H. by apply list_elem_of_fmap_2.
  - intros [_ H] y (a & -> & Ha)%list_elem_of_fmap.
    destruct (proj1 (Hin a) ltac:(by right)). by apply H.
Qed.

Lemma group_of_nil receipts x :
  group_of receipts x = [] ↔ ∀ a, a ∈ receipts → ra_replica_id a ≠ x.
Proof.
  unfold group_of. split.
  - intros H a Ha Hx. assert (a ∈ filter (λ a, ra_replica_id a = x) receipts) as Hin
      by (by apply list_elem_of_filter). rewrite H in Hin. by apply elem_of_nil in Hin.
  - intros H. destruct (filter _ receipts) as [|a l] eqn:E; [done|].
    assert (a ∈ filter (λ a, ra_replica_id a = x) receipts) as Hin by (rewrite E; by left).
    apply list_elem_of_filter in Hin as [? ?]. by destruct (H a).
Qed.

Lemma checks_pass self e x ack :
  ra_replica_id ack = x →
  (existsb fst (receipt_checks self e x ack) = false) ↔
  (ReplicaAcknowledgement_fingerprint ack = expected_fingerprint e x
   ∧ x ≠ po_local_node_id self ∧ x ≠ ce_source_node_id e
   ∧ (x ∉ po_arbitration_witness_ids self) ∧ x ∈ po_authorized_data_replica_ids self).
Proof.
  intros Hx. unfold receipt_checks. simpl.
  rewrite !orb_false_iff, !negb_false_iff, !String.eqb_eq, !String.eqb_neq, Z.eqb_eq.
  rewrite !bool_decide_eq_true, !bool_decide_eq_false, mem_spec, mem_false.
  unfold ReplicaAcknowledgement_fingerprint, expected_fingerprint.
  destruct ack; simpl in *. subst. split.
  - intros H. destruct_and! H. subst. done.
  - intros (H & ? & ? & ? & ?). injection H as -> -> -> -> -> -> -> -> -> -> ->. done.
Qed.

Lemma group_valid_spec self e receipts x :
  group_valid self e receipts x = true ↔ counts self e receipts x.
Proof.
  unfold group_valid. destruct (group_of receipts x) as [|ack g] eqn:Hg.
  - split; [done|]. intros [[(a & Ha & Hax) _] _ _ _ _].
    by destruct (proj1 (group_of_nil _ _) Hg _ Ha).
  - destruct (group_consistent _ _ _ _ Hg) as [Hx Hs].
    rewrite andb_true_iff, negb_true_iff, Hs, checks_pass by done. split.
    + intros (Hc & Hf & ? & ? & ? & ?). rewrite Hf in Hc. by split.
    + intros [Hc ? ? ? ?]. assert (ReplicaAcknowledgement_fingerprint ack = expected_fingerprint e x) as Hf.
      { apply Hc; [|done]. assert (ack ∈ group_of receipts x) as Ha by (rewrite Hg; by left).
        unfold group_of in Ha. by apply list_elem_of_filter in Ha as [_ ?]. }
      by rewrite Hf.
Qed.

Lemma group_unreachable_spec receipts x :
  group_unreachable receipts x = true ↔ unreachable receipts x.
Proof.
  unfold group_unreachable, unreachable. destruct (group_of receipts x) as [|ack g] eqn:Hg.
  - split; [done|]. intros (fp & [(a & Ha & Hax) _] & _).
    by destruct (proj1 (group_of_nil _ _) Hg _ Ha).
  - destruct (group_consistent _ _ _ _ Hg) as [Hx Hs].
    rewrite andb_true_iff, negb_true_iff, Hs. split.
    + intros [Hc Hr]. by exists (ReplicaAcknowledgement_fingerprint ack).
    + intros (fp & Hc & Hr). assert (ReplicaAcknowledgement_fingerprint ack = fp) as Hf.
      { apply Hc; [|done]. assert (ack ∈ group_of receipts x) as Ha by (rewrite Hg; by left).
        unfold group_of in Ha. by apply list_elem_of_filter in Ha as [_ ?]. }
      by subst fp.
Qed.

(** ** The decision *)

Lemma valid_ids_spec self e receipts st :
  ls_valid_ids st = [] → ls_saw_unreachable st = false →
  let st' := foldl (group_step self e) st (by_replica receipts) in
  NoDup (sorted_text (ls_valid_ids st'))
  ∧ StronglySorted (λ a b, String.leb a b = true) (sorted_text (ls_valid_ids st'))
  ∧ (∀ x, x ∈ sorted_text (ls_valid_ids st') ↔ counts self e receipts x)
  ∧ (ls_saw_unreachable st' = true ↔ ∃ x, unreachable receipts x).
Proof.
  intros Hv Hs st'. unfold st', by_replica.
  destruct (loop_result self e receipts (fromkeys (ra_replica_id <$> receipts)) st) as [-> ->].
  rewrite Hv, Hs. simpl. unfold sorted_text.
  set (ids := filter _ _). assert (∀ x, x ∈ ids ↔ counts self e receipts x) as Hids.
  { intros x. unfold ids. rewrite list_elem_of_filter, group_valid_spec, fromkeys_elem.
    split; [by intros [? _]|]. intros Hc. split; [done|]. destruct Hc as [[(a & Ha & <-) _] _ _ _ _].
    by apply list_elem_of_fmap_2. }
  split_and!.
  - rewrite sort_by_Permutation. apply NoDup_filter, fromkeys_NoDup.
  - apply sort_by_sorted, _.
  - intros x. by rewrite sort_by_Permutation.
  - rewrite existsb_exists. split.
    + intros (x & _ & Hx). exists x. by apply group_unreachable_spec.
    + intros (x & Hx). exists x. split; [|by apply group_unreachable_spec].
      apply list_elem_of_In, fromkeys_elem. destruct Hx as (fp & [(a & Ha & <-) _] & _).
      by apply list_elem_of_fmap_2.
Qed.

(** A policy its constructor accepted. *)
Record wf_policy (p : Policy) : Prop := {
  wp_required : 0 <= po_required_data_replicas p <= _MAX_MEMBERS;
  wp_local : po_mode p = LOCAL_SQLITE ↔ po_required_data_replicas p = 0;
  wp_pair : po_mode p = POOLED_PAIR ↔ po_required_data_replicas p = 1;
  wp_disjoint : ∀ x, x ∈ po_authorized_data_replica_ids p → x ∉ po_arbitration_witness_ids p;
  wp_remote : po_local_node_id p ∉ po_authorized_data_replica_ids p;
  wp_members : NoDup (po_authorized_data_replica_ids p)
}.

Lemma members_ok v field l : _members v field = Ok l → NoDup l ∧ zlen l <= _MAX_MEMBERS.
Proof.
  unfold _members. destruct (py_iter v) as [vs|]; [|done]. intros H. res_inv. to_prop.
  split; [done|]. match goal with H : Forall2 _ _ _ |- _ => apply Forall2_length in H end.
  unfold zlen in *. lia.
Qed.

Lemma Policy_init_wf a b c d r p : Policy_init a b c d r = Ok p → wf_policy p.
Proof.
  unfold Policy_init. intros H. res_inv.
  repeat match goal with H : _members _ _ = Ok _ |- _ => apply members_ok in H as [? ?] end.
  assert (0 <= a6 <= _MAX_MEMBERS) as Hr.
  { destruct r; res_inv; try done; repeat case_match; simplify_eq/=; unfold _MAX_MEMBERS; try lia;
    destruct a0; simpl; lia. }
  to_prop. destruct a0; simpl in *; to_prop; split; simpl; try done;
    repeat case_bool_decide; to_prop; try done; split; intros; try done; try lia.
Qed.

(** Everything an evaluation says except its reasons. *)
Lemma evidence_decided self e receipts ld part :
  wf_policy self →
  let d := evaluate_evidence self e receipts ld part in
  rp_data_replica_count d = zlen (rp_replica_ids d)
  ∧ NoDup (rp_replica_ids d)
  ∧ StronglySorted (λ a b, String.leb a b = true) (rp_replica_ids d)
  ∧ (∀ x, x ∈ rp_replica_ids d ↔ po_mode self ≠ LOCAL_SQLITE ∧ counts self e receipts x)
  ∧ (rp_acknowledged d = true ↔
       po_mode self ≠ LOCAL_SQLITE ∧ ld = true ∧ part = false
       ∧ po_required_data_replicas self <= zlen (rp_replica_ids d)
       ∧ ¬ ∃ x, unreachable receipts x)
  ∧ (rp_state d = ACKNOWLEDGED ↔ rp_acknowledged d = true)
  ∧ (rp_state d = LOCAL_ONLY ↔ po_mode self = LOCAL_SQLITE ∧ ld = true).
Proof.
  intros Hw d. unfold d, evaluate_evidence.
  case_bool_decide as Hm.
  { simpl. split_and!; try done; try constructor; try (by destruct ld); try naive_solver.
    all: try (by intros ?%elem_of_nil). }
  assert (0 < po_required_data_replicas self) as Hreq.
  { destruct Hw as [Hr Hl _ _ _ _]. destruct (decide (po_required_data_replicas self = 0)); [|lia].
    by destruct Hm; apply Hl. }
  destruct (length _ =? 0)%nat eqn:Hlen.
  { apply Nat.eqb_eq, length_zero_iff_nil in Hlen.
    assert (∀ x, ¬ counts self e receipts x) as Hno.
    { intros x [_ _ _ _ Hx]. rewrite Hlen in Hx. by apply elem_of_nil in Hx. }
    simpl. unfold zlen; simpl. split_and!; try done; try constructor; try (by destruct ld);
      try (by intros ?%elem_of_nil); try naive_solver; try lia. }
  set (st := mk_loop_state _ [] false).
  destruct (valid_ids_spec self e receipts st eq_refl eq_refl) as (Hnd & Hsort & Hin & Hsaw).
  set (st' := foldl _ st _) in *. set (ids := sorted_text _) in *. cbv zeta.
  rewrite (proj2 (Z.ltb_lt 0 _) Hreq), andb_true_r.
  destruct (if negb ld then (PAUSED, false) else _) as [state ack] eqn:Eo.
  cbn [rp_data_replica_count rp_replica_ids rp_acknowledged rp_state _decision].
  split; [done|]. split; [done|]. split; [done|].
  split; [intros x; rewrite Hin; naive_solver|].
  assert (state = ACKNOWLEDGED ↔ ack = true) as Hst
    by (clear -Eo; cases_if; by simplify_eq/=).
  assert (state ≠ LOCAL_ONLY) as Hlo by (clear -Eo; cases_if; by simplify_eq/=).
  split; [|split; [done|naive_solver]].
  rewrite <-Hsaw, not_true_iff_false. clear -Eo Hm.
  destruct (Z.leb_spec (po_required_data_replicas self) (zlen ids)), ld, part,
    (ls_saw_unreachable st'); simpl in Eo; cases_if; simplify_eq/=;
    split; intros; destruct_and?; try done; lia.
Qed.

Lemma evaluate_run self e receipts ld part :
  zlen receipts <= _MAX_ACKNOWLEDGEMENTS →
  evaluate self (Inst e) (Some (Inst <$> receipts)) (PBool ld) None (PBool part)
  = Ok (evaluate_evidence self e receipts ld part).
Proof.
  intros Hl. unfold evaluate. simpl. rewrite bind_Ok with (a := tt).
  2:{ apply require_true, negb_true_iff, Z.ltb_ge. unfold zlen in *. by rewrite length_fmap. }
  rewrite (bind_Ok _ _ receipts); [done|]. apply mapM_res_ok, Forall2_fmap_l.
  by apply Forall_Forall2_diag, Forall_forall.
Qed.

Lemma sorted_text_unique l k :
  NoDup l → NoDup k → (∀ x, x ∈ l ↔ x ∈ k) →
  StronglySorted (λ a b, String.leb a b = true) l →
  StronglySorted (λ a b, String.leb a b = true) k → l = k.
Proof.
  intros Hl Hk He Sl Sk. eapply (StronglySorted_unique_strong (λ a b, String.leb a b = true));
    [|exact Sl|exact Sk|by apply NoDup_Permutation].
  intros x y _ _ Hxy Hyx. by apply String.leb_antisym.
Qed.

Lemma evaluate_inv self e receipts ld part d :
  evaluate self (Inst e) (Some (Inst <$> receipts)) (PBool ld) None (PBool part) = Ok d →
  d = evaluate_evidence self e receipts ld part.
Proof.
  intros H. assert (zlen receipts <= _MAX_ACKNOWLEDGEMENTS) as Hl.
  { unfold evaluate in H. simpl in H. apply bind_ok in H as (? & Hl & _).
    apply require_ok, negb_true_iff, Z.ltb_ge in Hl. unfold zlen in *. by rewrite length_fmap in Hl. }
  rewrite evaluate_run in H by done. by injection H.
Qed.

(** Consistency is a matter of the fingerprints alone. *)
Lemma consistent_fingerprints receipts x fp :
  consistent receipts x fp ↔
  (∃ f, f ∈ ReplicaAcknowledgement_fingerprint <$> receipts ∧ fp_replica_id f = x)
  ∧ ∀ f, f ∈ ReplicaAcknowledgement_fingerprint <$> receipts → fp_replica_id f = x → f = fp.
Proof.
  unfold consistent. setoid_rewrite list_elem_of_fmap. split.
  - intros [(a & Ha & Hx) Hall]. split; [by exists (ReplicaAcknowledgement_fingerprint a); eauto|].
    intros f (a' & -> & Ha') Hx'. by apply Hall.
  - intros [(f & (a & -> & Ha) & Hx) Hall]. split; [by exists a|].
    intros a' Ha' Hx'. apply Hall; eauto.
Qed.

Section SameEvidence.
Context (self : Policy) (e : ControlEvent) (receipts receipts' : list ReplicaAcknowledgement).
Context (Hfp : ∀ fp, fp ∈ ReplicaAcknowledgement_fingerprint <$> receipts
                     ↔ fp ∈ ReplicaAcknowledgement_fingerprint <$> receipts').

Lemma consistent_same x fp : consistent receipts x fp ↔ consistent receipts' x fp.
Proof. rewrite !consistent_fingerprints. by setoid_rewrite Hfp. Qed.

Lemma counts_same x : counts self e receipts x ↔ counts self e receipts' x.
Proof. split; intros [? ? ? ? ?]; split; try done; by apply consistent_same. Qed.

Lemma loop_same st :
  ls_valid_ids st = [] → ls_saw_unreachable st = false →
  let run l := foldl (group_step self e) st (by_replica l) in
  sorted_text (ls_valid_ids (run receipts)) = sorted_text (ls_valid_ids (run receipts'))
  ∧ ls_saw_unreachable (run receipts) = ls_saw_unreachable (run receipts').
Proof.
  intros Hv Hs run.
  destruct (valid_ids_spec self e receipts st Hv Hs) as (N1 & S1 & I1 & U1).
  destruct (valid_ids_spec self e receipts' st Hv Hs) as (N2 & S2 & I2 & U2). split.
  - apply sorted_text_unique; try done. intros x. unfold run. by rewrite I1, I2, counts_same.
  - apply eq_iff_eq_true. unfold run. rewrite U1, U2. unfold unreachable.
    by setoid_rewrite consistent_same.
Qed.

Lemma evidence_same ld part :
  let d := evaluate_evidence self e receipts ld part in
  let d' := evaluate_evidence self e receipts' ld part in
  rp_state d = rp_state d' ∧ rp_acknowledged d = rp_acknowledged d'
  ∧ rp_replica_ids d = rp_replica_ids d' ∧ rp_data_replica_count d = rp_data_replica_count d'.
Proof.
  unfold evaluate_evidence. case_bool_decide; [done|]. destruct (_ =? 0)%nat; [done|].
  set (st := mk_loop_state _ [] false).
  destruct (loop_same st eq_refl eq_refl) as [E1 E2]. cbv zeta in E1, E2 |- *.
  rewrite E1, E2. by destruct (if negb ld then (PAUSED, false) else _).
Qed.
End SameEvidence.

(** ** Theorems *)

(** When an event is acknowledged as replicated.  For a policy its
    constructor accepted and at most 1024 receipts a decision is returned; it
    acknowledges exactly when the mode is not local, the local commit is durable,
    no partition is reported, no replica consistently reports itself unreachable,
    and at least the required number of distinct replicas count.  A replica counts
    only when every receipt it sent carries the event's complete identity, a data
    role, authorisation, reachability and durability, and it is an authorised data
    member that is neither the local node, the source nor a witness. *)
Theorem replication_acknowledged_iff a b c w r self e receipts ld part :
  Policy_init a b c w r = Ok self → zlen receipts <= _MAX_ACKNOWLEDGEMENTS →
  ∃ d, evaluate self (Inst e) (Some (Inst <$> receipts)) (PBool ld) None (PBool part) = Ok d
    ∧ rp_data_replica_count d = zlen (rp_replica_ids d) ∧ NoDup (rp_replica_ids d)
    ∧ (∀ x, x ∈ rp_replica_ids d ↔ po_mode self ≠ LOCAL_SQLITE ∧ counts self e receipts x)
    ∧ (rp_acknowledged d = true ↔
         po_mode self ≠ LOCAL_SQLITE ∧ ld = true ∧ part = false
         ∧ po_required_data_replicas self <= zlen (rp_replica_ids d)
         ∧ ¬ ∃ x, unreachable receipts x)
    ∧ (rp_state d = ACKNOWLEDGED ↔ rp_acknowledged d = true)
    ∧ ReplicationDecision_takeover_safe d = false.
Proof.
  intros Hp Hl. apply Policy_init_wf in Hp. rewrite evaluate_run by done.
  destruct (evidence_decided self e receipts ld part Hp) as (H1 & H2 & _ & H3 & H4 & H5 & _).
  by eexists.
Qed.

(** Retries and reordering do not matter.  Two collections of receipts with
    the same fingerprints, whatever the order, the number of repetitions and the
    acknowledgement identifiers, give the same state, acknowledgement, count and
    replica list. *)
Theorem replication_evidence_order_free self e receipts receipts' ld part d d' :
  (∀ fp, fp ∈ ReplicaAcknowledgement_fingerprint <$> receipts
         ↔ fp ∈ ReplicaAcknowledgement_fingerprint <$> receipts') →
  evaluate self (Inst e) (Some (Inst <$> receipts)) (PBool ld) None (PBool part) = Ok d →
  evaluate self (Inst e) (Some (Inst <$> receipts')) (PBool ld) None (PBool part) = Ok d' →
  rp_state d = rp_state d' ∧ rp_acknowledged d = rp_acknowledged d'
  ∧ rp_replica_ids d = rp_replica_ids d' ∧ rp_data_replica_count d = rp_data_replica_count d'.
Proof.
  intros Hfp Hd Hd'. apply evaluate_inv in Hd as ->, Hd' as ->. by apply evidence_same.
Qed.

(** ** Receipts made for an event *)

Lemma substring_prefix p s n : str_forallb p s = true → str_forallb p (text_take n s) = true.
Proof.
  unfold text_take. revert n. induction s as [|c s IH]; intros [|n] H; simpl in *; try done.
  to_prop. by rewrite H, IH.
Qed.

Lemma substring_length s n : (String.length (text_take n s) <= n)%nat.
Proof.
  unfold text_take. revert n. induction s as [|c s IH]; intros [|n]; simpl; try lia.
  specialize (IH n). lia.
Qed.

Lemma str_forallb_weaken p q s :
  (∀ c, p c = true → q c = true) → str_forallb p s = true → str_forallb q s = true.
Proof. intros Hpq. induction s; simpl; [done|]. intros H. to_prop. by rewrite Hpq, IHs. Qed.

Lemma hex_is_identity_char c : is_hex_char c = true → is_identity_char c = true.
Proof.
  unfold is_hex_char, is_identity_char, is_alnum, ascii_between. intros H.
  apply orb_true_iff in H as [H|H]; to_prop; rewrite !orb_true_iff, !andb_true_iff, !N.leb_le in *;
    lia.
Qed.

Lemma default_ack_id_identity s : is_identity ("ack-" +:+ text_take 32 (sha256_hex s)) = true.
Proof.
  pose proof (sha256_hex_is_digest s) as Hd. unfold is_digest in Hd. to_prop.
  pose proof (substring_length (sha256_hex s) 32).
  assert (str_forallb is_identity_char (text_take 32 (sha256_hex s)) = true) as Hc.
  { apply substring_prefix. by apply (str_forallb_weaken is_hex_char); [apply hex_is_identity_char|]. }
  revert Hc. generalize dependent (text_take 32 (sha256_hex s)). intros t Ht Hc. simpl.
  change ("" +:+ t) with t. rewrite Hc. simpl. apply Nat.leb_le. lia.
Qed.

(** The receipt a provider builds for an event is evidence for it.  In the
    paired mode, one durable receipt made with [for_event] by an authorised data
    replica other than the source, after a durable local commit, acknowledges
    the event on exactly that replica. *)
Theorem for_event_acknowledges a b c w r self e fields x :
  Policy_init a b c w r = Ok self → po_mode self = POOLED_PAIR →
  ControlEvent_init (PStr (ce_cluster_id e)) (PStr (ce_event_id e)) (PStr (ce_source_node_id e))
    (PStr (ce_owner_id e)) (PInt (ce_owner_epoch e)) (PStr (ce_lease_id e))
    (PStr (ce_event_digest e)) = Ok fields →
  is_identity x = true → x ∈ po_authorized_data_replica_ids self → x ≠ ce_source_node_id e →
  ∃ ack d,
    ReplicaAcknowledgement_for_event (Inst e) x None (PEnum "ReplicaRole" "data") (PBool true)
      (PBool true) (PBool true) = Ok ack
    ∧ evaluate self (Inst e) (Some [Inst ack]) (PBool true) None (PBool false) = Ok d
    ∧ rp_acknowledged d = true ∧ rp_state d = ACKNOWLEDGED ∧ rp_replica_ids d = [x].
Proof.
  intros Hp Hm He Hx Hauth Hsrc. apply Policy_init_wf in Hp.
  unfold ControlEvent_init, _identity, _positive, _digest in He.
  repeat res_step. simplify_eq/=.
  set (ack := mk_ReplicaAcknowledgement
    ("ack-" +:+ text_take 32 (sha256_hex (ce_event_id e +:+ ":" +:+ x))) (ce_cluster_id e)
    (ce_event_id e) (ce_source_node_id e) x DATA true true true (ce_owner_id e) (ce_owner_epoch e)
    (ce_lease_id e) (ce_event_digest e)).
  exists ack, (evaluate_evidence self e [ack] true false). split; [|split].
  - unfold ReplicaAcknowledgement_for_event, ReplicaAcknowledgement_init, _identity, _positive,
      _digest. erewrite bind_Ok; [|apply check_str_PStr, default_ack_id_identity].
    res_eval.
  - by apply (evaluate_run self e [ack] true false).
  - destruct (evidence_decided self e [ack] true false Hp) as (_ & Hnd & _ & Hin & Hack & Hst & _).
    assert (consistent [ack] x (expected_fingerprint e x)) as Hc.
    { split; [exists ack; split; [by left|done]|]. by intros ? ->%list_elem_of_singleton _. }
    assert (x ≠ po_local_node_id self) as Hl by (intros ->; by apply (wp_remote _ Hp)).
    assert (rp_replica_ids (evaluate_evidence self e [ack] true false) = [x]) as Hids.
    { apply Permutation_singleton_r, NoDup_Permutation; [done|apply NoDup_singleton|].
      intros y. rewrite Hin, list_elem_of_singleton, Hm. split.
      - by intros [_ [[(? & ->%list_elem_of_singleton & <-) _] _ _ _ _]].
      - intros ->. split; [done|]. split; try done. by apply (wp_disjoint _ Hp). }
    assert (¬ ∃ y, unreachable [ack] y) as Hu.
    { intros (y & fp & [(? & ->%list_elem_of_singleton & Hy) Hall] & Hr).
      rewrite <-(Hall ack) in Hr; [done|by left|done]. }
    by rewrite Hst, Hack, Hids, Hm, (proj1 (wp_pair _ Hp) Hm).
Qed.

(** ** Sample evidence *)

Module AckSample.
Definition digest : string := sha256_hex "event".
Definition event : ControlEvent :=
  mk_ControlEvent "lab" "ev-1" "node-a" "owner-1" 3 "lease-9" digest.
Definition policy : Policy := mk_Policy POOLED_PAIR "node-a" ["node-b"] ["wit-1"] 1.
Definition receipt (id : string) : ReplicaAcknowledgement :=
  mk_ReplicaAcknowledgement id "lab" "ev-1" "node-a" "node-b" DATA true true true "owner-1" 3
    "lease-9" digest.
Definition outcome : ReplicationDecision :=
  evaluate_evidence policy event [receipt "r1"] true false.

Lemma policy_init :
  Policy_init (PStr "pooled_pair") (PStr "node-a") (PTuple [PStr "node-b"])
    (PTuple [PStr "wit-1"]) PNone = Ok policy.
Proof. reflexivity. Qed.
End AckSample.

Lemma replication_acknowledged_iff_witness :
  ∃ d, evaluate AckSample.policy (Inst AckSample.event) (Some [Inst (AckSample.receipt "r1")])
         (PBool true) None (PBool false) = Ok d
    ∧ NoDup (rp_replica_ids d) ∧ rp_replica_ids d = ["node-b"] ∧ rp_acknowledged d = true.
Proof.
  destruct (replication_acknowledged_iff _ _ _ _ _ AckSample.policy AckSample.event
    [AckSample.receipt "r1"] true false AckSample.policy_init) as (d & Hd & _ & Hn & _);
    [vm_compute; discriminate|].
  exists d. split; [exact Hd|]. split; [exact Hn|]. vm_compute in Hd. by injection Hd as <-.
Defined.

Lemma replication_evidence_order_free_witness :
  rp_acknowledged AckSample.outcome
  = rp_acknowledged (evaluate_evidence AckSample.policy AckSample.event
      [AckSample.receipt "r2"; AckSample.receipt "r1"] true false).
Proof.
  refine (proj1 (proj2 (replication_evidence_order_free AckSample.policy AckSample.event
    [AckSample.receipt "r1"] [AckSample.receipt "r2"; AckSample.receipt "r1"] true false _ _
    _ _ _))); [|vm_compute; reflexivity..].
  intros fp. simpl. set_solver.
Defined.

Lemma for_event_acknowledges_witness :
  ∃ ack d,
    ReplicaAcknowledgement_for_event (Inst AckSample.event) "node-b" None
      (PEnum "ReplicaRole" "data") (PBool true) (PBool true) (PBool true) = Ok ack
    ∧ evaluate AckSample.policy (Inst AckSample.event) (Some [Inst ack]) (PBool true) None
        (PBool false) = Ok d
    ∧ rp_acknowledged d = true ∧ rp_state d = ACKNOWLEDGED ∧ rp_replica_ids d = ["node-b"].
Proof.
  refine (for_event_acknowledges _ _ _ _ _ AckSample.policy AckSample.event AckSample.event
    "node-b" AckSample.policy_init _ _ _ _ _);
    [reflexivity|vm_compute; reflexivity|reflexivity|by left|discriminate].
Defined.
