(* ===== verification/Reconnect.v ===== *)
(** Client reconnect and worker-receipt reconciliation
    ([sonder_runtime/domain/reconnect_reconciliation.py]).

    An aware datetime is its number of microseconds since 1970 in UTC.  A tuple
    of objects is a list of values of unknown class ([dyn]); [None] stands for an
    argument that is not a tuple, respectively not iterable. *)
From S2P Require Import Prelude.

Local Open Scope Z_scope.

Definition _MAX_EPOCH : Z := Z.shiftl 1 63 - 1.
Definition _MAX_REVISION : Z := Z.shiftl 1 63 - 1.
Definition MAX_DISCOVERY_MEMBERS : Z := 256.
Definition MAX_PROTOCOL_VERSIONS : Z := 16.
Definition MAX_RECEIPTS : Z := 1024.

Inductive DiscoveryDisposition := CONNECTED | D_UNAVAILABLE | D_PAUSED | D_REJECTED.
Inductive ReceiptDisposition := RESUME | REPLAY | R_UNAVAILABLE | R_PAUSED | R_REJECTED.
Inductive ReconnectReason :=
  | DISCOVERY_ACCEPTED | MEMBER_UNAVAILABLE | PROTOCOL_MISMATCH | CLUSTER_MISMATCH
  | AUTHORITY_EXPIRED | AUTHORITY_STALE | AUTHORITY_AHEAD | AUTHORITY_AMBIGUOUS
  | CLIENT_MISMATCH | RECEIPT_RESUMABLE | RECEIPT_TERMINAL | RECEIPT_NOT_FOUND
  | RECEIPT_STALE | RECEIPT_AHEAD | LEASE_MISMATCH | IDEMPOTENCY_CONFLICT
  | RECEIPT_CONFLICT | WORKER_PAUSED | WORKER_INTERRUPTED.
Inductive WorkerReceiptState :=
  | PENDING | CLAIMED | RUNNING | PAUSED | SUCCEEDED | FAILED | CANCELLED | INTERRUPTED.

#[export] Instance DiscoveryDisposition_eq_dec : EqDecision DiscoveryDisposition.
Proof. solve_decision. Defined.
#[export] Instance ReceiptDisposition_eq_dec : EqDecision ReceiptDisposition.
Proof. solve_decision. Defined.
#[export] Instance ReconnectReason_eq_dec : EqDecision ReconnectReason.
Proof. solve_decision. Defined.
#[export] Instance WorkerReceiptState_eq_dec : EqDecision WorkerReceiptState.
Proof. solve_decision. Defined.

Definition discovery_value (d : DiscoveryDisposition) : string :=
  match d with
  | CONNECTED => "connected" | D_UNAVAILABLE => "unavailable" | D_PAUSED => "paused"
  | D_REJECTED => "rejected"
  end.
Definition disposition_value (d : ReceiptDisposition) : string :=
  match d with
  | RESUME => "resume" | REPLAY => "replay" | R_UNAVAILABLE => "unavailable"
  | R_PAUSED => "paused" | R_REJECTED => "rejected"
  end.
Definition reconnect_reason_value (r : ReconnectReason) : string :=
  match r with
  | DISCOVERY_ACCEPTED => "discovery_accepted" | MEMBER_UNAVAILABLE => "member_unavailable"
  | PROTOCOL_MISMATCH => "protocol_mismatch" | CLUSTER_MISMATCH => "cluster_mismatch"
  | AUTHORITY_EXPIRED => "authority_expired" | AUTHORITY_STALE => "authority_stale"
  | AUTHORITY_AHEAD => "authority_ahead" | AUTHORITY_AMBIGUOUS => "authority_ambiguous"
  | CLIENT_MISMATCH => "client_mismatch" | RECEIPT_RESUMABLE => "receipt_resumable"
  | RECEIPT_TERMINAL => "receipt_terminal" | RECEIPT_NOT_FOUND => "receipt_not_found"
  | RECEIPT_STALE => "receipt_stale" | RECEIPT_AHEAD => "receipt_ahead"
  | LEASE_MISMATCH => "lease_mismatch" | IDEMPOTENCY_CONFLICT => "idempotency_conflict"
  | RECEIPT_CONFLICT => "receipt_conflict" | WORKER_PAUSED => "worker_paused"
  | WORKER_INTERRUPTED => "worker_interrupted"
  end.
Definition receipt_state_value (s : WorkerReceiptState) : string :=
  match s with
  | PENDING => "pending" | CLAIMED => "claimed" | RUNNING => "running" | PAUSED => "paused"
  | SUCCEEDED => "succeeded" | FAILED => "failed" | CANCELLED => "cancelled"
  | INTERRUPTED => "interrupted"
  end.
Definition receipt_state_of_value (s : string) : option WorkerReceiptState :=
  List.find (λ x, String.eqb (receipt_state_value x) s)
    [PENDING; CLAIMED; RUNNING; PAUSED; SUCCEEDED; FAILED; CANCELLED; INTERRUPTED].
Definition WorkerReceiptState_terminal (s : WorkerReceiptState) : bool :=
  mem s [SUCCEEDED; FAILED; CANCELLED].

(** ** Validators *)

Definition _identity (value : pyval) (field : string) : res string :=
  check_str is_identity ReconnectContractError
    (field +:+ " must be a bounded stable identity") value.
Definition _digest (value : pyval) (field : string) : res string :=
  check_str is_digest ReconnectContractError
    (field +:+ " must be a lowercase SHA-256 digest") value.
Definition _positive (value : pyval) (field : string) (maximum : Z) : res Z :=
  check_int 1 maximum ReconnectContractError
    (field +:+ " must be within 1.." +:+ pretty maximum) value.
Definition _nonnegative (value : pyval) (field : string) (maximum : Z) : res Z :=
  check_int 0 maximum ReconnectContractError
    (field +:+ " must be within 0.." +:+ pretty maximum) value.
Definition _boolean (value : pyval) (field : string) : res bool :=
  check_bool ReconnectContractError (field +:+ " must be boolean") value.
Definition _utc (value : pyval) (field : string) : res Z :=
  match value with
  | PDatetime true us => Ok us
  | _ => throw ReconnectContractError (field +:+ " must be timezone-aware")
  end.

(** [all(type(v) is int and 1 <= v <= 16)], with the integers. *)
Definition bounded_versions (l : list pyval) : res (list Z) :=
  mapM_res (check_int 1 16 ReconnectContractError "protocol_versions must be bounded unique versions") l.

(** ** Leases and discovery *)

Record AuthorityLease := mk_AuthorityLease {
  al_cluster_id : string;
  al_owner_id : string;
  al_owner_epoch : Z;
  al_lease_id : string;
  al_expires_at : Z
}.

Definition AuthorityLease_init (cluster_id owner_id owner_epoch lease_id expires_at : pyval)
  : res AuthorityLease :=
  cluster ← _identity cluster_id "cluster_id";
  owner ← _identity owner_id "owner_id";
  epoch ← _positive owner_epoch "owner_epoch" _MAX_EPOCH;
  lease ← _identity lease_id "lease_id";
  expires ← _utc expires_at "expires_at";
  Ok (mk_AuthorityLease cluster owner epoch lease expires).

Definition AuthorityLease_binding (l : AuthorityLease) : string * string * Z * string :=
  (al_cluster_id l, al_owner_id l, al_owner_epoch l, al_lease_id l).

Definition AuthorityLease_same_binding (l : AuthorityLease) (other : dyn AuthorityLease) : bool :=
  match other with
  | Inst o => bool_decide (AuthorityLease_binding l = AuthorityLease_binding o)
  | Foreign => false
  end.

Definition AuthorityLease_live_at (l : AuthorityLease) (now : pyval) : res bool :=
  t ← _utc now "now"; Ok (t <? al_expires_at l).

Record DiscoveryMember := mk_DiscoveryMember {
  dm_node_id : string;
  dm_endpoint_id : string;
  dm_authority : AuthorityLease;
  dm_reachable : bool;
  dm_protocol_versions : list Z
}.

Definition DiscoveryMember_init (node_id endpoint_id : pyval) (authority : dyn AuthorityLease)
    (reachable protocol_versions : pyval) : res DiscoveryMember :=
  node ← _identity node_id "node_id";
  endpoint ← _identity endpoint_id "endpoint_id";
  match authority with
  | Foreign => throw ReconnectContractError "member authority must be an AuthorityLease"
  | Inst a =>
      r ← _boolean reachable "reachable";
      match protocol_versions with
      | PTuple l =>
          let bad := "protocol_versions must be bounded unique versions" in
          _ ← require ((1 <=? zlen l) && (zlen l <=? MAX_PROTOCOL_VERSIONS)) ReconnectContractError bad;
          versions ← bounded_versions l;
          _ ← require (no_dups versions) ReconnectContractError bad;
          _ ← require (bool_decide (sort_by Z.leb versions = versions)) ReconnectContractError
                "protocol_versions must be sorted";
          Ok (mk_DiscoveryMember node endpoint a r versions)
      | _ => throw ReconnectContractError "protocol_versions must be bounded unique versions"
      end
  end.

Definition DiscoveryMember_supports (m : DiscoveryMember) (protocol_version : Z) : bool :=
  mem protocol_version (dm_protocol_versions m).

Record DiscoverySnapshot := mk_DiscoverySnapshot {
  ds_cluster_id : string;
  ds_authority : AuthorityLease;
  ds_revision : Z;
  ds_members : list DiscoveryMember
}.

Definition DiscoverySnapshot_init (cluster_id : pyval) (authority : dyn AuthorityLease)
    (revision : pyval) (members : option (list (dyn DiscoveryMember))) : res DiscoverySnapshot :=
  cluster ← _identity cluster_id "cluster_id";
  match authority with
  | Foreign => throw ReconnectContractError "snapshot authority must be an AuthorityLease"
  | Inst a =>
      _ ← require (String.eqb (al_cluster_id a) cluster) ReconnectContractError
            "snapshot authority cluster does not match snapshot";
      rev ← _positive revision "snapshot revision" _MAX_REVISION;
      let bad := "members must be a bounded tuple of DiscoveryMember values" in
      match members with
      | None => throw ReconnectContractError bad
      | Some l =>
          _ ← require (zlen l <=? MAX_DISCOVERY_MEMBERS) ReconnectContractError bad;
          ms ← mapM_res (λ m : dyn DiscoveryMember, match m with
                 | Inst x => Ok x | Foreign => throw ReconnectContractError bad end) l;
          _ ← require (no_dups (dm_node_id <$> ms)) ReconnectContractError
                "discovery member node identities must be unique";
          _ ← require (no_dups (dm_endpoint_id <$> ms)) ReconnectContractError
                "discovery endpoint identities must be unique";
          _ ← require (forallb (λ m, String.eqb (al_cluster_id (dm_authority m)) cluster) ms)
                ReconnectContractError "discovery member authority cluster does not match snapshot";
          Ok (mk_DiscoverySnapshot cluster a rev ms)
      end
  end.

Record ClientReconnectRequest := mk_ClientReconnectRequest {
  cr_client_id : string;
  cr_cluster_id : string;
  cr_protocol_version : Z;
  cr_last_authority : option AuthorityLease;
  cr_session_id : option string;
  cr_preferred_endpoint_id : option string;
  cr_last_receipt_revision : Z
}.

Definition optional_identity (value : option pyval) (field : string) : res (option string) :=
  match value with
  | None => Ok None
  | Some v => s ← _identity v field; Ok (Some s)
  end.

Definition ClientReconnectRequest_init (client_id cluster_id protocol_version : pyval)
    (last_authority : option (dyn AuthorityLease))
    (session_id preferred_endpoint_id : option pyval) (last_receipt_revision : pyval)
  : res ClientReconnectRequest :=
  client ← _identity client_id "client_id";
  cluster ← _identity cluster_id "cluster_id";
  version ← _positive protocol_version "protocol_version" 16;
  last ← match last_authority with
         | None => Ok None
         | Some (Inst a) => Ok (Some a)
         | Some Foreign =>
             throw ReconnectContractError "last_authority must be an AuthorityLease or None"
         end;
  session ← optional_identity session_id "session_id";
  preferred ← optional_identity preferred_endpoint_id "preferred_endpoint_id";
  revision ← _nonnegative last_receipt_revision "last_receipt_revision" _MAX_REVISION;
  Ok (mk_ClientReconnectRequest client cluster version last session preferred revision).

Record DiscoveryDecision := mk_DiscoveryDecision {
  dd_disposition : DiscoveryDisposition;
  dd_reason : ReconnectReason;
  dd_selected_node_id : option string;
  dd_selected_endpoint_id : option string;
  dd_authority : AuthorityLease;
  dd_candidate_node_ids : list string;
  dd_snapshot_revision : Z
}.

Definition DiscoveryDecision_available (d : DiscoveryDecision) : bool :=
  bool_decide (dd_disposition d = CONNECTED).
Definition DiscoveryDecision_paused (d : DiscoveryDecision) : bool :=
  bool_decide (dd_disposition d = D_PAUSED).
Definition DiscoveryDecision_takeover_safe (d : DiscoveryDecision) : bool := false.

(** ** Receipts *)

Record WorkerReceipt := mk_WorkerReceipt {
  rc_client_id : string;
  rc_cluster_id : string;
  rc_operation_id : string;
  rc_idempotency_key : string;
  rc_request_digest : string;
  rc_worker_id : string;
  rc_remote_job_id : string;
  rc_owner_id : string;
  rc_owner_epoch : Z;
  rc_lease_id : string;
  rc_state : WorkerReceiptState;
  rc_revision : Z;
  rc_output_watermark : Z
}.
#[export] Instance WorkerReceipt_eq_dec : EqDecision WorkerReceipt.
Proof. solve_decision. Defined.

Definition WorkerReceipt_init
    (client_id cluster_id operation_id idempotency_key request_digest worker_id remote_job_id
     owner_id owner_epoch lease_id state revision output_watermark : pyval) : res WorkerReceipt :=
  client ← _identity client_id "client_id";
  cluster ← _identity cluster_id "cluster_id";
  operation ← _identity operation_id "operation_id";
  key ← _identity idempotency_key "idempotency_key";
  worker ← _identity worker_id "worker_id";
  job ← _identity remote_job_id "remote_job_id";
  owner ← _identity owner_id "owner_id";
  lease ← _identity lease_id "lease_id";
  digest ← _digest request_digest "request_digest";
  epoch ← _positive owner_epoch "owner_epoch" _MAX_EPOCH;
  s ← check_enum receipt_state_of_value ReconnectContractError
        "state is not a recognized worker receipt state" state;
  rev ← _positive revision "receipt revision" _MAX_REVISION;
  mark ← _nonnegative output_watermark "output_watermark" _MAX_REVISION;
  Ok (mk_WorkerReceipt client cluster operation key digest worker job owner epoch lease s rev mark).

Definition WorkerReceipt_authority_binding (r : WorkerReceipt) : string * string * Z * string :=
  (rc_cluster_id r, rc_owner_id r, rc_owner_epoch r, rc_lease_id r).
Definition WorkerReceipt_receipt_identity (r : WorkerReceipt) : string * string :=
  (rc_worker_id r, rc_remote_job_id r).

Definition WorkerReceipt_as_dict (r : WorkerReceipt) : pyval :=
  PDict [(PStr "client_id", PStr (rc_client_id r));
         (PStr "cluster_id", PStr (rc_cluster_id r));
         (PStr "operation_id", PStr (rc_operation_id r));
         (PStr "idempotency_key", PStr (rc_idempotency_key r));
         (PStr "request_digest", PStr (rc_request_digest r));
         (PStr "worker_id", PStr (rc_worker_id r));
         (PStr "remote_job_id", PStr (rc_remote_job_id r));
         (PStr "owner_id", PStr (rc_owner_id r));
         (PStr "owner_epoch", PInt (rc_owner_epoch r));
         (PStr "lease_id", PStr (rc_lease_id r));
         (PStr "state", PStr (receipt_state_value (rc_state r)));
         (PStr "revision", PInt (rc_revision r));
         (PStr "output_watermark", PInt (rc_output_watermark r))].

Record ReceiptReconciliationRequest := mk_ReconciliationRequest {
  rq_client_id : string;
  rq_cluster_id : string;
  rq_operation_id : string;
  rq_idempotency_key : string;
  rq_request_digest : string;
  rq_authority : AuthorityLease;
  rq_last_seen_revision : Z
}.

Definition ReconciliationRequest_init
    (client_id cluster_id operation_id idempotency_key request_digest : pyval)
    (authority : dyn AuthorityLease) (last_seen_revision : pyval)
  : res ReceiptReconciliationRequest :=
  client ← _identity client_id "client_id";
  cluster ← _identity cluster_id "cluster_id";
  operation ← _identity operation_id "operation_id";
  key ← _identity idempotency_key "idempotency_key";
  digest ← _digest request_digest "request_digest";
  match authority with
  | Foreign => throw ReconnectContractError "authority must be an AuthorityLease"
  | Inst a =>
      _ ← require (String.eqb (al_cluster_id a) cluster) ReconnectContractError
            "request authority cluster does not match request";
      rev ← _nonnegative last_seen_revision "last_seen_revision" _MAX_REVISION;
      Ok (mk_ReconciliationRequest client cluster operation key digest a rev)
  end.

Record ReceiptReconciliationDecision := mk_ReconciliationDecision {
  rx_disposition : ReceiptDisposition;
  rx_reason : ReconnectReason;
  rx_receipt : option WorkerReceipt;
  rx_candidate_count : Z;
  rx_deduplicated_count : Z
}.

Definition ReconciliationDecision_resume_allowed (d : ReceiptReconciliationDecision) : bool :=
  bool_decide (rx_disposition d = RESUME).
Definition ReconciliationDecision_paused (d : ReceiptReconciliationDecision) : bool :=
  bool_decide (rx_disposition d = R_PAUSED).
Definition ReconciliationDecision_unavailable (d : ReceiptReconciliationDecision) : bool :=
  bool_decide (rx_disposition d = R_UNAVAILABLE).
Definition ReconciliationDecision_available (d : ReceiptReconciliationDecision) : bool :=
  mem (rx_disposition d) [RESUME; REPLAY].
Definition ReconciliationDecision_takeover_safe (d : ReceiptReconciliationDecision) : bool := false.

Definition ReconciliationDecision_as_dict (d : ReceiptReconciliationDecision) : pyval :=
  PDict [(PStr "disposition", PStr (disposition_value (rx_disposition d)));
         (PStr "reason", PStr (reconnect_reason_value (rx_reason d)));
         (PStr "receipt", match rx_receipt d with
                          | Some r => WorkerReceipt_as_dict r | None => PNone end);
         (PStr "candidate_count", PInt (rx_candidate_count d));
         (PStr "deduplicated_count", PInt (rx_deduplicated_count d));
         (PStr "resume_allowed", PBool (ReconciliationDecision_resume_allowed d));
         (PStr "takeover_safe", PBool (ReconciliationDecision_takeover_safe d))].

(** ** The policy *)

Definition _authority_relation (expected actual : AuthorityLease) : option ReconnectReason :=
  if negb (String.eqb (al_cluster_id expected) (al_cluster_id actual)) then Some CLUSTER_MISMATCH
  else if al_owner_epoch actual <? al_owner_epoch expected then Some AUTHORITY_STALE
  else if al_owner_epoch expected <? al_owner_epoch actual then Some AUTHORITY_AHEAD
  else if negb (String.eqb (al_owner_id expected) (al_owner_id actual))
          || negb (String.eqb (al_lease_id expected) (al_lease_id actual))
  then Some AUTHORITY_AMBIGUOUS
  else None.

Definition _receipt_authority_reason (receipt : WorkerReceipt) (current : AuthorityLease)
  : option ReconnectReason :=
  if negb (String.eqb (rc_cluster_id receipt) (al_cluster_id current)) then Some CLUSTER_MISMATCH
  else if rc_owner_epoch receipt <? al_owner_epoch current then Some RECEIPT_STALE
  else if al_owner_epoch current <? rc_owner_epoch receipt then Some RECEIPT_AHEAD
  else if negb (String.eqb (rc_owner_id receipt) (al_owner_id current))
          || negb (String.eqb (rc_lease_id receipt) (al_lease_id current))
  then Some LEASE_MISMATCH
  else None.

Record ReconnectPolicy := mk_ReconnectPolicy {
  rp_supported_protocol_versions : list Z;
  rp_max_members : Z;
  rp_max_receipts : Z
}.

Definition ReconnectPolicy_init (supported max_members max_receipts : pyval)
  : res ReconnectPolicy :=
  let bad := "supported_protocol_versions must be sorted bounded versions" in
  match supported with
  | PTuple l =>
      _ ← require ((1 <=? zlen l) && (zlen l <=? MAX_PROTOCOL_VERSIONS)) ReconnectContractError bad;
      versions ← mapM_res (check_int 1 16 ReconnectContractError bad) l;
      _ ← require (no_dups versions && bool_decide (sort_by Z.leb versions = versions))
            ReconnectContractError bad;
      members ← check_int 1 MAX_DISCOVERY_MEMBERS ReconnectContractError
                  "max_members is outside the discovery bound" max_members;
      receipts ← check_int 1 MAX_RECEIPTS ReconnectContractError
                   "max_receipts is outside the receipt bound" max_receipts;
      Ok (mk_ReconnectPolicy versions members receipts)
  | _ => throw ReconnectContractError bad
  end.

Definition _discovery (disposition : DiscoveryDisposition) (reason : ReconnectReason)
    (snapshot : DiscoverySnapshot) : DiscoveryDecision :=
  mk_DiscoveryDecision disposition reason None None (ds_authority snapshot) []
    (ds_revision snapshot).

(** [key=lambda member: (member.node_id, member.endpoint_id)] *)
Definition member_leb (a b : DiscoveryMember) : bool :=
  if String.eqb (dm_node_id a) (dm_node_id b)
  then String.leb (dm_endpoint_id a) (dm_endpoint_id b)
  else String.leb (dm_node_id a) (dm_node_id b).

Definition discover (self : ReconnectPolicy) (request : dyn ClientReconnectRequest)
    (snapshot : dyn DiscoverySnapshot) (now : pyval) : res DiscoveryDecision :=
  match request, snapshot with
  | Foreign, _ => throw TypeError "request must be a ClientReconnectRequest"
  | Inst _, Foreign => throw TypeError "snapshot must be a DiscoverySnapshot"
  | Inst req, Inst snap =>
      _ ← require (negb (rp_max_members self <? zlen (ds_members snap))) ReconnectContractError
            "member bound exceeded";
      if negb (String.eqb (cr_cluster_id req) (ds_cluster_id snap))
      then Ok (_discovery D_REJECTED CLUSTER_MISMATCH snap)
      else if negb (mem (cr_protocol_version req) (rp_supported_protocol_versions self))
      then Ok (_discovery D_UNAVAILABLE PROTOCOL_MISMATCH snap)
      else
        t ← _utc now "now";
        if negb (t <? al_expires_at (ds_authority snap))
        then Ok (_discovery D_PAUSED AUTHORITY_EXPIRED snap)
        else match cr_last_authority req ≫= λ last, _authority_relation last (ds_authority snap) with
        | Some reason => Ok (_discovery D_PAUSED reason snap)
        | None =>
            let current := List.filter (λ m,
              AuthorityLease_same_binding (dm_authority m) (Inst (ds_authority snap))
              && (t <? al_expires_at (dm_authority m))) (ds_members snap) in
            let reachable := List.filter dm_reachable current in
            match reachable with
            | [] => Ok (_discovery D_UNAVAILABLE MEMBER_UNAVAILABLE snap)
            | _ =>
                match sort_by member_leb (List.filter (λ m,
                        DiscoveryMember_supports m (cr_protocol_version req)) reachable) with
                | [] => Ok (_discovery D_UNAVAILABLE PROTOCOL_MISMATCH snap)
                | first :: rest =>
                    let eligible := first :: rest in
                    let selected := default first (List.find (λ m,
                      bool_decide (cr_preferred_endpoint_id req = Some (dm_endpoint_id m)))
                      eligible) in
                    Ok (mk_DiscoveryDecision CONNECTED DISCOVERY_ACCEPTED
                          (Some (dm_node_id selected)) (Some (dm_endpoint_id selected))
                          (ds_authority snap) (dm_node_id <$> eligible) (ds_revision snap))
                end
            end
        end
  end.

Definition _receipt_decision (disposition : ReceiptDisposition) (reason : ReconnectReason)
    (receipt : option WorkerReceipt) (candidate_count deduplicated_count : Z)
  : ReceiptReconciliationDecision :=
  mk_ReconciliationDecision disposition reason receipt candidate_count deduplicated_count.

(** The loop that collects the receipts; [budget] is how many more may come. *)
Fixpoint collect_receipts (budget : Z) (l : list (dyn WorkerReceipt)) : res (list WorkerReceipt) :=
  match l with
  | [] => Ok []
  | x :: l' =>
      _ ← require (0 <? budget) ReconnectContractError "receipt bound exceeded";
      r ← match x with
          | Inst r => Ok r
          | Foreign => throw ReconnectContractError "receipts must contain WorkerReceipt values"
          end;
      rs ← collect_receipts (budget - 1) l';
      Ok (r :: rs)
  end.

(** The loop over the revisions; [None] is the conflict return. *)
Fixpoint index_revisions (by_revision : gmap Z WorkerReceipt) (l : list WorkerReceipt)
  : option (gmap Z WorkerReceipt) :=
  match l with
  | [] => Some by_revision
  | r :: l' =>
      match by_revision !! rc_revision r with
      | Some prior =>
          if negb (bool_decide (prior = r)) then None
          else index_revisions (<[rc_revision r := r]> by_revision) l'
      | None => index_revisions (<[rc_revision r := r]> by_revision) l'
      end
  end.

(** [tuple(by_revision[key] for key in sorted(by_revision))] *)
Definition ordered_receipts (by_revision : gmap Z WorkerReceipt) : list WorkerReceipt :=
  omap (λ k, by_revision !! k) (sort_by Z.leb ((map_to_list by_revision).*1)).

(** [any(a.output_watermark > b.output_watermark for a, b in zip(l, l[1:]))] *)
Fixpoint watermark_drops (l : list WorkerReceipt) : bool :=
  match l with
  | a :: (b :: _) as l' => (rc_output_watermark b <? rc_output_watermark a) || watermark_drops l'
  | _ => false
  end.

(** The first authority reason of a receipt, if any. *)
Definition first_authority_reason (l : list WorkerReceipt) (current : AuthorityLease)
  : option ReconnectReason :=
  head (omap (λ r, _receipt_authority_reason r current) l).

(** The plan for receipts that passed every conflict check. *)
Definition plan_selected (request : ReceiptReconciliationRequest) (selected : WorkerReceipt)
    (candidates deduplicated : Z) : ReceiptReconciliationDecision :=
  let decide_as d reason := _receipt_decision d reason (Some selected) candidates deduplicated in
  if rc_revision selected <? rq_last_seen_revision request then decide_as R_PAUSED RECEIPT_STALE
  else if mem (rc_state selected) [PENDING; CLAIMED; RUNNING]
  then decide_as RESUME RECEIPT_RESUMABLE
  else if bool_decide (rc_state selected = PAUSED) then decide_as R_PAUSED WORKER_PAUSED
  else if bool_decide (rc_state selected = INTERRUPTED) then decide_as R_PAUSED WORKER_INTERRUPTED
  else decide_as REPLAY RECEIPT_TERMINAL.

Definition same_key_of (request : ReceiptReconciliationRequest) (values : list WorkerReceipt)
  : list WorkerReceipt :=
  List.filter (λ r, String.eqb (rc_cluster_id r) (rq_cluster_id request)
                    && String.eqb (rc_idempotency_key r) (rq_idempotency_key request)) values.

Definition same_operation_of (request : ReceiptReconciliationRequest)
    (values : list WorkerReceipt) : list WorkerReceipt :=
  List.filter (λ r, String.eqb (rc_cluster_id r) (rq_cluster_id request)
                    && String.eqb (rc_client_id r) (rq_client_id request)
                    && String.eqb (rc_operation_id r) (rq_operation_id request)
                    && String.eqb (rc_request_digest r) (rq_request_digest request)) values.

(** [reconcile] after the authority checks and the collection.  The receipts of
    the key are not empty at the end, so there is a last one to select. *)
Definition reconcile_values (request : ReceiptReconciliationRequest) (current : AuthorityLease)
    (values : list WorkerReceipt) : ReceiptReconciliationDecision :=
  let same_key := same_key_of request values in
  let n := zlen same_key in
  let same_operation := same_operation_of request values in
  let other_client r := negb (String.eqb (rc_client_id r) (rq_client_id request)) in
  if existsb (λ r, other_client r
                   || negb (String.eqb (rc_operation_id r) (rq_operation_id request))
                   || negb (String.eqb (rc_request_digest r) (rq_request_digest request))) same_key
  then _receipt_decision R_REJECTED
         (if existsb other_client same_key then CLIENT_MISMATCH else IDEMPOTENCY_CONFLICT) None n 0
  else if existsb (λ r, negb (String.eqb (rc_idempotency_key r) (rq_idempotency_key request)))
            same_operation
  then _receipt_decision R_REJECTED IDEMPOTENCY_CONFLICT None (zlen same_operation) 0
  else if (length same_key =? 0)%nat
  then _receipt_decision R_UNAVAILABLE RECEIPT_NOT_FOUND None 0 0
  else match first_authority_reason same_key current with
  | Some reason => _receipt_decision R_PAUSED reason None n 0
  | None =>
      if negb (length (remove_dups (WorkerReceipt_receipt_identity <$> same_key)) =? 1)%nat
      then _receipt_decision R_REJECTED RECEIPT_CONFLICT None n 0
      else match index_revisions ∅ same_key with
      | None => _receipt_decision R_REJECTED RECEIPT_CONFLICT None n 0
      | Some by_revision =>
          let ordered := ordered_receipts by_revision in
          let deduplicated := n - Z.of_nat (size by_revision) in
          if watermark_drops ordered
          then _receipt_decision R_REJECTED RECEIPT_CONFLICT None n deduplicated
          else match last ordered with
          | Some selected => plan_selected request selected n deduplicated
          | None => _receipt_decision R_UNAVAILABLE RECEIPT_NOT_FOUND None n deduplicated
          end
      end
  end.

Definition reconcile (self : ReconnectPolicy) (request : dyn ReceiptReconciliationRequest)
    (receipts : option (list (dyn WorkerReceipt))) (current_authority : dyn AuthorityLease)
    (now : pyval) : res ReceiptReconciliationDecision :=
  match request, current_authority with
  | Foreign, _ => throw TypeError "request must be a ReceiptReconciliationRequest"
  | Inst _, Foreign => throw TypeError "current_authority must be an AuthorityLease"
  | Inst req, Inst current =>
      if negb (String.eqb (al_cluster_id current) (rq_cluster_id req))
      then Ok (_receipt_decision R_REJECTED CLUSTER_MISMATCH None 0 0)
      else
        live ← AuthorityLease_live_at current now;
        if negb live then Ok (_receipt_decision R_PAUSED AUTHORITY_EXPIRED None 0 0)
        else match _authority_relation (rq_authority req) current with
        | Some reason => Ok (_receipt_decision R_PAUSED reason None 0 0)
        | None =>
            match receipts with
            | None => throw ReconnectContractError "receipts must be iterable"
            | Some l =>
                values ← collect_receipts (rp_max_receipts self) l;
                Ok (reconcile_values req current values)
            end
        end
  end.

Arguments discover : simpl never.
Arguments reconcile : simpl never.
Arguments reconcile_values : simpl never.

(** ** Bindings *)

Lemma authority_relation_none a b :
  _authority_relation a b = None ↔ AuthorityLease_binding a = AuthorityLease_binding b.
Proof.
  unfold _authority_relation, AuthorityLease_binding. split.
  - intros H. cases_if. to_prop.
    repeat match goal with H : String.eqb _ _ = true |- _ => apply String.eqb_eq in H end.
    f_equal; [f_equal; [by f_equal|lia]|done].
  - intros [= -> -> -> ->]. by rewrite !String.eqb_refl, Z.ltb_irrefl.
Qed.

Lemma receipt_authority_none r current :
  _receipt_authority_reason r current = None
  ↔ WorkerReceipt_authority_binding r = AuthorityLease_binding current.
Proof.
  unfold _receipt_authority_reason, WorkerReceipt_authority_binding, AuthorityLease_binding. split.
  - intros H. cases_if. to_prop.
    repeat match goal with H : String.eqb _ _ = true |- _ => apply String.eqb_eq in H end.
    f_equal; [f_equal; [by f_equal|lia]|done].
  - intros [= -> -> -> ->]. by rewrite !String.eqb_refl, Z.ltb_irrefl.
Qed.

Lemma elem_of_list_filter {A} (f : A → bool) l x : x ∈ List.filter f l ↔ x ∈ l ∧ f x = true.
Proof. by rewrite !list_elem_of_In, filter_In. Qed.

(** ** Discovery *)

Record eligible (req : ClientReconnectRequest) (snap : DiscoverySnapshot) (t : Z)
    (m : DiscoveryMember) : Prop := {
  el_member : m ∈ ds_members snap;
  el_binding : AuthorityLease_binding (dm_authority m)
               = AuthorityLease_binding (ds_authority snap);
  el_live : t < al_expires_at (dm_authority m);
  el_reachable : dm_reachable m = true;
  el_protocol : cr_protocol_version req ∈ dm_protocol_versions m
}.

Record admissible (self : ReconnectPolicy) (req : ClientReconnectRequest)
    (snap : DiscoverySnapshot) (t : Z) : Prop := {
  ad_cluster : cr_cluster_id req = ds_cluster_id snap;
  ad_version : cr_protocol_version req ∈ rp_supported_protocol_versions self;
  ad_live : t < al_expires_at (ds_authority snap);
  ad_binding : ∀ last, cr_last_authority req = Some last →
    AuthorityLease_binding last = AuthorityLease_binding (ds_authority snap)
}.

Definition eligible_members (req : ClientReconnectRequest) (snap : DiscoverySnapshot) (t : Z)
  : list DiscoveryMember :=
  sort_by member_leb (List.filter (λ m, DiscoveryMember_supports m (cr_protocol_version req))
    (List.filter dm_reachable (List.filter (λ m,
       AuthorityLease_same_binding (dm_authority m) (Inst (ds_authority snap))
       && (t <? al_expires_at (dm_authority m))) (ds_members snap)))).

Lemma eligible_members_spec req snap t m :
  m ∈ eligible_members req snap t ↔ eligible req snap t m.
Proof.
  unfold eligible_members. rewrite sort_by_Permutation, !elem_of_list_filter.
  unfold DiscoveryMember_supports. simpl.
  rewrite andb_true_iff, bool_decide_eq_true, Z.ltb_lt, mem_spec. split.
  - intros [[[? [? ?]] ?] ?]. by split.
  - intros [? ? ? ? ?]. done.
Qed.

Lemma find_default_elem {A} (f : A → bool) x l :
  default x (List.find f (x :: l)) ∈ x :: l
  ∧ ((∃ y, y ∈ x :: l ∧ f y = true) → f (default x (List.find f (x :: l))) = true).
Proof.
  destruct (List.find f (x :: l)) as [y|] eqn:E; cbn [default from_option].
  - apply find_some in E as [Hin Hf]. rewrite <-list_elem_of_In in Hin. by split.
  - split; [by left|]. intros (y & Hy & Hf).
    rewrite (find_none _ _ E) in Hf; [done|]. by apply list_elem_of_In.
Qed.

(** What a discovery decision promises. *)
Record discovery_spec (self : ReconnectPolicy) (req : ClientReconnectRequest)
    (snap : DiscoverySnapshot) (t : Z) (d : DiscoveryDecision) : Prop := {
  dp_authority : dd_authority d = ds_authority snap;
  dp_revision : dd_snapshot_revision d = ds_revision snap;
  dp_connected : dd_disposition d = CONNECTED ↔
    admissible self req snap t ∧ ∃ m, eligible req snap t m;
  dp_selected : dd_disposition d = CONNECTED → ∃ m, eligible req snap t m
    ∧ dd_selected_node_id d = Some (dm_node_id m)
    ∧ dd_selected_endpoint_id d = Some (dm_endpoint_id m)
    ∧ ((∃ m', eligible req snap t m' ∧ cr_preferred_endpoint_id req = Some (dm_endpoint_id m'))
       → cr_preferred_endpoint_id req = Some (dm_endpoint_id m));
  dp_candidates : dd_disposition d = CONNECTED →
    dd_candidate_node_ids d = dm_node_id <$> eligible_members req snap t;
  dp_refused : dd_disposition d ≠ CONNECTED →
    dd_selected_node_id d = None ∧ dd_selected_endpoint_id d = None
    ∧ dd_candidate_node_ids d = []
}.

Lemma refused_spec self req snap t disposition reason :
  disposition ≠ CONNECTED → ¬ (admissible self req snap t ∧ ∃ m, eligible req snap t m) →
  discovery_spec self req snap t (_discovery disposition reason snap).
Proof. intros Hd Hn. split; simpl; try done. Qed.

Lemma connected_spec self req snap t first rest :
  admissible self req snap t → eligible_members req snap t = first :: rest →
  let selected := default first (List.find (λ m,
    bool_decide (cr_preferred_endpoint_id req = Some (dm_endpoint_id m))) (first :: rest)) in
  discovery_spec self req snap t
    (mk_DiscoveryDecision CONNECTED DISCOVERY_ACCEPTED (Some (dm_node_id selected))
       (Some (dm_endpoint_id selected)) (ds_authority snap) (dm_node_id <$> first :: rest)
       (ds_revision snap)).
Proof.
  intros Had Hel selected. pose proof (eligible_members_spec req snap t) as Hs. rewrite Hel in Hs.
  set (f := λ m, bool_decide (cr_preferred_endpoint_id req = Some (dm_endpoint_id m))) in *.
  destruct (find_default_elem f first rest) as [Hin Hpref]. split; try done.
  - split; [|done]. intros _. split; [done|]. exists first. apply Hs. by left.
  - intros _. exists selected. split; [by apply Hs|]. split_and!; [done|done|].
    intros (m' & Hm' & Hp). 
    assert (f selected = true) as Hf
      by (apply Hpref; exists m'; split; [by apply Hs|by apply bool_decide_eq_true]).
    by apply bool_decide_eq_true in Hf.
  - intros _. by rewrite Hel.
Qed.

(** Discovery as a function of admissibility and the eligible members. *)
Lemma discover_decided self req snap t :
  zlen (ds_members snap) <= rp_max_members self →
  ∃ d, discover self (Inst req) (Inst snap) (PDatetime true t) = Ok d
    ∧ discovery_spec self req snap t d.
Proof.
  intros Hm. unfold discover. rewrite bind_Ok with (a := tt).
  2:{ by apply require_true, negb_true_iff, Z.ltb_ge. }
  destruct (String.eqb _ _) eqn:Hc; cbn [negb].
  2:{ apply String.eqb_neq in Hc. eexists. split; [done|]. apply refused_spec; [done|].
      by intros [[? _ _ _] _]. }
  destruct (mem _ _) eqn:Hv; cbn [negb]; to_prop.
  2:{ eexists. split; [done|]. apply refused_spec; [done|]. by intros [[_ ? _ _] _]. }
  cbn [mbind res_bind _utc].
  destruct (Z.ltb_spec t (al_expires_at (ds_authority snap))); cbn [negb].
  2:{ eexists. split; [done|]. apply refused_spec; [done|]. intros [[_ _ ? _] _]. lia. }
  apply String.eqb_eq in Hc.
  destruct (cr_last_authority req ≫= _) as [reason|] eqn:Hl.
  { eexists. split; [done|]. apply refused_spec; [done|]. intros [[_ _ _ Hb] _].
    destruct (cr_last_authority req) as [last|]; [|done]. simpl in Hl.
    by rewrite (proj2 (authority_relation_none _ _) (Hb _ eq_refl)) in Hl. }
  assert (admissible self req snap t) as Had.
  { split; try done. intros last E. rewrite E in Hl. by apply authority_relation_none. }
  pose proof (eligible_members_spec req snap t) as Hel.
  pose proof (connected_spec self req snap t) as Hcon. unfold eligible_members in Hel, Hcon.
  destruct (List.filter dm_reachable _) as [|r0 reach].
  { eexists. split; [done|]. apply refused_spec; [done|]. intros [_ [m Hm']].
    rewrite <-Hel in Hm'. by apply elem_of_nil in Hm'. }
  destruct (sort_by _ _) as [|first rest].
  - eexists. split; [done|]. apply refused_spec; [done|]. intros [_ [m Hm']].
    rewrite <-Hel in Hm'. by apply elem_of_nil in Hm'.
  - eexists. split; [done|]. by apply Hcon.
Qed.

(** ** Revisions *)

Definition indexed (m : gmap Z WorkerReceipt) : Prop :=
  ∀ k r, m !! k = Some r → rc_revision r = k.

Lemma index_revisions_spec m l :
  indexed m →
  match index_revisions m l with
  | Some m' => ∀ k r, m' !! k = Some r ↔ m !! k = Some r ∨ (r ∈ l ∧ rc_revision r = k)
  | None => ∃ r1 r2, r1 ≠ r2 ∧ rc_revision r1 = rc_revision r2 ∧ r2 ∈ l
              ∧ (r1 ∈ l ∨ m !! rc_revision r1 = Some r1)
  end.
Proof.
  revert m. induction l as [|r l IH]; intros m Hm; simpl.
  { intros k x. set_solver. }
  assert (indexed (<[rc_revision r:=r]> m)) as Hm'.
  { intros k x. rewrite lookup_insert. case_decide; [|apply Hm]. by intros [= <-]. }
  assert (m !! rc_revision r = None ∨ m !! rc_revision r = Some r →
    match index_revisions (<[rc_revision r:=r]> m) l with
    | Some m' => ∀ k x, m' !! k = Some x ↔ m !! k = Some x ∨ (x ∈ r :: l ∧ rc_revision x = k)
    | None => ∃ r1 r2, r1 ≠ r2 ∧ rc_revision r1 = rc_revision r2 ∧ r2 ∈ r :: l
                ∧ (r1 ∈ r :: l ∨ m !! rc_revision r1 = Some r1)
    end) as Hgo.
  { intros Hfree. specialize (IH _ Hm'). destruct (index_revisions _ l) as [m'|].
    - intros k x. rewrite IH, lookup_insert, elem_of_cons.
      destruct (decide (rc_revision r = k)) as [<-|]; [|naive_solver].
      split; [naive_solver|]. intros [Hx|[[->|Hx] Hk]]; [|by left|by right].
      left. destruct Hfree as [Hf|Hf]; rewrite Hf in Hx; naive_solver.
    - destruct IH as (r1 & r2 & Hne & Hrev & H2 & H1). exists r1, r2.
      split_and!; [done|done|by right|]. destruct H1 as [H1|H1]; [left; by right|].
      rewrite lookup_insert in H1. case_decide; [|by right]. left. simplify_eq. by left. }
  destruct (m !! rc_revision r) as [prior|] eqn:E; [|by apply Hgo; left].
  case_bool_decide as Hp; simpl; [subst prior; by apply Hgo; right|].
  exists prior, r. pose proof (Hm _ _ E) as Hr. split_and!; [done|done|by left|]. right. by rewrite Hr.
Qed.

Lemma index_revisions_empty l :
  match index_revisions ∅ l with
  | Some m => indexed m ∧ (∀ r, m !! rc_revision r = Some r ↔ r ∈ l)
              ∧ ∀ r1 r2, r1 ∈ l → r2 ∈ l → rc_revision r1 = rc_revision r2 → r1 = r2
  | None => ∃ r1 r2, r1 ∈ l ∧ r2 ∈ l ∧ r1 ≠ r2 ∧ rc_revision r1 = rc_revision r2
  end.
Proof.
  assert (indexed ∅) as H0 by (intros k r; by rewrite lookup_empty).
  pose proof (index_revisions_spec ∅ l H0) as H. clear H0.
  destruct (index_revisions ∅ l) as [m|].
  - assert (∀ k r, m !! k = Some r ↔ r ∈ l ∧ rc_revision r = k) as Hm.
    { intros k r. rewrite H, lookup_empty. naive_solver. }
    split_and!.
    + intros k r. rewrite Hm. by intros [_ ?].
    + intros r. rewrite Hm. naive_solver.
    + intros r1 r2 H1 H2 E. pose proof (proj2 (Hm _ _) (conj H1 eq_refl)) as E1.
      pose proof (proj2 (Hm _ _) (conj H2 eq_refl)) as E2. rewrite E in E1. congruence.
  - destruct H as (r1 & r2 & ? & ? & ? & [?|?]); [naive_solver|by rewrite lookup_empty in *].
Qed.

Section Ordered.
Context (m : gmap Z WorkerReceipt) (Hm : indexed m).

Lemma ordered_elem r : r ∈ ordered_receipts m ↔ m !! rc_revision r = Some r.
Proof.
  unfold ordered_receipts. rewrite list_elem_of_omap. setoid_rewrite sort_by_Permutation.
  setoid_rewrite list_elem_of_fmap. split.
  - intros (k & _ & Hk). by rewrite (Hm _ _ Hk).
  - intros Hr. exists (rc_revision r). split; [|done]. exists (rc_revision r, r). split; [done|].
    by apply elem_of_map_to_list.
Qed.

Lemma ordered_sorted :
  StronglySorted (λ a b, rc_revision a <= rc_revision b) (ordered_receipts m).
Proof.
  unfold ordered_receipts. pose proof (sort_by_sorted Z.leb ((map_to_list m).*1)) as Hs.
  induction Hs as [|k l _ IH Hk]; simpl; [constructor|].
  destruct (m !! k) as [r|] eqn:E; [|done]. constructor; [done|].
  apply Forall_forall. intros x (k' & Hk' & Hx)%list_elem_of_omap.
  rewrite Forall_forall in Hk. specialize (Hk _ Hk'). apply Z.leb_le in Hk.
  by rewrite (Hm _ _ E), (Hm _ _ Hx).
Qed.

Lemma watermarks_sorted l :
  watermark_drops l = false →
  StronglySorted (λ a b, rc_output_watermark a <= rc_output_watermark b) l.
Proof.
  intros H. apply Sorted_StronglySorted; [intros a b c ? ?; lia|].
  induction l as [|a [|b l] IH]; [constructor|by repeat constructor|].
  simpl in H. to_prop. constructor; [by apply IH|]. by constructor.
Qed.
End Ordered.

(** ** Reconciliation *)

Lemma first_reason_none l current :
  first_authority_reason l current = None ↔
  ∀ r, r ∈ l → WorkerReceipt_authority_binding r = AuthorityLease_binding current.
Proof.
  unfold first_authority_reason. setoid_rewrite <-receipt_authority_none.
  induction l as [|r l IH]; simpl; [split; [by intros _ r ?%elem_of_nil|done]|].
  destruct (_receipt_authority_reason r current) eqn:E; simpl.
  - split; [done|]. intros H. specialize (H r ltac:(by left)). congruence.
  - rewrite IH. setoid_rewrite elem_of_cons. naive_solver.
Qed.

(** The evidence for one selected receipt: every receipt with the key belongs to
    the requested operation and the current authority, names one worker and one
    remote job, does not contradict another of its revision, and is not newer
    than the selected one. *)
Record resolved (request : ReceiptReconciliationRequest) (current : AuthorityLease)
    (values : list WorkerReceipt) (selected : WorkerReceipt) : Prop := {
  rs_selected : selected ∈ values ∧ rc_cluster_id selected = rq_cluster_id request
    ∧ rc_idempotency_key selected = rq_idempotency_key request;
  rs_identity : ∀ r, r ∈ same_key_of request values →
    rc_client_id r = rq_client_id request ∧ rc_operation_id r = rq_operation_id request
    ∧ rc_request_digest r = rq_request_digest request;
  rs_operation : ∀ r, r ∈ same_operation_of request values →
    rc_idempotency_key r = rq_idempotency_key request;
  rs_authority : ∀ r, r ∈ same_key_of request values →
    WorkerReceipt_authority_binding r = AuthorityLease_binding current;
  rs_job : ∀ r, r ∈ same_key_of request values →
    WorkerReceipt_receipt_identity r = WorkerReceipt_receipt_identity selected;
  rs_revisions : ∀ r1 r2, r1 ∈ same_key_of request values → r2 ∈ same_key_of request values →
    rc_revision r1 = rc_revision r2 → r1 = r2;
  rs_latest : ∀ r, r ∈ same_key_of request values →
    rc_revision r <= rc_revision selected
    ∧ rc_output_watermark r <= rc_output_watermark selected
}.

Lemma plan_available request selected n d :
  ReconciliationDecision_available (plan_selected request selected n d) = true →
  rx_receipt (plan_selected request selected n d) = Some selected
  ∧ rq_last_seen_revision request <= rc_revision selected
  ∧ (rx_disposition (plan_selected request selected n d) = RESUME
     ↔ rc_state selected ∈ [PENDING; CLAIMED; RUNNING])
  ∧ (rx_disposition (plan_selected request selected n d) = REPLAY
     ↔ WorkerReceiptState_terminal (rc_state selected) = true).
Proof.
  unfold plan_selected. destruct (Z.ltb_spec (rc_revision selected) (rq_last_seen_revision request));
    [done|].
  destruct (rc_state selected) eqn:Es; simpl; intros Ha; try done;
    (split; [done|]; split; [done|]; split; split; intros Hx; try done; set_solver).
Qed.

Lemma reconcile_values_available request current values :
  ReconciliationDecision_available (reconcile_values request current values) = true →
  ∃ selected m,
    resolved request current values selected
    ∧ index_revisions ∅ (same_key_of request values) = Some m
    ∧ reconcile_values request current values
      = plan_selected request selected (zlen (same_key_of request values))
          (zlen (same_key_of request values) - Z.of_nat (size m)).
Proof.
  unfold reconcile_values. intros H.
  destruct (existsb _ (same_key_of request values)) eqn:E1; [by destruct (existsb _ _) in H|].
  destruct (existsb _ (same_operation_of request values)) eqn:E2; [done|].
  destruct (length (same_key_of request values) =? 0)%nat eqn:E3; [done|].
  destruct (first_authority_reason _ _) eqn:E4; [done|].
  destruct (length (remove_dups _) =? 1)%nat eqn:E5; [|done]. cbn [negb] in H |- *.
  pose proof (index_revisions_empty (same_key_of request values)) as Hidx.
  destruct (index_revisions ∅ _) as [m|]; [|done].
  destruct Hidx as (Hix & Hin & Huniq).
  destruct (watermark_drops _) eqn:E6; [done|].
  destruct (last (ordered_receipts m)) as [selected|] eqn:E7; [|done].
  exists selected, m. split_and!; [|done|done]. clear H.
  assert (selected ∈ same_key_of request values) as Hsel.
  { apply Hin, ordered_elem; [done|]. by apply last_Some_elem_of. }
  pose proof Hsel as Hsel'. unfold same_key_of in Hsel'. apply elem_of_list_filter in Hsel' as [Hv Hk].
  apply andb_true_iff in Hk as [Hk1 Hk2]. apply String.eqb_eq in Hk1, Hk2.
  rewrite existsb_false in E1, E2. split.
  - done.
  - intros r Hr. specialize (E1 r Hr). to_prop.
    repeat match goal with H : String.eqb _ _ = true |- _ => apply String.eqb_eq in H end. done.
  - intros r Hr. specialize (E2 r Hr). by apply negb_false_iff, String.eqb_eq in E2.
  - by apply first_reason_none.
  - intros r Hr. destruct (same_key_of request values) as [|x l]; [done|].
    rewrite fmap_cons, remove_dups_one in E5.
    assert (∀ y, y ∈ x :: l → WorkerReceipt_receipt_identity y = WorkerReceipt_receipt_identity x) as Hall.
    { intros y [->|Hy]%elem_of_cons; [done|]. by apply E5, list_elem_of_fmap_2. }
    by rewrite (Hall r), (Hall selected).
  - done.
  - intros r Hr. apply Hin, ordered_elem in Hr; [|done].
    split; [destruct (sorted_last _ _ _ _ (ordered_sorted m Hix) E7 Hr) as [Heq|?]
           |destruct (sorted_last _ _ _ _ (watermarks_sorted _ E6) E7 Hr) as [Heq|?]];
      [rewrite Heq; lia|done|rewrite Heq; lia|done].
Qed.

Lemma reconcile_values_perm request current values values' :
  values ≡ₚ values' →
  ReconciliationDecision_available (reconcile_values request current values) = true →
  reconcile_values request current values' = reconcile_values request current values.
Proof.
  intros Hp Ha.
  destruct (reconcile_values_available _ _ _ Ha) as (selected & m & Hr & Hm & _).
  assert (same_key_of request values' ≡ₚ same_key_of request values) as Hk
    by (symmetry; by apply filter_bool_perm).
  assert (same_operation_of request values' ≡ₚ same_operation_of request values) as Ho
    by (symmetry; by apply filter_bool_perm).
  unfold reconcile_values. unfold zlen.
  rewrite !(existsb_perm _ _ _ Hk), !(existsb_perm _ _ _ Ho), (Permutation_length Hk),
    (Permutation_length Ho).
  rewrite (remove_dups_length_perm (WorkerReceipt_receipt_identity <$> same_key_of request values')
    (WorkerReceipt_receipt_identity <$> same_key_of request values)) by (intros; by rewrite Hk).
  rewrite (proj2 (first_reason_none (same_key_of request values') current))
    by (intros r; rewrite Hk; apply Hr).
  rewrite (proj2 (first_reason_none (same_key_of request values) current)) by apply Hr.
  assert (index_revisions ∅ (same_key_of request values')
          = index_revisions ∅ (same_key_of request values)) as ->; [|done].
  pose proof (index_revisions_empty (same_key_of request values')) as H'.
  pose proof (index_revisions_empty (same_key_of request values)) as H. rewrite Hm in H |- *.
  destruct H as (Hix & Hin & Hu). destruct (index_revisions ∅ (same_key_of request values')) as [m'|].
  - destruct H' as (Hix' & Hin' & _). f_equal. apply map_eq. intros k.
    apply option_eq. intros r. split; intros E.
    + pose proof (Hix' _ _ E) as <-. by rewrite Hin, <-Hk, <-Hin'.
    + pose proof (Hix _ _ E) as <-. by rewrite Hin', Hk, <-Hin.
  - destruct H' as (r1 & r2 & H1 & H2 & Hne & Hrev). rewrite Hk in H1, H2. by destruct Hne; apply Hu.
Qed.

Lemma collect_receipts_ok budget l values :
  collect_receipts budget l = Ok values → l = Inst <$> values ∧ zlen values <= Z.max 0 budget.
Proof.
  revert budget values. induction l as [|x l IH]; intros budget values H; simpl in H.
  - injection H as <-. unfold zlen. simpl. split; [done|lia].
  - apply bind_ok in H as (? & Hb & H). apply require_ok, Z.ltb_lt in Hb.
    destruct x as [r|]; [|done]. simpl in H. apply bind_ok in H as (rs & Hrs & H).
    injection H as <-. apply IH in Hrs as [-> Hl]. split; [done|].
    unfold zlen in *. cbn [length]. lia.
Qed.

Lemma collect_receipts_run budget values :
  zlen values <= budget → collect_receipts budget (Inst <$> values) = Ok values.
Proof.
  revert budget. induction values as [|r values IH]; intros budget H; simpl; [done|].
  unfold zlen in *. cbn [length] in H. rewrite (proj2 (Z.ltb_lt 0 budget)) by lia. simpl.
  by rewrite IH by (unfold zlen; lia).
Qed.

(** [reconcile] passes the authority gate exactly when the current authority is
    of the request's cluster, unexpired, and the binding the client knows. *)
Lemma reconcile_available self request receipts current now d :
  reconcile self (Inst request) receipts (Inst current) now = Ok d →
  ReconciliationDecision_available d = true →
  al_cluster_id current = rq_cluster_id request
  ∧ (∃ t, now = PDatetime true t ∧ t < al_expires_at current)
  ∧ AuthorityLease_binding (rq_authority request) = AuthorityLease_binding current
  ∧ ∃ values, receipts = Some (Inst <$> values) ∧ zlen values <= Z.max 0 (rp_max_receipts self)
      ∧ d = reconcile_values request current values.
Proof.
  unfold reconcile. intros H Ha. destruct (String.eqb _ _) eqn:Hc; cbn [negb] in H;
    [|injection H as <-; done].
  apply String.eqb_eq in Hc. apply bind_ok in H as (live & Hlive & H).
  destruct live; cbn [negb] in H; [|injection H as <-; done].
  unfold AuthorityLease_live_at, _utc in Hlive.
  destruct (_authority_relation _ _) eqn:Hr; [injection H as <-; done|].
  apply authority_relation_none in Hr. destruct receipts as [l|]; [|done].
  apply bind_ok in H as (values & Hv & H). apply collect_receipts_ok in Hv as [-> Hl].
  injection H as <-. split_and!; [done| |done|by exists values].
  destruct now as [| | | | | | | | | |aware us|]; try done. destruct aware; [|done].
  exists us. split; [done|]. simpl in Hlive. injection Hlive as Hlt. by apply Z.ltb_lt.
Qed.

(** ** Theorems *)

(** Discovery never invents authority.  For at most the configured number of
    members a decision is returned.  It connects exactly when the snapshot is of
    the client's cluster, speaks a supported protocol, is unexpired and carries
    the binding the client last knew (if any), and some member carries that same
    unexpired binding, is reachable and speaks the protocol.  The selected
    endpoint is such a member, the preferred one when it is eligible; the
    candidates are exactly the eligible members in order; a refusal selects
    nothing. *)
Theorem discover_connects_iff self req snap t :
  zlen (ds_members snap) <= rp_max_members self →
  ∃ d, discover self (Inst req) (Inst snap) (PDatetime true t) = Ok d
    ∧ discovery_spec self req snap t d.
Proof. apply discover_decided. Qed.

(** A reconnecting client resumes or replays only one known operation.  When
    the reconciliation is available, the current authority is unexpired and the
    one the client knows, and the returned receipt is one of the given receipts
    with exactly the client, operation, key and digest of the request and the
    owner, epoch and lease of the current authority; every receipt of that key
    names the same worker and remote job, no two receipts of a revision differ,
    and the returned one has the highest revision and watermark, not below the
    revision the client has seen.  It is resumed exactly when pending, claimed or
    running and replayed exactly when terminal. *)
Theorem reconcile_available_safe self request receipts current now d :
  reconcile self (Inst request) receipts (Inst current) now = Ok d →
  ReconciliationDecision_available d = true →
  ∃ values selected t,
    receipts = Some (Inst <$> values) ∧ now = PDatetime true t ∧ t < al_expires_at current
    ∧ AuthorityLease_binding (rq_authority request) = AuthorityLease_binding current
    ∧ rx_receipt d = Some selected ∧ resolved request current values selected
    ∧ rq_last_seen_revision request <= rc_revision selected
    ∧ (rx_disposition d = RESUME ↔ rc_state selected ∈ [PENDING; CLAIMED; RUNNING])
    ∧ (rx_disposition d = REPLAY ↔ WorkerReceiptState_terminal (rc_state selected) = true).
Proof.
  intros H Ha.
  destruct (reconcile_available _ _ _ _ _ _ H Ha) as (_ & (t & -> & Ht) & Hb & values & -> & _ & ->).
  destruct (reconcile_values_available _ _ _ Ha) as (selected & m & Hr & _ & E).
  rewrite E in Ha |- *. destruct (plan_available _ _ _ _ Ha) as (? & ? & ? & ?).
  by exists values, selected, t.
Qed.

(** The order in which receipts arrive does not matter.  Presenting the same
    receipts in another order to an available reconciliation gives exactly the
    same decision. *)
Theorem reconcile_order_free self request values values' current now d :
  values ≡ₚ values' →
  reconcile self (Inst request) (Some (Inst <$> values)) (Inst current) now = Ok d →
  ReconciliationDecision_available d = true →
  reconcile self (Inst request) (Some (Inst <$> values')) (Inst current) now = Ok d.
Proof.
  intros Hp H Ha.
  destruct (reconcile_available _ _ _ _ _ _ H Ha)
    as (Hc & (t & -> & Ht) & Hb & l & Hl & Hz & ->).
  injection Hl as Hl. assert (Inj eq eq (@Inst WorkerReceipt)) by (by intros ? ? [=]).
  apply (inj (fmap Inst)) in Hl as <-.
  assert (zlen values' <= rp_max_receipts self) as Hz'.
  { unfold zlen in *. rewrite <-(Permutation_length Hp).
    destruct (Z.max_spec 0 (rp_max_receipts self)) as [[? Hm]|[? Hm]]; rewrite Hm in Hz; [done|].
    destruct values; [simpl in *|simpl in Hz; lia].
    apply authority_relation_none in Hb. unfold reconcile, reconcile_values in Ha. by simpl in Ha. }
  unfold reconcile. rewrite Hc, String.eqb_refl. cbn [negb].
  unfold AuthorityLease_live_at, _utc. cbn [mbind res_bind].
  rewrite (proj2 (Z.ltb_lt _ _) Ht). cbn [negb].
  rewrite (proj2 (authority_relation_none _ _) Hb), collect_receipts_run by done.
  cbn [mbind res_bind]. f_equal. by apply reconcile_values_perm.
Qed.

(** ** Sample reconnects *)

Module ReconnectSample.
Definition digest : string := "0123456789abcdef0123456789abcdef0123456789abcdef0123456789abcdef".
Definition policy : ReconnectPolicy := mk_ReconnectPolicy [1; 2] 8 8.
Definition lease : AuthorityLease := mk_AuthorityLease "lab" "owner-1" 5 "lease-5" 1000.
Definition member (node : string) (reachable : bool) : DiscoveryMember :=
  mk_DiscoveryMember node ("ep-" +:+ node) lease reachable [1].
Definition snapshot : DiscoverySnapshot :=
  mk_DiscoverySnapshot "lab" lease 7 [member "n2" true; member "n1" true; member "n0" false].
Definition client : ClientReconnectRequest :=
  mk_ClientReconnectRequest "cli" "lab" 1 (Some lease) None (Some "ep-n2") 0.
Definition receipt (revision watermark : Z) (state : WorkerReceiptState) : WorkerReceipt :=
  mk_WorkerReceipt "cli" "lab" "op" "key" digest "wk" "job" "owner-1" 5 "lease-5" state revision
    watermark.
Definition request : ReceiptReconciliationRequest :=
  mk_ReconciliationRequest "cli" "lab" "op" "key" digest lease 1.
Definition receipts : list WorkerReceipt :=
  [receipt 1 0 CLAIMED; receipt 2 10 RUNNING; receipt 1 0 CLAIMED].
Definition resumed : ReceiptReconciliationDecision :=
  mk_ReconciliationDecision RESUME RECEIPT_RESUMABLE (Some (receipt 2 10 RUNNING)) 3 1.

Lemma reconciled :
  reconcile policy (Inst request) (Some (Inst <$> receipts)) (Inst lease) (PDatetime true 999)
  = Ok resumed.
Proof. vm_compute. reflexivity. Qed.
End ReconnectSample.

Lemma discover_connects_iff_witness :
  ∃ d, discover ReconnectSample.policy (Inst ReconnectSample.client)
         (Inst ReconnectSample.snapshot) (PDatetime true 10) = Ok d
    ∧ dd_selected_node_id d = Some "n2" ∧ dd_candidate_node_ids d = ["n1"; "n2"]
    ∧ dd_authority d = ReconnectSample.lease.
Proof.
  destruct (discover_connects_iff ReconnectSample.policy ReconnectSample.client
    ReconnectSample.snapshot 10) as (d & Hd & Hs); [vm_compute; discriminate|].
  exists d. split; [exact Hd|]. rewrite (dp_authority _ _ _ _ _ Hs).
  vm_compute in Hd. by injection Hd as <-.
Defined.

Lemma reconcile_available_safe_witness :
  ∃ values selected, Some (Inst <$> ReconnectSample.receipts) = Some (Inst <$> values)
    ∧ resolved ReconnectSample.request ReconnectSample.lease values selected.
Proof.
  destruct (reconcile_available_safe _ _ _ _ _ _ ReconnectSample.reconciled eq_refl)
    as (values & selected & t & Hv & _ & _ & _ & _ & Hr & _).
  exists values, selected. split; [exact Hv|exact Hr].
Defined.

Lemma reconcile_order_free_witness :
  reconcile ReconnectSample.policy (Inst ReconnectSample.request)
    (Some (Inst <$> reverse ReconnectSample.receipts)) (Inst ReconnectSample.lease)
    (PDatetime true 999) = Ok ReconnectSample.resumed.
Proof.
  refine (reconcile_order_free _ _ ReconnectSample.receipts _ _ _ _ _
    ReconnectSample.reconciled _); [symmetry; apply reverse_Permutation|reflexivity].
Defined.
