(* ===== verification/Partition.v ===== *)
(** Scheduler ownership groups and deterministic session routing
    ([sonder_runtime/domain/scheduler_partition.py]). *)
From S2P Require Import Prelude Sha256.

Local Open Scope Z_scope.

Definition _STATUSES : list string := ["active"; "draining"; "paused"].
Definition MAX_PARTITIONS : Z := 4096.
Definition MAX_PAGE_SIZE : Z := 128.

Definition _identity (value : pyval) (field : string) : res string :=
  check_str is_identity PartitionRoutingError
    (field +:+ " must be a bounded stable identity") value.

Record PartitionDescriptor := mk_PartitionDescriptor {
  pd_partition_id : string;
  pd_owner_id : string;
  pd_capacity : Z;
  pd_revision : Z;
  pd_status : string
}.
#[export] Instance PartitionDescriptor_eq_dec : EqDecision PartitionDescriptor.
Proof. solve_decision. Defined.

Definition PartitionDescriptor_init (partition_id owner_id capacity revision status : pyval)
  : res PartitionDescriptor :=
  pid ← _identity partition_id "partition_id";
  owner ← _identity owner_id "owner_id";
  cap ← check_int 1 (Z.shiftl 1 20) PartitionRoutingError
          "capacity must be an integer within 1..2^20" capacity;
  rev ← check_int 1 (Z.shiftl 1 63 - 1) PartitionRoutingError
          "revision must be a positive bounded integer" revision;
  st ← match status with
       | PList _ | PDict _ => throw TypeError "unhashable type"
       | _ => check_str (λ s, mem s _STATUSES) PartitionRoutingError
                "status must be active, draining, or paused" status
       end;
  Ok (mk_PartitionDescriptor pid owner cap rev st).

Record PartitionPage := mk_PartitionPage {
  pg_items : list PartitionDescriptor;
  pg_next_cursor : option string;
  pg_complete : bool;
  pg_revision : Z
}.

Record ProtocolDecision := mk_ProtocolDecision {
  pr_accepted : bool;
  pr_selected_version : Z;
  pr_reason : string
}.

Record PartitionRouter := mk_PartitionRouter {
  ro_protocol_version : Z;
  ro_max_partitions : Z;
  ro_partitions : gmap string PartitionDescriptor;
  ro_inventory_revision : Z
}.

Definition _insert (self : PartitionRouter) (descriptor : dyn PartitionDescriptor)
  : res PartitionRouter :=
  match descriptor with
  | Foreign => throw PartitionRoutingError "partitions must contain descriptors"
  | Inst d =>
      _ ← require (bool_decide (ro_partitions self !! pd_partition_id d = None))
            PartitionRoutingError "duplicate partition_id";
      _ ← require (negb (ro_max_partitions self <=? Z.of_nat (size (ro_partitions self))))
            PartitionRoutingError "partition inventory capacity exhausted";
      Ok (mk_PartitionRouter (ro_protocol_version self) (ro_max_partitions self)
            (<[pd_partition_id d := d]> (ro_partitions self)) (ro_inventory_revision self))
  end.

Fixpoint insert_all (self : PartitionRouter) (l : list (dyn PartitionDescriptor))
  : res PartitionRouter :=
  match l with
  | [] => Ok self
  | d :: l' => self' ← _insert self d; insert_all self' l'
  end.

Definition PartitionRouter_init (partitions : list (dyn PartitionDescriptor))
    (protocol_version max_partitions : pyval) : res PartitionRouter :=
  version ← check_int 1 16 PartitionRoutingError "protocol_version must be within 1..16"
              protocol_version;
  maximum ← check_int 1 MAX_PARTITIONS PartitionRoutingError
              "max_partitions is outside the supported bound" max_partitions;
  insert_all (mk_PartitionRouter version maximum ∅ 1) partitions.

Definition partition (self : PartitionRouter) (partition_id : pyval) : res PartitionDescriptor :=
  key ← _identity partition_id "partition_id";
  match ro_partitions self !! key with
  | Some d => Ok d
  | None => throw PartitionRoutingError "partition is not enrolled"
  end.

Definition partitions (self : PartitionRouter) : list PartitionDescriptor :=
  omap (λ k, ro_partitions self !! k) (sorted_text ((map_to_list (ro_partitions self)).*1)).

Definition active_partitions (self : PartitionRouter) : list PartitionDescriptor :=
  List.filter (λ d, String.eqb (pd_status d) "active") (partitions self).

Definition with_inventory (self : PartitionRouter) (m : gmap string PartitionDescriptor)
  : PartitionRouter :=
  mk_PartitionRouter (ro_protocol_version self) (ro_max_partitions self) m
    (ro_inventory_revision self + 1).

Definition upsert (self : PartitionRouter) (descriptor : dyn PartitionDescriptor)
  : res PartitionRouter :=
  match descriptor with
  | Foreign => throw PartitionRoutingError "partition descriptor is required"
  | Inst d =>
      match ro_partitions self !! pd_partition_id d with
      | None =>
          self' ← _insert self (Inst d);
          Ok (with_inventory self' (ro_partitions self'))
      | Some current =>
          _ ← require (negb (pd_revision d <? pd_revision current)) PartitionRoutingError
                "partition revision must be monotonic";
          _ ← require (negb ((pd_revision d =? pd_revision current)
                             && negb (bool_decide (d = current)))) PartitionRoutingError
                "partition revision conflicts with existing metadata";
          if negb (bool_decide (d = current))
          then Ok (with_inventory self (<[pd_partition_id d := d]> (ro_partitions self)))
          else Ok self
      end
  end.

Definition remove (self : PartitionRouter) (partition_id : pyval) (expected_revision : option Z)
  : res (PartitionRouter * bool) :=
  current ← partition self partition_id;
  _ ← require (match expected_revision with
               | Some e => e =? pd_revision current
               | None => true
               end) PartitionRoutingError "partition revision is stale";
  Ok (with_inventory self (delete (pd_partition_id current) (ro_partitions self)), true).

(** The score of a partition for a key, and its order on tuples. *)
Definition score (key : string) (d : PartitionDescriptor) : Z * string :=
  (sha256_prefix128 (key +:+ String (Ascii.ascii_of_nat 0) (pd_partition_id d)) * pd_capacity d,
   pd_partition_id d).
Definition score_ltb (a b : Z * string) : bool :=
  (a.1 <? b.1) || ((a.1 =? b.1) && negb (String.leb b.2 a.2)).

(** [max(first :: rest, key=...)]: the first of the largest. *)
Definition max_by {A} (f : A → Z * string) (first : A) (rest : list A) : A :=
  foldl (λ best x, if score_ltb (f best) (f x) then x else best) first rest.

Definition route (self : PartitionRouter) (key : pyval) : res PartitionDescriptor :=
  k ← check_str (λ s, (1 <=? Z.of_nat (String.length s)) && (Z.of_nat (String.length s) <=? 4096))
        PartitionRoutingError "routing key must be bounded text" key;
  match active_partitions self with
  | [] => throw PartitionRoutingError "no active scheduler partition"
  | first :: rest => Ok (max_by (score k) first rest)
  end.

(** [ids.index(x)] *)
Fixpoint index_of (x : string) (l : list string) : nat :=
  match l with
  | [] => 0
  | y :: l' => if String.eqb y x then 0 else S (index_of x l')
  end.

Definition page (self : PartitionRouter) (after : option pyval) (limit : pyval)
    (snapshot_revision : option Z) : res PartitionPage :=
  n ← check_int 1 MAX_PAGE_SIZE PartitionRoutingError
        ("limit must be an integer within 1.." +:+ pretty MAX_PAGE_SIZE) limit;
  _ ← require (match snapshot_revision with
               | Some r => r =? ro_inventory_revision self
               | None => true
               end) PartitionRoutingError "partition inventory revision changed";
  let records := partitions self in
  start ← match after with
          | None => Ok 0%nat
          | Some v =>
              cursor ← _identity v "partition cursor";
              let ids := pd_partition_id <$> records in
              _ ← require (mem cursor ids) PartitionRoutingError "partition cursor is unknown";
              Ok (S (index_of cursor ids))
          end;
  let items := take (Z.to_nat n) (drop start records) in
  let complete := Z.of_nat (length records) <=? Z.of_nat start + n in
  Ok (mk_PartitionPage items
        (if complete then None else pd_partition_id <$> last items) complete
        (ro_inventory_revision self)).

Definition negotiate (self : PartitionRouter) (client_version : pyval) : ProtocolDecision :=
  match client_version with
  | PInt v =>
      if negb ((1 <=? v) && (v <=? 16))
      then mk_ProtocolDecision false (ro_protocol_version self) "protocol_version_invalid"
      else if negb (v =? ro_protocol_version self)
      then mk_ProtocolDecision false (ro_protocol_version self) "protocol_version_mismatch"
      else mk_ProtocolDecision true (ro_protocol_version self) "protocol_version_accepted"
  | _ => mk_ProtocolDecision false (ro_protocol_version self) "protocol_version_invalid"
  end.

Arguments route : simpl never.
Arguments page : simpl never.
Arguments upsert : simpl never.
Arguments remove : simpl never.
Arguments _insert : simpl never.
Arguments score : simpl never.

(** ** The inventory *)

Record router_inv (self : PartitionRouter) : Prop := {
  ri_key : ∀ k d, ro_partitions self !! k = Some d → pd_partition_id d = k;
  ri_identity : ∀ k d, ro_partitions self !! k = Some d → is_identity k = true;
  ri_capacity : Z.of_nat (size (ro_partitions self)) <= ro_max_partitions self
}.

(** A descriptor its constructor accepted. *)
Definition wf_descriptor (d : PartitionDescriptor) : Prop :=
  is_identity (pd_partition_id d) = true ∧ 1 <= pd_capacity d <= Z.shiftl 1 20
  ∧ 1 <= pd_revision d <= max_i64 ∧ mem (pd_status d) _STATUSES = true.

Lemma PartitionDescriptor_init_wf a b c r s d :
  PartitionDescriptor_init a b c r s = Ok d → wf_descriptor d.
Proof.
  unfold PartitionDescriptor_init, _identity. intros H. res_inv.
  match goal with H : match s with _ => _ end = Ok _ |- _ => rename H into Hs end.
  assert (mem a4 _STATUSES = true) as Hst by (destruct s; res_inv; done).
  unfold wf_descriptor, max_i64. simpl pd_partition_id. naive_solver.
Qed.

Lemma _insert_ok self d self' :
  _insert self d = Ok self' →
  ∃ x, d = Inst x ∧ ro_partitions self !! pd_partition_id x = None
    ∧ Z.of_nat (size (ro_partitions self)) < ro_max_partitions self
    ∧ self' = mk_PartitionRouter (ro_protocol_version self) (ro_max_partitions self)
                (<[pd_partition_id x := x]> (ro_partitions self)) (ro_inventory_revision self).
Proof.
  unfold _insert. destruct d as [x|]; [|done]. intros H. res_inv. to_prop. by exists x.
Qed.

Lemma insert_inv self x version maximum rev :
  router_inv self → wf_descriptor x →
  (ro_partitions self !! pd_partition_id x = None →
   Z.of_nat (size (ro_partitions self)) < maximum) → ro_max_partitions self = maximum →
  router_inv (mk_PartitionRouter version maximum (<[pd_partition_id x := x]> (ro_partitions self)) rev).
Proof.
  intros [Hk Hid Hc] Hx Hcap <-. split; simpl.
  - intros k d. rewrite lookup_insert. case_decide; [by intros [= <-]|apply Hk].
  - intros k d. rewrite lookup_insert. case_decide; [|apply Hid]. intros [= <-]. subst. apply Hx.
  - destruct (ro_partitions self !! pd_partition_id x) as [y|] eqn:E.
    + by rewrite map_size_insert_Some by done.
    + rewrite map_size_insert_None by done. specialize (Hcap eq_refl). lia.
Qed.

(** What an accepted [upsert] did. *)
Lemma upsert_ok self d self' :
  upsert self d = Ok self' →
  ∃ x, d = Inst x
  ∧ ((self' = self ∧ ro_partitions self !! pd_partition_id x = Some x)
     ∨ (self' = with_inventory self (<[pd_partition_id x := x]> (ro_partitions self))
        ∧ ro_partitions self !! pd_partition_id x ≠ Some x
        ∧ (∀ current, ro_partitions self !! pd_partition_id x = Some current →
             pd_revision current < pd_revision x)
        ∧ (ro_partitions self !! pd_partition_id x = None →
             Z.of_nat (size (ro_partitions self)) < ro_max_partitions self))).
Proof.
  unfold upsert. destruct d as [x|]; [|done]. intros H. exists x. split; [done|].
  destruct (ro_partitions self !! pd_partition_id x) as [current|] eqn:E.
  - apply bind_ok in H as ([] & H1%require_ok & H). apply bind_ok in H as ([] & H2%require_ok & H).
    case_bool_decide as Hx; simpl in H; injection H as <-; [left; by subst|right].
    apply negb_true_iff, Z.ltb_ge in H1. rewrite andb_true_r in H2.
    apply negb_true_iff, Z.eqb_neq in H2. split_and!; [done|congruence| |done].
    intros c [= <-]. lia.
  - apply bind_ok in H as (self1 & Hi & H). injection H as <-.
    apply _insert_ok in Hi as (y & [= <-] & _ & Hsz & ->). right. by split_and!.
Qed.

Lemma remove_ok self pid e self' b :
  router_inv self → remove self pid e = Ok (self', b) →
  ∃ d, ro_partitions self !! pd_partition_id d = Some d ∧ py_str pid = Some (pd_partition_id d)
    ∧ (∀ r, e = Some r → r = pd_revision d) ∧ b = true
    ∧ self' = with_inventory self (delete (pd_partition_id d) (ro_partitions self)).
Proof.
  intros Hi. unfold remove, partition, _identity. intros H. apply bind_ok in H as (d & Hd & H).
  apply bind_ok in Hd as (k & Hk & Hd). apply check_str_ok in Hk as [Hk _].
  destruct (ro_partitions self !! k) as [d'|] eqn:E; [|done]. injection Hd as <-.
  apply bind_ok in H as ([] & Hr%require_ok & H). injection H as <- <-.
  pose proof (ri_key _ Hi _ _ E) as <-. exists d'. split_and!; try done.
  intros r ->. by apply Z.eqb_eq.
Qed.

(** Inventory changes, one at a time. *)
Inductive router_step (self : PartitionRouter) : PartitionRouter → Prop :=
  | router_upsert d self' :
      (∀ x, d = Inst x → wf_descriptor x) → upsert self d = Ok self' → router_step self self'
  | router_remove pid e self' b :
      remove self pid e = Ok (self', b) → router_step self self'.

Lemma router_step_inv self self' : router_step self self' → router_inv self → router_inv self'.
Proof.
  intros Hs Hi. destruct Hs as [d self' Hw H|pid e self' b H].
  - apply upsert_ok in H as (x & -> & [[-> _]|(-> & _ & _ & Hc)]); [done|].
    apply insert_inv; eauto.
  - apply remove_ok in H as (d & E & _ & _ & _ & ->); [|done].
    destruct Hi as [Hk Hid Hc]. split; simpl.
    + intros k x [_ ?]%lookup_delete_Some. by apply Hk.
    + intros k x [_ ?]%lookup_delete_Some. by eapply Hid.
    + rewrite map_size_delete_Some by done. lia.
Qed.

Lemma router_step_revision self self' :
  router_step self self' → router_inv self →
  ro_partitions self' = ro_partitions self ∧ ro_inventory_revision self' = ro_inventory_revision self
  ∨ ro_inventory_revision self' = ro_inventory_revision self + 1.
Proof.
  intros Hs Hi. destruct Hs as [d self' Hw H|pid e self' b H].
  - apply upsert_ok in H as (x & -> & [[-> _]|(-> & _)]); [by left|by right].
  - apply remove_ok in H as (d & E & _ & _ & _ & ->); [|done]. by right.
Qed.

(** ** Sorted inventory *)

Lemma partitions_elem self d :
  router_inv self →
  d ∈ partitions self ↔ ro_partitions self !! pd_partition_id d = Some d.
Proof.
  intros Hi. unfold partitions. rewrite list_elem_of_omap. setoid_rewrite sort_by_Permutation.
  setoid_rewrite list_elem_of_fmap. split.
  - intros (k & _ & Hk). by rewrite (ri_key _ Hi _ _ Hk).
  - intros Hd. exists (pd_partition_id d). split; [|done].
    exists (pd_partition_id d, d). split; [done|]. by apply elem_of_map_to_list.
Qed.

Lemma active_elem self d :
  router_inv self →
  d ∈ active_partitions self ↔
  ro_partitions self !! pd_partition_id d = Some d ∧ pd_status d = "active".
Proof.
  intros Hi. unfold active_partitions.
  by rewrite list_elem_of_In, filter_In, <-list_elem_of_In, partitions_elem, String.eqb_eq.
Qed.

Lemma partitions_ids self :
  router_inv self →
  pd_partition_id <$> partitions self = sorted_text ((map_to_list (ro_partitions self)).*1).
Proof.
  intros Hi. unfold partitions. set (ks := sorted_text _).
  assert (∀ k, k ∈ ks → is_Some (ro_partitions self !! k)) as Hks.
  { intros k. unfold ks, sorted_text. rewrite sort_by_Permutation, list_elem_of_fmap.
    intros ([k' d] & -> & Hd%elem_of_map_to_list). by exists d. }
  clearbody ks. induction ks as [|k ks IH]; [done|]. simpl.
  destruct (Hks k) as [d Hd]; [by left|]. rewrite Hd. simpl.
  f_equal; [by apply (ri_key _ Hi)|]. apply IH. intros k' Hk'. apply Hks. by right.
Qed.

Lemma partitions_NoDup self : router_inv self → NoDup (pd_partition_id <$> partitions self).
Proof.
  intros Hi. rewrite partitions_ids by done. unfold sorted_text. rewrite sort_by_Permutation.
  apply NoDup_fst_map_to_list.
Qed.

(** ** The winner *)

Definition score_le (a b : Z * string) : Prop :=
  a.1 < b.1 ∨ (a.1 = b.1 ∧ String.leb a.2 b.2 = true).

Lemma score_ltb_false a b : score_ltb a b = false ↔ score_le b a.
Proof.
  unfold score_ltb, score_le.
  rewrite orb_false_iff, andb_false_iff, Z.ltb_ge, Z.eqb_neq, negb_false_iff.
  destruct (decide (a.1 = b.1)) as [E|E]; [rewrite E|]; split; intros H;
    destruct_and?; repeat match goal with H : _ ∨ _ |- _ => destruct H end;
    destruct_and?; try lia; try (right; done); try (split; [lia|by right]); try (left; lia).
Qed.

Lemma score_ltb_true a b : score_ltb a b = true → score_le a b.
Proof.
  unfold score_ltb, score_le. rewrite orb_true_iff, andb_true_iff, Z.ltb_lt, Z.eqb_eq.
  intros [?|[? H]]; [by left|right]. split; [done|].
  destruct (String.leb_total a.2 b.2) as [?|E]; [done|]. by rewrite E in H.
Qed.

Lemma score_le_trans a b c : score_le a b → score_le b c → score_le a c.
Proof.
  unfold score_le. intros [?|[? H1]] [?|[? H2]]; [left; lia..|right].
  split; [lia|]. by apply (sort_trans (SortKey := text_sort_key) _ b.2).
Qed.

Lemma score_le_antisym a b : score_le a b → score_le b a → a = b.
Proof.
  destruct a as [x s], b as [y t]. unfold score_le; simpl.
  intros [?|[? H1]] [?|[? H2]]; try lia. subst. f_equal. by apply String.leb_antisym.
Qed.

Lemma max_by_spec {A} (f : A → Z * string) first rest :
  max_by f first rest ∈ first :: rest
  ∧ ∀ x, x ∈ first :: rest → score_le (f x) (f (max_by f first rest)).
Proof.
  unfold max_by. revert first. induction rest as [|y rest IH]; intros first; simpl.
  - split; [by left|]. intros x ->%list_elem_of_singleton. right. split; [done|].
    by destruct (String.leb_total (f first).2 (f first).2).
  - destruct (IH (if score_ltb (f first) (f y) then y else first)) as [Hin Hmax].
    destruct (score_ltb (f first) (f y)) eqn:E.
    + split; [set_solver|]. intros x [->|Hx]%elem_of_cons; [|by apply Hmax].
      eapply score_le_trans; [by apply score_ltb_true|]. apply Hmax. by left.
    + split; [set_solver|]. apply score_ltb_false in E.
      intros x [->|[->|Hx]%elem_of_cons]%elem_of_cons.
      * apply Hmax. by left.
      * eapply score_le_trans; [exact E|]. apply Hmax. by left.
      * apply Hmax. by right.
Qed.

Definition bounded_key (k : string) : Prop := 1 <= Z.of_nat (String.length k) <= 4096.

Definition wins (self : PartitionRouter) (k : string) (d : PartitionDescriptor) : Prop :=
  d ∈ active_partitions self
  ∧ ∀ x, x ∈ active_partitions self → score_le (score k x) (score k d).

Lemma wins_unique self k d d' : router_inv self → wins self k d → wins self k d' → d = d'.
Proof.
  intros Hi [Hd Hmax] [Hd' Hmax'].
  pose proof (score_le_antisym _ _ (Hmax _ Hd') (Hmax' _ Hd)) as E.
  apply (f_equal snd) in E. unfold score in E; simpl in E.
  apply active_elem in Hd as [Hd _], Hd' as [Hd' _]; [|done..]. congruence.
Qed.

Lemma route_spec self k d :
  router_inv self → route self (PStr k) = Ok d ↔ bounded_key k ∧ wins self k d.
Proof.
  intros Hi. unfold route, bounded_key. split.
  - intros H. apply bind_ok in H as (k' & Hk & H). apply check_str_ok in Hk as [[= <-] Hb].
    to_prop. split; [done|]. unfold wins.
    destruct (active_partitions self) as [|first rest]; [done|]. injection H as <-.
    apply max_by_spec.
  - intros [[Hb1 Hb2] Hw]. rewrite check_str_PStr.
    2:{ apply andb_true_iff. by rewrite !Z.leb_le. }
    cbn [mbind res_bind]. pose proof Hw as [Hd Hmax].
    destruct (active_partitions self) as [|first rest] eqn:E; [by apply elem_of_nil in Hd|].
    f_equal. apply (wins_unique self k); [done| |done]. unfold wins. rewrite E. apply max_by_spec.
Qed.

Lemma insert_by_id self x d :
  router_inv (with_inventory self (<[pd_partition_id x := x]> (ro_partitions self))) →
  router_inv self → pd_partition_id x ≠ pd_partition_id d →
  d ∈ active_partitions (with_inventory self (<[pd_partition_id x := x]> (ro_partitions self)))
  ↔ d ∈ active_partitions self.
Proof. intros Hi' Hi Hne. rewrite !active_elem by done. simpl. by rewrite lookup_insert_ne. Qed.

(** ** Theorems *)

(** Routing is total on bounded keys as long as a partition is active, and
    it picks the unique active partition of greatest weighted score (ties
    broken by the identifier): the answer depends on the inventory alone, not on
    the order in which it was built. *)
Theorem route_picks_winner self k :
  router_inv self → bounded_key k → active_partitions self ≠ [] →
  ∃ d, route self (PStr k) = Ok d ∧ ro_partitions self !! pd_partition_id d = Some d
    ∧ pd_status d = "active"
    ∧ ∀ x, ro_partitions self !! pd_partition_id x = Some x → pd_status x = "active" → x ≠ d →
        score_le (score k x) (score k d) ∧ score k x ≠ score k d.
Proof.
  intros Hi Hb Hne. destruct (active_partitions self) as [|first rest] eqn:E; [done|].
  set (d := max_by (score k) first rest).
  assert (wins self k d) as Hw by (unfold wins; rewrite E; apply max_by_spec).
  exists d. split; [by apply route_spec|]. pose proof Hw as [Hd Hmax].
  pose proof (proj1 (active_elem _ _ Hi) Hd) as [H1 H2]. split_and!; [done|done|].
  intros x Hx Hs Hne'. split; [by apply Hmax, active_elem|]. intros Heq.
  apply (f_equal snd) in Heq. unfold score in Heq; simpl in Heq. congruence.
Qed.

(** Routing is stable.  When a partition other than the routed one is
    removed, a key keeps its partition; when another partition is added or
    updated, a key keeps its partition or moves to that one. *)
Theorem route_stable self k d :
  router_inv self → route self (PStr k) = Ok d →
  (∀ pid e self' b, remove self pid e = Ok (self', b) → py_str pid ≠ Some (pd_partition_id d) →
     route self' (PStr k) = Ok d)
  ∧ ∀ x self', wf_descriptor x → upsert self (Inst x) = Ok self' →
      pd_partition_id x ≠ pd_partition_id d →
      route self' (PStr k) = Ok d ∨ route self' (PStr k) = Ok x.
Proof.
  intros Hi Hr. apply route_spec in Hr as [Hb [Hd Hmax]]; [|done]. split.
  - intros pid e self' b H Hne.
    assert (router_inv self') as Hi' by (eapply router_step_inv; [by eapply router_remove|done]).
    apply remove_ok in H as (y & Hy & Hpid & _ & _ & ->); [|done]. apply route_spec; [done|].
    split; [done|]. assert (∀ x, x ∈ active_partitions (with_inventory self
      (delete (pd_partition_id y) (ro_partitions self))) ↔ x ∈ active_partitions self
        ∧ pd_partition_id y ≠ pd_partition_id x) as Hact.
    { intros x. rewrite !active_elem by done. simpl. rewrite lookup_delete_Some. naive_solver. }
    split; [apply Hact; split; [done|congruence]|]. intros x [Hx _]%Hact. by apply Hmax.
  - intros x self' Hwf H Hne.
    assert (router_inv self') as Hi'.
    { eapply router_step_inv; [|done]. eapply router_upsert; [|done]. by intros ? [= <-]. }
    apply upsert_ok in H as (? & [= <-] & [[-> _]|(-> & _)]); [left; by apply route_spec|].
    set (self' := with_inventory self _) in *.
    assert (d ∈ active_partitions self') as Hd' by (by apply insert_by_id).
    destruct (route self' (PStr k)) as [w|err] eqn:Ew.
    + apply route_spec in Ew as [_ [Hw Hwmax]]; [|done].
      destruct (decide (pd_partition_id x = pd_partition_id w)) as [Eid|Eid].
      * right. f_equal. apply active_elem in Hw as [Hw _]; [|done]. simpl in Hw.
        rewrite <-Eid in Hw. rewrite lookup_insert_eq in Hw. congruence.
      * left. f_equal. apply (wins_unique self k); [done| |done]. split; [by apply (insert_by_id self x)|].
        intros y Hy. eapply score_le_trans; [by apply Hmax|]. by apply Hwmax.
    + assert (active_partitions self' ≠ []) as Hnn by (intros E; rewrite E in Hd'; by apply elem_of_nil in Hd').
      unfold route in Ew. rewrite check_str_PStr in Ew
        by (apply andb_true_iff; rewrite !Z.leb_le; exact Hb).
      cbn [mbind res_bind] in Ew. by destruct (active_partitions self').
Qed.

(** ** Pages *)

(** A client that follows the cursors from the start. *)
Fixpoint walk (fuel : nat) (self : PartitionRouter) (limit : Z) (after : option pyval)
    (snapshot : option Z) : res (list PartitionDescriptor) :=
  match fuel with
  | O => throw RuntimeError "page walk did not end"
  | S fuel' =>
      pg ← page self after (PInt limit) snapshot;
      match pg_next_cursor pg with
      | None => Ok (pg_items pg)
      | Some c => rest ← walk fuel' self limit (Some (PStr c)) snapshot; Ok (pg_items pg ++ rest)
      end
  end.

Lemma index_of_NoDup l i x : NoDup l → l !! i = Some x → index_of x l = i.
Proof.
  revert i. induction l as [|y l IH]; intros i Hn Hi; [done|]. apply NoDup_cons in Hn as [Hy Hn].
  destruct i as [|i]; simpl in *; [injection Hi as ->; by rewrite String.eqb_refl|].
  destruct (String.eqb_spec y x) as [->|_]; [by destruct Hy; eapply list_elem_of_lookup_2|].
  f_equal. by apply IH.
Qed.

(** The cursor that stands for position [start]. *)
Definition cursor_at (self : PartitionRouter) (after : option pyval) (start : nat) : Prop :=
  match after with
  | None => start = 0%nat
  | Some v => ∃ i d, start = S i ∧ partitions self !! i = Some d ∧ v = PStr (pd_partition_id d)
  end.

Lemma page_at self after start limit snapshot :
  router_inv self → 1 <= limit <= MAX_PAGE_SIZE → cursor_at self after start →
  (∀ r, snapshot = Some r → r = ro_inventory_revision self) →
  let records := partitions self in
  let items := take (Z.to_nat limit) (drop start records) in
  let complete := Z.of_nat (length records) <=? Z.of_nat start + limit in
  page self after (PInt limit) snapshot
  = Ok (mk_PartitionPage items (if complete then None else pd_partition_id <$> last items)
          complete (ro_inventory_revision self)).
Proof.
  intros Hi Hl Hc Hs records items complete. unfold page.
  rewrite (bind_Ok _ _ limit) by (by apply check_int_PInt).
  rewrite (bind_Ok _ _ tt).
  2:{ apply require_true. destruct snapshot as [r|]; [|done]. by apply Z.eqb_eq, Hs. }
  destruct after as [v|]; simpl in Hc; [|subst start; done].
  destruct Hc as (i & d & -> & Hd & ->). unfold _identity.
  assert (d ∈ partitions self) as Hin by (by eapply list_elem_of_lookup_2).
  pose proof (proj1 (partitions_elem _ _ Hi) Hin) as Hm.
  rewrite (check_str_PStr is_identity) by (by eapply ri_identity). cbn [mbind res_bind].
  rewrite require_true by (apply mem_spec; by apply list_elem_of_fmap_2). cbn [mbind res_bind].
  rewrite (index_of_NoDup _ i); [done|by apply partitions_NoDup|].
  by rewrite list_lookup_fmap, Hd.
Qed.

Lemma walk_from self limit snapshot fuel after start :
  router_inv self → 1 <= limit <= MAX_PAGE_SIZE → cursor_at self after start →
  (∀ r, snapshot = Some r → r = ro_inventory_revision self) →
  (length (partitions self) < start + fuel)%nat →
  walk fuel self limit after snapshot = Ok (drop start (partitions self)).
Proof.
  intros Hi Hl Hc Hs. revert after start Hc. induction fuel as [|fuel IH]; intros after start Hc Hf.
  - destruct after as [v|]; simpl in Hc.
    + destruct Hc as (i & d & -> & Hd & _). apply lookup_lt_Some in Hd. lia.
    + lia.
  - cbn [walk]. rewrite (page_at self after start) by done. cbn [mbind res_bind pg_next_cursor pg_items].
    destruct (Z.leb_spec (Z.of_nat (length (partitions self))) (Z.of_nat start + limit)) as [Hle|Hgt].
    + f_equal. rewrite take_ge; [done|]. rewrite length_drop. lia.
    + set (n := Z.to_nat limit). assert (1 <= n)%nat as Hn by lia.
      destruct (lookup_lt_is_Some_2 (partitions self) (start + (n - 1))) as [d Hd]; [lia|].
      assert (last (take n (drop start (partitions self))) = Some d) as ->.
      { rewrite last_lookup, length_take_le by (rewrite length_drop; lia).
        rewrite lookup_take_lt, lookup_drop by lia. by replace (pred n) with (n - 1)%nat by lia. }
      cbn [fmap option_fmap option_map].
      rewrite (IH (Some (PStr (pd_partition_id d))) (start + n)%nat); [| |lia].
      * cbn [mbind res_bind]. f_equal. rewrite <-drop_drop. apply take_drop.
      * exists (start + (n - 1))%nat, d. split_and!; [lia|done|done].
Qed.

(** Paging enumerates the inventory.  Whatever page size within 1..128 a
    client uses, following the cursors from the start with the revision it
    started from ends after finitely many pages and yields every partition
    exactly once, in identifier order. *)
Theorem page_walk_complete self limit :
  router_inv self → 1 <= limit <= MAX_PAGE_SIZE →
  walk (S (length (partitions self))) self limit None (Some (ro_inventory_revision self))
    = Ok (partitions self)
  ∧ NoDup (partitions self)
  ∧ StronglySorted (λ a b, String.leb a b = true) (pd_partition_id <$> partitions self)
  ∧ ∀ d, d ∈ partitions self ↔ ro_partitions self !! pd_partition_id d = Some d.
Proof.
  intros Hi Hl. split_and!.
  - rewrite (walk_from _ _ _ _ _ 0%nat); [done|done|done|done|by intros r [= <-]|lia].
  - by eapply NoDup_fmap_1, partitions_NoDup.
  - rewrite partitions_ids by done. apply sort_by_sorted, _.
  - intros d. by apply partitions_elem.
Qed.

Inductive router_run (self : PartitionRouter) : PartitionRouter → Prop :=
  | router_run_nil : router_run self self
  | router_run_step self1 self2 :
      router_run self self1 → router_step self1 self2 → router_run self self2.

Lemma router_run_inv self self' : router_inv self → router_run self self' → router_inv self'.
Proof. induction 2; [done|]. by eapply router_step_inv. Qed.

Lemma router_run_revision self self' :
  router_inv self → router_run self self' →
  ro_inventory_revision self <= ro_inventory_revision self'
  ∧ (ro_inventory_revision self' = ro_inventory_revision self →
     ro_partitions self' = ro_partitions self).
Proof.
  intros Hi Hr. induction Hr as [|self1 self2 Hr [IH1 IH2] Hs]; [done|].
  destruct (router_step_revision _ _ Hs (router_run_inv _ _ Hi Hr)) as [[E1 E2]|E].
  - rewrite E1, E2. done.
  - split; [lia|]. intros. lia.
Qed.

(** A page bound to a snapshot revision is never served from a changed
    inventory: after any sequence of changes, a page request that names the old
    revision either fails or the inventory is the one the client started from. *)
Theorem page_snapshot_consistent self self' after limit pg :
  router_inv self → router_run self self' →
  page self' after limit (Some (ro_inventory_revision self)) = Ok pg →
  partitions self' = partitions self ∧ pg_revision pg = ro_inventory_revision self.
Proof.
  intros Hi Hr H. unfold page in H. apply bind_ok in H as (n & _ & H).
  apply bind_ok in H as (? & E%require_ok%Z.eqb_eq & H). apply bind_ok in H as (s & _ & H).
  injection H as <-. simpl. split; [|done]. unfold partitions.
  by rewrite (proj2 (router_run_revision _ _ Hi Hr)).
Qed.

(** ** A sample inventory *)

Lemma insert_all_inv self l self' :
  router_inv self → (∀ x, Inst x ∈ l → wf_descriptor x) → insert_all self l = Ok self' →
  router_inv self'.
Proof.
  revert self. induction l as [|d l IH]; intros self Hi Hw H; simpl in H; [by injection H as <-|].
  apply bind_ok in H as (self1 & H1 & H). apply _insert_ok in H1 as (x & -> & Hn & Hs & ->).
  eapply IH; [| |exact H].
  - apply insert_inv; [done|apply Hw; by left|done|done].
  - intros y Hy. apply Hw. by right.
Qed.

Lemma PartitionRouter_init_inv l version maximum self :
  (∀ x, Inst x ∈ l → wf_descriptor x) → PartitionRouter_init l version maximum = Ok self →
  router_inv self.
Proof.
  intros Hw H. unfold PartitionRouter_init in H. apply bind_ok in H as (v & _ & H).
  apply bind_ok in H as (m & Hm & H). apply check_int_ok in Hm as [_ Hm].
  eapply insert_all_inv; [|done|exact H]. split; simpl; [done|done|].
  rewrite map_size_empty. lia.
Qed.

Module PartitionSample.
Definition group (id : string) (capacity : Z) (status : string) : PartitionDescriptor :=
  mk_PartitionDescriptor id "owner-1" capacity 1 status.
Definition groups : list PartitionDescriptor :=
  [group "p2" 4 "active"; group "p1" 2 "active"; group "p3" 9 "draining"].
Definition router : PartitionRouter :=
  mk_PartitionRouter 1 8 (list_to_map ((λ d, (pd_partition_id d, d)) <$> groups)) 1.

Lemma router_built : PartitionRouter_init (Inst <$> groups) (PInt 1) (PInt 8) = Ok router.
Proof. vm_compute. reflexivity. Qed.

Lemma sample_router_inv : router_inv router.
Proof.
  eapply PartitionRouter_init_inv; [|exact router_built].
  intros x (d & [= <-] & Hd)%list_elem_of_fmap. unfold groups in Hd.
  repeat (apply elem_of_cons in Hd as [->|Hd]; [vm_compute; split_and!; (reflexivity || discriminate)|]).
  by apply elem_of_nil in Hd.
Qed.
End PartitionSample.

Lemma route_picks_winner_witness :
  ∃ d, route PartitionSample.router (PStr "session-1") = Ok d ∧ pd_status d = "active".
Proof.
  destruct (route_picks_winner PartitionSample.router "session-1") as (d & Hd & _ & Hs & _);
    [exact PartitionSample.sample_router_inv|vm_compute; split; discriminate
    |vm_compute; discriminate|].
  exists d. split; [exact Hd|exact Hs].
Defined.

Lemma route_stable_witness :
  ∃ d, route PartitionSample.router (PStr "session-1") = Ok d
    ∧ ∀ self' b, remove PartitionSample.router (PStr "p3") None = Ok (self', b) →
        route self' (PStr "session-1") = Ok d.
Proof.
  destruct (route PartitionSample.router (PStr "session-1")) as [d|] eqn:E; [|by vm_compute in E].
  exists d. split; [reflexivity|]. intros self' b H.
  refine (proj1 (route_stable _ "session-1" d PartitionSample.sample_router_inv E) _ _ _ _ H _).
  vm_compute in E. injection E as <-. discriminate.
Defined.

Lemma page_walk_complete_witness :
  walk 4 PartitionSample.router 2 None (Some 1) = Ok (partitions PartitionSample.router)
  ∧ (pd_partition_id <$> partitions PartitionSample.router) = ["p1"; "p2"; "p3"].
Proof.
  split; [|reflexivity].
  refine (proj1 (page_walk_complete PartitionSample.router 2 PartitionSample.sample_router_inv _)).
  split; discriminate.
Defined.

Lemma page_snapshot_consistent_witness :
  ∃ pg, page PartitionSample.router None (PInt 2) (Some 1) = Ok pg ∧ pg_revision pg = 1.
Proof.
  eexists. split; [vm_compute; reflexivity|].
  refine (proj2 (page_snapshot_consistent PartitionSample.router PartitionSample.router None (PInt 2)
    _ PartitionSample.sample_router_inv (router_run_nil _) _)). vm_compute. reflexivity.
Defined.
