(* ===== verification/ControlState.v ===== *)
(** The coordinator of an external control-state provider
    ([sonder_runtime/application/control_state.py]).

    The provider is code outside the repository: a parameter with a state of its
    own, whose calls return any value or raise any exception.  The coordinator's
    operations pass that state explicitly, so that the order of the calls it
    makes is part of the model. *)
From S2P Require Import Prelude PyFloat EpochInterface Ownership Availability.

Local Open Scope Z_scope.

Definition _MAX_READ_LIMIT : Z := 128.
Definition _MAX_CURSOR : Z := Z.shiftl 1 63 - 1.
Definition _MAX_REPLICAS : Z := 64.

Definition _cursor (value : pyval) : res Z :=
  check_int 0 _MAX_CURSOR ValueError "after_sequence must be a bounded non-negative integer" value.
Definition _limit (value : pyval) : res Z :=
  check_int 1 _MAX_READ_LIMIT ValueError "limit must be within 1..128" value.

(** ** The provider *)

(** What a call into the provider does: it returns, raises
    [DependencyUnavailable], or raises another exception of the named type. *)
Inductive outcome (A : Type) :=
  | Returns (a : A)
  | Unavailable (msg : string)
  | Raises (type_name : string).
Arguments Returns {A} a.
Arguments Unavailable {A} msg.
Arguments Raises {A} type_name.

(** The provider object as [getattr] sees it: a missing or uncallable operation
    is [None], a missing attribute [PNone].  A page that is not a tuple is
    [None]. *)
Record Provider (S : Type) := mk_Provider {
  pv_append : option (S → ControlStateEvent → S * outcome (dyn ReplicationAcknowledgement));
  pv_read : option (S → string → Z → Z → S * outcome (option (list (dyn ControlStateEvent))));
  pv_fence : option (S → OwnershipScope → S * outcome (dyn FenceReceipt));
  pv_protocol_version : pyval;
  pv_provider_id : pyval
}.
Arguments mk_Provider {S}.
Arguments pv_append {S}.
Arguments pv_read {S}.
Arguments pv_fence {S}.
Arguments pv_protocol_version {S}.
Arguments pv_provider_id {S}.

(** ** Effects *)

(** A computation that may call the provider. *)
Definition eff (S A : Type) : Type := S → S * res A.
#[export] Instance eff_ret {S} : MRet (eff S) := λ A a s, (s, Ok a).
#[export] Instance eff_bind {S} : MBind (eff S) := λ A B f m s,
  match m s with (s', Ok a) => f a s' | (s', Err e) => (s', Err e) end.
Definition lift {S A} (m : res A) : eff S A := λ s, (s, m).

(** A guarded call: [except DependencyUnavailable: raise], any other exception
    becomes [DependencyUnavailable]. *)
Definition call {S A} (operation : string) (f : S → S * outcome A) : eff S A := λ s,
  let '(s', o) := f s in
  (s', match o with
       | Returns a => Ok a
       | Unavailable msg => throw DependencyUnavailable msg
       | Raises type_name => throw DependencyUnavailable
           ("control-state provider " +:+ operation +:+ " failed: " +:+ type_name)
       end).

(** ** The attempt record *)

Record ControlStateTakeoverAttempt := mk_Attempt {
  at_ownership : OwnershipScope;
  at_new_owner_id : string;
  at_event : ControlStateEvent;
  at_acknowledgement : ReplicationAcknowledgement;
  at_fence_receipt : FenceReceipt;
  at_decision : TakeoverDecision
}.

(** [isinstance(v, str) and v] *)
Definition _required_text (msg : string) (v : pyval) : res string :=
  check_str (λ s, negb (String.eqb s "")) ValueError msg v.

Definition instance_of {A} (msg : string) (x : dyn A) : res A :=
  match x with Inst a => Ok a | Foreign => throw TypeError msg end.

Definition Attempt_init (ownership : dyn OwnershipScope) (new_owner_id : pyval)
    (event : dyn ControlStateEvent) (acknowledgement : dyn ReplicationAcknowledgement)
    (fence_receipt : dyn FenceReceipt) (decision : dyn TakeoverDecision)
  : res ControlStateTakeoverAttempt :=
  own ← instance_of "ownership must be an OwnershipScope" ownership;
  new_owner ← _required_text "new_owner_id is required" new_owner_id;
  _ ← OwnershipScope_init (PStr (os_cluster_id own)) (PStr (os_resource_kind own))
        (PStr (os_resource_id own)) new_owner_id (PInt (os_epoch own));
  ev ← instance_of "event must be a ControlStateEvent" event;
  scope ← ControlStateEvent_scope ev;
  _ ← require (bool_decide (scope = own)) ValueError "event scope does not match ownership";
  ack ← instance_of "acknowledgement must be a ReplicationAcknowledgement" acknowledgement;
  fence ← instance_of "fence_receipt must be a FenceReceipt" fence_receipt;
  d ← instance_of "decision must be a TakeoverDecision" decision;
  Ok (mk_Attempt own new_owner ev ack fence d).

Definition Attempt_as_dict (a : ControlStateTakeoverAttempt) : pyval :=
  PDict [(PStr "ownership", OwnershipScope_as_dict (at_ownership a));
         (PStr "new_owner_id", PStr (at_new_owner_id a));
         (PStr "event", ControlStateEvent_as_dict (at_event a));
         (PStr "acknowledgement", Acknowledgement_as_dict (at_acknowledgement a));
         (PStr "fence_receipt", FenceReceipt_as_dict (at_fence_receipt a));
         (PStr "decision", PDict
            [(PStr "allowed", PBool (td_allowed (at_decision a)));
             (PStr "reason", PStr (td_reason (at_decision a)));
             (PStr "next_epoch", match td_next_epoch (at_decision a) with
                                 | Some e => PInt e
                                 | None => PNone
                                 end);
             (PStr "data_replica_count", PInt (td_data_replica_count (at_decision a)))])].

(** ** The coordinator *)

Section Coordinator.
Context {S : Type}.

Record Coordinator := mk_Coordinator {
  co_append : S → ControlStateEvent → S * outcome (dyn ReplicationAcknowledgement);
  co_read : S → string → Z → Z → S * outcome (option (list (dyn ControlStateEvent)));
  co_fence : S → OwnershipScope → S * outcome (dyn FenceReceipt);
  co_capabilities : ReplicatedControlStateCapabilities;
  co_minimum : Z
}.

Definition callable {A} (msg : string) (f : option A) : res A :=
  match f with Some f => Ok f | None => throw TypeError msg end.

Definition Coordinator_init (provider : Provider S)
    (capabilities : dyn ReplicatedControlStateCapabilities) (minimum_data_replicas : pyval)
  : res Coordinator :=
  append ← callable "provider must provide append(event)" (pv_append provider);
  read ← callable "provider must provide read(cluster_id, ...)" (pv_read provider);
  fence ← callable "provider must provide fence(ownership)" (pv_fence provider);
  caps ← instance_of "provider capabilities are required" capabilities;
  version ← match py_int (pv_protocol_version provider) with
            | Some z => Ok z
            | None => throw ValueError "provider protocol_version is required"
            end;
  _ ← require (version =? cap_protocol_version caps) ValueError
        "provider protocol version does not match capabilities";
  _ ← require (match pv_provider_id provider with
               | PNone => true
               | v => bool_decide (py_str v = Some (cap_provider_id caps))
               end) ValueError "provider identity does not match capabilities";
  let msg := "minimum_data_replicas must be within 2..64 and fit the provider" in
  m ← check_int 2 _MAX_REPLICAS ValueError msg minimum_data_replicas;
  _ ← require (m <=? Capabilities_data_replica_count caps) ValueError msg;
  Ok (mk_Coordinator append read fence caps m).

Definition _validate_ack (self : Coordinator) (event : ControlStateEvent)
    (acknowledgement : dyn ReplicationAcknowledgement) : res ReplicationAcknowledgement :=
  match acknowledgement with
  | Foreign => throw DependencyUnavailable
                 "control-state provider returned an invalid acknowledgement"
  | Inst ack =>
      decision ← validate_replication_acknowledgement (Inst event) (Inst ack)
                   (Inst (co_capabilities self)) (PInt (co_minimum self));
      _ ← require (rd_accepted decision) DependencyUnavailable
            ("control-state acknowledgement rejected: " +:+ rd_reason decision);
      Ok ack
  end.

Definition append (self : Coordinator) (event : dyn ControlStateEvent)
  : eff S ReplicationAcknowledgement :=
  ev ← lift (instance_of "event must be a ControlStateEvent" event);
  _ ← lift (require (ev_protocol_version ev =? cap_protocol_version (co_capabilities self))
              DependencyUnavailable "control-state event protocol does not match provider");
  acknowledgement ← call "append" (λ s, co_append self s ev);
  lift (_validate_ack self ev acknowledgement).

(** The loop over the events of a page. *)
Fixpoint check_page (self : Coordinator) (cluster_id : string) (previous : Z)
    (events : list (dyn ControlStateEvent)) : res (list ControlStateEvent) :=
  match events with
  | [] => Ok []
  | Foreign :: _ => throw DependencyUnavailable "control-state provider returned an invalid event"
  | Inst ev :: events' =>
      _ ← require (negb (negb (String.eqb (ev_cluster_id ev) cluster_id)
                         || negb (ev_protocol_version ev
                                  =? cap_protocol_version (co_capabilities self))
                         || (ev_sequence ev <=? previous)))
            DependencyUnavailable "control-state provider event page is not ordered";
      rest ← check_page self cluster_id (ev_sequence ev) events';
      Ok (ev :: rest)
  end.

Definition read (self : Coordinator) (cluster_id after_sequence limit : pyval)
  : eff S (list ControlStateEvent) :=
  cluster ← lift (_required_text "cluster_id is required" cluster_id);
  after ← lift (_cursor after_sequence);
  bound ← lift (_limit limit);
  events ← call "read" (λ s, co_read self s cluster after bound);
  match events with
  | None => lift (throw DependencyUnavailable "control-state provider returned an invalid event page")
  | Some l =>
      _ ← lift (require (zlen l <=? bound) DependencyUnavailable
                  "control-state provider returned an invalid event page");
      lift (check_page self cluster after l)
  end.

Definition prepare_takeover (self : Coordinator) (ownership : dyn OwnershipScope)
    (event : dyn ControlStateEvent) (new_owner_id : pyval)
    (acknowledgement : option (dyn ReplicationAcknowledgement))
  : eff S ControlStateTakeoverAttempt :=
  own ← lift (instance_of "ownership must be an OwnershipScope" ownership);
  ev ← lift (instance_of "event must be a ControlStateEvent" event);
  scope ← lift (ControlStateEvent_scope ev);
  _ ← lift (require (bool_decide (scope = own)) ValueError "event scope does not match ownership");
  _ ← lift (_required_text "new_owner_id is required" new_owner_id);
  _ ← lift (OwnershipScope_init (PStr (os_cluster_id own)) (PStr (os_resource_kind own))
              (PStr (os_resource_id own)) new_owner_id (PInt (os_epoch own)));
  ack ← match acknowledgement with
        | None => append self (Inst ev)
        | Some a => lift (_validate_ack self ev a)
        end;
  fence ← call "fence" (λ s, co_fence self s own);
  receipt ← lift match fence with
                 | Inst r => Ok r
                 | Foreign => throw DependencyUnavailable
                     "control-state provider returned an invalid fence receipt"
                 end;
  decision ← lift (evaluate_takeover (Inst own) new_owner_id (Inst ev) (Inst ack) (Inst receipt)
                     (Some (Inst (co_capabilities self))) (PInt (co_minimum self)));
  lift (Attempt_init (Inst own) new_owner_id (Inst ev) (Inst ack) (Inst receipt)
          (Inst decision)).
End Coordinator.
Arguments Coordinator : clear implicits.

Arguments append : simpl never.
Arguments read : simpl never.
Arguments prepare_takeover : simpl never.
Arguments _validate_ack : simpl never.
#[local] Arguments validate_replication_acknowledgement : simpl never.
#[local] Arguments evaluate_takeover : simpl never.

(** ** Effects, inverted *)

Section Effects.
Context {S : Type}.

Lemma eff_bind_ok {A B} (m : eff S A) (f : A → eff S B) s s' b :
  (m ≫= f) s = (s', Ok b) ↔ ∃ s1 a, m s = (s1, Ok a) ∧ f a s1 = (s', Ok b).
Proof.
  unfold mbind, eff_bind. split.
  - destruct (m s) as [s1 [a|e]]; [|done]. intros H. by exists s1, a.
  - by intros (s1 & a & -> & H).
Qed.

Lemma lift_bind_ok {A B} (m : res A) (f : A → eff S B) s s' b :
  (lift m ≫= f) s = (s', Ok b) ↔ ∃ a, m = Ok a ∧ f a s = (s', Ok b).
Proof.
  rewrite eff_bind_ok. split; [|intros (a & -> & ?); by exists s, a].
  by intros (s1 & a & [= <- ->] & ?); exists a.
Qed.

Lemma lift_bind_run {A B} (m : res A) (f : A → eff S B) s :
  (lift m ≫= f) s = match m with Ok a => f a s | Err e => (s, Err e) end.
Proof. by destruct m. Qed.

Lemma call_bind_ok {A B} op (f : S → S * outcome A) (k : A → eff S B) s s' b :
  (call op f ≫= k) s = (s', Ok b) ↔ ∃ s1 a, f s = (s1, Returns a) ∧ k a s1 = (s', Ok b).
Proof.
  rewrite eff_bind_ok. unfold call. split.
  - intros (s1 & a & H & Hk). destruct (f s) as [s2 [a'| |]]; simplify_eq. by exists s1, a.
  - intros (s1 & a & -> & Hk). by exists s1, a.
Qed.

Lemma call_bind_run {A B} op (f : S → S * outcome A) (k : A → eff S B) s :
  ∃ e, exn_cls e = DependencyUnavailable ∧
  (call op f ≫= k) s = match (f s).2 with Returns a => k a (f s).1 | _ => ((f s).1, Err e) end.
Proof.
  unfold mbind, eff_bind, call. destruct (f s) as [s' [a|msg|n]]; simpl.
  - by exists (Raise DependencyUnavailable "").
  - by eexists; split; [|reflexivity].
  - by eexists; split; [|reflexivity].
Qed.
End Effects.

(** ** Lemmas *)

Lemma validate_total ev ack prov m :
  1 <= m <= MAX_REPLICA_IDS →
  ∃ d, validate_replication_acknowledgement (Inst ev) (Inst ack) (Inst prov) (PInt m) = Ok d.
Proof.
  intros Hm. unfold validate_replication_acknowledgement.
  rewrite (bind_Ok _ _ m) by (by apply check_int_PInt). repeat case_match; by eexists.
Qed.

Lemma evaluate_takeover_total own new ev ack receipt prov m :
  1 <= m <= MAX_REPLICA_IDS → ControlStateEvent_scope ev = Ok own →
  ∃ d, evaluate_takeover (Inst own) new (Inst ev) (Inst ack) (Inst receipt) (Some (Inst prov))
         (PInt m) = Ok d.
Proof.
  intros Hm Hs. destruct (validate_total ev ack prov m Hm) as [r Hr].
  unfold evaluate_takeover. rewrite Hs, Hr. cbn [mbind res_bind]. repeat case_match; by eexists.
Qed.

Lemma OwnershipScope_init_owner own new :
  is_identity new = true →
  (∃ ev, ControlStateEvent_scope ev = Ok own) →
  ∃ o, OwnershipScope_init (PStr (os_cluster_id own)) (PStr (os_resource_kind own))
         (PStr (os_resource_id own)) (PStr new) (PInt (os_epoch own)) = Ok o.
Proof.
  intros Hn [ev Hs]. unfold ControlStateEvent_scope, OwnershipScope_init, Availability._identity,
    _positive_integer in *. res_inv.
  match goal with H : Availability._resource_kind _ = Ok _ |- _ =>
    apply Availability._resource_kind_ok in H as ([= <-] & ? & ?) end.
  eexists. res_eval. rewrite (bind_Ok _ _ (ev_resource_kind ev))
    by (by apply Availability._resource_kind_PStr). by res_eval.
Qed.

Section Facts.
Context {S : Type}.
Implicit Types (self : Coordinator S) (s : S).

Lemma Coordinator_init_minimum (provider : Provider S) caps m self :
  Coordinator_init provider caps m = Ok self → 2 <= co_minimum self <= MAX_REPLICA_IDS.
Proof.
  unfold Coordinator_init. intros H. res_inv. unfold _MAX_REPLICAS, MAX_REPLICA_IDS in *. lia.
Qed.

Lemma _validate_ack_ok self ev x ack :
  _validate_ack self ev x = Ok ack
  → x = Inst ack ∧ AcknowledgedOn ev ack (co_capabilities self) (co_minimum self).
Proof.
  unfold _validate_ack. intros H. destruct x as [k|]; res_inv.
  match goal with H : validate_replication_acknowledgement _ _ _ _ = Ok _ |- _ =>
    apply validate_accepted in H as (? & ? & ? & ? & ? & ? & ? & ? & Ha & _); [|done] end.
  by simplify_eq.
Qed.

Lemma _validate_ack_run self ev ack :
  AcknowledgedOn ev ack (co_capabilities self) (co_minimum self) →
  _validate_ack self ev (Inst ack) = Ok ack.
Proof. intros Ha. unfold _validate_ack. by rewrite (validate_complete _ _ _ _ Ha). Qed.

Lemma _validate_ack_raises self ev x :
  1 <= co_minimum self <= MAX_REPLICA_IDS →
  raises_only DependencyUnavailable (_validate_ack self ev x).
Proof.
  intros Hm. unfold _validate_ack. destruct x as [k|]; [|apply raises_only_throw].
  destruct (validate_total ev k (co_capabilities self) _ Hm) as [d ->]. simpl. raises_tac.
Qed.

(** The acknowledgement a takeover works with: the provider's answer to the
    append, or the one the caller supplies. *)
Definition collected self (ev : ControlStateEvent)
    (given : option (dyn ReplicationAcknowledgement)) s s1 (ack : ReplicationAcknowledgement)
  : Prop :=
  match given with
  | None => co_append self s ev = (s1, Returns (Inst ack))
  | Some x => s1 = s ∧ x = Inst ack
  end
  ∧ AcknowledgedOn ev ack (co_capabilities self) (co_minimum self).

Lemma append_iff self ev s s1 ack :
  append self (Inst ev) s = (s1, Ok ack) ↔ collected self ev None s s1 ack.
Proof.
  unfold append, collected. rewrite lift_bind_ok. split.
  - intros (? & [= <-] & H). apply lift_bind_ok in H as (? & Hv & H).
    apply call_bind_ok in H as (s2 & k & Hc & [= -> H]).
    by apply _validate_ack_ok in H as [-> ?].
  - intros [Hc Ha]. exists ev. split; [done|]. apply lift_bind_ok. exists tt.
    split; [apply require_true, Z.eqb_eq; by destruct Ha as [_ [_ ?] _ _ _ _ _]|].
    apply call_bind_ok. exists s1, (Inst ack). split; [done|]. unfold lift.
    by rewrite _validate_ack_run.
Qed.

Lemma collect_iff self ev given s s1 ack :
  match given with
  | None => append self (Inst ev)
  | Some a => lift (_validate_ack self ev a)
  end s = (s1, Ok ack) ↔ collected self ev given s s1 ack.
Proof.
  destruct given as [x|]; [|apply append_iff]. unfold lift, collected. split.
  - intros [= -> H]. by apply _validate_ack_ok in H as [-> ?].
  - intros [[-> ->] Ha]. by rewrite _validate_ack_run.
Qed.

(** The events of a page, as the coordinator must find them. *)
Definition ordered_page self (cluster : string) (after : Z) (evs : list ControlStateEvent) : Prop :=
  Forall (λ ev, ev_cluster_id ev = cluster
                ∧ ev_protocol_version ev = cap_protocol_version (co_capabilities self)) evs
  ∧ StronglySorted Z.lt (after :: (ev_sequence <$> evs)).

Lemma check_page_ok self cluster after events evs :
  check_page self cluster after events = Ok evs
  ↔ events = Inst <$> evs ∧ ordered_page self cluster after evs.
Proof.
  unfold ordered_page. revert after evs.
  induction events as [|[ev|] events IH]; intros after evs; simpl.
  - split; [intros [= <-]; by repeat constructor|]. intros [H _]. by destruct evs.
  - split.
    + intros H. res_inv. to_prop. apply IH in Hok0 as (-> & Hf & Hs).
      apply String.eqb_eq in H. split; [done|]. split; [by constructor|].
      simpl. constructor; [done|]. apply StronglySorted_inv in Hs as [Hs Hall].
      constructor; [done|]. eapply List.Forall_impl; [|exact Hall]. simpl. lia.
    + intros (He & Hf & Hs). destruct evs as [|e evs]; [done|]. simpl in He. simplify_eq.
      apply Forall_cons in Hf as [[Hc Hv] Hf]. simpl in Hs.
      apply StronglySorted_inv in Hs as [Hs Hall]. apply Forall_cons in Hall as [Hlt _].
      rewrite bind_Ok with (a := tt).
      2:{ apply require_true. rewrite Hc, Hv, String.eqb_refl, Z.eqb_refl. simpl.
          by apply negb_true_iff, Z.leb_gt. }
      erewrite bind_Ok by (by apply IH). done.
  - split; [done|]. intros [H _]. by destruct evs.
Qed.

Lemma check_page_raises self cluster after events :
  raises_only DependencyUnavailable (check_page self cluster after events).
Proof.
  revert after. induction events as [|[ev|] events IH]; intros after; simpl; raises_tac; apply IH.
Qed.
End Facts.

Section Prepare.
Context {S : Type}.
Implicit Types (self : Coordinator S) (s : S).

(** A prepared attempt, step by step. *)
Lemma prepare_takeover_ok self own ev new given s s' a :
  prepare_takeover self (Inst own) (Inst ev) (PStr new) given s = (s', Ok a) →
  ControlStateEvent_scope ev = Ok own ∧ is_identity new = true
  ∧ ∃ s1, collected self ev given s s1 (at_acknowledgement a)
    ∧ co_fence self s1 own = (s', Returns (Inst (at_fence_receipt a)))
    ∧ evaluate_takeover (Inst own) (PStr new) (Inst ev) (Inst (at_acknowledgement a))
        (Inst (at_fence_receipt a)) (Some (Inst (co_capabilities self)))
        (PInt (co_minimum self)) = Ok (at_decision a)
    ∧ at_ownership a = own ∧ at_event a = ev ∧ at_new_owner_id a = new.
Proof.
  unfold prepare_takeover. intros H. simpl in H. rewrite !lift_bind_ok in H.
  destruct H as (? & [= <-] & H). rewrite lift_bind_ok in H. destruct H as (? & [= <-] & H).
  rewrite lift_bind_ok in H. destruct H as (scope & Hs & H).
  rewrite lift_bind_ok in H. destruct H as (? & Heq%require_ok & H).
  apply bool_decide_eq_true in Heq as ->.
  rewrite lift_bind_ok in H. destruct H as (? & _ & H).
  rewrite lift_bind_ok in H. destruct H as (o & Ho & H).
  apply eff_bind_ok in H as (s1 & ack & Hack%collect_iff & H).
  apply call_bind_ok in H as (s2 & f & Hf & H).
  rewrite lift_bind_ok in H. destruct H as (r & Hr & H). destruct f as [f|]; [|done].
  injection Hr as ->. rewrite lift_bind_ok in H. destruct H as (d & Hd & [= -> H]).
  unfold Attempt_init, _required_text in H. res_inv.
  unfold OwnershipScope_init, Availability._identity in Ho. res_inv. by eauto 10.
Qed.

Lemma prepare_takeover_run self own ev new given s s1 s' ack f :
  1 <= co_minimum self <= MAX_REPLICA_IDS →
  ControlStateEvent_scope ev = Ok own → is_identity new = true →
  collected self ev given s s1 ack → co_fence self s1 own = (s', Returns (Inst f)) →
  ∃ a, prepare_takeover self (Inst own) (Inst ev) (PStr new) given s = (s', Ok a).
Proof.
  intros Hm Hs Hn Hc Hf.
  destruct (evaluate_takeover_total own (PStr new) ev ack f (co_capabilities self) _ Hm Hs) as [d Hd].
  destruct (OwnershipScope_init_owner own new Hn (ex_intro _ ev Hs)) as [o Ho].
  assert (_required_text "new_owner_id is required" (PStr new) = Ok new) as Ht.
  { apply check_str_PStr. by destruct new. }
  exists (mk_Attempt own new ev ack f d). unfold prepare_takeover.
  rewrite !lift_bind_run. simpl. rewrite lift_bind_run. simpl. rewrite lift_bind_run, Hs.
  rewrite lift_bind_run, bool_decide_eq_true_2 by done. simpl.
  rewrite lift_bind_run, Ht, lift_bind_run, Ho.
  apply eff_bind_ok. exists s1, ack. split; [by apply collect_iff|].
  apply call_bind_ok. exists s', (Inst f). split; [done|].
  rewrite lift_bind_run, lift_bind_run, Hd. unfold lift, Attempt_init. simpl.
  rewrite Ht. simpl. rewrite Ho. simpl. rewrite Hs. simpl. by rewrite bool_decide_eq_true_2.
Qed.

End Prepare.

(** ** Theorems *)

Section Theorems.
Context {S : Type}.
Implicit Types (self : Coordinator S) (s : S).

(** An append reports success only with the event's own durable evidence.
    It returns an acknowledgement exactly when the provider answered this event
    with it and it is accepted: same event, cluster, epoch, sequence, protocol and
    provider, durable, on the minimum number of recognised data replicas.  Every
    failure, whatever the provider raised or returned, is reported as
    [DependencyUnavailable], and an event of another protocol version never
    reaches the provider. *)
Theorem append_evidence_iff (provider : Provider S) caps m self ev s :
  Coordinator_init provider caps m = Ok self →
  (∀ s' ack, append self (Inst ev) s = (s', Ok ack)
     ↔ co_append self s ev = (s', Returns (Inst ack))
       ∧ AcknowledgedOn ev ack (co_capabilities self) (co_minimum self))
  ∧ raises_only DependencyUnavailable (append self (Inst ev) s).2
  ∧ (ev_protocol_version ev ≠ cap_protocol_version (co_capabilities self) →
     (append self (Inst ev) s).1 = s).
Proof.
  intros Hm%Coordinator_init_minimum. split; [intros s' ack; apply append_iff|].
  unfold append. rewrite lift_bind_run. simpl. rewrite lift_bind_run.
  destruct (Z.eqb_spec (ev_protocol_version ev) (cap_protocol_version (co_capabilities self)))
    as [Hv|Hv]; simpl; [|by split; [apply raises_only_throw|]].
  split; [|done].
  match goal with |- context [(call ?op ?f ≫= ?k) s] =>
    destruct (call_bind_run op f k s) as (e' & He & ->) end.
  destruct (co_append self s ev).2; simpl;
    [apply _validate_ack_raises; lia|intros ? [= <-]; done..].
Qed.

(** What a read returns.  A page is returned exactly when the arguments are
    in bounds and the provider answered with a tuple of at most [limit] events,
    all of the cluster and the protocol version, with sequence numbers strictly
    increasing and all above the cursor; the page is the provider's, unchanged.
    With arguments in bounds every failure is [DependencyUnavailable]. *)
Theorem read_page_iff self cluster after limit s :
  (∀ s' evs, read self (PStr cluster) (PInt after) (PInt limit) s = (s', Ok evs)
     ↔ cluster ≠ "" ∧ 0 <= after <= _MAX_CURSOR ∧ 1 <= limit <= _MAX_READ_LIMIT
       ∧ co_read self s cluster after limit = (s', Returns (Some (Inst <$> evs)))
       ∧ zlen evs <= limit ∧ ordered_page self cluster after evs)
  ∧ (cluster ≠ "" ∧ 0 <= after <= _MAX_CURSOR ∧ 1 <= limit <= _MAX_READ_LIMIT →
     raises_only DependencyUnavailable (read self (PStr cluster) (PInt after) (PInt limit) s).2).
Proof.
  unfold read, _required_text, _cursor, _limit. split.
  - intros s' evs. rewrite lift_bind_ok. split.
    + intros (c & [[= <-] Hc]%check_str_ok & H). apply lift_bind_ok in H as (z & Hz & H).
      apply lift_bind_ok in H as (b & Hb & H). apply check_int_ok in Hz as [[= <-] ?], Hb as [[= <-] ?].
      apply call_bind_ok in H as (s1 & [l|] & Hr & H); [|done].
      apply lift_bind_ok in H as (? & Hl%require_ok & [= -> H]).
      apply check_page_ok in H as [-> ?]. apply negb_true_iff, String.eqb_neq in Hc.
      apply Z.leb_le in Hl. unfold zlen in *. rewrite length_fmap in Hl.
      by repeat (split; [done|]).
    + intros (Hc & Ha & Hb & Hr & Hl & Hp). exists cluster. split.
      { apply check_str_PStr. by apply negb_true_iff, String.eqb_neq. }
      apply lift_bind_ok. exists after. split; [by apply check_int_PInt|].
      apply lift_bind_ok. exists limit. split; [by apply check_int_PInt|].
      apply call_bind_ok. exists s', (Some (Inst <$> evs)). split; [done|].
      apply lift_bind_ok. exists tt. split.
      { apply require_true, Z.leb_le. unfold zlen in *. by rewrite length_fmap. }
      unfold lift. f_equal. by apply check_page_ok.
  - intros (Hc & Ha & Hb). rewrite lift_bind_run, check_str_PStr
      by (by apply negb_true_iff, String.eqb_neq).
    rewrite lift_bind_run, check_int_PInt by done. rewrite lift_bind_run, check_int_PInt by done.
    match goal with |- context [(call ?op ?f ≫= ?k) s] =>
      destruct (call_bind_run op f k s) as (e' & He & ->) end.
    destruct (co_read self s cluster after limit).2 as [[l|]| |]; simpl;
      [|apply raises_only_throw|intros ? [= <-]; done..].
    rewrite lift_bind_run. unfold require. destruct (_ <=? _); simpl;
      [apply check_page_raises|apply raises_only_throw].
Qed.
(** What a prepared takeover means.  With an identity for the new owner, an
    attempt is returned exactly when the event is about this ownership, accepted
    evidence was collected and the provider then returned a fence receipt; the
    attempt records exactly these, and its decision allows the takeover exactly
    when the evidence satisfies the takeover contract. *)
Theorem prepare_takeover_iff (provider : Provider S) caps m self own ev new given s :
  Coordinator_init provider caps m = Ok self → is_identity new = true →
  (∀ s', (∃ a, prepare_takeover self (Inst own) (Inst ev) (PStr new) given s = (s', Ok a))
     ↔ ControlStateEvent_scope ev = Ok own
       ∧ ∃ s1 ack f, collected self ev given s s1 ack
           ∧ co_fence self s1 own = (s', Returns (Inst f)))
  ∧ ∀ s' a, prepare_takeover self (Inst own) (Inst ev) (PStr new) given s = (s', Ok a) →
      (∃ s1, collected self ev given s s1 (at_acknowledgement a)
         ∧ co_fence self s1 own = (s', Returns (Inst (at_fence_receipt a))))
      ∧ at_ownership a = own ∧ at_event a = ev ∧ at_new_owner_id a = new
      ∧ (td_allowed (at_decision a) = true
         ↔ TakeoverEvidence own new ev (at_acknowledgement a) (at_fence_receipt a)
             (co_capabilities self) (co_minimum self)).
Proof.
  intros Hm%Coordinator_init_minimum Hn. split.
  - intros s'. split.
    + intros (a & (Hs & _ & s1 & Hc & Hf & _)%prepare_takeover_ok). by eauto 10.
    + intros (Hs & s1 & ack & f & Hc & Hf).
      eapply prepare_takeover_run; [|done..]. lia.
  - intros s' a (Hs & _ & s1 & Hc & Hf & Hd & Ho & He & Hnew)%prepare_takeover_ok.
    split; [by eauto|]. split_and!; [done..|]. split.
    + intros Hal. destruct (evaluate_takeover_sound _ _ _ _ _ _ _ _ Hd Hal)
        as (? & ? & ? & ? & ? & ? & ? & ? & ? & ? & ? & ? & ? & ? & Hev & _). by simplify_eq/=.
    + intros Hev. erewrite evaluate_takeover_complete in Hd by (exact Hev || done).
      by injection Hd as <-.
Qed.

(** No fence without evidence.  However a preparation ends, with any
    provider, also one that records its calls, the provider was asked nothing, or
    only to append the event, or to fence this owner after accepted evidence for
    the event was in hand. *)
Theorem prepare_takeover_fences_last self own ev new given s s' r :
  prepare_takeover self (Inst own) (Inst ev) (PStr new) given s = (s', r) →
  s' = s ∨ (given = None ∧ s' = (co_append self s ev).1)
  ∨ ∃ s1 ack, collected self ev given s s1 ack ∧ s' = (co_fence self s1 own).1.
Proof.
  unfold prepare_takeover. intros H. do 2 (rewrite lift_bind_run in H; simpl in H).
  rewrite lift_bind_run in H. destruct (ControlStateEvent_scope ev) as [scope|]; [|simplify_eq; by left].
  rewrite lift_bind_run in H. destruct (require _ _ _) in H; [|simplify_eq; by left].
  rewrite lift_bind_run in H. destruct (_required_text _ _) in H; [|simplify_eq; by left].
  rewrite lift_bind_run in H. destruct (OwnershipScope_init _ _ _ _ _) in H; [|simplify_eq; by left].
  unfold mbind at 1 in H. unfold eff_bind at 1 in H.
  match type of H with match ?m with _ => _ end = _ => destruct m as [s1 [ack|e]] eqn:Hc end.
  - apply collect_iff in Hc. right. right. exists s1, ack. split; [done|].
    match type of H with (call ?op ?f ≫= ?k) s1 = _ =>
      destruct (call_bind_run op f k s1) as (e' & _ & Hrun) end.
    cbn beta in Hrun. rewrite Hrun in H. destruct (co_fence self s1 own).2 as [x| |]; [|by simplify_eq..].
    rewrite lift_bind_run in H. destruct x; [|by injection H as <- _].
    rewrite lift_bind_run in H. destruct (evaluate_takeover _ _ _ _ _ _ _); by injection H as <- _.
  - injection H as <- _. destruct given as [x|]; [left; by injection Hc|].
    unfold append in Hc. do 2 (rewrite lift_bind_run in Hc; simpl in Hc).
    destruct (require _ _ _) in Hc; [|left; by injection Hc].
    right. left. split; [done|].
    match type of Hc with (call ?op ?f ≫= ?k) s = _ =>
      destruct (call_bind_run op f k s) as (e' & _ & Hrun) end.
    cbn beta in Hrun. rewrite Hrun in Hc. destruct (co_append self s ev).2; by injection Hc.
Qed.
End Theorems.

(** The proof of takeover an allowed attempt supports. *)
Definition attempt_proof (a : ControlStateTakeoverAttempt) : TakeoverProof :=
  mk_TakeoverProof (os_cluster_id (at_ownership a)) (os_resource_kind (at_ownership a))
    (os_resource_id (at_ownership a)) (os_owner_id (at_ownership a)) (os_epoch (at_ownership a))
    (fr_receipt_id (at_fence_receipt a)) (ack_owner_epoch (at_acknowledgement a))
    (ack_data_replica_ids (at_acknowledgement a)).

(** An allowed attempt is enough to promote.  When the coordinator's decision
    allows the takeover and the ownership authority holds the lease the attempt
    is about, the proof made of the attempt's receipts is well formed and the
    authority accepts it and grants the new owner exactly the epoch the decision announced. *)
Theorem allowed_attempt_promotes {S} (provider : Provider S) caps m self own ev new given s s' a
    authority current ttl now token :
  Coordinator_init provider caps m = Ok self →
  prepare_takeover self (Inst own) (Inst ev) (PStr new) given s = (s', Ok a) →
  td_allowed (at_decision a) = true →
  wf_acknowledgement (at_acknowledgement a) → wf_receipt (at_fence_receipt a) →
  authority_inv authority → au_cluster_id authority = os_cluster_id own →
  au_leases authority !! (os_resource_kind own, os_resource_id own, os_cluster_id own)
    = Some current →
  ol_owner_id current = os_owner_id own → ol_epoch current = os_epoch own →
  can_issue authority (os_resource_kind own) (os_resource_id own) new (os_epoch own + 1)
    ttl now token →
  TakeoverProof_init (PStr (os_cluster_id own)) (PStr (os_resource_kind own))
    (PStr (os_resource_id own)) (PStr (os_owner_id own)) (PInt (os_epoch own))
    (PStr (fr_receipt_id (at_fence_receipt a))) (PInt (ack_owner_epoch (at_acknowledgement a)))
    (PTuple (PStr <$> ack_data_replica_ids (at_acknowledgement a))) = Ok (attempt_proof a)
  ∧ ∃ authority' l,
    takeover authority (Inst (attempt_proof a)) (PStr new) (PInt ttl) None (PFloat now) token
      = Ok (authority', l)
    ∧ ol_owner_id l = new ∧ td_next_epoch (at_decision a) = Some (ol_epoch l).
Proof.
  intros Hm%Coordinator_init_minimum Hp Hal Wa Hw Hinv Hcl Hcur Ho He Hcan.
  apply prepare_takeover_ok in Hp as (_ & _ & s1 & _ & _ & Hd & Hao & Hae & _).
  destruct (evaluate_takeover_sound _ _ _ _ _ _ _ _ Hd Hal)
    as (? & cand & ? & ? & ? & ? & ? & ? & [= Hcand] & ? & ? & ? & ? & ? & Hev & Hdec).
  subst cand. simplify_eq/=.
  destruct Hev as [_ Hne _ _ _ Hs [_ _ _ (_ & _ & Hep & _) _ _ Hcount] _ _ _ _ _].
  assert (ev_owner_epoch (at_event a) = os_epoch (at_ownership a)) as Hevo.
  { unfold ControlStateEvent_scope, OwnershipScope_init, _positive_integer in Hs. res_inv.
    by match goal with H : _ = at_ownership a |- _ => rewrite <-H end. }
  destruct (ai_lease _ Hinv _ _ Hcur) as (Hk & Hcc & [? ? ? ? ? _ _] & _).
  pose proof (wfa_data _ Wa) as [Hids Hmax Hnd]. unfold OwnerLease_key in Hk. split.
  { pose proof (wfa_epoch _ Wa). pose proof Hcan as (? & ? & _).
    pose proof (identity_length _ (wfr_receipt _ Hw)). unfold MAX_REPLICA_IDS in *.
    apply TakeoverProof_run; try done; try congruence; try lia.
    unfold MAX_REPLICAS_IN_PROOF. lia. }
  destruct (takeover_granted authority (attempt_proof a) current new ttl now token)
    as (au' & l & Ht & Hl & Hle); try done; simpl in *; try congruence; try lia.
  - by apply identity_not_blank, Hw.
  - exists au', l. split_and!; [done|done|]. rewrite Hdec. simpl. congruence.
Qed.

(** ** A sample provider *)

Module ControlSample.
Import Availability.Sample.

(** It counts its calls, acknowledges every event and fences every owner. *)
Definition service : Provider nat :=
  mk_Provider (Some (λ n _, (n + 1, Returns (Inst ack))%nat))
    (Some (λ n _ _ _, (n + 1, Returns (Some [Inst event]))%nat))
    (Some (λ n _, (n + 1, Returns (Inst receipt))%nat)) (PInt 1) (PStr "prov").

Definition coordinator : Coordinator nat :=
  mk_Coordinator (λ n _, (n + 1, Returns (Inst ack))%nat)
    (λ n _ _ _, (n + 1, Returns (Some [Inst event]))%nat)
    (λ n _, (n + 1, Returns (Inst receipt))%nat) provider 2.

Lemma coordinator_init :
  Coordinator_init service (Inst provider) (PInt 2) = Ok coordinator.
Proof. reflexivity. Qed.

Definition attempt : ControlStateTakeoverAttempt :=
  mk_Attempt own "node-b" event ack receipt
    (mk_TakeoverDecision true "takeover-proof-satisfied" (Some 5) 2).

Lemma prepared :
  prepare_takeover coordinator (Inst own) (Inst event) (PStr "node-b") None 0%nat
  = (2%nat, Ok attempt).
Proof. reflexivity. Qed.

Lemma receipt_wf : wf_receipt receipt.
Proof.
  by apply (FenceReceipt_init_wf (PStr "rc-1") (PStr "c1") (PStr "job") (PStr "job-7")
    (PStr "node-a") (PInt 4) (PStr "prov") (PInt 1) (PEnum "PartitionState" "safe")
    (PBool true) (PBool true)).
Qed.

(** An authority whose job is held by [node-a] in epoch 4. *)
Definition held : OwnerLease :=
  mk_OwnerLease "c1" "job" "job-7" "node-a" 4 "tok-a" (NFloat (f64_of_Z 30)).
Definition holder : Authority := store (mk_Authority "c1" 8 ∅ ∅) (OwnerLease_key held) held 4.

Lemma holder_inv : authority_inv holder.
Proof.
  split; unfold holder, store; simpl.
  - intros k l [[<- <-]|[_ ?]]%lookup_insert_Some; [|done].
    split_and!; [done..| |by rewrite lookup_insert_eq]. by split; vm_compute.
  - intros k e [[_ <-]|[_ ?]]%lookup_insert_Some; done.
  - by vm_compute.
Qed.
End ControlSample.

Lemma append_evidence_iff_witness :
  append ControlSample.coordinator (Inst Sample.event) 0%nat = (1%nat, Ok Sample.ack).
Proof.
  apply (append_evidence_iff ControlSample.service (Inst Sample.provider) (PInt 2)
    ControlSample.coordinator Sample.event 0%nat ControlSample.coordinator_init).
  split; [reflexivity|]. split; simpl; try done. set_solver.
Defined.

Lemma read_page_iff_witness :
  read ControlSample.coordinator (PStr "c1") (PInt 3) (PInt 10) 0%nat
  = (1%nat, Ok [Sample.event]).
Proof.
  apply read_page_iff. split_and!; try done; repeat constructor.
Defined.

Lemma prepare_takeover_iff_witness : td_allowed (at_decision ControlSample.attempt) = true.
Proof.
  destruct (proj2 (prepare_takeover_iff ControlSample.service (Inst Sample.provider) (PInt 2)
    ControlSample.coordinator Sample.own Sample.event "node-b" None 0%nat
    ControlSample.coordinator_init eq_refl) _ _ ControlSample.prepared) as (_ & _ & _ & _ & H).
  apply H. split; try done. split; simpl; try done. set_solver.
Defined.

Lemma prepare_takeover_fences_last_witness :
  2%nat = 0%nat ∨ (@None (dyn ReplicationAcknowledgement) = None ∧ 2%nat = 1%nat)
  ∨ ∃ s1 ack, collected ControlSample.coordinator Sample.event None 0%nat s1 ack
      ∧ 2%nat = (co_fence ControlSample.coordinator s1 Sample.own).1.
Proof.
  exact (prepare_takeover_fences_last _ _ _ _ _ _ _ _ ControlSample.prepared).
Defined.

Lemma allowed_attempt_promotes_witness :
  ∃ authority' l,
    takeover ControlSample.holder (Inst (attempt_proof ControlSample.attempt)) (PStr "node-b")
      (PInt 30) None (PFloat (f64_of_Z 10)) "tok-b" = Ok (authority', l) ∧ ol_epoch l = 5.
Proof.
  destruct (allowed_attempt_promotes ControlSample.service (Inst Sample.provider) (PInt 2)
    ControlSample.coordinator Sample.own Sample.event "node-b" None 0%nat 2%nat
    ControlSample.attempt ControlSample.holder ControlSample.held 30 (f64_of_Z 10) "tok-b"
    ControlSample.coordinator_init ControlSample.prepared eq_refl sample_ack_wf
    ControlSample.receipt_wf ControlSample.holder_inv eq_refl) as (_ & au' & l & Ht & _ & He).
  - by vm_compute.
  - done.
  - done.
  - unfold can_issue. split_and!; try (by vm_compute). right. by vm_compute.
  - exists au', l. split; [exact Ht|]. by injection He.
Defined.
