(* ===== verification/WorkStealing.v ===== *)
(** Work-stealing task scheduler ([sonder_runtime/domain/work_stealing.py]).

    A deque is a list with the oldest item first.  Items are Python values of a
    type [T]; an item that is the value [None] is [None] of [option T], because
    the code uses [None] as its empty answer.  The dictionary of workers is an
    association list in insertion order, which the search for a victim follows.
    The deque [add_worker] returns is a handle on the one the scheduler keeps; a
    run uses it only through the scheduler's operations. *)
From S2P Require Import Prelude.

Local Open Scope Z_scope.

Section Scheduler.
Context {T : Type}.
Abbreviation item := (option T).

Record StealResult := mk_StealResult {
  sr_item : item;
  sr_source_worker : string;
  sr_stolen : bool
}.

Record WorkerDeque := mk_WorkerDeque {
  wd_worker_id : string;
  wd_deque : list item;
  wd_maxlen : option Z;
  wd_completed : Z;
  wd_stolen_from : Z
}.

Definition WorkerDeque_init (worker_id : string) (max_size : Z) : WorkerDeque :=
  mk_WorkerDeque worker_id [] (if 0 <? max_size then Some max_size else None) 0 0.

Definition set_deque (d : WorkerDeque) (q : list item) : WorkerDeque :=
  mk_WorkerDeque (wd_worker_id d) q (wd_maxlen d) (wd_completed d) (wd_stolen_from d).

Definition push (d : WorkerDeque) (x : item) : WorkerDeque * bool :=
  match wd_maxlen d with
  | Some m => if m <=? zlen (wd_deque d) then (d, false)
              else (set_deque d (wd_deque d ++ [x]), true)
  | None => (set_deque d (wd_deque d ++ [x]), true)
  end.

(** Without the last element of a list, and the element. *)
Definition pop_last {A} (l : list A) : option (list A * A) :=
  match reverse l with [] => None | x :: r => Some (reverse r, x) end.

Definition pop (d : WorkerDeque) : WorkerDeque * item :=
  match pop_last (wd_deque d) with
  | Some (q, x) => (set_deque d q, x)
  | None => (d, None)
  end.

Definition steal (d : WorkerDeque) : WorkerDeque * item :=
  match wd_deque d with
  | x :: q => (mk_WorkerDeque (wd_worker_id d) q (wd_maxlen d) (wd_completed d)
                 (wd_stolen_from d + 1), x)
  | [] => (d, None)
  end.

Definition mark_completed (d : WorkerDeque) : WorkerDeque :=
  mk_WorkerDeque (wd_worker_id d) (wd_deque d) (wd_maxlen d) (wd_completed d + 1)
    (wd_stolen_from d).

Definition dq_size (d : WorkerDeque) : Z := zlen (wd_deque d).
Definition dq_empty (d : WorkerDeque) : bool := dq_size d =? 0.

Record WorkStealingScheduler := mk_Scheduler {
  ws_workers : list (string * WorkerDeque);
  ws_total_submitted : Z;
  ws_total_steals : Z
}.

Definition Scheduler_init : WorkStealingScheduler := mk_Scheduler [] 0 0.

(** [self._workers.get(worker_id)] and the update of the deque object found. *)
Fixpoint find_worker (id : string) (l : list (string * WorkerDeque)) : option WorkerDeque :=
  match l with
  | [] => None
  | (k, d) :: l' => if String.eqb k id then Some d else find_worker id l'
  end.
Fixpoint set_worker (id : string) (d : WorkerDeque) (l : list (string * WorkerDeque))
  : list (string * WorkerDeque) :=
  match l with
  | [] => []
  | (k, d') :: l' => if String.eqb k id then (k, d) :: l' else (k, d') :: set_worker id d l'
  end.

Definition with_workers (s : WorkStealingScheduler) (l : list (string * WorkerDeque))
  : WorkStealingScheduler := mk_Scheduler l (ws_total_submitted s) (ws_total_steals s).

Definition add_worker (s : WorkStealingScheduler) (worker_id : string) (max_queue : Z)
  : WorkStealingScheduler * WorkerDeque :=
  match find_worker worker_id (ws_workers s) with
  | Some d => (s, d)
  | None =>
      let d := WorkerDeque_init worker_id max_queue in
      (with_workers s (ws_workers s ++ [(worker_id, d)]), d)
  end.

(** [while not dq.empty: item = dq.pop(); if item is not None: ...]; the number
    of rounds is the length of the deque. *)
Fixpoint drain (fuel : nat) (d : WorkerDeque) : list T :=
  match fuel with
  | O => []
  | S fuel' =>
      if dq_empty d then []
      else let '(d', x) := pop d in
           match x with Some t => t :: drain fuel' d' | None => drain fuel' d' end
  end.

Definition remove_worker (s : WorkStealingScheduler) (worker_id : string)
  : WorkStealingScheduler * list T :=
  match find_worker worker_id (ws_workers s) with
  | None => (s, [])
  | Some d =>
      (with_workers s (List.filter (λ kd, negb (String.eqb kd.1 worker_id)) (ws_workers s)),
       drain (length (wd_deque d)) d)
  end.

Definition submit (s : WorkStealingScheduler) (worker_id : string) (x : item)
  : WorkStealingScheduler * bool :=
  match find_worker worker_id (ws_workers s) with
  | None => (s, false)
  | Some d =>
      let '(d', ok) := push d x in
      (mk_Scheduler (set_worker worker_id d' (ws_workers s))
         (if ok then ws_total_submitted s + 1 else ws_total_submitted s) (ws_total_steals s), ok)
  end.

(** The loop that looks for the longest other deque. *)
Fixpoint best_victim (thief_id : string) (best : option (string * WorkerDeque)) (best_size : Z)
    (l : list (string * WorkerDeque)) : option (string * WorkerDeque) :=
  match l with
  | [] => best
  | (wid, d) :: l' =>
      if String.eqb wid thief_id then best_victim thief_id best best_size l'
      else if best_size <? dq_size d then best_victim thief_id (Some (wid, d)) (dq_size d) l'
      else best_victim thief_id best best_size l'
  end.

Definition nothing : StealResult := mk_StealResult None "" false.

Definition try_steal (s : WorkStealingScheduler) (thief_id : string)
  : WorkStealingScheduler * StealResult :=
  match find_worker thief_id (ws_workers s) with
  | None => (s, nothing)
  | Some _ =>
      match best_victim thief_id None 0 (ws_workers s) with
      | None => (s, nothing)
      | Some (wid, victim) =>
          if dq_empty victim then (s, nothing)
          else
            let '(victim', x) := steal victim in
            let workers := set_worker wid victim' (ws_workers s) in
            match x with
            | Some _ => (mk_Scheduler workers (ws_total_submitted s) (ws_total_steals s + 1),
                         mk_StealResult x (wd_worker_id victim) true)
            | None => (with_workers s workers, nothing)
            end
      end
  end.

Definition get_work (s : WorkStealingScheduler) (worker_id : string)
  : WorkStealingScheduler * StealResult :=
  match find_worker worker_id (ws_workers s) with
  | None => (s, nothing)
  | Some d =>
      let '(d', x) := pop d in
      let s' := with_workers s (set_worker worker_id d' (ws_workers s)) in
      match x with
      | Some _ => (s', mk_StealResult x worker_id false)
      | None => try_steal s' worker_id
      end
  end.

Definition worker_count (s : WorkStealingScheduler) : Z := zlen (ws_workers s).

Definition Scheduler_snapshot (s : WorkStealingScheduler) : pyval :=
  PDict [(PStr "workers", PDict ((λ kd : string * WorkerDeque,
            (PStr kd.1, PDict [(PStr "queue_size", PInt (dq_size kd.2));
                               (PStr "completed", PInt (wd_completed kd.2));
                               (PStr "stolen_from", PInt (wd_stolen_from kd.2))]))
            <$> ws_workers s));
         (PStr "total_submitted", PInt (ws_total_submitted s));
         (PStr "total_steals", PInt (ws_total_steals s))].

End Scheduler.

Arguments StealResult : clear implicits.
Arguments WorkerDeque : clear implicits.
Arguments WorkStealingScheduler : clear implicits.
Arguments get_work : simpl never.
Arguments try_steal : simpl never.
Arguments submit : simpl never.
Arguments remove_worker : simpl never.

(** ** Workers as a keyed list *)

Section Lemmas.
Context {T : Type}.
Implicit Types (l : list (string * WorkerDeque T)) (d : WorkerDeque T).

Definition queued l : list (option T) := mjoin ((λ kd, wd_deque kd.2) <$> l).

Lemma find_worker_split id l d :
  find_worker id l = Some d →
  ∃ l1 l2, l = l1 ++ (id, d) :: l2 ∧ (∀ k x, (k, x) ∈ l1 → k ≠ id)
    ∧ ∀ d', set_worker id d' l = l1 ++ (id, d') :: l2.
Proof.
  induction l as [|[k x] l IH]; simpl; [done|]. destruct (String.eqb_spec k id) as [->|Hne].
  - intros [= ->]. exists [], l. split_and!; [done|by intros ? ? ?%elem_of_nil|done].
  - intros (l1 & l2 & -> & Hl & Hset)%IH. exists ((k, x) :: l1), l2. split_and!; [done| |].
    + intros k' x' [[= -> ->]|?]%elem_of_cons; [done|by eapply Hl].
    + intros d'. by rewrite Hset.
Qed.

Lemma find_worker_elem id l d : find_worker id l = Some d → (id, d) ∈ l.
Proof. intros (l1 & l2 & -> & _)%find_worker_split. set_solver. Qed.

Lemma elem_find_worker id l d : NoDup (l.*1) → (id, d) ∈ l → find_worker id l = Some d.
Proof.
  induction l as [|[k x] l IH]; [by intros _ ?%elem_of_nil|]. cbn [fmap list_fmap fst].
  intros [Hk Hn]%NoDup_cons [[= -> ->]|Hin]%elem_of_cons; simpl; [by rewrite String.eqb_refl|].
  destruct (String.eqb_spec k id) as [->|_]; [|by apply IH].
  destruct Hk. apply list_elem_of_fmap. by exists (id, d).
Qed.

Lemma find_worker_none id l : find_worker id l = None ↔ id ∉ l.*1.
Proof.
  induction l as [|[k x] l IH]; simpl; [set_solver|].
  destruct (String.eqb_spec k id) as [->|Hne]; [set_solver|]. rewrite IH. set_solver.
Qed.

Lemma queued_app l1 l2 : queued (l1 ++ l2) = queued l1 ++ queued l2.
Proof. unfold queued. by rewrite fmap_app, join_app. Qed.

Lemma queued_cons k d l : queued ((k, d) :: l) = wd_deque d ++ queued l.
Proof. done. Qed.

Lemma pop_last_spec {A} (l : list A) :
  match pop_last l with Some (q, x) => l = q ++ [x] | None => l = [] end.
Proof.
  unfold pop_last. destruct (reverse l) as [|x r] eqn:E; apply (f_equal reverse) in E;
    rewrite reverse_involutive in E; [done|]. by rewrite reverse_cons in E.
Qed.

Lemma drain_spec d : drain (length (wd_deque d)) d = omap id (reverse (wd_deque d)).
Proof.
  remember (wd_deque d) as q eqn:Hq. revert d Hq. induction q as [|x q IH] using rev_ind; intros d Hq; [done|].
  rewrite length_app, Nat.add_comm. cbn [length Nat.add drain].
  unfold dq_empty, dq_size, pop. rewrite <-Hq. unfold zlen. rewrite length_app. simpl length.
  rewrite (proj2 (Z.eqb_neq _ 0)) by lia.
  pose proof (pop_last_spec (q ++ [x])) as Hp. destruct (pop_last (q ++ [x])) as [[q' x']|].
  - apply app_inj_tail in Hp as [<- <-]. rewrite reverse_app. cbn [reverse app].
    rewrite (IH (set_deque d q) eq_refl). by destruct x.
  - by apply app_nil in Hp as [_ ?].
Qed.

(** ** The victim *)

Lemma best_victim_spec thief best size l :
  0 <= size → (∀ wd, best = Some wd → dq_size wd.2 = size ∧ 0 < size) →
  match best_victim thief best size l with
  | None => best = None ∧ ∀ w d, (w, d) ∈ l → w ≠ thief → dq_size d <= size
  | Some (w, d) => size <= dq_size d ∧ 0 < dq_size d
      ∧ (best = Some (w, d) ∨ ((w, d) ∈ l ∧ w ≠ thief))
      ∧ ∀ w' d', (w', d') ∈ l → w' ≠ thief → dq_size d' <= dq_size d
  end.
Proof.
  revert best size. induction l as [|[k x] l IH]; intros best size Hs Hb; simpl.
  { destruct best as [[w d]|]; [|split; [done|by intros ? ? ?%elem_of_nil]].
    destruct (Hb _ eq_refl) as [E ?]. simpl in E. split_and!; [lia|lia|by left|].
    by intros ? ? ?%elem_of_nil. }
  destruct (String.eqb_spec k thief) as [->|Hne]; [|destruct (Z.ltb_spec size (dq_size x)) as [Hlt|Hge]].
  - specialize (IH best size Hs Hb). destruct (best_victim _ _ _ _) as [[w d]|]; set_solver.
  - specialize (IH (Some (k, x)) (dq_size x) ltac:(lia)).
    destruct (best_victim _ _ _ _) as [[w d]|].
    + destruct IH as (H1 & H2 & H3 & H4); [intros wd [= <-]; simpl; lia|].
      split_and!; [lia|done| |].
      * right. destruct H3 as [[= -> ->]|[? ?]]; (split; [|done]); set_solver.
      * intros w' d' [[= -> ->]|?]%elem_of_cons ?; [done|by eapply H4].
    + destruct IH as [? _]; [intros wd [= <-]; simpl; lia|done].
  - specialize (IH best size Hs Hb). destruct (best_victim _ _ _ _) as [[w d]|].
    + destruct IH as (H1 & H2 & H3 & H4). split_and!; [done|done| |].
      * destruct H3 as [?|[? ?]]; [by left|right]. set_solver.
      * intros w' d' [[= -> ->]|?]%elem_of_cons ?; [lia|by eapply H4].
    + destruct IH as [-> H]. split; [done|].
      intros w' d' [[= -> ->]|?]%elem_of_cons ?; [done|by eapply H].
Qed.

(** ** Invariant *)

Record sched_inv (s : WorkStealingScheduler T) : Prop := {
  si_keys : NoDup ((ws_workers s).*1);
  si_ids : ∀ k d, (k, d) ∈ ws_workers s → wd_worker_id d = k;
  si_bound : ∀ k d m, (k, d) ∈ ws_workers s → wd_maxlen d = Some m → zlen (wd_deque d) <= m
}.

(** Replacing the deque of one worker by another of the same worker and limit. *)
Lemma set_worker_inv l1 l2 id d d' n m n' m' :
  sched_inv (mk_Scheduler (l1 ++ (id, d) :: l2) n m) →
  wd_worker_id d' = wd_worker_id d → wd_maxlen d' = wd_maxlen d →
  (∀ b, wd_maxlen d = Some b → zlen (wd_deque d') <= b) →
  sched_inv (mk_Scheduler (l1 ++ (id, d') :: l2) n' m').
Proof.
  intros [Hk Hi Hb] Hid Hm Hlen. simpl in *. split; simpl.
  - by rewrite fmap_app in Hk |- *.
  - intros k x [Hin|[[= -> ->]|Hin]%elem_of_cons]%elem_of_app.
    + apply Hi. set_solver.
    + rewrite Hid. apply Hi. set_solver.
    + apply Hi. set_solver.
  - intros k x b [Hin|[[= -> ->]|Hin]%elem_of_cons]%elem_of_app E.
    + apply (Hb k); [set_solver|done].
    + apply Hlen. congruence.
    + apply (Hb k); [set_solver|done].
Qed.

(** The items [ins] are in [outs], or [None]s that are nowhere. *)
Definition accounted (ins outs : list (option T)) : Prop := ∃ lost, ins ≡ₚ outs ++ replicate lost None.

(** What one operation changes: the scheduler keeps its invariant, and the
    queued items before, together with [ins], are those after together with
    [outs], up to lost [None]s. *)
Definition moves (s : WorkStealingScheduler T) (ins : list (option T)) (outs : list T)
    (s' : WorkStealingScheduler T) : Prop :=
  sched_inv s' ∧ accounted (ins ++ queued (ws_workers s)) ((Some <$> outs) ++ queued (ws_workers s')).

Lemma accounted_equal (l k : list (option T)) : l ≡ₚ k → accounted l k.
Proof. intros H. exists 0%nat. by rewrite app_nil_r. Qed.

Lemma accounted_trans (l1 l2 k1 k2 m : list (option T)) :
  accounted l1 (k1 ++ m) → accounted (l2 ++ m) k2 → accounted (l2 ++ l1) (k1 ++ k2).
Proof.
  intros [n H1] [n' H2]. exists (n + n')%nat. rewrite H1, replicate_add.
  transitivity (k1 ++ (l2 ++ m) ++ replicate n None); [by solve_Permutation|]. rewrite H2. by solve_Permutation.
Qed.

Lemma moves_refl s : sched_inv s → moves s [] [] s.
Proof. intros Hi. split; [done|]. by apply accounted_equal. Qed.

Lemma moves_trans s1 s2 s3 i1 i2 o1 o2 :
  moves s1 i1 o1 s2 → moves s2 i2 o2 s3 → moves s1 (i2 ++ i1) (o1 ++ o2) s3.
Proof.
  intros [_ H1] [Hi H2]. split; [done|]. rewrite fmap_app, <-!app_assoc. by eapply accounted_trans.
Qed.

(** The items of a list that are not [None], as [drain] collects them. *)
Lemma items_accounted (q : list (option T)) : accounted q (Some <$> omap id q).
Proof.
  induction q as [|[t|] q [n IH]]; [by exists 0%nat|exists n|exists (S n)]; simpl; rewrite IH at 1; by solve_Permutation.
Qed.

Lemma push_cases d x :
  push d x = (d, false)
  ∨ push d x = (set_deque d (wd_deque d ++ [x]), true)
    ∧ ∀ m, wd_maxlen d = Some m → zlen (wd_deque d) < m.
Proof.
  unfold push. destruct (wd_maxlen d) as [m|]; [|by right].
  destruct (Z.leb_spec m (zlen (wd_deque d))); [by left|right]. split; [done|]. by intros ? [= <-].
Qed.

Lemma submit_moves s id x :
  sched_inv s → let '(s', ok) := submit s id x in
  moves s (if ok then [x] else []) [] s'
  ∧ ws_total_submitted s' = ws_total_submitted s + (if ok then 1 else 0).
Proof.
  intros Hi. unfold submit. destruct (find_worker id (ws_workers s)) as [d|] eqn:E.
  2:{ split; [by apply moves_refl|lia]. }
  destruct (find_worker_split _ _ _ E) as (l1 & l2 & Hl & _ & Hset).
  destruct s as [l n k]. simpl in *. subst l.
  destruct (push_cases d x) as [->|[-> Hroom]]; simpl; rewrite Hset; (split; [|lia]).
  - split; [|by apply accounted_equal]. eapply set_worker_inv; [exact Hi|done|done|].
    intros b Hb. apply (si_bound _ Hi id); [set_solver|done].
  - split.
    + eapply set_worker_inv; [exact Hi|done|done|].
      intros b Hb. specialize (Hroom _ Hb). unfold zlen in *. simpl. rewrite length_app. simpl. lia.
    + apply accounted_equal. simpl. rewrite !queued_app, !queued_cons. simpl. by solve_Permutation.
Qed.

Definition handed (x : option T) : list T := match x with Some t => [t] | None => [] end.

(** Taking one item out of the middle of the queues. *)
Lemma take_moves s id d d' q1 q2 x n m :
  sched_inv s → find_worker id (ws_workers s) = Some d →
  wd_deque d = q1 ++ x :: q2 → wd_deque d' = q1 ++ q2 →
  wd_worker_id d' = wd_worker_id d → wd_maxlen d' = wd_maxlen d →
  moves s [] (handed x) (mk_Scheduler (set_worker id d' (ws_workers s)) n m).
Proof.
  intros Hi E Hq Hq' Hid Hm. destruct (find_worker_split _ _ _ E) as (l1 & l2 & Hl & _ & Hset).
  rewrite Hset. destruct s as [l n0 m0]. simpl in *. subst l. split.
  - eapply set_worker_inv; [exact Hi|done|done|].
    intros b Hb. assert (zlen (wd_deque d) <= b) as Hz
        by (apply (si_bound _ Hi id); [simpl; set_solver|done]).
    rewrite Hq in Hz. rewrite Hq'. unfold zlen in *. rewrite length_app in *. simpl in Hz. lia.
  - exists (match x with Some _ => 0 | None => 1 end)%nat. simpl. rewrite !queued_app, !queued_cons, Hq, Hq'.
    destruct x; simpl; by solve_Permutation.
Qed.

(** Whether there is a victim. *)
Lemma victim_cases s thief :
  sched_inv s →
  (∃ w v x q, best_victim thief None 0 (ws_workers s) = Some (w, v) ∧ (w, v) ∈ ws_workers s ∧ w ≠ thief
     ∧ wd_deque v = x :: q ∧ find_worker w (ws_workers s) = Some v
     ∧ ∀ w' v', (w', v') ∈ ws_workers s → w' ≠ thief → dq_size v' <= dq_size v)
  ∨ (best_victim thief None 0 (ws_workers s) = None ∧ ∀ w v, (w, v) ∈ ws_workers s → w ≠ thief → wd_deque v = []).
Proof.
  intros Hi. pose proof (best_victim_spec thief None 0 (ws_workers s)) as Hbest.
  destruct (best_victim thief None 0 (ws_workers s)) as [[w v]|].
  - left. destruct Hbest as (_ & Hpos & [?|[Hin Hne]] & Hmax); [done|done|done|].
    destruct (wd_deque v) as [|x q] eqn:Eq; [unfold dq_size, zlen in Hpos; rewrite Eq in Hpos; done|].
    exists w, v, x, q. split_and!; try done. apply elem_find_worker; [apply Hi|done].
  - right. split; [done|]. intros w v Hin Hne. destruct Hbest as [_ H]; [done|done|].
    specialize (H _ _ Hin Hne). unfold dq_size, zlen in H. destruct (wd_deque v); [done|].
    simpl in H. lia.
Qed.

Lemma nonempty_size d x q : wd_deque d = x :: q → dq_empty d = false.
Proof. intros Hq. unfold dq_empty, dq_size, zlen. rewrite Hq. apply Z.eqb_neq. simpl. lia. Qed.

Lemma try_steal_moves s id :
  sched_inv s →
  moves s [] (handed (sr_item (try_steal s id).2)) (try_steal s id).1
  ∧ ws_total_submitted (try_steal s id).1 = ws_total_submitted s.
Proof.
  intros Hi. unfold try_steal. destruct (find_worker id (ws_workers s)) as [d0|]; [|by split; [apply moves_refl|]].
  destruct (victim_cases s id Hi) as [(w & v & x & q & -> & _ & _ & Hq & Hf & _)|[-> _]]; [|by split; [apply moves_refl|]].
  rewrite (nonempty_size v x q Hq). unfold steal. rewrite Hq. unfold with_workers.
  destruct x as [t|]; (split; [|done]); [apply (take_moves s w v _ [] q (Some t))|apply (take_moves s w v _ [] q None)]; done.
Qed.

Lemma get_work_moves s id :
  sched_inv s →
  moves s [] (handed (sr_item (get_work s id).2)) (get_work s id).1
  ∧ ws_total_submitted (get_work s id).1 = ws_total_submitted s.
Proof.
  intros Hi. unfold get_work, pop. destruct (find_worker id (ws_workers s)) as [d|] eqn:Hd; [|by split; [apply moves_refl|]].
  pose proof (pop_last_spec (wd_deque d)) as Hp. destruct (pop_last (wd_deque d)) as [[q x]|].
  - assert (moves s [] (handed x) (with_workers s (set_worker id (set_deque d q) (ws_workers s)))) as Hm
      by (by eapply (take_moves s id d _ q []); [..|rewrite app_nil_r|done|done]).
    destruct x as [t|]; [by split|]. destruct (try_steal_moves _ id (proj1 Hm)) as [Hm2 Ht]. split; [|done].
    by apply (moves_trans _ _ _ [] [] [] _ Hm).
  - replace (with_workers s _) with s; [by apply try_steal_moves|]. destruct s as [l n m]. unfold with_workers. simpl in *. f_equal.
    destruct (find_worker_split _ _ _ Hd) as (l1 & l2 & -> & _ & ->). done.
Qed.

Lemma filter_key_absent (l : list (string * WorkerDeque T)) id :
  id ∉ l.*1 → List.filter (λ kd, negb (String.eqb kd.1 id)) l = l.
Proof.
  induction l as [|[k d] l IH]; simpl; [done|]. intros Hn.
  destruct (String.eqb_spec k id) as [->|_]; [set_solver|]. simpl. rewrite IH; [done|set_solver].
Qed.

Lemma remove_moves s id :
  sched_inv s → let '(s', orphaned) := remove_worker s id in
  moves s [] orphaned s' ∧ ws_total_submitted s' = ws_total_submitted s.
Proof.
  intros Hi. unfold remove_worker. destruct (find_worker id (ws_workers s)) as [d|] eqn:E.
  2:{ by split; [apply moves_refl|]. }
  rewrite drain_spec. destruct (find_worker_split _ _ _ E) as (l1 & l2 & Hl & _ & _).
  destruct s as [l n k]. simpl in *. subst l. split; [|done].
  pose proof (si_keys _ Hi) as Hk. simpl in Hk. rewrite fmap_app, fmap_cons in Hk.
  apply NoDup_app in Hk as (Hn1 & Hdis & [Hid Hn2]%NoDup_cons). simpl in Hid.
  assert (List.filter (λ kd, negb (String.eqb kd.1 id)) (l1 ++ (id, d) :: l2) = l1 ++ l2) as Hf.
  { rewrite List.filter_app. simpl. rewrite String.eqb_refl. simpl. f_equal; apply filter_key_absent;
      [|done]. intros H. apply (Hdis _ H). by left. }
  unfold with_workers. simpl. rewrite Hf. split.
  - split; simpl.
    + rewrite fmap_app. apply NoDup_app. split_and!; [done| |done]. intros x Hx Hx2.
      apply (Hdis _ Hx). by right.
    + intros k' x Hin. apply (si_ids _ Hi). simpl. set_solver.
    + intros k' x b Hin. apply (si_bound _ Hi k'). simpl. set_solver.
  - destruct (items_accounted (reverse (wd_deque d))) as [m Hd]. rewrite (reverse_Permutation (wd_deque d)) in Hd at 1.
    exists m. simpl. rewrite !queued_app, queued_cons. rewrite Hd at 1. by solve_Permutation.
Qed.

Lemma add_worker_moves s id max :
  sched_inv s → moves s [] [] (add_worker s id max).1
  ∧ ws_total_submitted (add_worker s id max).1 = ws_total_submitted s.
Proof.
  intros Hi. unfold add_worker. destruct (find_worker id (ws_workers s)) as [d|] eqn:E; [by split; [apply moves_refl|]|].
  apply find_worker_none in E. split; [|done].
  destruct s as [l n k]. unfold with_workers; simpl in *. split.
  - split; simpl.
    + rewrite fmap_app. apply NoDup_app. split_and!; [apply Hi| |apply NoDup_singleton].
      intros x Hx ->%list_elem_of_singleton. done.
    + intros k' x [?|[= -> ->]%list_elem_of_singleton]%elem_of_app; [by apply (si_ids _ Hi)|done].
    + intros k' x b [?|[= -> ->]%list_elem_of_singleton]%elem_of_app; [by apply (si_bound _ Hi k')|].
      simpl. case_match eqn:Em; [|done]. intros [= <-]. unfold zlen. simpl. lia.
  - apply accounted_equal. simpl. by rewrite queued_app, app_nil_r.
Qed.

(** ** Runs *)

(** Any sequence of operations with the items accepted and the tasks handed out. *)
Inductive sched_run : WorkStealingScheduler T → list (option T) → list T → Prop :=
  | run_start : sched_run Scheduler_init [] []
  | run_add s ins outs id max :
      sched_run s ins outs → sched_run (add_worker s id max).1 ins outs
  | run_submit s ins outs id x :
      sched_run s ins outs →
      sched_run (submit s id x).1 ((if (submit s id x).2 then [x] else []) ++ ins) outs
  | run_get s ins outs id :
      sched_run s ins outs →
      sched_run (get_work s id).1 ins (outs ++ handed (sr_item (get_work s id).2))
  | run_steal s ins outs id :
      sched_run s ins outs →
      sched_run (try_steal s id).1 ins (outs ++ handed (sr_item (try_steal s id).2))
  | run_remove s ins outs id :
      sched_run s ins outs →
      sched_run (remove_worker s id).1 ins (outs ++ (remove_worker s id).2).

Lemma init_inv : sched_inv Scheduler_init.
Proof. by split; simpl; [apply NoDup_nil|set_solver..]. Qed.

Lemma sched_run_inv s ins outs :
  sched_run s ins outs → moves Scheduler_init ins outs s ∧ ws_total_submitted s = zlen ins.
Proof.
  induction 1 as [|s ins outs id mx _ (Ht & Hn)|s ins outs id x _ (Ht & Hn)
    |s ins outs id _ (Ht & Hn)|s ins outs id _ (Ht & Hn)|s ins outs id _ (Ht & Hn)].
  - split; [apply moves_refl, init_inv|done].
  - destruct (add_worker_moves s id mx (proj1 Ht)) as [Hm Hs]. split; [|by rewrite Hs].
    pose proof (moves_trans _ _ _ _ _ _ _ Ht Hm) as H. by rewrite app_nil_r in H.
  - pose proof (submit_moves s id x (proj1 Ht)) as H. destruct (submit s id x) as [s' ok]. simpl.
    destruct H as [Hm Hs]. split; [|rewrite Hs, Hn; unfold zlen; rewrite length_app; destruct ok; simpl; lia].
    pose proof (moves_trans _ _ _ _ _ _ _ Ht Hm) as H. by rewrite app_nil_r in H.
  - destruct (get_work_moves s id (proj1 Ht)) as [Hm Hs]. split; [by apply (moves_trans _ _ _ _ [] _ _ Ht Hm)|by rewrite Hs].
  - destruct (try_steal_moves s id (proj1 Ht)) as [Hm Hs]. split; [by apply (moves_trans _ _ _ _ [] _ _ Ht Hm)|by rewrite Hs].
  - pose proof (remove_moves s id (proj1 Ht)) as H. destruct (remove_worker s id) as [s' orphans].
    destruct H as [Hm Hs]. simpl. split; [by apply (moves_trans _ _ _ _ [] _ _ Ht Hm)|by rewrite Hs].
Qed.

(** Without [None] among the items nothing is lost. *)
Lemma accounted_some (ins outs : list (option T)) : accounted ins outs → None ∉ ins → ins ≡ₚ outs.
Proof.
  intros [[|n] H] Hn; [by rewrite app_nil_r in H|]. destruct Hn. rewrite H. set_solver.
Qed.

Lemma run_queued_some s ins outs x : sched_run s ins outs → None ∉ ins → x ∈ queued (ws_workers s) → is_Some x.
Proof.
  intros [[_ Ha] _]%sched_run_inv Hn Hx. rewrite app_nil_r in Ha. apply accounted_some in Ha; [|done].
  destruct x as [t|]; [by eexists|]. destruct Hn. rewrite Ha. set_solver.
Qed.
End Lemmas.

(** ** Theorems *)

(** C15: no task is lost or duplicated.  Through any sequence of registrations,
    submissions, pops, steals and removals, the accepted items are, as a
    multiset, exactly the tasks handed out or returned as orphans, the items
    still queued, and [lost] items that are all [None]: an accepted item that is
    [None] vanishes when it is taken, any other is in exactly one of the places.
    Nothing at all is lost when no [None] was accepted.  The submission counter
    counts the accepted items, and no deque exceeds its limit. *)
Theorem scheduler_conserves_tasks {T} (s : WorkStealingScheduler T) ins outs :
  sched_run s ins outs →
  (∃ lost, ins ≡ₚ (Some <$> outs) ++ queued (ws_workers s) ++ replicate lost None)
  ∧ (None ∉ ins → ins ≡ₚ (Some <$> outs) ++ queued (ws_workers s))
  ∧ ws_total_submitted s = zlen ins
  ∧ ∀ k d m, (k, d) ∈ ws_workers s → wd_maxlen d = Some m → zlen (wd_deque d) <= m.
Proof.
  intros ((Hi & Ha) & Hn)%sched_run_inv. rewrite app_nil_r in Ha. split_and!; [|by apply accounted_some|done|apply (si_bound _ Hi)].
  destruct Ha as [n Ha]. exists n. by rewrite app_assoc.
Qed.

(** A registered worker that asks for work gets some whenever any task is
    queued anywhere: its own newest task if it has one, otherwise the oldest task
    of a longest other deque, marked as stolen. *)
Theorem get_work_finds_work {T} (s : WorkStealingScheduler T) ins outs id d :
  sched_run s ins outs → None ∉ ins → find_worker id (ws_workers s) = Some d →
  queued (ws_workers s) ≠ [] →
  (∃ t q, wd_deque d = q ++ [Some t] ∧ (get_work s id).2 = mk_StealResult (Some t) id false)
  ∨ (wd_deque d = [] ∧ ∃ w v t q, (w, v) ∈ ws_workers s ∧ w ≠ id ∧ wd_deque v = Some t :: q
       ∧ (∀ w' v', (w', v') ∈ ws_workers s → w' ≠ id → dq_size v' <= dq_size v)
       ∧ (get_work s id).2 = mk_StealResult (Some t) w true).
Proof.
  intros Hr Hno Hd Hq. destruct (sched_run_inv _ _ _ Hr) as [[Hi _] _].
  assert (∀ w v x, (w, v) ∈ ws_workers s → x ∈ wd_deque v → is_Some x) as Hsome.
  { intros w v x (l1 & l2 & Hl)%list_elem_of_split Hx. eapply run_queued_some; [done..|].
    rewrite Hl, queued_app, queued_cons. set_solver. }
  unfold get_work, pop. rewrite Hd. pose proof (pop_last_spec (wd_deque d)) as Hp. destruct (pop_last (wd_deque d)) as [[q x]|].
  - left. destruct (Hsome id d x) as [t ->]; [by apply find_worker_elem|rewrite Hp; set_solver|]. by exists t, q.
  - right. split; [done|]. replace (with_workers s _) with s.
    2:{ destruct s as [l n m]. unfold with_workers. simpl in *. f_equal.
        destruct (find_worker_split _ _ _ Hd) as (l1 & l2 & -> & _ & ->). done. }
    unfold try_steal. rewrite Hd. destruct (victim_cases s id Hi) as [(w & v & x & q & -> & Hin & Hne & Hv & _ & Hmax)|[_ Hall]].
    + destruct (Hsome w v x Hin) as [t ->]; [rewrite Hv; set_solver|]. exists w, v, t, q. split_and!; try done.
      rewrite (nonempty_size v _ q Hv). unfold steal. rewrite Hv. simpl. by rewrite (si_ids _ Hi _ _ Hin).
    + destruct Hq. unfold queued. apply join_nil, Forall_fmap, Forall_forall.
      intros [k x] Hx. simpl. destruct (decide (k = id)) as [->|Hne]; [|by eapply Hall].
      rewrite (elem_find_worker _ _ _ (si_keys _ Hi) Hx) in Hd. by injection Hd as ->.
Qed.

(** ** A sample schedule *)

Module StealSample.
Definition two : WorkStealingScheduler string :=
  (add_worker (add_worker Scheduler_init "a" 0).1 "b" 0).1.
Definition loaded : WorkStealingScheduler string :=
  (submit (submit two "a" (Some "t1")).1 "a" (Some "t2")).1.

Lemma sample_run : sched_run loaded [Some "t2"; Some "t1"] [].
Proof.
  exact (run_submit _ [Some "t1"] [] "a" (Some "t2") (run_submit _ [] [] "a" (Some "t1")
    (run_add _ _ _ "b" 0 (run_add _ _ _ "a" 0 run_start)))).
Qed.

(** The newest item is [None]: the owner is handed the next task by stealing none, and [None] is lost. *)
Definition taken : WorkStealingScheduler string := (get_work (submit loaded "a" None).1 "a").1.
Lemma taken_run : sched_run taken [None; Some "t2"; Some "t1"] [].
Proof. exact (run_get _ _ [] "a" (run_submit _ _ [] "a" None sample_run)). Qed.
End StealSample.

Lemma scheduler_conserves_tasks_witness :
  (∃ lost, [None; Some "t2"; Some "t1"] ≡ₚ (Some <$> []) ++ queued (ws_workers StealSample.taken) ++ replicate lost None)
  ∧ [Some "t2"; Some "t1"] ≡ₚ (Some <$> []) ++ queued (ws_workers StealSample.loaded).
Proof.
  split; [exact (proj1 (scheduler_conserves_tasks _ _ _ StealSample.taken_run))|].
  apply (proj1 (proj2 (scheduler_conserves_tasks _ _ _ StealSample.sample_run))). by intros [?|[?|?%elem_of_nil]%elem_of_cons]%elem_of_cons.
Defined.

Lemma get_work_finds_work_witness :
  (get_work StealSample.loaded "b").2 = mk_StealResult (Some "t1") "a" true.
Proof.
  destruct (get_work_finds_work StealSample.loaded _ _ "b" (WorkerDeque_init "b" 0)
    StealSample.sample_run ltac:(by intros [?|[?|?%elem_of_nil]%elem_of_cons]%elem_of_cons)) as [(t & q & Hq & _)|(_ & w & v & t & q & _ & _ & _ & _ & _)];
    [reflexivity|discriminate|by destruct q|reflexivity].
Defined.

(** A submitted item that is [None] is accepted and counted, and then vanishes:
    the worker that takes it is told there was nothing. *)
Theorem none_item_is_lost :
  let s := submit (add_worker (T := string) Scheduler_init "a" 0).1 "a" None in
  s.2 = true ∧ ws_total_submitted s.1 = 1 ∧ queued (ws_workers s.1) = [None]
  ∧ (get_work s.1 "a").2 = nothing ∧ queued (ws_workers (get_work s.1 "a").1) = [].
Proof. by vm_compute. Qed.
