(* ===== verification/TaskLedger.v ===== *)
(** The task ledger: dependency-checked task projections and their dispatch order
    ([sonder_runtime/domain/task_ledger.py]).

    The worklist loops take fuel: the number of items is enough for both, since
    every round of the cycle check removes one task and every round of the batch
    projection at least one. *)
From S2P Require Import Prelude.

Local Open Scope Z_scope.

Definition MAX_LEDGER_ITEMS : Z := 256.
Definition _MAX_TEXT : Z := 4096.
Definition COMPLETED_TASK_STATUSES : list string := ["done"; "completed"; "succeeded"].
Definition RUNNABLE_TASK_STATUSES : list string := ["pending"; "ready"; "queued"].

Definition _text (value : pyval) (label : string) : res string :=
  check_str (λ s, negb (is_blank s || (_MAX_TEXT <? py_len s))) InvalidInput
    (label +:+ " must be bounded non-empty text") value.

(** ** Items *)

(** The owner and the parent may be any falsy value or a bounded text. *)
Record TaskLedgerItem := mk_Item {
  ti_task_id : string;
  ti_title : string;
  ti_status : string;
  ti_owner : pyval;
  ti_parent_id : pyval;
  ti_dependencies : list string
}.

Definition optional_text (value : pyval) (label : string) : res unit :=
  if py_truthy value then _ ← _text value label; Ok tt else Ok tt.

(** [dependencies] is a tuple of texts. *)
Definition TaskLedgerItem_init (task_id title status owner parent_id : pyval)
    (dependencies : list string) : res TaskLedgerItem :=
  id ← _text task_id "task_id";
  ti ← _text title "title";
  st ← _text status "status";
  _ ← optional_text owner "owner";
  _ ← optional_text parent_id "parent_id";
  let deps := sorted_text (fromkeys dependencies) in
  _ ← require (zlen deps =? zlen dependencies) InvalidInput "task dependencies must be unique";
  _ ← mapM_res (λ d, _text (PStr d) "dependency") deps;
  _ ← require (negb (mem id deps)) InvalidInput "task cannot depend on itself";
  Ok (mk_Item id ti st owner parent_id deps).

Definition Item_to_dict (i : TaskLedgerItem) : pyval :=
  PDict [(PStr "task_id", PStr (ti_task_id i)); (PStr "title", PStr (ti_title i));
         (PStr "status", PStr (ti_status i)); (PStr "owner", ti_owner i);
         (PStr "parent_id", ti_parent_id i);
         (PStr "dependencies", PList (PStr <$> ti_dependencies i))].

(** ** The cycle check *)

(** [dependents[x]], in the order of appending. *)
Definition dependents (items : list TaskLedgerItem) (x : string) : list string :=
  flat_map (λ i, (λ _, ti_task_id i) <$> List.filter (String.eqb x) (ti_dependencies i)) items.

(** One pass of the inner loop: a dependent loses one open dependency. *)
Definition relax (st : gmap string Z * list string) (d : string) : gmap string Z * list string :=
  let '(remaining, ready) := st in
  let count := default 0 (remaining !! d) - 1 in
  (<[d := count]> remaining, if count =? 0 then ready ++ [d] else ready).

(** [while ready: ...]; [None] when the fuel ends first. *)
Fixpoint visit (fuel : nat) (items : list TaskLedgerItem) (remaining : gmap string Z)
    (ready : list string) (visited : Z) : option (gmap string Z * Z) :=
  match ready with
  | [] => Some (remaining, visited)
  | x :: ready' =>
      match fuel with
      | O => None
      | S fuel' =>
          let '(remaining', ready'') :=
            foldl relax (remaining, ready') (sorted_text (dependents items x)) in
          visit fuel' items remaining' (sorted_text ready'') (visited + 1)
      end
  end.

Definition initial_remaining (items : list TaskLedgerItem) : gmap string Z :=
  list_to_map ((λ i, (ti_task_id i, zlen (ti_dependencies i))) <$> items).

(** The ids of the items with a given test on their open dependencies. *)
Definition ids_where (test : Z → bool) (items : list TaskLedgerItem) (remaining : gmap string Z)
  : list string :=
  List.filter (λ x, test (default 0 (remaining !! x))) (ti_task_id <$> items).

(** ** Ledgers *)

Record TaskLedger := mk_Ledger {
  tl_goal_id : string;
  tl_items : list TaskLedgerItem;
  tl_replan_count : Z;
  tl_last_replan_reason : option string
}.

Definition by_task_id (a b : TaskLedgerItem) : bool := String.leb (ti_task_id a) (ti_task_id b).

Definition TaskLedger_init (goal_id : pyval) (items : list TaskLedgerItem) (replan_count : pyval)
    (last_replan_reason : option pyval) : res TaskLedger :=
  goal ← _text goal_id "goal_id";
  _ ← require (negb ((zlen items =? 0) || (MAX_LEDGER_ITEMS <? zlen items))) InvalidInput
        "task ledger must contain 1..256 items";
  let ids := ti_task_id <$> items in
  _ ← require (no_dups ids) InvalidInput "task ledger task IDs must be unique";
  _ ← match sorted_text (List.filter (λ d, negb (mem d ids))
                           (fromkeys (flat_map ti_dependencies items))) with
      | missing :: _ => throw InvalidInput
                          ("task ledger references missing dependency: " +:+ missing)
      | [] => Ok tt
      end;
  let remaining := initial_remaining items in
  let ready := sorted_text (ids_where (Z.eqb 0) items remaining) in
  _ ← match visit (length items) items remaining ready 0 with
      | None => throw RuntimeError "the cycle check did not finish"
      | Some (remaining', visited) =>
          require (visited =? zlen items) InvalidInput
            ("task ledger dependency cycle: "
             +:+ join_text " -> " (sorted_text (ids_where (Z.ltb 0) items remaining')))
      end;
  count ← match replan_count with
          | PInt z => _ ← require (negb (z <? 0)) InvalidInput
                            "replan_count must be a non-negative integer"; Ok z
          | _ => throw InvalidInput "replan_count must be a non-negative integer"
          end;
  reason ← match last_replan_reason with
           | None => Ok None
           | Some v => r ← _text v "last_replan_reason"; Ok (Some r)
           end;
  Ok (mk_Ledger goal (sort_by by_task_id items) count reason).

Definition Ledger_to_dict (self : TaskLedger) : pyval :=
  PDict [(PStr "schema", PStr "sonder.task-ledger.v1"); (PStr "goal_id", PStr (tl_goal_id self));
         (PStr "items", PList (Item_to_dict <$> tl_items self));
         (PStr "replan_count", PInt (tl_replan_count self));
         (PStr "last_replan_reason", match tl_last_replan_reason self with
                                     | Some r => PStr r
                                     | None => PNone
                                     end)].

(** ** Projections *)

(** [by_id[x].status] *)
Definition status_of (items : list TaskLedgerItem) (x : string) : res string :=
  match List.find (λ i, String.eqb (ti_task_id i) x) items with
  | Some i => Ok (ti_status i)
  | None => throw KeyError x
  end.

(** [all(by_id[d].status in completed for d in deps)] *)
Fixpoint all_completed (items : list TaskLedgerItem) (completed deps : list string) : res bool :=
  match deps with
  | [] => Ok true
  | d :: deps' =>
      st ← status_of items d;
      if mem st completed then all_completed items completed deps' else Ok false
  end.

Fixpoint filterM {A} (p : A → res bool) (l : list A) : res (list A) :=
  match l with
  | [] => Ok []
  | x :: l' =>
      b ← p x;
      rest ← filterM p l';
      Ok (match b with true => x :: rest | false => rest end)
  end.

Definition _fanout (max_fanout : pyval) : res Z :=
  match max_fanout with
  | PInt z => _ ← require (negb (z <? 1)) InvalidInput "max_fanout must be a positive integer";
              Ok z
  | _ => throw InvalidInput "max_fanout must be a positive integer"
  end.

Definition ready_items (self : TaskLedger) (max_fanout : pyval) (runnable completed : list string)
  : res (list TaskLedgerItem) :=
  fan ← _fanout max_fanout;
  ready ← filterM (λ i, if mem (ti_status i) runnable
                        then all_completed (tl_items self) completed (ti_dependencies i)
                        else Ok false) (tl_items self);
  Ok (take (Z.to_nat fan) (sort_by by_task_id ready)).

Definition blocked_dependencies (self : TaskLedger) (runnable completed : list string)
  : res (list (string * list string)) :=
  let open_dependency (d : string) : res bool := st ← status_of (tl_items self) d; Ok (negb (mem st completed)) in
  blocked ← filterM (λ i, if mem (ti_status i) runnable
                          then b ← all_completed (tl_items self) completed (ti_dependencies i);
                               Ok (negb b)
                          else Ok false) (tl_items self);
  mapM_res (λ i, ds ← filterM open_dependency (ti_dependencies i); Ok (ti_task_id i, ds)) blocked.

(** [level[offset:offset + max_fanout]] for the offsets of [range]. *)
Fixpoint chunks (fuel : nat) (fan : nat) (l : list string) : list (list string) :=
  match fuel, l with
  | S fuel', _ :: _ => take fan l :: chunks fuel' fan (drop fan l)
  | _, _ => []
  end.

Fixpoint batches (fuel : nat) (fan : nat) (remaining : list (string * list string))
  : res (list (list string)) :=
  match remaining with
  | [] => Ok []
  | _ =>
      match fuel with
      | O => throw RuntimeError "the batch projection did not finish"
      | S fuel' =>
          let level := sorted_text (List.filter (λ p, (length p.2 =? 0)%nat) remaining).*1 in
          _ ← require (negb (length level =? 0)%nat) InvalidInput "task ledger dependency cycle";
          rest ← batches fuel' fan
                   ((λ p, (p.1, List.filter (λ d, negb (mem d level)) p.2))
                      <$> List.filter (λ p, negb (mem p.1 level)) remaining);
          Ok (chunks (length level) fan level ++ rest)
      end
  end.

Definition dependency_batches (self : TaskLedger) (max_fanout : pyval) : res (list (list string)) :=
  fan ← _fanout max_fanout;
  batches (length (tl_items self)) (Z.to_nat fan)
    ((λ i, (ti_task_id i, ti_dependencies i)) <$> tl_items self).

(** [task.get(name, default)] of a task record. *)
Definition task_get (name : string) (default_ : pyval) (task : list (pyval * pyval)) : pyval :=
  default default_ (dict_get name task).

Definition build_task_ledger (goal_id : pyval) (tasks : list (list (pyval * pyval)))
    (dependencies : gmap string (list string)) (replan_count : pyval)
    (last_replan_reason : option pyval) : res TaskLedger :=
  items ← mapM_res (λ task,
    let id := task_get "id" (PStr "") task in
    TaskLedgerItem_init id (task_get "title" (PStr "") task)
      (task_get "status" (PStr "pending") task) (task_get "owner" (PStr "") task)
      (task_get "parent_id" (PStr "") task)
      (match py_str id with Some s => default [] (dependencies !! s) | None => [] end)) tasks;
  TaskLedger_init goal_id items replan_count last_replan_reason.

(** ** Dependency graphs *)

(** What the earlier checks of the constructors establish. *)
Record wf_items (items : list TaskLedgerItem) : Prop := {
  wi_ids : NoDup (ti_task_id <$> items);
  wi_deps : ∀ i, i ∈ items → NoDup (ti_dependencies i);
  wi_closed : ∀ i d, i ∈ items → d ∈ ti_dependencies i → d ∈ ti_task_id <$> items
}.

(** A numbering in which every task comes after its dependencies. *)
Definition ranking (items : list TaskLedgerItem) (rank : string → nat) : Prop :=
  ∀ i d, i ∈ items → d ∈ ti_dependencies i → (rank d < rank (ti_task_id i))%nat.

(** Prefixes of a dependency-respecting order of the tasks. *)
Inductive topo (items : list TaskLedgerItem) : list string → Prop :=
  | topo_nil : topo items []
  | topo_snoc V i :
      topo items V → i ∈ items → ti_task_id i ∉ V → ti_dependencies i ⊆ V →
      topo items (V ++ [ti_task_id i]).

(** The dependencies not yet visited. *)
Definition open_deps (V ds : list string) : list string := filter (λ d, d ∉ V) ds.

Lemma open_deps_nil V ds : open_deps V ds = [] ↔ ds ⊆ V.
Proof.
  unfold open_deps. split.
  - intros H d Hd. destruct (decide (d ∈ V)) as [|Hn]; [done|].
    assert (d ∈ filter (λ d, d ∉ V) ds) as Hf by (by apply list_elem_of_filter).
    rewrite H in Hf. by apply elem_of_nil in Hf.
  - intros H. destruct (filter _ ds) as [|d l] eqn:E; [done|].
    assert (d ∈ filter (λ d, d ∉ V) ds) as [Hn Hd]%list_elem_of_filter by (rewrite E; by left).
    by destruct Hn; apply H.
Qed.

Lemma open_deps_start ds : open_deps [] ds = ds.
Proof.
  unfold open_deps. induction ds; [done|]. rewrite filter_cons_True by set_solver. by f_equal.
Qed.

Lemma open_deps_snoc V x ds :
  NoDup ds → x ∉ V →
  zlen (open_deps (V ++ [x]) ds) = zlen (open_deps V ds) - (if decide (x ∈ ds) then 1 else 0).
Proof.
  unfold zlen, open_deps. intros Hnd Hx. induction Hnd as [|d ds Hd Hnd IH]; [done|].
  rewrite !filter_cons. destruct (decide (x = d)) as [->|Hne].
  - rewrite (decide_False (P := d ∉ V ++ [d])) by set_solver.
    rewrite (decide_True (P := d ∉ V)) by done.
    rewrite (decide_True (P := d ∈ d :: ds)) by set_solver.
    rewrite (decide_False (P := d ∈ ds)) in IH by done. simpl. lia.
  - rewrite (decide_ext (d ∉ V ++ [x]) (d ∉ V)) by set_solver.
    rewrite (decide_ext (x ∈ d :: ds) (x ∈ ds)) by set_solver.
    destruct (decide (d ∉ V)); simpl; lia.
Qed.

Section Graph.
Context (items : list TaskLedgerItem) (W : wf_items items).

Lemma same_id i j : i ∈ items → j ∈ items → ti_task_id i = ti_task_id j → i = j.
Proof.
  intros Hi Hj He. pose proof (wi_ids _ W) as Hn.
  apply list_elem_of_lookup in Hi as [a Ha], Hj as [b Hb].
  assert (a = b) as ->; [|congruence].
  eapply NoDup_lookup; [exact Hn| |]; rewrite list_lookup_fmap; [by rewrite Ha|].
  rewrite Hb. simpl. by rewrite He.
Qed.

Lemma topo_facts V :
  topo items V →
  NoDup V ∧ V ⊆ ti_task_id <$> items
  ∧ ∀ i, i ∈ items → ti_task_id i ∈ V → ti_dependencies i ⊆ V.
Proof.
  induction 1 as [|V i _ (Hn & Hs & Hc) Hi Hf Hd]; [split_and!; [constructor|set_solver..]|].
  split_and!.
  - apply NoDup_app. split_and!; [done|set_solver|apply NoDup_singleton].
  - intros x [?| ->%list_elem_of_singleton]%elem_of_app; [by apply Hs|].
    by apply list_elem_of_fmap_2.
  - intros j Hj [Hv|He%list_elem_of_singleton]%elem_of_app; [set_solver|].
    rewrite (same_id j i Hj Hi He). set_solver.
Qed.

Lemma topo_rank V :
  topo items V →
  ∃ rank : string → nat, (∀ x, x ∈ V → rank x < length V)%nat
    ∧ ∀ i d, i ∈ items → ti_task_id i ∈ V → d ∈ ti_dependencies i →
        (rank d < rank (ti_task_id i))%nat.
Proof.
  induction 1 as [|V i Ht (rank & Hb & Hr) Hi Hf Hd].
  { exists (λ _, 0%nat). split; set_solver. }
  destruct (topo_facts V Ht) as (_ & _ & Hc).
  exists (λ x, if decide (x = ti_task_id i) then length V else rank x). split.
  - intros x Hx. rewrite length_app. simpl. case_decide; [lia|].
    pose proof (Hb x ltac:(set_solver)). lia.
  - intros j d Hj Hv Hdj. destruct (decide (ti_task_id j = ti_task_id i)) as [He|He].
    + rewrite (same_id j i Hj Hi He) in Hdj. rewrite decide_False by set_solver.
      apply Hb, Hd, Hdj.
    + assert (ti_task_id j ∈ V) as HjV by set_solver.
      rewrite decide_False by (intros ->; by eapply Hf, Hc). by apply Hr.
Qed.

Lemma dependents_elem x d :
  d ∈ dependents items x ↔ ∃ i, i ∈ items ∧ ti_task_id i = d ∧ x ∈ ti_dependencies i.
Proof.
  unfold dependents. rewrite list_elem_of_In, in_flat_map. setoid_rewrite <-list_elem_of_In. split.
  - intros (i & Hi & (y & -> & Hy)%list_elem_of_fmap). exists i.
    apply list_elem_of_In, filter_In in Hy as [Hy ->%String.eqb_eq].
    split_and!; [done|done|by apply list_elem_of_In].
  - intros (i & Hi & <- & Hx). exists i. split; [done|].
    apply (list_elem_of_fmap_2 (λ _, ti_task_id i) _ x), list_elem_of_In, filter_In.
    split; [by apply list_elem_of_In|apply String.eqb_refl].
Qed.
End Graph.

Lemma filter_eqb_NoDup x ds :
  NoDup ds → List.filter (String.eqb x) ds = if decide (x ∈ ds) then [x] else [].
Proof.
  induction 1 as [|d ds Hd _ IH]; [done|]. simpl. rewrite IH.
  destruct (String.eqb_spec x d) as [->|Hne].
  - rewrite (decide_False (P := d ∈ ds)) by done. by rewrite decide_True by set_solver.
  - by rewrite (decide_ext (x ∈ d :: ds) (x ∈ ds)) by set_solver.
Qed.

Lemma dependents_ids l x d : d ∈ dependents l x → d ∈ ti_task_id <$> l.
Proof. intros (i & Hi & <- & _)%dependents_elem. by apply list_elem_of_fmap_2. Qed.

Lemma dependents_NoDup l x :
  NoDup (ti_task_id <$> l) → (∀ i, i ∈ l → NoDup (ti_dependencies i)) → NoDup (dependents l x).
Proof.
  induction l as [|i l IH]; simpl; [constructor|].
  intros [Hi Hn]%NoDup_cons Hd. rewrite filter_eqb_NoDup by (apply Hd; by left).
  specialize (IH Hn ltac:(set_solver)). case_decide; simpl; [|done].
  apply NoDup_cons. split; [|done]. intros Hin. by eapply Hi, dependents_ids.
Qed.

Lemma relax_fold L remaining ready :
  NoDup L →
  ∃ remaining',
    foldl relax (remaining, ready) L
    = (remaining', ready ++ List.filter (λ d, default 0 (remaining !! d) - 1 =? 0) L)
    ∧ ∀ d, remaining' !! d
        = if decide (d ∈ L) then Some (default 0 (remaining !! d) - 1) else remaining !! d.
Proof.
  intros HL. revert remaining ready. induction HL as [|x L Hx HL IH]; intros remaining ready; simpl.
  - exists remaining. rewrite app_nil_r. by split.
  - set (c := default 0 (remaining !! x) - 1).
    destruct (IH (<[x := c]> remaining) (if c =? 0 then ready ++ [x] else ready))
      as (remaining' & -> & Hr).
    exists remaining'. split.
    + f_equal. rewrite (filter_ext_in _ (λ d, default 0 (remaining !! d) - 1 =? 0)).
      2:{ intros d Hd%list_elem_of_In. by rewrite lookup_insert_ne by (intros ->; done). }
      fold c. destruct (c =? 0); [by rewrite <-app_assoc|done].
    + intros d. rewrite Hr. destruct (decide (d = x)) as [->|Hne].
      * rewrite decide_False by done. rewrite lookup_insert_eq. by rewrite decide_True by set_solver.
      * rewrite lookup_insert_ne by done.
        by rewrite (decide_ext (d ∈ x :: L) (d ∈ L)) by set_solver.
Qed.

(** ** The cycle check is a topological sort *)

Record visit_inv (items : list TaskLedgerItem) (V : list string) (remaining : gmap string Z)
    (ready : list string) : Prop := {
  vi_rem : ∀ i, i ∈ items →
    remaining !! ti_task_id i = Some (zlen (open_deps V (ti_dependencies i)));
  vi_ready : ∀ x, x ∈ ready ↔
    (x ∉ V) ∧ ∃ i, i ∈ items ∧ ti_task_id i = x ∧ ti_dependencies i ⊆ V;
  vi_nodup : NoDup ready;
  vi_order : topo items V
}.

#[export] Instance visit_inv_Permutation items V remaining :
  Proper ((≡ₚ) ==> iff) (visit_inv items V remaining).
Proof.
  assert (∀ l l', l ≡ₚ l' → visit_inv items V remaining l → visit_inv items V remaining l').
  { intros l l' Hp [H1 H2 H3 H4]. split; [done| |by rewrite <-Hp|done].
    intros x. rewrite <-Hp. apply H2. }
  intros l l' Hp. split; [by eauto|]. symmetry in Hp. by eauto.
Qed.

Lemma and_iff_compat (P Q R : Prop) : (P → (Q ↔ R)) → (P ∧ Q ↔ P ∧ R).
Proof. naive_solver. Qed.

Section Visit.
Context (items : list TaskLedgerItem) (W : wf_items items).

Lemma zlen_zero {A} (l : list A) : zlen l = 0 ↔ l = [].
Proof. unfold zlen. destruct l; simpl; split; intros; simplify_eq; try done; lia. Qed.

(** Which items a visit of [x] touches, and the counts it leaves. *)
Lemma visit_counts V (remaining remaining' : gmap string Z) x :
  x ∉ V →
  (∀ i, i ∈ items → remaining !! ti_task_id i = Some (zlen (open_deps V (ti_dependencies i)))) →
  (∀ d, remaining' !! d = if decide (d ∈ sorted_text (dependents items x))
                          then Some (default 0 (remaining !! d) - 1) else remaining !! d) →
  ∀ i, i ∈ items →
    (ti_task_id i ∈ sorted_text (dependents items x) ↔ x ∈ ti_dependencies i)
    ∧ remaining' !! ti_task_id i = Some (zlen (open_deps (V ++ [x]) (ti_dependencies i))).
Proof.
  intros HxV Hrem Hr i Hi.
  assert (ti_task_id i ∈ sorted_text (dependents items x) ↔ x ∈ ti_dependencies i) as Hdep.
  { rewrite sorted_text_Permutation, dependents_elem. split; [|by eauto].
    intros (j & Hj & He & Hxj). by rewrite (same_id items W i j). }
  split; [done|]. rewrite Hr, open_deps_snoc by (done || by apply W). rewrite Hrem by done. simpl.
  rewrite (decide_ext _ _ _ _ Hdep). case_decide; [done|]. by rewrite Z.sub_0_r.
Qed.

(** A dependent joins the ready list exactly when its last dependency was [x]. *)
Lemma visit_newly_ready V (remaining : gmap string Z) x i :
  x ∉ V → i ∈ items → x ∈ ti_dependencies i →
  remaining !! ti_task_id i = Some (zlen (open_deps V (ti_dependencies i))) →
  (default 0 (remaining !! ti_task_id i) - 1 =? 0) = true ↔ ti_dependencies i ⊆ V ++ [x].
Proof.
  intros HxV Hi Hxi Hrem. rewrite Hrem. simpl.
  rewrite <-open_deps_nil, <-zlen_zero, open_deps_snoc, decide_True by (done || by apply W).
  apply Z.eqb_eq.
Qed.

Lemma visit_step V remaining x ready :
  visit_inv items V remaining (x :: ready) →
  ∃ remaining' ready',
    foldl relax (remaining, ready) (sorted_text (dependents items x)) = (remaining', ready')
    ∧ visit_inv items (V ++ [x]) remaining' ready'.
Proof.
  intros [Hrem Hready Hnd Ho]. apply NoDup_cons in Hnd as [Hxr Hnd].
  assert (Hx := proj1 (Hready x) ltac:(by left)). destruct Hx as (HxV & ix & Hix & <- & Hdx).
  set (x := ti_task_id ix) in *.
  assert (NoDup (sorted_text (dependents items x))) as HL.
  { rewrite sorted_text_Permutation. apply dependents_NoDup; apply W. }
  destruct (relax_fold _ remaining ready HL) as (remaining' & -> & Hr).
  pose proof (visit_counts V remaining remaining' x HxV Hrem Hr) as Hc.
  assert (topo items (V ++ [x])) as Ho' by (by constructor).
  destruct (topo_facts items W V Ho) as (_ & _ & Hcl).
  eexists _, _. split; [done|]. split; [by intros i Hi; apply Hc| | |done].
  - intros y. rewrite elem_of_app, list_elem_of_In with (l := List.filter _ _), filter_In,
      <-list_elem_of_In. split.
    + intros [Hy|[Hy Ht]].
      * destruct (proj1 (Hready y) ltac:(by right)) as (HyV & i & Hi & <- & Hd).
        split; [|exists i; set_solver].
        intros [?|He%list_elem_of_singleton]%elem_of_app; [done|]. by rewrite He in Hy.
      * pose proof Hy as Hy'. rewrite sorted_text_Permutation, dependents_elem in Hy'.
        destruct Hy' as (i & Hi & <- & Hxi).
        apply (visit_newly_ready V remaining x i HxV Hi Hxi (Hrem i Hi)) in Ht.
        split; [|by eauto]. intros [HiV|HiV%list_elem_of_singleton]%elem_of_app.
        -- by apply HxV, (Hcl i).
        -- rewrite (same_id items W i ix Hi Hix HiV) in Hxi. by apply HxV, Hdx.
    + intros (HyV & i & Hi & <- & Hd). destruct (decide (x ∈ ti_dependencies i)) as [Hxi|Hxi].
      * right. split; [by apply Hc|]. by apply (visit_newly_ready V remaining x i HxV Hi Hxi (Hrem i Hi)).
      * left. assert (ti_task_id i ∈ x :: ready) as Hin; [|set_solver].
        apply Hready. split; [set_solver|]. exists i. split_and!; [done|done|].
        intros d Hd'. pose proof (Hd d Hd'). set_solver.
  - apply NoDup_app. split_and!; [done| |by apply NoDup_ListNoDup, List.NoDup_filter, NoDup_ListNoDup].
    intros y Hy [Hy' Ht]%list_elem_of_In%filter_In.
    destruct (proj1 (Hready y) ltac:(by right)) as (HyV & i & Hi & <- & Hd).
    rewrite Hrem in Ht by done. apply open_deps_nil in Hd. rewrite Hd in Ht. done.
Qed.

Lemma visit_total fuel V remaining ready :
  visit_inv items V remaining ready → (length items ≤ fuel + length V)%nat →
  ∃ V' remaining', visit fuel items remaining ready (zlen V) = Some (remaining', zlen V')
    ∧ visit_inv items V' remaining' [].
Proof.
  revert V remaining ready. induction fuel as [|fuel IH]; intros V remaining ready Hinv Hf;
    destruct ready as [|x ready]; [by exists V, remaining| |by exists V, remaining|].
  - destruct (visit_step _ _ _ _ Hinv) as (rem' & rdy' & _ & Hinv').
    destruct (topo_facts items W _ (vi_order _ _ _ _ Hinv')) as (Hn & Hs & _).
    apply NoDup_submseteq, submseteq_length in Hs; [|done].
    rewrite length_fmap, length_app in Hs. simpl in *. lia.
  - destruct (visit_step _ _ _ _ Hinv) as (rem' & rdy' & Hfold & Hinv'). simpl. rewrite Hfold.
    rewrite <-(sorted_text_Permutation rdy') in Hinv'.
    replace (zlen V + 1) with (zlen (V ++ [x])) by (unfold zlen; rewrite length_app; simpl; lia).
    apply IH; [done|]. rewrite length_app. simpl. lia.
Qed.

Lemma initial_inv :
  visit_inv items [] (initial_remaining items)
    (sorted_text (ids_where (Z.eqb 0) items (initial_remaining items))).
Proof.
  assert (∀ i, i ∈ items →
    initial_remaining items !! ti_task_id i = Some (zlen (open_deps [] (ti_dependencies i)))) as Hrem.
  { intros i Hi. rewrite open_deps_start.
    apply elem_of_list_to_map_1; [|by apply list_elem_of_fmap; eauto].
    rewrite <-list_fmap_compose. apply W. }
  rewrite sorted_text_Permutation. split; [done| | |constructor].
  - intros x. unfold ids_where.
    rewrite list_elem_of_In, filter_In, <-list_elem_of_In, list_elem_of_fmap. split.
    + intros [(i & -> & Hi) Hc%Z.eqb_eq]. rewrite Hrem in Hc by done. simpl in Hc.
      symmetry in Hc. apply zlen_zero, open_deps_nil in Hc. split; [set_solver|by eauto].
    + intros (_ & i & Hi & <- & Hd). split; [by eauto|]. rewrite Hrem by done.
      apply open_deps_nil in Hd. by rewrite Hd.
  - apply NoDup_ListNoDup, List.NoDup_filter, NoDup_ListNoDup, W.
Qed.

(** A set of tasks none of which can ever become ready. *)
Definition stuck (C : list string) : Prop :=
  C ≠ [] ∧ ∀ x, x ∈ C → ∃ i, i ∈ items ∧ ti_task_id i = x ∧ ∃ d, d ∈ ti_dependencies i ∧ d ∈ C.

Lemma stuck_no_ranking C rank : stuck C → ¬ ranking items rank.
Proof.
  intros [Hne HC] Hr. assert (∀ n x, rank x = n → x ∉ C) as H.
  { induction n as [n IH] using lt_wf_ind. intros x <- Hx.
    destruct (HC x Hx) as (i & Hi & <- & d & Hd & HdC). exact (IH (rank d) (Hr i d Hi Hd) d eq_refl HdC). }
  destruct C as [|x C]; [done|]. apply (H (rank x) x eq_refl). by left.
Qed.

Lemma unvisited_stuck V remaining :
  visit_inv items V remaining [] → zlen V ≠ zlen items →
  stuck (ids_where (Z.ltb 0) items remaining).
Proof.
  intros [Hrem Hready _ Ho] Hlen. destruct (topo_facts items W V Ho) as (Hn & Hs & Hc).
  assert (∀ x, x ∈ ids_where (Z.ltb 0) items remaining ↔ x ∈ ti_task_id <$> items ∧ x ∉ V) as Hin.
  { intros x. unfold ids_where. rewrite list_elem_of_In, filter_In, <-list_elem_of_In.
    apply and_iff_compat. intros (i & -> & Hi)%list_elem_of_fmap. rewrite Hrem by done. simpl.
    rewrite Z.ltb_lt. split.
    - intros Hpos HiV. apply (Hc i Hi), open_deps_nil in HiV. rewrite HiV in Hpos. done.
    - intros HiV. destruct (open_deps V (ti_dependencies i)) eqn:E; [|unfold zlen; simpl; lia].
      apply open_deps_nil in E. destruct (not_elem_of_nil (ti_task_id i)). apply Hready. by eauto. }
  split.
  - intros HE. apply Hlen. rewrite HE in Hin. unfold zlen. f_equal. apply Nat.le_antisymm.
    + rewrite <-(length_fmap ti_task_id items). by apply submseteq_length, NoDup_submseteq.
    + rewrite <-(length_fmap ti_task_id items). apply submseteq_length, NoDup_submseteq; [apply W|].
      intros x Hx. destruct (decide (x ∈ V)) as [|Hx2]; [done|].
      destruct (not_elem_of_nil x). by apply Hin.
  - intros x [(i & -> & Hi)%list_elem_of_fmap HiV]%Hin. exists i. split_and!; [done|done|].
    destruct (open_deps V (ti_dependencies i)) as [|d l] eqn:E.
    + apply open_deps_nil in E. destruct (not_elem_of_nil (ti_task_id i)). apply Hready. by eauto.
    + assert (d ∈ open_deps V (ti_dependencies i)) as [HdV Hd]%list_elem_of_filter
        by (rewrite E; by left).
      exists d. split; [done|]. apply Hin. split; [by eapply W|done].
Qed.

Lemma visited_ranking V :
  topo items V → zlen V = zlen items → ∃ rank, ranking items rank.
Proof.
  intros Ho Hlen. destruct (topo_facts items W V Ho) as (Hn & Hs & _).
  destruct (topo_rank items W V Ho) as (rank & _ & Hr). exists rank. intros i d Hi Hd.
  apply Hr; [done| |done]. unfold zlen in Hlen.
  assert (V ≡ₚ ti_task_id <$> items) as ->; [|by apply list_elem_of_fmap_2].
  apply submseteq_length_Permutation; [by apply NoDup_submseteq|]. rewrite length_fmap. lia.
Qed.
End Visit.

(** ** Construction *)

Lemma item_init_wf a b c d e ds i :
  TaskLedgerItem_init a b c d e ds = Ok i →
  NoDup (ti_dependencies i) ∧ ti_task_id i ∉ ti_dependencies i.
Proof.
  unfold TaskLedgerItem_init, _text. intros H. res_inv. to_prop. split; [|done].
  rewrite sorted_text_Permutation. apply fromkeys_NoDup.
Qed.

Lemma missing_nil items :
  sorted_text (List.filter (λ d, negb (mem d (ti_task_id <$> items)))
    (fromkeys (flat_map ti_dependencies items))) = []
  ↔ ∀ i d, i ∈ items → d ∈ ti_dependencies i → d ∈ ti_task_id <$> items.
Proof.
  set (l := List.filter _ _).
  assert (sorted_text l = [] ↔ l = []) as ->.
  { split; intros E; [|by rewrite E]. pose proof (sorted_text_Permutation l) as Hp.
    rewrite E in Hp. by apply Permutation_nil_l in Hp. }
  assert (∀ d, d ∈ l ↔ (∃ i, i ∈ items ∧ d ∈ ti_dependencies i) ∧ d ∉ ti_task_id <$> items) as Hl.
  { intros d. unfold l. rewrite list_elem_of_In, filter_In, <-list_elem_of_In, fromkeys_elem.
    rewrite list_elem_of_In, in_flat_map, negb_true_iff. setoid_rewrite <-list_elem_of_In.
    by rewrite mem_false. }
  split.
  - intros E i d Hi Hd. destruct (decide (d ∈ ti_task_id <$> items)) as [|Hn]; [done|].
    destruct (not_elem_of_nil d). rewrite <-E. apply Hl. by eauto.
  - intros H. destruct l as [|d l']; [done|].
    destruct (proj1 (Hl d) ltac:(by left)) as [(i & Hi & Hd) Hn]. destruct Hn. by eapply H.
Qed.

Definition valid_text (s : string) : Prop := is_blank s = false ∧ py_len s <= _MAX_TEXT.

Lemma _text_run s label : valid_text s → _text (PStr s) label = Ok s.
Proof.
  intros [Hb Hl]. apply check_str_PStr. rewrite Hb. simpl. by apply negb_true_iff, Z.ltb_ge.
Qed.

(** The size of the ledger and the references between its items are right. *)
Record well_referenced (items : list TaskLedgerItem) : Prop := {
  wr_size : 1 <= zlen items <= MAX_LEDGER_ITEMS;
  wr_ids : NoDup (ti_task_id <$> items);
  wr_closed : ∀ i d, i ∈ items → d ∈ ti_dependencies i → d ∈ ti_task_id <$> items
}.

Lemma ledger_init_run goal items z :
  valid_text goal → 0 <= z → wf_items items → well_referenced items →
  ∃ V remaining, visit_inv items V remaining []
    ∧ TaskLedger_init (PStr goal) items (PInt z) None
      = if zlen V =? zlen items then Ok (mk_Ledger goal (sort_by by_task_id items) z None)
        else Err (Raise InvalidInput ("task ledger dependency cycle: "
               +:+ join_text " -> " (sorted_text (ids_where (Z.ltb 0) items remaining)))).
Proof.
  intros Hg Hz W [Hs Hn Hc].
  destruct (visit_total items W (length items) [] _ _ (initial_inv items W) ltac:(simpl; lia))
    as (V & remaining & Hv & Hinv).
  exists V, remaining. split; [done|]. unfold TaskLedger_init.
  rewrite (bind_Ok _ _ goal) by (by apply _text_run).
  rewrite (bind_Ok _ _ tt).
  2:{ apply require_true, negb_true_iff, orb_false_iff. by rewrite Z.eqb_neq, Z.ltb_ge; lia. }
  rewrite (bind_Ok _ _ tt) by (by apply require_true, no_dups_spec).
  rewrite (proj2 (missing_nil items) Hc). cbn [mbind res_bind].
  change (zlen (@nil string)) with 0 in Hv.
  rewrite Hv. destruct (zlen V =? zlen items); [|done]. simpl.
  by rewrite (proj2 (Z.ltb_ge z 0)).
Qed.

(** ** Batches *)

Lemma chunks_spec fuel fan l :
  (length l ≤ fuel)%nat → (1 ≤ fan)%nat →
  concat (chunks fuel fan l) = l
  ∧ ∀ b, b ∈ chunks fuel fan l → b ≠ [] ∧ (length b ≤ fan)%nat.
Proof.
  intros Hl Hf. revert l Hl. induction fuel as [|fuel IH]; intros [|x l] Hl; simpl in *; try lia;
    try (split; [done|set_solver]).
  destruct fan as [|fan]; [lia|]. destruct (IH (drop fan l)) as [Hc Hb].
  { rewrite length_drop. lia. }
  simpl. rewrite Hc, take_drop. split; [done|].
  intros b [->|Hin]%elem_of_cons; [|by apply Hb]. split; [done|]. simpl. rewrite length_take. lia.
Qed.

Lemma list_filter_split {A} (f : A → bool) l :
  List.filter f l ++ List.filter (λ x, negb (f x)) l ≡ₚ l.
Proof.
  induction l as [|x l IH]; [done|]. simpl. destruct (f x); simpl; [by rewrite IH|].
  by rewrite <-Permutation_middle, IH.
Qed.

(** Open tasks with their open dependencies. *)
Record open_graph (rank : string → nat) (rem : list (string * list string)) : Prop := {
  og_keys : NoDup rem.*1;
  og_closed : ∀ p d, p ∈ rem → d ∈ p.2 → d ∈ rem.*1;
  og_rank : ∀ p d, p ∈ rem → d ∈ p.2 → (rank d < rank p.1)%nat
}.

Definition level_of (rem : list (string * list string)) : list string :=
  sorted_text (List.filter (λ p, (length p.2 =? 0)%nat) rem).*1.

Definition next_open (rem : list (string * list string)) : list (string * list string) :=
  (λ p, (p.1, List.filter (λ d, negb (mem d (level_of rem))) p.2))
    <$> List.filter (λ p, negb (mem p.1 (level_of rem))) rem.

Section Batches.
Context (rank : string → nat).

Lemma level_elem rem p :
  open_graph rank rem → p ∈ rem → (p.1 ∈ level_of rem ↔ p.2 = []).
Proof.
  intros [Hk _ _] Hp. unfold level_of. rewrite sorted_text_Permutation, list_elem_of_fmap. split.
  - intros (q & He & [Hq Hl%Nat.eqb_eq]%list_elem_of_In%filter_In). apply list_elem_of_In in Hq.
    assert (p = q) as ->; [|by apply length_zero_iff_nil].
    apply list_elem_of_lookup in Hp as [a Ha], Hq as [b Hb].
    assert (a = b) as ->; [|congruence].
    eapply NoDup_lookup; [exact Hk| |]; rewrite list_lookup_fmap; [by rewrite Ha|].
    rewrite Hb. simpl. by rewrite He.
  - intros He. exists p. split; [done|]. apply list_elem_of_In, filter_In.
    split; [by apply list_elem_of_In|by rewrite He].
Qed.

Lemma level_nonempty rem : open_graph rank rem → rem ≠ [] → level_of rem ≠ [].
Proof.
  intros Hg Hne. assert (∀ n p, rank p.1 = n → p ∈ rem → ∃ x, x ∈ level_of rem) as H.
  { induction n as [n IH] using lt_wf_ind. intros p <- Hp. destruct p.2 as [|d ds] eqn:E.
    - exists p.1. by apply level_elem.
    - assert (d ∈ p.2) as Hd by (rewrite E; by left).
      pose proof (og_closed _ _ Hg p d Hp Hd) as (q & -> & Hq)%list_elem_of_fmap.
      exact (IH _ (og_rank _ _ Hg p _ Hp Hd) q eq_refl Hq). }
  destruct rem as [|p rem]; [done|]. destruct (H _ p eq_refl ltac:(by left)) as [x Hx].
  intros E. rewrite E in Hx. by apply elem_of_nil in Hx.
Qed.

Lemma level_split rem :
  open_graph rank rem → rem.*1 ≡ₚ level_of rem ++ (next_open rem).*1.
Proof.
  intros Hg. unfold next_open. rewrite <-list_fmap_compose.
  rewrite (filter_ext_in _ (λ p, negb (length p.2 =? 0)%nat)).
  2:{ intros p Hp%list_elem_of_In. f_equal. apply eq_true_iff_eq.
      rewrite mem_spec, level_elem, Nat.eqb_eq by done. by rewrite length_zero_iff_nil. }
  unfold level_of. rewrite sorted_text_Permutation.
  by rewrite <-(list_filter_split (λ p, (length p.2 =? 0)%nat) rem) at 1; rewrite fmap_app.
Qed.

Lemma next_open_elem rem q :
  q ∈ next_open rem ↔ ∃ p, p ∈ rem ∧ (p.1 ∉ level_of rem) ∧ q.1 = p.1
    ∧ q.2 = List.filter (λ d, negb (mem d (level_of rem))) p.2.
Proof.
  unfold next_open. rewrite list_elem_of_fmap. setoid_rewrite list_elem_of_In at 1.
  setoid_rewrite filter_In. setoid_rewrite <-list_elem_of_In. setoid_rewrite negb_true_iff.
  setoid_rewrite mem_false. destruct q as [x ds]. naive_solver.
Qed.

Lemma next_open_graph rem : open_graph rank rem → open_graph rank (next_open rem).
Proof.
  intros Hg. pose proof (level_split rem Hg) as Hs. split.
  - pose proof (og_keys _ _ Hg) as Hk. rewrite Hs in Hk. by apply NoDup_app in Hk as (_ & _ & ?).
  - intros q d (p & Hp & _ & _ & ->)%next_open_elem [Hd Hn]%list_elem_of_In%filter_In.
    apply list_elem_of_In in Hd. apply negb_true_iff, mem_false in Hn.
    pose proof (og_closed _ _ Hg p d Hp Hd) as Hin. rewrite Hs in Hin. set_solver.
  - intros q d (p & Hp & _ & -> & ->)%next_open_elem [Hd _]%list_elem_of_In%filter_In.
    apply list_elem_of_In in Hd. by apply (og_rank _ _ Hg).
Qed.

(** Every open dependency of a task is scheduled in an earlier batch. *)
Definition scheduled_before (rem : list (string * list string)) (bs : list (list string)) : Prop :=
  ∀ j b p d, bs !! j = Some b → p.1 ∈ b → p ∈ rem → d ∈ p.2 →
    ∃ i b', (i < j)%nat ∧ bs !! i = Some b' ∧ d ∈ b'.

Lemma scheduled_before_step rem cs bs :
  open_graph rank rem → concat cs = level_of rem → concat bs ≡ₚ (next_open rem).*1 →
  scheduled_before (next_open rem) bs → scheduled_before rem (cs ++ bs).
Proof.
  intros Hg Hcs Hbs Hb j b p d Hj Hpb Hp Hd.
  assert (p.1 ∉ level_of rem) as Hpl.
  { rewrite (level_elem _ _ Hg Hp). intros E. rewrite E in Hd. by apply elem_of_nil in Hd. }
  apply lookup_app_Some in Hj as [Hj|[Hle Hj]].
  - destruct Hpl. rewrite <-Hcs. apply list_elem_of_In, in_concat. exists b.
    split; apply list_elem_of_In; [by eapply list_elem_of_lookup_2|done].
  - destruct (decide (d ∈ level_of rem)) as [Hdl|Hdl].
    + rewrite <-Hcs in Hdl. apply list_elem_of_In, in_concat in Hdl as (b' & Hb' & Hdb).
      apply list_elem_of_In in Hb', Hdb. apply list_elem_of_lookup in Hb' as [i Hi].
      pose proof (lookup_lt_Some _ _ _ Hi). exists i, b'. split_and!; [lia| |done].
      by apply lookup_app_l_Some.
    + destruct (Hb (j - length cs)%nat b (p.1, List.filter (λ d, negb (mem d (level_of rem))) p.2) d)
        as (i & b' & Hi & Hlk & Hdb); [done|done| | |].
      * apply next_open_elem. by exists p.
      * apply list_elem_of_In, filter_In. split; [by apply list_elem_of_In|].
        by apply negb_true_iff, mem_false.
      * exists (length cs + i)%nat, b'. split_and!; [lia| |done]. by rewrite lookup_app_r, Nat.add_comm, Nat.add_sub by lia.
Qed.

Lemma batches_step fan fuel rem :
  rem ≠ [] →
  batches (S fuel) fan rem
  = (_ ← require (negb (length (level_of rem) =? 0)%nat) InvalidInput
           "task ledger dependency cycle";
     rest ← batches fuel fan (next_open rem);
     Ok (chunks (length (level_of rem)) fan (level_of rem) ++ rest)).
Proof. by destruct rem. Qed.

Lemma batches_ok fan fuel rem :
  (1 ≤ fan)%nat → (length rem ≤ fuel)%nat → open_graph rank rem →
  ∃ bs, batches fuel fan rem = Ok bs ∧ concat bs ≡ₚ rem.*1
    ∧ (∀ b, b ∈ bs → b ≠ [] ∧ (length b ≤ fan)%nat) ∧ scheduled_before rem bs.
Proof.
  intros Hf. revert rem. induction fuel as [|fuel IH]; intros rem Hl Hg.
  { destruct rem; [|simpl in Hl; lia]. exists []. split_and!; [done|done|set_solver|by intros ??]. }
  destruct (decide (rem = [])) as [->|Hne].
  { exists []. split_and!; [done|done|set_solver|by intros ??]. }
  pose proof (level_nonempty rem Hg Hne) as Hlv. pose proof (level_split rem Hg) as Hs.
  pose proof (Permutation_length Hs) as Hlen. rewrite length_app, !length_fmap in Hlen.
  destruct (level_of rem) as [|x lv] eqn:E; [done|]. simpl in Hlen. rewrite <-E in *.
  destruct (IH (next_open rem) ltac:(lia) (next_open_graph rem Hg)) as (bs & Hbs & Hc & Hb & Ho).
  destruct (chunks_spec (length (level_of rem)) fan (level_of rem)) as [Hcc Hcb]; [lia|done|].
  exists (chunks (length (level_of rem)) fan (level_of rem) ++ bs). split_and!.
  - rewrite batches_step, Hbs by done. by rewrite E.
  - by rewrite concat_app, Hcc, Hc, Hs.
  - set_solver.
  - by apply scheduled_before_step.
Qed.
End Batches.

(** ** Accepted ledgers *)

(** The item came out of its constructor. *)
Definition constructed (i : TaskLedgerItem) : Prop :=
  ∃ a b c d e ds, TaskLedgerItem_init a b c d e ds = Ok i.

Lemma constructed_wf items :
  (∀ i, i ∈ items → constructed i) → well_referenced items → wf_items items.
Proof.
  intros Hc [_ Hn Hcl]. split; [done| |done].
  intros i (a & b & c & d & e & ds & H)%Hc. by apply item_init_wf in H as [].
Qed.

Lemma wf_items_Permutation items items' : items ≡ₚ items' → wf_items items → wf_items items'.
Proof.
  intros Hp [H1 H2 H3]. split.
  - by rewrite <-Hp.
  - intros i Hi. apply H2. by rewrite Hp.
  - intros i d Hi Hd. rewrite <-Hp. eapply H3; [by rewrite Hp|done].
Qed.

Lemma ledger_init_ok goal items z reason self :
  (∀ i, i ∈ items → constructed i) → TaskLedger_init goal items z reason = Ok self →
  well_referenced items ∧ tl_items self ≡ₚ items ∧ wf_items (tl_items self)
  ∧ ∃ rank, ranking (tl_items self) rank.
Proof.
  intros Hcon. unfold TaskLedger_init. intros H. apply bind_ok in H as (g & _ & H).
  apply bind_ok in H as (? & H1%require_ok & H). apply bind_ok in H as (? & H2%require_ok & H).
  apply bind_ok in H as (? & H3 & H). apply bind_ok in H as (? & H4 & H).
  apply bind_ok in H as (? & _ & H). apply bind_ok in H as (? & _ & [= <-]). to_prop.
  assert (well_referenced items) as Hw.
  { split; [unfold zlen in *; lia|done|]. apply missing_nil.
    match goal with |- ?l = [] => by destruct l end. }
  pose proof (constructed_wf _ Hcon Hw) as W. split; [done|]. simpl.
  pose proof (sort_by_Permutation by_task_id items) as Hp.
  split_and!; [done|by eapply wf_items_Permutation|].
  destruct (visit_total items W (length items) [] _ _ (initial_inv items W) ltac:(simpl; lia))
    as (V & remaining & Hv & Hinv). change (zlen (@nil string)) with 0 in Hv.
  rewrite Hv in H4. apply require_ok, Z.eqb_eq in H4.
  destruct (visited_ranking items W V (vi_order _ _ _ _ Hinv) H4) as [rank Hr].
  exists rank. intros i d Hi. apply Hr. by rewrite <-Hp.
Qed.

Lemma raises_only_step {A B} c (m : res A) (f : A → res B) :
  raises_only c m → (∀ a, m = Ok a → raises_only c (f a)) → raises_only c (m ≫= f).
Proof. intros Hm Hf. destruct m as [a|e]; [by apply Hf|]. intros e' [= <-]. by apply Hm. Qed.

Lemma ledger_init_raises goal items z reason :
  (∀ i, i ∈ items → constructed i) →
  raises_only InvalidInput (TaskLedger_init goal items z reason).
Proof.
  intros Hcon. unfold TaskLedger_init, _text. apply raises_only_bind; [raises_tac|intros g].
  apply raises_only_step; [raises_tac|]. intros [] H1%require_ok.
  apply raises_only_step; [raises_tac|]. intros [] H2%require_ok.
  apply raises_only_step; [case_match; raises_tac|]. intros [] H3. to_prop.
  assert (wf_items items) as W.
  { apply constructed_wf; [done|]. split; [unfold zlen in *; lia|done|].
    apply missing_nil. match goal with |- ?l = [] => by destruct l end. }
  destruct (visit_total items W (length items) [] _ _ (initial_inv items W) ltac:(simpl; lia))
    as (V & remaining & Hv & _). change (zlen (@nil string)) with 0 in Hv. rewrite Hv.
  raises_tac; [destruct z|destruct reason]; raises_tac.
Qed.

(** ** Ready items *)

Lemma status_of_item items i :
  wf_items items → i ∈ items → status_of items (ti_task_id i) = Ok (ti_status i).
Proof.
  intros W Hi. unfold status_of. destruct (List.find _ _) as [j|] eqn:E.
  - apply find_some in E as [Hj%list_elem_of_In He%String.eqb_eq].
    by rewrite (same_id items W j i).
  - apply list_elem_of_In in Hi. apply (find_none _ _ E) in Hi. by rewrite String.eqb_refl in Hi.
Qed.

(** The tasks of [ds] are all completed. *)
Definition deps_completed (items : list TaskLedgerItem) (completed ds : list string) : Prop :=
  ∀ j, j ∈ items → ti_task_id j ∈ ds → ti_status j ∈ completed.

Lemma all_completed_ok items completed ds :
  wf_items items → (∀ d, d ∈ ds → d ∈ ti_task_id <$> items) →
  ∃ b, all_completed items completed ds = Ok b
    ∧ (b = true ↔ deps_completed items completed ds).
Proof.
  intros W. induction ds as [|d ds IH]; intros Hin; simpl.
  { exists true. split; [done|]. split; [|done]. intros _ j _ Hj. by apply elem_of_nil in Hj. }
  destruct (proj1 (list_elem_of_fmap _ _ _) (Hin d ltac:(by left))) as (i & -> & Hi).
  rewrite (status_of_item items i W Hi). simpl.
  destruct (mem (ti_status i) completed) eqn:Em; to_prop.
  - destruct IH as (b & -> & Hb); [set_solver|]. exists b. split; [done|]. rewrite Hb.
    unfold deps_completed. split; [|set_solver].
    intros H j Hj [He|Hd]%elem_of_cons; [|by apply H]. by rewrite (same_id items W j i Hj Hi He).
  - exists false. split; [done|]. split; [done|]. intros H. destruct Em. apply (H i Hi). by left.
Qed.

Lemma filterM_ok {A} (p : A → res bool) l :
  (∀ x, x ∈ l → ∃ b, p x = Ok b) →
  ∃ r, filterM p l = Ok r ∧ (∀ x, x ∈ r ↔ x ∈ l ∧ p x = Ok true) ∧ sublist r l.
Proof.
  induction l as [|x l IH]; intros Hp; simpl.
  { exists []. split_and!; [done|set_solver|constructor]. }
  destruct (Hp x ltac:(by left)) as [b Hb]. destruct IH as (r & -> & Hr & Hs); [set_solver|].
  rewrite Hb. simpl. exists (if b then x :: r else r).
  split_and!; [by destruct b| |destruct b; by constructor].
  intros y. rewrite (elem_of_cons l y x). destruct b; rewrite ?elem_of_cons, Hr; split.
  - intros [->|[? ?]]; by auto.
  - intros [[->|?] ?]; by auto.
  - intros [? ?]; by auto.
  - intros [[->|?] ?]; [congruence|by auto].
Qed.

(** A task that may be dispatched now. *)
Definition dispatchable (items : list TaskLedgerItem) (runnable completed : list string)
    (i : TaskLedgerItem) : Prop :=
  i ∈ items ∧ ti_status i ∈ runnable ∧ deps_completed items completed (ti_dependencies i).

Lemma ready_items_run self fan runnable completed :
  wf_items (tl_items self) → 1 <= fan →
  ∃ r, ready_items self (PInt fan) runnable completed
         = Ok (take (Z.to_nat fan) (sort_by by_task_id r))
    ∧ (∀ i, i ∈ r ↔ dispatchable (tl_items self) runnable completed i) ∧ sublist r (tl_items self).
Proof.
  intros W Hf. unfold ready_items, _fanout, dispatchable. rewrite (proj2 (Z.ltb_ge fan 1)) by lia.
  simpl. set (p := λ i, if mem (ti_status i) runnable then _ else _).
  assert (∀ i, i ∈ tl_items self → ∃ b, p i = Ok b ∧ (b = true ↔ ti_status i ∈ runnable
    ∧ deps_completed (tl_items self) completed (ti_dependencies i))) as Hp.
  { intros i Hi. unfold p. destruct (mem _ _) eqn:Em; to_prop.
    - destruct (all_completed_ok (tl_items self) completed (ti_dependencies i) W) as (b & -> & Hb);
        [by intros; eapply W|]. exists b. by rewrite Hb; intuition.
    - exists false. split; [done|]. split; [done|]. by intros [? _]. }
  destruct (filterM_ok p (tl_items self)) as (r & -> & Hr & Hs).
  { intros x Hx. destruct (Hp x Hx) as (b & ? & _). by eauto. }
  exists r. split; [done|]. split; [|done]. intros i. rewrite Hr. split.
  - intros [Hi Hpi]. destruct (Hp i Hi) as (b & Hb & Hiff). rewrite Hb in Hpi.
    injection Hpi as ->. split; [done|]. by apply Hiff.
  - intros [Hi Hd]. split; [done|]. destruct (Hp i Hi) as (b & Hb & Hiff). apply Hiff in Hd. by subst.
Qed.

Lemma some_dispatchable items rank runnable completed i :
  wf_items items → ranking items rank →
  (∀ j, j ∈ items → ti_status j ∈ runnable ∨ ti_status j ∈ completed) →
  i ∈ items → ti_status i ∉ completed → ∃ j, dispatchable items runnable completed j.
Proof.
  intros W Hr Hst. remember (rank (ti_task_id i)) as n eqn:Hn. revert i Hn.
  induction n as [n IH] using lt_wf_ind. intros i -> Hi Hni.
  destruct (decide (Forall (λ j, ti_task_id j ∈ ti_dependencies i → ti_status j ∈ completed) items))
    as [Hall|Hnot%not_Forall_Exists]; [| |apply _].
  - exists i. split; [done|]. split; [by destruct (Hst i Hi)|].
    intros j Hj. by apply (proj1 (Forall_forall _ _) Hall).
  - apply Exists_exists in Hnot as (j & Hj & Hnj).
    assert (ti_task_id j ∈ ti_dependencies i) as Hd by (apply dec_stable; intros H; by apply Hnj).
    apply (IH (rank (ti_task_id j)) (Hr i _ Hi Hd) j); [done|done|].
    intros H. by apply Hnj.
Qed.

#[export] Instance by_task_id_sort_key : SortKey by_task_id.
Proof.
  unfold by_task_id. split; intros; [apply sort_total|by eapply sort_trans].
Qed.

Lemma StronglySorted_take {A} (R : A → A → Prop) n l :
  StronglySorted R l → StronglySorted R (take n l).
Proof.
  intros H. revert n. induction H as [|x l _ IH Hx]; intros [|n]; simpl; constructor; [done|].
  by apply Forall_take.
Qed.

(** ** Theorems *)

(** C24: the cycle check is exact.  A ledger of constructed items is accepted
    exactly when it has 1..256 items with distinct identifiers, refers only to its
    own items, and its dependencies can be ordered.  Every refusal is an
    [InvalidInput], in particular the worklist always finishes; and when only the
    order is missing, the error names a set of tasks each of which depends on
    another one of the set. *)
Theorem ledger_accepts_iff goal items z :
  valid_text goal → 0 <= z → (∀ i, i ∈ items → constructed i) →
  let result := TaskLedger_init (PStr goal) items (PInt z) None in
  ((∃ self, result = Ok self)
   ↔ well_referenced items ∧ ∃ rank, ranking items rank)
  ∧ raises_only InvalidInput result
  ∧ (well_referenced items → (¬ ∃ rank, ranking items rank) →
     ∃ C, stuck items C ∧ result = Err (Raise InvalidInput
       ("task ledger dependency cycle: " +:+ join_text " -> " (sorted_text C)))).
Proof.
  intros Hg Hz Hcon result. unfold result. split_and!.
  - split.
    + intros [self H]. destruct (ledger_init_ok _ _ _ _ _ Hcon H) as (Hw & Hp & _ & rank & Hr).
      split; [done|]. exists rank. intros i d Hi. apply Hr. by rewrite Hp.
    + intros [Hw [rank Hr]]. pose proof (constructed_wf _ Hcon Hw) as W.
      destruct (ledger_init_run goal items z Hg Hz W Hw) as (V & remaining & Hinv & ->).
      destruct (Z.eqb_spec (zlen V) (zlen items)) as [|Hne]; [by eauto|].
      by destruct (stuck_no_ranking items _ rank (unvisited_stuck items W V remaining Hinv Hne)).
  - by apply ledger_init_raises.
  - intros Hw Hno. pose proof (constructed_wf _ Hcon Hw) as W.
    destruct (ledger_init_run goal items z Hg Hz W Hw) as (V & remaining & Hinv & ->).
    destruct (Z.eqb_spec (zlen V) (zlen items)) as [He|Hne].
    + destruct Hno. by apply (visited_ranking items W V), He; apply Hinv.
    + eexists. split; [by eapply unvisited_stuck|done].
Qed.

(** C25: the batch projection is a complete schedule.  For every accepted ledger
    and every positive fan-out it returns; its batches hold every task exactly
    once, are neither empty nor larger than the fan-out, and every dependency of a
    task is in a strictly earlier batch. *)
Theorem batches_schedule goal items z reason self fan :
  (∀ i, i ∈ items → constructed i) → TaskLedger_init goal items z reason = Ok self → 1 <= fan →
  ∃ bs, dependency_batches self (PInt fan) = Ok bs
    ∧ concat bs ≡ₚ ti_task_id <$> items
    ∧ (∀ b, b ∈ bs → b ≠ [] ∧ zlen b <= fan)
    ∧ ∀ j b i d, bs !! j = Some b → i ∈ items → ti_task_id i ∈ b → d ∈ ti_dependencies i →
        ∃ k b', (k < j)%nat ∧ bs !! k = Some b' ∧ d ∈ b'.
Proof.
  intros Hcon H Hf. destruct (ledger_init_ok _ _ _ _ _ Hcon H) as (_ & Hp & W & rank & Hr).
  set (rem := (λ i, (ti_task_id i, ti_dependencies i)) <$> tl_items self).
  assert (rem.*1 = ti_task_id <$> tl_items self) as Hk by (unfold rem; by rewrite <-list_fmap_compose).
  assert (open_graph rank rem) as Hg.
  { split; [rewrite Hk; apply W| |].
    - intros p d (i & -> & Hi)%list_elem_of_fmap Hd. rewrite Hk. by eapply W.
    - intros p d (i & -> & Hi)%list_elem_of_fmap Hd. by apply Hr. }
  destruct (batches_ok rank (Z.to_nat fan) (length (tl_items self)) rem) as (bs & Hb & Hc & Hs & Ho);
    [lia|unfold rem; by rewrite length_fmap|done|].
  exists bs. unfold dependency_batches, _fanout. rewrite (proj2 (Z.ltb_ge fan 1)) by lia.
  split_and!; [done|by rewrite Hc, Hk, Hp| |].
  - intros b [Hne Hl]%Hs. split; [done|]. unfold zlen. lia.
  - intros j b i d Hj Hi Hib Hd. apply (Ho j b (ti_task_id i, ti_dependencies i) d); try done.
    apply list_elem_of_fmap. exists i. split; [done|]. by rewrite Hp.
Qed.

(** Dispatch is exact, bounded and never deadlocks.  For every accepted
    ledger the ready batch is returned in identifier order without repetition and
    within the fan-out; it contains only tasks with a runnable status whose
    dependencies are all completed, and all of them unless the fan-out is
    reached; and while every task is runnable or completed and some task is not
    completed, it is not empty. *)
Theorem ready_items_progress goal items z reason self fan runnable completed :
  (∀ i, i ∈ items → constructed i) → TaskLedger_init goal items z reason = Ok self → 1 <= fan →
  ∃ l, ready_items self (PInt fan) runnable completed = Ok l
    ∧ StronglySorted (λ a b, by_task_id a b = true) l ∧ NoDup l ∧ zlen l <= fan
    ∧ (∀ i, i ∈ l → dispatchable items runnable completed i)
    ∧ (zlen l < fan → ∀ i, dispatchable items runnable completed i → i ∈ l)
    ∧ ((∀ i, i ∈ items → ti_status i ∈ runnable ∨ ti_status i ∈ completed) →
       (∃ i, i ∈ items ∧ ti_status i ∉ completed) → l ≠ []).
Proof.
  intros Hcon H Hf. destruct (ledger_init_ok _ _ _ _ _ Hcon H) as (_ & Hp & W & rank & Hr).
  destruct (ready_items_run self fan runnable completed W Hf) as (r & Hrun & Hin & Hsub).
  assert (∀ i, dispatchable (tl_items self) runnable completed i
               ↔ dispatchable items runnable completed i) as Hdis.
  { intros i. unfold dispatchable, deps_completed. by setoid_rewrite Hp. }
  pose proof (sort_by_Permutation by_task_id r) as Hsp.
  set (l := sort_by by_task_id r) in *. exists (take (Z.to_nat fan) l). split; [done|].
  assert (NoDup l) as Hnd.
  { rewrite Hsp. eapply sublist_NoDup; [|exact Hsub]. eapply NoDup_fmap_1, W. }
  split_and!.
  - apply StronglySorted_take, (sort_by_sorted by_task_id).
  - eapply sublist_NoDup; [exact Hnd|apply sublist_take].
  - unfold zlen. rewrite length_take. lia.
  - intros i Hi. apply Hdis, Hin. rewrite <-Hsp.
    by apply (elem_of_take _ (Z.to_nat fan)) in Hi as (? & ?%list_elem_of_lookup_2 & _).
  - intros Hlt i Hi. rewrite take_ge; [by rewrite Hsp; apply Hin, Hdis|].
    unfold zlen in Hlt. rewrite length_take in Hlt. lia.
  - intros Hst (i & Hi & Hni) He. destruct (some_dispatchable items rank runnable completed i) as [j Hj];
      try done.
    + by eapply wf_items_Permutation.
    + intros k d Hk. apply Hr. by rewrite Hp.
    + apply Hdis, Hin in Hj. rewrite <-Hsp in Hj. destruct l as [|x l']; [by apply elem_of_nil in Hj|].
      destruct (Z.to_nat fan) eqn:E; [lia|done].
Qed.

(** ** A sample ledger *)

Module LedgerSample.
Definition task (id status : string) (deps : list string) : TaskLedgerItem :=
  mk_Item id id status (PStr "") (PStr "") deps.
Definition items : list TaskLedgerItem :=
  [task "test" "pending" ["build"; "fetch"]; task "build" "pending" ["fetch"]; task "fetch" "done" []].
Definition ledger : TaskLedger := mk_Ledger "goal" (sort_by by_task_id items) 0 None.

Lemma items_constructed i : i ∈ items → constructed i.
Proof.
  intros Hi. exists (PStr (ti_task_id i)), (PStr (ti_title i)), (PStr (ti_status i)), (ti_owner i),
    (ti_parent_id i), (ti_dependencies i). revert i Hi. apply Forall_forall.
  repeat constructor; by vm_compute.
Qed.

Lemma ledger_init : TaskLedger_init (PStr "goal") items (PInt 0) None = Ok ledger.
Proof. by vm_compute. Qed.

(** Two tasks that wait for each other. *)
Definition cyclic : list TaskLedgerItem := [task "a" "pending" ["b"]; task "b" "pending" ["a"]].
Lemma cycle_reported :
  TaskLedger_init (PStr "goal") cyclic (PInt 0) None
  = Err (Raise InvalidInput "task ledger dependency cycle: a -> b").
Proof. by vm_compute. Qed.
End LedgerSample.

Lemma ledger_accepts_iff_witness : ∃ rank, ranking LedgerSample.items rank.
Proof.
  assert (valid_text "goal") as Hg by (split; by vm_compute).
  destruct (ledger_accepts_iff "goal" LedgerSample.items 0 Hg (Z.le_refl 0)
    LedgerSample.items_constructed) as [Hiff _].
  destruct (proj1 Hiff (ex_intro _ _ LedgerSample.ledger_init)) as [_ Hr]. exact Hr.
Defined.

Lemma batches_schedule_witness :
  ∃ bs, dependency_batches LedgerSample.ledger (PInt 2) = Ok bs
    ∧ concat bs ≡ₚ ["test"; "build"; "fetch"].
Proof.
  destruct (batches_schedule (PStr "goal") LedgerSample.items (PInt 0) None LedgerSample.ledger 2
    LedgerSample.items_constructed LedgerSample.ledger_init) as (bs & Hb & Hc & _); [lia|].
  exists bs. split; [exact Hb|exact Hc].
Defined.

Lemma ready_items_progress_witness :
  ∃ l, ready_items LedgerSample.ledger (PInt 2) RUNNABLE_TASK_STATUSES COMPLETED_TASK_STATUSES
         = Ok l ∧ zlen l <= 2.
Proof.
  destruct (ready_items_progress (PStr "goal") LedgerSample.items (PInt 0) None LedgerSample.ledger 2
    RUNNABLE_TASK_STATUSES COMPLETED_TASK_STATUSES LedgerSample.items_constructed
    LedgerSample.ledger_init) as (l & Hl & _ & _ & Hz & _); [lia|].
  exists l. split; [exact Hl|exact Hz].
Defined.
