(* ===== verification/AdaptiveConcurrency.v ===== *)
(** [domain/adaptive_concurrency.py]: which lanes may run together, and how many.

    [Module Lanes] is the ownership half: path normalisation, [LaneClaim], the
    conflict test, [conflict_graph] and [admissible_lanes].  [Module Cap] is the
    adaptive cap: the policy and its validation, [observe] with the pressure
    hysteresis, the storm and churn evidence and the recovery streak.  Sets of
    lanes are [gset string], the graph is a [gmap]; thresholds and memory
    fractions are Python numbers. *)
From S2P Require Import Prelude PyFloat PyText.
From Stdlib Require Import Ascii.

Local Open Scope Z_scope.

Module Lanes.

Inductive LaneAccess := READ | WRITE.
#[export] Instance LaneAccess_eq_dec : EqDecision LaneAccess.
Proof. solve_decision. Defined.

Definition LaneAccess_of (s : string) : option LaneAccess :=
  if String.eqb s "read" then Some READ
  else if String.eqb s "write" then Some WRITE
  else None.

(** A claim as the validated constructor leaves it; [paths] is a set. *)
Record LaneClaim := MkLaneClaim {
  lane_id : string;
  paths : list string;
  access : LaneAccess
}.

(** [(absolute, parts)] of a claimed path. *)
Definition _path_parts (path : pyval) : res (bool * list string) :=
  match py_str path with
  | None => throw ValueError "claimed paths must be strings"
  | Some p =>
      let text := casefold (strip (replace_char "\" "/" p)) in
      _ ← require (negb (String.eqb text "")) ValueError "claimed paths must be non-empty";
      let absolute :=
        String.prefix "/" text
        || match utf8_decode text with
           | c0 :: c1 :: _ => (c1 =? 58) && is_alpha_point c0
           | _ => false
           end in
      let parts := List.filter (λ w, negb (mem w [""; "."; "/"])) (posix_parts text) in
      _ ← require (negb (mem ".." parts)) ValueError
            "claimed paths must not escape the scope root";
      Ok (absolute, parts)
  end.

Definition _normalize_path (path : pyval) : res string :=
  ap ← _path_parts path;
  _ ← require (negb ap.1) ValueError "claimed paths must be anchored to the scope root";
  Ok (join_text "/" ap.2).

(** [anchor_claim_path(path, root)] *)
Definition anchor_claim_path (path root : pyval) : res string :=
  ap ← _path_parts path;
  if negb ap.1 then Ok (join_text "/" ap.2)
  else
    _ ← check_str (λ r, negb (is_blank r)) ValueError
          "an absolute claim needs a scope root to anchor to" root;
    rp ← _path_parts root;
    _ ← require rp.1 ValueError "the scope root must be absolute";
    _ ← require (bool_decide (take (length rp.2) ap.2 = rp.2)) ValueError
          "claimed path lies outside the scope root";
    Ok (join_text "/" (drop (length rp.2) ap.2)).

(** The constructor with its [__post_init__]; [claimed] is the iteration order of
    the set of paths it is given. *)
Definition LaneClaim_init (id : pyval) (claimed : list pyval) (acc : pyval) : res LaneClaim :=
  id' ← check_str (λ s, negb (is_blank s)) ValueError "lane_id is required" id;
  acc' ← check_member "LaneAccess" LaneAccess_of ValueError "access must be a LaneAccess" acc;
  ps ← mapM_res _normalize_path claimed;
  Ok (MkLaneClaim id' (fromkeys ps) acc').

Definition path_tuple (p : string) : list string :=
  if String.eqb p "" then [] else split_text "/" p.

Definition _paths_overlap (left right : string) : bool :=
  let left_parts := path_tuple left in
  let right_parts := path_tuple right in
  let shorter := Nat.min (length left_parts) (length right_parts) in
  bool_decide (take shorter left_parts = take shorter right_parts).

Definition claims_conflict (left right : LaneClaim) : bool :=
  if String.eqb (lane_id left) (lane_id right) then false
  else if bool_decide (access left = READ) && bool_decide (access right = READ) then false
  else existsb (λ a, existsb (λ b, _paths_overlap a b) (paths right)) (paths left).

(** [graph[a].add(b)] *)
Definition add_peer (a b : string) (g : gmap string (gset string)) : gmap string (gset string) := alter (λ s, {[b]} ∪ s) a g.

Definition link_lane (left : LaneClaim) (g : gmap string (gset string)) (right : LaneClaim) : gmap string (gset string) :=
  if claims_conflict left right
  then add_peer (lane_id right) (lane_id left) (add_peer (lane_id left) (lane_id right) g)
  else g.

Fixpoint link_lanes (claims : list LaneClaim) (g : gmap string (gset string)) : gmap string (gset string) :=
  match claims with
  | [] => g
  | claim :: rest => link_lanes rest (foldl (link_lane claim) g rest)
  end.

Definition conflict_graph (claims : list LaneClaim) : res (gmap string (gset string)) :=
  let ids := lane_id <$> claims in
  _ ← require (no_dups ids) ValueError "lane ids must be unique";
  Ok (link_lanes claims (list_to_map ((λ i, (i, ∅)) <$> ids))).

Definition coupled_lane_count (g : gmap string (gset string)) : Z :=
  Z.of_nat (size (filter (λ kv : string * gset string, kv.2 ≠ ∅) g)).

(** [any(peer in occupied for peer in graph.get(lane_id, ()))] *)
Definition blocked (g : gmap string (gset string)) (occupied : gset string) (lane : string) : bool :=
  existsb (λ peer, bool_decide (peer ∈ occupied)) (elements (default ∅ (g !! lane))).

Fixpoint admit_loop (g : gmap string (gset string)) (cap : Z) (pending : list string) (occupied : gset string)
  : list string :=
  match pending with
  | [] => []
  | lane :: rest =>
      if cap <=? Z.of_nat (size occupied) then []
      else if bool_decide (lane ∈ occupied) then admit_loop g cap rest occupied
      else if blocked g occupied lane then admit_loop g cap rest occupied
      else lane :: admit_loop g cap rest ({[lane]} ∪ occupied)
  end.

Definition admissible_lanes (pending running : list string) (cap : Z) (g : gmap string (gset string))
  : res (list string) :=
  _ ← require (1 <=? cap) ValueError "cap must be at least one";
  Ok (admit_loop g cap pending (list_to_set running)).

(** ** The conflict test *)

(** One component list extends the other. *)
Definition nested (p q : list string) : Prop := p `prefix_of` q ∨ q `prefix_of` p.

Lemma take_min_nested (p q : list string) :
  take (Nat.min (length p) (length q)) p = take (Nat.min (length p) (length q)) q ↔ nested p q.
Proof.
  unfold nested. destruct (Nat.le_ge_cases (length p) (length q)) as [H|H].
  - rewrite Nat.min_l by done. rewrite (take_ge p) by lia. split.
    + intros E. left. rewrite E. exists (drop (length p) q). by rewrite take_drop.
    + intros [[k ->]|[k E]].
      * by rewrite take_app_length.
      * rewrite E in H |- *. rewrite length_app in H. destruct k; [|simpl in H; lia].
        rewrite app_nil_r. by rewrite take_ge.
  - rewrite Nat.min_r by done. rewrite (take_ge q) by lia. split.
    + intros E. right. rewrite <-E. exists (drop (length q) p). by rewrite take_drop.
    + intros [[k E]|[k ->]].
      * rewrite E in H |- *. rewrite length_app in H. destruct k; [|simpl in H; lia].
        rewrite app_nil_r. by rewrite take_ge.
      * by rewrite take_app_length.
Qed.

Lemma paths_overlap_iff a b :
  _paths_overlap a b = true ↔ nested (path_tuple a) (path_tuple b).
Proof. unfold _paths_overlap. rewrite bool_decide_eq_true. apply take_min_nested. Qed.

Lemma paths_overlap_sym a b : _paths_overlap a b = _paths_overlap b a.
Proof. apply eq_iff_eq_true. rewrite !paths_overlap_iff. unfold nested. tauto. Qed.

(** The parts of a relative path are proper components: not empty, not a dot or
    two, without a separator. *)
Definition component (w : string) : Prop :=
  w ≠ "" ∧ w ≠ "." ∧ w ≠ ".." ∧ free_of "/" w = true.

Lemma path_parts_relative path parts :
  _path_parts path = Ok (false, parts) → Forall component parts.
Proof.
  unfold _path_parts. destruct (py_str path) as [p|]; [|done]. intros H.
  set (text := casefold _) in *. res_inv. to_prop.
  apply Forall_forall. intros w Hw. pose proof Hw as Hw'.
  apply list_elem_of_In, filter_In in Hw' as [Hin Hf]. apply list_elem_of_In in Hin.
  apply posix_parts_relative in Hin as (? & ? & ?); [|done].
  split_and!; try done. by intros ->.
Qed.

Lemma path_tuple_join parts : Forall component parts → path_tuple (join_text "/" parts) = parts.
Proof.
  intros Hp. unfold path_tuple. destruct (String.eqb_spec (join_text "/" parts) "") as [E|E].
  - symmetry. eapply join_text_empty; [|exact E].
    eapply Forall_impl; [exact Hp|]. by intros ? [? _].
  - apply split_join; [by intros ->|].
    eapply Forall_impl; [exact Hp|]. by intros ? (? & ? & ? & ?).
Qed.

(** A stored path of a claim is the text of the components of a claimed path. *)
Lemma normalize_path_tuple path s :
  _normalize_path path = Ok s ↔
  ∃ parts, _path_parts path = Ok (false, parts) ∧ s = join_text "/" parts.
Proof.
  unfold _normalize_path. split.
  - intros H. res_inv. to_prop. destruct a as [b parts]; simpl in *; subst. eauto.
  - intros (parts & -> & ->). done.
Qed.

Lemma claim_paths_elem id claimed acc c s :
  LaneClaim_init id claimed acc = Ok c →
  s ∈ paths c ↔ ∃ p parts, p ∈ claimed ∧ _path_parts p = Ok (false, parts)
                           ∧ s = join_text "/" parts.
Proof.
  unfold LaneClaim_init. intros H. res_inv. rewrite fromkeys_elem. split.
  - intros Hs. apply list_elem_of_lookup in Hs as [k Hk].
    eapply Forall2_lookup_r in Hok1 as (p & Hp & Hn); [|exact Hk].
    apply normalize_path_tuple in Hn as (parts & ? & ?).
    exists p, parts. split; [by eapply list_elem_of_lookup_2|done].
  - intros (p & parts & Hp & Hparts & ->). apply list_elem_of_lookup in Hp as [k Hk].
    eapply Forall2_lookup_l in Hok1 as (s & Hs & Hn); [|exact Hk].
    apply normalize_path_tuple in Hn as (parts' & Hparts' & ->).
    rewrite Hparts in Hparts'. simplify_eq. by eapply list_elem_of_lookup_2.
Qed.

Lemma claims_conflict_paths c1 c2 :
  claims_conflict c1 c2 = true ↔
  lane_id c1 ≠ lane_id c2 ∧ (access c1 = WRITE ∨ access c2 = WRITE)
  ∧ ∃ a b, a ∈ paths c1 ∧ b ∈ paths c2 ∧ _paths_overlap a b = true.
Proof.
  unfold claims_conflict. destruct (String.eqb_spec (lane_id c1) (lane_id c2)); [naive_solver|].
  assert (bool_decide (access c1 = READ) && bool_decide (access c2 = READ) = false
          ↔ access c1 = WRITE ∨ access c2 = WRITE) as Hw.
  { destruct (access c1), (access c2); repeat case_bool_decide; naive_solver. }
  destruct (_ && _).
  - naive_solver.
  - rewrite existsb_exists. setoid_rewrite existsb_exists.
    setoid_rewrite <-list_elem_of_In. naive_solver.
Qed.

Lemma claims_conflict_sym c1 c2 : claims_conflict c1 c2 = claims_conflict c2 c1.
Proof.
  apply eq_iff_eq_true. rewrite !claims_conflict_paths.
  split; intros (? & ? & a & b & ? & ? & Ho); rewrite paths_overlap_sym in Ho; naive_solver.
Qed.

Lemma claims_conflict_irrefl c : claims_conflict c c = false.
Proof. unfold claims_conflict. by rewrite String.eqb_refl. Qed.

(** Two accepted claims conflict exactly when they belong to different lanes, at
    least one of them writes, and some path claimed by one equals or contains a path
    claimed by the other, component by component after case folding and separator
    normalisation. *)
Theorem claims_conflict_iff id1 claimed1 acc1 c1 id2 claimed2 acc2 c2 :
  LaneClaim_init id1 claimed1 acc1 = Ok c1 →
  LaneClaim_init id2 claimed2 acc2 = Ok c2 →
  claims_conflict c1 c2 = true ↔
  lane_id c1 ≠ lane_id c2 ∧ (access c1 = WRITE ∨ access c2 = WRITE)
  ∧ ∃ p q ps qs, p ∈ claimed1 ∧ q ∈ claimed2
      ∧ _path_parts p = Ok (false, ps) ∧ _path_parts q = Ok (false, qs) ∧ nested ps qs.
Proof.
  intros H1 H2. rewrite claims_conflict_paths. setoid_rewrite paths_overlap_iff.
  setoid_rewrite (claim_paths_elem _ _ _ _ _ H1). setoid_rewrite (claim_paths_elem _ _ _ _ _ H2).
  repeat (apply and_iff_compat_l). split.
  - intros (a & b & (p & ps & ? & Hps & ->) & (q & qs & ? & Hqs & ->) & Hn).
    rewrite !path_tuple_join in Hn by eauto using path_parts_relative.
    by exists p, q, ps, qs.
  - intros (p & q & ps & qs & ? & ? & Hps & Hqs & Hn).
    exists (join_text "/" ps), (join_text "/" qs).
    rewrite !path_tuple_join by eauto using path_parts_relative. naive_solver.
Qed.

(** ** The conflict graph *)

(** The peers the graph records for a lane. *)
Definition peers (g : gmap string (gset string)) (x : string) : gset string := default ∅ (g !! x).

Lemma dom_add_peer a b g : dom (add_peer a b g) = dom g.
Proof. apply dom_alter_L. Qed.

Lemma peers_add_peer a b g x y :
  a ∈ dom g → y ∈ peers (add_peer a b g) x ↔ y ∈ peers g x ∨ (x = a ∧ y = b).
Proof.
  unfold peers, add_peer. intros [s Hs]%elem_of_dom. destruct (decide (x = a)) as [->|Hn].
  - rewrite lookup_alter_eq, Hs. simpl. set_solver.
  - rewrite lookup_alter_ne by done. set_solver.
Qed.

Lemma dom_link_lane c g r : dom (link_lane c g r) = dom g.
Proof. unfold link_lane. destruct (claims_conflict c r); by rewrite ?dom_add_peer. Qed.

Lemma link_fold_dom c rest g : dom (foldl (link_lane c) g rest) = dom g.
Proof. revert g; induction rest; intros; simpl; [done|]. by rewrite IHrest, dom_link_lane. Qed.

Lemma link_lanes_dom claims g : dom (link_lanes claims g) = dom g.
Proof. revert g; induction claims; intros; simpl; [done|]. by rewrite IHclaims, link_fold_dom. Qed.

(** Two lanes are linked by a pair of conflicting claims. *)
Definition linked (c r : LaneClaim) (x y : string) : Prop :=
  claims_conflict c r = true
  ∧ ((x = lane_id c ∧ y = lane_id r) ∨ (x = lane_id r ∧ y = lane_id c)).

Lemma link_fold_peers c rest g x y :
  lane_id c ∈ dom g → Forall (λ r, lane_id r ∈ dom g) rest →
  y ∈ peers (foldl (link_lane c) g rest) x ↔ y ∈ peers g x ∨ ∃ r, r ∈ rest ∧ linked c r x y.
Proof.
  revert g; induction rest as [|r rest IH]; intros g Hc Hr; simpl; [set_solver|].
  apply Forall_cons in Hr as [Hr Hrest].
  rewrite IH by (rewrite dom_link_lane; done). unfold linked, link_lane.
  destruct (claims_conflict c r) eqn:E.
  - rewrite !peers_add_peer by (rewrite ?dom_add_peer; done). setoid_rewrite elem_of_cons.
    split; [naive_solver|]. intros [?|(r' & [->|?] & ? & ?)]; [tauto..|]. right. by exists r'.
  - setoid_rewrite elem_of_cons.
    split; [naive_solver|]. intros [?|(r' & [->|?] & ? & ?)]; [tauto|congruence|]. right. by exists r'.
Qed.

Lemma link_lanes_peers claims g x y :
  Forall (λ r, lane_id r ∈ dom g) claims →
  y ∈ peers (link_lanes claims g) x ↔
  y ∈ peers g x ∨ ∃ a b, a ∈ claims ∧ b ∈ claims
                         ∧ x = lane_id a ∧ y = lane_id b ∧ claims_conflict a b = true.
Proof.
  revert g; induction claims as [|c rest IH]; intros g Hd; simpl; [set_solver|].
  apply Forall_cons in Hd as [Hc Hrest].
  rewrite IH by (rewrite link_fold_dom; done). rewrite link_fold_peers by done. split.
  - intros [[?|(r & Hr & Hl & [[-> ->]|[-> ->]])]|(a & b & ? & ? & ?)]; [by left|right..].
    + exists c, r. set_solver.
    + exists r, c. rewrite claims_conflict_sym in Hl. set_solver.
    + exists a, b. set_solver.
  - intros [?|(a & b & Ha & Hb & -> & -> & Hcf)]; [tauto|].
    apply elem_of_cons in Ha as [->|Ha]; apply elem_of_cons in Hb as [->|Hb].
    + by rewrite claims_conflict_irrefl in Hcf.
    + left; right. exists b. unfold linked. tauto.
    + left; right. exists a. unfold linked. rewrite claims_conflict_sym. tauto.
    + right. exists a, b. tauto.
Qed.

Lemma conflict_graph_peers claims g x y :
  conflict_graph claims = Ok g →
  y ∈ peers g x ↔ ∃ a b, a ∈ claims ∧ b ∈ claims
                         ∧ x = lane_id a ∧ y = lane_id b ∧ claims_conflict a b = true.
Proof.
  unfold conflict_graph. intros H. res_inv. rewrite link_lanes_peers.
  - assert (peers (list_to_map ((λ i, (i, ∅)) <$> (lane_id <$> claims))) x = ∅) as ->;
      [|split; [by intros [?%elem_of_empty|?]|by right]].
    unfold peers. destruct (list_to_map _ !! x) as [s|] eqn:E; [|done].
    apply elem_of_list_to_map_2, list_elem_of_fmap in E as (? & ? & ?). by simplify_eq.
  - apply Forall_forall. intros r Hr. rewrite dom_list_to_map_L.
    apply elem_of_list_to_set. rewrite <-list_fmap_compose.
    change (lane_id r ∈ (λ i, i) <$> (lane_id <$> claims)). rewrite list_fmap_id.
    by apply list_elem_of_fmap_2.
Qed.

Lemma conflict_graph_ids claims g : conflict_graph claims = Ok g → NoDup (lane_id <$> claims).
Proof. unfold conflict_graph. intros H. res_inv. by to_prop. Qed.

Lemma conflict_graph_pair claims g a b :
  conflict_graph claims = Ok g → a ∈ claims → b ∈ claims →
  lane_id b ∈ peers g (lane_id a) ↔ claims_conflict a b = true.
Proof.
  intros Hg Ha Hb. pose proof (conflict_graph_ids _ _ Hg) as Hn.
  rewrite (conflict_graph_peers _ _ _ _ Hg). split; [|by exists a, b].
  intros (a' & b' & Ha' & Hb' & Ea & Eb & Hc).
  by rewrite (NoDup_fmap_same _ _ a a' Hn), (NoDup_fmap_same _ _ b b' Hn).
Qed.

(** The conflict graph is built exactly when the lane ids are unique; its keys are
    the lanes, and for two claims it records the one as a peer of the other exactly when
    they conflict, in both directions. *)
Theorem conflict_graph_exact claims :
  (is_ok (conflict_graph claims) = true ↔ NoDup (lane_id <$> claims))
  ∧ ∀ g, conflict_graph claims = Ok g →
      dom g = list_to_set (lane_id <$> claims)
      ∧ ∀ a b, a ∈ claims → b ∈ claims →
          (lane_id b ∈ peers g (lane_id a) ↔ claims_conflict a b = true)
          ∧ (lane_id a ∈ peers g (lane_id b) ↔ claims_conflict a b = true).
Proof.
  split.
  { unfold conflict_graph. rewrite <-no_dups_spec. by destruct (no_dups _). }
  intros g Hg. split.
  { unfold conflict_graph in Hg. res_inv. rewrite link_lanes_dom, dom_list_to_map_L.
    by rewrite <-list_fmap_compose, list_fmap_id. }
  intros a b Ha Hb. rewrite !(conflict_graph_pair claims g) by done.
  by rewrite (claims_conflict_sym b a).
Qed.

(** ** Admission *)

Lemma blocked_iff g occ lane :
  blocked g occ lane = true ↔ ∃ p, p ∈ peers g lane ∧ p ∈ occ.
Proof.
  unfold blocked, peers. rewrite existsb_exists. setoid_rewrite <-list_elem_of_In.
  setoid_rewrite elem_of_elements. by setoid_rewrite bool_decide_eq_true.
Qed.

Lemma blocked_false g occ lane :
  blocked g occ lane = false ↔ ∀ p, p ∈ peers g lane → p ∉ occ.
Proof. rewrite <-not_true_iff_false, blocked_iff. naive_solver. Qed.

(** What one pass over the pending lanes promises, from the lanes already occupied. *)
Record admission (g : gmap string (gset string)) (cap : Z) (pending : list string)
    (occ : gset string) (adm : list string) : Prop := {
  adm_sublist : adm `sublist_of` pending;
  adm_nodup : NoDup adm;
  adm_fresh : ∀ x, x ∈ adm → x ∉ occ;
  adm_bound : Z.of_nat (size (list_to_set adm ∪ occ)) <= Z.max cap (Z.of_nat (size occ));
  (** an admitted lane has no peer among the occupied lanes and the lanes admitted before it *)
  adm_free : ∀ l1 x l2, adm = l1 ++ x :: l2 → ∀ p, p ∈ peers g x → p ∉ list_to_set l1 ∪ occ;
  (** a lane is left out only for a reason that still holds at the end *)
  adm_maximal : ∀ x, x ∈ pending → x ∉ adm → x ∉ occ →
    cap <= Z.of_nat (size (list_to_set adm ∪ occ))
    ∨ ∃ p, p ∈ peers g x ∧ p ∈ list_to_set adm ∪ occ
}.

Lemma admission_skip g cap lane rest occ adm :
  (lane ∈ occ ∨ ∃ p, p ∈ peers g lane ∧ p ∈ occ) →
  admission g cap rest occ adm → admission g cap (lane :: rest) occ adm.
Proof.
  intros Hskip [H1 H2 H3 H4 H5 H6]. split; [by apply sublist_cons|done..|].
  intros x [->|Hx]%elem_of_cons Ha Ho; [|by apply H6].
  right. destruct Hskip as [?|(p & ? & ?)]; [done|]. exists p. set_solver.
Qed.

Lemma admission_take g cap lane rest occ adm :
  Z.of_nat (size occ) < cap → lane ∉ occ → (∀ p, p ∈ peers g lane → p ∉ occ) →
  admission g cap rest ({[lane]} ∪ occ) adm → admission g cap (lane :: rest) occ (lane :: adm).
Proof.
  intros Hcap Hl Hp [H1 H2 H3 H4 H5 H6].
  assert (list_to_set (lane :: adm) ∪ occ = list_to_set adm ∪ ({[lane]} ∪ occ)) as Hset
    by (simpl; set_solver).
  assert (size ({[lane]} ∪ occ) = S (size occ)) as Hsize
    by (rewrite size_union, size_singleton by set_solver; done).
  split.
  - by constructor.
  - constructor; [|done]. intros Hin%H3. set_solver.
  - intros x [->|Hx]%elem_of_cons; [done|]. apply H3 in Hx. set_solver.
  - rewrite Hset. rewrite Hsize in H4. lia.
  - intros [|y l1] x l2 Heq p Hpx; simplify_eq/=; [rewrite union_empty_l_L; by apply Hp|].
    pose proof (H5 _ _ _ eq_refl p Hpx). set_solver.
  - rewrite Hset. intros x [->|Hx]%elem_of_cons Ha Ho; [set_solver|]. apply H6; set_solver.
Qed.

Lemma admit_loop_admission g cap pending occ :
  admission g cap pending occ (admit_loop g cap pending occ).
Proof.
  revert occ; induction pending as [|lane rest IH]; intros occ; simpl.
  { split; [constructor|constructor|set_solver|simpl; rewrite union_empty_l_L; lia| |set_solver].
    intros [|]; done. }
  destruct (Z.leb_spec cap (Z.of_nat (size occ))) as [Hc|Hc].
  { split; simpl; rewrite ?union_empty_l_L;
      [apply sublist_nil_l|constructor|set_solver|lia|intros [|]; done|auto]. }
  case_bool_decide; [apply admission_skip; auto|].
  destruct (blocked g occ lane) eqn:Hb.
  - apply admission_skip; [right; by apply blocked_iff|done].
  - apply admission_take; [done..|by apply blocked_false|done].
Qed.

(** Lanes are admitted exactly when the cap is at least one, and then in input order,
    once each, none of them running, within the cap; an admitted lane has no peer among
    the running and previously admitted lanes; and a lane is left pending only because the
    cap is full or a peer of it runs or was admitted, so a blocked lane never holds back an
    independent one behind it. *)
Theorem admissible_lanes_exact pending running cap g :
  (is_ok (admissible_lanes pending running cap g) = true ↔ 1 <= cap)
  ∧ ∀ adm, admissible_lanes pending running cap g = Ok adm →
      admission g cap pending (list_to_set running) adm.
Proof.
  unfold admissible_lanes. split.
  - destruct (Z.leb_spec 1 cap); simpl; [done|]. split; [done|lia].
  - intros adm H. res_inv. apply admit_loop_admission.
Qed.

(** Two claims interfere: they belong to different lanes, one of them writes, and the components of
    a path of one begin with the components of a path of the other. *)
Definition interferes (a b : LaneClaim) : Prop :=
  lane_id a ≠ lane_id b ∧ (access a = WRITE ∨ access b = WRITE)
  ∧ ∃ p q, p ∈ paths a ∧ q ∈ paths b ∧ nested (path_tuple p) (path_tuple q).

Lemma claims_conflict_interferes a b : claims_conflict a b = true ↔ interferes a b.
Proof. rewrite claims_conflict_paths. by setoid_rewrite paths_overlap_iff. Qed.

Lemma admitted_apart claims g cap pending running adm a b :
  conflict_graph claims = Ok g → admission g cap pending (list_to_set running) adm →
  a ∈ claims → b ∈ claims → lane_id a ∈ adm → lane_id b ∈ running ++ adm → ¬ interferes a b.
Proof.
  intros Hg [_ _ _ _ Hfree _] Ha Hb Hina Hinb Hc%claims_conflict_interferes.
  assert (lane_id a ≠ lane_id b) as Hne by (by apply claims_conflict_paths in Hc as [? _]).
  pose proof (proj2 (conflict_graph_pair _ _ a b Hg Ha Hb) Hc) as Hab.
  rewrite claims_conflict_sym in Hc.
  pose proof (proj2 (conflict_graph_pair _ _ b a Hg Hb Ha) Hc) as Hba.
  apply list_elem_of_split in Hina as (l1 & l2 & ->).
  pose proof (Hfree _ _ _ eq_refl _ Hab) as Hnot.
  apply elem_of_app in Hinb as [Hr|Hin]; [set_solver|].
  apply elem_of_app in Hin as [Hin|[Hin|Hin]%elem_of_cons]; [set_solver|done|].
  apply list_elem_of_split in Hin as (l3 & l4 & ->).
  pose proof (Hfree (l1 ++ lane_id a :: l3) _ _ ltac:(by rewrite <-app_assoc) _ Hba). set_solver.
Qed.

Lemma left_pending claims g cap pending running adm a :
  conflict_graph claims = Ok g → admission g cap pending (list_to_set running) adm →
  a ∈ claims → lane_id a ∈ pending → lane_id a ∉ running ++ adm →
  cap <= Z.of_nat (size (list_to_set adm ∪ list_to_set running : gset string))
  ∨ ∃ b, b ∈ claims ∧ lane_id b ∈ running ++ adm ∧ interferes a b.
Proof.
  intros Hg [_ _ _ _ _ Hmax] Ha Hp Hn. destruct (Hmax (lane_id a)) as [?|(x & Hx & Hin)]; [done|set_solver..|by left|].
  right. apply (conflict_graph_peers _ _ _ _ Hg) in Hx as (a' & b & Ha' & Hb & Ea & -> & Hc).
  rewrite (NoDup_fmap_same _ _ a a' (conflict_graph_ids _ _ Hg)) by done.
  exists b. split_and!; [done|set_solver|by apply claims_conflict_interferes].
Qed.

(** C28: with the conflict graph of the claims, the admitted lanes are pending lanes in input order,
    once each and none of them running; together with the running ones they stay within the cap,
    unless more lanes were running already; an admitted lane interferes with no running lane and
    with no other admitted lane, whichever of the two comes first; and a lane is left pending only
    because the cap is reached or because it interferes with a running or an admitted lane. *)
Theorem admitted_lanes_independent claims g pending running cap adm :
  conflict_graph claims = Ok g →
  admissible_lanes pending running cap g = Ok adm →
  let held := list_to_set adm ∪ list_to_set running : gset string in
  (adm `sublist_of` pending ∧ NoDup adm ∧ ∀ x, x ∈ adm → x ∉ running)
  ∧ Z.of_nat (size held) <= Z.max cap (Z.of_nat (size (list_to_set running : gset string)))
  ∧ (∀ a b, a ∈ claims → b ∈ claims → lane_id a ∈ adm → lane_id b ∈ running ++ adm → ¬ interferes a b)
  ∧ (∀ a, a ∈ claims → lane_id a ∈ pending → lane_id a ∉ running ++ adm →
       cap <= Z.of_nat (size held) ∨ ∃ b, b ∈ claims ∧ lane_id b ∈ running ++ adm ∧ interferes a b).
Proof.
  intros Hg Hadm held. unfold admissible_lanes in Hadm. res_inv.
  pose proof (admit_loop_admission g cap pending (list_to_set running)) as H. split; [|split; [apply H|split]].
  - split_and!; [apply H..|]. intros x Hx Hr. by apply (adm_fresh _ _ _ _ _ H x Hx), elem_of_list_to_set.
  - intros x y. by apply (admitted_apart _ _ _ _ _ _ _ _ Hg H).
  - intros x. by apply (left_pending _ _ _ _ _ _ _ Hg H).
Qed.

(** ** Examples *)

Definition claim_src : LaneClaim := MkLaneClaim "a" ["src"] WRITE.
Definition claim_main : LaneClaim := MkLaneClaim "b" ["src/main.py"] WRITE.
Definition claim_docs : LaneClaim := MkLaneClaim "c" ["docs"] WRITE.

Lemma claims_conflict_iff_witness :
  claims_conflict claim_src claim_main = true ∧
  ∃ p q ps qs, p ∈ [PStr "SRC/"] ∧ q ∈ [PStr "src\Main.py"]
    ∧ _path_parts p = Ok (false, ps) ∧ _path_parts q = Ok (false, qs) ∧ nested ps qs.
Proof.
  assert (claims_conflict claim_src claim_main = true) as H by (vm_compute; reflexivity).
  split; [exact H|].
  exact (proj2 (proj2 (proj1 (claims_conflict_iff
    (PStr "a") [PStr "SRC/"] (PEnum "LaneAccess" "write") claim_src
    (PStr "b") [PStr "src\Main.py"] (PEnum "LaneAccess" "write") claim_main
    ltac:(vm_compute; reflexivity) ltac:(vm_compute; reflexivity)) H))).
Defined.

Lemma admitted_lanes_independent_witness :
  ∃ g, conflict_graph [claim_src; claim_main; claim_docs] = Ok g
    ∧ admissible_lanes ["b"; "c"] ["a"] 3 g = Ok ["c"]
    ∧ ¬ interferes claim_docs claim_src
    ∧ Z.of_nat (size (list_to_set ["c"] ∪ list_to_set ["a"] : gset string)) <= 3.
Proof.
  eexists. split; [vm_compute; reflexivity|]. split; [vm_compute; reflexivity|].
  eassert (_ ∧ _ ∧ _ ∧ _) as (_ & Hcap & Hfree & _)
    by (refine (admitted_lanes_independent [claim_src; claim_main; claim_docs] _ ["b"; "c"] ["a"] 3 ["c"] _ _); vm_compute; reflexivity).
  split; [apply Hfree; set_solver|exact Hcap].
Defined.

End Lanes.

Module Cap.

Inductive Outcome := SUCCEEDED | TRANSIENT_RETRY | FAILED | CHURN | SAMPLE.
#[export] Instance Outcome_eq_dec : EqDecision Outcome.
Proof. solve_decision. Defined.

Record ResourceSnapshot := MkSnapshot {
  memory_available_fraction : option num;
  pressure_band : option string
}.

Record ConcurrencyPolicy := MkPolicy {
  ceiling : Z;
  floor : Z;
  window : Z;
  retry_storm_threshold : Z;
  churn_threshold : Z;
  memory_pressure_enter : num;
  memory_pressure_exit : num;
  shrink_divisor : Z;
  grow_step : Z;
  recovery_streak : Z;
  pressure_cooldown : Z;
  unknown_release_after : Z
}.

(** The field defaults; 0.10 and 0.20 are the nearest binary64 values. *)
Definition default_policy (c : Z) : ConcurrencyPolicy :=
  MkPolicy c 1 8 3 2
    (NFloat (S754_finite false 7205759403792794 (-56)))
    (NFloat (S754_finite false 7205759403792794 (-55)))
    2 1 3 2 3.

(** [__post_init__] on the fields given. *)
Definition ConcurrencyPolicy_init (p : ConcurrencyPolicy) : res ConcurrencyPolicy :=
  _ ← require (1 <=? floor p) ValueError "floor must be at least one";
  _ ← require (floor p <=? ceiling p) ValueError "ceiling must be at least floor";
  _ ← require (1 <=? window p) ValueError "window must be positive";
  _ ← require ((1 <=? retry_storm_threshold p) && (1 <=? churn_threshold p)) ValueError
        "trigger thresholds must be positive";
  _ ← require ((retry_storm_threshold p <=? window p) && (churn_threshold p <=? window p))
        ValueError "trigger thresholds must fit inside the window";
  _ ← require (num_leb (NFloat (S754_zero false)) (memory_pressure_enter p)
               && num_ltb (memory_pressure_enter p) (memory_pressure_exit p)
               && num_leb (memory_pressure_exit p) (NFloat (f64_of_Z 1)))
        ValueError "memory pressure thresholds need enter < exit within [0, 1]";
  _ ← require (2 <=? shrink_divisor p) ValueError "shrink_divisor must be at least two";
  _ ← require ((1 <=? grow_step p) && (1 <=? recovery_streak p) && (0 <=? pressure_cooldown p))
        ValueError "growth and cooldown settings must be positive";
  _ ← require (1 <=? unknown_release_after p) ValueError "unknown_release_after must be positive";
  Ok p.

Record ConcurrencyState := MkState {
  cap : Z;
  recent : list (Outcome * option string);
  healthy_streak : Z;
  pressured : bool;
  since_shrink : Z;
  observations : Z;
  unknown_streak : Z
}.

Record ConcurrencyDecision := MkDecision {
  previous_cap : Z;
  decided_cap : Z;
  action : string;
  reasons : list string
}.

Definition ConcurrencyDecision_to_dict (d : ConcurrencyDecision) : pyval :=
  PDict [(PStr "previous_cap", PInt (previous_cap d)); (PStr "cap", PInt (decided_cap d));
         (PStr "action", PStr (action d)); (PStr "reasons", PList (PStr <$> reasons d))].

Definition REASON_RETRY_STORM := "retry_storm".
Definition REASON_CHURN := "churn".
Definition REASON_RESOURCE_PRESSURE := "resource_pressure".
Definition REASON_RECOVERED := "recovered".

Definition initial_state (p : ConcurrencyPolicy) (start : option Z) : ConcurrencyState :=
  MkState (Z.max (floor p) (Z.min (ceiling p) (default (ceiling p) start))) [] 0 false 0 0 0.

Definition _HIGH_PRESSURE_BANDS := ["high"; "critical"].
Definition _RELEASED_PRESSURE_BANDS := ["low"; "medium"].

(** [(pressured, breaching, unknown_streak)] *)
Definition _resource_pressure (snapshot : option ResourceSnapshot) (currently : bool)
    (unknown : Z) (p : ConcurrencyPolicy) : bool * bool * Z :=
  match snapshot with
  | None => (currently, false, unknown)
  | Some s =>
      match memory_available_fraction s, pressure_band s with
      | None, None =>
          let streak := unknown + 1 in
          if currently && (unknown_release_after p <=? streak) then (false, false, streak)
          else (currently, false, streak)
      | fraction, band =>
          let breaching :=
            match fraction with Some f => num_ltb f (memory_pressure_enter p) | None => false end
            || match band with Some b => mem b _HIGH_PRESSURE_BANDS | None => false end in
          if breaching then (true, true, 0)
          else if negb currently then (false, false, 0)
          else
            let memory_released :=
              match fraction with Some f => num_leb (memory_pressure_exit p) f | None => true end in
            let band_released :=
              match band with Some b => mem b _RELEASED_PRESSURE_BANDS | None => true end in
            (negb (memory_released && band_released), false, 0)
      end
  end.

(** The loop's accumulator: the distinct lanes and the anonymous reports. *)
Definition storm_step (acc : gset string * Z) (r : Outcome * option string) : gset string * Z :=
  match r with
  | (TRANSIENT_RETRY, None) => (acc.1, acc.2 + 1)
  | (TRANSIENT_RETRY, Some lane) => ({[lane]} ∪ acc.1, acc.2)
  | _ => acc
  end.

Definition _retry_storm_weight (l : list (Outcome * option string)) : Z :=
  let acc := foldl storm_step (∅, 0) l in acc.2 + Z.of_nat (size acc.1).

(** [sum(1 for item, _ in recent if item is outcome)] *)
Definition count_outcome (o : Outcome) (l : list (Outcome * option string)) : Z :=
  zlen (List.filter (λ r, bool_decide (r.1 = o)) l).

(** [l[start:]] *)
Definition slice_from {A} (start : Z) (l : list A) : list A :=
  drop (Z.to_nat (if start <? 0 then Z.max 0 (zlen l + start) else start)) l.

(** The window after the observation. *)
Definition next_recent (state : ConcurrencyState) (outcome : Outcome) (p : ConcurrencyPolicy)
    (source : option string) : list (Outcome * option string) :=
  if bool_decide (outcome = SAMPLE) then recent state
  else slice_from (- window p) (recent state ++ [(outcome, source)]).

(** The reasons to shrink, in the order the code appends them. *)
Definition shrink_reasons (state : ConcurrencyState) (p : ConcurrencyPolicy)
    (recent' : list (Outcome * option string)) (breaching : bool) : list string :=
  (if retry_storm_threshold p <=? _retry_storm_weight recent' then [REASON_RETRY_STORM] else [])
  ++ (if churn_threshold p <=? count_outcome CHURN recent' then [REASON_CHURN] else [])
  ++ (if breaching && (negb (pressured state) || (pressure_cooldown p <? since_shrink state + 1))
      then [REASON_RESOURCE_PRESSURE] else []).

(** The evidence a shrink consumes. *)
Definition consumed_by (why : list string) : list Outcome :=
  (if mem REASON_RETRY_STORM why then [TRANSIENT_RETRY] else [])
  ++ (if mem REASON_CHURN why then [CHURN] else []).

(** [observe] once its argument is an [Outcome]. *)
Definition fold_observation (state : ConcurrencyState) (outcome : Outcome)
    (p : ConcurrencyPolicy) (resources : option ResourceSnapshot) (source : option string)
  : ConcurrencyState * ConcurrencyDecision :=
  let recent' := next_recent state outcome p source in
  let '(pressured', breaching, unknown') :=
    _resource_pressure resources (pressured state) (unknown_streak state) p in
  let since' := since_shrink state + 1 in
  let why := shrink_reasons state p recent' breaching in
  if negb (bool_decide (why = [])) then
    let shrunk := Z.max (floor p) (cap state / shrink_divisor p) in
    (MkState shrunk (List.filter (λ r, negb (mem r.1 (consumed_by why))) recent') 0 pressured' 0
       (observations state + 1) unknown',
     MkDecision (cap state) shrunk (if shrunk <? cap state then "shrink" else "hold") why)
  else
    let streak :=
      if bool_decide (outcome = SUCCEEDED) && negb pressured' then healthy_streak state + 1
      else if mem outcome [TRANSIENT_RETRY; CHURN] || pressured' then 0
      else healthy_streak state in
    let grow := (recovery_streak p <=? streak) && (cap state <? ceiling p) in
    let cap' := if grow then Z.min (ceiling p) (cap state + grow_step p) else cap state in
    (MkState cap' recent' (if grow then 0 else streak) pressured' since'
       (observations state + 1) unknown',
     MkDecision (cap state) cap' (if grow then "grow" else "hold")
       (if grow then [REASON_RECOVERED] else [])).

Definition observe (state : ConcurrencyState) (outcome : dyn Outcome) (p : ConcurrencyPolicy)
    (resources : option ResourceSnapshot) (source : option string)
  : res (ConcurrencyState * ConcurrencyDecision) :=
  match outcome with
  | Foreign => throw ValueError "outcome must be an Outcome"
  | Inst o => Ok (fold_observation state o p resources source)
  end.

(** ** Evidence in the window *)

Definition is_transient (r : Outcome * option string) : bool := bool_decide (r.1 = TRANSIENT_RETRY).

Definition is_anonymous (r : Outcome * option string) : bool :=
  match r with (TRANSIENT_RETRY, None) => true | _ => false end.

(** The anonymous transient reports and the lanes of the attributed ones. *)
Definition anonymous_count (l : list (Outcome * option string)) : Z :=
  zlen (List.filter (λ r, is_anonymous r) l).
Definition storm_lanes (l : list (Outcome * option string)) : gset string :=
  list_to_set (omap (λ r, if is_transient r then r.2 else None) l).

Lemma storm_fold lanes n l :
  foldl storm_step (lanes, n) l = (storm_lanes l ∪ lanes, n + anonymous_count l).
Proof.
  unfold storm_lanes, anonymous_count, zlen.
  revert lanes n; induction l as [|[o [lane|]] l IH]; intros lanes n; simpl.
  - f_equal; [set_solver|lia].
  - destruct o; simpl; rewrite IH; f_equal; try done; set_solver.
  - destruct o; simpl; rewrite IH; f_equal; try done; simpl; lia.
Qed.

(** Equivalent reading of the loop: anonymous reports plus distinct lanes. *)
Lemma retry_storm_weight_eq l :
  _retry_storm_weight l = anonymous_count l + Z.of_nat (size (storm_lanes l)).
Proof. unfold _retry_storm_weight. rewrite storm_fold. simpl. by rewrite union_empty_r_L. Qed.

Lemma filter_drop_length {A} (f : A → bool) n l :
  (length (List.filter f (drop n l)) <= length (List.filter f l))%nat.
Proof.
  revert n; induction l as [|x l IH]; intros [|n]; simpl; [lia..|].
  specialize (IH n). destruct (f x); simpl; lia.
Qed.

Lemma slice_drop {A} start (l : list A) : ∃ n, slice_from start l = drop n l.
Proof. eexists. reflexivity. Qed.

Lemma count_slice o start l : count_outcome o (slice_from start l) <= count_outcome o l.
Proof.
  unfold count_outcome, zlen. destruct (slice_drop start l) as [n ->].
  pose proof (filter_drop_length (λ r, bool_decide (r.1 = o)) n l). lia.
Qed.

Lemma storm_weight_slice start l :
  _retry_storm_weight (slice_from start l) <= _retry_storm_weight l.
Proof.
  rewrite !retry_storm_weight_eq. destruct (slice_drop start l) as [n ->].
  assert (anonymous_count (drop n l) <= anonymous_count l) as H1.
  { unfold anonymous_count, zlen.
    pose proof (filter_drop_length
      (λ r, is_anonymous r) n l). lia. }
  assert (size (storm_lanes (drop n l)) <= size (storm_lanes l))%nat as H2; [|lia].
  apply subseteq_size. unfold storm_lanes. rewrite <-(take_drop n l) at 2.
  rewrite omap_app, list_to_set_app_L. set_solver.
Qed.

Lemma count_app o l r : count_outcome o (l ++ [r]) =
  count_outcome o l + if bool_decide (r.1 = o) then 1 else 0.
Proof.
  unfold count_outcome, zlen. rewrite List.filter_app, length_app. simpl.
  destruct (bool_decide (r.1 = o)); simpl; lia.
Qed.

Lemma storm_weight_app_other l o source :
  o ≠ TRANSIENT_RETRY → _retry_storm_weight (l ++ [(o, source)]) = _retry_storm_weight l.
Proof.
  intros Ho. unfold _retry_storm_weight. rewrite foldl_app. simpl. by destruct o.
Qed.

Lemma size_list_to_set_le (l : list string) : (size (list_to_set l : gset string) <= length l)%nat.
Proof.
  induction l as [|x l IH]; simpl; [done|].
  rewrite size_union_alt, size_singleton.
  pose proof (subseteq_size (list_to_set l ∖ {[x]} : gset string) (list_to_set l) ltac:(set_solver)).
  lia.
Qed.

(** The weight never exceeds the number of transient reports. *)
Lemma storm_weight_count l : 0 <= _retry_storm_weight l <= count_outcome TRANSIENT_RETRY l.
Proof.
  rewrite retry_storm_weight_eq. unfold anonymous_count, storm_lanes, count_outcome, zlen.
  split; [lia|].
  pose proof (size_list_to_set_le (omap (λ r, if is_transient r then r.2 else None) l)).
  enough (length (List.filter (λ r, is_anonymous r) l)
          + length (omap (λ r, if is_transient r then r.2 else None) l)
          = length (List.filter (λ r, bool_decide (r.1 = TRANSIENT_RETRY)) l))%nat by lia.
  clear. induction l as [|[[] [lane|]] l IH]; csimpl; simpl; lia.
Qed.

Lemma count_filter_consumed o consumed l :
  o ∈ consumed → count_outcome o (List.filter (λ r : Outcome * option string, negb (mem r.1 consumed)) l) = 0.
Proof.
  intros Ho. unfold count_outcome, zlen. induction l as [|r l IH]; simpl; [done|].
  destruct (mem r.1 consumed) eqn:E; simpl; [done|]. to_prop.
  case_bool_decide; [by subst|done].
Qed.

Lemma count_filter_le o (f : (Outcome * option string) → bool) l :
  count_outcome o (List.filter f l) <= count_outcome o l.
Proof.
  unfold count_outcome, zlen. induction l as [|r l IH]; simpl; [done|].
  destruct (f r), (bool_decide (r.1 = o)) eqn:E; simpl; rewrite ?E; simpl; lia.
Qed.

Lemma storm_weight_filter_le (f : Outcome * option string → bool) l :
  _retry_storm_weight (List.filter f l) <= _retry_storm_weight l.
Proof.
  rewrite !retry_storm_weight_eq.
  assert (anonymous_count (List.filter f l) <= anonymous_count l) as H1.
  { unfold anonymous_count, zlen. induction l as [|r l IH]; simpl; [done|].
    destruct (f r); simpl; destruct (is_anonymous r); simpl; lia. }
  assert (size (storm_lanes (List.filter f l)) <= size (storm_lanes l))%nat as H2; [|lia].
  apply subseteq_size. unfold storm_lanes. intros x. rewrite !elem_of_list_to_set, !list_elem_of_omap.
  intros (r & Hr & Hx). exists r. split; [|done].
  apply list_elem_of_In, filter_In in Hr as [Hr _]. by apply list_elem_of_In.
Qed.

Lemma storm_weight_no_transient l : count_outcome TRANSIENT_RETRY l = 0 → _retry_storm_weight l = 0.
Proof. pose proof (storm_weight_count l). lia. Qed.

(** ** Runs *)

Record observation := MkObservation {
  obs_outcome : Outcome;
  obs_resources : option ResourceSnapshot;
  obs_source : option string
}.

(** The caller folds its observations in order and keeps the decisions. *)
Fixpoint run (p : ConcurrencyPolicy) (s : ConcurrencyState) (obs : list observation)
  : ConcurrencyState * list ConcurrencyDecision :=
  match obs with
  | [] => (s, [])
  | o :: obs' =>
      let sd := fold_observation s (obs_outcome o) p (obs_resources o) (obs_source o) in
      let r := run p sd.1 obs' in
      (r.1, sd.2 :: r.2)
  end.

(** What a validated policy guarantees. *)
Record policy_ok (p : ConcurrencyPolicy) : Prop := {
  ok_floor : 1 <= floor p <= ceiling p;
  ok_window : 1 <= window p;
  ok_storm : 1 <= retry_storm_threshold p <= window p;
  ok_churn : 1 <= churn_threshold p <= window p;
  ok_divisor : 2 <= shrink_divisor p;
  ok_growth : 1 <= grow_step p ∧ 1 <= recovery_streak p
}.

Lemma ConcurrencyPolicy_init_ok p p' : ConcurrencyPolicy_init p = Ok p' → p' = p ∧ policy_ok p.
Proof. unfold ConcurrencyPolicy_init. intros H. res_inv. to_prop. split; [done|]. split; lia. Qed.

(** The state invariant: the cap and the window are within the policy, and the evidence
    left in the window is below every trigger. *)
Record state_ok (p : ConcurrencyPolicy) (s : ConcurrencyState) : Prop := {
  ok_cap : floor p <= cap s <= ceiling p;
  ok_recent : zlen (recent s) <= window p;
  ok_streak : 0 <= healthy_streak s;
  ok_hungry : healthy_streak s < recovery_streak p ∨ cap s = ceiling p;
  ok_weight : _retry_storm_weight (recent s) < retry_storm_threshold p;
  ok_churned : count_outcome CHURN (recent s) < churn_threshold p
}.

Lemma slice_window {A} w (l : list A) : 1 <= w → zlen (slice_from (- w) l) <= w.
Proof.
  intros Hw. unfold slice_from, zlen. rewrite length_drop.
  destruct (Z.ltb_spec (- w) 0); lia.
Qed.

Lemma filter_zlen_le {A} (f : A → bool) l : zlen (List.filter f l) <= zlen l.
Proof. unfold zlen. induction l as [|x l IH]; simpl; [done|]. destruct (f x); simpl; lia. Qed.

Lemma next_recent_window p s o source :
  policy_ok p → zlen (recent s) <= window p → zlen (next_recent s o p source) <= window p.
Proof.
  intros [] Hs. unfold next_recent. case_bool_decide; [done|]. by apply slice_window.
Qed.

Lemma next_recent_count p s o source o' :
  count_outcome o' (next_recent s o p source)
  <= count_outcome o' (recent s) + if bool_decide (o = o') then 1 else 0.
Proof.
  unfold next_recent. case_bool_decide; [destruct (bool_decide (o = o')); lia|].
  pose proof (count_slice o' (- window p) (recent s ++ [(o, source)])) as Hc.
  by rewrite count_app in Hc.
Qed.

Lemma next_recent_weight p s o source :
  o ≠ TRANSIENT_RETRY →
  _retry_storm_weight (next_recent s o p source) <= _retry_storm_weight (recent s).
Proof.
  intros Ho. unfold next_recent. case_bool_decide; [done|].
  rewrite <-(storm_weight_app_other (recent s) o source Ho). apply storm_weight_slice.
Qed.

Lemma shrink_reasons_nil s p l b :
  shrink_reasons s p l b = [] →
  _retry_storm_weight l < retry_storm_threshold p ∧ count_outcome CHURN l < churn_threshold p.
Proof.
  unfold shrink_reasons.
  destruct (Z.leb_spec (retry_storm_threshold p) (_retry_storm_weight l)); [done|].
  destruct (Z.leb_spec (churn_threshold p) (count_outcome CHURN l)); done.
Qed.

Lemma shrink_reasons_storm s p l b :
  mem REASON_RETRY_STORM (shrink_reasons s p l b)
  = (retry_storm_threshold p <=? _retry_storm_weight l).
Proof. unfold shrink_reasons. destruct (_ <=? _), (_ <=? _), (b && _); done. Qed.

Lemma shrink_reasons_churn s p l b :
  mem REASON_CHURN (shrink_reasons s p l b) = (churn_threshold p <=? count_outcome CHURN l).
Proof. unfold shrink_reasons. destruct (_ <=? _), (_ <=? _), (b && _); done. Qed.

(** The window a shrink leaves. *)
Definition kept (why : list string) (l : list (Outcome * option string)) :=
  List.filter (λ r, negb (mem r.1 (consumed_by why))) l.

Lemma kept_storm s p l b :
  1 <= retry_storm_threshold p →
  _retry_storm_weight (kept (shrink_reasons s p l b) l) < retry_storm_threshold p
  ∧ count_outcome TRANSIENT_RETRY (kept (shrink_reasons s p l b) l)
    + (if mem REASON_RETRY_STORM (shrink_reasons s p l b) then retry_storm_threshold p else 0)
    <= count_outcome TRANSIENT_RETRY l.
Proof.
  intros Hp. unfold kept, consumed_by. rewrite shrink_reasons_storm.
  destruct (Z.leb_spec (retry_storm_threshold p) (_retry_storm_weight l)).
  - rewrite storm_weight_no_transient, count_filter_consumed;
      [|by left|apply count_filter_consumed; by left].
    pose proof (storm_weight_count l). lia.
  - split; [eapply Z.le_lt_trans; [apply storm_weight_filter_le|done]|].
    rewrite Z.add_0_r. apply count_filter_le.
Qed.

Lemma kept_churn s p l b :
  1 <= churn_threshold p →
  count_outcome CHURN (kept (shrink_reasons s p l b) l)
  + (if mem REASON_CHURN (shrink_reasons s p l b) then churn_threshold p else 0)
  <= count_outcome CHURN l
  ∧ count_outcome CHURN (kept (shrink_reasons s p l b) l) < churn_threshold p.
Proof.
  intros Hp. unfold kept, consumed_by. rewrite shrink_reasons_churn.
  destruct (Z.leb_spec (churn_threshold p) (count_outcome CHURN l)).
  - rewrite count_filter_consumed; [lia|]. apply elem_of_app. right. by left.
  - pose proof (count_filter_le CHURN (λ r, negb (mem r.1
      ((if mem REASON_RETRY_STORM (shrink_reasons s p l b) then [TRANSIENT_RETRY] else []) ++ []))) l).
    lia.
Qed.

Lemma shrunk_bounds p c :
  policy_ok p → floor p <= c <= ceiling p →
  floor p <= Z.max (floor p) (c / shrink_divisor p) <= c.
Proof.
  intros [] Hc. assert (c / shrink_divisor p < c); [|lia].
  apply Z.div_lt; lia.
Qed.

(** The action of a decision says which way the cap went. *)
Definition decision_ok (p : ConcurrencyPolicy) (d : ConcurrencyDecision) : Prop :=
  floor p <= decided_cap d <= ceiling p
  ∧ (action d = "shrink" ↔ decided_cap d < previous_cap d)
  ∧ (action d = "grow" ↔ previous_cap d < decided_cap d)
  ∧ (action d = "hold" ↔ decided_cap d = previous_cap d).

Section Step.
  Context (p : ConcurrencyPolicy) (Hp : policy_ok p).
  Context (s : ConcurrencyState) (Hs : state_ok p s).
  Context (o : Outcome) (resources : option ResourceSnapshot) (source : option string).
Let s' : ConcurrencyState := (fold_observation s o p resources source).1.
Let d : ConcurrencyDecision := (fold_observation s o p resources source).2.

Lemma observation_ok : state_ok p s'.
  Proof.
    subst s'. unfold fold_observation.
    destruct (_resource_pressure _ _ _ _) as [[pr br] un].
    pose proof (next_recent_window p s o source Hp (ok_recent _ _ Hs)) as Hlen.
    set (l := next_recent s o p source) in *.
    destruct Hp as [Hf Hw Hst Hch Hdiv Hg], Hs as [Hc Hrec Hpos Hh Hwt Hcn].
    case_bool_decide as E; simpl.
    - destruct (shrink_reasons_nil _ _ _ _ E). split; simpl; try done.
      all: cases_if; to_prop; lia.
    - pose proof (shrunk_bounds p (cap s) Hp Hc).
      pose proof (kept_storm s p l br ltac:(lia)). pose proof (kept_churn s p l br ltac:(lia)).
      fold (kept (shrink_reasons s p l br) l).
      split; simpl; try lia. etrans; [apply filter_zlen_le|done].
  Qed.

Lemma observation_decision :
    decision_ok p d ∧ previous_cap d = cap s ∧ decided_cap d = cap s'.
  Proof.
    subst s' d. unfold fold_observation.
    destruct (_resource_pressure _ _ _ _) as [[pr br] un].
    set (l := next_recent s o p source). destruct Hs as [Hc _ _ _ _ _].
    pose proof (shrunk_bounds p (cap s) Hp Hc). destruct Hp as [Hf Hw Hst Hch Hdiv Hg].
    unfold decision_ok. case_bool_decide as E; simpl; (split; [|done]).
    - match goal with |- context [recovery_streak p <=? ?x] => generalize x; intros streak end.
      destruct (recovery_streak p <=? streak), (Z.ltb_spec (cap s) (ceiling p)); simpl;
        split_and!; try split; try done; lia.
    - destruct (Z.ltb_spec (Z.max (floor p) (cap s / shrink_divisor p)) (cap s));
        split_and!; try split; try done; lia.
  Qed.
End Step.

Lemma initial_state_ok p start : policy_ok p → state_ok p (initial_state p start).
Proof.
  intros [Hf Hw Hst Hch Hdiv Hg]. split; simpl; unfold zlen; simpl; try lia;
    change (_retry_storm_weight []) with 0; change (count_outcome CHURN []) with 0; lia.
Qed.

Lemma run_ok p s obs :
  policy_ok p → state_ok p s →
  state_ok p (run p s obs).1 ∧ Forall (decision_ok p) (run p s obs).2.
Proof.
  intros Hp. revert s; induction obs as [|o obs IH]; intros s Hs; simpl; [by split|].
  destruct (IH _ (observation_ok p Hp s Hs (obs_outcome o) (obs_resources o) (obs_source o))).
  split; [done|]. constructor; [|done]. by apply observation_decision.
Qed.

Lemma run_app p s obs1 obs2 :
  run p s (obs1 ++ obs2)
  = ((run p (run p s obs1).1 obs2).1, (run p s obs1).2 ++ (run p (run p s obs1).1 obs2).2).
Proof.
  revert s; induction obs1 as [|o obs IH]; intros s; simpl.
  - by destruct (run p s obs2).
  - by rewrite IH.
Qed.

(** Under an accepted policy, whatever is observed in whatever order, the cap never
    leaves the interval from the floor to the ceiling, the window never exceeds its size,
    the evidence kept stays below every trigger, and every decision names the direction in
    which it moved the cap. *)
Theorem cap_stays_in_bounds policy p start obs :
  ConcurrencyPolicy_init policy = Ok p →
  state_ok p (run p (initial_state p start) obs).1
  ∧ Forall (decision_ok p) (run p (initial_state p start) obs).2.
Proof.
  intros [-> Hp]%ConcurrencyPolicy_init_ok. by apply run_ok; [|apply initial_state_ok].
Qed.

(** The decisions that give a reason, and the observations of an outcome. *)
Definition decisions_for (reason : string) (ds : list ConcurrencyDecision) : Z :=
  zlen (List.filter (λ d, mem reason (reasons d)) ds).
Definition observed (o : Outcome) (obs : list observation) : Z :=
  zlen (List.filter (λ x, bool_decide (obs_outcome x = o)) obs).

(** What each decision costs, as evidence. *)
Section Ledger.
  Context (p : ConcurrencyPolicy) (Hp : policy_ok p).
  Implicit Types (s : ConcurrencyState) (d : ConcurrencyDecision).

Definition charge (cost : Z) (reason : string) (d : ConcurrencyDecision) : Z :=
    if mem reason (reasons d) then cost else 0.

Lemma observation_evidence s o resources source :
    state_ok p s →
    let sd := fold_observation s o p resources source in
    charge (retry_storm_threshold p) REASON_RETRY_STORM sd.2
      + count_outcome TRANSIENT_RETRY (recent sd.1)
    <= count_outcome TRANSIENT_RETRY (recent s) + (if bool_decide (o = TRANSIENT_RETRY) then 1 else 0)
    ∧ charge (churn_threshold p) REASON_CHURN sd.2 + count_outcome CHURN (recent sd.1)
      <= count_outcome CHURN (recent s) + (if bool_decide (o = CHURN) then 1 else 0)
    ∧ charge (recovery_streak p) REASON_RECOVERED sd.2 + healthy_streak sd.1
      <= healthy_streak s + (if bool_decide (o = SUCCEEDED) then 1 else 0).
  Proof.
    intros Hs. unfold fold_observation, charge.
    destruct (_resource_pressure _ _ _ _) as [[pr br] un].
    pose proof (next_recent_count p s o source TRANSIENT_RETRY) as Ht.
    pose proof (next_recent_count p s o source CHURN) as Hc.
    set (l := next_recent s o p source) in *.
    destruct Hp as [Hf Hw Hst Hch Hdiv [Hg Hr]], Hs as [_ _ Hpos _ _ _].
    destruct (bool_decide (shrink_reasons s p l br = [])); simpl.
    - split_and!; [destruct ((_ <=? _) && (_ <? _)); simpl; lia..|].
      destruct o; simpl; repeat case_bool_decide; try done; simpl; destruct pr; simpl;
        cases_if; to_prop; simpl in *; try done; lia.
    - pose proof (kept_storm s p l br ltac:(lia)). pose proof (kept_churn s p l br ltac:(lia)).
      fold (kept (shrink_reasons s p l br) l). split_and!; [lia..|].
      assert (mem REASON_RECOVERED (shrink_reasons s p l br) = false) as ->.
      { unfold shrink_reasons. by destruct (_ <=? _), (_ <=? _), (br && _). }
      destruct (bool_decide (o = SUCCEEDED)); lia.
  Qed.

Lemma run_evidence s obs :
    state_ok p s →
    decisions_for REASON_RETRY_STORM (run p s obs).2 * retry_storm_threshold p
    <= count_outcome TRANSIENT_RETRY (recent s) + observed TRANSIENT_RETRY obs
    ∧ decisions_for REASON_CHURN (run p s obs).2 * churn_threshold p
      <= count_outcome CHURN (recent s) + observed CHURN obs
    ∧ decisions_for REASON_RECOVERED (run p s obs).2 * recovery_streak p
      <= healthy_streak s + observed SUCCEEDED obs.
  Proof.
    revert s; induction obs as [|x obs IH]; intros s Hs; simpl.
    { destruct Hs. unfold decisions_for, observed, count_outcome, zlen; simpl. lia. }
    pose proof (observation_evidence s (obs_outcome x) (obs_resources x) (obs_source x) Hs) as H.
    pose proof (observation_ok p Hp s Hs (obs_outcome x) (obs_resources x) (obs_source x)) as Hs'.
    destruct (fold_observation _ _ _ _ _) as [s' d]; simpl in *.
    specialize (IH s' Hs'). unfold decisions_for, observed, charge, zlen in *. simpl.
    destruct (mem REASON_RETRY_STORM _), (mem REASON_CHURN _), (mem REASON_RECOVERED _);
      repeat case_bool_decide; simpl in *; lia.
  Qed.
End Ledger.

(** One burst is never counted twice and growth is earned: over any run, every
    shrink for a retry storm is paid by its own [retry_storm_threshold] transient reports,
    every shrink for churn by its own [churn_threshold] churn reports, and every growth
    step by its own [recovery_streak] successes. *)
Theorem evidence_counted_once policy p start obs :
  ConcurrencyPolicy_init policy = Ok p →
  let ds := (run p (initial_state p start) obs).2 in
  decisions_for REASON_RETRY_STORM ds * retry_storm_threshold p <= observed TRANSIENT_RETRY obs
  ∧ decisions_for REASON_CHURN ds * churn_threshold p <= observed CHURN obs
  ∧ decisions_for REASON_RECOVERED ds * recovery_streak p <= observed SUCCEEDED obs.
Proof.
  intros [-> Hp]%ConcurrencyPolicy_init_ok.
  pose proof (run_evidence policy Hp _ obs (initial_state_ok policy start Hp)) as H.
  exact H.
Qed.

(** A success reported without a resource sample. *)
Definition success : observation := MkObservation SUCCEEDED None None.

(** Successes still needed to reach the ceiling, in the worst case. *)
Definition distance (p : ConcurrencyPolicy) (s : ConcurrencyState) : Z :=
  if cap s =? ceiling p then 0
  else recovery_streak p * (ceiling p - cap s) - healthy_streak s.

Lemma success_step p s :
  policy_ok p → state_ok p s → pressured s = false →
  let s' := (fold_observation s SUCCEEDED p None None).1 in
  pressured s' = false ∧ distance p s' <= Z.max 0 (distance p s - 1).
Proof.
  intros Hp Hs Hpr. unfold fold_observation. simpl. rewrite Hpr.
  set (l := next_recent s SUCCEEDED p None).
  assert (shrink_reasons s p l false = []) as ->.
  { pose proof (next_recent_weight p s SUCCEEDED None ltac:(done)).
    pose proof (next_recent_count p s SUCCEEDED None CHURN) as Hc.
    rewrite bool_decide_false in Hc by done. destruct Hs.
    unfold shrink_reasons. fold l in Hc, H.
    destruct (Z.leb_spec (retry_storm_threshold p) (_retry_storm_weight l)); [lia|].
    destruct (Z.leb_spec (churn_threshold p) (count_outcome CHURN l)); [lia|done]. }
  rewrite !bool_decide_true by done. simpl. split; [done|].
  destruct Hp as [_ _ _ _ _ [Hg Hr]], Hs as [Hc _ Hpos Hh _ _]. unfold distance.
  destruct (Z.leb_spec (recovery_streak p) (healthy_streak s + 1)),
    (Z.ltb_spec (cap s) (ceiling p)); simpl;
    repeat match goal with |- context [?a =? ?b] => destruct (Z.eqb_spec a b) end; try lia; nia.
Qed.

Lemma successes_distance p n s :
  policy_ok p → state_ok p s → pressured s = false →
  pressured (run p s (replicate n success)).1 = false
  ∧ distance p (run p s (replicate n success)).1 <= Z.max 0 (distance p s - Z.of_nat n).
Proof.
  intros Hp. revert s; induction n as [|n IH]; intros s Hs Hpr; [simpl; split; [done|lia]|].
  cbn [replicate run fst]. destruct (success_step p s Hp Hs Hpr) as [Hpr' Hd].
  destruct (IH _ (observation_ok p Hp s Hs SUCCEEDED None None) Hpr') as [? ?].
  split; [done|]. cbn [obs_outcome obs_resources obs_source success]. lia.
Qed.

(** A throttled fleet recovers: from any state a run can reach in which pressure is
    released, [recovery_streak] successes for every unit between the cap and the ceiling
    bring the cap back to the ceiling. *)
Theorem cap_recovers policy p start obs s n :
  ConcurrencyPolicy_init policy = Ok p →
  s = (run p (initial_state p start) obs).1 →
  pressured s = false →
  recovery_streak p * (ceiling p - cap s) <= Z.of_nat n →
  cap (run p s (replicate n success)).1 = ceiling p.
Proof.
  intros [-> Hp]%ConcurrencyPolicy_init_ok -> Hpr Hn.
  set (s := (run policy _ obs).1) in *.
  assert (state_ok policy s) as Hs by (by apply run_ok; [|apply initial_state_ok]).
  destruct (successes_distance policy n s Hp Hs Hpr) as [_ Hd].
  pose proof (proj1 (run_ok policy s (replicate n success) Hp Hs)) as Hs'.
  set (s' := (run policy s (replicate n success)).1) in *.
  destruct Hp as [_ _ _ _ _ [_ Hr]], Hs as [Hc _ Hpos _ _ _], Hs' as [Hc' _ _ [Hh|Hh] _ _]; [|done].
  unfold distance in Hd.
  destruct (Z.eqb_spec (cap s') (ceiling policy)); [done|].
  destruct (Z.eqb_spec (cap s) (ceiling policy)); nia.
Qed.

(** While pressure is latched the cap never grows, and it is released only by a
    reading: a sample with every known signal back in its exit band, or
    [unknown_release_after] unknown readings in a row. *)
Theorem pressure_latches p s o resources source :
  let s' := (fold_observation s o p resources source).1 in
  let d := (fold_observation s o p resources source).2 in
  policy_ok p → state_ok p s →
  (pressured s' = true → decided_cap d <= previous_cap d)
  ∧ (pressured s = true → pressured s' = false →
     ∃ snap, resources = Some snap
       ∧ match memory_available_fraction snap, pressure_band snap with
         | None, None => unknown_release_after p <= unknown_streak s + 1
         | fraction, band =>
             (∀ f, fraction = Some f →
                num_ltb f (memory_pressure_enter p) = false
                ∧ num_leb (memory_pressure_exit p) f = true)
             ∧ (∀ b, band = Some b → b ∈ _RELEASED_PRESSURE_BANDS)
         end).
Proof.
  intros s' d Hp Hs. subst s' d. unfold fold_observation.
  destruct (_resource_pressure resources (pressured s) (unknown_streak s) p)
    as [[pr br] un] eqn:E.
  pose proof (shrunk_bounds p (cap s) Hp (ok_cap _ _ Hs)) as Hb.
  set (l := next_recent s o p source). split.
  - destruct Hs as [_ _ _ Hh _ _]. destruct Hp as [_ _ _ _ _ [_ Hr]].
    destruct (bool_decide (shrink_reasons _ _ _ _ = [])); simpl; intros ->; [|lia].
    rewrite andb_false_r, orb_true_r.
    destruct (Z.leb_spec (recovery_streak p) 0); [lia|]. done.
  - intros Hl Hr. assert (pr = false) as ->
      by (revert Hr; by destruct (bool_decide (shrink_reasons _ _ _ _ = []))).
    rewrite Hl in E. unfold _resource_pressure in E.
    destruct resources as [[f b]|]; [|done]. exists (MkSnapshot f b). split; [done|]. simpl in *.
    destruct f as [f|], b as [b|]; cases_if; try done; to_prop; simpl in *; naive_solver.
Qed.

(** ** Examples *)

Definition two_churns : list observation :=
  [MkObservation CHURN None (Some "a"); MkObservation CHURN None (Some "b")].

Lemma cap_stays_in_bounds_witness :
  cap (run (default_policy 8) (initial_state (default_policy 8) None) two_churns).1 = 4
  ∧ state_ok (default_policy 8)
      (run (default_policy 8) (initial_state (default_policy 8) None) two_churns).1.
Proof.
  split; [vm_compute; reflexivity|].
  exact (proj1 (cap_stays_in_bounds (default_policy 8) (default_policy 8) None two_churns
    ltac:(vm_compute; reflexivity))).
Defined.

Lemma evidence_counted_once_witness :
  decisions_for REASON_CHURN
    (run (default_policy 8) (initial_state (default_policy 8) None) two_churns).2 = 1
  ∧ decisions_for REASON_CHURN
    (run (default_policy 8) (initial_state (default_policy 8) None) two_churns).2
    * churn_threshold (default_policy 8) <= observed CHURN two_churns.
Proof.
  split; [vm_compute; reflexivity|].
  exact (proj1 (proj2 (evidence_counted_once (default_policy 8) (default_policy 8) None two_churns
    ltac:(vm_compute; reflexivity)))).
Defined.

Lemma cap_recovers_witness :
  cap (run (default_policy 8)
    (run (default_policy 8) (initial_state (default_policy 8) None) two_churns).1
    (replicate 12 success)).1 = 8.
Proof.
  refine (cap_recovers (default_policy 8) (default_policy 8) None two_churns _ 12 _ eq_refl _ _);
    [vm_compute; reflexivity|vm_compute; reflexivity|vm_compute; discriminate].
Defined.

End Cap.
