(* ===== verification/CancellationTree.v ===== *)
(** [domain/cancellation_tree.py]: cancellation scopes and quiescence.

    Nodes are shared mutable objects: the store is the list of node objects in the
    order they were created, a node is known by its position, and children and
    parents are positions.  The methods are functions on the store; recursion over
    the tree takes the number of nodes as fuel, which is enough because a child is
    always newer than its parent.  [Module Sections] runs the critical sections of
    [cancel] and [_add_child] one by one, in any interleaving of the threads. *)
From S2P Require Import Prelude PyFloat.

Local Open Scope Z_scope.

Inductive CancellationStatus := ACTIVE | CANCEL_REQUESTED | QUIESCENT.
#[export] Instance CancellationStatus_eq_dec : EqDecision CancellationStatus.
Proof. solve_decision. Defined.

(** The fields of [CancellationNode]; [_children] is a dict in insertion order. *)
Record node := MkNode {
  node_id : string;
  _parent : option nat;
  _children : list (string * nat);
  _active_leases : Z;
  _status : CancellationStatus;
  _reason : option string;
  _cancel_event : bool
}.

Record CancellationSnapshot := MkSnapshot {
  snap_node_id : string;
  snap_status : CancellationStatus;
  snap_reason : option string;
  snap_active_leases : Z
}.

(** A lease object: its node and whether it was released. *)
Record lease := MkLease { _node : nat; _released : bool }.

Record heap := MkHeap { nodes : list node; leases : list lease }.

Definition set_children (l : list (string * nat)) (x : node) : node :=
  MkNode (node_id x) (_parent x) l (_active_leases x) (_status x) (_reason x) (_cancel_event x).
Definition set_leases (k : Z) (x : node) : node :=
  MkNode (node_id x) (_parent x) (_children x) k (_status x) (_reason x) (_cancel_event x).
Definition set_status (s : CancellationStatus) (x : node) : node :=
  MkNode (node_id x) (_parent x) (_children x) (_active_leases x) s (_reason x) (_cancel_event x).
Definition mark_cancelled (r : string) (x : node) : node :=
  MkNode (node_id x) (_parent x) (_children x) (_active_leases x) CANCEL_REQUESTED (Some r) true.

(** [tuple(self._children.values())] *)
Definition child_nodes (x : node) : list nat := (_children x).*2.

(** ** Cancellation *)

(** [cancel]; the result says whether this call changed the state. *)
Fixpoint cancel_fuel (fuel : nat) (n : nat) (r : string) (st : list node) : list node * bool :=
  match fuel, st !! n with
  | S fuel', Some x =>
      if _cancel_event x then (st, false)
      else (foldl (λ s c, (cancel_fuel fuel' c r s).1) (alter (mark_cancelled r) n st)
              (child_nodes x), true)
  | _, _ => (st, false)
  end.

Definition cancel (n : nat) (r : string) (st : list node) : list node * bool :=
  cancel_fuel (S (length st)) n r st.

(** The constructor: [fresh] is the [uuid4] used when no id is given.  A node with a
    parent registers itself there and inherits a cancellation. *)
Definition _add_child (p : nat) (child : node) (st : list node) : res (list node * nat) :=
  match st !! p with
  | None => throw RuntimeError "no such node"
  | Some x =>
      let c := length st in
      _ ← require (negb (mem (node_id child) (_children x).*1)) ValueError
            ("duplicate cancellation node id: " +:+ node_id child);
      let st1 := alter (set_children (_children x ++ [(node_id child, c)])) p (st ++ [child]) in
      match (if _cancel_event x then _reason x else None) with
      | Some r => Ok ((cancel c r st1).1, c)
      | None => Ok (st1, c)
      end
  end.

Definition CancellationNode_init (id : option string) (fresh : string) (p : option nat)
    (st : list node) : res (list node * nat) :=
  let name := match id with Some s => if String.eqb s "" then fresh else s | None => fresh end in
  let x := MkNode name p [] 0 ACTIVE None false in
  match p with
  | None => Ok (st ++ [x], length st)
  | Some q => _add_child q x st
  end.

Definition child (n : nat) (id : option string) (fresh : string) (st : list node)
  : res (list node * nat) := CancellationNode_init id fresh (Some n) st.

Definition snapshot (n : nat) (st : list node) : option CancellationSnapshot :=
  x ← st !! n; Some (MkSnapshot (node_id x) (_status x) (_reason x) (_active_leases x)).

(** ** Quiescence *)

Definition is_quiescent (st : list node) (n : nat) : bool :=
  match st !! n with Some x => bool_decide (_status x = QUIESCENT) | None => false end.

(** The second critical section of [_refresh_quiescence]. *)
Definition settle (n : nat) (st : list node) : list node :=
  match st !! n with
  | Some x =>
      if _cancel_event x && (_active_leases x =? 0) && forallb (is_quiescent st) (child_nodes x)
      then alter (set_status QUIESCENT) n st else st
  | None => st
  end.

(** [_refresh_quiescence(propagate=False)] *)
Fixpoint refresh_down (fuel : nat) (n : nat) (st : list node) : list node :=
  match fuel, st !! n with
  | S fuel', Some x =>
      settle n (foldl (λ s c, refresh_down fuel' c s) st (child_nodes x))
  | _, _ => st
  end.

(** [_refresh_quiescence()]: the scope, then its parents up to the root. *)
Fixpoint refresh_up (fuel : nat) (n : nat) (st : list node) : list node :=
  match fuel, st !! n with
  | S fuel', Some x =>
      let st1 := refresh_down (S (length st)) n st in
      match _parent x with
      | Some p => refresh_up fuel' p st1
      | None => st1
      end
  | _, _ => st
  end.

Definition _refresh_quiescence (n : nat) (st : list node) : list node :=
  refresh_up (S (length st)) n st.

(** ** Leases, waiting and detaching *)

Definition acquire (n : nat) (h : heap) : heap * nat :=
  (MkHeap (alter (λ x, set_leases (_active_leases x + 1) x) n (nodes h))
     (leases h ++ [MkLease n false]), length (leases h)).

Definition _release_lease (n : nat) (st : list node) : res (list node) :=
  match st !! n with
  | None => throw RuntimeError "no such node"
  | Some x =>
      _ ← require (negb (_active_leases x =? 0)) RuntimeError
            "cancellation lease released more than once";
      Ok (_refresh_quiescence n (alter (λ x, set_leases (_active_leases x - 1) x) n st))
  end.

(** [lease.release()], also what leaving the [with] block does. *)
Definition release (l : nat) (h : heap) : res heap :=
  match leases h !! l with
  | None => throw RuntimeError "no such lease"
  | Some x =>
      if _released x then Ok h
      else
        let ls := alter (λ x, MkLease (_node x) true) l (leases h) in
        st ← _release_lease (_node x) (nodes h);
        Ok (MkHeap st ls)
  end.

(** [join(timeout)].  A wake-up is the clock reading taken before waiting and the store
    found afterwards, which other threads changed meanwhile; [None] is a call that is
    still waiting when the wake-ups are used up. *)
Fixpoint join_loop (deadline : option spec_float) (n : nat) (st : list node)
    (wakes : list (spec_float * list node)) : option bool * list node :=
  if is_quiescent st n then (Some true, st)
  else match wakes with
  | [] => (None, st)
  | (now, st') :: wakes' =>
      let expired := match deadline with
                     | Some d => num_leb (NFloat (f64_sub d now)) (NInt 0)
                     | None => false
                     end in
      if expired then (Some false, st)
      else join_loop deadline n (_refresh_quiescence n st') wakes'
  end.

Definition join (timeout : option spec_float) (start : spec_float) (n : nat) (st : list node)
    (wakes : list (spec_float * list node)) : option bool * list node :=
  let deadline := match timeout with
                  | None => None
                  | Some t => Some (f64_add start (f64_max t (S754_zero false)))
                  end in
  join_loop deadline n (_refresh_quiescence n st) wakes.

Definition detach (n : nat) (st : list node) : list node :=
  match st !! n with
  | Some x =>
      match _parent x with
      | None => st
      | Some p =>
          let drop_me y := set_children
            (List.filter (λ kv, negb (String.eqb kv.1 (node_id x) && (kv.2 =? n)%nat))
               (_children y)) y in
          _refresh_quiescence p (alter drop_me p st)
      end
  | None => st
  end.

(** ** Links *)

Definition event_at (st : list node) (n : nat) : bool :=
  match st !! n with Some x => _cancel_event x | None => false end.

(** The tree shape: a child is newer than its parent, points back to it and is filed
    under its own id, and ids are unique among siblings. *)
Record linked (st : list node) (n : nat) (x : node) : Prop := {
  link_child : ∀ k c, (k, c) ∈ _children x →
    (n < c)%nat ∧ ∃ y, st !! c = Some y ∧ node_id y = k ∧ _parent y = Some n;
  link_keys : NoDup (_children x).*1;
  link_parent : ∀ p, _parent x = Some p → (p < n)%nat
}.
Definition wf (st : list node) : Prop := ∀ n x, st !! n = Some x → linked st n x.

(** Updates that keep the links. *)
Definition same_links (x x' : node) : Prop :=
  node_id x' = node_id x ∧ _parent x' = _parent x ∧ _children x' = _children x.

Lemma wf_same_links st st' : Forall2 same_links st st' → wf st → wf st'.
Proof.
  intros H Hwf n x' Hx'. destruct (Forall2_lookup_r _ _ _ _ _ H Hx') as (x & Hx & Hi & Hp & Hc).
  destruct (Hwf n x Hx) as [L1 L2 L3]. split; rewrite ?Hc, ?Hp; try done.
  intros k c (Hlt & y & Hy & ? & ?)%L1. split; [done|].
  destruct (Forall2_lookup_l _ _ _ _ _ H Hy) as (y' & Hy' & Hi' & Hp' & _).
  exists y'. split_and!; congruence.
Qed.

Lemma child_nodes_elem x c : c ∈ child_nodes x ↔ ∃ k, (k, c) ∈ _children x.
Proof.
  unfold child_nodes. rewrite list_elem_of_fmap. split.
  - intros ([k c'] & -> & ?). eauto.
  - intros (k & ?). by exists (k, c).
Qed.

Lemma wf_child st n x c :
  wf st → st !! n = Some x → c ∈ child_nodes x →
  (n < c < length st)%nat ∧ ∃ y, st !! c = Some y ∧ _parent y = Some n.
Proof.
  intros Hwf Hx (k & Hk)%child_nodes_elem.
  destruct (link_child _ _ _ (Hwf n x Hx) k c Hk) as (? & y & Hy & _ & ?).
  split; [|eauto]. apply lookup_lt_Some in Hy. lia.
Qed.

(** Updating one node of a store, as a relation between the stores. *)
Lemma alter_Forall2 (R : node → node → Prop) `{!Reflexive R} f n st :
  (∀ x, st !! n = Some x → R x (f x)) → Forall2 R st (alter f n st).
Proof.
  intros Hf. apply Forall2_same_length_lookup_2; [by rewrite length_alter|].
  intros i x y Hx Hy. destruct (decide (i = n)) as [->|Hne].
  - rewrite list_lookup_alter_eq, Hx in Hy. simplify_eq/=. by apply Hf.
  - rewrite list_lookup_alter_ne in Hy by done. rewrite Hx in Hy. by injection Hy as <-.
Qed.

Lemma foldl_Forall2 {A} (R : node → node → Prop) `{!PreOrder R} (f : list node → A → list node) l st :
  (∀ s a, Forall2 R s (f s a)) → Forall2 R st (foldl f st l).
Proof.
  intros Hf. revert st; induction l as [|a l IH]; intros st; simpl; [done|]. etrans; [apply Hf|apply IH].
Qed.

(** ** What cancelling changes *)

(** A node is left alone or marked with the reason, and only if it was not cancelled. *)
Definition may_cancel (r : string) (x x' : node) : Prop :=
  x' = x ∨ (_cancel_event x = false ∧ x' = mark_cancelled r x).

#[export] Instance may_cancel_preorder r : PreOrder (may_cancel r).
Proof.
  split; [by left|]. intros x y z [->|[? ->]] [->|[Hz ->]];
    [by left|by right|by right|discriminate Hz].
Qed.

Lemma may_cancel_links r x x' : may_cancel r x x' → same_links x x'.
Proof. by intros [->|[_ ->]]. Qed.

Lemma cancel_fuel_changes fuel n r st : Forall2 (may_cancel r) st (cancel_fuel fuel n r st).1.
Proof.
  revert n st; induction fuel as [|fuel IH]; intros n st; simpl; [done|].
  destruct (st !! n) as [x|] eqn:Hx; [|done]. destruct (_cancel_event x) eqn:Hc; [done|]. simpl.
  etrans; [|apply foldl_Forall2; [apply _|auto]].
  apply alter_Forall2; [apply _|]. intros y Hy. right. by simplify_eq.
Qed.

Lemma cancel_event_mono r st st' n :
  Forall2 (may_cancel r) st st' → event_at st n = true → event_at st' n = true.
Proof.
  unfold event_at. intros H. destruct (st !! n) as [x|] eqn:Hx; [|done].
  destruct (Forall2_lookup_l _ _ _ _ _ H Hx) as (x' & -> & [->|[_ ->]]); done.
Qed.

(** A cancelled scope has only cancelled children. *)
Definition closed_at (st : list node) (m : nat) : Prop :=
  ∀ x, st !! m = Some x → _cancel_event x = true →
    ∀ c, c ∈ child_nodes x → event_at st c = true.

Lemma closed_at_mono r st st' m :
  Forall2 (may_cancel r) st st' → event_at st m = event_at st' m →
  closed_at st m → closed_at st' m.
Proof.
  intros H He Hcl x' Hx' Hc c Hin.
  destruct (Forall2_lookup_r _ _ _ _ _ H Hx') as (x & Hx & Hr).
  assert (child_nodes x' = child_nodes x) as Heq by (by destruct Hr as [->|[_ ->]]).
  rewrite Heq in Hin. unfold event_at in He. rewrite Hx, Hx', Hc in He.
  eapply cancel_event_mono; [exact H|]. by eapply Hcl.
Qed.

Lemma may_cancel_wf r st st' :
  Forall2 (may_cancel r) st st' → wf st → wf st' ∧ length st' = length st.
Proof.
  intros H Hwf. split; [|symmetry; by eapply Forall2_length].
  eapply wf_same_links; [eapply Forall2_impl; [exact H|apply may_cancel_links]|done].
Qed.

Lemma foldl_cancel_spec fuel r l st :
  (∀ c s, wf s → length s = length st → c ∈ l →
     event_at (cancel_fuel fuel c r s).1 c = true
     ∧ ∀ m, closed_at s m → closed_at (cancel_fuel fuel c r s).1 m) →
  wf st →
  let st' := foldl (λ s c, (cancel_fuel fuel c r s).1) st l in
  (∀ c, c ∈ l → event_at st' c = true) ∧ (∀ m, closed_at st m → closed_at st' m).
Proof.
  revert st; induction l as [|c l IH]; intros st Hstep Hwf; simpl; [set_solver|].
  destruct (may_cancel_wf r _ _ (cancel_fuel_changes fuel c r st) Hwf) as [Hwf' Hlen].
  destruct (Hstep c st Hwf eq_refl ltac:(by left)) as [Hev Hcl].
  destruct (IH (cancel_fuel fuel c r st).1) as [Hevs Hcls]; [|done|].
  { intros d s ? Hs ?. apply Hstep; [done|by rewrite Hs, Hlen|by right]. }
  split; [|auto]. intros d [->|Hd]%elem_of_cons; [|auto].
  eapply cancel_event_mono; [|exact Hev]. apply foldl_Forall2; [apply _|].
  intros; apply cancel_fuel_changes.
Qed.

Lemma event_at_alter f n st m :
  m ≠ n → event_at (alter f n st) m = event_at st m.
Proof. intros. unfold event_at. by rewrite list_lookup_alter_ne. Qed.

Lemma cancel_fuel_spec fuel n r st :
  wf st → (n < length st)%nat → (length st - n < fuel)%nat →
  event_at (cancel_fuel fuel n r st).1 n = true
  ∧ ∀ m, closed_at st m → closed_at (cancel_fuel fuel n r st).1 m.
Proof.
  revert n st; induction fuel as [|fuel IH]; intros n st Hwf Hn Hf; [lia|]. simpl.
  destruct (st !! n) as [x|] eqn:Hx; [|apply lookup_ge_None in Hx; lia].
  destruct (_cancel_event x) eqn:Hc; [unfold event_at; simpl; by rewrite Hx|]. simpl.
  set (st1 := alter (mark_cancelled r) n st).
  assert (Forall2 (may_cancel r) st st1) as Hch1.
  { apply alter_Forall2; [apply _|]. intros y Hy. right. by simplify_eq. }
  destruct (may_cancel_wf r _ _ Hch1 Hwf) as [Hwf1 Hlen].
  destruct (foldl_cancel_spec fuel r (child_nodes x) st1) as [Hev Hcl]; [|done|].
  { intros c s Hs Hls Hin. destruct (wf_child st n x c Hwf Hx Hin) as [? _].
    apply IH; [done|lia..]. }
  assert (Forall2 (may_cancel r) st1 (foldl (λ s c, (cancel_fuel fuel c r s).1) st1 (child_nodes x)))
    as Hch2 by (apply foldl_Forall2; [apply _|]; intros; apply cancel_fuel_changes).
  assert (st1 !! n = Some (mark_cancelled r x)) as Hx1
    by (unfold st1; by rewrite list_lookup_alter_eq, Hx).
  split.
  - eapply cancel_event_mono; [exact Hch2|]. unfold event_at. by rewrite Hx1.
  - intros m Hm. destruct (decide (m = n)) as [->|Hne].
    + intros y Hy _ c Hin. apply Hev.
      destruct (Forall2_lookup_l _ _ _ _ _ Hch2 Hx1) as (y' & Hy' & Hr). simplify_eq.
      by destruct Hr as [->|[_ ->]].
    + apply Hcl. eapply closed_at_mono; [exact Hch1| |done].
      unfold st1. by rewrite event_at_alter.
Qed.

(** ** Subtrees *)

Inductive below (st : list node) (n : nat) : nat → Prop :=
  | below_self : below st n n
  | below_child m x c :
      below st n m → st !! m = Some x → c ∈ child_nodes x → below st n c.

Lemma below_trans st n m k : below st n m → below st m k → below st n k.
Proof. intros Hnm. induction 1; [done|]. by eapply below_child. Qed.

Lemma below_same_links st st' n m : Forall2 same_links st st' → below st n m → below st' n m.
Proof.
  intros H. induction 1 as [|m x c _ IH Hx Hin]; [constructor|].
  destruct (Forall2_lookup_l _ _ _ _ _ H Hx) as (x' & Hx' & _ & _ & Hc).
  eapply below_child; [exact IH|exact Hx'|]. unfold child_nodes. by rewrite Hc.
Qed.

#[export] Instance same_links_equivalence : Equivalence same_links.
Proof.
  unfold same_links. split; [done|intros x y; naive_solver|].
  intros x y z (? & ? & ?) (? & ? & ?). split_and!; congruence.
Qed.

Lemma may_cancel_same r st st' : Forall2 (may_cancel r) st st' → Forall2 same_links st st'.
Proof. intros H. eapply Forall2_impl; [exact H|]. apply may_cancel_links. Qed.

(** Cancelling touches only the subtree. *)
Lemma cancel_fuel_frame fuel n r st m :
  ¬ below st n m → (cancel_fuel fuel n r st).1 !! m = st !! m.
Proof.
  revert n st; induction fuel as [|fuel IH]; intros n st Hm; simpl; [done|].
  destruct (st !! n) as [x|] eqn:Hx; [|done]. destruct (_cancel_event x) eqn:Hc; [done|]. simpl.
  assert (m ≠ n) as Hne by (intros ->; destruct Hm; constructor).
  set (st1 := alter (mark_cancelled r) n st).
  assert (st1 !! m = st !! m) as <- by (unfold st1; by rewrite list_lookup_alter_ne).
  assert (Forall2 same_links st st1) as Hl
    by (apply alter_Forall2; [apply _|]; done).
  assert (∀ c, c ∈ child_nodes x → ¬ below st1 c m) as Hkids.
  { intros c Hin Hb. destruct Hm. eapply below_trans; [eapply below_child; [constructor|done..]|].
    eapply below_same_links; [symmetry; exact Hl|done]. }
  clearbody st1. clear Hl Hm Hx. revert st1 Hkids.
  induction (child_nodes x) as [|c l IHl]; intros st1 Hkids; simpl; [done|].
  rewrite IHl; [apply IH; apply Hkids; by left|].
  intros d Hd Hb. eapply Hkids; [right; exact Hd|].
  eapply below_same_links; [symmetry; eapply may_cancel_same, cancel_fuel_changes|exact Hb].
Qed.

Lemma below_closed_event st n m :
  (∀ k, closed_at st k) → event_at st n = true → below st n m → event_at st m = true.
Proof.
  intros Hcl Hn. induction 1 as [|m x c _ IH Hx Hin]; [done|].
  eapply Hcl; [exact Hx| |exact Hin]. unfold event_at in IH. by rewrite Hx in IH.
Qed.

(** ** What refreshing changes *)

Definition may_settle (x x' : node) : Prop :=
  x' = x ∨ (_cancel_event x = true ∧ _active_leases x = 0 ∧ x' = set_status QUIESCENT x).

#[export] Instance may_settle_preorder : PreOrder may_settle.
Proof.
  split; [by left|].
  intros x y z [->|(? & ? & ->)] [->|(? & ? & ->)]; [by left|by right|by right|by right].
Qed.

Lemma may_settle_links x x' : may_settle x x' → same_links x x'.
Proof. by intros [->|(_ & _ & ->)]. Qed.

Lemma may_settle_same st st' : Forall2 may_settle st st' → Forall2 same_links st st'.
Proof. intros H. eapply Forall2_impl; [exact H|]. apply may_settle_links. Qed.

Lemma settle_changes n st : Forall2 may_settle st (settle n st).
Proof.
  unfold settle. destruct (st !! n) as [x|] eqn:Hx; [|done].
  destruct (_ && _) eqn:E; [|done]. to_prop. apply alter_Forall2; [apply _|].
  intros y Hy. right. by simplify_eq.
Qed.

Lemma refresh_down_changes fuel n st : Forall2 may_settle st (refresh_down fuel n st).
Proof.
  revert n st; induction fuel as [|fuel IH]; intros n st; simpl; [done|].
  destruct (st !! n) as [x|]; [|done].
  etrans; [|apply settle_changes]. apply foldl_Forall2; [apply _|auto].
Qed.

Lemma refresh_up_changes fuel n st : Forall2 may_settle st (refresh_up fuel n st).
Proof.
  revert n st; induction fuel as [|fuel IH]; intros n st; cbn [refresh_up]; [done|].
  destruct (st !! n) as [x|]; [|done].
  destruct (_parent x) as [p|]; [|apply (refresh_down_changes (S (length st)))].
  etrans; [apply (refresh_down_changes (S (length st)) n)|]. apply IH.
Qed.

Lemma refresh_changes n st : Forall2 may_settle st (_refresh_quiescence n st).
Proof. apply refresh_up_changes. Qed.

Lemma quiescent_mono st st' n :
  Forall2 may_settle st st' → is_quiescent st n = true → is_quiescent st' n = true.
Proof.
  unfold is_quiescent. intros H. destruct (st !! n) as [x|] eqn:Hx; [|done].
  destruct (Forall2_lookup_l _ _ _ _ _ H Hx) as (x' & -> & [->|(_ & _ & ->)]); done.
Qed.

(** A quiescent scope is cancelled, holds no lease and has only quiescent children. *)
Definition quiet_at (st : list node) (m : nat) : Prop :=
  ∀ x, st !! m = Some x → _status x = QUIESCENT →
    _cancel_event x = true ∧ _active_leases x = 0
    ∧ ∀ c, c ∈ child_nodes x → is_quiescent st c = true.

Lemma quiet_at_mono st st' m :
  Forall2 may_settle st st' → is_quiescent st m = is_quiescent st' m →
  quiet_at st m → quiet_at st' m.
Proof.
  intros H He Hq x' Hx' Hs. unfold is_quiescent in He. rewrite Hx' in He.
  destruct (Forall2_lookup_r _ _ _ _ _ H Hx') as (x & Hx & Hr). rewrite Hx in He.
  assert (_status x = QUIESCENT) as Hsx
    by (rewrite (bool_decide_true (_status x' = _)) in He by done; by to_prop).
  destruct (Hq x Hx Hsx) as (? & ? & Hk).
  assert (x' = x ∨ x' = set_status QUIESCENT x) as [->| ->] by (destruct Hr; naive_solver);
    simpl; split_and!; eauto using quiescent_mono.
Qed.

Lemma settle_quiet n st : (∀ m, quiet_at st m) → ∀ m, quiet_at (settle n st) m.
Proof.
  intros Hq m. pose proof (settle_changes n st) as Hch. unfold settle in *.
  destruct (st !! n) as [x|] eqn:Hx; [|done]. destruct (_ && _) eqn:E; [|done]. to_prop.
  destruct (decide (m = n)) as [->|Hne].
  - intros y Hy _. rewrite list_lookup_alter_eq, Hx in Hy. simpl in Hy. simplify_eq. simpl.
    split_and!; [done..|]. intros c Hc. eapply quiescent_mono; [exact Hch|].
    rewrite forallb_forall in H0. by apply H0, list_elem_of_In.
  - eapply quiet_at_mono; [exact Hch| |done].
    unfold is_quiescent. by rewrite list_lookup_alter_ne.
Qed.

Lemma refresh_down_quiet fuel n st :
  (∀ m, quiet_at st m) → ∀ m, quiet_at (refresh_down fuel n st) m.
Proof.
  revert n st; induction fuel as [|fuel IH]; intros n st Hq; simpl; [done|].
  destruct (st !! n) as [x|]; [|done]. apply settle_quiet.
  clear -IH Hq. revert st Hq.
  induction (child_nodes x) as [|c l IHl]; intros st Hq; simpl; [done|]. apply IHl, IH, Hq.
Qed.

Lemma refresh_quiet n st : (∀ m, quiet_at st m) → ∀ m, quiet_at (_refresh_quiescence n st) m.
Proof.
  unfold _refresh_quiescence. generalize (S (length st)) as fuel. intros fuel.
  revert n st; induction fuel as [|fuel IH]; intros n st Hq; cbn [refresh_up]; [done|].
  destruct (st !! n) as [x|]; [|done]. pose proof (refresh_down_quiet (S (length st)) n st Hq).
  destruct (_parent x); [by apply IH|done].
Qed.

(** No lease is held anywhere in the subtree, and all of it is cancelled. *)
Definition drained (st : list node) (n : nat) : Prop :=
  ∀ m x, below st n m → st !! m = Some x → _cancel_event x = true ∧ _active_leases x = 0.

Lemma quiet_drained st n :
  (∀ m, quiet_at st m) → is_quiescent st n = true → drained st n.
Proof.
  intros Hq Hn. assert (∀ m, below st n m → is_quiescent st m = true) as Hall.
  { induction 1 as [|m x c _ IH Hx Hin]; [done|]. unfold is_quiescent in IH. rewrite Hx in IH.
    to_prop. by eapply Hq. }
  intros m x Hb Hx. specialize (Hall m Hb). unfold is_quiescent in Hall. rewrite Hx in Hall.
  to_prop. by destruct (Hq m x Hx Hall) as (? & ? & _).
Qed.

Lemma may_settle_wf st st' :
  Forall2 may_settle st st' → wf st → wf st' ∧ length st' = length st.
Proof.
  intros H Hwf. split; [|symmetry; by eapply Forall2_length].
  eapply wf_same_links; [by apply may_settle_same|done].
Qed.

Lemma drained_settle st st' n : Forall2 may_settle st st' → drained st n → drained st' n.
Proof.
  intros H Hd m x' Hb Hx'.
  destruct (Forall2_lookup_r _ _ _ _ _ H Hx') as (x & Hx & Hr).
  assert (below st n m) as Hb'
    by (eapply below_same_links; [symmetry; by apply may_settle_same|done]).
  destruct (Hd m x Hb' Hx). destruct Hr as [->|(_ & _ & ->)]; done.
Qed.

Lemma drained_child st n x c :
  st !! n = Some x → c ∈ child_nodes x → drained st n → drained st c.
Proof.
  intros Hx Hin Hd m y Hb Hy. apply (Hd m y); [|done].
  eapply below_trans; [eapply below_child; [constructor|done..]|done].
Qed.

Lemma foldl_refresh_complete fuel l st :
  (∀ c s, wf s → length s = length st → c ∈ l → drained s c →
     is_quiescent (refresh_down fuel c s) c = true) →
  wf st → (∀ c, c ∈ l → drained st c) →
  ∀ c, c ∈ l → is_quiescent (foldl (λ s c, refresh_down fuel c s) st l) c = true.
Proof.
  revert st; induction l as [|d l IH]; intros st Hstep Hwf Hd c Hc; simpl; [set_solver|].
  pose proof (refresh_down_changes fuel d st) as Hch.
  destruct (may_settle_wf _ _ Hch Hwf) as [Hwf' Hlen].
  destruct (decide (c ∈ l)) as [Hin|Hnin].
  - apply IH; [|done| |done].
    + intros c' s' ? Hs' ? ?. apply Hstep; [done|by rewrite Hs', Hlen|by right|done].
    + intros c' Hc'. eapply drained_settle; [exact Hch|]. apply Hd. by right.
  - apply elem_of_cons in Hc as [->|?]; [|done].
    eapply quiescent_mono; [apply foldl_Forall2; [apply _|]; intros; apply refresh_down_changes|].
    apply Hstep; [done..|by left|]. apply Hd. by left.
Qed.

Lemma refresh_down_complete fuel n st :
  wf st → (n < length st)%nat → (length st - n < fuel)%nat → drained st n →
  is_quiescent (refresh_down fuel n st) n = true.
Proof.
  revert n st; induction fuel as [|fuel IH]; intros n st Hwf Hn Hf Hd; [lia|]. simpl.
  destruct (st !! n) as [x|] eqn:Hx; [|apply lookup_ge_None in Hx; lia].
  set (st1 := foldl _ st _).
  assert (Forall2 may_settle st st1) as Hch
    by (apply foldl_Forall2; [apply _|]; intros; apply refresh_down_changes).
  assert (∀ c, c ∈ child_nodes x → is_quiescent st1 c = true) as Hkids.
  { apply foldl_refresh_complete; [|done|intros c Hc; by eapply drained_child].
    intros c s Hs Hl Hin Hdr. destruct (wf_child st n x c Hwf Hx Hin) as [? _].
    apply IH; [done|lia|lia|done]. }
  destruct (Forall2_lookup_l _ _ _ _ _ Hch Hx) as (x1 & Hx1 & Hr).
  assert (child_nodes x1 = child_nodes x ∧ _cancel_event x1 = true ∧ _active_leases x1 = 0)
    as (Hc1 & He1 & Hl1).
  { destruct (Hd n x (below_self _ _) Hx) as [He Hl]. by destruct Hr as [->|(_ & _ & ->)]. }
  unfold settle. rewrite Hx1, He1, Hl1, Hc1.
  assert (forallb (is_quiescent st1) (child_nodes x) = true) as ->
    by (apply forallb_forall; intros c Hc; apply Hkids; by apply list_elem_of_In).
  simpl. unfold is_quiescent. by rewrite list_lookup_alter_eq, Hx1.
Qed.

Lemma refresh_complete n st :
  wf st → (n < length st)%nat → drained st n → is_quiescent (_refresh_quiescence n st) n = true.
Proof.
  intros Hwf Hn Hd. unfold _refresh_quiescence. cbn [refresh_up].
  destruct (st !! n) as [x|] eqn:Hx; [|apply lookup_ge_None in Hx; lia].
  pose proof (refresh_down_complete (S (length st)) n st Hwf Hn ltac:(lia) Hd) as Hq.
  destruct (_parent x) as [p|]; [|done].
  eapply quiescent_mono; [apply refresh_up_changes|done].
Qed.

(** ** The invariant of the store *)

Definition flags_ok (x : node) : Prop :=
  (_status x = ACTIVE ↔ _cancel_event x = false) ∧ (is_Some (_reason x) ↔ _cancel_event x = true).

(** The leases on a node that were not released yet. *)
Definition outstanding (ls : list lease) (n : nat) : Z :=
  zlen (List.filter (λ l, (_node l =? n)%nat && negb (_released l)) ls).

(** The links, flags and counters agree with each other and with the leases given out. *)
Record core (h : heap) : Prop := {
  core_wf : wf (nodes h);
  core_flags : Forall flags_ok (nodes h);
  core_count : ∀ n x, nodes h !! n = Some x → _active_leases x = outstanding (leases h) n;
  core_leases : Forall (λ l, (_node l < length (nodes h))%nat) (leases h)
}.
Definition inv (h : heap) : Prop := core h ∧ ∀ m, closed_at (nodes h) m.

(** Updates that keep links, flags and leases. *)
Definition keeps (x x' : node) : Prop :=
  same_links x x' ∧ _active_leases x' = _active_leases x ∧ (flags_ok x → flags_ok x').

Lemma core_update st st' ls : core (MkHeap st ls) → Forall2 keeps st st' → core (MkHeap st' ls).
Proof.
  intros [Hwf Hfl Hct Hls] H. split; simpl in *.
  - eapply wf_same_links; [|done]. eapply Forall2_impl; [exact H|]. by intros ? ? [? _].
  - apply Forall_forall. intros x' Hx'. apply list_elem_of_lookup in Hx' as [i Hi].
    destruct (Forall2_lookup_r _ _ _ _ _ H Hi) as (x & Hx & _ & _ & Hf). apply Hf.
    rewrite Forall_forall in Hfl. apply Hfl. by eapply list_elem_of_lookup_2.
  - intros n x' Hx'. destruct (Forall2_lookup_r _ _ _ _ _ H Hx') as (x & Hx & _ & -> & _). eauto.
  - by rewrite <-(Forall2_length _ _ _ H).
Qed.

Lemma may_settle_keeps x x' : may_settle x x' → keeps x x'.
Proof.
  intros Hr. split; [by apply may_settle_links|]. destruct Hr as [->|(He & _ & ->)]; [done|].
  split; [done|]. unfold flags_ok. simpl. rewrite He. naive_solver.
Qed.

Lemma may_cancel_keeps r x x' : may_cancel r x x' → keeps x x'.
Proof.
  intros Hr. split; [by eapply may_cancel_links|]. destruct Hr as [->|[He ->]]; [done|].
  split; [done|]. unfold flags_ok. simpl. naive_solver.
Qed.

Lemma closed_at_settle st st' m : Forall2 may_settle st st' → closed_at st m → closed_at st' m.
Proof.
  intros H Hcl x' Hx' He c Hin.
  destruct (Forall2_lookup_r _ _ _ _ _ H Hx') as (x & Hx & Hr).
  assert (event_at st c = true) as Hc.
  { apply (Hcl x Hx); [by destruct Hr as [->|(_ & _ & ->)]..]. }
  unfold event_at in *. destruct (st !! c) as [y|] eqn:Hy; [|done].
  destruct (Forall2_lookup_l _ _ _ _ _ H Hy) as (y' & -> & [->|(_ & _ & ->)]); done.
Qed.

Lemma inv_refresh st ls n :
  inv (MkHeap st ls) → inv (MkHeap (_refresh_quiescence n st) ls).
Proof.
  intros [Hc Hcl]. pose proof (refresh_changes n st) as Hch. split.
  - eapply core_update; [exact Hc|]. eapply Forall2_impl; [exact Hch|]. apply may_settle_keeps.
  - intros m. eapply closed_at_settle; [exact Hch|]. apply Hcl.
Qed.

Lemma core_cancel st ls n r : core (MkHeap st ls) → core (MkHeap (cancel n r st).1 ls).
Proof.
  intros Hc. eapply core_update; [exact Hc|].
  eapply Forall2_impl; [apply cancel_fuel_changes|]. apply may_cancel_keeps.
Qed.

Lemma inv_cancel st ls n r :
  inv (MkHeap st ls) → (n < length st)%nat → inv (MkHeap (cancel n r st).1 ls).
Proof.
  intros [Hc Hcl] Hn. split; [by apply core_cancel|].
  intros m. apply cancel_fuel_spec; [apply Hc|done|lia|apply Hcl].
Qed.

(** Adding one object to the store. *)
Lemma outstanding_fresh (st : list node) ls :
  Forall (λ l, (_node l < length st)%nat) ls → outstanding ls (length st) = 0.
Proof.
  unfold outstanding. induction 1 as [|l ls Hl _ IH]; simpl; [done|].
  destruct (Nat.eqb_spec (_node l) (length st)); [lia|done].
Qed.

Lemma lookup_grow (st : list node) x n y :
  (st ++ [x]) !! n = Some y ↔ st !! n = Some y ∨ (n = length st ∧ x = y).
Proof.
  rewrite lookup_snoc_Some. split; [|by intros [?|[-> ->]]; [left; split; [by eapply lookup_lt_Some|]|right]].
  naive_solver.
Qed.

Lemma wf_root st x : _parent x = None → _children x = [] → wf st → wf (st ++ [x]).
Proof.
  intros Hp Hk Hwf n y [Hy|[-> <-]]%lookup_grow.
  - destruct (Hwf n y Hy) as [L1 L2 L3]. split; [|done..].
    intros k c (? & z & ? & ? & ?)%L1. split; [done|]. exists z. rewrite lookup_grow. auto.
  - split; [rewrite Hk; by intros ? ? ?%elem_of_nil|rewrite Hk; constructor|by rewrite Hp].
Qed.

Lemma event_grow st x n : event_at st n = true → event_at (st ++ [x]) n = true.
Proof.
  unfold event_at. destruct (st !! n) as [y|] eqn:Hy; [|done].
  by rewrite (proj2 (lookup_grow st x n y) (or_introl Hy)).
Qed.

Lemma inv_root st ls x :
  _parent x = None → _children x = [] → _active_leases x = 0 → flags_ok x → _cancel_event x = false →
  inv (MkHeap st ls) → inv (MkHeap (st ++ [x]) ls).
Proof.
  intros Hp Hk Hl Hf He [[Hwf Hfl Hct Hls] Hcl]. simpl in *. split; [split; simpl|].
  - by apply wf_root.
  - by apply Forall_app; split; [|constructor].
  - intros n y [Hy|[-> <-]]%lookup_grow; [eauto|]. by rewrite outstanding_fresh.
  - eapply Forall_impl; [exact Hls|]. simpl. intros l. rewrite length_app. simpl. lia.
  - intros m y [Hy|[-> <-]]%lookup_grow Hey c Hc.
    + by apply event_grow, (Hcl m y).
    + congruence.
Qed.

(** A fresh scope. *)
Definition fresh_node (name : string) (p : option nat) : node := MkNode name p [] 0 ACTIVE None false.

Lemma fresh_flags name p : flags_ok (fresh_node name p).
Proof. split; [done|]. split; [by intros []|done]. Qed.

Section AddChild.
  Context (st : list node) (ls : list lease) (p : nat) (x : node) (name : string).
  Hypothesis Hx : st !! p = Some x.
  Hypothesis Hname : name ∉ (_children x).*1.
Let st1 : list node :=
    alter (set_children (_children x ++ [(name, length st)])) p (st ++ [fresh_node name (Some p)]).

Lemma lookup_added n y :
    st1 !! n = Some y ↔
    (n = p ∧ y = set_children (_children x ++ [(name, length st)]) x)
    ∨ (n ≠ p ∧ st !! n = Some y) ∨ (n = length st ∧ y = fresh_node name (Some p)).
  Proof.
    pose proof (lookup_lt_Some _ _ _ Hx) as Hp. unfold st1. destruct (decide (n = p)) as [->|Hne].
    - rewrite list_lookup_alter_eq, lookup_app_l, Hx by done. simpl. split; [naive_solver|].
      intros [[_ ->]|[[? _]|[? _]]]; [done..|lia].
    - rewrite list_lookup_alter_ne by done. rewrite lookup_grow. naive_solver.
  Qed.

Lemma length_added : length st1 = S (length st).
  Proof. unfold st1. rewrite length_alter, length_app. simpl. lia. Qed.

Lemma event_added n : event_at st n = true → event_at st1 n = true.
  Proof.
    unfold event_at. destruct (st !! n) as [y|] eqn:Hy; [|done]. intros He.
    assert (∃ y', st1 !! n = Some y' ∧ _cancel_event y' = _cancel_event y) as (y' & -> & ->); [|done].
    destruct (decide (n = p)) as [->|Hne].
    - eexists. split; [apply lookup_added; by left|]. by simplify_eq.
    - exists y. split; [apply lookup_added; auto|done].
  Qed.

Lemma wf_added : wf st → wf st1.
  Proof.
    pose proof (lookup_lt_Some _ _ _ Hx) as Hp. intros Hwf.
    assert (∀ n k c y, st !! n = Some y → (k, c) ∈ _children y →
              (n < c)%nat ∧ ∃ z, st1 !! c = Some z ∧ node_id z = k ∧ _parent z = Some n) as Hold.
    { intros n k c y Hy Hin. destruct (link_child _ _ _ (Hwf n y Hy) k c Hin) as (? & z & Hz & ? & ?).
      split; [done|]. destruct (decide (c = p)) as [->|Hne].
      - eexists. split; [apply lookup_added; by left|]. by simplify_eq.
      - exists z. split; [apply lookup_added; auto|done]. }
    intros n y [[-> ->]|[[_ Hy]|[-> ->]]]%lookup_added.
    - destruct (Hwf p x Hx) as [_ L2 L3]. split; simpl; [|rewrite fmap_app|done].
      + intros k c [Hin|[= -> ->]%list_elem_of_singleton]%elem_of_app; [by eapply Hold|].
        split; [done|]. exists (fresh_node name (Some p)). split_and!; [|done..].
        apply lookup_added. auto.
      + apply NoDup_app. split_and!; [done| |apply NoDup_singleton]. set_solver.
    - destruct (Hwf n y Hy) as [_ L2 L3]. split; [|done..]. intros k c. by apply Hold.
    - split; simpl; [by intros ? ? ?%elem_of_nil|constructor|by intros ? [= <-]].
  Qed.

Lemma flags_added : Forall flags_ok st → Forall flags_ok st1.
  Proof.
    intros Hfl. apply Forall_lookup_2. intros n y [[-> ->]|[[_ Hy]|[-> ->]]]%lookup_added.
    - exact (Forall_lookup_1 _ _ _ _ Hfl Hx).
    - exact (Forall_lookup_1 _ _ _ _ Hfl Hy).
    - apply fresh_flags.
  Qed.

Lemma core_added : core (MkHeap st ls) → core (MkHeap st1 ls).
  Proof.
    intros [Hwf Hfl Hct Hls]. simpl in *. split; simpl; [by apply wf_added|by apply flags_added|..].
    - intros n y [[-> ->]|[[_ Hy]|[-> ->]]]%lookup_added; [exact (Hct p x Hx)|by apply Hct|].
      symmetry. by apply outstanding_fresh.
    - rewrite length_added. eapply Forall_impl; [exact Hls|]. simpl. lia.
  Qed.

  (** Only the parent may gain an uncancelled child. *)
Lemma closed_added m : (∀ k, closed_at st k) → m ≠ p → closed_at st1 m.
  Proof.
    intros Hcl Hm y [[-> ->]|[[_ Hy]|[-> ->]]]%lookup_added He c Hc; [done| |done].
    apply event_added. by eapply Hcl.
  Qed.

Lemma closed_added_parent : (∀ k, closed_at st k) → _cancel_event x = false → closed_at st1 p.
  Proof.
    intros Hcl He y [[_ ->]|[[? _]|[-> ->]]]%lookup_added He' c Hc; [|done|done].
    simpl in He'. congruence.
  Qed.
End AddChild.

Lemma inv_add_child st ls p name st' c :
  inv (MkHeap st ls) → _add_child p (fresh_node name (Some p)) st = Ok (st', c) →
  inv (MkHeap st' ls) ∧ c = length st ∧ length st' = S (length st).
Proof.
  intros [Hc Hcl]. unfold _add_child. destruct (st !! p) as [x|] eqn:Hx; [|done].
  intros H. apply bind_ok in H as (_ & Hk%require_ok & H). simpl in *. to_prop.
  pose proof (lookup_lt_Some _ _ _ Hx) as Hp.
  pose proof (core_added st ls p x name Hx Hk Hc) as Hc1.
  set (st1 := alter _ p _) in *.
  assert (length st1 = S (length st)) as Hlen by apply length_added.
  assert (flags_ok x) as [_ Hrs]
    by (eapply Forall_forall; [apply Hc|]; by eapply list_elem_of_lookup_2).
  destruct (_cancel_event x) eqn:He.
  - destruct (proj2 Hrs eq_refl) as [r Hr]. rewrite Hr in H. simplify_eq.
    assert (wf st1) as Hwf1 by apply Hc1.
    destruct (cancel_fuel_spec (S (length st1)) (length st) r st1 Hwf1 ltac:(lia) ltac:(lia))
      as [Hev Hcl'].
    fold (cancel (length st) r st1) in Hev, Hcl'.
    pose proof (cancel_fuel_changes (S (length st1)) (length st) r st1) as Hch.
    fold (cancel (length st) r st1) in Hch.
    split; [|split; [done|by rewrite <-(Forall2_length _ _ _ Hch)]].
    split; [by apply core_cancel|]. intros m. simpl. destruct (decide (m = p)) as [->|Hne].
    + intros y Hy _ d Hd. destruct (Forall2_lookup_r _ _ _ _ _ Hch Hy) as (y1 & Hy1 & Hr1).
      apply (lookup_added st p x name Hx) in Hy1 as [[_ ->]|[[? _]|[? _]]]; [|done|lia].
      assert (child_nodes y = child_nodes x ++ [length st]) as Hkids.
      { unfold child_nodes. destruct Hr1 as [->|[_ ->]]; simpl; by rewrite fmap_app. }
      rewrite Hkids in Hd. apply elem_of_app in Hd as [Hd|Hd]; [|apply list_elem_of_singleton in Hd as ->; done].
      eapply cancel_event_mono; [exact Hch|]. apply (event_added st p x name Hx). by eapply Hcl.
    + apply Hcl'. by apply closed_added.
  - simplify_eq. split; [|done]. split; [done|]. intros m. simpl.
    destruct (decide (m = p)) as [->|Hne]; [by apply closed_added_parent|by apply closed_added].
Qed.

(** Changing only the lease counter of a node. *)
Lemma event_at_leases f n st m :
  (∀ x, _cancel_event (f x) = _cancel_event x) → event_at (alter f n st) m = event_at st m.
Proof.
  intros Hf. unfold event_at. destruct (decide (m = n)) as [->|Hne].
  - rewrite list_lookup_alter_eq. destruct (st !! n); simpl; [apply Hf|done].
  - by rewrite list_lookup_alter_ne.
Qed.

Lemma closed_leases (f : node → Z) n st m :
  closed_at st m → closed_at (alter (λ x, set_leases (f x) x) n st) m.
Proof.
  intros Hcl y Hy He c Hc. rewrite event_at_leases by done.
  destruct (decide (m = n)) as [->|Hne].
  - rewrite list_lookup_alter_eq in Hy. destruct (st !! n) as [x|] eqn:Hx; [|done].
    simpl in Hy. simplify_eq. by apply (Hcl x).
  - rewrite list_lookup_alter_ne in Hy by done. by eapply Hcl.
Qed.

Lemma core_leases_update (f : node → Z) n st ls ls' :
  core (MkHeap st ls) →
  (∀ m x, st !! m = Some x →
     outstanding ls' m = if decide (m = n) then f x else _active_leases x) →
  Forall (λ l, (_node l < length st)%nat) ls' →
  core (MkHeap (alter (λ x, set_leases (f x) x) n st) ls').
Proof.
  intros [Hwf Hfl Hct Hls] Hout Hls'. simpl in *.
  assert (Forall2 same_links st (alter (λ x, set_leases (f x) x) n st)) as Hl
    by (apply alter_Forall2; [apply _|]; done).
  split; simpl.
  - by eapply wf_same_links.
  - apply Forall_forall. intros y Hy. apply list_elem_of_lookup in Hy as [i Hi].
    rewrite Forall_forall in Hfl. destruct (decide (i = n)) as [->|Hne].
    + rewrite list_lookup_alter_eq in Hi. destruct (st !! n) as [x|] eqn:Hx; [|done].
      simpl in Hi. simplify_eq. apply (Hfl x). by eapply list_elem_of_lookup_2.
    + rewrite list_lookup_alter_ne in Hi by done. apply Hfl. by eapply list_elem_of_lookup_2.
  - intros m y Hy. destruct (decide (m = n)) as [->|Hne].
    + rewrite list_lookup_alter_eq in Hy. destruct (st !! n) as [x|] eqn:Hx; [|done].
      simpl in Hy. simplify_eq. rewrite (Hout n x Hx). by rewrite decide_True.
    + rewrite list_lookup_alter_ne in Hy by done. rewrite (Hout m y Hy). by rewrite decide_False.
  - by rewrite length_alter.
Qed.

Lemma inv_acquire n h : inv h → (n < length (nodes h))%nat → inv (acquire n h).1.
Proof.
  destruct h as [st ls]. intros [Hc Hcl] Hn. split; simpl in *.
  - apply (core_leases_update (λ x, _active_leases x + 1) n st ls); [done| |].
    + intros m x Hx. unfold outstanding, zlen. rewrite List.filter_app, length_app. simpl.
      pose proof (core_count _ Hc m x Hx) as Hout. unfold outstanding, zlen in Hout. simpl in Hout.
      destruct (Nat.eqb_spec n m), (decide (m = n)); subst; try done; simpl; lia.
    + apply Forall_app. split; [apply Hc|by constructor].
  - intros m. by apply (closed_leases (λ x, _active_leases x + 1)).
Qed.

Lemma outstanding_release ls l x m :
  ls !! l = Some x → _released x = false →
  outstanding (alter (λ x, MkLease (_node x) true) l ls) m
  = outstanding ls m - if decide (m = _node x) then 1 else 0.
Proof.
  unfold outstanding, zlen.
  revert l; induction ls as [|y ls IH]; intros l Hl Hr; [done|]. destruct l as [|l]; simpl in *.
  - simplify_eq. rewrite Hr, andb_false_r, andb_true_r.
    destruct (Nat.eqb_spec (_node x) m), (decide (m = _node x)); simpl; try congruence; lia.
  - specialize (IH l Hl Hr). unfold alter in IH.
    destruct ((_node y =? m)%nat && negb (_released y)); simpl; lia.
Qed.

Lemma outstanding_pos ls l x :
  ls !! l = Some x → _released x = false → 1 <= outstanding ls (_node x).
Proof.
  intros Hl Hr. unfold outstanding, zlen. revert l Hl; induction ls as [|y ls IH]; intros l Hl; [done|].
  simpl. destruct l as [|l]; simpl in Hl.
  - simplify_eq. rewrite Nat.eqb_refl, Hr. simpl. lia.
  - specialize (IH l Hl). destruct (_ && _); simpl; lia.
Qed.

(** Releasing a lease of a consistent store never raises and keeps it consistent. *)
Lemma inv_release h l x :
  inv h → leases h !! l = Some x → ∃ h', release l h = Ok h' ∧ inv h'.
Proof.
  destruct h as [st ls]. intros [Hc Hcl] Hl. unfold release. simpl in *. rewrite Hl.
  destruct (_released x) eqn:Hr; [by eexists|].
  assert (_node x < length st)%nat as Hn.
  { exact (Forall_lookup_1 _ ls l x (core_leases _ Hc) Hl). }
  destruct (lookup_lt_is_Some_2 st (_node x) Hn) as [y Hy].
  pose proof (core_count _ Hc (_node x) y Hy) as Hcount. simpl in Hcount.
  pose proof (outstanding_pos ls l x Hl Hr) as Hpos.
  unfold _release_lease. rewrite Hy. simpl.
  destruct (Z.eqb_spec (_active_leases y) 0); [lia|]. simpl. eexists. split; [done|].
  apply inv_refresh. split.
  - apply (core_leases_update (λ x, _active_leases x - 1) (_node x) st ls); [done| |].
    + intros m z Hz. rewrite (outstanding_release ls l x m Hl Hr).
      pose proof (core_count _ Hc m z Hz) as Hm. simpl in Hm. rewrite <-Hm. case_decide; lia.
    + apply Forall_lookup_2. intros i z Hz. destruct (decide (i = l)) as [->|Hne].
      * rewrite list_lookup_alter_eq, Hl in Hz. by simplify_eq/=.
      * rewrite list_lookup_alter_ne in Hz by done.
        exact (Forall_lookup_1 _ ls i z (core_leases _ Hc) Hz).
  - intros m. by apply (closed_leases (λ x, _active_leases x - 1)).
Qed.

(** Forgetting some children of a node. *)
Section Forget.
  Context (keep : string * nat → bool) (st : list node) (p : nat).
Let f (y : node) : node := set_children (List.filter keep (_children y)) y.

Lemma lookup_forget n y :
    alter f p st !! n = Some y →
    ∃ x, st !! n = Some x ∧ node_id y = node_id x ∧ _parent y = _parent x
      ∧ _active_leases y = _active_leases x ∧ _status y = _status x ∧ _reason y = _reason x
      ∧ _cancel_event y = _cancel_event x ∧ sublist (_children y) (_children x).
  Proof.
    destruct (decide (n = p)) as [->|Hne].
    - rewrite list_lookup_alter_eq. destruct (st !! p) as [x|]; [|done]. simpl.
      intros [= <-]. exists x. split_and!; try done. simpl.
      induction (_children x) as [|a l IH]; simpl; [done|].
      destruct (keep a); by constructor.
    - rewrite list_lookup_alter_ne by done. intros Hy. by exists y.
  Qed.

Lemma lookup_forget_ex n x : st !! n = Some x →
    ∃ y, alter f p st !! n = Some y ∧ node_id y = node_id x ∧ _parent y = _parent x
         ∧ _status y = _status x ∧ _cancel_event y = _cancel_event x.
  Proof.
    intros Hx. destruct (decide (n = p)) as [->|Hne].
    - exists (f x). rewrite list_lookup_alter_eq, Hx. done.
    - exists x. by rewrite list_lookup_alter_ne.
  Qed.

Lemma inv_forget ls : inv (MkHeap st ls) → inv (MkHeap (alter f p st) ls).
  Proof.
    intros [[Hwf Hfl Hct Hls] Hcl]. simpl in *. split; [split; simpl|].
    - intros n y (x & Hx & Hi & Hp & _ & _ & _ & _ & Hsub)%lookup_forget.
      destruct (Hwf n x Hx) as [L1 L2 L3]. split.
      + intros k c Hin. destruct (L1 k c) as (? & z & Hz & ? & ?); [by eapply sublist_subseteq|].
        split; [done|]. destruct (lookup_forget_ex c z Hz) as (z' & ? & ? & ? & _ & _).
        exists z'. split_and!; congruence.
      + eapply sublist_NoDup; [exact L2|]. by apply fmap_sublist.
      + by rewrite Hp.
    - apply Forall_lookup_2. intros n y (x & Hx & _ & _ & _ & Hs & Hr & He & _)%lookup_forget.
      unfold flags_ok. rewrite Hs, Hr, He. exact (Forall_lookup_1 _ st n x Hfl Hx).
    - intros n y (x & Hx & _ & _ & -> & _)%lookup_forget. eauto.
    - by rewrite length_alter.
    - intros m y (x & Hx & _ & _ & _ & _ & _ & He & Hsub)%lookup_forget Hey c Hc.
      simpl. rewrite event_at_leases by done. rewrite He in Hey. eapply Hcl; [exact Hx|done|].
      unfold child_nodes in *. eapply sublist_subseteq; [by apply fmap_sublist|done].
  Qed.
End Forget.

Lemma inv_detach st ls n : inv (MkHeap st ls) → inv (MkHeap (detach n st) ls).
Proof.
  intros Hi. unfold detach. destruct (st !! n) as [x|]; [|done].
  destruct (_parent x) as [p|]; [|done]. apply inv_refresh. by apply inv_forget.
Qed.

(** ** Runs *)

(** One method call on existing objects. *)
Inductive op :=
  | New (id : option string) (fresh : string)
  | Child (n : nat) (id : option string) (fresh : string)
  | Cancel (n : nat) (r : string)
  | Acquire (n : nat)
  | Release (l : nat)
  | Refresh (n : nat)  (** what [join] does to the store *)
  | Detach (n : nat).

Definition on_nodes (h : heap) (m : res (list node * nat)) : res heap :=
  r ← m; Ok (MkHeap r.1 (leases h)).

Definition perform (o : op) (h : heap) : res heap :=
  match o with
  | New id fresh => on_nodes h (CancellationNode_init id fresh None (nodes h))
  | Child n id fresh => on_nodes h (child n id fresh (nodes h))
  | Cancel n r => Ok (MkHeap (cancel n r (nodes h)).1 (leases h))
  | Acquire n => Ok (acquire n h).1
  | Release l => release l h
  | Refresh n => Ok (MkHeap (_refresh_quiescence n (nodes h)) (leases h))
  | Detach n => Ok (MkHeap (detach n (nodes h)) (leases h))
  end.

(** The objects a call names exist. *)
Definition names_exist (o : op) (h : heap) : Prop :=
  match o with
  | New _ _ => True
  | Child n _ _ | Cancel n _ | Acquire n | Refresh n | Detach n => (n < length (nodes h))%nat
  | Release l => (l < length (leases h))%nat
  end.

(** A call the client makes where [allowed]; one that raises leaves the store as it was. *)
Inductive step (allowed : op → heap → Prop) (h : heap) : heap → Prop :=
  | step_ok o h' : allowed o h → names_exist o h → perform o h = Ok h' → step allowed h h'
  | step_raise o e : allowed o h → names_exist o h → perform o h = Err e → step allowed h h.

Definition empty_heap : heap := MkHeap [] [].
Definition reachable (allowed : op → heap → Prop) : heap → Prop := rtc (step allowed) empty_heap.

(** Any client, and a client that does not start work in a scope already quiescent. *)
Definition any_use (o : op) (h : heap) : Prop := True.
Definition careful_use (o : op) (h : heap) : Prop :=
  match o with
  | Child n _ _ | Acquire n => is_quiescent (nodes h) n = false
  | _ => True
  end.

Lemma init_fresh id fresh p st :
  ∃ name, CancellationNode_init id fresh (Some p) st = _add_child p (fresh_node name (Some p)) st.
Proof. eexists. reflexivity. Qed.

Lemma perform_inv o h h' : inv h → names_exist o h → perform o h = Ok h' → inv h'.
Proof.
  destruct h as [st ls]. intros Hi Hn. destruct o as [id fr|n id fr|n r|n|l|n|n];
    cbn [perform names_exist nodes leases] in *.
  - intros H. unfold on_nodes in H. res_inv. apply inv_root; try done. apply fresh_flags.
  - intros H. unfold on_nodes, child in H. destruct (init_fresh id fr n st) as [name E].
    rewrite E in H. apply bind_ok in H as ([st' c] & H & [= <-]).
    by apply (inv_add_child _ ls) in H as (? & _ & _).
  - intros [= <-]. by apply inv_cancel.
  - intros [= <-]. by apply (inv_acquire n (MkHeap st ls)).
  - intros H. destruct (lookup_lt_is_Some_2 ls l Hn) as [x Hx].
    destruct (inv_release (MkHeap st ls) l x Hi Hx) as (h2 & H2 & ?).
    rewrite H2 in H. by injection H as <-.
  - intros [= <-]. by apply inv_refresh.
  - intros [= <-]. by apply inv_detach.
Qed.

Lemma empty_inv : inv empty_heap.
Proof. split; [split; try constructor; by intros|]. by intros m x ?. Qed.

Lemma reachable_ind_ok (P : heap → Prop) allowed :
  P empty_heap →
  (∀ o h h', allowed o h → names_exist o h → perform o h = Ok h' → P h → P h') →
  ∀ h, reachable allowed h → P h.
Proof. intros H0 Hs. apply rtc_ind_r; [done|]. intros h1 h2 _ [o h' ? ? ?|]; eauto. Qed.

Lemma reachable_inv allowed h : reachable allowed h → inv h.
Proof. apply reachable_ind_ok; [apply empty_inv|]. eauto using perform_inv. Qed.

(** Whatever a client does, the scopes stay a tree in which every child is newer than
    and points to its parent, status, reason and event agree, a cancelled scope has only
    cancelled children, and every counter equals the leases given out and not released; so
    releasing a lease, also twice, never raises. *)
Theorem cancellation_store_consistent h :
  reachable any_use h →
  inv h ∧ ∀ l, (l < length (leases h))%nat → is_ok (release l h) = true.
Proof.
  intros Hi%reachable_inv. split; [done|]. intros l [x Hx]%lookup_lt_is_Some_2.
  by destruct (inv_release h l x Hi Hx) as (h' & -> & _).
Qed.

(** C22: cancelling a scope cancels exactly its subtree: every scope below it that was not
    cancelled gets the reason, one cancelled earlier keeps its first reason, nothing else
    changes, and the call reports whether the scope itself changed. *)
Theorem cancel_reaches_subtree h n x r :
  reachable any_use h → nodes h !! n = Some x →
  let st' := (cancel n r (nodes h)).1 in
  (cancel n r (nodes h)).2 = negb (_cancel_event x)
  ∧ ∀ m y, nodes h !! m = Some y →
      (below (nodes h) n m → st' !! m = Some (if _cancel_event y then y else mark_cancelled r y))
      ∧ (¬ below (nodes h) n m → st' !! m = Some y).
Proof.
  intros [Hc Hcl]%reachable_inv Hx st'.
  pose proof (lookup_lt_Some _ _ _ Hx) as Hn. split.
  { unfold cancel. simpl. rewrite Hx. by destruct (_cancel_event x). }
  pose proof (cancel_fuel_changes (S (length (nodes h))) n r (nodes h)) as Hch.
  fold (cancel n r (nodes h)) in Hch. fold st' in Hch.
  destruct (cancel_fuel_spec (S (length (nodes h))) n r (nodes h)) as [Hev Hcl'];
    [apply Hc|done|lia|]. fold (cancel n r (nodes h)) in Hev, Hcl'. fold st' in Hev, Hcl'.
  intros m y Hy. split; intros Hb.
  - destruct (Forall2_lookup_l _ _ _ _ _ Hch Hy) as (y' & Hy' & Hr).
    assert (event_at st' m = true) as He.
    { eapply below_closed_event; [intros k; apply Hcl', Hcl|exact Hev|].
      eapply below_same_links; [|exact Hb]. by eapply may_cancel_same. }
    unfold event_at in He. rewrite Hy' in He |- *. destruct Hr as [->|[-> ->]]; [by rewrite He|done].
  - unfold st', cancel. by rewrite cancel_fuel_frame.
Qed.

(** ** Quiescence in careful runs *)

Lemma quiescent_event st m :
  (∀ k, quiet_at st k) → is_quiescent st m = true → event_at st m = true.
Proof.
  intros Hq Hm. unfold is_quiescent, event_at in *. destruct (st !! m) as [x|] eqn:Hx; [|done].
  to_prop. by apply (Hq m x).
Qed.

Lemma quiet_cancel r st st' :
  Forall2 (may_cancel r) st st' → (∀ m, quiet_at st m) → ∀ m, quiet_at st' m.
Proof.
  intros H Hq m x' Hx' Hs. destruct (Forall2_lookup_r _ _ _ _ _ H Hx') as (x & Hx & [->|[_ ->]]); [|done].
  destruct (Hq m x Hx Hs) as (? & ? & Hk). split_and!; [done..|].
  intros c Hc. specialize (Hk c Hc). pose proof (quiescent_event st c Hq Hk) as He.
  unfold is_quiescent, event_at in *. destruct (st !! c) as [y|] eqn:Hy; [|done].
  destruct (Forall2_lookup_l _ _ _ _ _ H Hy) as (y' & -> & [->|[? _]]); [done|congruence].
Qed.

Lemma quiet_root st x : _status x = ACTIVE → (∀ m, quiet_at st m) → ∀ m, quiet_at (st ++ [x]) m.
Proof.
  intros Hx Hq m y [Hy|[-> <-]]%lookup_grow Hs; [|congruence].
  destruct (Hq m y Hy Hs) as (? & ? & Hk). split_and!; [done..|].
  intros c Hc. specialize (Hk c Hc). unfold is_quiescent in *.
  destruct (st !! c) as [z|] eqn:Hz; [|done]. by rewrite (proj2 (lookup_grow st x c z) (or_introl Hz)).
Qed.

Lemma is_quiescent_added st p x name c :
  st !! p = Some x → is_quiescent st c = true →
  is_quiescent (alter (set_children (_children x ++ [(name, length st)])) p
                  (st ++ [fresh_node name (Some p)])) c = true.
Proof.
  intros Hx. unfold is_quiescent. destruct (st !! c) as [y|] eqn:Hy; [|done]. intros Hs.
  destruct (decide (c = p)) as [->|Hne].
  - erewrite (proj2 (lookup_added st p x name Hx p _)); [|by left]. by simplify_eq.
  - erewrite (proj2 (lookup_added st p x name Hx c y)); [done|]. auto.
Qed.

Lemma quiet_add_child st p name st' c :
  (∀ m, quiet_at st m) → is_quiescent st p = false →
  _add_child p (fresh_node name (Some p)) st = Ok (st', c) → ∀ m, quiet_at st' m.
Proof.
  intros Hq Hp. unfold _add_child. destruct (st !! p) as [x|] eqn:Hx; [|done]. intros H.
  apply bind_ok in H as (_ & _ & H). cbn [node_id fresh_node] in H.
  set (st1 := alter _ p _) in H.
  assert (∀ m, quiet_at st1 m) as Hq1.
  { intros m y Hy Hs. apply (lookup_added st p x name Hx) in Hy as [[-> ->]|[[_ Hy]|[-> ->]]]; [|..|done].
    - unfold is_quiescent in Hp. rewrite Hx in Hp. to_prop. done.
    - destruct (Hq m y Hy Hs) as (? & ? & Hk). split_and!; [done..|].
      intros d Hd. by apply is_quiescent_added, Hk. }
  destruct (if _cancel_event x then _reason x else None); simplify_eq; [|done].
  eapply quiet_cancel; [apply cancel_fuel_changes|done].
Qed.

Lemma quiet_leases (f : node → Z) n st :
  is_quiescent st n = false → (∀ m, quiet_at st m) →
  ∀ m, quiet_at (alter (λ x, set_leases (f x) x) n st) m.
Proof.
  intros Hn Hq m y Hy Hs.
  assert (∀ c, is_quiescent (alter (λ x, set_leases (f x) x) n st) c = is_quiescent st c) as Heq.
  { intros c. unfold is_quiescent. destruct (decide (c = n)) as [->|Hne].
    - rewrite list_lookup_alter_eq. by destruct (st !! n).
    - by rewrite list_lookup_alter_ne. }
  setoid_rewrite Heq. destruct (decide (m = n)) as [->|Hne].
  - unfold is_quiescent in Hn. rewrite list_lookup_alter_eq in Hy.
    destruct (st !! n) as [x|]; [|done]. simpl in Hy. simplify_eq. by to_prop.
  - rewrite list_lookup_alter_ne in Hy by done. exact (Hq m y Hy Hs).
Qed.

Lemma quiet_forget keep st p :
  (∀ m, quiet_at st m) →
  ∀ m, quiet_at (alter (λ y, set_children (List.filter keep (_children y)) y) p st) m.
Proof.
  intros Hq m y (x & Hx & _ & _ & Hl & Hst & _ & He & Hsub)%lookup_forget Hs.
  rewrite Hst in Hs. destruct (Hq m x Hx Hs) as (? & ? & Hk). split_and!; [congruence..|].
  intros c Hc. specialize (Hk c (sublist_subseteq _ _ (fmap_sublist snd _ _ Hsub) c Hc)).
  unfold is_quiescent in *. destruct (st !! c) as [z|] eqn:Hz; [|done].
  destruct (lookup_forget_ex keep st p c z Hz) as (z' & -> & _ & _ & -> & _). done.
Qed.

Lemma perform_quiet o h h' :
  inv h → careful_use o h → names_exist o h → perform o h = Ok h' →
  (∀ m, quiet_at (nodes h) m) → ∀ m, quiet_at (nodes h') m.
Proof.
  destruct h as [st ls]. intros Hi Hu Hn. destruct o as [id fr|n id fr|n r|n|l|n|n];
    cbn [perform names_exist careful_use nodes leases] in *.
  - intros H Hq. unfold on_nodes in H. res_inv. by apply quiet_root.
  - intros H Hq. unfold on_nodes, child in H. destruct (init_fresh id fr n st) as [name E].
    rewrite E in H. apply bind_ok in H as ([st' c] & H & [= <-]).
    by eapply quiet_add_child.
  - intros [= <-] Hq. eapply quiet_cancel; [apply cancel_fuel_changes|done].
  - intros [= <-] Hq. by apply (quiet_leases (λ x, _active_leases x + 1)).
  - unfold release. cbn [nodes leases]. destruct (ls !! l) as [x|] eqn:Hl; [|done].
    destruct (_released x) eqn:Hr; [by intros [= <-]|].
    unfold _release_lease. destruct (st !! _node x) as [y|] eqn:Hy; [|done].
    intros H Hq. apply bind_ok in H as (st' & H & [= <-]). apply bind_ok in H as (u & H0 & [= <-]).
    apply require_ok in H0. to_prop. apply refresh_quiet.
    apply (quiet_leases (λ x, _active_leases x - 1)); [|done].
    unfold is_quiescent. rewrite Hy. apply bool_decide_eq_false. intros Hs.
    by destruct (Hq _ _ Hy Hs) as (_ & ? & _).
  - intros [= <-] Hq. by apply refresh_quiet.
  - intros [= <-] Hq. simpl. unfold detach. destruct (st !! n) as [x|]; [|done].
    destruct (_parent x) as [p|]; [|done]. apply refresh_quiet. by apply quiet_forget.
Qed.

Lemma careful_quiet h : reachable careful_use h → inv h ∧ ∀ m, quiet_at (nodes h) m.
Proof.
  revert h. apply reachable_ind_ok; [split; [apply empty_inv|]; by intros m x ?|].
  intros o h1 h2 Hu Hn Ho [Hi Hq]. split; [by eapply perform_inv|by eapply perform_quiet].
Qed.

(** As long as no work is started in a scope that is already quiescent, waiting tells
    the truth: [join] returns at once exactly when the scope and everything below it is
    cancelled and holds no lease, and otherwise it keeps waiting. *)
Theorem join_iff_drained h n timeout start :
  reachable careful_use h → (n < length (nodes h))%nat →
  ((join timeout start n (nodes h) []).1 = Some true ↔ drained (nodes h) n)
  ∧ ((join timeout start n (nodes h) []).1 = None ↔ ¬ drained (nodes h) n).
Proof.
  intros [Hi Hq]%careful_quiet Hn.
  assert (is_quiescent (_refresh_quiescence n (nodes h)) n = true ↔ drained (nodes h) n) as Hiff.
  { split; [|by apply refresh_complete; [apply Hi|]]. intros Hs.
    apply quiet_drained in Hs; [|by apply refresh_quiet].
    intros m x Hb Hx. pose proof (refresh_changes n (nodes h)) as Hch.
    destruct (Forall2_lookup_l _ _ _ _ _ Hch Hx) as (x' & Hx' & Hr).
    assert (below (_refresh_quiescence n (nodes h)) n m) as Hb'
      by (eapply below_same_links; [by apply may_settle_same|done]).
    destruct (Hs m x' Hb' Hx'). destruct Hr as [->|(? & ? & ->)]; done. }
  unfold join. simpl. destruct (is_quiescent _ n); simpl; rewrite <-Hiff; naive_solver.
Qed.

(** Cancellation completes: after cancelling a scope no lease of whose subtree is
    outstanding, [join] returns at once, in every state a client can reach. *)
Theorem cancel_then_join h n r timeout start wakes :
  reachable any_use h → (n < length (nodes h))%nat →
  (∀ m, below (nodes h) n m → outstanding (leases h) m = 0) →
  (join timeout start n (cancel n r (nodes h)).1 wakes).1 = Some true.
Proof.
  intros Hi%reachable_inv Hn Hout. destruct h as [st ls]; simpl in *.
  pose proof (inv_cancel st ls n r Hi Hn) as [Hc' Hcl'].
  pose proof (cancel_fuel_changes (S (length st)) n r st) as Hch.
  fold (cancel n r st) in Hch.
  assert (event_at (cancel n r st).1 n = true) as Hev
    by (apply cancel_fuel_spec; [apply Hi|done|lia]).
  assert (drained (cancel n r st).1 n) as Hd.
  { intros m x Hb Hx. pose proof (below_closed_event _ _ _ Hcl' Hev Hb) as He. split.
    - unfold event_at in He. simpl in *. by rewrite Hx in He.
    - rewrite (core_count _ Hc' m x Hx). apply Hout.
      eapply below_same_links; [symmetry; by eapply may_cancel_same|done]. }
  assert (is_quiescent (_refresh_quiescence n (cancel n r st).1) n = true) as Hq.
  { apply refresh_complete; [apply Hc'| |done]. by rewrite <-(Forall2_length _ _ _ Hch). }
  unfold join. destruct wakes as [|[? ?] ?]; simpl; by rewrite Hq.
Qed.

(** ** Interleavings

    [cancel] and [_add_child] take a lock per node and give it up before they call the
    children, so two threads may interleave between these critical sections.  A pending
    call is a node still to be cancelled; the threads' calls are kept in one collection
    from which any may run next. *)
Module Sections.

Record config := MkConfig { store : list node; pending : list (nat * string) }.

(** The locked part of [cancel], and the calls it leaves to make. *)
Definition cancel_section (n : nat) (r : string) (st : list node)
  : list node * list (nat * string) :=
  match st !! n with
  | Some x =>
      if _cancel_event x then (st, [])
      else (alter (mark_cancelled r) n st, (λ c, (c, r)) <$> child_nodes x)
  | None => (st, [])
  end.

(** The locked part of [_add_child] on a fresh node, and the call it leaves to make. *)
Definition add_child_section (p : nat) (name : string) (st : list node)
  : option (list node * list (nat * string)) :=
  match st !! p with
  | Some x =>
      if mem name (_children x).*1 then None
      else Some (alter (set_children (_children x ++ [(name, length st)])) p
                   (st ++ [fresh_node name (Some p)]),
                 match (if _cancel_event x then _reason x else None) with
                 | Some r => [(length st, r)]
                 | None => []
                 end)
  | None => None
  end.

Inductive sched : config → config → Prop :=
  | sched_root st q name :
      sched (MkConfig st q) (MkConfig (st ++ [fresh_node name None]) q)
  | sched_request st q n r :
      (n < length st)%nat → sched (MkConfig st q) (MkConfig st ((n, r) :: q))
  | sched_cancel st q1 q2 n r st' more :
      cancel_section n r st = (st', more) →
      sched (MkConfig st (q1 ++ (n, r) :: q2)) (MkConfig st' (q1 ++ q2 ++ more))
  | sched_child st q p name st' more :
      add_child_section p name st = Some (st', more) →
      sched (MkConfig st q) (MkConfig st' (q ++ more)).

(** Every child of a cancelled scope is cancelled or has a pending call. *)
Definition covered (c : config) : Prop :=
  ∀ n x k, store c !! n = Some x → _cancel_event x = true → k ∈ child_nodes x →
    event_at (store c) k = true ∨ k ∈ (pending c).*1.

Definition tidy (c : config) : Prop :=
  wf (store c) ∧ Forall flags_ok (store c) ∧ covered c.

Lemma cancel_section_changes n r st : Forall2 (may_cancel r) st (cancel_section n r st).1.
Proof.
  unfold cancel_section. destruct (st !! n) as [x|] eqn:Hx; [|done].
  destruct (_cancel_event x) eqn:He; [done|]. apply alter_Forall2; [apply _|].
  intros y Hy. right. by simplify_eq.
Qed.

(** The locked part leaves the node cancelled and a call for each of its children. *)
Lemma cancel_section_leaves n r st x :
  st !! n = Some x → event_at (cancel_section n r st).1 n = true
  ∧ (_cancel_event x = true ∨ ∀ k, k ∈ child_nodes x → k ∈ (cancel_section n r st).2.*1).
Proof.
  intros Hx. unfold cancel_section, event_at. rewrite Hx. destruct (_cancel_event x) eqn:He; simpl.
  - rewrite Hx. auto.
  - rewrite list_lookup_alter_eq, Hx. split; [done|]. right. intros k Hk.
    rewrite <-list_fmap_compose. change (k ∈ (λ c, c) <$> child_nodes x). by rewrite list_fmap_id.
Qed.

Lemma cancel_section_other n r st m :
  m ≠ n → event_at (cancel_section n r st).1 m = event_at st m.
Proof.
  intros Hm. unfold cancel_section. destruct (st !! n) as [x|]; [|done].
  destruct (_cancel_event x); [done|]. by apply event_at_alter.
Qed.

Lemma tidy_root st q name :
  tidy (MkConfig st q) → tidy (MkConfig (st ++ [fresh_node name None]) q).
Proof.
  intros (Hwf & Hfl & Hcov). split_and!; simpl in *.
  - by apply wf_root.
  - apply Forall_app. split; [done|]. constructor; [apply fresh_flags|done].
  - intros n x k [Hx|[-> <-]]%lookup_grow He Hk; [|done].
    destruct (Hcov n x k Hx He Hk) as [?|?]; [left; by apply event_grow|by right].
Qed.

Lemma tidy_cancel st q1 q2 n r :
  tidy (MkConfig st (q1 ++ (n, r) :: q2)) →
  tidy (MkConfig (cancel_section n r st).1 (q1 ++ q2 ++ (cancel_section n r st).2)).
Proof.
  intros (Hwf & Hfl & Hcov). pose proof (cancel_section_changes n r st) as Hch.
  split_and!; simpl in *; [by eapply may_cancel_wf| |].
  - apply Forall_lookup_2. intros i y' Hy'.
    destruct (Forall2_lookup_r _ _ _ _ _ Hch Hy') as (y & Hy & Hr).
    eapply may_cancel_keeps; [exact Hr|]. exact (Forall_lookup_1 _ _ _ _ Hfl Hy).
  - intros m x' k Hx' He Hk. simpl in *.
    destruct (Forall2_lookup_r _ _ _ _ _ Hch Hx') as (x & Hx & Hr).
    assert (child_nodes x' = child_nodes x) as Hkids by (by destruct Hr as [->|[_ ->]]).
    rewrite Hkids in Hk. rewrite !fmap_app, !elem_of_app. destruct (_cancel_event x) eqn:Hex.
    + destruct (Hcov m x k Hx Hex Hk) as [?|Hin]; [left; by eapply cancel_event_mono|].
      simpl in Hin. rewrite fmap_app, fmap_cons, elem_of_app, elem_of_cons in Hin. simpl in Hin.
      destruct Hin as [?|[->|?]]; [tauto| |tauto]. left.
      destruct (wf_child st m x n Hwf Hx Hk) as (_ & z & Hz & _).
      by apply (cancel_section_leaves n r st z).
    + right. assert (m = n) as ->.
      { destruct (decide (m = n)) as [->|Hne]; [done|]. exfalso.
        pose proof (cancel_section_other n r st m Hne) as Heq. unfold event_at in Heq.
        rewrite Hx, Hx' in Heq. congruence. }
      pose proof (cancel_section_leaves n r st x Hx) as [_ [?|Hl]]; [congruence|]. auto.
Qed.

Lemma tidy_child st q p name st' more :
  add_child_section p name st = Some (st', more) →
  tidy (MkConfig st q) → tidy (MkConfig st' (q ++ more)).
Proof.
  unfold add_child_section. destruct (st !! p) as [x|] eqn:Hx; [|done].
  destruct (mem name (_children x).*1) eqn:Hmem; [done|]. to_prop.
  intros [= <- <-] (Hwf & Hfl & Hcov).
  split_and!; simpl in *; [by apply wf_added|by apply flags_added|].
  intros m y k Hy He Hk. simpl in *. rewrite fmap_app, elem_of_app.
  apply (lookup_added st p x name Hx) in Hy as [[-> ->]|[[_ Hy]|[-> ->]]]; [| |done].
  - simpl in He. unfold child_nodes in Hk. simpl in Hk. rewrite fmap_app, elem_of_app in Hk.
    destruct Hk as [Hk|Hk].
    + destruct (Hcov p x k Hx He Hk); [left; by apply event_added|auto].
    + right; right. apply list_elem_of_singleton in Hk as ->. rewrite He.
      destruct (Forall_lookup_1 _ _ _ _ Hfl Hx) as [_ Hr]. destruct (proj2 Hr He) as [r ->].
      by left.
  - destruct (Hcov m y k Hy He Hk); [left; by apply event_added|auto].
Qed.

Lemma sched_tidy c c' : sched c c' → tidy c → tidy c'.
Proof.
  intros [st q name|st q n r Hn|st q1 q2 n r st' more Hsec|st q p name st' more Hsec] Ht.
  - by apply tidy_root.
  - destruct Ht as (? & ? & Hcov). split_and!; [done..|]. intros m x k Hx He Hk.
    destruct (Hcov m x k Hx He Hk); [by left|right; by right].
  - apply tidy_cancel in Ht. by rewrite Hsec in Ht.
  - by eapply tidy_child.
Qed.

Lemma run_tidy c : rtc sched (MkConfig [] []) c → tidy c.
Proof.
  revert c. apply rtc_ind_r; [|eauto using sched_tidy].
  split_and!; [by intros ? ? ?|constructor|by intros ? ? ? ?].
Qed.

(** No cancellation is lost between threads: however the critical sections of
    cancelling and of adding children interleave, once no call is pending every scope
    below a cancelled one is cancelled. *)
Theorem interleaved_cancel_reaches_all c n m :
  rtc sched (MkConfig [] []) c → pending c = [] →
  event_at (store c) n = true → below (store c) n m → event_at (store c) m = true.
Proof.
  intros (_ & _ & Hcov)%run_tidy Hnil Hn Hb.
  eapply below_closed_event; [|exact Hn|exact Hb].
  intros k x Hx He c' Hc'. destruct (Hcov k x c' Hx He Hc') as [?|Hin]; [done|].
  rewrite Hnil in Hin. by apply elem_of_nil in Hin.
Qed.

End Sections.

(** ** Examples *)

(** The store after a sequence of calls, those that raise changing nothing. *)
Definition after (ops : list op) : heap :=
  foldl (λ h o, match perform o h with Ok h' => h' | Err _ => h end) empty_heap ops.

Lemma after_step allowed ops o :
  reachable allowed (after ops) → allowed o (after ops) → names_exist o (after ops) →
  reachable allowed (after (ops ++ [o])).
Proof.
  intros Hr Ha Hn. unfold after in *. rewrite foldl_app. simpl.
  eapply rtc_r; [exact Hr|].
  destruct (perform o _) as [h'|e] eqn:E; [by eapply step_ok|by eapply step_raise].
Qed.

(** A session with one worker scope, which holds a lease while the session is cancelled. *)
Definition session : list op :=
  [New None "root"; Child 0 (Some "worker") "x"; Acquire 1; Cancel 0 "stop"].

Ltac after_tac :=
  repeat first
    [ apply rtc_refl
    | match goal with |- reachable ?P (after ?l) =>
        let n := eval compute in (pred (length l)) in
        let l1 := eval compute in (take n l) in
        let l2 := eval compute in (drop n l) in
        match l2 with
        | [?o] => apply (after_step P l1 o); [|first [exact I|vm_compute; reflexivity]
                                              |first [exact I|vm_compute; lia]]
        | [] => apply rtc_refl
        end end ].

Lemma cancellation_store_consistent_witness :
  outstanding (leases (after session)) 1 = 1 ∧ is_ok (release 0 (after session)) = true.
Proof.
  split; [vm_compute; reflexivity|].
  refine (proj2 (cancellation_store_consistent (after session) _) 0%nat _);
    [unfold session; after_tac|vm_compute; lia].
Defined.

Lemma cancel_reaches_subtree_witness :
  (cancel 0 "stop" (nodes (after (take 3 session)))).2 = true
  ∧ below (nodes (after (take 3 session))) 0 1
  ∧ event_at (cancel 0 "stop" (nodes (after (take 3 session)))).1 1 = true.
Proof.
  assert (below (nodes (after (take 3 session))) 0 1) as Hb.
  { eapply below_child; [apply below_self|vm_compute; reflexivity|].
    vm_compute. apply elem_of_cons. left. reflexivity. }
  assert (reachable any_use (after (take 3 session))) as Hr
    by (change (take 3 session) with [New None "root"; Child 0 (Some "worker") "x"; Acquire 1];
        after_tac).
  destruct (cancel_reaches_subtree (after (take 3 session)) 0
    (MkNode "root" None [("worker", 1%nat)] 0 ACTIVE None false) "stop" Hr
    ltac:(vm_compute; reflexivity)) as [H1 H2].
  split; [exact H1|]. split; [exact Hb|].
  destruct (H2 1%nat (MkNode "worker" (Some 0%nat) [] 1 ACTIVE None false)
    ltac:(vm_compute; reflexivity)) as [H3 _].
  unfold event_at. rewrite (H3 Hb). reflexivity.
Defined.

Lemma join_iff_drained_witness :
  (join None (S754_zero false) 0 (nodes (after session)) []).1 = None
  ∧ ¬ drained (nodes (after session)) 0.
Proof.
  assert ((join None (S754_zero false) 0 (nodes (after session)) []).1 = None) as H
    by (vm_compute; reflexivity).
  split; [exact H|].
  refine (proj1 (proj2 (join_iff_drained (after session) 0 None (S754_zero false) _ _)) H);
    [unfold session; after_tac|vm_compute; lia].
Defined.

Lemma cancel_then_join_witness :
  (join None (S754_zero false) 0
     (cancel 0 "stop" (nodes (after (take 2 session)))).1 []).1 = Some true.
Proof.
  refine (cancel_then_join (after (take 2 session)) 0 "stop" None (S754_zero false) [] _ _ _).
  - change (take 2 session) with [New None "root"; Child 0 (Some "worker") "x"]. after_tac.
  - vm_compute. lia.
  - intros m _. vm_compute. reflexivity.
Defined.

Lemma interleaved_cancel_reaches_all_witness :
  ∃ c, rtc Sections.sched (Sections.MkConfig [] []) c ∧ Sections.pending c = []
    ∧ below (Sections.store c) 0 1 ∧ event_at (Sections.store c) 1 = true.
Proof.
  assert (∃ c, rtc Sections.sched (Sections.MkConfig [] []) c ∧ Sections.pending c = []
    ∧ event_at (Sections.store c) 0 = true ∧ below (Sections.store c) 0 1) as (c & Hr & Hp & He & Hb).
  { eexists. split.
    - eapply rtc_l; [apply Sections.sched_root with (name := "root")|].
      eapply rtc_l; [apply Sections.sched_request with (n := 0%nat) (r := "stop"); simpl; lia|].
      eapply rtc_l; [eapply (Sections.sched_cancel _ [] []); reflexivity|].
      eapply rtc_l; [eapply Sections.sched_child with (p := 0%nat) (name := "late"); reflexivity|].
      eapply rtc_l; [eapply (Sections.sched_cancel _ [] []); reflexivity|]. apply rtc_refl.
    - split; [reflexivity|]. split; [reflexivity|].
      eapply below_child; [apply below_self|reflexivity|]. vm_compute. apply elem_of_cons. by left. }
  exists c. split; [exact Hr|]. split; [exact Hp|]. split; [exact Hb|].
  exact (Sections.interleaved_cancel_reaches_all c 0 1 Hr Hp He Hb).
Defined.

(** Work started in a scope that is already quiescent is not seen: the scope still reports
    [QUIESCENT] and [join] returns although a lease is held. *)
Lemma late_lease_unseen :
  let h := after (session ++ [Release 0; Acquire 1]) in
  reachable any_use h
  ∧ snapshot 1 (nodes h) = Some (MkSnapshot "worker" QUIESCENT (Some "stop") 1)
  ∧ (join None (S754_zero false) 0 (nodes h) []).1 = Some true.
Proof.
  split; [|split; vm_compute; reflexivity].
  change (session ++ [Release 0; Acquire 1]) with
    [New None "root"; Child 0 (Some "worker") "x"; Acquire 1; Cancel 0 "stop"; Release 0; Acquire 1].
  after_tac.
Qed.
