(* ===== verification/CircuitBreaker.v ===== *)
(** [domain/circuit_breaker.py]: the breaker's state machine.

    Times and configuration values are binary64 numbers; the clock reading of a call
    is an argument.  [breaker_step] is one call of the client, [reachable] what any
    sequence of calls with any clock readings leads to. *)
From S2P Require Import Prelude PyFloat.

Local Open Scope Z_scope.

Inductive BreakerState := CLOSED | OPEN | HALF_OPEN.
#[export] Instance BreakerState_eq_dec : EqDecision BreakerState.
Proof. solve_decision. Defined.

Record BreakerConfig := MkConfig {
  failure_threshold : Z;
  window_seconds : spec_float;
  recovery_seconds : spec_float;
  max_recovery_seconds : spec_float;
  recovery_multiplier : spec_float;
  half_open_max_probes : Z
}.

Definition default_config : BreakerConfig :=
  MkConfig 5 (f64_of_Z 60) (f64_of_Z 30) (f64_of_Z 300) (f64_of_Z 2) 1.

Record BreakerSnapshot := MkSnapshot {
  snap_state : BreakerState;
  snap_failure_count : Z;
  snap_success_count : Z;
  snap_consecutive_failures : Z;
  snap_trip_count : Z;
  snap_last_failure_ts : option spec_float;
  snap_recovery_deadline : option spec_float
}.

Record CircuitBreaker := MkBreaker {
  _cfg : BreakerConfig;
  _state : BreakerState;
  _failures : list spec_float;
  _consecutive_failures : Z;
  _success_count : Z;
  _trip_count : Z;
  _last_failure_ts : option spec_float;
  _recovery_deadline : option spec_float;
  _current_recovery : spec_float;
  _half_open_probes : Z
}.

Definition CircuitBreaker_init (config : option BreakerConfig) : CircuitBreaker :=
  let cfg := default default_config config in
  MkBreaker cfg CLOSED [] 0 0 0 None None (recovery_seconds cfg) 0.

(** [ts >= self._recovery_deadline] once a deadline is set. *)
Definition recovery_due (b : CircuitBreaker) (ts : spec_float) : bool :=
  match _recovery_deadline b with Some d => f64_leb d ts | None => false end.

Definition before_call (ts : spec_float) (b : CircuitBreaker) : CircuitBreaker * bool :=
  match _state b with
  | CLOSED => (b, true)
  | OPEN =>
      if recovery_due b ts then
        (MkBreaker (_cfg b) HALF_OPEN (_failures b) (_consecutive_failures b) (_success_count b)
           (_trip_count b) (_last_failure_ts b) (_recovery_deadline b) (_current_recovery b) 0,
         true)
      else (b, false)
  | HALF_OPEN => (b, _half_open_probes b <? half_open_max_probes (_cfg b))
  end.

Definition record_success (b : CircuitBreaker) : CircuitBreaker * BreakerState :=
  let n := _success_count b + 1 in
  let b' :=
    match _state b with
    | HALF_OPEN =>
        MkBreaker (_cfg b) CLOSED [] 0 n (_trip_count b) (_last_failure_ts b) None
          (recovery_seconds (_cfg b)) 0
    | CLOSED =>
        MkBreaker (_cfg b) CLOSED (_failures b) 0 n (_trip_count b) (_last_failure_ts b)
          (_recovery_deadline b) (_current_recovery b) (_half_open_probes b)
    | OPEN =>
        MkBreaker (_cfg b) OPEN (_failures b) (_consecutive_failures b) n (_trip_count b)
          (_last_failure_ts b) (_recovery_deadline b) (_current_recovery b) (_half_open_probes b)
    end in
  (b', _state b').

Definition _trip (ts : spec_float) (b : CircuitBreaker) : CircuitBreaker :=
  MkBreaker (_cfg b) OPEN (_failures b) (_consecutive_failures b) (_success_count b)
    (_trip_count b + 1) (_last_failure_ts b) (Some (f64_add ts (_current_recovery b)))
    (f64_min (f64_mul (_current_recovery b) (recovery_multiplier (_cfg b)))
       (max_recovery_seconds (_cfg b)))
    (_half_open_probes b).

(** [[t for t in failures if t > ts - window_seconds]] *)
Definition within_window (cfg : BreakerConfig) (ts : spec_float) (l : list spec_float)
  : list spec_float :=
  let cutoff := f64_sub ts (window_seconds cfg) in
  List.filter (λ t, f64_ltb cutoff t) l.

Definition record_failure (ts : spec_float) (b : CircuitBreaker) : CircuitBreaker * BreakerState :=
  let noted failures probes :=
    MkBreaker (_cfg b) (_state b) failures (_consecutive_failures b + 1) (_success_count b)
      (_trip_count b) (Some ts) (_recovery_deadline b) (_current_recovery b) probes in
  let b' :=
    match _state b with
    | HALF_OPEN => _trip ts (noted (_failures b) (_half_open_probes b + 1))
    | CLOSED =>
        let failures := within_window (_cfg b) ts (_failures b ++ [ts]) in
        let b1 := noted failures (_half_open_probes b) in
        if failure_threshold (_cfg b) <=? zlen failures then _trip ts b1 else b1
    | OPEN => noted (_failures b) (_half_open_probes b)
    end in
  (b', _state b').

Definition reset (b : CircuitBreaker) : CircuitBreaker :=
  MkBreaker (_cfg b) CLOSED [] 0 (_success_count b) (_trip_count b) (_last_failure_ts b) None
    (recovery_seconds (_cfg b)) 0.

Definition snapshot (b : CircuitBreaker) : BreakerSnapshot :=
  MkSnapshot (_state b) (zlen (_failures b)) (_success_count b) (_consecutive_failures b)
    (_trip_count b) (_last_failure_ts b) (_recovery_deadline b).

(** ** Runs *)

Inductive event := Before (ts : spec_float) | Success | Failure (ts : spec_float) | Reset.

Definition breaker_step (b : CircuitBreaker) (e : event) : CircuitBreaker :=
  match e with
  | Before ts => (before_call ts b).1
  | Success => (record_success b).1
  | Failure ts => (record_failure ts b).1
  | Reset => reset b
  end.

Definition run (b : CircuitBreaker) (es : list event) : CircuitBreaker := foldl breaker_step b es.

(** Closed: fewer failures than the threshold are remembered, the recovery time is the
    configured one.  Open: a deadline is set.  Half open: no probe is counted. *)
Record breaker_ok (b : CircuitBreaker) : Prop := {
  ok_closed : _state b = CLOSED →
    (1 <= failure_threshold (_cfg b) → zlen (_failures b) < failure_threshold (_cfg b))
    ∧ _recovery_deadline b = None ∧ _current_recovery b = recovery_seconds (_cfg b)
    ∧ _half_open_probes b = 0;
  ok_open : _state b ≠ CLOSED → is_Some (_recovery_deadline b);
  ok_half_open : _state b = HALF_OPEN → _half_open_probes b = 0;
  ok_counts : 0 <= _trip_count b ∧ 0 <= _success_count b ∧ 0 <= _consecutive_failures b
}.

Lemma trip_ok ts b :
  0 <= _trip_count b → 0 <= _success_count b → 0 <= _consecutive_failures b →
  breaker_ok (_trip ts b).
Proof. intros. split; simpl; [done|by eexists|done|lia]. Qed.

Lemma step_cfg b e : _cfg (breaker_step b e) = _cfg b.
Proof.
  destruct e as [ts| |ts|]; simpl; [| | |done].
  - unfold before_call. destruct (_state b); [done| |done]. by destruct (recovery_due b ts).
  - unfold record_success. by destruct (_state b).
  - unfold record_failure. destruct (_state b); simpl; [|done..]. by destruct (_ <=? _).
Qed.

Lemma step_ok b e : breaker_ok b → breaker_ok (breaker_step b e).
Proof.
  intros Hb. pose proof Hb as [H1 H2 H3 (H4 & H5 & H6)]. destruct e as [ts| |ts|]; simpl.
  - unfold before_call. destruct (_state b) eqn:Hs; [done| |done].
    destruct (recovery_due b ts); [|done].
    split; simpl; [done|by intros; apply H2|done|lia].
  - unfold record_success. destruct (_state b) eqn:Hs; simpl.
    + split; simpl; [auto|done|done|lia].
    + split; simpl; [done|auto|done|lia].
    + split; simpl; [|done|done|lia]. intros _. split_and!; [unfold zlen; simpl; lia|done..].
  - unfold record_failure. destruct (_state b) eqn:Hs; simpl.
    + destruct (Z.leb_spec (failure_threshold (_cfg b))
        (zlen (within_window (_cfg b) ts (_failures b ++ [ts])))); simpl.
      * apply trip_ok; simpl; lia.
      * split; simpl; rewrite ?Hs; [|done|done|lia]. intros _.
        destruct (H1 eq_refl) as (_ & ? & ? & ?). by split_and!.
    + split; simpl; rewrite ?Hs; [done|auto|done|lia].
    + apply trip_ok; simpl; lia.
  - split; simpl; [|done|done|lia]. intros _. split_and!; [unfold zlen; simpl; lia|done..].
Qed.

Lemma init_ok config : breaker_ok (CircuitBreaker_init config).
Proof.
  split; simpl; [|done|done|lia]. intros _. split_and!; [unfold zlen; simpl; lia|done..].
Qed.

Lemma breaker_run_ok b es : breaker_ok b → breaker_ok (run b es) ∧ _cfg (run b es) = _cfg b.
Proof.
  revert b; induction es as [|e es IH]; intros b Hb; [done|]. simpl.
  destruct (IH (breaker_step b e) (step_ok b e Hb)) as [? Hc]. split; [done|].
  by rewrite Hc, step_cfg.
Qed.

(** In every state a breaker can reach, a call is refused exactly while the breaker
    is open and its recovery deadline, which is always set then, has not passed (or, half
    open, when no probes are configured at all); a closed breaker remembers fewer failures
    than the threshold. *)
Theorem breaker_refuses_iff config es ts :
  let b := run (CircuitBreaker_init config) es in
  ((before_call ts b).2 = false ↔
     (_state b = OPEN ∧ ∃ d, _recovery_deadline b = Some d ∧ f64_leb d ts = false)
     ∨ (_state b = HALF_OPEN ∧ half_open_max_probes (default default_config config) <= 0))
  ∧ (_state b = CLOSED → 1 <= failure_threshold (default default_config config) →
     zlen (_failures b) < failure_threshold (default default_config config)).
Proof.
  intros b. destruct (breaker_run_ok (CircuitBreaker_init config) es (init_ok config)) as [[H1 H2 H3 _] Hc].
  fold b in H1, H2, H3, Hc. simpl in Hc. rewrite Hc in H1.
  split; [|naive_solver]. unfold before_call. destruct (_state b) eqn:Hs; simpl.
  - split; [done|]. by intros [[? _]|[? _]].
  - destruct (H2 ltac:(done)) as [d Hd]. unfold recovery_due. rewrite Hd.
    destruct (f64_leb d ts) eqn:E; simpl; split; try done.
    + intros [(_ & d' & [= <-] & ?)|[? _]]; congruence.
    + intros _. left. eauto.
  - rewrite (H3 eq_refl), Hc.
    destruct (Z.ltb_spec 0 (half_open_max_probes (default default_config config))); split; try done.
    + intros [[? _]|[_ ?]]; [done|lia].
    + intros _. right. split; [done|lia].
Qed.

(** The half-open state admits every caller, not a single probe: the probe counter is
    zero whenever the breaker is half open, so with any positive number of configured
    probes no call is refused there, however many are already in flight. *)
Theorem half_open_admits_every_call config es n ts :
  let b := run (CircuitBreaker_init config) es in
  _state b = HALF_OPEN → 1 <= half_open_max_probes (default default_config config) →
  run b (replicate n (Before ts)) = b ∧ (before_call ts b).2 = true.
Proof.
  intros b Hs Hp. destruct (breaker_run_ok (CircuitBreaker_init config) es (init_ok config)) as [[_ _ H3 _] Hc].
  fold b in H3, Hc. simpl in Hc.
  assert (before_call ts b = (b, true)) as Hb.
  { unfold before_call. rewrite Hs, (H3 Hs), Hc. f_equal. apply Z.ltb_lt; lia. }
  split; [|by rewrite Hb]. induction n as [|n IH]; [done|]. simpl. by rewrite Hb.
Qed.

(** A trip happens exactly when a probe fails or when, closed, the failures inside the
    window reach the threshold; it opens the breaker until the current recovery time has
    passed and then lengthens that time by the multiplier, never beyond the maximum. *)
Theorem record_failure_trips_iff ts b :
  max_recovery_seconds (_cfg b) ≠ S754_nan →
  let b' := (record_failure ts b).1 in
  (_trip_count b' = _trip_count b + 1 ↔
     _state b = HALF_OPEN
     ∨ _state b = CLOSED
       ∧ failure_threshold (_cfg b) <= zlen (within_window (_cfg b) ts (_failures b ++ [ts])))
  ∧ (_trip_count b' = _trip_count b + 1 →
       _state b' = OPEN
       ∧ _recovery_deadline b' = Some (f64_add ts (_current_recovery b))
       ∧ (f64_leb (_current_recovery b') (max_recovery_seconds (_cfg b)) = true
          ∨ f64_mul (_current_recovery b) (recovery_multiplier (_cfg b)) = S754_nan))
  ∧ (_trip_count b' ≠ _trip_count b + 1 → _state b' = _state b ∧ _trip_count b' = _trip_count b).
Proof.
  intros Hn b'. subst b'. unfold record_failure. destruct (_state b) eqn:Hs; simpl.
  - destruct (Z.leb_spec (failure_threshold (_cfg b))
      (zlen (within_window (_cfg b) ts (_failures b ++ [ts])))); simpl; split_and!.
    + split; [by right|done].
    + intros _. split_and!; [done..|]. by apply f64_min_le_r.
    + done.
    + split; [lia|]. intros [?|[_ ?]]; [done|lia].
    + lia.
    + done.
  - split_and!; [|lia|done]. split; [lia|]. by intros [?|[? _]].
  - split_and!; [|intros _; split_and!; [done..|]; by apply f64_min_le_r|done].
    split; [by left|done].
Qed.

(** ** Examples *)

(** Five failures in one second open the breaker; half a minute later it is half open. *)
Definition tripped : list event := replicate 5 (Failure (f64_of_Z 1)).

Lemma half_open_admits_every_call_witness :
  (before_call (f64_of_Z 40) (run (CircuitBreaker_init None) (tripped ++ [Before (f64_of_Z 31)]))).2
  = true.
Proof.
  refine (proj2 (half_open_admits_every_call None (tripped ++ [Before (f64_of_Z 31)]) 3
    (f64_of_Z 40) _ _)); [vm_compute; reflexivity|vm_compute; discriminate].
Defined.

Lemma record_failure_trips_iff_witness :
  _trip_count (record_failure (f64_of_Z 1)
    (run (CircuitBreaker_init None) (replicate 4 (Failure (f64_of_Z 1))))).1 = 1.
Proof.
  refine (proj2 (proj1 (record_failure_trips_iff (f64_of_Z 1)
    (run (CircuitBreaker_init None) (replicate 4 (Failure (f64_of_Z 1)))) _)) _).
  - vm_compute. discriminate.
  - right. split; [vm_compute; reflexivity|vm_compute; discriminate].
Defined.
