(* ===== verification/ResourceLeases.v ===== *)
(** [domain/resource_leases.py] and [adapters/resource_leases.py]: leases on ports, dev
    servers, browser tabs, temporary databases and the desktop.

    The database is a map from the primary key (kind, key) to the stored lease; every
    operation is one [BEGIN IMMEDIATE] transaction on it and returns the database it
    commits together with its result.  What an operation observes of the machine (the
    process probe, bind tests, the file system, the clock and the random token) is the
    record [world]; the checks registered for a kind belong to the registry. *)
From S2P Require Import Prelude PyFloat PyText.
From Stdlib Require Import Ascii.

Local Open Scope Z_scope.

Definition KIND_PORT := "port".
Definition KIND_DESKTOP_SESSION := "desktop_session".
Definition RESOURCE_LEASE_BUSY := "RESOURCE_LEASE_BUSY".
Definition RESOURCE_LEASE_NOT_OWNER := "RESOURCE_LEASE_NOT_OWNER".
Definition RESOURCE_LEASE_EXHAUSTED := "RESOURCE_LEASE_EXHAUSTED".
Definition RESOURCE_LEASE_NOT_FOUND := "RESOURCE_LEASE_NOT_FOUND".
Definition MIN_TTL_SECONDS : spec_float := f64_of_Z 1.
Definition MAX_TTL_SECONDS : spec_float := f64_of_Z 604800.
Definition MAX_METADATA_ENTRIES : Z := 16.
Definition MAX_TEXT : Z := 256.

(** The error class of a lease code. *)
Definition lease_error (code : string) : exn_class :=
  if String.eqb code RESOURCE_LEASE_BUSY || String.eqb code RESOURCE_LEASE_EXHAUSTED
  then Conflict code
  else if String.eqb code RESOURCE_LEASE_NOT_OWNER then Forbidden code
  else if String.eqb code RESOURCE_LEASE_NOT_FOUND then NotFound code
  else InvalidInput.

(** ** Validation *)

(** [a-z] followed by up to 39 of [a-z0-9_]. *)
Definition is_snake (s : string) : bool :=
  match s with
  | EmptyString => false
  | String c s' =>
      ascii_between 97 122 c
      && str_forallb (λ a, ascii_between 97 122 a || ascii_between 48 57 a || Ascii.eqb a "_") s'
      && (String.length s' <=? 39)%nat
  end.

(** [s] without a final newline, if it has one. *)
Fixpoint drop_final_newline (s : string) : string :=
  match s with
  | EmptyString => ""
  | String c EmptyString => if (N_of_ascii c =? 10)%N then "" else s
  | String c s' => String c (drop_final_newline s')
  end.

(** [_KIND_RE.match(s)]: [$] also matches before a final newline. *)
Definition kind_matches (s : string) : bool := is_snake s || is_snake (drop_final_newline s).

Definition validate_kind (kind : pyval) : res string :=
  check_str kind_matches InvalidInput "resource kind must be a short lower_snake_case name" kind.

Definition validate_text (name : string) (value : pyval) : res string :=
  check_str (λ s, negb (is_blank s) && free_of "000" s && (py_len s <=? MAX_TEXT))
    InvalidInput (name +:+ " must be a non-empty bounded string") value.

(** [float(v)] of a number that is not a [bool]. *)
Definition as_float (v : pyval) : option (res spec_float) :=
  match v with
  | PInt z => Some (let f := f64_of_Z z in
                    if f64_finite f then Ok f else throw OverflowError "int too large to convert to float")
  | PFloat f => Some (Ok f)
  | _ => None
  end.

Definition validate_ttl (v : pyval) : res spec_float :=
  match as_float v with
  | None => throw InvalidInput "ttl_seconds must be a number"
  | Some m =>
      ttl ← m;
      _ ← require (f64_leb MIN_TTL_SECONDS ttl && f64_leb ttl MAX_TTL_SECONDS) InvalidInput
            "ttl_seconds must be between 1 and 604800";
      Ok ttl
  end.

Definition clean_entry (kv : pyval * pyval) : res (string * pyval) :=
  name ← validate_text "metadata key" kv.1;
  match kv.2 with
  | PBool _ | PNone | PInt _ | PFloat _ => Ok (name, kv.2)
  | v => match py_str v with
         | Some s => _ ← require ((py_len s <=? 1024) && free_of "000" s) InvalidInput
                           "metadata values must be scalars";
                     Ok (name, PStr s)
         | None => throw InvalidInput "metadata values must be scalars"
         end
  end.

Definition validate_metadata (v : pyval) : res (list (string * pyval)) :=
  match v with
  | PNone => Ok []
  | PDict d =>
      _ ← require (zlen d <=? MAX_METADATA_ENTRIES) InvalidInput "metadata must be a small mapping";
      mapM_res clean_entry d
  | _ => throw InvalidInput "metadata must be a small mapping"
  end.

(** [validate_port_range] on two integers. *)
Definition validate_port_range (r : Z * Z) : res (Z * Z) :=
  _ ← require ((1024 <=? r.1) && (r.1 <=? r.2) && (r.2 <=? 65535)) InvalidInput
        "port range must lie inside 1024-65535 and be ordered";
  Ok r.

(** [s.isascii() and s.isdigit()] *)
Definition is_decimal (s : string) : bool :=
  negb (String.eqb s "") && str_forallb (ascii_between 48 57) s.

(** [int(s)] of such a text. *)
Fixpoint decimal_acc (acc : Z) (s : string) : Z :=
  match s with
  | EmptyString => acc
  | String c s' => decimal_acc (acc * 10 + (Z.of_N (N_of_ascii c) - 48)) s'
  end.
Definition int_of (s : string) : Z := decimal_acc 0 s.

(** ** Leases *)

Record ResourceLease := MkLease {
  lease_id : string;
  kind : string;
  key : string;
  owner_id : string;
  acquired_at : spec_float;
  expires_at : spec_float;
  ttl_seconds : spec_float;
  owner_pid : option Z;
  owner_identity : option string;
  heartbeat_at : spec_float;
  metadata : list (string * pyval)
}.

Definition resource (l : ResourceLease) : string := kind l +:+ ":" +:+ key l.

Definition expired (l : ResourceLease) (now : spec_float) : bool := f64_leb (expires_at l) now.

Definition is_zero (f : spec_float) : bool := match f with S754_zero _ => true | _ => false end.

(** [from_record] of the decoded JSON of a record: an empty identity reads as none and a
    zero heartbeat as the acquisition time; the other fields read as they were written. *)
Definition from_record (r : ResourceLease) : ResourceLease :=
  MkLease (lease_id r) (kind r) (key r) (owner_id r) (acquired_at r) (expires_at r)
    (ttl_seconds r) (owner_pid r)
    (match owner_identity r with Some s => if String.eqb s "" then None else Some s | None => None end)
    (if is_zero (heartbeat_at r) then acquired_at r else heartbeat_at r)
    (metadata r).

Record ReclaimDecision := MkReclaim { reclaim : bool; reason : string }.

Definition reclaim_decision (owner_dead ttl_expired cleanup_evidence : bool) : ReclaimDecision :=
  let cause := if owner_dead then "owner is dead" else "TTL expired" in
  if negb (owner_dead || ttl_expired)
  then MkReclaim false "held by a live owner inside its TTL"
  else if negb cleanup_evidence
  then MkReclaim false (cause +:+ ", but nothing proves the resource was cleaned up")
  else MkReclaim true (cause +:+ " and the resource is proven released").

(** ** The registry *)

(** What one operation observes: whether the probe proves a process dead, bind tests,
    existence of paths, the clock when a held lease is checked and when a lease is
    granted, and the token of a new lease. *)
Record world := MkWorld {
  proven_dead : Z → pyval → bool;
  port_free : Z → bool;
  path_exists : string → bool;
  check_clock : ResourceLease → spec_float;
  grant_clock : spec_float;
  token : string
}.

Definition CleanupEvidence : Type := ResourceLease → res bool.

Record registry := MkRegistry {
  _port_range : Z * Z;
  _evidence : gmap string CleanupEvidence
}.

Definition registry_init (port_range : Z * Z) (evidence : gmap string CleanupEvidence)
  : res registry :=
  r ← validate_port_range port_range; Ok (MkRegistry r evidence).

Definition register_evidence (k : pyval) (check : CleanupEvidence) (g : registry) : res registry :=
  k' ← validate_kind k; Ok (MkRegistry (_port_range g) (<[k' := check]> (_evidence g))).

Definition _row (db : gmap (string * string) ResourceLease) (k key : string) : option ResourceLease :=
  from_record <$> db !! (k, key).

Definition _put (l : ResourceLease) (db : gmap (string * string) ResourceLease)
  : gmap (string * string) ResourceLease := <[(kind l, key l) := l]> db.

Definition _delete (l : ResourceLease) (db : gmap (string * string) ResourceLease)
  : gmap (string * string) ResourceLease :=
  match db !! (kind l, key l) with
  | Some r => if String.eqb (lease_id r) (lease_id l) then delete (kind l, key l) db else db
  | None => db
  end.

Definition _owner_dead (w : world) (l : ResourceLease) : bool :=
  match owner_pid l with
  | Some pid => proven_dead w pid (match owner_identity l with Some s => PStr s | None => PNone end)
  | None => false
  end.

Fixpoint meta_get (name : string) (m : list (string * pyval)) : pyval :=
  match m with
  | [] => PNone
  | (k, v) :: m' => if String.eqb k name then v else meta_get name m'
  end.

(** [meta.get("pid_identity") or None], as the probe receives it. *)
Definition pid_identity (m : list (string * pyval)) : pyval :=
  let v := meta_get "pid_identity" m in if py_truthy v then v else PNone.

(** The positive proofs the built-in checks collect. *)
Definition proofs (w : world) (l : ResourceLease) : list bool :=
  (if String.eqb (kind l) KIND_PORT && is_decimal (key l) then [port_free w (int_of (key l))] else [])
  ++ match meta_get "pid" (metadata l) with
     | PInt pid => [proven_dead w pid (pid_identity (metadata l))] | _ => [] end
  ++ match meta_get "port" (metadata l) with PInt port => [port_free w port] | _ => [] end
  ++ match meta_get "path" (metadata l) with
     | PStr path => if String.eqb path "" then [] else [negb (path_exists w path)] | _ => [] end.

Definition cleanup_evidence (g : registry) (w : world) (l : ResourceLease) : bool :=
  match _evidence g !! kind l with
  | Some check => match check l with Ok b => b | Err _ => false end
  | None =>
      match proofs w l with
      | [] => String.eqb (kind l) KIND_DESKTOP_SESSION && _owner_dead w l
      | ps => forallb id ps
      end
  end.

Definition _try_reclaim (g : registry) (w : world) (held : ResourceLease)
    (db : gmap (string * string) ResourceLease)
  : gmap (string * string) ResourceLease * (bool * string) :=
  let owner_dead := _owner_dead w held in
  let ttl_expired := expired held (check_clock w held) in
  let d := reclaim_decision owner_dead ttl_expired
             ((owner_dead || ttl_expired) && cleanup_evidence g w held) in
  (if reclaim d then _delete held db else db, (reclaim d, reason d)).

Definition _new_lease (w : world) (k key owner : string) (ttl : spec_float) (pid : option Z)
    (identity : option string) (meta : list (string * pyval)) : ResourceLease :=
  let now := grant_clock w in
  MkLease ("rl-" +:+ token w) k key owner now (f64_add now ttl) ttl pid identity now meta.

Definition _renewed (held : ResourceLease) (ttl : option spec_float)
    (meta : option (list (string * pyval))) (now : spec_float) : ResourceLease :=
  let ttl' := default (ttl_seconds held) ttl in
  from_record
    (MkLease (lease_id held) (kind held) (key held) (owner_id held) (acquired_at held)
       (f64_add now ttl') ttl' (owner_pid held) (owner_identity held) now
       (default (metadata held) meta)).

Definition _port_key (key : string) : res Z :=
  _ ← require (is_decimal key) (lease_error "INVALID_INPUT") "a port lease key is the port number";
  Ok (int_of key).

Definition _normal_key (k key : pyval) : res (string * string) :=
  k' ← validate_kind k;
  key' ← validate_text "key" key;
  Ok (k', if String.eqb k' KIND_PORT && is_decimal key' then pretty (int_of key') else key').

(** A transaction: the committed database and the result; a raised error inside it rolls
    back. *)
Definition in_transaction {A : Type} (db : gmap (string * string) ResourceLease)
    (m : res (gmap (string * string) ResourceLease * A))
  : gmap (string * string) ResourceLease * res A :=
  match m with
  | Ok (db', a) => (db', Ok a)
  | Err e => (db, Err e)
  end.

(** The process evidence given differs from the one recorded. *)
Definition process_changed (held : ResourceLease) (pid : option Z) (identity : option string) : bool :=
  match pid with Some p => negb (bool_decide (owner_pid held = Some p)) | None => false end
  || match identity with
     | Some i => negb (bool_decide (owner_identity held = Some i)) | None => false end.

(** [acquire] once its arguments are validated; [port] is set for a port lease. *)
Definition acquire_body (g : registry) (w : world) (k key owner : string) (ttl : spec_float)
    (pid : option Z) (identity : option string) (meta : list (string * pyval)) (port : option Z)
    (db : gmap (string * string) ResourceLease)
  : res (gmap (string * string) ResourceLease * ResourceLease) :=
  let grant db1 :=
    _ ← require (match port with Some p => port_free w p | None => true end)
          (lease_error RESOURCE_LEASE_BUSY)
          ("port " +:+ key +:+ " is in use outside the lease registry");
    let l := _new_lease w k key owner ttl pid identity meta in
    Ok (_put l db1, l) in
  match _row db k key with
  | Some held =>
      if String.eqb (owner_id held) owner then
        _ ← require (negb (process_changed held pid identity)) (lease_error RESOURCE_LEASE_NOT_OWNER)
              "resource lease owner process changed; release before reacquiring";
        let l := _renewed held (Some ttl) (if bool_decide (meta = []) then None else Some meta)
                   (grant_clock w) in
        Ok (_put l db, l)
      else
        let '(db1, (reclaimed, why)) := _try_reclaim g w held db in
        _ ← require reclaimed (lease_error RESOURCE_LEASE_BUSY)
              (resource held +:+ " is held by " +:+ owner_id held +:+ " (" +:+ why +:+ ")");
        grant db1
  | None => grant db
  end.

(** The key of the row, and the port if it is a port lease: "047000" and "47000" are the
    same port. *)
Definition lease_target (k key : string) : res (string * option Z) :=
  if String.eqb k KIND_PORT then
    port ← _port_key key;
    _ ← validate_port_range (port, port);
    Ok (pretty port, Some port)
  else Ok (key, None).

Definition acquire (g : registry) (w : world) (k key owner ttl : pyval) (pid : option Z)
    (identity : option string) (meta : pyval) (db : gmap (string * string) ResourceLease)
  : gmap (string * string) ResourceLease * res ResourceLease :=
  in_transaction db
    (k' ← validate_kind k;
     key' ← validate_text "key" key;
     owner' ← validate_text "owner_id" owner;
     ttl' ← validate_ttl ttl;
     meta' ← validate_metadata meta;
     target ← lease_target k' key';
     acquire_body g w k' target.1 owner' ttl' pid identity meta' target.2 db).

(** The loop of [acquire_port]; the rows it reclaims on the way stay deleted. *)
Fixpoint acquire_port_loop (g : registry) (w : world) (owner : string) (ttl : spec_float)
    (pid : option Z) (identity : option string) (meta : list (string * pyval))
    (held_keys : list string) (ports : list Z) (db : gmap (string * string) ResourceLease)
  : gmap (string * string) ResourceLease * option ResourceLease :=
  match ports with
  | [] => (db, None)
  | port :: rest =>
      let key := pretty port in
      let '(db1, blocked) :=
        if mem key held_keys then
          match _row db KIND_PORT key with
          | Some held => let '(db1, (reclaimed, _)) := _try_reclaim g w held db in
                         (db1, negb reclaimed)
          | None => (db, false)
          end
        else (db, false) in
      if blocked || negb (port_free w port)
      then acquire_port_loop g w owner ttl pid identity meta held_keys rest db1
      else let l := _new_lease w KIND_PORT key owner ttl pid identity meta in
           (_put l db1, Some l)
  end.

(** [range(low, high + 1)] *)
Definition port_list (low high : Z) : list Z := seqZ low (high + 1 - low).

Definition port_keys (db : gmap (string * string) ResourceLease) : list string :=
  omap (λ kv, if String.eqb kv.1.1 KIND_PORT then Some kv.1.2 else None) (map_to_list db).

Definition acquire_port (g : registry) (w : world) (owner ttl : pyval) (pid : option Z)
    (identity : option string) (meta : pyval) (range : option (Z * Z))
    (db : gmap (string * string) ResourceLease)
  : gmap (string * string) ResourceLease * res ResourceLease :=
  match (owner' ← validate_text "owner_id" owner;
         ttl' ← validate_ttl ttl;
         meta' ← validate_metadata meta;
         r ← validate_port_range (default (_port_range g) range);
         Ok (owner', ttl', meta', r)) with
  | Err e => (db, Err e)
  | Ok (owner', ttl', meta', (low, high)) =>
      match acquire_port_loop g w owner' ttl' pid identity meta' (port_keys db)
              (port_list low high) db with
      | (db', Some l) => (db', Ok l)
      | (db', None) => (db', throw (lease_error RESOURCE_LEASE_EXHAUSTED)
                               ("no free port in " +:+ pretty low +:+ "-" +:+ pretty high))
      end
  end.

Definition not_owner {A : Type} (held : ResourceLease) (owner : string) : res A :=
  throw (lease_error RESOURCE_LEASE_NOT_OWNER)
    (resource held +:+ " is held by " +:+ owner_id held +:+ ", not " +:+ owner).

Definition _require_owned (db : gmap (string * string) ResourceLease) (k key owner : string)
  : res ResourceLease :=
  match _row db k key with
  | None => throw (lease_error RESOURCE_LEASE_NOT_FOUND) (k +:+ ":" +:+ key +:+ " is not leased")
  | Some held => if String.eqb (owner_id held) owner then Ok held else not_owner held owner
  end.

Definition heartbeat (w : world) (k key : pyval) (owner : string) (ttl : pyval)
    (db : gmap (string * string) ResourceLease)
  : gmap (string * string) ResourceLease * res ResourceLease :=
  in_transaction db
    (kk ← _normal_key k key;
     ttl' ← (match ttl with PNone => Ok None | v => t ← validate_ttl v; Ok (Some t) end);
     held ← _require_owned db kk.1 kk.2 owner;
     let l := _renewed held ttl' None (grant_clock w) in
     Ok (_put l db, l)).

Definition release (k key : pyval) (owner : string) (db : gmap (string * string) ResourceLease)
  : gmap (string * string) ResourceLease * res bool :=
  in_transaction db
    (kk ← _normal_key k key;
     match _row db kk.1 kk.2 with
     | None => Ok (db, false)
     | Some held => if String.eqb (owner_id held) owner then Ok (_delete held db, true)
                    else not_owner held owner
     end).

Definition holder (k key : pyval) (db : gmap (string * string) ResourceLease)
  : res (option ResourceLease) :=
  kk ← _normal_key k key; Ok (_row db kk.1 kk.2).

(** [ORDER BY kind, key] *)
Definition row_le (a b : (string * string) * ResourceLease) : bool :=
  if String.eqb a.1.1 b.1.1 then String.leb a.1.2 b.1.2 else String.leb a.1.1 b.1.1.

Definition leases (k : option pyval) (db : gmap (string * string) ResourceLease)
  : res (list ResourceLease) :=
  let rows := sort_by row_le (map_to_list db) in
  match k with
  | None => Ok ((λ r, from_record r.2) <$> rows)
  | Some v => k' ← validate_kind v;
              Ok ((λ r, from_record r.2) <$> List.filter (λ r, String.eqb r.1.1 k') rows)
  end.

(** The loop of [sweep]. *)
Fixpoint sweep_loop (g : registry) (w : world) (wanted : option (list string))
    (rows : list ResourceLease) (db : gmap (string * string) ResourceLease)
  : gmap (string * string) ResourceLease * list ResourceLease :=
  match rows with
  | [] => (db, [])
  | held :: rest =>
      if match wanted with Some ks => negb (mem (kind held) ks) | None => false end
      then sweep_loop g w wanted rest db
      else
        let '(db1, (reclaimed, _)) := _try_reclaim g w held db in
        let '(db2, dropped) := sweep_loop g w wanted rest db1 in
        (db2, if reclaimed then held :: dropped else dropped)
  end.

Definition sweep (g : registry) (w : world) (kinds : option (list pyval))
    (db : gmap (string * string) ResourceLease)
  : gmap (string * string) ResourceLease * res (list ResourceLease) :=
  match (match kinds with None => Ok None | Some ks => l ← mapM_res validate_kind ks; Ok (Some l) end) with
  | Err e => (db, Err e)
  | Ok wanted =>
      let '(db', dropped) := sweep_loop g w wanted (from_record <$> (map_to_list db).*2) db in
      (db', Ok dropped)
  end.

(** ** The reclaim rule *)

(** The owner is proven dead or the TTL ran out, and something proves the cleanup. *)
Definition reclaimable (g : registry) (w : world) (l : ResourceLease) : bool :=
  (_owner_dead w l || expired l (check_clock w l)) && cleanup_evidence g w l.

Lemma try_reclaim_eq g w l db :
  ∃ why, _try_reclaim g w l db
         = (if reclaimable g w l then _delete l db else db, (reclaimable g w l, why)).
Proof.
  unfold _try_reclaim, reclaimable, reclaim_decision.
  destruct (_owner_dead w l), (expired l (check_clock w l)), (cleanup_evidence g w l); eexists; reflexivity.
Qed.

(** A reclaimable lease has a positive proof: a registered check that says so, or all of
    at least one built-in proof, or a desktop session whose owner is dead. *)
Lemma cleanup_evidence_positive g w l :
  cleanup_evidence g w l = true →
  (∃ check, _evidence g !! kind l = Some check ∧ check l = Ok true)
  ∨ (_evidence g !! kind l = None ∧ proofs w l ≠ [] ∧ Forall (λ b, b = true) (proofs w l))
  ∨ (_evidence g !! kind l = None ∧ kind l = KIND_DESKTOP_SESSION ∧ _owner_dead w l = true).
Proof.
  unfold cleanup_evidence. destruct (_evidence g !! kind l) as [check|].
  - destruct (check l) as [b|] eqn:E; [|done]. intros ->. left. eauto.
  - intros H. right. destruct (proofs w l) as [|p ps].
    + apply andb_true_iff in H as [H%String.eqb_eq ?]. auto.
    + left. split_and!; [done..|]. rewrite forallb_forall in H.
      apply Forall_forall. intros b Hb. by apply H, list_elem_of_In.
Qed.

(** ** The table *)

(** A row is filed under its own kind and key; the fields passed their validators; a port
    lease names an unprivileged port in canonical decimal form. *)
Record lease_ok (l : ResourceLease) : Prop := {
  lease_kind : kind_matches (kind l) = true;
  lease_owner : is_blank (owner_id l) = false ∧ py_len (owner_id l) <= MAX_TEXT;
  lease_ttl : f64_leb MIN_TTL_SECONDS (ttl_seconds l) = true
              ∧ f64_leb (ttl_seconds l) MAX_TTL_SECONDS = true;
  lease_meta : zlen (metadata l) <= MAX_METADATA_ENTRIES;
  lease_port : kind l = KIND_PORT → ∃ p, 1024 <= p <= 65535 ∧ key l = pretty p
}.
Definition table_ok (db : gmap (string * string) ResourceLease) : Prop :=
  map_Forall (λ k l, k = (kind l, key l) ∧ lease_ok l) db.

Lemma from_record_ok l : lease_ok l → lease_ok (from_record l).
Proof. by intros []. Qed.

Lemma table_put l db : lease_ok l → table_ok db → table_ok (_put l db).
Proof. intros Hl Hdb. unfold _put. by apply map_Forall_insert_2. Qed.

Lemma delete_lookup l db k r : _delete l db !! k = Some r → db !! k = Some r.
Proof.
  unfold _delete. destruct (db !! (kind l, key l)); [|done]. destruct (String.eqb _ _); [|done].
  by intros [_ ?]%lookup_delete_Some.
Qed.

Lemma table_delete l db : table_ok db → table_ok (_delete l db).
Proof. intros Hdb k r Hr%delete_lookup. by apply Hdb. Qed.

Lemma delete_keeps l db k r :
  db !! k = Some r → _delete l db !! k = Some r ∨ k = (kind l, key l).
Proof.
  intros Hr. unfold _delete. destruct (db !! (kind l, key l)); [|auto].
  destruct (String.eqb _ _); [|auto]. destruct (decide (k = (kind l, key l))); [auto|].
  left. by rewrite lookup_delete_ne.
Qed.

(** Deleting the lease that was read from a row removes the row. *)
Lemma delete_read l db k :
  table_ok db → db !! k = Some l → _delete (from_record l) db = delete k db.
Proof.
  intros Hdb Hl. destruct (Hdb _ _ Hl) as [-> _]. unfold _delete. simpl.
  by rewrite Hl, String.eqb_refl.
Qed.

Lemma row_some db k ky held :
  _row db k ky = Some held ↔ ∃ l, db !! (k, ky) = Some l ∧ held = from_record l.
Proof. unfold _row. rewrite fmap_Some. done. Qed.

Lemma validate_text_ok name v s :
  validate_text name v = Ok s → is_blank s = false ∧ py_len s <= MAX_TEXT.
Proof. unfold validate_text. intros H. res_inv. by to_prop. Qed.

Lemma validate_ttl_ok v t :
  validate_ttl v = Ok t →
  f64_leb MIN_TTL_SECONDS t = true ∧ f64_leb t MAX_TTL_SECONDS = true.
Proof. unfold validate_ttl. destruct (as_float v); [|done]. intros H. res_inv. by to_prop. Qed.

Lemma validate_metadata_ok v m : validate_metadata v = Ok m → zlen m <= MAX_METADATA_ENTRIES.
Proof.
  unfold validate_metadata. destruct v; try done; [by intros [= <-]|].
  intros H. res_inv. to_prop. unfold zlen in *. by rewrite <-(Forall2_length _ _ _ H).
Qed.

Lemma validate_kind_ok v s : validate_kind v = Ok s → kind_matches s = true.
Proof. unfold validate_kind. intros H. by res_inv. Qed.

#[export] Hint Resolve validate_text_ok validate_ttl_ok validate_metadata_ok validate_kind_ok : cluster.

Lemma new_lease_ok w k ky owner ttl pid identity meta :
  kind_matches k = true → is_blank owner = false ∧ py_len owner <= MAX_TEXT →
  f64_leb MIN_TTL_SECONDS ttl = true ∧ f64_leb ttl MAX_TTL_SECONDS = true →
  zlen meta <= MAX_METADATA_ENTRIES →
  (k = KIND_PORT → ∃ p, 1024 <= p <= 65535 ∧ ky = pretty p) →
  lease_ok (_new_lease w k ky owner ttl pid identity meta).
Proof. by split. Qed.

Lemma renewed_ok held ttl meta now :
  lease_ok held →
  (∀ t, ttl = Some t → f64_leb MIN_TTL_SECONDS t = true ∧ f64_leb t MAX_TTL_SECONDS = true) →
  (∀ m, meta = Some m → zlen m <= MAX_METADATA_ENTRIES) →
  lease_ok (_renewed held ttl meta now).
Proof.
  intros [] Ht Hm. unfold _renewed. apply from_record_ok. split; simpl; try done.
  - destruct ttl; [by apply Ht|done].
  - destruct meta; [by apply Hm|done].
Qed.

(** ** Acquiring *)

Definition bind_free (w : world) (port : option Z) : bool :=
  match port with Some p => port_free w p | None => true end.

(** Whether a row lets the owner in. *)
Definition grantable (g : registry) (w : world) (k ky owner : string) (pid : option Z)
    (identity : option string) (port : option Z) (db : gmap (string * string) ResourceLease) : bool :=
  match _row db k ky with
  | Some held =>
      if String.eqb (owner_id held) owner then negb (process_changed held pid identity)
      else reclaimable g w held && bind_free w port
  | None => bind_free w port
  end.

(** The lease granted. *)
Definition granted (w : world) (k ky owner : string) (ttl : spec_float) (pid : option Z)
    (identity : option string) (meta : list (string * pyval))
    (db : gmap (string * string) ResourceLease) : ResourceLease :=
  match _row db k ky with
  | Some held =>
      if String.eqb (owner_id held) owner
      then _renewed held (Some ttl) (if bool_decide (meta = []) then None else Some meta) (grant_clock w)
      else _new_lease w k ky owner ttl pid identity meta
  | None => _new_lease w k ky owner ttl pid identity meta
  end.

(** The class of the refusal. *)
Definition refusal (k ky owner : string) (db : gmap (string * string) ResourceLease) : exn_class :=
  match _row db k ky with
  | Some held => if String.eqb (owner_id held) owner then Forbidden RESOURCE_LEASE_NOT_OWNER
                 else Conflict RESOURCE_LEASE_BUSY
  | None => Conflict RESOURCE_LEASE_BUSY
  end.

Lemma granted_target w k ky owner ttl pid identity meta db :
  table_ok db →
  let l := granted w k ky owner ttl pid identity meta db in
  kind l = k ∧ key l = ky ∧ owner_id l = owner ∧ ttl_seconds l = ttl.
Proof.
  intros Hdb. unfold granted. destruct (_row db k ky) as [held|] eqn:Hr; [|done].
  destruct (String.eqb_spec (owner_id held) owner) as [E|]; [|done].
  apply row_some in Hr as (l & Hl & ->). destruct (Hdb _ _ Hl) as [[= -> ->] _]. done.
Qed.

Lemma acquire_body_outcome g w k ky owner ttl pid identity meta port db :
  table_ok db →
  let l := granted w k ky owner ttl pid identity meta db in
  if grantable g w k ky owner pid identity port db
  then acquire_body g w k ky owner ttl pid identity meta port db = Ok (<[(k, ky) := l]> db, l)
  else ∃ msg, acquire_body g w k ky owner ttl pid identity meta port db
              = Err (Raise (refusal k ky owner db) msg).
Proof.
  intros Hdb. pose proof (granted_target w k ky owner ttl pid identity meta db Hdb) as (Hk & Hy & _ & _).
  unfold acquire_body, grantable, refusal, granted, bind_free, _put in *.
  destruct (_row db k ky) as [held|] eqn:Hr.
  - destruct (String.eqb (owner_id held) owner) eqn:E.
    + destruct (process_changed held pid identity); simpl in *; [by eexists|]. by rewrite Hk, Hy.
    + destruct (try_reclaim_eq g w held db) as [why ->].
      destruct (reclaimable g w held) eqn:Hrec; simpl; [|by eexists].
      apply row_some in Hr as (l & Hl & ->). rewrite (delete_read l db (k, ky) Hdb Hl).
      destruct (match port with Some p => port_free w p | None => true end) ; simpl; [|by eexists].
      by rewrite insert_delete_eq.
  - destruct (match port with Some p => port_free w p | None => true end) ; simpl; [|by eexists].
    by rewrite Hk, Hy || done.
Qed.

(** On valid arguments and a well-formed table [acquire] grants the lease exactly when
    the resource is free, or already held by the same owner with unchanged process
    evidence, or held by another owner whose lease is reclaimable (and, unless it is a
    renewal, a port can be bound); it then files that one lease and changes nothing else.
    Otherwise the table is unchanged and the error is [RESOURCE_LEASE_NOT_OWNER] for the
    owner's own lease and [RESOURCE_LEASE_BUSY] for everyone else. *)
Theorem acquire_outcome g w k kv owner ttl pid identity meta db k' key' o t m ky port :
  table_ok db →
  validate_kind k = Ok k' → validate_text "key" kv = Ok key' →
  validate_text "owner_id" owner = Ok o → validate_ttl ttl = Ok t →
  validate_metadata meta = Ok m → lease_target k' key' = Ok (ky, port) →
  if grantable g w k' ky o pid identity port db
  then ∃ l, acquire g w k kv owner ttl pid identity meta db = (<[(k', ky) := l]> db, Ok l)
            ∧ kind l = k' ∧ key l = ky ∧ owner_id l = o ∧ ttl_seconds l = t
  else ∃ msg, acquire g w k kv owner ttl pid identity meta db
              = (db, Err (Raise (refusal k' ky o db) msg)).
Proof.
  intros Hdb Hk Hkey Ho Ht Hm Htar. unfold acquire.
  rewrite (bind_Ok _ _ _ Hk); cbn beta. rewrite (bind_Ok _ _ _ Hkey); cbn beta.
  rewrite (bind_Ok _ _ _ Ho); cbn beta. rewrite (bind_Ok _ _ _ Ht); cbn beta.
  rewrite (bind_Ok _ _ _ Hm); cbn beta. rewrite (bind_Ok _ _ _ Htar); cbn beta.
  cbn [fst snd].
  pose proof (acquire_body_outcome g w k' ky o t pid identity m port db Hdb) as H.
  pose proof (granted_target w k' ky o t pid identity m db Hdb) as Hl. simpl in H, Hl.
  destruct (grantable g w k' ky o pid identity port db).
  - rewrite H. eexists. split; [done|exact Hl].
  - destruct H as [msg ->]. by eexists.
Qed.

(** ** Acquiring a port from a range *)

Section PortLoop.
  Context (g : registry) (w : world) (owner : string) (ttl : spec_float) (pid : option Z)
    (identity : option string) (meta : list (string * pyval)) (held_keys : list string).
  Implicit Types db : gmap (string * string) ResourceLease.

Definition port_row (p : Z) : string * string := (KIND_PORT, pretty p).

  (** No lease stands in the way of the port. *)
Definition vacant (db : gmap (string * string) ResourceLease) (p : Z) : bool :=
    match db !! port_row p with Some l => reclaimable g w (from_record l) | None => true end.

  (** The port can be leased now. *)
Definition open_port (db : gmap (string * string) ResourceLease) (p : Z) : bool :=
    vacant db p && port_free w p.

Definition drop_port (p : Z) (db : gmap (string * string) ResourceLease)
    : gmap (string * string) ResourceLease := if vacant db p then delete (port_row p) db else db.

Definition covers db : Prop := ∀ ky, is_Some (db !! (KIND_PORT, ky)) → ky ∈ held_keys.

Lemma loop_step p rest db :
    table_ok db → covers db →
    acquire_port_loop g w owner ttl pid identity meta held_keys (p :: rest) db
    = if open_port db p
      then let l := _new_lease w KIND_PORT (pretty p) owner ttl pid identity meta in
           (<[port_row p := l]> (drop_port p db), Some l)
      else acquire_port_loop g w owner ttl pid identity meta held_keys rest (drop_port p db).
  Proof.
    intros Hdb Hc. cbn [acquire_port_loop]. unfold open_port, drop_port, vacant, _row, port_row, _put.
    destruct (db !! (KIND_PORT, pretty p)) as [l|] eqn:Hl.
    - assert (mem (pretty p) held_keys = true) as -> by (apply mem_spec, Hc; by eexists).
      cbn [fmap option_fmap option_map]. destruct (try_reclaim_eq g w (from_record l) db) as [why ->].
      rewrite (delete_read l db (KIND_PORT, pretty p) Hdb Hl).
      destruct (reclaimable g w (from_record l)); simpl; [|done]. by destruct (port_free w p).
    - rewrite delete_id by done. destruct (mem (pretty p) held_keys); simpl; by destruct (port_free w p).
  Qed.

Lemma drop_port_lookup p db k l : drop_port p db !! k = Some l → db !! k = Some l.
  Proof. unfold drop_port. destruct (vacant db p); [by intros [_ ?]%lookup_delete_Some|done]. Qed.

Lemma drop_port_other p q db : p ≠ q → drop_port p db !! port_row q = db !! port_row q.
  Proof.
    intros Hpq. unfold drop_port. destruct (vacant db p); [|done].
    apply lookup_delete_ne. intros [= ?%(inj pretty)]. done.
  Qed.

Lemma drop_port_open p q db : p ≠ q → open_port (drop_port p db) q = open_port db q.
  Proof. intros. unfold open_port, vacant. by rewrite drop_port_other. Qed.

Lemma drop_port_kept p db k l :
    db !! k = Some l → drop_port p db !! k = Some l ∨ reclaimable g w (from_record l) = true.
  Proof.
    intros Hl. unfold drop_port, vacant. destruct (decide (k = port_row p)) as [->|Hne].
    - rewrite Hl. destruct (reclaimable g w (from_record l)) eqn:E; [auto|]. left. by rewrite ?E.
    - left. destruct (match db !! port_row p with Some _ => _ | None => _ end); [|done].
      by rewrite lookup_delete_ne.
  Qed.

Lemma drop_port_invariants p db : table_ok db → covers db → table_ok (drop_port p db) ∧ covers (drop_port p db).
  Proof.
    intros Hdb Hc. split.
    - intros k l Hl%drop_port_lookup. by apply Hdb.
    - intros ky [l Hl%drop_port_lookup]. apply Hc. by eexists.
  Qed.

  (** Every lease survives the loop or was reclaimable. *)
Lemma loop_keeps ports db k l :
    table_ok db → covers db → db !! k = Some l →
    (acquire_port_loop g w owner ttl pid identity meta held_keys ports db).1 !! k = Some l
    ∨ reclaimable g w (from_record l) = true.
  Proof.
    revert db; induction ports as [|p rest IH]; intros db Hdb Hc Hl; [by left|].
    rewrite loop_step by done. destruct (drop_port_invariants p db Hdb Hc).
    destruct (open_port db p) eqn:Ho.
    - cbn [fst]. destruct (decide (k = port_row p)) as [->|Hne].
      + right. unfold open_port, vacant in Ho. rewrite Hl in Ho. by to_prop.
      + rewrite lookup_insert_ne by done. by apply drop_port_kept.
    - destruct (drop_port_kept p db k l Hl) as [Hl'|]; [by apply IH|by right].
  Qed.

  (** The loop finds the first open port. *)
Lemma loop_first ports db :
    table_ok db → covers db → NoDup ports →
    match (acquire_port_loop g w owner ttl pid identity meta held_keys ports db).2 with
    | Some l => ∃ pre p post, ports = pre ++ p :: post
        ∧ Forall (λ q, open_port db q = false) pre ∧ open_port db p = true
        ∧ l = _new_lease w KIND_PORT (pretty p) owner ttl pid identity meta
        ∧ (acquire_port_loop g w owner ttl pid identity meta held_keys ports db).1 !! port_row p = Some l
    | None => Forall (λ q, open_port db q = false) ports
    end.
  Proof.
    revert db; induction ports as [|p rest IH]; intros db Hdb Hc Hnd; [constructor|].
    rewrite loop_step by done. destruct (drop_port_invariants p db Hdb Hc) as [Hdb' Hc'].
    apply NoDup_cons in Hnd as [Hp Hnd]. destruct (open_port db p) eqn:Ho.
    - simpl. exists [], p, rest. split_and!; [done|constructor|done|done|]. by rewrite lookup_insert_eq.
    - specialize (IH (drop_port p db) Hdb' Hc' Hnd).
      assert (∀ l, l ⊆ rest → Forall (λ q, open_port (drop_port p db) q = false) l →
                Forall (λ q, open_port db q = false) l) as Htr.
      { intros l Hl. rewrite !Forall_forall. intros H q Hq. rewrite <-(drop_port_open p q); [auto|].
        intros ->. by apply Hp, Hl. }
      destruct (acquire_port_loop _ _ _ _ _ _ _ _ rest _) as [db' [l|]]; simpl in *.
      + destruct IH as (pre & q & post & -> & Hpre & Hq & -> & Hl).
        exists (p :: pre), q, post. split_and!; [done| | |done|done].
        * constructor; [done|]. apply Htr; [set_solver|done].
        * rewrite <-(drop_port_open p q); [done|]. set_solver.
      + constructor; [done|]. apply Htr; [set_solver|done].
  Qed.

  (** What the loop leaves in the table was there or is the new lease. *)
Lemma loop_table ports db :
    table_ok db → covers db →
    (∀ p, p ∈ ports → lease_ok (_new_lease w KIND_PORT (pretty p) owner ttl pid identity meta)) →
    table_ok (acquire_port_loop g w owner ttl pid identity meta held_keys ports db).1.
  Proof.
    revert db; induction ports as [|p rest IH]; intros db Hdb Hc Hnew; [done|].
    rewrite loop_step by done. destruct (drop_port_invariants p db Hdb Hc) as [Hdb' Hc'].
    destruct (open_port db p).
    - apply map_Forall_insert_2; [|done]. split; [done|]. apply Hnew. by left.
    - apply IH; [done..|]. intros q Hq. apply Hnew. by right.
  Qed.
End PortLoop.

Lemma port_keys_cover db : covers (port_keys db) db.
Proof.
  intros ky [l Hl]. unfold port_keys. apply list_elem_of_omap. exists ((KIND_PORT, ky), l).
  split; [by apply elem_of_map_to_list|done].
Qed.

Lemma port_list_elem low high p : p ∈ port_list low high ↔ low <= p <= high.
Proof. unfold port_list. rewrite elem_of_seqZ. lia. Qed.

Lemma seqZ_before m n pre p post q :
  seqZ m n = pre ++ p :: post → m <= q < p → q ∈ pre.
Proof.
  intros Heq Hq. assert (seqZ m n !! length pre = Some p) as Hp
    by (rewrite Heq; by apply list_lookup_middle).
  apply lookup_seqZ in Hp as [-> Hlen].
  assert (seqZ m n !! Z.to_nat (q - m) = Some q) as Hl by (apply lookup_seqZ; lia).
  rewrite Heq, lookup_app_l in Hl by lia. by eapply list_elem_of_lookup_2.
Qed.

(** [acquire_port] leases the lowest port of the range that can be bound and has no
    lease that must be respected, and it raises [RESOURCE_LEASE_EXHAUSTED] exactly when
    the range has no such port. *)
Theorem acquire_port_lowest g w owner ttl pid identity meta range db o t m low high :
  table_ok db → validate_text "owner_id" owner = Ok o → validate_ttl ttl = Ok t →
  validate_metadata meta = Ok m →
  validate_port_range (default (_port_range g) range) = Ok (low, high) →
  (∀ l, (acquire_port g w owner ttl pid identity meta range db).2 = Ok l →
     ∃ p, low <= p <= high ∧ key l = pretty p ∧ kind l = KIND_PORT ∧ owner_id l = o
       ∧ open_port g w db p = true ∧ (∀ q, low <= q < p → open_port g w db q = false)
       ∧ (acquire_port g w owner ttl pid identity meta range db).1 !! (KIND_PORT, pretty p) = Some l)
  ∧ ((∃ msg, (acquire_port g w owner ttl pid identity meta range db).2
             = Err (Raise (Conflict RESOURCE_LEASE_EXHAUSTED) msg))
     ↔ ∀ q, low <= q <= high → open_port g w db q = false).
Proof.
  intros Hdb Ho Ht Hm Hr. unfold acquire_port. rewrite Ho, Ht, Hm, Hr. cbn [mbind res_bind].
  pose proof (loop_first g w o t pid identity m (port_keys db) (port_list low high) db Hdb
    (port_keys_cover db) (NoDup_seqZ _ _)) as H.
  destruct (acquire_port_loop _ _ _ _ _ _ _ _ _ _) as [db' [l|]]; cbn [fst snd] in *.
  - destruct H as (pre & p & post & Heq & Hpre & Hp & -> & Hl).
    assert (low <= p <= high) as Hrange by (apply port_list_elem; rewrite Heq; set_solver).
    split.
    + intros ? [= <-]. exists p. split_and!; try done; try lia.
      intros q Hq. rewrite Forall_forall in Hpre. apply Hpre.
      by eapply seqZ_before.
    + split; [by intros [? ?]|]. intros Hall. rewrite (Hall p Hrange) in Hp. done.
  - split; [done|]. split; [|by eexists]. intros _ q Hq. rewrite Forall_forall in H.
    apply H. by apply port_list_elem.
Qed.

(** ** Any sequence of calls *)

Inductive call :=
  | Acquire (k key owner ttl : pyval) (pid : option Z) (identity : option string) (meta : pyval)
  | AcquirePort (owner ttl : pyval) (pid : option Z) (identity : option string) (meta : pyval)
      (range : option (Z * Z))
  | Heartbeat (k key : pyval) (owner : string) (ttl : pyval)
  | Release (k key : pyval) (owner : string)
  | Sweep (kinds : option (list pyval)).

(** The table a call commits. *)
Definition commit (g : registry) (w : world) (c : call) (db : gmap (string * string) ResourceLease)
  : gmap (string * string) ResourceLease :=
  match c with
  | Acquire k ky owner ttl pid identity meta => (acquire g w k ky owner ttl pid identity meta db).1
  | AcquirePort owner ttl pid identity meta range =>
      (acquire_port g w owner ttl pid identity meta range db).1
  | Heartbeat k ky owner ttl => (heartbeat w k ky owner ttl db).1
  | Release k ky owner => (release k ky owner db).1
  | Sweep kinds => (sweep g w kinds db).1
  end.

(** Processes take turns: each call has its own registry object and sees its own world. *)
Inductive table_reachable : gmap (string * string) ResourceLease → Prop :=
  | table_new : table_reachable ∅
  | table_call db g w c : table_reachable db → table_reachable (commit g w c db).

Lemma in_transaction_cases {A : Type} (db : gmap (string * string) ResourceLease)
    (m : res (gmap (string * string) ResourceLease * A)) :
  (in_transaction db m).1 = db ∨ ∃ db' a, m = Ok (db', a) ∧ (in_transaction db m).1 = db'.
Proof. destruct m as [[db' a]|e]; simpl; eauto. Qed.

Lemma lease_target_port k ky tk port :
  lease_target k ky = Ok (tk, port) → k = KIND_PORT → ∃ p, 1024 <= p <= 65535 ∧ tk = pretty p.
Proof.
  unfold lease_target. intros H ->. rewrite String.eqb_refl in H.
  unfold validate_port_range, _port_key in H. res_inv. to_prop. eauto.
Qed.

Lemma acquire_effect g w k ky owner ttl pid identity meta db :
  table_ok db →
  let db' := (acquire g w k ky owner ttl pid identity meta db).1 in
  db' = db
  ∨ ∃ k' tk o port l, db' = <[(k', tk) := l]> db ∧ grantable g w k' tk o pid identity port db = true
      ∧ (kind l, key l) = (k', tk) ∧ lease_ok l
      ∧ (∀ held, db !! (k', tk) = Some held → owner_id held = o →
           lease_id l = lease_id held ∧ owner_id l = o).
Proof.
  intros Hdb. unfold acquire. simpl.
  match goal with |- (in_transaction db ?m).1 = _ ∨ _ => set (body := m) end.
  destruct (in_transaction_cases db body) as [->|(db' & l & Hm & ->)]; [by left|right].
  unfold body in Hm. clear body. res_inv. destruct a4 as [tk port]. simpl in *.
  pose proof (acquire_body_outcome g w a tk a1 a2 pid identity a3 port db Hdb) as Hout. simpl in Hout.
  destruct (grantable g w a tk a1 pid identity port db) eqn:Hg; [|destruct Hout; congruence].
  rewrite Hout in Hm. injection Hm as <- <-.
  exists a, tk, a1, port, (granted w a tk a1 a2 pid identity a3 db).
  destruct (granted_target w a tk a1 a2 pid identity a3 db Hdb) as (Hk & Hy & Hown & _).
  split_and!; [done|done|by rewrite Hk, Hy| |].
  - unfold granted in *. destruct (_row db a tk) as [held|] eqn:Hrow.
    + apply row_some in Hrow as (r & Hr & ->). destruct (Hdb _ _ Hr) as [_ Hgood%from_record_ok].
      destruct (String.eqb _ _).
      * apply renewed_ok; [done| |]; [intros ? [= <-]|intros ? E; case_bool_decide; [done|injection E as <-]];
          eauto with cluster.
      * apply new_lease_ok; eauto using lease_target_port with cluster.
    + apply new_lease_ok; eauto using lease_target_port with cluster.
  - intros held Hheld Howner. unfold granted in *. unfold _row in *. rewrite Hheld in *. simpl in *.
    by rewrite Howner, String.eqb_refl in *.
Qed.

Lemma heartbeat_effect w k ky owner ttl db :
  table_ok db →
  let db' := (heartbeat w k ky owner ttl db).1 in
  db' = db
  ∨ ∃ rk held l, db !! rk = Some held ∧ db' = <[rk := l]> db ∧ rk = (kind l, key l) ∧ lease_ok l
      ∧ lease_id l = lease_id held ∧ owner_id l = owner_id held.
Proof.
  intros Hdb. unfold heartbeat. simpl.
  match goal with |- (in_transaction db ?m).1 = _ ∨ _ => set (body := m) end.
  destruct (in_transaction_cases db body) as [->|(db' & l & Hm & ->)]; [by left|right].
  unfold body in Hm. clear body. res_inv. unfold _require_owned in Hok1.
  destruct (_row db a.1 a.2) as [held|] eqn:Hrow; [|done].
  destruct (String.eqb_spec (owner_id held) owner); [|done]. injection Hok1 as <-.
  apply row_some in Hrow as (r & Hr & ->). destruct (Hdb _ _ Hr) as [Hkey Hgood].
  exists a, r, (_renewed (from_record r) a0 None (grant_clock w)).
  destruct a as [k' ky']; simpl in *. injection Hkey as -> ->.
  split_and!; try done. apply renewed_ok; [by apply from_record_ok| |done].
  intros t ->. destruct ttl; simpl in *; res_inv; eauto with cluster.
Qed.

Lemma release_effect k ky owner db :
  table_ok db →
  let db' := (release k ky owner db).1 in
  db' = db ∨ ∃ rk held, db !! rk = Some held ∧ owner_id held = owner ∧ db' = delete rk db.
Proof.
  intros Hdb. unfold release. simpl.
  match goal with |- (in_transaction db ?m).1 = _ ∨ _ => set (body := m) end.
  destruct (in_transaction_cases db body) as [->|(db' & l & Hm & ->)]; [by left|].
  unfold body in Hm. clear body. apply bind_ok in Hm as ([k' ky'] & _ & Hm). simpl in Hm.
  destruct (_row db k' ky') as [held|] eqn:Hrow; [|left; congruence].
  destruct (String.eqb_spec (owner_id held) owner); [|done]. right.
  apply row_some in Hrow as (r & Hr & ->). exists (k', ky'), r. split_and!; [done..|].
  injection Hm as <- _. by apply delete_read.
Qed.

(** The rows a sweep visits were read from the table it changes. *)
Lemma sweep_loop_effect g w wanted rows db0 db :
  table_ok db0 → db ⊆ db0 → rows ⊆ from_record <$> (map_to_list db0).*2 →
  (sweep_loop g w wanted rows db).1 ⊆ db
  ∧ ∀ k l, db !! k = Some l →
      (sweep_loop g w wanted rows db).1 !! k = Some l ∨ reclaimable g w (from_record l) = true.
Proof.
  intros Hdb0. revert db; induction rows as [|held rest IH]; intros db Hsub Hrows; [split; [done|auto]|].
  cbn [sweep_loop]. destruct (match wanted with Some ks => _ | None => _ end);
    [apply IH; set_solver|].
  destruct (try_reclaim_eq g w held db) as [why ->].
  destruct (reclaimable g w held) eqn:Hrec.
  - destruct (IH (_delete held db)) as [Hs Hk]; [|set_solver|].
    { etrans; [|exact Hsub]. apply map_subseteq_spec. intros k l. apply delete_lookup. }
    destruct (sweep_loop g w wanted rest (_delete held db)) as [db' dropped]; simpl in *. split.
    + etrans; [exact Hs|]. apply map_subseteq_spec. intros k l. apply delete_lookup.
    + intros k l Hl. destruct (delete_keeps held db k l Hl) as [Hl'| ->]; [by apply Hk|right].
      assert (held ∈ from_record <$> (map_to_list db0).*2) as Hin by set_solver.
      apply list_elem_of_fmap in Hin as (r & -> & Hr).
      apply list_elem_of_fmap in Hr as ([rk r'] & -> & Hr%elem_of_map_to_list). simpl in *.
      destruct (Hdb0 _ _ Hr) as [-> _].
      rewrite map_subseteq_spec in Hsub. apply Hsub in Hl. rewrite Hr in Hl. by injection Hl as ->.
  - destruct (IH db) as [Hs Hk]; [done|set_solver|].
    by destruct (sweep_loop g w wanted rest db) as [db' dropped].
Qed.

Lemma sweep_effect g w kinds db :
  table_ok db →
  (sweep g w kinds db).1 ⊆ db
  ∧ ∀ k l, db !! k = Some l →
      (sweep g w kinds db).1 !! k = Some l ∨ reclaimable g w (from_record l) = true.
Proof.
  intros Hdb. unfold sweep.
  destruct (match kinds with None => _ | Some ks => _ end) as [wanted|]; [|simpl; auto].
  pose proof (sweep_loop_effect g w wanted (from_record <$> (map_to_list db).*2) db db Hdb) as H.
  destruct (sweep_loop _ _ _ _ _) as [db' dropped]. apply H; set_solver.
Qed.

Lemma validate_port_range_ok r low high :
  validate_port_range r = Ok (low, high) → 1024 <= low ∧ low <= high ∧ high <= 65535.
Proof. unfold validate_port_range. intros H. res_inv. to_prop. simpl in *. lia. Qed.

Lemma acquire_port_effect g w owner ttl pid identity meta range db :
  table_ok db →
  let db' := (acquire_port g w owner ttl pid identity meta range db).1 in
  table_ok db'
  ∧ ∀ k l, db !! k = Some l → db' !! k = Some l ∨ reclaimable g w (from_record l) = true.
Proof.
  intros Hdb. unfold acquire_port. simpl.
  match goal with |- context [match ?m with Ok _ => _ | Err _ => _ end] => destruct m as [x|] eqn:Hm end;
    [|simpl; auto].
  res_inv. destruct a2 as [low high]. simpl.
  set (loop := acquire_port_loop g w a a0 pid identity a1 (port_keys db) (port_list low high) db).
  assert (∀ k l, db !! k = Some l → loop.1 !! k = Some l ∨ reclaimable g w (from_record l) = true)
    as Hkeep by (intros; apply loop_keeps; [done|apply port_keys_cover|done]).
  assert (table_ok loop.1) as Htab.
  { apply loop_table; [done|apply port_keys_cover|]. intros p Hp%port_list_elem.
    apply validate_port_range_ok in Hok2.
    apply new_lease_ok; eauto with cluster. intros _. exists p. split; [lia|done]. }
  by destruct loop as [db' [l|]].
Qed.

Lemma commit_table g w c db : table_ok db → table_ok (commit g w c db).
Proof.
  intros Hdb. destruct c; simpl.
  - destruct (acquire_effect g w k key0 owner ttl pid identity meta db Hdb)
      as [-> |(k' & tk & o & port & l & -> & _ & Hk & Hl & _)]; [done|]. by apply map_Forall_insert_2.
  - by apply acquire_port_effect.
  - destruct (heartbeat_effect w k key0 owner ttl db Hdb)
      as [->|(rk & held & l & _ & -> & Hk & Hl & _)]; [done|]. by apply map_Forall_insert_2.
  - destruct (release_effect k key0 owner db Hdb) as [->|(rk & held & _ & _ & ->)]; [done|].
    by apply map_Forall_delete.
  - intros k l Hl. apply Hdb. eapply map_subseteq_spec; [by apply sweep_effect|done].
Qed.

Lemma reachable_table db : table_reachable db → table_ok db.
Proof. induction 1; [apply map_Forall_empty|by apply commit_table]. Qed.

(** Every row a registry ever stores is well formed, whatever processes call it and
    whatever they observe: filed under its own kind and key, with a valid kind, owner, TTL
    and metadata, and for a port the canonical number of an unprivileged port. *)
Theorem lease_table_well_formed db : table_reachable db → table_ok db.
Proof. induction 1; [apply map_Forall_empty|by apply commit_table]. Qed.

(** C27: a lease is never stolen: one call of any process leaves a held lease with its
    owner and its id, unless the owner itself releases it or the lease is reclaimable at
    that moment, that is its owner is proven dead or its TTL has run out and something
    positively proves that the resource was cleaned up. *)
Theorem lease_never_stolen db g w c rk held :
  table_reachable db → db !! rk = Some held →
  (∃ l, commit g w c db !! rk = Some l ∧ lease_id l = lease_id held ∧ owner_id l = owner_id held)
  ∨ (∃ k ky, c = Release k ky (owner_id held))
  ∨ reclaimable g w (from_record held) = true.
Proof.
  intros Hdb%reachable_table Hh. destruct c; simpl.
  - destruct (acquire_effect g w k key0 owner ttl pid identity meta db Hdb)
      as [-> |(k' & tk & o & port & l & -> & Hg & Hk & Hl & Hsame)]; [eauto|].
    destruct (decide (rk = (k', tk))) as [->|Hne]; [|left; rewrite lookup_insert_ne by done; eauto].
    rewrite lookup_insert_eq. unfold grantable, _row in Hg. rewrite Hh in Hg. simpl in Hg.
    destruct (String.eqb_spec (owner_id held) o) as [Ho|]; [|right; right; by to_prop].
    left. exists l. destruct (Hsame held Hh Ho). split_and!; [done..|congruence].
  - destruct (proj2 (acquire_port_effect g w owner ttl pid identity meta range db Hdb) rk held Hh); eauto.
  - destruct (heartbeat_effect w k key0 owner ttl db Hdb)
      as [->|(rk' & held' & l & Hh' & -> & _ & _ & Hid & Ho)]; [eauto|].
    left. destruct (decide (rk = rk')) as [->|Hne]; [|rewrite lookup_insert_ne by done; eauto].
    rewrite lookup_insert_eq. exists l. split_and!; congruence.
  - destruct (release_effect k key0 owner db Hdb) as [->|(rk' & held' & Hh' & <- & ->)]; [eauto|].
    destruct (decide (rk = rk')) as [->|Hne]; [|left; rewrite lookup_delete_ne by done; eauto].
    rewrite Hh in Hh'. injection Hh' as <-. eauto.
  - destruct (proj2 (sweep_effect g w kinds db Hdb) rk held Hh); eauto.
Qed.

(** ** Reading back *)

Lemma from_record_idem l : from_record (from_record l) = from_record l.
Proof.
  unfold from_record. simpl. f_equal.
  - destruct (owner_identity l) as [s|]; [|done]. destruct (String.eqb s "") eqn:E; [done|]. by rewrite E.
  - destruct (is_zero (heartbeat_at l)) eqn:E; [|by rewrite E]. by destruct (is_zero (acquired_at l)).
Qed.

Lemma granted_reads_back w k ky owner ttl pid identity meta db :
  identity ≠ Some "" → is_zero (grant_clock w) = false →
  from_record (granted w k ky owner ttl pid identity meta db)
  = granted w k ky owner ttl pid identity meta db.
Proof.
  intros Hid Hz. assert (from_record (_new_lease w k ky owner ttl pid identity meta)
                         = _new_lease w k ky owner ttl pid identity meta) as Hnew.
  { unfold from_record, _new_lease. simpl. rewrite Hz. f_equal.
    destruct identity as [s|]; [|done]. by destruct (String.eqb_spec s "") as [->|]. }
  unfold granted. destruct (_row db k ky) as [held|]; [|done].
  destruct (String.eqb _ _); [|done]. apply from_record_idem.
Qed.

Lemma normal_key_target k key' kv k' tk port :
  validate_kind k = Ok k' → validate_text "key" kv = Ok key' → lease_target k' key' = Ok (tk, port) →
  _normal_key k kv = Ok (k', tk).
Proof.
  intros Hk Hv Ht. unfold _normal_key. rewrite Hk, (bind_Ok _ _ _ eq_refl); cbn beta.
  rewrite (bind_Ok _ _ _ Hv); cbn beta. unfold lease_target in Ht.
  destruct (String.eqb k' KIND_PORT); [|by simplify_eq/=].
  unfold _port_key, validate_port_range in Ht. res_inv. by rewrite Hok2.
Qed.

(** What [acquire] returns is what every process then reads as the holder, and its
    owner can give it back: [release] returns true and empties exactly that row, after
    which the resource has no holder. *)
Theorem acquired_lease_roundtrip g w k kv owner ttl pid identity meta db db' l :
  table_reachable db → identity ≠ Some "" → is_zero (grant_clock w) = false →
  acquire g w k kv owner ttl pid identity meta db = (db', Ok l) →
  holder k kv db' = Ok (Some l)
  ∧ release k kv (owner_id l) db' = (delete (kind l, key l) db', Ok true)
  ∧ holder k kv (release k kv (owner_id l) db').1 = Ok None.
Proof.
  intros Hr%reachable_table Hid Hz H.
  assert (table_ok db') as Hdb'.
  { pose proof (commit_table g w (Acquire k kv owner ttl pid identity meta) db Hr) as Ht.
    simpl in Ht. by rewrite H in Ht. }
  unfold acquire, in_transaction in H.
  match type of H with match ?m with _ => _ end = _ => destruct m as [[db1 l1]|] eqn:Hm end; [|done].
  injection H as -> ->. res_inv. destruct a4 as [tk port]. simpl in *.
  pose proof (acquire_body_outcome g w a tk a1 a2 pid identity a3 port db Hr) as Hout. simpl in Hout.
  destruct (grantable g w a tk a1 pid identity port db); [|destruct Hout; congruence].
  rewrite Hout in Hm. injection Hm as <- <-.
  destruct (granted_target w a tk a1 a2 pid identity a3 db Hr) as (Hk & Hy & Hown & _).
  pose proof (granted_reads_back w a tk a1 a2 pid identity a3 db Hid Hz) as Hback.
  set (l := granted w a tk a1 a2 pid identity a3 db) in *.
  pose proof (normal_key_target k a0 kv a tk port Hok Hok0 Hok4) as Hnorm.
  assert (_row (<[(a, tk):=l]> db) a tk = Some l) as Hrow
    by (unfold _row; rewrite lookup_insert_eq; simpl; by rewrite Hback).
  assert (release k kv (owner_id l) (<[(a, tk):=l]> db) = (delete (kind l, key l) (<[(a, tk):=l]> db), Ok true))
    as Hrel.
  { unfold release. rewrite Hnorm. simpl. rewrite Hrow, String.eqb_refl. simpl.
    rewrite <-Hback at 1. rewrite (delete_read l _ (a, tk) Hdb'); [|apply lookup_insert_eq].
    by rewrite Hk, Hy. }
  split_and!; [|done|].
  - unfold holder. rewrite Hnorm. simpl. by rewrite Hrow.
  - rewrite Hrel. unfold holder. rewrite Hnorm. simpl. unfold _row.
    by rewrite Hk, Hy, lookup_delete_eq.
Qed.

(** ** The name of a kind *)

Lemma drop_final_newline_spec s :
  drop_final_newline s = s ∨ s = drop_final_newline s +:+ String (ascii_of_N 10) "".
Proof.
  induction s as [|c s IH]; [by left|]. destruct s as [|c' s].
  - simpl. destruct (N.eqb_spec (N_of_ascii c) 10) as [E|]; [|by left]. right.
    rewrite <-(ascii_N_embedding c), E. done.
  - change (drop_final_newline (String c (String c' s)))
      with (String c (drop_final_newline (String c' s))).
    destruct IH as [IH|IH]; [left; by rewrite IH|right].
    exact (f_equal (String c) IH).
Qed.

Lemma drop_final_newline_app t : drop_final_newline (t +:+ String (ascii_of_N 10) "") = t.
Proof.
  induction t as [|c t IH]; [done|]. simpl in *. destruct (t +:+ _) eqn:E; [by destruct t|].
  by rewrite IH.
Qed.

(** The kinds [validate_kind] accepts are the short lower-case names and also such a
    name followed by a newline, which the pattern's [$] lets through. *)
Theorem validate_kind_accepts s :
  validate_kind (PStr s) = Ok s ↔
  is_snake s = true ∨ ∃ t, is_snake t = true ∧ s = t +:+ String (ascii_of_N 10) "".
Proof.
  unfold validate_kind, check_str, kind_matches. simpl. split.
  - intros H. destruct (is_snake s) eqn:E; [by left|]. simpl in H.
    destruct (is_snake (drop_final_newline s)) eqn:E'; [|done].
    destruct (drop_final_newline_spec s) as [Hs|Hs]; [congruence|]. eauto.
  - intros [->|(t & Ht & ->)]; [done|]. rewrite drop_final_newline_app, Ht. by rewrite orb_true_r.
Qed.

(** ** Examples *)

(** A quiet machine: nothing is proven dead, every port can be bound. *)
Definition quiet_world : world :=
  MkWorld (λ _ _, false) (λ _, true) (λ _, true) (λ _, f64_of_Z 100) (f64_of_Z 100) "00ff".
Definition plain_registry : registry := MkRegistry (47000, 47003) ∅.
Definition lease_47000 : ResourceLease :=
  MkLease "rl-00ff" "port" "47000" "worker-a" (f64_of_Z 100) (f64_of_Z 160) (f64_of_Z 60)
    (Some 7) None (f64_of_Z 100) [].
Definition take_port (kind owner : string) : call :=
  Acquire (PStr kind) (PStr "047000") (PStr owner) (PInt 60) (Some 7) None PNone.
Definition held_once : gmap (string * string) ResourceLease :=
  commit plain_registry quiet_world (take_port "port" "worker-a") ∅.

Lemma held_once_row : held_once !! ("port", "47000") = Some lease_47000.
Proof. vm_compute. reflexivity. Qed.

Lemma held_once_reachable : table_reachable held_once.
Proof. apply table_call, table_new. Qed.

Lemma lease_table_well_formed_witness : table_ok held_once.
Proof. exact (lease_table_well_formed held_once held_once_reachable). Defined.

Lemma acquire_outcome_witness :
  ∃ msg, acquire plain_registry quiet_world (PStr "port") (PStr "47000") (PStr "worker-b") (PInt 60)
    (Some 8) None PNone held_once = (held_once, Err (Raise (Conflict RESOURCE_LEASE_BUSY) msg)).
Proof.
  exact (acquire_outcome plain_registry quiet_world (PStr "port") (PStr "47000") (PStr "worker-b")
    (PInt 60) (Some 8) None PNone held_once "port" "47000" "worker-b" (f64_of_Z 60) [] "47000"
    (Some 47000) (reachable_table _ held_once_reachable)
    ltac:(vm_compute; reflexivity) ltac:(vm_compute; reflexivity) ltac:(vm_compute; reflexivity)
    ltac:(vm_compute; reflexivity) ltac:(vm_compute; reflexivity) ltac:(vm_compute; reflexivity)).
Defined.

Definition lease_47001 : ResourceLease :=
  MkLease "rl-00ff" "port" "47001" "worker-b" (f64_of_Z 100) (f64_of_Z 160) (f64_of_Z 60)
    None None (f64_of_Z 100) [].

Lemma acquire_port_lowest_witness :
  (acquire_port plain_registry quiet_world (PStr "worker-b") (PInt 60) None None PNone None
     held_once).2 = Ok lease_47001
  ∧ ∃ p, 47000 <= p <= 47003 ∧ key lease_47001 = pretty p
      ∧ open_port plain_registry quiet_world held_once p = true.
Proof.
  assert ((acquire_port plain_registry quiet_world (PStr "worker-b") (PInt 60) None None PNone None
     held_once).2 = Ok lease_47001) as E by (vm_compute; reflexivity).
  split; [exact E|].
  destruct (proj1 (acquire_port_lowest plain_registry quiet_world (PStr "worker-b") (PInt 60) None None
    PNone None held_once "worker-b" (f64_of_Z 60) [] 47000 47003
    (reachable_table _ held_once_reachable) ltac:(vm_compute; reflexivity)
    ltac:(vm_compute; reflexivity) ltac:(vm_compute; reflexivity) ltac:(vm_compute; reflexivity))
    lease_47001 E) as (p & Hr & Hk & _ & _ & Ho & _).
  exists p. split; [exact Hr|]. split; [exact Hk|exact Ho].
Defined.

Lemma lease_never_stolen_witness :
  ∃ l, commit plain_registry quiet_world (take_port "port" "worker-b") held_once !! ("port", "47000")
       = Some l ∧ owner_id l = "worker-a".
Proof.
  destruct (lease_never_stolen held_once plain_registry quiet_world (take_port "port" "worker-b")
    ("port", "47000") lease_47000 held_once_reachable held_once_row)
    as [(l & Hl & _ & Ho)|[(k & ky & ?)|Hrec]].
  - exists l. split; [exact Hl|exact Ho].
  - discriminate.
  - vm_compute in Hrec. discriminate.
Defined.

Lemma acquired_lease_roundtrip_witness :
  holder (PStr "port") (PStr "047000") held_once = Ok (Some lease_47000).
Proof.
  refine (proj1 (acquired_lease_roundtrip plain_registry quiet_world (PStr "port") (PStr "047000")
    (PStr "worker-a") (PInt 60) (Some 7) None PNone ∅ held_once lease_47000 table_new _ _ _)).
  - discriminate.
  - vm_compute. reflexivity.
  - apply (injective_projections _ (held_once, Ok lease_47000)); [reflexivity|].
    vm_compute. reflexivity.
Defined.

(** The newline kind bypasses the checks of port leases: two owners hold the same port. *)
Lemma port_leased_twice :
  is_ok (acquire plain_registry quiet_world (PStr ("port" +:+ String (ascii_of_N 10) ""))
           (PStr "47000") (PStr "worker-b") (PInt 60) None None PNone held_once).2 = true.
Proof. vm_compute. reflexivity. Qed.
