(* ===== verification/ModelPlacement.v ===== *)
(** Model deployments and the recovery of lost shards.

    [Module Deployment]: [domain/model_deployment.py], the immutable manifest of one model
    replica with its digest.  [Module Conformance]: [domain/model_conformance.py], the gate
    over a backend's evidence.  [Module Recovery]: [domain/model_shard_recovery.py], the
    decision to replace lost ranks.  A test with [type(x) is tuple] or [isinstance] takes a
    [dyn] argument. *)
From S2P Require Import Prelude PyText CanonicalJson Sha256.
From Stdlib Require Import Ascii.

Local Open Scope Z_scope.

(** [A-Za-z0-9._-] *)
Definition is_stable_char (c : ascii) : bool :=
  is_alnum c || bool_decide (c = "."%char) || bool_decide (c = "_"%char) || bool_decide (c = "-"%char).

(** [[A-Za-z0-9][A-Za-z0-9._-]{0,127}] *)
Definition is_stable_id (s : string) : bool :=
  match s with
  | EmptyString => false
  | String c s' => is_alnum c && str_forallb is_stable_char s' && (String.length s' <=? 127)%nat
  end.

Module Deployment.

Definition _identity (value : pyval) (name : string) : res string :=
  check_str is_stable_id ValueError (name +:+ " must be a bounded stable identity") value.

Definition _integer (value : pyval) (name : string) (minimum maximum : Z) : res Z :=
  check_int minimum maximum ValueError
    (name +:+ " must be an integer within " +:+ pretty minimum +:+ ".." +:+ pretty maximum) value.

Definition _sha256 (value : pyval) (name : string) : res string :=
  check_str is_digest ValueError (name +:+ " must be a canonical SHA-256 digest") value.

Record ModelRank := MkRank {
  rank : Z;
  host_id : string;
  worker_id : string;
  device_id : string
}.
#[export] Instance ModelRank_eq_dec : EqDecision ModelRank.
Proof. solve_decision. Defined.

Definition ModelRank_init (r host worker device : pyval) : res ModelRank :=
  r' ← _integer r "rank" 0 255;
  host' ← _identity host "host_id";
  worker' ← _identity worker "worker_id";
  device' ← _identity device "device_id";
  Ok (MkRank r' host' worker' device').

(** The physical device of an assignment. *)
Definition device (a : ModelRank) : string * string := (host_id a, device_id a).

Record ModelDeployment := MkDeployment {
  cluster_id : string;
  deployment_id : string;
  revision : Z;
  backend : string;
  backend_digest : string;
  model_bundle_digest : string;
  runtime_config_digest : string;
  context_tokens : Z;
  tensor_parallel : Z;
  pipeline_parallel : Z;
  reservation_group : string;
  ranks : list ModelRank
}.

(** The loop over the assignments. *)
Fixpoint check_ranks (i : Z) (devices : list (string * string)) (l : list (dyn ModelRank))
  : res (list ModelRank) :=
  match l with
  | [] => Ok []
  | Foreign :: _ => throw ValueError "ranks must be exact contiguous ordered assignments"
  | Inst a :: rest =>
      _ ← require (rank a =? i) ValueError "ranks must be exact contiguous ordered assignments";
      _ ← require (negb (mem (device a) devices)) ValueError
            "one physical device cannot appear in multiple ranks";
      rest' ← check_ranks (i + 1) (device a :: devices) rest;
      Ok (a :: rest')
  end.

Definition ModelDeployment_init (cluster deployment rev back back_digest bundle_digest
    config_digest context tensor pipeline group : pyval) (assigned : dyn (list (dyn ModelRank)))
  : res ModelDeployment :=
  cluster' ← _identity cluster "cluster_id";
  deployment' ← _identity deployment "deployment_id";
  back' ← _identity back "backend";
  group' ← _identity group "reservation_group";
  back_digest' ← _sha256 back_digest "backend_digest";
  bundle' ← _sha256 bundle_digest "model_bundle_digest";
  config' ← _sha256 config_digest "runtime_config_digest";
  rev' ← _integer rev "revision" 1 max_i64;
  context' ← _integer context "context_tokens" 1 (Z.shiftl 1 24);
  tensor' ← _integer tensor "tensor_parallel" 1 256;
  pipeline' ← _integer pipeline "pipeline_parallel" 1 256;
  match assigned with
  | Foreign => throw ValueError "ranks must be an immutable tuple of 1..256 assignments"
  | Inst l =>
      _ ← require ((1 <=? zlen l) && (zlen l <=? 256)) ValueError
            "ranks must be an immutable tuple of 1..256 assignments";
      _ ← require (zlen l =? tensor' * pipeline') ValueError
            "rank count must match tensor and pipeline topology";
      ranks' ← check_ranks 0 [] l;
      Ok (MkDeployment cluster' deployment' rev' back' back_digest' bundle' config' context'
            tensor' pipeline' group' ranks')
  end.

(** [asdict] of an assignment and of the manifest. *)
Definition rank_json (a : ModelRank) : json :=
  JObj [("rank", JInt (rank a)); ("host_id", JStr (host_id a)); ("worker_id", JStr (worker_id a));
        ("device_id", JStr (device_id a))].

Definition manifest_json (d : ModelDeployment) : json :=
  JObj [("cluster_id", JStr (cluster_id d)); ("deployment_id", JStr (deployment_id d));
        ("revision", JInt (revision d)); ("backend", JStr (backend d));
        ("backend_digest", JStr (backend_digest d));
        ("model_bundle_digest", JStr (model_bundle_digest d));
        ("runtime_config_digest", JStr (runtime_config_digest d));
        ("context_tokens", JInt (context_tokens d)); ("tensor_parallel", JInt (tensor_parallel d));
        ("pipeline_parallel", JInt (pipeline_parallel d));
        ("reservation_group", JStr (reservation_group d)); ("ranks", JArr (List.map rank_json (ranks d)))].

(** The text the digest is computed from. *)
Definition payload (d : ModelDeployment) : string :=
  json_dumps (JObj [("schema", JStr "sonder.model-deployment.v1"); ("manifest", manifest_json d)]).

Definition digest (d : ModelDeployment) : string := sha256_hex (payload d).

Definition is_multihost (d : ModelDeployment) : bool :=
  (1 <? length (remove_dups (host_id <$> ranks d)))%nat.

End Deployment.

Module Conformance.

Definition SUPPORTED_OPERATIONS : list string :=
  ["cancellation"; "generation"; "health"; "replacement"; "shard_loss_recovery"; "streaming";
   "transport_failure"].
Definition REQUIRED_OPERATIONS : list string :=
  ["cancellation"; "generation"; "health"; "replacement"; "streaming"; "transport_failure"].

Definition _identity (value : pyval) (field : string) : res string :=
  check_str is_identity ConformanceError (field +:+ " must be a bounded stable identity") value.

Definition _digest (value : pyval) (field : string) : res string :=
  check_str is_digest ConformanceError (field +:+ " must be a canonical SHA-256 digest") value.

Definition _operations (values : dyn (list pyval)) (field : string) : res (list string) :=
  match values with
  | Foreign => throw ConformanceError (field +:+ " must be a bounded tuple of operations")
  | Inst l =>
      _ ← require (negb (zlen l =? 0) && (zlen l <=? zlen SUPPORTED_OPERATIONS)) ConformanceError
            (field +:+ " must be a bounded tuple of operations");
      ops ← mapM_res (check_str (λ s, mem s SUPPORTED_OPERATIONS) ConformanceError
                        (field +:+ " contains an unknown operation")) l;
      _ ← require (no_dups ops) ConformanceError (field +:+ " contains a duplicate operation");
      Ok (sorted_text ops)
  end.

(** [datetime.fromisoformat(value.replace("Z", "+00:00"))]: nothing if the text is not a
    timestamp, else whether it has an offset, and its [isoformat()]. *)
Definition iso_reader : Type := string → option (bool * string).

Definition _observed_at (iso : iso_reader) (value : pyval) : res string :=
  match py_str value with
  | None => throw ConformanceError "observed_at must be a timezone-aware ISO timestamp"
  | Some s =>
      match iso s with
      | None => throw ConformanceError "observed_at must be a timezone-aware ISO timestamp"
      | Some (aware, text) =>
          _ ← require aware ConformanceError "observed_at must be timezone-aware";
          Ok text
      end
  end.

Record BackendConformanceEvidence := MkEvidence {
  backend_id : string;
  deployment_digest : string;
  supported_operations : list string;
  verified_operations : list string;
  evidence_ids : list string;
  observed_at : string
}.

Definition Evidence_init (iso : iso_reader) (back digest : pyval)
    (supported verified ids : dyn (list pyval)) (observed : pyval)
  : res BackendConformanceEvidence :=
  back' ← _identity back "backend_id";
  digest' ← _digest digest "deployment_digest";
  supported' ← _operations supported "supported_operations";
  verified' ← _operations verified "verified_operations";
  _ ← require (subset verified' supported') ConformanceError
        "verified_operations must be supported by the backend";
  match ids with
  | Foreign => throw ConformanceError "evidence_ids must be a bounded tuple"
  | Inst l =>
      _ ← require ((1 <=? zlen l) && (zlen l <=? 256)) ConformanceError
            "evidence_ids must be a bounded tuple";
      ids' ← mapM_res (λ v, _identity v "evidence_id") l;
      _ ← require (no_dups ids') ConformanceError "evidence_ids contains a duplicate";
      observed' ← _observed_at iso observed;
      Ok (MkEvidence back' digest' supported' verified' ids' observed')
  end.

Definition evidence_payload (e : BackendConformanceEvidence) : string :=
  json_dumps (JObj [("schema", JStr "sonder.backend-conformance.v1");
    ("backend_id", JStr (backend_id e)); ("deployment_digest", JStr (deployment_digest e));
    ("supported_operations", JArr (List.map JStr (supported_operations e)));
    ("verified_operations", JArr (List.map JStr (verified_operations e)));
    ("evidence_ids", JArr (List.map JStr (evidence_ids e))); ("observed_at", JStr (observed_at e))]).

Definition evidence_digest (e : BackendConformanceEvidence) : string := sha256_hex (evidence_payload e).

Record ConformanceResult := MkResult {
  accepted : bool;
  reason : string;
  required_operations : list string;
  missing_operations : list string;
  unsupported_operations : list string;
  distributed : bool
}.

(** [tuple(sorted(required - set(l)))] *)
Definition sorted_minus (required l : list string) : list string :=
  sorted_text (List.filter (λ o, negb (mem o l)) required).

Definition evaluate_conformance (evidence : dyn BackendConformanceEvidence) (dist : bool)
  : res ConformanceResult :=
  match evidence with
  | Foreign => throw ConformanceError "backend conformance evidence is required"
  | Inst e =>
      let required := if dist then REQUIRED_OPERATIONS ++ ["shard_loss_recovery"]
                      else REQUIRED_OPERATIONS in
      let required_tuple := sorted_text required in
      let missing := sorted_minus required (verified_operations e) in
      let unsupported := sorted_minus required (supported_operations e) in
      Ok (if negb (bool_decide (missing = [])) then
            MkResult false
              (if dist && bool_decide (missing = ["shard_loss_recovery"])
               then "distributed_operations_unverified" else "required_operations_unverified")
              required_tuple missing unsupported dist
          else MkResult true "required_operations_verified" required_tuple [] [] dist)
  end.

Definition verify_deployment_conformance (deployment : dyn Deployment.ModelDeployment)
    (evidence : dyn BackendConformanceEvidence) : res ConformanceResult :=
  match deployment, evidence with
  | Foreign, _ => throw ConformanceError "model deployment is required"
  | _, Foreign => throw ConformanceError "backend conformance evidence is required"
  | Inst d, Inst e =>
      if negb (String.eqb (backend_id e) (Deployment.backend d))
      then Ok (MkResult false "backend_id_mismatch" [] [] [] (Deployment.is_multihost d))
      else if negb (String.eqb (deployment_digest e) (Deployment.digest d))
      then Ok (MkResult false "deployment_digest_mismatch" [] [] [] (Deployment.is_multihost d))
      else evaluate_conformance (Inst e) (Deployment.is_multihost d)
  end.

Lemma sorted_minus_nil required l : sorted_minus required l = [] ↔ required ⊆ l.
Proof.
  unfold sorted_minus. split.
  - intros H o Ho. destruct (mem o l) eqn:E; [by apply mem_spec|].
    assert (o ∈ sorted_text (List.filter (λ o, negb (mem o l)) required)) as Hin.
    { rewrite sorted_text_Permutation. apply list_elem_of_In, filter_In.
      rewrite <-list_elem_of_In, E. done. }
    rewrite H in Hin. by apply elem_of_nil in Hin.
  - intros H. destruct (sorted_text _) as [|o k] eqn:E; [done|].
    assert (o ∈ sorted_text (List.filter (λ o, negb (mem o l)) required)) as Hin by (rewrite E; by left).
    rewrite sorted_text_Permutation in Hin. apply list_elem_of_In, filter_In in Hin as [Ho Hm].
    to_prop. destruct Hm. by apply H, list_elem_of_In.
Qed.

(** Conformance is accepted exactly for evidence of this very manifest: the same backend
    and digest, every required operation verified, and shard-loss recovery too when the
    deployment spans hosts; the result says whether it does. *)
Theorem conformance_accepted_iff d e :
  ∃ r, verify_deployment_conformance (Inst d) (Inst e) = Ok r
    ∧ distributed r = Deployment.is_multihost d
    ∧ (accepted r = true ↔
        backend_id e = Deployment.backend d ∧ deployment_digest e = Deployment.digest d
        ∧ REQUIRED_OPERATIONS ⊆ verified_operations e
        ∧ (Deployment.is_multihost d = true → "shard_loss_recovery" ∈ verified_operations e)).
Proof.
  unfold verify_deployment_conformance.
  destruct (String.eqb_spec (backend_id e) (Deployment.backend d)) as [Hb|Hb]; cbn [negb].
  2: { eexists. split; [done|]. split; [done|]. split; [done|]. by intros (? & _). }
  destruct (String.eqb_spec (deployment_digest e) (Deployment.digest d)) as [Hd|Hd]; cbn [negb].
  2: { eexists. split; [done|]. split; [done|]. split; [done|]. by intros (_ & ? & _). }
  unfold evaluate_conformance. eexists. split; [done|].
  set (required := if Deployment.is_multihost d then REQUIRED_OPERATIONS ++ ["shard_loss_recovery"]
                   else REQUIRED_OPERATIONS).
  pose proof (sorted_minus_nil required (verified_operations e)) as Hs.
  assert (required ⊆ verified_operations e ↔ REQUIRED_OPERATIONS ⊆ verified_operations e
    ∧ (Deployment.is_multihost d = true → "shard_loss_recovery" ∈ verified_operations e)) as Hreq.
  { unfold required. destruct (Deployment.is_multihost d); [|naive_solver].
    rewrite list_subseteq_app_iff_l. set_solver. }
  destruct (bool_decide_reflect (sorted_minus required (verified_operations e) = [])) as [Hm|Hm]; cbn [negb].
  - cbn. tauto.
  - cbn. split; [done|]. split; [done|]. tauto.
Qed.

End Conformance.

Module Recovery.

Import Deployment.

Inductive RecoveryState :=
  | READY
  | PAUSED.
#[export] Instance RecoveryState_eq_dec : EqDecision RecoveryState.
Proof. solve_decision. Defined.

Definition _MAX_SHARDS : Z := 256.

Definition _identity (value : pyval) (field : string) : res string :=
  check_str is_stable_id ShardRecoveryError (field +:+ " must be a bounded stable identity") value.

Definition _digest (value : pyval) (field : string) : res string :=
  check_str is_digest ShardRecoveryError (field +:+ " must be a canonical SHA-256 digest") value.

Definition _capacity (value : pyval) : res Z :=
  check_int 1 (Z.shiftl 1 24) ShardRecoveryError "capacity_tokens must be within 1..16777216" value.

Record ShardRecoveryCandidate := MkCandidate {
  c_rank : Z;
  c_host_id : string;
  c_worker_id : string;
  c_device_id : string;
  c_backend_id : string;
  c_backend_digest : string;
  c_model_bundle_digest : string;
  c_runtime_config_digest : string;
  c_reservation_group : string;
  c_capacity_tokens : Z;
  c_healthy : bool
}.

Definition Candidate_init (r host worker dev back back_digest bundle config group capacity ok : pyval)
  : res ShardRecoveryCandidate :=
  r' ← check_int 0 (_MAX_SHARDS - 1) ShardRecoveryError "rank must be within 0..255" r;
  host' ← _identity host "host_id";
  worker' ← _identity worker "worker_id";
  dev' ← _identity dev "device_id";
  back' ← _identity back "backend_id";
  group' ← _identity group "reservation_group";
  back_digest' ← _digest back_digest "backend_digest";
  bundle' ← _digest bundle "model_bundle_digest";
  config' ← _digest config "runtime_config_digest";
  capacity' ← _capacity capacity;
  ok' ← check_bool ShardRecoveryError "healthy must be boolean" ok;
  Ok (MkCandidate r' host' worker' dev' back' back_digest' bundle' config' group' capacity' ok').

Definition physical_device (c : ShardRecoveryCandidate) : string * string :=
  (c_host_id c, c_device_id c).

Definition as_rank (c : ShardRecoveryCandidate) : res ModelRank :=
  ModelRank_init (PInt (c_rank c)) (PStr (c_host_id c)) (PStr (c_worker_id c)) (PStr (c_device_id c)).

Record ShardRecoveryDecision := MkDecision {
  state : RecoveryState;
  reason : string;
  deployment_digest : string;
  lost_ranks : list Z;
  replacement_ranks : list ModelRank;
  kv_cache_recovery_verified : bool;
  application_replay_required : bool
}.
#[export] Instance ShardRecoveryDecision_eq_dec : EqDecision ShardRecoveryDecision.
Proof. solve_decision. Defined.

Definition Decision_init (st : dyn RecoveryState) (why digest : pyval) (lost : dyn (list pyval))
    (replacements : dyn (list (dyn ModelRank))) (kv replay : pyval) : res ShardRecoveryDecision :=
  digest' ← _digest digest "deployment_digest";
  st' ← inst_of ShardRecoveryError "state must be a RecoveryState" st;
  why' ← check_str (λ s, negb (String.eqb s "")) ShardRecoveryError "reason is required" why;
  lost0 ← inst_of ShardRecoveryError "lost_ranks must be a non-empty tuple" lost;
  _ ← require (negb (zlen lost0 =? 0)) ShardRecoveryError "lost_ranks must be a non-empty tuple";
  _ ← require (zlen lost0 <=? _MAX_SHARDS) ShardRecoveryError
        "lost_ranks are outside the bounded shard range";
  lost' ← mapM_res (check_int 0 (_MAX_SHARDS - 1) ShardRecoveryError
            "lost_ranks are outside the bounded shard range") lost0;
  _ ← require (no_dups lost') ShardRecoveryError "lost_ranks must not contain duplicates";
  replacements0 ← inst_of ShardRecoveryError "replacement_ranks must be an immutable tuple" replacements;
  replacements' ← mapM_res (inst_of ShardRecoveryError
                    "replacement_ranks must contain ModelRank values") replacements0;
  let replacement_ids := rank <$> replacements' in
  _ ← require (no_dups replacement_ids) ShardRecoveryError
        "replacement_ranks must not contain duplicates";
  _ ← require (negb (bool_decide (st' = READY) && negb (bool_decide (replacement_ids = lost'))))
        ShardRecoveryError "ready recovery must replace exactly the lost ranks";
  _ ← require (negb (bool_decide (st' = PAUSED) && negb (zlen replacements' =? 0)))
        ShardRecoveryError "paused recovery cannot publish replacement ranks";
  kv' ← check_bool ShardRecoveryError "recovery flags must be boolean" kv;
  replay' ← check_bool ShardRecoveryError "recovery flags must be boolean" replay;
  _ ← require (negb kv') ShardRecoveryError "KV cache recovery cannot be asserted by this contract";
  _ ← require replay' ShardRecoveryError "application replay remains required";
  Ok (MkDecision st' why' digest' lost' replacements' kv' replay').

(** A decision with the default flags. *)
Definition decide_recovery (st : RecoveryState) (why : string) (d : ModelDeployment) (lost : list Z)
    (replacements : list ModelRank) : res ShardRecoveryDecision :=
  Decision_init (Inst st) (PStr why) (PStr (digest d)) (Inst (PInt <$> lost))
    (Inst (Inst <$> replacements)) (PBool false) (PBool true).

Definition _paused (d : ModelDeployment) (lost : list Z) (why : string) : res ShardRecoveryDecision :=
  decide_recovery PAUSED why d lost [].

(** [hash(v)] raises [TypeError]. *)
Fixpoint unhashable (v : pyval) : bool :=
  match v with
  | PList _ | PDict _ => true
  | PTuple l => existsb unhashable l
  | _ => false
  end.

(** The guards on [lost_ranks]: the set of its elements is built first. *)
Definition check_lost (d : ModelDeployment) (lost : dyn (list pyval)) : res (list Z) :=
  l ← inst_of ShardRecoveryError "lost_ranks must be a bounded non-empty tuple" lost;
  _ ← require ((1 <=? zlen l) && (zlen l <=? zlen (ranks d))) ShardRecoveryError
        "lost_ranks must be a bounded non-empty tuple";
  _ ← require (negb (existsb unhashable l)) TypeError "unhashable type";
  lost' ← mapM_res (check_int 0 (zlen (ranks d) - 1) ShardRecoveryError
            "lost_ranks must name unique manifest ranks") l;
  _ ← require (no_dups lost') ShardRecoveryError "lost_ranks must name unique manifest ranks";
  Ok lost'.

Definition check_candidates (candidates : dyn (list (dyn ShardRecoveryCandidate)))
  : res (list ShardRecoveryCandidate) :=
  l ← inst_of ShardRecoveryError "candidates must be a bounded tuple" candidates;
  _ ← require (zlen l <=? _MAX_SHARDS) ShardRecoveryError "candidates must be a bounded tuple";
  mapM_res (inst_of ShardRecoveryError "candidates must contain ShardRecoveryCandidate values") l.

(** [{candidate.rank: candidate for candidate in candidates}] *)
Definition index_by_rank (candidates : list ShardRecoveryCandidate) : gmap Z ShardRecoveryCandidate :=
  dict_by c_rank candidates.

Definition survivors (d : ModelDeployment) (lost : list Z) : list (string * string) :=
  omap (λ '(i, a), if mem (Z.of_nat i) lost then None else Some (device a))
    (imap (λ i a, (i, a)) (ranks d)).

(** The reason the loop stops at the candidate, if any. *)
Definition candidate_problem (d : ModelDeployment) (surviving used : list (string * string))
    (c : ShardRecoveryCandidate) : option string :=
  if negb (c_healthy c) then Some "candidate_unhealthy"
  else if negb (String.eqb (c_backend_id c) (backend d)) then Some "candidate_backend_mismatch"
  else if negb (String.eqb (c_backend_digest c) (backend_digest d))
  then Some "candidate_backend_artifact_mismatch"
  else if negb (String.eqb (c_model_bundle_digest c) (model_bundle_digest d))
          || negb (String.eqb (c_runtime_config_digest c) (runtime_config_digest d))
  then Some "candidate_artifact_mismatch"
  else if negb (String.eqb (c_reservation_group c) (reservation_group d))
  then Some "candidate_reservation_group_mismatch"
  else if c_capacity_tokens c <? context_tokens d then Some "candidate_capacity_insufficient"
  else if mem (physical_device c) surviving then Some "candidate_device_conflicts_with_survivor"
  else if mem (physical_device c) used then Some "candidate_devices_duplicated"
  else None.

(** The loop over the lost ranks; [by_rank[rank]] may raise. *)
Fixpoint candidates_problem (d : ModelDeployment) (surviving used : list (string * string))
    (by_rank : gmap Z ShardRecoveryCandidate) (lost : list Z) : res (option string) :=
  match lost with
  | [] => Ok None
  | r :: lost' =>
      match by_rank !! r with
      | None => throw KeyError (pretty r)
      | Some c =>
          match candidate_problem d surviving used c with
          | Some why => Ok (Some why)
          | None => candidates_problem d surviving (physical_device c :: used) by_rank lost'
          end
      end
  end.

Definition replacement (by_rank : gmap Z ShardRecoveryCandidate) (r : Z) : res ModelRank :=
  match by_rank !! r with
  | None => throw KeyError (pretty r)
  | Some c => as_rank c
  end.

(** [isinstance(conformance, ConformanceResult)], accepted and distributed. *)
Definition conforms (conformance : dyn Conformance.ConformanceResult) : bool :=
  match conformance with
  | Inst c => Conformance.accepted c && Conformance.distributed c
  | Foreign => false
  end.

Definition plan_shard_replacement (deployment : dyn ModelDeployment) (lost_arg : dyn (list pyval))
    (candidates_arg : dyn (list (dyn ShardRecoveryCandidate)))
    (conformance : dyn Conformance.ConformanceResult) (expected : option pyval)
  : res ShardRecoveryDecision :=
  d ← inst_of ShardRecoveryError "model deployment is required" deployment;
  _ ← match expected with
      | None => Ok tt
      | Some v =>
          s ← _digest v "deployment_digest";
          require (String.eqb s (digest d)) ShardRecoveryError
            "deployment_digest does not match the manifest"
      end;
  lost0 ← check_lost d lost_arg;
  candidates ← check_candidates candidates_arg;
  let lost := sort_by Z.leb lost0 in
  if negb (is_multihost d)
  then _paused d lost "single_host_deployment_has_no_distributed_recovery"
  else if negb (conforms conformance)
  then _paused d lost "distributed_backend_conformance_required"
  else if negb (zlen candidates =? zlen lost)
  then _paused d lost "replacement_candidate_count_mismatch"
  else
  let by_rank := index_by_rank candidates in
  if negb (Z.of_nat (size by_rank) =? zlen candidates)
  then _paused d lost "replacement_candidate_ranks_duplicated"
  else if negb (bool_decide (dom by_rank =@{gset Z} list_to_set lost))
  then _paused d lost "candidate_rank_mismatch"
  else
  problem ← candidates_problem d (survivors d lost) [] by_rank lost;
  match problem with
  | Some why => _paused d lost why
  | None =>
      replacements ← mapM_res (replacement by_rank) lost;
      decide_recovery READY "replacement_manifest_ready" d lost replacements
  end.

(** ** Well-formed values *)

(** Constructed values: the constructor accepts the fields of the value. *)
Definition rank_ok (a : ModelRank) : Prop :=
  ModelRank_init (PInt (rank a)) (PStr (host_id a)) (PStr (worker_id a)) (PStr (device_id a)) = Ok a.

Definition rebuild (d : ModelDeployment) : res ModelDeployment :=
  ModelDeployment_init (PStr (cluster_id d)) (PStr (deployment_id d)) (PInt (revision d))
    (PStr (backend d)) (PStr (backend_digest d)) (PStr (model_bundle_digest d))
    (PStr (runtime_config_digest d)) (PInt (context_tokens d)) (PInt (tensor_parallel d))
    (PInt (pipeline_parallel d)) (PStr (reservation_group d)) (Inst (Inst <$> ranks d)).

Definition deployment_ok (d : ModelDeployment) : Prop := rebuild d = Ok d ∧ Forall rank_ok (ranks d).

Definition candidate_ok (c : ShardRecoveryCandidate) : Prop :=
  Candidate_init (PInt (c_rank c)) (PStr (c_host_id c)) (PStr (c_worker_id c)) (PStr (c_device_id c))
    (PStr (c_backend_id c)) (PStr (c_backend_digest c)) (PStr (c_model_bundle_digest c))
    (PStr (c_runtime_config_digest c)) (PStr (c_reservation_group c)) (PInt (c_capacity_tokens c))
    (PBool (c_healthy c)) = Ok c.

(** The manifest after the replacement: a rank of the plan takes the place of the rank it
    names. *)
Definition install (replacements : list ModelRank) (a : ModelRank) : ModelRank :=
  default a (List.find (λ b, rank b =? rank a) replacements).

Definition with_ranks (d : ModelDeployment) (rs : list ModelRank) : ModelDeployment :=
  MkDeployment (cluster_id d) (deployment_id d) (revision d) (backend d) (backend_digest d)
    (model_bundle_digest d) (runtime_config_digest d) (context_tokens d) (tensor_parallel d)
    (pipeline_parallel d) (reservation_group d) rs.

(** The candidate carries the identity of the deployment and enough capacity. *)
Definition fits (d : ModelDeployment) (c : ShardRecoveryCandidate) : Prop :=
  c_healthy c = true ∧ c_backend_id c = backend d ∧ c_backend_digest c = backend_digest d
  ∧ c_model_bundle_digest c = model_bundle_digest d
  ∧ c_runtime_config_digest c = runtime_config_digest d
  ∧ c_reservation_group c = reservation_group d ∧ context_tokens d <= c_capacity_tokens c.

(** ** The assignments of a manifest *)

Lemma check_ranks_ok i devices l rs :
  check_ranks i devices l = Ok rs ↔
  l = Inst <$> rs ∧ (∀ j a, rs !! j = Some a → rank a = i + Z.of_nat j)
  ∧ NoDup (device <$> rs) ∧ ∀ a, a ∈ rs → device a ∉ devices.
Proof.
  revert i devices rs. induction l as [|[a|] l IH]; intros i devices rs; cbn [check_ranks].
  - split.
    + intros [= <-]. split_and!; [done|done|constructor|set_solver].
    + destruct rs; [done|]. by intros [? _].
  - rewrite bind_ok. setoid_rewrite require_ok. setoid_rewrite bind_ok. setoid_rewrite require_ok.
    setoid_rewrite bind_ok. setoid_rewrite IH. split.
    + intros (_ & Hr & _ & Hd & rs' & (-> & Hi & Hn & Hu) & [= <-]). to_prop.
      split_and!; [done| | |].
      * intros [|j] b Hb; simpl in Hb; simplify_eq; [lia|]. rewrite (Hi j b Hb). lia.
      * cbn. constructor; [|done]. intros (b & Hb & Hin)%list_elem_of_fmap.
        apply (Hu b Hin). rewrite <-Hb. by left.
      * intros b [->|Hin]%elem_of_cons; [done|]. intros Hb. apply (Hu b Hin). by right.
    + intros (Hl & Hi & Hn & Hu). destruct rs as [|b rs]; [done|]. cbn in Hl, Hn.
      simplify_eq. apply NoDup_cons in Hn as [Hb Hn]. exists tt. split.
      { apply Z.eqb_eq. rewrite (Hi 0%nat b eq_refl). lia. }
      exists tt. split.
      { apply negb_true_iff, mem_false. apply Hu. by left. }
      exists rs. split; [|done]. split_and!; [done| |done|].
      * intros j c Hc. rewrite (Hi (S j) c Hc). lia.
      * intros c Hc [Hd|Hd]%elem_of_cons; [|by apply (Hu c); [right|]].
        apply Hb. rewrite <-Hd. by apply list_elem_of_fmap_2.
  - split; [done|]. intros [H _]. by destruct rs.
Qed.

(** What the constructor checks, on the fields it keeps. *)
Definition fields_ok (d : ModelDeployment) : Prop :=
  is_stable_id (cluster_id d) = true ∧ is_stable_id (deployment_id d) = true
  ∧ is_stable_id (backend d) = true ∧ is_stable_id (reservation_group d) = true
  ∧ is_digest (backend_digest d) = true ∧ is_digest (model_bundle_digest d) = true
  ∧ is_digest (runtime_config_digest d) = true ∧ 1 <= revision d <= max_i64
  ∧ 1 <= context_tokens d <= Z.shiftl 1 24 ∧ 1 <= tensor_parallel d <= 256
  ∧ 1 <= pipeline_parallel d <= 256.

Definition ranks_ok (d : ModelDeployment) : Prop :=
  1 <= zlen (ranks d) <= 256 ∧ zlen (ranks d) = tensor_parallel d * pipeline_parallel d
  ∧ (∀ j a, ranks d !! j = Some a → rank a = Z.of_nat j) ∧ NoDup (device <$> ranks d).

Lemma ModelDeployment_init_ok cl dp rv bk bd mb rc ct tp pp rg assigned d :
  ModelDeployment_init cl dp rv bk bd mb rc ct tp pp rg assigned = Ok d →
  assigned = Inst (Inst <$> ranks d) ∧ fields_ok d ∧ ranks_ok d.
Proof.
  unfold ModelDeployment_init, Deployment._identity, _sha256, _integer. intros H.
  repeat res_step. destruct assigned as [l|]; [|done]. repeat res_step. subst d.
  apply check_ranks_ok in Hok1 as (-> & Hi & Hn & _). rewrite !zlen_fmap in *. to_prop.
  by unfold fields_ok, ranks_ok.
Qed.

Lemma rebuild_ok d : rebuild d = Ok d ↔ fields_ok d ∧ ranks_ok d.
Proof.
  split; [by intros (_ & ? & ?)%ModelDeployment_init_ok|].
  intros [(?&?&?&?&?&?&?&?&?&?&?) ([? ?]&Hl&Hi&Hn)].
  assert (check_ranks 0 [] (Inst <$> ranks d) = Ok (ranks d)) as Hc.
  { apply check_ranks_ok. split_and!; [done| |done|set_solver]. intros. by apply Hi. }
  unfold rebuild, ModelDeployment_init, Deployment._identity, _sha256, _integer.
  rewrite <-(zlen_fmap (Inst (A := ModelRank))) in *. apply Z.eqb_eq in Hl.
  assert ((1 <=? zlen (Inst <$> ranks d)) && (zlen (Inst <$> ranks d) <=? 256) = true) as Hb by lia.
  res_eval. by destruct d.
Qed.

(** The manifest with other assignments of the same number, contiguous and on distinct
    devices, is accepted as well. *)
Lemma rebuild_with_ranks d rs :
  rebuild d = Ok d → length rs = length (ranks d) →
  (∀ j a, rs !! j = Some a → rank a = Z.of_nat j) → NoDup (device <$> rs) →
  rebuild (with_ranks d rs) = Ok (with_ranks d rs).
Proof.
  rewrite !rebuild_ok. unfold ranks_ok, zlen. cbn. intros [Hf (? & ? & _)] Hl Hi Hn.
  rewrite Hl. split; [exact Hf|]. repeat (split; [done|]). done.
Qed.

(** ** The candidates *)

Lemma size_list_to_set_dups (l : list Z) : size (list_to_set l : gset Z) = length (remove_dups l).
Proof.
  rewrite <-(size_list_to_set (C := gset Z)) by apply NoDup_remove_dups. f_equal.
  apply set_eq. intros x. by rewrite !elem_of_list_to_set, elem_of_remove_dups.
Qed.

Lemma index_size cs : size (index_by_rank cs) = length cs ↔ NoDup (c_rank <$> cs).
Proof.
  unfold index_by_rank. rewrite <-size_dom, dict_by_dom, size_list_to_set_dups, <-no_dups_spec.
  unfold no_dups. by rewrite Nat.eqb_eq, length_fmap.
Qed.

(** Distinct candidate ranks, as many as there are lost ranks and the same set, are the lost
    ranks. *)
Lemma candidate_ranks_perm cs (lost : list Z) :
  NoDup lost → NoDup (c_rank <$> cs) →
  (dom (index_by_rank cs) =@{gset Z} list_to_set lost) ↔ c_rank <$> cs ≡ₚ lost.
Proof.
  intros Hl Hc. unfold index_by_rank. rewrite dict_by_dom. split.
  - intros H. apply NoDup_Permutation; [done..|]. intros r.
    by rewrite <-!(elem_of_list_to_set (C := gset Z)), H.
  - intros H. apply set_eq. intros r. by rewrite !elem_of_list_to_set, H.
Qed.

Lemma candidate_problem_none d surviving used c :
  candidate_problem d surviving used c = None ↔
  fits d c ∧ (physical_device c ∉ surviving) ∧ physical_device c ∉ used.
Proof.
  unfold candidate_problem, fits. rewrite <-!mem_false, <-!String.eqb_eq, <-Z.ltb_ge.
  repeat match goal with
  | |- context [if ?b then _ else _] => destruct b eqn:?
  end; to_prop; repeat match goal with
  | H : _ || _ = true |- _ => apply orb_true_iff in H as [?|?]; to_prop
  end; naive_solver congruence.
Qed.


(** The loop, when [by_rank] yields the candidates [cs] for the lost ranks: it ends with a
    reason or finds that all fit on devices of their own. *)
Lemma candidates_problem_spec d surviving used by_rank lost cs :
  Forall2 (λ r c, by_rank !! r = Some c) lost cs →
  ∃ o, candidates_problem d surviving used by_rank lost = Ok o
    ∧ (o = None ↔ Forall (fits d) cs ∧ NoDup (physical_device <$> cs)
        ∧ ∀ c, c ∈ cs → (physical_device c ∉ surviving) ∧ physical_device c ∉ used)
    ∧ o ≠ Some "".
Proof.
  intros H. revert used. induction H as [|r c lost cs Hr _ IH]; intros used; cbn [candidates_problem].
  - exists None. split_and!; [done| |done]. split; [|done]. intros _.
    split_and!; [constructor|constructor|set_solver].
  - rewrite Hr. pose proof (candidate_problem_none d surviving used c) as Hp.
    destruct (candidate_problem d surviving used c) as [why|] eqn:E.
    + exists (Some why). split_and!; [done| |].
      * split; [done|]. intros ([Hf _]%Forall_cons & _ & Hd). apply Hp. split; [done|]. apply Hd. by left.
      * intros [= ->]. unfold candidate_problem in E. cases_if.
    + destruct (IH (physical_device c :: used)) as (o & -> & Ho & Hne). exists o.
      split_and!; [done| |done]. rewrite Ho, Forall_cons. destruct (proj1 Hp eq_refl) as (Hf & Hs & Hu).
      cbn [fmap list_fmap]. rewrite NoDup_cons, list_elem_of_fmap. setoid_rewrite elem_of_cons.
      split; [intros (? & ? & Hall)|intros ([_ ?] & [Hn ?] & Hall)].
      * split_and!; [done..| |done|].
        { intros (b & Heq & Hb). destruct (Hall b Hb) as [_ Hb']. apply Hb'. by left. }
        intros b [->|Hb]; [done|]. destruct (Hall b Hb) as [? Hb']. split; [done|]. intros ?. apply Hb'. by right.
      * split_and!; [done..|]. intros b Hb. destruct (Hall b (or_intror Hb)) as [? ?]. split; [done|].
        intros [?|?]; [|done]. destruct Hn. by exists b.
Qed.

Lemma index_lookup_all cs lost :
  NoDup lost → c_rank <$> cs ≡ₚ lost →
  ∃ cs', cs' ≡ₚ cs ∧ lost = c_rank <$> cs' ∧ Forall2 (λ r c, index_by_rank cs !! r = Some c) lost cs'.
Proof.
  intros Hl Hp. assert (NoDup (c_rank <$> cs)) as Hc by by rewrite Hp.
  destruct (Permutation_map_inv _ _ (symmetry Hp)) as (cs' & Heq & Hcs).
  exists cs'. split_and!; [done|done|]. rewrite Heq.
  apply Forall2_fmap_l, Forall_Forall2_diag, Forall_forall. intros c Hin. cbn.
  apply dict_by_present; [done|]. by rewrite Hcs.
Qed.

(** ** The decision *)

Definition lost_ok (lost : list Z) : Prop :=
  lost ≠ [] ∧ zlen lost <= 256 ∧ Forall (λ r, 0 <= r <= 255) lost ∧ NoDup lost.

Lemma mapM_check_int lo hi c msg (l : list Z) :
  Forall (λ r, lo <= r <= hi) l → mapM_res (check_int lo hi c msg) (PInt <$> l) = Ok l.
Proof.
  intros H. apply mapM_res_ok, Forall2_fmap_l, Forall_Forall2_diag.
  eapply Forall_impl; [exact H|]. intros r Hr. by apply check_int_PInt.
Qed.

Lemma decide_recovery_ok st why d lost reps :
  lost_ok lost → why ≠ "" → (st = READY → rank <$> reps = lost) → (st = PAUSED → reps = []) →
  decide_recovery st why d lost reps = Ok (MkDecision st why (digest d) lost reps false true).
Proof.
  intros (Hne & Hlen & Hr & Hn) Hw Hready Hpaused. unfold decide_recovery, Decision_init, _digest.
  pose proof (sha256_hex_is_digest (payload d)) as Hd. fold (digest d) in Hd.
  assert (negb (why =? "")%string = true) as Hw' by by apply negb_true_iff, String.eqb_neq.
  pose proof (mapM_check_int 0 255 ShardRecoveryError "lost_ranks are outside the bounded shard range"
    lost Hr) as Hl.
  assert (no_dups lost = true) as Hn' by by apply no_dups_spec.
  assert (no_dups (rank <$> reps) = true) as Hnr.
  { destruct st; [by rewrite Hready|]. by rewrite Hpaused. }
  rewrite bind_Ok with (a := digest d) by by apply check_str_PStr. cbn [inst_of mbind res_bind].
  rewrite bind_Ok with (a := why) by by apply check_str_PStr. cbn [inst_of mbind res_bind].
  assert (negb (zlen lost =? 0) = true) as Hne'.
  { by destruct lost. }
  assert ((zlen lost <=? _MAX_SHARDS) = true) as Hlen' by (apply Z.leb_le; exact Hlen).
  rewrite zlen_fmap, (bind_Ok _ _ tt (require_true _ _ _ Hne')), (bind_Ok _ _ tt (require_true _ _ _ Hlen')).
  rewrite (bind_Ok _ _ lost Hl), Hn'. cbn [require mbind res_bind].
  rewrite (bind_Ok _ _ reps (mapM_inst_of _ _ reps)), Hnr. cbn [require mbind res_bind].
  destruct st; [rewrite Hready by done; by rewrite (bool_decide_eq_true_2 (lost = lost))|].
  by rewrite Hpaused.
Qed.

Lemma lost_ok_perm l k : l ≡ₚ k → lost_ok k → lost_ok l.
Proof.
  intros H (Hne & Hz & Hr & Hn). split_and!.
  - intros ->. by apply Permutation_nil_l in H.
  - unfold zlen in *. by rewrite H.
  - by rewrite H.
  - by rewrite H.
Qed.

(** Distinct indices are no more than the ranks. *)
Lemma lost_count lost n :
  0 <= n → Forall (λ r, 0 <= r <= n - 1) lost → NoDup lost → zlen lost <= n.
Proof.
  intros Hz Hr Hn. assert (lost ⊆ seqZ 0 n) as Hs.
  { intros r Hin. rewrite Forall_forall in Hr. apply elem_of_seqZ. specialize (Hr r Hin). lia. }
  pose proof (NoDup_submseteq _ _ Hn Hs) as Hl%submseteq_length. rewrite length_seqZ in Hl.
  unfold zlen. lia.
Qed.

Lemma check_lost_ok d lost0 :
  lost0 ≠ [] → Forall (λ r, 0 <= r <= zlen (ranks d) - 1) lost0 → NoDup lost0 →
  check_lost d (Inst (PInt <$> lost0)) = Ok lost0.
Proof.
  intros Hne Hr Hn. unfold check_lost. cbn [inst_of mbind res_bind]. rewrite zlen_fmap.
  assert (zlen lost0 <= zlen (ranks d)) as Hlen by (apply lost_count; [unfold zlen; lia|done..]).
  rewrite bind_Ok with (a := tt).
  2: { apply require_true, andb_true_iff. rewrite !Z.leb_le. split; [|done].
       unfold zlen. destruct lost0; [done|]. cbn [length]. lia. }
  rewrite bind_Ok with (a := tt).
  2: { apply require_true, negb_true_iff. apply not_true_iff_false. rewrite existsb_exists.
       intros (v & Hv & Hu). apply list_elem_of_In, list_elem_of_fmap in Hv as (z & -> & _). done. }
  rewrite (bind_Ok _ _ lost0) by by apply mapM_check_int.
  by rewrite (proj2 (no_dups_spec lost0) Hn).
Qed.

Lemma as_rank_ok c :
  candidate_ok c → ∃ a, as_rank c = Ok a ∧ rank a = c_rank c ∧ device a = physical_device c ∧ rank_ok a.
Proof.
  destruct c as [r h w dv bi bd mb rc rg ct ok]. unfold candidate_ok, Candidate_init, _identity.
  intros H. repeat res_step. clear H. exists (MkRank r h w dv).
  assert (as_rank (MkCandidate r h w dv bi bd mb rc rg ct ok) = Ok (MkRank r h w dv)) as Ha.
  { unfold as_rank, ModelRank_init, _integer, Deployment._identity, _MAX_SHARDS in *. cbn in *.
    simplify_eq. res_eval. }
  by split_and!.
Qed.

Lemma replacements_ok cs' lost by_rank :
  Forall2 (λ r c, by_rank !! r = Some c) lost cs' → Forall candidate_ok cs' →
  ∃ reps, mapM_res (replacement by_rank) lost = Ok reps
    ∧ Forall2 (λ c a, rank a = c_rank c ∧ device a = physical_device c ∧ rank_ok a) cs' reps.
Proof.
  induction 1 as [|r c lost cs' Hr _ IH]; intros Hc; cbn [mapM_res].
  - by exists [].
  - apply Forall_cons in Hc as [Hc Hcs]. destruct (IH Hcs) as (reps & Hreps & Hall).
    destruct (as_rank_ok c Hc) as (a & Ha & Hspec). exists (a :: reps).
    assert (replacement by_rank r = Ok a) as Hrep by (unfold replacement; by rewrite Hr).
    rewrite (bind_Ok _ _ a Hrep), (bind_Ok _ _ reps Hreps). split; [done|]. by constructor.
Qed.

(** What a plan needs: distributed evidence, and for every lost rank one candidate that fits,
    on a device no surviving rank and no other candidate uses. *)
Definition replaceable (d : ModelDeployment) (lost : list Z) (cs : list ShardRecoveryCandidate)
    (conformance : dyn Conformance.ConformanceResult) : Prop :=
  is_multihost d = true ∧ conforms conformance = true ∧ c_rank <$> cs ≡ₚ lost
  ∧ Forall (fits d) cs ∧ NoDup (physical_device <$> cs)
  ∧ ∀ c, c ∈ cs → physical_device c ∉ survivors d lost.

Lemma survivors_perm d lost lost' : lost ≡ₚ lost' → survivors d lost = survivors d lost'.
Proof.
  intros H. unfold survivors. apply list_omap_ext, Forall_Forall2_diag, Forall_forall. intros [i a] _.
  assert (mem (Z.of_nat i) lost = mem (Z.of_nat i) lost') as ->; [|done].
  apply eq_iff_eq_true. by rewrite !mem_spec, H.
Qed.

#[local] Opaque sha256_hex.

(** The promise of the planner on arguments of the declared types: a decision about exactly
    the lost ranks of this manifest, [READY] exactly when they are replaceable, with one
    constructed assignment per candidate. *)
Definition planned (d : ModelDeployment) (lost0 : list Z) (cs : list ShardRecoveryCandidate)
    (conformance : dyn Conformance.ConformanceResult) (result : res ShardRecoveryDecision) : Prop :=
  ∃ dec, result = Ok dec ∧ deployment_digest dec = digest d ∧ lost_ranks dec = sort_by Z.leb lost0
    ∧ (state dec = READY ↔ replaceable d lost0 cs conformance)
    ∧ (state dec = PAUSED → replacement_ranks dec = [])
    ∧ (state dec = READY → ∃ cs', cs' ≡ₚ cs ∧
        Forall2 (λ c a, rank a = c_rank c ∧ device a = physical_device c ∧ rank_ok a)
          cs' (replacement_ranks dec))
    ∧ kv_cache_recovery_verified dec = false ∧ application_replay_required dec = true.

Section Plan.
  Context (d : ModelDeployment) (lost0 : list Z) (cs : list ShardRecoveryCandidate).
  Context (conformance : dyn Conformance.ConformanceResult).
  Local Abbreviation lost := (sort_by Z.leb lost0).
  Hypothesis Hlost : lost_ok lost.

Lemma paused_planned why :
    why ≠ "" → ¬ replaceable d lost0 cs conformance →
    planned d lost0 cs conformance (_paused d lost why).
  Proof using Hlost.
    intros Hw Hnot. exists (MkDecision PAUSED why (digest d) lost [] false true).
    split; [unfold _paused; by apply decide_recovery_ok|]. by split_and!.
  Qed.

  (** The end of the planner, once the candidates are indexed. *)
Lemma candidates_planned :
    is_multihost d = true → conforms conformance = true → c_rank <$> cs ≡ₚ lost →
    Forall candidate_ok cs →
    planned d lost0 cs conformance
      (problem ← candidates_problem d (survivors d lost) [] (index_by_rank cs) lost;
       match problem with
       | Some why => _paused d lost why
       | None =>
           replacements ← mapM_res (replacement (index_by_rank cs)) lost;
           decide_recovery READY "replacement_manifest_ready" d lost replacements
       end).
  Proof using Hlost.
    intros Hm Hcf Hd Hok. pose proof (sort_by_Permutation Z.leb lost0) as Hperm.
    destruct (index_lookup_all cs lost (proj2 (proj2 (proj2 Hlost))) Hd) as (cs' & Hp & Hl & Hall).
    destruct (candidates_problem_spec d (survivors d lost) [] _ _ _ Hall) as (o & -> & Ho & Hw).
    cbn [mbind res_bind]. assert (o = None ↔ replaceable d lost0 cs conformance) as Hiff.
    { rewrite Ho. unfold replaceable. rewrite Hp, (survivors_perm d lost lost0 Hperm), <-Hperm.
      setoid_rewrite Hp. set_solver. }
    destruct o as [why|]; [apply paused_planned; [congruence|by rewrite <-Hiff]|].
    destruct (replacements_ok cs' lost _ Hall) as (reps & Hreps & Hr2); [by rewrite Hp|].
    rewrite (bind_Ok _ _ reps Hreps).
    exists (MkDecision READY "replacement_manifest_ready" (digest d) lost reps false true). split.
    { apply decide_recovery_ok; [done..| |done]. intros _. rewrite Hl. symmetry.
      clear -Hr2. induction Hr2 as [|c a cs' reps (H & _) _ IH]; cbn; [done|]. by rewrite H, IH. }
    split; [done|]. split; [done|]. split; [by split; [intros _; apply Hiff|]|].
    split; [done|]. split; [|done]. intros _. by exists cs'.
  Qed.
End Plan.

Lemma plan_spec d lost0 cs conformance :
  deployment_ok d → lost0 ≠ [] → Forall (λ r, 0 <= r < zlen (ranks d)) lost0 → NoDup lost0 →
  zlen cs <= _MAX_SHARDS → Forall candidate_ok cs →
  planned d lost0 cs conformance
    (plan_shard_replacement (Inst d) (Inst (PInt <$> lost0)) (Inst (Inst <$> cs)) conformance None).
Proof.
  intros [[_ (Hlen & _)]%rebuild_ok _] Hne Hr Hn Hcs Hok.
  pose proof (sort_by_Permutation Z.leb lost0) as Hperm.
  assert (Forall (λ r, 0 <= r <= zlen (ranks d) - 1) lost0) as Hr'
    by (eapply Forall_impl; [exact Hr|]; intros; cbn in *; lia).
  assert (lost_ok (sort_by Z.leb lost0)) as Hlost.
  { eapply lost_ok_perm; [exact Hperm|]. split_and!; [done| | |done].
    - pose proof (lost_count lost0 (zlen (ranks d)) ltac:(lia) Hr' Hn). lia.
    - eapply Forall_impl; [exact Hr|]. intros; cbn in *; lia. }
  unfold plan_shard_replacement. cbn [inst_of mbind res_bind].
  rewrite (bind_Ok _ _ lost0 (check_lost_ok d lost0 Hne Hr' Hn)).
  unfold check_candidates. cbn [inst_of mbind res_bind]. rewrite zlen_fmap.
  rewrite (bind_Ok _ _ tt (require_true _ _ _ (proj2 (Z.leb_le _ _) Hcs))).
  rewrite (bind_Ok _ _ cs (mapM_inst_of _ _ cs)).
  assert (replaceable d lost0 cs conformance → c_rank <$> cs ≡ₚ sort_by Z.leb lost0) as Hranks
    by (intros (_ & _ & H & _); by rewrite Hperm).
  destruct (is_multihost d) eqn:Hm; cbn [negb].
  2: { apply paused_planned; [done..|]. intros (? & _). congruence. }
  destruct (conforms conformance) eqn:Hcf; cbn [negb].
  2: { apply paused_planned; [done..|]. intros (_ & ? & _). congruence. }
  destruct (Z.eqb_spec (zlen cs) (zlen (sort_by Z.leb lost0))) as [Hz|Hz]; cbn [negb].
  2: { apply paused_planned; [done..|]. intros H%Hranks. apply Hz. unfold zlen. by rewrite <-H, length_fmap. }
  destruct (Z.eqb_spec (Z.of_nat (size (index_by_rank cs))) (zlen cs)) as [Hs|Hs]; cbn [negb].
  2: { apply paused_planned; [done..|]. intros H%Hranks. apply Hs. unfold zlen. f_equal. apply index_size.
       rewrite H. apply Hlost. }
  assert (NoDup (c_rank <$> cs)) as Hcn by (apply index_size; unfold zlen in Hs; lia).
  pose proof (candidate_ranks_perm cs _ (proj2 (proj2 (proj2 Hlost))) Hcn) as Hdom.
  destruct (bool_decide_reflect (dom (index_by_rank cs) =@{gset Z} list_to_set (sort_by Z.leb lost0)))
    as [Hd|Hd]; cbn [negb].
  2: { apply paused_planned; [done..|]. intros H%Hranks. by apply Hd, Hdom. }
  apply candidates_planned; [done..|by apply Hdom|done].
Qed.

(** ** The manifest after the replacement *)

Lemma survivors_elem d lost i a :
  ranks d !! i = Some a → Z.of_nat i ∉ lost → device a ∈ survivors d lost.
Proof.
  intros Ha Hi. unfold survivors. apply list_elem_of_omap. exists (i, a). split.
  - apply list_elem_of_lookup. exists i. by rewrite list_lookup_imap, Ha.
  - by rewrite (proj2 (mem_false _ _) Hi).
Qed.

Lemma install_spec reps a :
  (∃ b, b ∈ reps ∧ rank b = rank a ∧ install reps a = b)
  ∨ ((rank a ∉ rank <$> reps) ∧ install reps a = a).
Proof.
  unfold install. destruct (List.find _ reps) as [b|] eqn:E.
  - left. apply find_some in E as [Hb Hr]. to_prop. exists b. by rewrite list_elem_of_In.
  - right. split; [|done]. intros (b & Hb & Hin)%list_elem_of_fmap.
    apply list_elem_of_In, (find_none _ _ E b) in Hin. to_prop. congruence.
Qed.

Lemma installed_devices_distinct d reps cs' lost :
  ranks_ok d → rank <$> reps ≡ₚ lost → NoDup (physical_device <$> cs') →
  (∀ c, c ∈ cs' → physical_device c ∉ survivors d lost) →
  device <$> reps = physical_device <$> cs' →
  NoDup (device <$> (install reps <$> ranks d)).
Proof.
  intros (_ & _ & Hi & Hn) Hlost Hdev Hs Heq.
  assert (∀ b, b ∈ reps → device b ∉ survivors d lost) as Hb.
  { intros b Hb. assert (device b ∈ physical_device <$> cs') as (c & -> & Hc)%list_elem_of_fmap
      by (rewrite <-Heq; by apply list_elem_of_fmap_2). by apply Hs. }
  rewrite <-list_fmap_compose. apply NoDup_alt. intros i j x.
  rewrite !list_lookup_fmap, !fmap_Some. intros (a & Ha & ->) (a' & Ha' & Hd). cbn in Hd.
  pose proof (Hi i a Ha) as Hri. pose proof (Hi j a' Ha') as Hrj.
  destruct (install_spec reps a) as [(b & Hbin & Hbr & Hia)|[Hkeep Hia]];
  destruct (install_spec reps a') as [(b' & Hbin' & Hbr' & Hia')|[Hkeep' Hia']]; rewrite Hia, Hia' in Hd.
  - assert (b = b') as -> by (eapply (NoDup_fmap_same device reps); [by rewrite Heq|done..]). lia.
  - destruct (Hb b Hbin). rewrite Hd. eapply survivors_elem; [exact Ha'|]. by rewrite <-Hlost, <-Hrj.
  - destruct (Hb b' Hbin'). rewrite <-Hd. eapply survivors_elem; [exact Ha|]. by rewrite <-Hlost, <-Hri.
  - rewrite NoDup_alt in Hn. eapply Hn; rewrite list_lookup_fmap, ?Ha, ?Ha'; cbn; by rewrite ?Hd.
Qed.

(** The planner decides: on a constructed manifest, distinct lost ranks of it and
    constructed candidates it raises nothing and returns a decision that names the manifest's
    digest and the lost ranks in order.  The decision is [READY] exactly when the deployment
    spans hosts, the conformance evidence is accepted and distributed, and the candidates are
    one per lost rank, each healthy, of the manifest's backend, artifacts and reservation
    group and with its capacity, on devices distinct from each other and from the survivors'.
    A [PAUSED] decision publishes no replacement, and no decision claims cache recovery or
    drops the replay. *)
Theorem plan_ready_iff d lost0 cs conformance :
  deployment_ok d → lost0 ≠ [] → Forall (λ r, 0 <= r < zlen (ranks d)) lost0 → NoDup lost0 →
  zlen cs <= _MAX_SHARDS → Forall candidate_ok cs →
  ∃ dec,
    plan_shard_replacement (Inst d) (Inst (PInt <$> lost0)) (Inst (Inst <$> cs)) conformance None = Ok dec
    ∧ deployment_digest dec = digest d ∧ lost_ranks dec = sort_by Z.leb lost0
    ∧ (state dec = READY ↔ replaceable d lost0 cs conformance)
    ∧ (state dec = PAUSED → replacement_ranks dec = [])
    ∧ kv_cache_recovery_verified dec = false ∧ application_replay_required dec = true.
Proof.
  intros Hd Hne Hr Hn Hl Hc.
  destruct (plan_spec d lost0 cs conformance Hd Hne Hr Hn Hl Hc) as (dec & ? & ? & ? & ? & ? & _ & ? & ?).
  by exists dec.
Qed.

(** A ready plan can be installed: putting its assignments in the place of the lost ranks
    gives a manifest that the constructor of deployments accepts, of the same topology, with
    every rank constructed and every physical device used once. *)
Theorem ready_plan_installs d lost0 cs conformance dec :
  deployment_ok d → lost0 ≠ [] → Forall (λ r, 0 <= r < zlen (ranks d)) lost0 → NoDup lost0 →
  zlen cs <= _MAX_SHARDS → Forall candidate_ok cs →
  plan_shard_replacement (Inst d) (Inst (PInt <$> lost0)) (Inst (Inst <$> cs)) conformance None = Ok dec →
  state dec = READY →
  deployment_ok (with_ranks d (install (replacement_ranks dec) <$> ranks d)).
Proof.
  intros Hd Hne Hr Hn Hl Hc Hplan Hst.
  destruct (plan_spec d lost0 cs conformance Hd Hne Hr Hn Hl Hc) as (dec' & Hp & _ & _ & Hready & _ & Hreps & _).
  assert (dec' = dec) as -> by congruence. destruct (Hreps Hst) as (cs' & Hperm & Hall).
  apply Hready in Hst as (_ & _ & Hranks & _ & Hdev & Hsurv).
  destruct Hd as [Hb Hro]. pose proof (proj1 (rebuild_ok d) Hb) as [_ Hrk].
  assert (rank <$> replacement_ranks dec = c_rank <$> cs' ∧ device <$> replacement_ranks dec = physical_device <$> cs'
    ∧ Forall rank_ok (replacement_ranks dec)) as (Hids & Hdevs & Hrok).
  { clear -Hall. induction Hall as [|c a cs' reps (H1 & H2 & H3) _ (IH1 & IH2 & IH3)]; [done|].
    cbn. rewrite H1, H2, IH1, IH2. split_and!; [done..|by constructor]. }
  split.
  - apply rebuild_with_ranks; [done|by rewrite length_fmap| |].
    + intros j a. rewrite list_lookup_fmap, fmap_Some. intros (b & Hb' & ->).
      destruct Hrk as (_ & _ & Hi & _). rewrite <-(Hi j b Hb').
      destruct (install_spec (replacement_ranks dec) b) as [(x & _ & Hx & ->)|[_ ->]]; done.
    + eapply (installed_devices_distinct d _ cs' lost0); [done| | | |done].
      * by rewrite Hids, Hperm.
      * by rewrite Hperm.
      * intros c Hin. apply Hsurv. by rewrite <-Hperm.
  - apply Forall_fmap, Forall_forall. intros b Hb'. cbn. rewrite Forall_forall in Hro, Hrok.
    destruct (install_spec (replacement_ranks dec) b) as [(x & Hx & _ & ->)|[_ ->]]; auto.
Qed.

(** ** The digest binds the manifest *)

Lemma stable_id_valid s : is_stable_id s = true → valid_text s = true.
Proof.
  intros H. apply ascii_valid_text. destruct s as [|c s]; [done|]. cbn in *. to_prop.
  assert (∀ c, is_stable_char c = true → ascii_between 0 127 c = true) as Hc.
  { intros [[] [] [] [] [] [] [] []]; vm_compute; congruence. }
  apply andb_true_iff. split.
  - apply Hc. unfold is_stable_char. by apply orb_true_iff; left; apply orb_true_iff; left; apply orb_true_iff; left.
  - by eapply str_forallb_impl.
Qed.

Lemma digest_text_valid s : is_digest s = true → valid_text s = true.
Proof.
  unfold is_digest. intros [H _]%andb_true_iff. apply ascii_valid_text.
  eapply str_forallb_impl; [|exact H]. intros [[] [] [] [] [] [] [] []]; vm_compute; congruence.
Qed.

Lemma manifest_valid d : deployment_ok d → json_valid (manifest_json d) = true.
Proof.
  intros [[(?&?&?&?&?&?&?&_) _]%rebuild_ok Hr]. unfold manifest_json. cbn [json_valid forallb fst snd].
  rewrite (stable_id_valid (cluster_id d)), (stable_id_valid (deployment_id d)), (stable_id_valid (backend d)),
    (stable_id_valid (reservation_group d)), (digest_text_valid (backend_digest d)),
    (digest_text_valid (model_bundle_digest d)), (digest_text_valid (runtime_config_digest d)) by done.
  assert (forallb json_valid (List.map rank_json (ranks d)) = true) as ->; [|by vm_compute].
  apply forallb_forall. intros v (a & <- & Ha)%in_map_iff. rewrite Forall_forall in Hr.
  apply list_elem_of_In, Hr in Ha. unfold rank_ok, ModelRank_init, Deployment._identity in Ha.
  destruct a as [r h w dv]. repeat res_step. clear Ha. cbn [py_str host_id worker_id device_id] in *.
  simplify_eq. unfold rank_json. cbn [json_valid forallb fst snd host_id worker_id device_id].
  rewrite (stable_id_valid h), (stable_id_valid w), (stable_id_valid dv) by done. by vm_compute.
Qed.

Lemma rank_json_inj a b : canon (rank_json a) = canon (rank_json b) → a = b.
Proof. destruct a, b. cbn. intros [=]. by subst. Qed.

Lemma ranks_json_inj rs rs' :
  List.map canon (List.map rank_json rs) = List.map canon (List.map rank_json rs') → rs = rs'.
Proof.
  rewrite !map_map. apply (list_fmap_eq_inj (λ a, canon (rank_json a))). exact rank_json_inj.
Qed.

(** The digest binds the manifest: two constructed deployments are digested from the same
    canonical text only if they are equal in every field and every assignment. *)
Theorem payload_injective d d' :
  deployment_ok d → deployment_ok d' → payload d = payload d' ↔ d = d'.
Proof.
  intros Hd Hd'. split; [|by intros ->]. unfold payload. intros H.
  apply json_dumps_injective in H; [|cbn -[manifest_json]; by rewrite manifest_valid..].
  destruct d as [cl dp rv bk bd mb rc ct tp pp rg rs], d' as [cl' dp' rv' bk' bd' mb' rc' ct' tp' pp' rg' rs'].
  cbn -[rank_json] in H. injection H. intros.
  assert (rs = rs') as ->; [|by f_equal]. by eapply ranks_json_inj.
Qed.

(** ** Examples *)

Definition zeros : string := "0000000000000000000000000000000000000000000000000000000000000000".

Definition sample : ModelDeployment :=
  MkDeployment "cl" "dep" 1 "vllm" zeros zeros zeros 4096 2 1 "grp"
    [MkRank 0 "h0" "w0" "gpu0"; MkRank 1 "h1" "w1" "gpu0"].

Definition spare (r : Z) (host : string) : ShardRecoveryCandidate :=
  MkCandidate r host "w9" "gpu0" "vllm" zeros zeros zeros "grp" 8192 true.

Definition verified : dyn Conformance.ConformanceResult :=
  Inst (Conformance.MkResult true "required_operations_verified" [] [] [] true).

Lemma sample_ok : deployment_ok sample.
Proof. split; [by vm_compute|]. by repeat constructor; vm_compute. Qed.

Lemma other_ok :
  deployment_ok (with_ranks sample [MkRank 0 "h0" "w0" "gpu0"; MkRank 1 "h2" "w9" "gpu0"]).
Proof. split; [by vm_compute|]. by repeat constructor; vm_compute. Qed.

Lemma spare_ok : candidate_ok (spare 1 "h2").
Proof. by vm_compute. Qed.

Lemma plan_ready_iff_witness :
  ∃ dec, plan_shard_replacement (Inst sample) (Inst (PInt <$> [1])) (Inst (Inst <$> [spare 1 "h2"]))
      verified None = Ok dec ∧ deployment_digest dec = digest sample.
Proof.
  destruct (plan_ready_iff sample [1] [spare 1 "h2"] verified sample_ok ltac:(done)
    ltac:(by repeat constructor) ltac:(apply NoDup_singleton) ltac:(done)
    ltac:(constructor; [exact spare_ok|constructor])) as (dec & H1 & H2 & _).
  exists dec. split; [exact H1|exact H2].
Defined.

Lemma ready_plan_installs_witness :
  deployment_ok (with_ranks sample [MkRank 0 "h0" "w0" "gpu0"; MkRank 1 "h2" "w9" "gpu0"]).
Proof.
  refine (ready_plan_installs sample [1] [spare 1 "h2"] verified
    (MkDecision READY "replacement_manifest_ready" (digest sample) [1] [MkRank 1 "h2" "w9" "gpu0"] false true)
    sample_ok _ _ _ _ _ _ _); [done|by repeat constructor|apply NoDup_singleton|done| | |done].
  - constructor; [exact spare_ok|constructor].
  - vm_compute. reflexivity.
Defined.

Lemma payload_injective_witness :
  payload sample ≠ payload (with_ranks sample [MkRank 0 "h0" "w0" "gpu0"; MkRank 1 "h2" "w9" "gpu0"]).
Proof.
  intros H. apply (proj1 (payload_injective _ _ sample_ok other_ok)) in H. discriminate H.
Defined.

(** A candidate on a surviving device pauses the recovery. *)
Example plan_pauses_on_conflict :
  reason <$> plan_shard_replacement (Inst sample) (Inst [PInt 1]) (Inst [Inst (spare 1 "h0")]) verified None
  = Ok "candidate_device_conflicts_with_survivor".
Proof. vm_compute. reflexivity. Qed.

End Recovery.
