(* ===== verification/ArtifactRetention.v ===== *)
(** Reference-aware garbage collection of the artifact cache: [domain/artifact_retention.py].

    Cache entries, owner references and tombstones come in pages; [plan_artifact_gc] decides
    for every entry to retain it, to delete it or to defer.  The theorems characterise
    deletion exactly, show that every entry of the pass is decided once, that the planner
    raises nothing on constructed pages but the overflow of a date, and that the order of
    references and tombstones does not matter.

    An aware date is an instant with the fixed offset of its zone; comparisons are of
    instants, and an addition overflows when the local date leaves the year 9999. *)
From S2P Require Import Prelude.
From Stdlib Require Import Ascii.

Local Open Scope Z_scope.

(** ** Data *)

Record datetime := MkDate { utc_us : Z; offset_us : Z }.
#[export] Instance datetime_eq_dec : EqDecision datetime.
Proof. solve_decision. Defined.

(** [datetime.max] as microseconds of local time since 1970. *)
Definition max_local_us : Z := 253402300799999999.

(** [d + timedelta(seconds=s)] for a non-negative [s]. *)
Definition add_seconds (d : datetime) (s : Z) : res datetime :=
  _ ← require (utc_us d + offset_us d + s * 1000000 <=? max_local_us) OverflowError
        "date value out of range";
  Ok (MkDate (utc_us d + s * 1000000) (offset_us d)).

Definition before (a b : datetime) : bool := utc_us a <? utc_us b.

Inductive ArtifactGcAction := RETAIN | DELETE | DEFER.

Inductive ArtifactGcReason :=
  | ELIGIBLE | RETENTION_WINDOW | LIVE_JOB_REFERENCE | LIVE_DEPLOYMENT_REFERENCE
  | REFERENCE_IDENTITY_MISMATCH | REFERENCE_LEASE_EXPIRED | REFERENCE_STATE_UNKNOWN
  | REFERENCE_CONFLICT | REFERENCE_SCAN_INCOMPLETE | RETENTION_TOMBSTONE | DELETION_TOMBSTONE
  | TOMBSTONE_IDENTITY_MISMATCH | TOMBSTONE_CONFLICT | TOMBSTONE_SCAN_INCOMPLETE
  | CANDIDATE_IDENTITY_CONFLICT.

Inductive ArtifactReferenceKind := JOB | DEPLOYMENT.
Inductive ArtifactReferenceState := LIVE | RELEASED | UNKNOWN.
Inductive ArtifactTombstoneKind := DELETION | RETENTION.

#[export] Instance ArtifactGcAction_eq_dec : EqDecision ArtifactGcAction.
Proof. solve_decision. Defined.
#[export] Instance ArtifactGcReason_eq_dec : EqDecision ArtifactGcReason.
Proof. solve_decision. Defined.
#[export] Instance ArtifactReferenceKind_eq_dec : EqDecision ArtifactReferenceKind.
Proof. solve_decision. Defined.
#[export] Instance ArtifactReferenceState_eq_dec : EqDecision ArtifactReferenceState.
Proof. solve_decision. Defined.
#[export] Instance ArtifactTombstoneKind_eq_dec : EqDecision ArtifactTombstoneKind.
Proof. solve_decision. Defined.

(** [A-Za-z0-9._:+-] *)
Definition is_version_char (c : ascii) : bool := is_identity_char c || bool_decide (c = "+"%char).

Definition is_version (s : string) : bool :=
  match s with
  | EmptyString => false
  | String c s' => is_alnum c && str_forallb is_version_char s' && (String.length s' <=? 63)%nat
  end.

Definition _identity (value : pyval) (field : string) : res string :=
  check_str is_identity ValueError (field +:+ " must be a bounded stable identity") value.

Definition _version (value : pyval) : res string :=
  check_str is_version ValueError "version must be a bounded cache generation" value.

Definition _digest (value : pyval) : res string :=
  check_str is_digest ValueError "digest must be a lowercase SHA-256 digest" value.

Definition _revision (value : pyval) (field : string) : res Z :=
  check_int 1 max_i64 ValueError (field +:+ " must be a positive bounded integer") value.

(** [isinstance(value, datetime)] with an offset; any other value is [Foreign]. *)
Definition _aware (value : dyn datetime) (field : string) : res datetime :=
  inst_of ValueError (field +:+ " must be timezone-aware") value.

(** The length of the UTF-8 encoding is the length of the text. *)
Definition _reason (value : pyval) : res string :=
  check_str (λ s, negb (is_blank s) && (Z.of_nat (String.length s) <=? 512)) ValueError
    "reason must be bounded non-empty text" value.

Definition _enum {A} (value : dyn A) (field type_name : string) : res A :=
  inst_of ValueError (field +:+ " must be a " +:+ type_name) value.

(** An optional argument that is validated when it is not [None]. *)
Definition optional {A B} (check : A → res B) (value : option A) : res (option B) :=
  match value with None => Ok None | Some v => Some <$> check v end.

Definition artifact_key : Type := string * string * string.

Record ArtifactCacheEntry := MkEntry {
  e_artifact_id : string;
  e_digest : string;
  e_version : string;
  e_size_bytes : Z;
  e_last_accessed_at : datetime;
  e_retain_until : option datetime;
  e_revision : Z
}.
#[export] Instance ArtifactCacheEntry_eq_dec : EqDecision ArtifactCacheEntry.
Proof. solve_decision. Defined.

Definition Entry_init (id digest version size : pyval) (last : dyn datetime)
    (retain : option (dyn datetime)) (revision : pyval) : res ArtifactCacheEntry :=
  id' ← _identity id "artifact_id";
  digest' ← _digest digest;
  version' ← _version version;
  size' ← match py_int size with
          | Some z => if z <? 0 then throw ValueError "size_bytes must be a non-negative integer" else Ok z
          | None => throw ValueError "size_bytes must be a non-negative integer"
          end;
  last' ← _aware last "last_accessed_at";
  retain' ← optional (λ v, _aware v "retain_until") retain;
  revision' ← _revision revision "revision";
  Ok (MkEntry id' digest' version' size' last' retain' revision').

Definition entry_key (e : ArtifactCacheEntry) : artifact_key := (e_artifact_id e, e_digest e, e_version e).

Record ArtifactReference := MkReference {
  r_owner_id : string;
  r_owner_kind : ArtifactReferenceKind;
  r_state : ArtifactReferenceState;
  r_artifact_id : string;
  r_digest : string;
  r_version : string;
  r_revision : Z;
  r_lease_expires_at : option datetime
}.
#[export] Instance ArtifactReference_eq_dec : EqDecision ArtifactReference.
Proof. solve_decision. Defined.

Definition Reference_init (owner : pyval) (kind : dyn ArtifactReferenceKind)
    (st : dyn ArtifactReferenceState) (id digest version revision : pyval)
    (lease : option (dyn datetime)) : res ArtifactReference :=
  owner' ← _identity owner "owner_id";
  kind' ← _enum kind "owner_kind" "ArtifactReferenceKind";
  st' ← _enum st "state" "ArtifactReferenceState";
  id' ← _identity id "artifact_id";
  digest' ← _digest digest;
  version' ← _version version;
  revision' ← _revision revision "revision";
  lease' ← optional (λ v, _aware v "lease_expires_at") lease;
  Ok (MkReference owner' kind' st' id' digest' version' revision' lease').

Definition ref_key (r : ArtifactReference) : artifact_key := (r_artifact_id r, r_digest r, r_version r).
Definition owner_key (r : ArtifactReference) : string * string := (r_owner_id r, r_artifact_id r).

Definition is_live (now : datetime) (r : ArtifactReference) : bool :=
  bool_decide (r_state r = LIVE)
  && match r_lease_expires_at r with None => true | Some t => before now t end.

Definition lease_expired (now : datetime) (r : ArtifactReference) : bool :=
  bool_decide (r_state r = LIVE)
  && match r_lease_expires_at r with None => false | Some t => negb (before now t) end.

Record ArtifactTombstone := MkTombstone {
  t_artifact_id : string;
  t_digest : string;
  t_version : string;
  t_kind : ArtifactTombstoneKind;
  t_revision : Z;
  t_created_at : datetime;
  t_reason : string
}.
#[export] Instance ArtifactTombstone_eq_dec : EqDecision ArtifactTombstone.
Proof. solve_decision. Defined.

Definition Tombstone_init (id digest version : pyval) (kind : dyn ArtifactTombstoneKind)
    (revision : pyval) (created : dyn datetime) (why : pyval) : res ArtifactTombstone :=
  id' ← _identity id "artifact_id";
  digest' ← _digest digest;
  version' ← _version version;
  kind' ← _enum kind "kind" "ArtifactTombstoneKind";
  revision' ← _revision revision "revision";
  created' ← _aware created "created_at";
  why' ← _reason why;
  Ok (MkTombstone id' digest' version' kind' revision' created' why').

Definition tomb_key (t : ArtifactTombstone) : artifact_key := (t_artifact_id t, t_digest t, t_version t).

(** The three page classes differ in the class of their items only. *)
Record page (A : Type) := MkPage {
  items : list A;
  complete : bool;
  next_cursor : option string;
  p_revision : Z
}.
Arguments MkPage {A} items complete next_cursor p_revision.
Arguments items {A} p.
Arguments complete {A} p.
Arguments next_cursor {A} p.
Arguments p_revision {A} p.

Definition Page_init {A} (type_name : string) (values : dyn (list (dyn A))) (done : pyval)
    (cursor : option pyval) (revision : pyval) : res (page A) :=
  let msg := "items must be a tuple of " +:+ type_name +:+ " values" in
  values0 ← inst_of ValueError msg values;
  values' ← mapM_res (inst_of ValueError msg) values0;
  done' ← check_bool ValueError "complete must be boolean" done;
  cursor' ← optional (λ v, _identity v "next_cursor") cursor;
  revision' ← _revision revision "revision";
  Ok (MkPage values' done' cursor' revision').

Definition ArtifactCachePage_init := Page_init (A := ArtifactCacheEntry) "ArtifactCacheEntry".
Definition ArtifactReferencePage_init := Page_init (A := ArtifactReference) "ArtifactReference".
Definition ArtifactTombstonePage_init := Page_init (A := ArtifactTombstone) "ArtifactTombstone".

Record ArtifactGcPolicy := MkPolicy {
  max_candidates : Z;
  max_references : Z;
  max_tombstones : Z;
  minimum_idle_seconds : Z
}.

Definition Policy_init (candidates references tombstones idle : pyval) : res ArtifactGcPolicy :=
  candidates' ← check_int 1 4096 ValueError "max_candidates must be within 1..4096" candidates;
  references' ← check_int 1 8192 ValueError "max_references must be within 1..8192" references;
  tombstones' ← check_int 1 8192 ValueError "max_tombstones must be within 1..8192" tombstones;
  idle' ← check_int 0 (365 * 86400) ValueError "minimum_idle_seconds must be within 0..365 days" idle;
  Ok (MkPolicy candidates' references' tombstones' idle').

Record ArtifactGcDecision := MkDecision {
  d_artifact_id : string;
  d_digest : string;
  d_version : string;
  d_action : ArtifactGcAction;
  d_reason : ArtifactGcReason;
  d_tombstone : option ArtifactTombstone
}.

Definition decision_key (d : ArtifactGcDecision) : artifact_key := (d_artifact_id d, d_digest d, d_version d).

(** The checks that bind the action, its reason and its tombstone. *)
Definition check_action (action : ArtifactGcAction) (why : ArtifactGcReason)
    (tombstone : option ArtifactTombstone) : res unit :=
  let kind := t_kind <$> tombstone in
  match action with
  | DELETE =>
      _ ← require (bool_decide (kind = Some DELETION)) ValueError
            "delete decisions require a matching deletion tombstone";
      require (mem why [ELIGIBLE; DELETION_TOMBSTONE]) ValueError
        "delete decisions require an eligibility or deletion-tombstone reason"
  | RETAIN =>
      _ ← require (negb (bool_decide (why = RETENTION_TOMBSTONE)
                         && negb (bool_decide (kind = Some RETENTION)))) ValueError
            "retention tombstone decisions require a retention tombstone";
      _ ← require (negb (negb (bool_decide (kind = None)) && negb (bool_decide (kind = Some RETENTION))))
            ValueError "retain decisions may carry only a retention tombstone";
      require (negb (negb (bool_decide (kind = None)) && negb (bool_decide (why = RETENTION_TOMBSTONE))))
        ValueError "retain decisions with a tombstone require a retention-tombstone reason"
  | DEFER =>
      require (bool_decide (kind = None)) ValueError "defer decisions cannot carry a tombstone"
  end.

Definition Decision_init (id digest version : pyval) (action : dyn ArtifactGcAction)
    (why : dyn ArtifactGcReason) (tombstone : option (dyn ArtifactTombstone))
  : res ArtifactGcDecision :=
  id' ← _identity id "artifact_id";
  digest' ← _digest digest;
  version' ← _version version;
  action' ← _enum action "action" "ArtifactGcAction";
  why' ← _enum why "reason" "ArtifactGcReason";
  tombstone' ← optional (inst_of ValueError "tombstone must be an ArtifactTombstone or None") tombstone;
  _ ← require (match tombstone' with
               | Some t => bool_decide (tomb_key t = (id', digest', version'))
               | None => true
               end) ValueError "tombstone identity must match decision identity";
  _ ← check_action action' why' tombstone';
  Ok (MkDecision id' digest' version' action' why' tombstone').

Definition _decision (entry : ArtifactCacheEntry) (action : ArtifactGcAction)
    (why : ArtifactGcReason) (tombstone : option ArtifactTombstone) : res ArtifactGcDecision :=
  Decision_init (PStr (e_artifact_id entry)) (PStr (e_digest entry)) (PStr (e_version entry))
    (Inst action) (Inst why) (Inst <$> tombstone).

Record ArtifactGcPlan := MkPlan {
  decisions : list ArtifactGcDecision;
  candidate_revision : Z;
  reference_revision : Z;
  tombstone_revision : Z;
  plan_complete : bool;
  plan_next_cursor : option string;
  scanned_candidates : Z;
  scanned_references : Z;
  scanned_tombstones : Z
}.

(** The constructor on values of the declared types. *)
Definition Plan_init (ds : list ArtifactGcDecision) (candidate_rev reference_rev tombstone_rev : Z)
    (done : bool) (cursor : option string) (candidates references tombstones : Z)
  : res ArtifactGcPlan :=
  c ← _revision (PInt candidate_rev) "candidate_revision";
  r ← _revision (PInt reference_rev) "reference_revision";
  t ← _revision (PInt tombstone_rev) "tombstone_revision";
  cursor' ← optional (λ s, _identity (PStr s) "next_cursor") cursor;
  _ ← require (0 <=? candidates) ValueError "scanned_candidates must be a non-negative integer";
  _ ← require (0 <=? references) ValueError "scanned_references must be a non-negative integer";
  _ ← require (0 <=? tombstones) ValueError "scanned_tombstones must be a non-negative integer";
  Ok (MkPlan ds c r t done cursor' candidates references tombstones).

Definition deferred (p : ArtifactGcPlan) : list ArtifactGcDecision :=
  List.filter (λ d, bool_decide (d_action d = DEFER)) (decisions p).

Definition _DEFAULT_POLICY : ArtifactGcPolicy := MkPolicy 256 1024 1024 3600.
Definition _default_reference_page : page ArtifactReference := MkPage [] true None 1.
Definition _default_tombstone_page : page ArtifactTombstone := MkPage [] true None 1.

(** ** The planner *)

(** What an owner asserts of an artifact; expiries are equal as instants. *)
Definition assertion (r : ArtifactReference) : string * string * ArtifactReferenceState * option Z :=
  (r_digest r, r_version r, r_state r, utc_us <$> r_lease_expires_at r).

(** [grouped.setdefault(reference.owner_key, set()).add(assertion)] over the references. *)
Definition grouped (references : list ArtifactReference)
  : gmap (string * string) (list (string * string * ArtifactReferenceState * option Z)) :=
  foldl (λ m r, <[owner_key r := add_once (default [] (m !! owner_key r)) (assertion r)]> m) ∅ references.

Definition _reference_conflicts (references : list ArtifactReference) : gset (string * string) :=
  dom (filter (λ kv, (1 < length kv.2)%nat) (grouped references)).

(** [max(...)] of a non-empty list of positive numbers. *)
Definition max_revision (l : list ArtifactTombstone) : Z := foldr (λ t m, Z.max (t_revision t) m) 0 l.

Definition _tombstone_for (entry : ArtifactCacheEntry) (tombstones : list ArtifactTombstone)
  : option ArtifactTombstone * option ArtifactGcReason :=
  let same_id := List.filter (λ t, String.eqb (t_artifact_id t) (e_artifact_id entry)) tombstones in
  let exact := List.filter (λ t, bool_decide (tomb_key t = entry_key entry)) same_id in
  if existsb (λ t, negb (bool_decide (tomb_key t = entry_key entry))) same_id
  then (None, Some TOMBSTONE_IDENTITY_MISMATCH)
  else if (length exact =? 0)%nat then (None, None)
  else if (1 <? length (remove_dups (t_kind <$> exact)))%nat then (None, Some TOMBSTONE_CONFLICT)
  else
  let latest_revision := max_revision exact in
  let latest := List.filter (λ t, t_revision t =? latest_revision) exact in
  if (1 <? length (remove_dups (t_reason <$> latest)))%nat then (None, Some TOMBSTONE_CONFLICT)
  else match latest with
  | [] => (None, None)
  | marker :: _ =>
      (Some marker, Some (match t_kind marker with
                          | RETENTION => RETENTION_TOMBSTONE
                          | DELETION => DELETION_TOMBSTONE
                          end))
  end.

(** [candidate_groups.setdefault(item.artifact_id, []).append(item)] *)
Definition candidate_groups (selected : list ArtifactCacheEntry) : gmap string (list ArtifactCacheEntry) :=
  foldl (λ m e, <[e_artifact_id e := default [] (m !! e_artifact_id e) ++ [e]]> m) ∅ selected.

Definition candidate_conflicts (selected : list ArtifactCacheEntry) : gset string :=
  dom (filter (λ kv, (1 < length (remove_dups (entry_key <$> kv.2)))%nat) (candidate_groups selected)).

(** The order of [sorted(..., key=lambda item: item.key)]. *)
Definition key_leb (a b : artifact_key) : bool :=
  let '(a1, a2, a3) := a in let '(b1, b2, b3) := b in
  if negb (String.eqb a1 b1) then String.leb a1 b1
  else if negb (String.eqb a2 b2) then String.leb a2 b2
  else String.leb a3 b3.

Definition entry_le (a b : ArtifactCacheEntry) : bool := key_leb (entry_key a) (entry_key b).

(** What one pass of the planner works with. *)
Record gc_pass := MkPass {
  conflicts : gset string;
  selected_references : list ArtifactReference;
  selected_tombstones : list ArtifactTombstone;
  reference_scan_incomplete : bool;
  tombstone_scan_incomplete : bool;
  current : datetime;
  idle_seconds : Z
}.

(** The part of the body that looks at the references: a decision, or nothing when no
    reference holds the entry. *)
Definition judge_references (g : gc_pass) (item : ArtifactCacheEntry)
  : option (ArtifactGcAction * ArtifactGcReason) :=
  let same_id := List.filter (λ r, String.eqb (r_artifact_id r) (e_artifact_id item))
                   (selected_references g) in
  let matching := List.filter (λ r, bool_decide (ref_key r = entry_key item)) same_id in
  if existsb (λ r, bool_decide (owner_key r ∈ _reference_conflicts (selected_references g))) same_id
  then Some (DEFER, REFERENCE_CONFLICT)
  else if existsb (λ r, negb (bool_decide (ref_key r = entry_key item))
                        && mem (r_state r) [LIVE; UNKNOWN]) same_id
  then Some (DEFER, REFERENCE_IDENTITY_MISMATCH)
  else if existsb (λ r, bool_decide (r_state r = UNKNOWN)) matching
  then Some (DEFER, REFERENCE_STATE_UNKNOWN)
  else if existsb (lease_expired (current g)) matching
  then Some (DEFER, REFERENCE_LEASE_EXPIRED)
  else match List.find (is_live (current g)) matching with
  | Some live =>
      Some (RETAIN, match r_owner_kind live with
                    | JOB => LIVE_JOB_REFERENCE
                    | DEPLOYMENT => LIVE_DEPLOYMENT_REFERENCE
                    end)
  | None => None
  end.

(** The end of the body: no tombstone and no reference. *)
Definition judge_age (g : gc_pass) (item : ArtifactCacheEntry) : res ArtifactGcDecision :=
  idle_deadline ← add_seconds (e_last_accessed_at item) (idle_seconds g);
  if match e_retain_until item with Some t => before (current g) t | None => false end
     || before (current g) idle_deadline
  then _decision item RETAIN RETENTION_WINDOW None
  else
  generated ← Tombstone_init (PStr (e_artifact_id item)) (PStr (e_digest item)) (PStr (e_version item))
                (Inst DELETION) (PInt (e_revision item)) (Inst (current g))
                (PStr "garbage collection eligibility decision");
  _decision item DELETE ELIGIBLE (Some generated).

Definition judge (g : gc_pass) (item : ArtifactCacheEntry) : res ArtifactGcDecision :=
  if bool_decide (e_artifact_id item ∈ conflicts g)
  then _decision item DEFER CANDIDATE_IDENTITY_CONFLICT None
  else if reference_scan_incomplete g then _decision item DEFER REFERENCE_SCAN_INCOMPLETE None
  else if tombstone_scan_incomplete g then _decision item DEFER TOMBSTONE_SCAN_INCOMPLETE None
  else match judge_references g item with
  | Some (action, why) => _decision item action why None
  | None =>
      match _tombstone_for item (selected_tombstones g) with
      | (_, Some TOMBSTONE_IDENTITY_MISMATCH) => _decision item DEFER TOMBSTONE_IDENTITY_MISMATCH None
      | (_, Some TOMBSTONE_CONFLICT) => _decision item DEFER TOMBSTONE_CONFLICT None
      | (marker, Some RETENTION_TOMBSTONE) => _decision item RETAIN RETENTION_TOMBSTONE marker
      | (marker, Some DELETION_TOMBSTONE) => _decision item DELETE DELETION_TOMBSTONE marker
      | _ => judge_age g item
      end
  end.

(** The loop over the selected candidates. *)
Fixpoint judge_all (g : gc_pass) (seen_keys : list artifact_key) (l : list ArtifactCacheEntry)
  : res (list ArtifactGcDecision) :=
  match l with
  | [] => Ok []
  | item :: l' =>
      if mem (entry_key item) seen_keys then judge_all g seen_keys l'
      else
        d ← judge g item;
        ds ← judge_all g (entry_key item :: seen_keys) l';
        Ok (d :: ds)
  end.

(** [seq[:n]] for a non-negative [n]. *)
Definition ztake {A} (n : Z) (l : list A) : list A := take (Z.to_nat n) l.

Definition selected_candidates (policy : ArtifactGcPolicy) (candidates : page ArtifactCacheEntry)
  : list ArtifactCacheEntry :=
  sort_by entry_le (ztake (max_candidates policy) (items candidates)).

(** An optional argument with its default. *)
Definition argument {A} (default_value : A) (msg : string) (value : option (dyn A)) : res A :=
  match value with None => Ok default_value | Some v => inst_of ValueError msg v end.

Definition pass_of (policy : ArtifactGcPolicy) (candidates : page ArtifactCacheEntry)
    (references : page ArtifactReference) (tombstones : page ArtifactTombstone) (now : datetime)
  : gc_pass :=
  MkPass (candidate_conflicts (selected_candidates policy candidates))
    (ztake (max_references policy) (items references))
    (ztake (max_tombstones policy) (items tombstones))
    (negb (complete references) || (max_references policy <? zlen (items references)))
    (negb (complete tombstones) || (max_tombstones policy <? zlen (items tombstones)))
    now (minimum_idle_seconds policy).

(** The plan once the arguments are known; [clock] is [datetime.now(timezone.utc)]. *)
Definition build_plan (policy : ArtifactGcPolicy) (candidates : page ArtifactCacheEntry)
    (references : page ArtifactReference) (tombstones : page ArtifactTombstone) (now : datetime)
  : res ArtifactGcPlan :=
  let candidate_overflow := max_candidates policy <? zlen (items candidates) in
  let reference_overflow := max_references policy <? zlen (items references) in
  let tombstone_overflow := max_tombstones policy <? zlen (items tombstones) in
  let selected := selected_candidates policy candidates in
  ds ← judge_all (pass_of policy candidates references tombstones now) [] selected;
  let all_complete := complete candidates && negb candidate_overflow && complete references
                  && negb reference_overflow && complete tombstones && negb tombstone_overflow in
  let cursor :=
    if negb (complete candidates) || candidate_overflow then
      match next_cursor candidates with
      | Some c => Some c
      | None => e_artifact_id <$> last selected
      end
    else None in
  Plan_init ds (p_revision candidates) (p_revision references) (p_revision tombstones)
    all_complete cursor (zlen selected) (zlen (ztake (max_references policy) (items references)))
    (zlen (ztake (max_tombstones policy) (items tombstones))).

Definition plan_artifact_gc (candidates : dyn (page ArtifactCacheEntry))
    (references : option (dyn (page ArtifactReference)))
    (tombstones : option (dyn (page ArtifactTombstone)))
    (now : option (dyn datetime)) (policy : option (dyn ArtifactGcPolicy)) (clock : datetime)
  : res ArtifactGcPlan :=
  candidates' ← inst_of ValueError "candidates must be an ArtifactCachePage" candidates;
  references' ← argument _default_reference_page "references must be an ArtifactReferencePage" references;
  tombstones' ← argument _default_tombstone_page "tombstones must be an ArtifactTombstonePage" tombstones;
  policy' ← argument _DEFAULT_POLICY "policy must be an ArtifactGcPolicy" policy;
  now' ← match now with None => Ok clock | Some v => _aware v "now" end;
  build_plan policy' candidates' references' tombstones' now'.

(** ** Conflicts *)

Lemma two_distinct {A} (l : list A) :
  NoDup l → ((1 < length l)%nat ↔ ∃ x y, x ∈ l ∧ y ∈ l ∧ x ≠ y).
Proof.
  intros Hn. split.
  - destruct l as [|x [|y l]]; simpl; [lia..|]. intros _. exists x, y.
    apply NoDup_cons in Hn as [Hx _]. split_and!; [by left|by right; left|]. intros ->. apply Hx. by left.
  - intros (x & y & Hx & Hy & Hne). destruct l as [|a [|b l]]; simpl; [by apply elem_of_nil in Hx| |lia].
    apply list_elem_of_singleton in Hx, Hy. congruence.
Qed.

(** [len({f(t) for t in l}) > 1] fails exactly when [f] is constant on [l]. *)
Lemma dups_agree {A B} `{EqDecision B} (f : A → B) (l : list A) :
  (1 <? length (remove_dups (f <$> l)))%nat = false ↔ ∀ t t', t ∈ l → t' ∈ l → f t = f t'.
Proof.
  rewrite <-not_true_iff_false, Nat.ltb_lt, two_distinct by apply NoDup_remove_dups.
  setoid_rewrite elem_of_remove_dups. setoid_rewrite list_elem_of_fmap. split.
  - intros H t t' Ht Ht'. destruct (decide (f t = f t')); [done|]. destruct H. exists (f t), (f t'). eauto 10.
  - intros H (x & y & (t & -> & Ht) & (t' & -> & Ht') & Hne). by apply Hne, H.
Qed.

(** The groups hold what the owners assert. *)
Lemma grouped_nodup references k : NoDup (default [] (grouped references !! k)).
Proof.
  unfold grouped. induction references as [|r l IH] using rev_ind; simpl.
  - rewrite lookup_empty. constructor.
  - rewrite foldl_snoc. destruct (decide (owner_key r = k)) as [<-|Hne].
    + rewrite lookup_insert_eq. by apply add_once_NoDup.
    + by rewrite lookup_insert_ne.
Qed.

Lemma grouped_elem references k v :
  v ∈ default [] (grouped references !! k) ↔ ∃ r, r ∈ references ∧ owner_key r = k ∧ assertion r = v.
Proof.
  unfold grouped. induction references as [|r l IH] using rev_ind; simpl.
  - rewrite lookup_empty. simpl. set_solver.
  - rewrite foldl_snoc. setoid_rewrite elem_of_app. setoid_rewrite list_elem_of_singleton.
    destruct (decide (owner_key r = k)) as [<-|Hne].
    + rewrite lookup_insert_eq. simpl. rewrite add_once_elem, IH. split.
      * intros [(x & ? & ? & ?)| ->]; [exists x; auto|exists r; auto].
      * intros (x & [?| ->] & ? & <-); [left; by exists x|by right].
    + rewrite lookup_insert_ne by done. rewrite IH. split.
      * intros (x & ? & ? & ?). exists x; auto.
      * intros (x & [?| ->] & ? & ?); [by exists x|done].
Qed.

(** The keys of the groups with a property that the empty group lacks. *)
Lemma dom_filter_groups `{Countable K} {V} (P : list V → Prop) `{∀ kv : K * list V, Decision (P kv.2)}
    (m : gmap K (list V)) k :
  ¬ P [] → k ∈ dom (filter (λ kv, P kv.2) m) ↔ P (default [] (m !! k)).
Proof.
  intros Hnil. rewrite elem_of_dom. unfold is_Some. setoid_rewrite map_lookup_filter_Some. split.
  - by intros (vs & -> & ?).
  - destruct (m !! k) as [vs|]; simpl; [|done]. intros ?. by exists vs.
Qed.

Lemma reference_conflicts_spec references k :
  k ∈ _reference_conflicts references ↔
  ∃ r r', r ∈ references ∧ r' ∈ references ∧ owner_key r = k ∧ owner_key r' = k ∧ assertion r ≠ assertion r'.
Proof.
  unfold _reference_conflicts. etrans; [apply (dom_filter_groups (λ l, (1 < length l)%nat)); simpl; lia|].
  rewrite two_distinct by apply grouped_nodup. setoid_rewrite grouped_elem. split.
  - intros (x & y & (r & ? & ? & <-) & (r' & ? & ? & <-) & ?). by exists r, r'.
  - intros (r & r' & ? & ? & ? & ? & ?). exists (assertion r), (assertion r'). eauto 10.
Qed.

Lemma candidate_groups_elem selected k e :
  e ∈ default [] (candidate_groups selected !! k) ↔ e ∈ selected ∧ e_artifact_id e = k.
Proof.
  unfold candidate_groups. induction selected as [|x l IH] using rev_ind; simpl.
  - rewrite lookup_empty. simpl. set_solver.
  - rewrite foldl_snoc, elem_of_app, list_elem_of_singleton.
    destruct (decide (e_artifact_id x = k)) as [<-|Hne].
    + rewrite lookup_insert_eq. simpl. rewrite elem_of_app, list_elem_of_singleton, IH.
      split; [intros [[? ?]| ->]; auto|intros [[?| ->] ?]; auto].
    + rewrite lookup_insert_ne by done. rewrite IH.
      split; [intros [? ?]; auto|]. intros [[?| ->] ?]; [auto|done].
Qed.

Lemma candidate_conflicts_spec selected k :
  k ∈ candidate_conflicts selected ↔
  ∃ e e', e ∈ selected ∧ e' ∈ selected ∧ e_artifact_id e = k ∧ e_artifact_id e' = k
    ∧ entry_key e ≠ entry_key e'.
Proof.
  unfold candidate_conflicts.
  etrans; [apply (dom_filter_groups (λ l, (1 < length (remove_dups (entry_key <$> l)))%nat)); simpl; lia|].
  rewrite two_distinct by apply NoDup_remove_dups. setoid_rewrite elem_of_remove_dups.
  setoid_rewrite list_elem_of_fmap. setoid_rewrite candidate_groups_elem. split.
  - intros (x & y & (e & -> & ? & ?) & (e' & -> & ? & ?) & ?). by exists e, e'.
  - intros (e & e' & ? & ? & ? & ? & ?). exists (entry_key e), (entry_key e'). eauto 10.
Qed.

(** ** References and tombstones of an entry *)

(** No reference holds the entry: every owner of this artifact released it, and no owner
    asserts two things. *)
Definition unreferenced (references : list ArtifactReference) (item : ArtifactCacheEntry) : Prop :=
  ∀ r, r ∈ references → r_artifact_id r = e_artifact_id item →
    r_state r = RELEASED ∧
    ∀ r', r' ∈ references → owner_key r' = owner_key r → assertion r' = assertion r.

Lemma judge_references_none g item :
  judge_references g item = None ↔ unreferenced (selected_references g) item.
Proof.
  unfold judge_references, unreferenced. set (refs := selected_references g).
  set (same := List.filter _ refs). set (matching := List.filter _ same).
  assert (∀ r, r ∈ same ↔ r ∈ refs ∧ r_artifact_id r = e_artifact_id item) as Hsame
    by (intros r; unfold same; by rewrite elem_of_filter_bool, String.eqb_eq).
  assert (∀ r, r ∈ matching ↔ r ∈ same ∧ ref_key r = entry_key item) as Hmatch
    by (intros r; unfold matching; by rewrite elem_of_filter_bool, bool_decide_eq_true).
  split.
  - intros H r Hr Hid. assert (r ∈ same) as Hrs by by apply Hsame. cases_if.
    rewrite existsb_false in *. destruct (List.find _ matching) eqn:Hf; [done|].
    apply find_none_iff in Hf. rewrite existsb_false in Hf. split.
    + destruct (decide (ref_key r = entry_key item)) as [Hk|Hk].
      * assert (r ∈ matching) as Hrm by by apply Hmatch.
        specialize (Heqb1 r Hrm). specialize (Heqb2 r Hrm). specialize (Hf r Hrm).
        unfold lease_expired, is_live in *. destruct (r_state r); [|done|done].
        destruct (r_lease_expires_at r) as [t|]; [|done]. cbn in *. by destruct (before _ t).
      * specialize (Heqb0 r Hrs). rewrite bool_decide_eq_false_2 in Heqb0 by done.
        by destruct (r_state r).
    + intros r' Hr' Ho. specialize (Heqb r Hrs). to_prop. destruct (decide (assertion r' = assertion r)); [done|].
      destruct Heqb. apply reference_conflicts_spec. by exists r', r.
  - intros H. assert (∀ r, r ∈ same → r_state r = RELEASED) as Hrel.
    { intros r [Hr Hid]%Hsame. by destruct (H r Hr Hid). }
    rewrite !(proj2 (existsb_false _ _)).
    + destruct (List.find _ matching) as [r|] eqn:Hf; [|done]. apply find_some in Hf as [Hin Hlive].
      apply list_elem_of_In, Hmatch in Hin as [Hin _]. unfold is_live in Hlive. by rewrite Hrel in Hlive.
    + intros r [Hin _]%Hmatch. unfold lease_expired. by rewrite Hrel.
    + intros r [Hin _]%Hmatch. by rewrite Hrel.
    + intros r Hin. rewrite Hrel by done. by rewrite andb_false_r.
    + intros r [Hin Hid]%Hsame. apply bool_decide_eq_false. intros Hc.
      apply reference_conflicts_spec in Hc as (a & b & Ha & Hb & Hoa & Hob & Hne).
      destruct (H r Hin Hid) as [_ Hag]. apply Hne. rewrite (Hag a Ha), (Hag b Hb); congruence.
Qed.

(** A reference never deletes. *)
Lemma judge_references_action g item action why :
  judge_references g item = Some (action, why) → action ≠ DELETE ∧ check_action action why None = Ok tt.
Proof.
  unfold judge_references. intros H. cases_if; [by split..|].
  destruct (List.find _ _) as [r|]; [|done]. injection H as <- <-. by destruct (r_owner_kind r).
Qed.

(** The tombstones of the artifact, and the newest of them. *)
Definition marks (tombstones : list ArtifactTombstone) (item : ArtifactCacheEntry)
    (t : ArtifactTombstone) : Prop :=
  t ∈ tombstones ∧ t_artifact_id t = e_artifact_id item.

Definition newest (tombstones : list ArtifactTombstone) (item : ArtifactCacheEntry)
    (t : ArtifactTombstone) : Prop :=
  marks tombstones item t ∧ ∀ t', marks tombstones item t' → t_revision t' <= t_revision t.

(** The tombstones agree: all of this generation and of one kind, the newest for one reason. *)
Definition tombstones_agree (tombstones : list ArtifactTombstone) (item : ArtifactCacheEntry)
    (kind : ArtifactTombstoneKind) : Prop :=
  (∀ t, marks tombstones item t → tomb_key t = entry_key item ∧ t_kind t = kind)
  ∧ ∀ t t', newest tombstones item t → newest tombstones item t' → t_reason t = t_reason t'.

Lemma max_revision_spec l :
  Forall (λ t, 1 <= t_revision t) l → l ≠ [] →
  (∃ t, t ∈ l ∧ t_revision t = max_revision l) ∧ ∀ t, t ∈ l → t_revision t <= max_revision l.
Proof.
  induction 1 as [|x l Hx Hl IH]; [done|]. intros _. simpl. split.
  - destruct l as [|y l]; [exists x; split; [by left|]; simpl; lia|].
    destruct IH as [(t & Ht & Hm) _]; [done|]. destruct (Z.max_spec (t_revision x) (max_revision (y :: l))) as [[? ->]|[? ->]].
    + exists t. split; [by right|done].
    + exists x. split; [by left|done].
  - intros t [->|Ht]%elem_of_cons; [lia|]. destruct l as [|y l]; [by apply elem_of_nil in Ht|].
    destruct IH as [_ IH]; [done|]. specialize (IH t Ht). lia.
Qed.

Definition marker_reason (kind : ArtifactTombstoneKind) : ArtifactGcReason :=
  match kind with RETENTION => RETENTION_TOMBSTONE | DELETION => DELETION_TOMBSTONE end.

(** The list [latest] holds the newest tombstones, at least one. *)
Lemma latest_newest item tombstones exact :
  Forall (λ t, 1 <= t_revision t) tombstones → exact ≠ [] →
  (∀ t, t ∈ exact ↔ marks tombstones item t) →
  List.filter (λ t, t_revision t =? max_revision exact) exact ≠ []
  ∧ ∀ t, t ∈ List.filter (λ t, t_revision t =? max_revision exact) exact ↔ newest tombstones item t.
Proof.
  intros Hrev Hne Hexact.
  destruct (max_revision_spec exact) as [(t0 & Ht0 & Hm0) Hmax]; [|done|].
  { rewrite Forall_forall in Hrev |- *. intros t Ht. apply Hexact in Ht as [Ht _]. by apply Hrev. }
  split.
  - intros Hn. assert (t0 ∈ List.filter (λ t, t_revision t =? max_revision exact) exact) as Hin.
    { apply elem_of_filter_bool. by rewrite Z.eqb_eq. }
    rewrite Hn in Hin. by apply elem_of_nil in Hin.
  - intros t. unfold newest. rewrite elem_of_filter_bool, Hexact, Z.eqb_eq. split.
    + intros [Ht Heq]. split; [done|]. intros t' Ht'%Hexact. rewrite Heq. by apply Hmax.
    + intros [Ht Hall]. split; [done|]. apply Hexact in Ht0. specialize (Hall t0 Ht0).
      apply Hexact, Hmax in Ht. lia.
Qed.

Lemma tombstone_for_spec item tombstones :
  Forall (λ t, 1 <= t_revision t) tombstones →
  (_tombstone_for item tombstones = (None, None) ∧ ∀ t, ¬ marks tombstones item t)
  ∨ (∃ why, _tombstone_for item tombstones = (None, Some why)
      ∧ (why = TOMBSTONE_IDENTITY_MISMATCH ∨ why = TOMBSTONE_CONFLICT)
      ∧ (∃ t, marks tombstones item t) ∧ ∀ kind, ¬ tombstones_agree tombstones item kind)
  ∨ (∃ m, _tombstone_for item tombstones = (Some m, Some (marker_reason (t_kind m)))
      ∧ newest tombstones item m ∧ tomb_key m = entry_key item ∧ tombstones_agree tombstones item (t_kind m)).
Proof.
  intros Hrev. unfold _tombstone_for. set (same := List.filter _ tombstones).
  set (exact := List.filter _ same).
  assert (∀ t, t ∈ same ↔ marks tombstones item t) as Hsame
    by (intros t; unfold same, marks; by rewrite elem_of_filter_bool, String.eqb_eq).
  destruct (existsb _ same) eqn:Hmis.
  { right; left. apply existsb_elem in Hmis as (t & Ht%Hsame & Hk). to_prop. eexists. split; [done|].
    split; [by left|]. split; [by exists t|]. intros kind [Hall _]. by destruct (Hall t Ht). }
  rewrite existsb_false in Hmis.
  assert (∀ t, marks tombstones item t → tomb_key t = entry_key item) as Hkey.
  { intros t Ht%Hsame%Hmis. by to_prop. }
  assert (∀ t, t ∈ exact ↔ marks tombstones item t) as Hexact.
  { intros t. unfold exact. rewrite elem_of_filter_bool, Hsame, bool_decide_eq_true.
    split; [by intros []|]. auto. }
  destruct exact as [|t0 exact'] eqn:Hz.
  { left. split; [done|]. intros t Ht%Hexact. by apply elem_of_nil in Ht. }
  rewrite <-Hz in *. assert (exact ≠ []) as Hne by by rewrite Hz.
  rewrite (proj2 (Nat.eqb_neq (length exact) 0)) by by rewrite Hz.
  assert (∃ t, marks tombstones item t) as Hsome by (exists t0; apply Hexact; rewrite Hz; by left).
  destruct (latest_newest item tombstones exact Hrev Hne Hexact) as [Hlne Hlatest].
  destruct (1 <? length (remove_dups (t_kind <$> exact)))%nat eqn:Hkinds.
  { right; left. eexists. split; [done|]. split; [by right|]. split; [done|]. intros kind [Hall _].
    apply not_false_iff_true in Hkinds. apply Hkinds, dups_agree. intros t t' Ht%Hexact%Hall Ht'%Hexact%Hall.
    destruct Ht, Ht'. congruence. }
  cbv zeta. set (latest := List.filter (λ t, t_revision t =? max_revision exact) exact) in *.
  destruct (1 <? length (remove_dups (t_reason <$> latest)))%nat eqn:Hreasons.
  { right; left. eexists. split; [done|]. split; [by right|]. split; [done|]. intros kind [_ Hall].
    apply not_false_iff_true in Hreasons. apply Hreasons, dups_agree. intros t t' Ht%Hlatest Ht'%Hlatest. auto. }
  right; right. rewrite dups_agree in Hkinds. rewrite dups_agree in Hreasons. destruct latest as [|m l]; [done|].
  assert (newest tombstones item m) as Hm by (apply Hlatest; by left).
  exists m. split; [by destruct (t_kind m)|]. split; [done|]. split; [by apply Hkey, Hm|]. split.
  - intros t Ht. split; [by apply Hkey|]. by apply Hkinds; apply Hexact; [|apply Hm].
  - intros t t' Ht%Hlatest Ht'%Hlatest. auto.
Qed.

(** ** One entry *)

Definition entry_ok (e : ArtifactCacheEntry) : Prop :=
  Entry_init (PStr (e_artifact_id e)) (PStr (e_digest e)) (PStr (e_version e)) (PInt (e_size_bytes e))
    (Inst (e_last_accessed_at e)) (Inst <$> e_retain_until e) (PInt (e_revision e)) = Ok e.

Lemma entry_ok_fields e :
  entry_ok e → is_identity (e_artifact_id e) = true ∧ is_digest (e_digest e) = true
    ∧ is_version (e_version e) = true ∧ 1 <= e_revision e <= max_i64.
Proof.
  unfold entry_ok, Entry_init, _identity, _digest, _version, _revision. intros H. repeat res_step.
  cbn in *. by simplify_eq.
Qed.

(** The decision on the entry, once the action, reason and tombstone go together. *)
Definition decided (item : ArtifactCacheEntry) (action : ArtifactGcAction) (why : ArtifactGcReason)
    (tombstone : option ArtifactTombstone) : ArtifactGcDecision :=
  MkDecision (e_artifact_id item) (e_digest item) (e_version item) action why tombstone.

Lemma decision_ok item action why tombstone :
  entry_ok item → (∀ t, tombstone = Some t → tomb_key t = entry_key item) →
  check_action action why tombstone = Ok tt →
  _decision item action why tombstone = Ok (decided item action why tombstone).
Proof.
  intros (Hi & Hd & Hv & _)%entry_ok_fields Hk Hc. unfold _decision, Decision_init, _identity, _digest, _version.
  assert (optional (inst_of ValueError "tombstone must be an ArtifactTombstone or None")
    (Inst <$> tombstone) = Ok tombstone) as Ho by by destruct tombstone.
  assert (match tombstone with
          | Some t => bool_decide (tomb_key t = (e_artifact_id item, e_digest item, e_version item))
          | None => true
          end = true) as Hb.
  { destruct tombstone as [t|]; [|done]. apply bool_decide_eq_true. by apply Hk. }
  res_eval.
Qed.

(** The retention window of the entry is over. *)
Definition aged (g : gc_pass) (item : ArtifactCacheEntry) : Prop :=
  (∀ t, e_retain_until item = Some t → utc_us t <= utc_us (current g))
  ∧ utc_us (e_last_accessed_at item) + idle_seconds g * 1000000 <= utc_us (current g).

(** What deletion needs. *)
Definition deletable (g : gc_pass) (item : ArtifactCacheEntry) : Prop :=
  (e_artifact_id item ∉ conflicts g)
  ∧ reference_scan_incomplete g = false ∧ tombstone_scan_incomplete g = false
  ∧ unreferenced (selected_references g) item
  ∧ ((∃ t, marks (selected_tombstones g) item t) ∧ tombstones_agree (selected_tombstones g) item DELETION
     ∨ (∀ t, ¬ marks (selected_tombstones g) item t) ∧ aged g item).

(** The idle deadline is a date. *)
Definition deadline_fits (g : gc_pass) (item : ArtifactCacheEntry) : Prop :=
  utc_us (e_last_accessed_at item) + offset_us (e_last_accessed_at item)
    + idle_seconds g * 1000000 <= max_local_us.

Definition judged (g : gc_pass) (item : ArtifactCacheEntry) (P : Prop) (result : res ArtifactGcDecision) : Prop :=
  (∃ d, result = Ok d ∧ decision_key d = entry_key item ∧ (d_action d = DELETE ↔ P))
  ∨ (∃ e, result = Err e ∧ exn_cls e = OverflowError ∧ ¬ deadline_fits g item).

Lemma judged_decision g item P action why tombstone :
  entry_ok item → (∀ t, tombstone = Some t → tomb_key t = entry_key item) →
  check_action action why tombstone = Ok tt → (action = DELETE ↔ P) →
  judged g item P (_decision item action why tombstone).
Proof.
  intros Hok Hk Hc HP. left. exists (decided item action why tombstone).
  split; [by apply decision_ok|]. by split.
Qed.

Lemma judge_age_spec g item : entry_ok item → judged g item (aged g item) (judge_age g item).
Proof.
  intros Hok. pose proof (entry_ok_fields item Hok) as (Hi & Hd & Hv & Hr). unfold judge_age, add_seconds.
  destruct (Z.leb_spec (utc_us (e_last_accessed_at item) + offset_us (e_last_accessed_at item)
    + idle_seconds g * 1000000) max_local_us) as [Hfit|Hfit]; cbn [require mbind res_bind].
  2: { right. eexists. split; [done|]. split; [done|]. unfold deadline_fits. lia. }
  destruct (_ || _) eqn:Hwin.
  - apply judged_decision; [done..|]. split; [done|]. intros [H1 H2]. exfalso.
    apply orb_true_iff in Hwin as [Hw|Hw]; unfold before in Hw; cbn [utc_us] in Hw; [|to_prop; lia].
    destruct (e_retain_until item) as [t|]; [|done]. specialize (H1 t eq_refl). to_prop. lia.
  - to_prop. unfold before in *. cbn [utc_us] in *. to_prop.
    set (t := MkTombstone (e_artifact_id item) (e_digest item) (e_version item) DELETION (e_revision item)
      (current g) "garbage collection eligibility decision").
    rewrite (bind_Ok _ _ t).
    2: { unfold Tombstone_init, _identity, _digest, _version, _revision. res_eval. }
    apply judged_decision; [done| |done|]; [by intros ? [= <-]|]. split; [|done]. intros _.
    split; [|done]. intros u Hu. rewrite Hu in *. by to_prop.
Qed.

Lemma judge_spec g item :
  entry_ok item → Forall (λ t, 1 <= t_revision t) (selected_tombstones g) →
  judged g item (deletable g item) (judge g item).
Proof.
  intros Hok Hrev. unfold judge, deletable.
  destruct (bool_decide_reflect (e_artifact_id item ∈ conflicts g)) as [Hc|Hc].
  { apply judged_decision; [done..|]. split; [done|]. by intros (? & _). }
  destruct (reference_scan_incomplete g).
  { apply judged_decision; [done..|]. split; [done|]. by intros (_ & ? & _). }
  destruct (tombstone_scan_incomplete g).
  { apply judged_decision; [done..|]. split; [done|]. by intros (_ & _ & ? & _). }
  pose proof (judge_references_none g item) as Hr.
  destruct (judge_references g item) as [[action why]|] eqn:Ej.
  { apply judge_references_action in Ej as [Hnd Hca]. apply judged_decision; [done..|].
    split; [done|]. intros (_ & _ & _ & Hu & _). apply Hr in Hu. done. }
  destruct (tombstone_for_spec item (selected_tombstones g) Hrev)
    as [[-> Hnone]|[(why & -> & Hwhy & [t Ht] & Hdis)|(m & -> & Hnew & Hkey & Hagree)]].
  - destruct (judge_age_spec g item Hok) as [(d & -> & Hk & Hd)|Herr]; [left|by right].
    exists d. split; [done|]. split; [done|]. rewrite Hd. split.
    + intros Ha. do 3 (split; [done|]). split; [by apply Hr|]. by right.
    + intros (_ & _ & _ & _ & [[[t Ht] _]|[_ Ha]]); [by destruct (Hnone t)|done].
  - destruct Hwhy as [-> | ->]; (apply judged_decision; [done..|]); (split; [done|]);
      (intros (_ & _ & _ & _ & [[_ Ha]|[Hn _]]); [by destruct (Hdis DELETION)|by destruct (Hn t)]).
  - destruct (t_kind m) eqn:Ekind; cbn [marker_reason].
    + apply judged_decision; [done|by intros ? [= <-]|by cbn; rewrite Ekind|]. split; [intros _|done].
      do 3 (split; [done|]). split; [by apply Hr|]. left. split; [exists m; apply Hnew|done].
    + apply judged_decision; [done|by intros ? [= <-]|by cbn; rewrite Ekind|]. split; [done|].
      intros (_ & _ & _ & _ & [[_ [Ha _]]|[Hn _]]); [|by destruct (Hn m); apply Hnew].
      destruct (Ha m); [apply Hnew|]. congruence.
Qed.

(** ** The pass *)

(** The first record of every key. *)
Fixpoint firsts (seen : list artifact_key) (l : list ArtifactCacheEntry) : list ArtifactCacheEntry :=
  match l with
  | [] => []
  | e :: l' => if mem (entry_key e) seen then firsts seen l' else e :: firsts (entry_key e :: seen) l'
  end.

Lemma firsts_keys seen l : entry_key <$> firsts seen l = fromkeys_aux seen (entry_key <$> l).
Proof.
  revert seen. induction l as [|e l IH]; intros seen; [done|]. cbn [firsts fmap list_fmap fromkeys_aux].
  destruct (mem _ seen); [apply IH|]. cbn. f_equal. apply IH.
Qed.

Lemma firsts_subset seen l e : e ∈ firsts seen l → e ∈ l.
Proof.
  revert seen. induction l as [|x l IH]; intros seen; [done|]. simpl. destruct (mem _ seen).
  - intros ?%IH. by right.
  - intros [->|?%IH]%elem_of_cons; [by left|by right].
Qed.

Lemma judge_all_spec g seen l :
  Forall entry_ok l → Forall (λ t, 1 <= t_revision t) (selected_tombstones g) →
  (∃ ds, judge_all g seen l = Ok ds ∧
     Forall2 (λ item d, judge g item = Ok d ∧ decision_key d = entry_key item
                        ∧ (d_action d = DELETE ↔ deletable g item)) (firsts seen l) ds)
  ∨ (∃ e, judge_all g seen l = Err e ∧ exn_cls e = OverflowError ∧ ∃ item, item ∈ l ∧ ¬ deadline_fits g item).
Proof.
  intros Hok Hrev. revert seen. induction Hok as [|x l Hx _ IH]; intros seen; cbn [judge_all firsts].
  - left. by exists [].
  - destruct (mem (entry_key x) seen).
    { destruct (IH seen) as [?|(e & ? & ? & item & ? & ?)]; [by left|right]. exists e. split; [done|].
      split; [done|]. exists item. split; [by right|done]. }
    destruct (judge_spec g x Hx Hrev) as [(d & Hd & Hk & Hdel)|(e & He & Hcls & Hfit)].
    2: { right. exists e. rewrite He. split; [done|]. split; [done|]. exists x. split; [by left|done]. }
    rewrite (bind_Ok _ _ d Hd).
    destruct (IH (entry_key x :: seen)) as [(ds & -> & Hds)|(e & -> & ? & item & ? & ?)].
    + left. exists (d :: ds). split; [done|]. by constructor.
    + right. exists e. split; [done|]. split; [done|]. exists item. split; [by right|done].
Qed.

Definition page_ok {A} (ok : A → Prop) (p : page A) : Prop :=
  Forall ok (items p) ∧ 1 <= p_revision p <= max_i64
  ∧ ∀ c, next_cursor p = Some c → is_identity c = true.

(** A page the constructor returns is well formed, if its items were constructed. *)
Lemma Page_init_ok {A} (ok : A → Prop) name values done cursor revision p :
  Page_init name (Inst (Inst <$> values)) done cursor revision = Ok p → Forall ok values → page_ok ok p.
Proof.
  unfold Page_init, _identity, _revision. intros H Hall. repeat res_step. cbn in *. simplify_eq.
  split; [done|]. split; [done|].
  intros c Hc. cbn in Hc. subst a2. destruct cursor as [v|]; [|done]. cbn in Hok2.
  destruct (check_str _ _ _ v) eqn:E; [|done]. injection Hok2 as ->. by apply check_str_ok in E as [_ ?].
Qed.

Lemma page_cursor_ok {A} (ok : A → Prop) p :
  page_ok ok p → optional (λ s, _identity (PStr s) "next_cursor") (next_cursor p) = Ok (next_cursor p).
Proof.
  intros (_ & _ & Hc). destruct (next_cursor p) as [c|]; [|done]. unfold optional, _identity.
  by rewrite check_str_PStr by by apply Hc.
Qed.

Section Pass.
  Context (policy : ArtifactGcPolicy) (candidates : page ArtifactCacheEntry).
  Context (references : page ArtifactReference) (tombstones : page ArtifactTombstone) (now clock : datetime).
  Hypothesis Hcandidates : page_ok entry_ok candidates.
  Hypothesis Hreferences : page_ok (λ _, True) references.
  Hypothesis Htombstones : page_ok (λ t, 1 <= t_revision t) tombstones.

  Local Abbreviation pass := (pass_of policy candidates references tombstones now).
  Local Abbreviation selected := (selected_candidates policy candidates).

Lemma selected_ok : Forall entry_ok selected.
  Proof using Hcandidates.
    unfold selected_candidates. rewrite sort_by_Permutation. apply Forall_take, Hcandidates.
  Qed.

Lemma pass_tombstones_ok : Forall (λ t, 1 <= t_revision t) (selected_tombstones pass).
  Proof using Htombstones. apply Forall_take, Htombstones. Qed.

  (** The plan on its pages: one decision per key, or the overflow of a date. *)
Lemma build_plan_spec :
    (∃ plan, build_plan policy candidates references tombstones now = Ok plan
      ∧ Forall2 (λ item d, judge pass item = Ok d ∧ decision_key d = entry_key item
                           ∧ (d_action d = DELETE ↔ deletable pass item)) (firsts [] selected) (decisions plan))
    ∨ (∃ e, build_plan policy candidates references tombstones now = Err e ∧ exn_cls e = OverflowError
        ∧ ∃ item, item ∈ selected ∧ ¬ deadline_fits pass item).
  Proof using Hcandidates Hreferences Htombstones.
    unfold build_plan. destruct (judge_all_spec pass [] selected selected_ok pass_tombstones_ok)
      as [(ds & Hds & Hall)|(e & He & Hrest)]; [|right; exists e; by rewrite He].
    left. rewrite (bind_Ok _ _ ds Hds). set (cursor := if _ || _ then _ else _).
    assert (optional (λ s, _identity (PStr s) "next_cursor") cursor = Ok cursor) as Hcur.
    { unfold cursor. destruct (_ || _); [|done]. pose proof (page_cursor_ok _ _ Hcandidates) as Hc.
      destruct (next_cursor candidates); [done|]. destruct (last selected) as [e|] eqn:El; [|done].
      cbn [fmap option_fmap option_map optional]. unfold _identity. rewrite check_str_PStr; [done|]. apply entry_ok_fields.
      pose proof selected_ok as Hsel. rewrite Forall_forall in Hsel. by apply Hsel, last_Some_elem_of. }
    destruct Hcandidates as (_ & Hc & _), Hreferences as (_ & Hr & _), Htombstones as (_ & Ht & _).
    assert (∀ A (l : list A), (0 <=? zlen l) = true) as Hz
      by (intros; apply Z.leb_le, Nat2Z.is_nonneg).
    eexists. split; [unfold Plan_init, _revision; res_eval|exact Hall].
  Qed.
End Pass.

Lemma plan_arguments policy candidates references tombstones now clock :
  plan_artifact_gc (Inst candidates) (Some (Inst references)) (Some (Inst tombstones)) (Some (Inst now))
    (Some (Inst policy)) clock = build_plan policy candidates references tombstones now.
Proof. done. Qed.

Lemma scan_complete {A} (limit : Z) (p : page A) :
  negb (complete p) || (limit <? zlen (items p)) = false →
  complete p = true ∧ zlen (items p) <= limit ∧ ztake limit (items p) = items p.
Proof.
  intros H. to_prop. split; [done|]. split; [done|]. unfold ztake, zlen in *. apply take_ge. lia.
Qed.

(** ** Theorems *)

(** The planner raises nothing on constructed pages but the overflow of a date: it returns a
    plan, or some selected entry was last accessed so late that its idle deadline lies after
    the year 9999.  The plan decides every key among the selected candidates once, in order. *)
Theorem gc_plan_covers policy candidates references tombstones now clock :
  page_ok entry_ok candidates → page_ok (λ _, True) references →
  page_ok (λ t, 1 <= t_revision t) tombstones →
  match plan_artifact_gc (Inst candidates) (Some (Inst references)) (Some (Inst tombstones))
          (Some (Inst now)) (Some (Inst policy)) clock with
  | Ok plan =>
      decision_key <$> decisions plan = fromkeys (entry_key <$> selected_candidates policy candidates)
  | Err e =>
      exn_cls e = OverflowError
      ∧ ∃ item, item ∈ selected_candidates policy candidates
          ∧ ¬ deadline_fits (pass_of policy candidates references tombstones now) item
  end.
Proof.
  intros Hc Hr Ht. rewrite plan_arguments.
  destruct (build_plan_spec policy candidates references tombstones now Hc Hr Ht)
    as [(plan & -> & Hall)|(e & -> & ? & ?)]; [|done].
  unfold fromkeys. rewrite <-firsts_keys. symmetry.
  eapply Forall2_fmap_same; [exact Hall|]. by intros item d (_ & -> & _).
Qed.

(** Deletion is exact: for the record the plan decides of a key, the decision is [DELETE]
    exactly when no other generation of the artifact is among the candidates, both scans are
    complete, every owner of the artifact has released it without contradiction, and either
    the artifact's tombstones are all deletions of this generation whose newest agree, or
    there are none and the retention window and the idle time are over. *)
Theorem gc_deletes_iff policy candidates references tombstones now clock plan :
  page_ok entry_ok candidates → page_ok (λ _, True) references →
  page_ok (λ t, 1 <= t_revision t) tombstones →
  plan_artifact_gc (Inst candidates) (Some (Inst references)) (Some (Inst tombstones))
    (Some (Inst now)) (Some (Inst policy)) clock = Ok plan →
  Forall2 (λ item d, decision_key d = entry_key item
      ∧ (d_action d = DELETE ↔ deletable (pass_of policy candidates references tombstones now) item))
    (firsts [] (selected_candidates policy candidates)) (decisions plan).
Proof.
  intros Hc Hr Ht. rewrite plan_arguments.
  destruct (build_plan_spec policy candidates references tombstones now Hc Hr Ht)
    as [(plan' & -> & Hall)|(e & -> & _)]; [|done]. intros [= <-].
  eapply Forall2_impl; [exact Hall|]. intros item d (_ & ? & ?). by split.
Qed.

(** Nothing in use is deleted: if the plan deletes a key, the reference and tombstone pages
    are complete and were read in full, every reference of the whole page to that artifact is
    released, every tombstone of the whole page on it is a deletion of exactly that key, and
    every candidate read for that artifact has exactly that key. *)
Theorem gc_delete_safe policy candidates references tombstones now clock plan d :
  page_ok entry_ok candidates → page_ok (λ _, True) references →
  page_ok (λ t, 1 <= t_revision t) tombstones →
  plan_artifact_gc (Inst candidates) (Some (Inst references)) (Some (Inst tombstones))
    (Some (Inst now)) (Some (Inst policy)) clock = Ok plan →
  d ∈ decisions plan → d_action d = DELETE →
  complete references = true ∧ complete tombstones = true
  ∧ (∀ r, r ∈ items references → r_artifact_id r = d_artifact_id d → r_state r = RELEASED)
  ∧ (∀ t, t ∈ items tombstones → t_artifact_id t = d_artifact_id d →
       tomb_key t = decision_key d ∧ t_kind t = DELETION)
  ∧ (∀ e, e ∈ selected_candidates policy candidates → e_artifact_id e = d_artifact_id d →
       entry_key e = decision_key d).
Proof.
  intros Hc Hr Ht. rewrite plan_arguments.
  destruct (build_plan_spec policy candidates references tombstones now Hc Hr Ht)
    as [(plan' & -> & Hall)|(e & -> & _)]; [|done]. intros [= <-] Hd Hdel.
  apply list_elem_of_lookup in Hd as [i Hd].
  destruct (Forall2_lookup_r _ _ _ _ _ Hall Hd) as (item & Hi & _ & Hkey & Hiff).
  destruct (proj1 Hiff Hdel) as (Hcon & Hsr & Hst & Hun & Htomb). cbn in Hsr, Hst.
  apply scan_complete in Hsr as (-> & _ & Hrefs). apply scan_complete in Hst as (-> & _ & Htombs).
  assert (d_artifact_id d = e_artifact_id item) as Hid by (by injection Hkey).
  unfold unreferenced in Hun. unfold tombstones_agree, marks in Htomb. cbn in Hun, Htomb.
  rewrite Hrefs in Hun. rewrite Htombs in Htomb. rewrite Hid, Hkey.
  split; [done|]. split; [done|]. split; [|split].
  - intros r Hin Hrid. by destruct (Hun r Hin Hrid).
  - intros t Hin Htid. destruct Htomb as [[_ [Hag _]]|[Hno _]]; [by apply Hag|]. by destruct (Hno t).
  - intros e He Heid. destruct (decide (entry_key e = entry_key item)); [done|]. destruct Hcon.
    apply candidate_conflicts_spec. exists e, item. split_and!; [done| |done..].
    eapply firsts_subset. by eapply list_elem_of_lookup_2.
Qed.

(** ** The order of references and tombstones *)

Lemma reference_conflicts_perm l k : l ≡ₚ k → _reference_conflicts l = _reference_conflicts k.
Proof. intros H. apply set_eq. intros x. rewrite !reference_conflicts_spec. by setoid_rewrite H. Qed.

Lemma find_action {A} (f : A → bool) (l : list A) (x : A → ArtifactGcReason) :
  fst <$> match List.find f l with Some r => Some (RETAIN, x r) | None => None end
  = if existsb f l then Some RETAIN else None.
Proof. induction l as [|a l IH]; simpl; [done|]. by destruct (f a). Qed.

Lemma judge_references_perm g g' item :
  selected_references g ≡ₚ selected_references g' → current g = current g' →
  fst <$> judge_references g item = fst <$> judge_references g' item.
Proof.
  intros Hp Hc. unfold judge_references. rewrite (reference_conflicts_perm _ _ Hp), Hc.
  set (same := List.filter _ (selected_references g)). set (same' := List.filter _ (selected_references g')).
  assert (same ≡ₚ same') as Hs by by apply filter_bool_perm.
  set (matching := List.filter _ same). set (matching' := List.filter _ same').
  assert (matching ≡ₚ matching') as Hm by by apply filter_bool_perm.
  rewrite !(existsb_perm _ _ _ Hs), !(existsb_perm _ _ _ Hm).
  do 4 (destruct (existsb _ _); [done|]). rewrite !find_action. by rewrite (existsb_perm _ _ _ Hm).
Qed.

Lemma marks_perm l k item t : l ≡ₚ k → marks l item t ↔ marks k item t.
Proof. unfold marks. by intros ->. Qed.

Lemma tombstones_agree_perm l k item kind : l ≡ₚ k → tombstones_agree l item kind → tombstones_agree k item kind.
Proof.
  intros H. unfold tombstones_agree, newest. by setoid_rewrite (marks_perm l k item _ H).
Qed.

Definition tombstone_action (r : option ArtifactTombstone * option ArtifactGcReason) : option ArtifactGcAction :=
  match r.2 with
  | None => None
  | Some RETENTION_TOMBSTONE => Some RETAIN
  | Some DELETION_TOMBSTONE => Some DELETE
  | Some _ => Some DEFER
  end.

Lemma tombstone_action_perm item l k :
  l ≡ₚ k → Forall (λ t, 1 <= t_revision t) l →
  tombstone_action (_tombstone_for item l) = tombstone_action (_tombstone_for item k).
Proof.
  intros Hp Hl. assert (Forall (λ t, 1 <= t_revision t) k) as Hk by by rewrite <-Hp.
  assert (∀ t, marks l item t ↔ marks k item t) as Hm by (intros; by apply marks_perm).
  destruct (tombstone_for_spec item l Hl)
    as [[-> Hnone]|[(why & -> & Hwhy & [t Ht] & Hdis)|(m & -> & [Hmark _] & _ & Hag)]];
  destruct (tombstone_for_spec item k Hk)
    as [[-> Hnone']|[(why' & -> & Hwhy' & [t' Ht'] & Hdis')|(m' & -> & [Hmark' _] & _ & Hag')]]; try done.
  - by destruct (Hnone t'); apply Hm.
  - by destruct (Hnone m'); apply Hm.
  - by destruct (Hnone' t); apply Hm.
  - by destruct Hwhy as [-> | ->], Hwhy' as [-> | ->].
  - destruct (Hdis (t_kind m')). by eapply tombstones_agree_perm.
  - by destruct (Hnone' m); apply Hm.
  - destruct (Hdis' (t_kind m)). by eapply tombstones_agree_perm.
  - destruct Hag as [Hall _]. apply Hm in Hmark'. destruct (Hall m' Hmark') as [_ Hkind]. cbn. by rewrite Hkind.
Qed.

(** The pages with their items in another order. *)
Definition reordered {A} (p q : page A) : Prop :=
  items p ≡ₚ items q ∧ complete p = complete q ∧ p_revision p = p_revision q.

(** What the order must not change: the keys, the actions, completeness and the cursor. *)
Definition verdict (d : ArtifactGcDecision) : artifact_key * ArtifactGcAction := (decision_key d, d_action d).

Definition plan_summary (p : ArtifactGcPlan) : list (artifact_key * ArtifactGcAction) * bool * option string :=
  (verdict <$> decisions p, plan_complete p, plan_next_cursor p).

Lemma decision_verdict item action why tombstone :
  entry_ok item → (∀ t, tombstone = Some t → tomb_key t = entry_key item) →
  check_action action why tombstone = Ok tt →
  verdict <$> _decision item action why tombstone = Ok (entry_key item, action).
Proof. intros. by rewrite decision_ok. Qed.

(** The verdict in terms of the references' and the tombstones' actions. *)
Lemma judge_verdict g item :
  entry_ok item → Forall (λ t, 1 <= t_revision t) (selected_tombstones g) →
  verdict <$> judge g item =
    if bool_decide (e_artifact_id item ∈ conflicts g) || reference_scan_incomplete g
       || tombstone_scan_incomplete g then Ok (entry_key item, DEFER)
    else match fst <$> judge_references g item, tombstone_action (_tombstone_for item (selected_tombstones g)) with
    | Some action, _ | None, Some action => Ok (entry_key item, action)
    | None, None => verdict <$> judge_age g item
    end.
Proof.
  intros Hok Hrev. unfold judge. destruct (bool_decide _); [by apply decision_verdict|].
  destruct (reference_scan_incomplete g); [by apply decision_verdict|].
  destruct (tombstone_scan_incomplete g); [by apply decision_verdict|]. cbn [orb].
  destruct (judge_references g item) as [[action why]|] eqn:Ej.
  { apply judge_references_action in Ej as [_ Hca]. by apply decision_verdict. }
  destruct (tombstone_for_spec item (selected_tombstones g) Hrev)
    as [[-> _]|[(why & -> & Hwhy & _)|(m & -> & _ & Hkey & _)]].
  - done.
  - by destruct Hwhy as [-> | ->]; apply decision_verdict.
  - destruct (t_kind m) eqn:Ekind; cbn [marker_reason];
      (apply decision_verdict; [done|by intros ? [= <-]|by cbn; rewrite Ekind]).
Qed.

Section Reorder.
  Context (policy : ArtifactGcPolicy) (candidates : page ArtifactCacheEntry).
  Context (references references' : page ArtifactReference).
  Context (tombstones tombstones' : page ArtifactTombstone) (now : datetime).
  Hypothesis Hcandidates : page_ok entry_ok candidates.
  Hypothesis Hreferences : page_ok (λ _, True) references.
  Hypothesis Htombstones : page_ok (λ t, 1 <= t_revision t) tombstones.
  Hypothesis Hrefs : reordered references references'.
  Hypothesis Htombs : reordered tombstones tombstones'.

  Local Abbreviation pass := (pass_of policy candidates references tombstones now).
  Local Abbreviation pass' := (pass_of policy candidates references' tombstones' now).

Lemma zlen_perm {A} (l k : list A) : l ≡ₚ k → zlen l = zlen k.
  Proof. unfold zlen. by intros ->. Qed.

Lemma judge_verdict_perm item : entry_ok item → verdict <$> judge pass item = verdict <$> judge pass' item.
  Proof using Htombstones Hrefs Htombs.
    intros Hok. destruct Hrefs as (Hri & Hrc & _), Htombs as (Hti & Htc & _).
    assert (Forall (λ t, 1 <= t_revision t) (items tombstones')) as Ht' by (rewrite <-Hti; apply Htombstones).
    rewrite !judge_verdict by (done || by apply Forall_take; first [done|apply Htombstones]).
    cbn [conflicts pass_of reference_scan_incomplete tombstone_scan_incomplete].
    rewrite <-Hrc, <-Htc, <-(zlen_perm _ _ Hri), <-(zlen_perm _ _ Hti).
    destruct (bool_decide _); [done|]. cbn [orb].
    destruct (negb (complete references) || _) eqn:Hr; [done|]. cbn [orb].
    destruct (negb (complete tombstones) || _) eqn:Ht; [done|].
    apply scan_complete in Hr as (_ & Hr & Hre). apply scan_complete in Ht as (_ & Ht & Hte).
    rewrite (zlen_perm _ _ Hri) in Hr. rewrite (zlen_perm _ _ Hti) in Ht.
    rewrite (judge_references_perm pass pass'), (tombstone_action_perm item _ (selected_tombstones pass')); [done| | | |done].
    - cbn. rewrite Hte, Hti. unfold ztake, zlen in *. by rewrite take_ge by lia.
    - cbn. rewrite Hte. apply Htombstones.
    - cbn. rewrite Hre, Hri. unfold ztake, zlen in *. by rewrite take_ge by lia.
  Qed.

Lemma judge_all_perm seen l :
    Forall entry_ok l →
    fmap (M := list) verdict <$> judge_all pass seen l = fmap (M := list) verdict <$> judge_all pass' seen l.
  Proof using Htombstones Hrefs Htombs.
    intros Hok. revert seen. induction Hok as [|x l Hx _ IH]; intros seen; cbn [judge_all]; [done|].
    destruct (mem _ seen); [apply IH|]. pose proof (judge_verdict_perm x Hx) as Hv.
    destruct (judge pass x) as [d|e], (judge pass' x) as [d'|e']; cbn [fmap res_fmap] in Hv; try done.
    2: { assert (e = e') as -> by congruence. done. }
    specialize (IH (entry_key x :: seen)). cbn.
    destruct (judge_all pass _ l) as [ds|e], (judge_all pass' _ l) as [ds'|e']; cbn [fmap res_fmap mbind res_bind] in IH |- *; try done.
    assert (verdict d = verdict d') as Hd by congruence. cbn [list_fmap]. rewrite Hd. injection IH as IH.
    do 2 f_equal. exact IH.
  Qed.
End Reorder.

Lemma Plan_init_summary ds ds' c r t done cursor nc nr nt :
  verdict <$> ds = verdict <$> ds' →
  plan_summary <$> Plan_init ds c r t done cursor nc nr nt
  = plan_summary <$> Plan_init ds' c r t done cursor nc nr nt.
Proof.
  intros H. unfold Plan_init.
  destruct (_revision (PInt c) _) as [?|?]; cbn [mbind res_bind]; [|easy].
  destruct (_revision (PInt r) _) as [?|?]; cbn [mbind res_bind]; [|easy].
  destruct (_revision (PInt t) _) as [?|?]; cbn [mbind res_bind]; [|easy].
  destruct (optional _ cursor) as [?|?]; cbn [mbind res_bind]; [|easy].
  do 3 (destruct (require _ _ _); cbn [mbind res_bind]; [|easy]).
  cbn [fmap res_fmap]. unfold plan_summary. cbn [decisions]. by rewrite H.
Qed.

Lemma ztake_perm {A} (l k : list A) n : l ≡ₚ k → zlen (ztake n l) = zlen (ztake n k).
Proof. intros H. unfold zlen, ztake. by rewrite !length_take, H. Qed.

(** The order of the evidence does not matter: with the items of the reference and of the
    tombstone page in another order, the planner raises the same exception or decides the same
    actions for the same keys, with the same completeness and the same cursor. *)
Theorem gc_order_free policy candidates references references' tombstones tombstones' now clock :
  page_ok entry_ok candidates → page_ok (λ _, True) references →
  page_ok (λ t, 1 <= t_revision t) tombstones →
  reordered references references' → reordered tombstones tombstones' →
  plan_summary <$> plan_artifact_gc (Inst candidates) (Some (Inst references)) (Some (Inst tombstones))
      (Some (Inst now)) (Some (Inst policy)) clock
  = plan_summary <$> plan_artifact_gc (Inst candidates) (Some (Inst references')) (Some (Inst tombstones'))
      (Some (Inst now)) (Some (Inst policy)) clock.
Proof.
  intros Hc Hr Ht Hrefs Htombs. rewrite !plan_arguments. unfold build_plan.
  pose proof (judge_all_perm policy candidates references references' tombstones tombstones' now
    Ht Hrefs Htombs [] _ (selected_ok policy candidates Hc)) as Hp.
  destruct Hrefs as (Hri & Hrc & Hrr), Htombs as (Hti & Htc & Htr).
  rewrite <-Hrr, <-Htr, <-Hrc, <-Htc, <-(zlen_perm _ _ Hri), <-(zlen_perm _ _ Hti).
  rewrite (ztake_perm _ _ _ Hri), (ztake_perm _ _ _ Hti).
  destruct (judge_all _ [] _) as [ds|e], (judge_all (pass_of policy candidates references' _ _) [] _) as [ds'|e'];
    cbn [fmap res_fmap mbind res_bind] in Hp |- *; try done; [|by assert (e = e') as -> by congruence].
  injection Hp as Hp. by apply Plan_init_summary.
Qed.

(** ** Examples *)

Module GcSample.

Definition zeros : string := "0000000000000000000000000000000000000000000000000000000000000000".
Definition day (n : Z) : datetime := MkDate (n * 86400000000) 0.
Definition entry (id : string) (retain : option datetime) : ArtifactCacheEntry :=
  MkEntry id zeros "v1" 10 (day 1) retain 1.
Definition owner (id : string) (kind : ArtifactReferenceKind) (st : ArtifactReferenceState) : ArtifactReference :=
  MkReference id kind st "a" zeros "v1" 1 None.
Definition candidates : page ArtifactCacheEntry := MkPage [entry "b" None; entry "a" None] true None 1.
Definition references : page ArtifactReference :=
  MkPage [owner "j" JOB LIVE; owner "d" DEPLOYMENT LIVE] true None 1.
Definition references' : page ArtifactReference :=
  MkPage [owner "d" DEPLOYMENT LIVE; owner "j" JOB LIVE] true None 1.
Definition tombstones : page ArtifactTombstone := MkPage [] true None 1.
Definition mark : ArtifactTombstone :=
  MkTombstone "b" zeros "v1" DELETION 1 (day 9) "garbage collection eligibility decision".
Definition plan : ArtifactGcPlan :=
  MkPlan [MkDecision "a" zeros "v1" RETAIN LIVE_JOB_REFERENCE None;
          MkDecision "b" zeros "v1" DELETE ELIGIBLE (Some mark)] 1 1 1 true None 2 2 0.

Lemma plan_is :
  plan_artifact_gc (Inst candidates) (Some (Inst references)) (Some (Inst tombstones)) (Some (Inst (day 9)))
    (Some (Inst _DEFAULT_POLICY)) (day 9) = Ok plan.
Proof. vm_compute. reflexivity. Qed.

Lemma candidates_ok : page_ok entry_ok candidates.
Proof. split; [by repeat constructor|]. by split; [vm_compute|]. Qed.

Lemma references_ok : page_ok (λ _, True) references.
Proof. split; [by repeat constructor|]. by split; [vm_compute|]. Qed.

Lemma tombstones_ok : page_ok (λ t, 1 <= t_revision t) tombstones.
Proof. split; [by constructor|]. by split; [vm_compute|]. Qed.

End GcSample.

Lemma gc_plan_covers_witness :
  decision_key <$> decisions GcSample.plan
  = fromkeys (entry_key <$> selected_candidates _DEFAULT_POLICY GcSample.candidates).
Proof.
  pose proof (gc_plan_covers _DEFAULT_POLICY GcSample.candidates GcSample.references GcSample.tombstones
    (GcSample.day 9) (GcSample.day 9) GcSample.candidates_ok GcSample.references_ok GcSample.tombstones_ok) as H.
  rewrite GcSample.plan_is in H. exact H.
Defined.

Lemma gc_deletes_iff_witness :
  Forall2 (λ item d, decision_key d = entry_key item
      ∧ (d_action d = DELETE ↔ deletable (pass_of _DEFAULT_POLICY GcSample.candidates GcSample.references
           GcSample.tombstones (GcSample.day 9)) item))
    [GcSample.entry "a" None; GcSample.entry "b" None] (decisions GcSample.plan).
Proof.
  exact (gc_deletes_iff _DEFAULT_POLICY GcSample.candidates GcSample.references GcSample.tombstones
    (GcSample.day 9) (GcSample.day 9) GcSample.plan GcSample.candidates_ok GcSample.references_ok
    GcSample.tombstones_ok GcSample.plan_is).
Defined.

Lemma gc_delete_safe_witness :
  complete GcSample.references = true
  ∧ ∀ r, r ∈ items GcSample.references → r_artifact_id r = "b" → r_state r = RELEASED.
Proof.
  destruct (gc_delete_safe _DEFAULT_POLICY GcSample.candidates GcSample.references GcSample.tombstones
    (GcSample.day 9) (GcSample.day 9) GcSample.plan
    (MkDecision "b" GcSample.zeros "v1" DELETE ELIGIBLE (Some GcSample.mark))
    GcSample.candidates_ok GcSample.references_ok GcSample.tombstones_ok GcSample.plan_is
    ltac:(by right; left) eq_refl) as (H & _ & Hr & _).
  split; [exact H|exact Hr].
Defined.

Lemma gc_order_free_witness :
  plan_summary <$> plan_artifact_gc (Inst GcSample.candidates) (Some (Inst GcSample.references'))
    (Some (Inst GcSample.tombstones)) (Some (Inst (GcSample.day 9))) (Some (Inst _DEFAULT_POLICY)) (GcSample.day 9)
  = Ok (plan_summary GcSample.plan).
Proof.
  rewrite <-(gc_order_free _DEFAULT_POLICY GcSample.candidates GcSample.references GcSample.references'
    GcSample.tombstones GcSample.tombstones (GcSample.day 9) (GcSample.day 9) GcSample.candidates_ok
    GcSample.references_ok GcSample.tombstones_ok
    ltac:(split; [apply Permutation_swap|done]) ltac:(by split)).
  rewrite GcSample.plan_is. reflexivity.
Defined.

(** A page that does not fit the policy keeps its own cursor: the entries cut off are neither
    decided in this pass nor after the cursor. *)
Example gc_cursor_skips_tail :
  (λ p, (decision_key <$> decisions p, plan_next_cursor p)) <$>
    plan_artifact_gc (Inst (MkPage [GcSample.entry "a" None; GcSample.entry "b" None] false (Some "c") 1))
      None None (Some (Inst (GcSample.day 9))) (Some (Inst (MkPolicy 1 1 1 0))) (GcSample.day 9)
  = Ok ([("a", GcSample.zeros, "v1")], Some "c").
Proof. vm_compute. reflexivity. Qed.

(** A key that is listed twice is decided from its first record. *)
Example gc_first_record_decides :
  (λ p, d_action <$> decisions p) <$>
    plan_artifact_gc (Inst (MkPage [GcSample.entry "a" None; GcSample.entry "a" (Some (GcSample.day 99))] true None 1))
      None None (Some (Inst (GcSample.day 9))) None (GcSample.day 9) = Ok [DELETE].
Proof. vm_compute. reflexivity. Qed.
