(* ===== verification/InferenceMembership.v ===== *)
(** Membership of the inference pool: [domain/inference_membership.py].

    A verified snapshot of worker advertisements is reconciled with the roster in force and
    the durable high-water record; the result is a proposal: a new roster, the record to
    persist first, and what was added, activated, drained or expired.  The theorems show that
    proposals never roll authority back, that a worker is active only with fresh evidence of
    its exact incarnation and after a probation, that every old member is accounted for, and
    that reconciling again changes nothing.

    A snapshot is a verified one: parsing and verifying the signed envelope is not modelled,
    and an origin is the canonical text its constructor stores.  An aware date is an instant
    in microseconds.  A test on the exact type takes a [dyn] argument. *)
From S2P Require Import Prelude.

Local Open Scope Z_scope.

Definition MAX_ADVERTISEMENTS : Z := 4096.
Definition MAX_ROSTER_WORKERS : Z := 256.
Definition _MAX_GENERATION : Z := Z.shiftl 1 63 - 1.
Definition _CONSIDERED_STATES : list string := ["probation"; "active"; "unhealthy"].

Definition _integer (value : pyval) (low high : Z) (name : string) : res Z :=
  check_int low high ValueError (name +:+ " is outside its bounded integer range") value.

(** [type(value) is str]: a member of an enumeration is refused. *)
Definition _identity (value : pyval) : res string :=
  match value with
  | PStr s => if is_identity s then Ok s
              else throw ValueError "membership identity must be a bounded opaque ASCII identifier"
  | _ => throw ValueError "membership identity must be a bounded opaque ASCII identifier"
  end.

Definition _aware (value : dyn Z) (name : string) : res Z :=
  inst_of ValueError (name +:+ " must be a timezone-aware datetime") value.

(** [type(value) in (tuple, list)] and the bound. *)
Definition _bounded_tuple {A} (value : dyn (list A)) (maximum : Z) (name : string) : res (list A) :=
  l ← inst_of ValueError (name +:+ " exceeds its bounded sequence limit") value;
  _ ← require (zlen l <=? maximum) ValueError (name +:+ " exceeds its bounded sequence limit");
  Ok l.

(** ** Data *)

Record WorkerAdvertisement := MkWorker {
  w_worker_id : string;
  w_origin : string;
  w_member_generation : Z;
  w_lifecycle_state : string;
  w_models : list string;
  w_advertised_capacity : Z
}.
#[export] Instance WorkerAdvertisement_eq_dec : EqDecision WorkerAdvertisement.
Proof. solve_decision. Defined.

Definition member_key : Type := string * string * Z.
Definition _key (w : WorkerAdvertisement) : member_key := (w_worker_id w, w_origin w, w_member_generation w).

Record MembershipSnapshot := MkSnapshot {
  s_cluster_id : string;
  s_issuer_id : string;
  s_generation : Z;
  s_issued_at : Z;
  s_expires_at : Z;
  s_workers : list WorkerAdvertisement;
  s_digest : string
}.

Record MembershipHighWater := MkWater {
  h_cluster_id : string;
  h_issuer_id : string;
  h_generation : Z;
  h_digest : string
}.
#[export] Instance MembershipHighWater_eq_dec : EqDecision MembershipHighWater.
Proof. solve_decision. Defined.

Definition HighWater_init (cluster issuer generation digest : pyval) : res MembershipHighWater :=
  cluster' ← _identity cluster;
  issuer' ← _identity issuer;
  generation' ← _integer generation 1 _MAX_GENERATION "high-water generation";
  match digest with
  | PStr s => if is_digest s then Ok (MkWater cluster' issuer' generation' s)
              else throw ValueError "high-water digest must be a SHA-256 hex digest"
  | _ => throw ValueError "high-water digest must be a SHA-256 hex digest"
  end.

Record CapabilityEvidence := MkEvidence {
  c_worker_id : string;
  c_origin : string;
  c_member_generation : Z;
  c_checked_at : Z;
  c_expires_at : Z
}.
#[export] Instance CapabilityEvidence_eq_dec : EqDecision CapabilityEvidence.
Proof. solve_decision. Defined.

Definition evidence_key (e : CapabilityEvidence) : member_key := (c_worker_id e, c_origin e, c_member_generation e).

Record RosterMember := MkMember {
  advertisement : WorkerAdvertisement;
  lifecycle_state : string;
  evidence : option CapabilityEvidence
}.
#[export] Instance RosterMember_eq_dec : EqDecision RosterMember.
Proof. solve_decision. Defined.

Definition RosterMember_init (adv : dyn WorkerAdvertisement) (state : pyval)
    (proof : option (dyn CapabilityEvidence)) : res RosterMember :=
  adv' ← inst_of ValueError "invalid roster advertisement" adv;
  state' ← match state with
           | PStr s => if mem s ["probation"; "active"; "unhealthy"; "expired"] then Ok s
                       else throw ValueError "invalid admitted lifecycle state"
           | _ => throw ValueError "invalid admitted lifecycle state"
           end;
  proof' ← match proof with
           | None => Ok None
           | Some Foreign => throw ValueError "capability evidence does not bind this member"
           | Some (Inst e) =>
               if bool_decide (evidence_key e = _key adv') then Ok (Some e)
               else throw ValueError "capability evidence does not bind this member"
           end;
  _ ← require (negb (String.eqb state' "active" && negb (bool_decide (is_Some proof')))) ValueError
        "active membership requires capability evidence";
  Ok (MkMember adv' state' proof').

(** The constructor on values of the declared types. *)
Definition roster_member (adv : WorkerAdvertisement) (state : string) (proof : option CapabilityEvidence)
  : res RosterMember :=
  RosterMember_init (Inst adv) (PStr state) (Inst <$> proof).

Record MembershipRoster := MkRoster {
  snapshot : MembershipSnapshot;
  members : list RosterMember;
  generation : Z
}.

(** [{worker.worker_id: worker for worker in workers}] *)
Definition workers_by_id (l : list WorkerAdvertisement) : gmap string WorkerAdvertisement :=
  dict_by w_worker_id l.

(** The loop over the members. *)
Fixpoint check_members (advertisements : gmap string WorkerAdvertisement) (seen : list string)
    (l : list (dyn RosterMember)) : res (list RosterMember) :=
  match l with
  | [] => Ok []
  | Foreign :: _ => throw ValueError "invalid roster member"
  | Inst m :: rest =>
      let worker := advertisement m in
      _ ← require (negb (mem (w_worker_id worker) seen
                         || negb (bool_decide (advertisements !! w_worker_id worker = Some worker))))
            ValueError "roster member is duplicated or absent from verified snapshot";
      _ ← require (mem (w_lifecycle_state worker) _CONSIDERED_STATES) ValueError
            "roster cannot admit a revoked, draining, or expired advertisement";
      rest' ← check_members advertisements (w_worker_id worker :: seen) rest;
      Ok (m :: rest')
  end.

Definition Roster_init (snap : dyn MembershipSnapshot) (ms : dyn (list (dyn RosterMember))) (gen : pyval)
  : res MembershipRoster :=
  snap' ← inst_of ValueError "roster requires a verified snapshot" snap;
  gen' ← _integer gen 1 _MAX_GENERATION "roster generation";
  l ← _bounded_tuple ms MAX_ROSTER_WORKERS "roster members";
  ms' ← check_members (workers_by_id (s_workers snap')) [] l;
  Ok (MkRoster snap' ms' gen').

Definition roster_of (snap : MembershipSnapshot) (ms : list RosterMember) (gen : Z) : res MembershipRoster :=
  Roster_init (Inst snap) (Inst (Inst <$> ms)) (PInt gen).

Record MembershipReconciliation := MkReconciliation {
  roster : option MembershipRoster;
  high_water : option MembershipHighWater;
  additions : list WorkerAdvertisement;
  activations : list WorkerAdvertisement;
  drains : list WorkerAdvertisement;
  expirations : list WorkerAdvertisement;
  omitted_worker_count : Z
}.

(** The record names the snapshot exactly. *)
Definition binds (s : MembershipSnapshot) (w : MembershipHighWater) : bool :=
  String.eqb (s_cluster_id s) (h_cluster_id w) && String.eqb (s_issuer_id s) (h_issuer_id w)
  && (s_generation s =? h_generation w) && String.eqb (s_digest s) (h_digest w).

(** The constructor on values of the declared types. *)
Definition Reconciliation_init (ros : option MembershipRoster) (water : option MembershipHighWater)
    (added activated drained expired : list WorkerAdvertisement) (omitted : Z)
  : res MembershipReconciliation :=
  _ ← require (match ros with
               | Some r => match water with Some w => binds (snapshot r) w | None => false end
               | None => true
               end) ValueError "reconciliation roster must bind its exact snapshot high-water";
  added' ← _bounded_tuple (Inst added) MAX_ROSTER_WORKERS "additions";
  activated' ← _bounded_tuple (Inst activated) MAX_ROSTER_WORKERS "activations";
  drained' ← _bounded_tuple (Inst drained) MAX_ROSTER_WORKERS "drains";
  expired' ← _bounded_tuple (Inst expired) MAX_ROSTER_WORKERS "expirations";
  omitted' ← _integer (PInt omitted) 0 MAX_ADVERTISEMENTS "omitted worker count";
  Ok (MkReconciliation ros water added' activated' drained' expired' omitted').

Definition roster_generation (r : MembershipReconciliation) : Z :=
  match roster r with Some ros => generation ros | None => 0 end.

(** ** The high-water record *)

Definition _authority (cluster issuer configured_cluster configured_issuer : string) : res unit :=
  require (String.eqb cluster configured_cluster && String.eqb issuer configured_issuer) ValueError
    "membership authority does not match configured cluster and issuer".

Definition _water (s : MembershipSnapshot) : res MembershipHighWater :=
  HighWater_init (PStr (s_cluster_id s)) (PStr (s_issuer_id s)) (PInt (s_generation s)) (PStr (s_digest s)).

(** The guards against the previous record. *)
Definition check_water (s : MembershipSnapshot) (cluster issuer : string)
    (previous : option (dyn MembershipHighWater)) : res unit :=
  match previous with
  | None => Ok tt
  | Some p =>
      p' ← inst_of ValueError "invalid high-water record" p;
      _ ← _authority (h_cluster_id p') (h_issuer_id p') cluster issuer;
      _ ← require (negb (s_generation s <? h_generation p')) ValueError "snapshot generation rollback";
      require (negb ((s_generation s =? h_generation p') && negb (String.eqb (s_digest s) (h_digest p'))))
        ValueError "same-generation snapshot digest conflict"
  end.

Definition validate_high_water (snap : dyn MembershipSnapshot) (previous : option (dyn MembershipHighWater))
    (cluster issuer : pyval) (clock : dyn Z) : res MembershipHighWater :=
  cluster' ← _identity cluster;
  issuer' ← _identity issuer;
  now ← _aware clock "clock";
  s ← inst_of ValueError "a verified membership snapshot is required" snap;
  _ ← _authority (s_cluster_id s) (s_issuer_id s) cluster' issuer';
  _ ← require ((s_issued_at s <=? now) && (now <? s_expires_at s)) ValueError
        "snapshot is expired or issued in the future";
  _ ← check_water s cluster' issuer' previous;
  _water s.

(** ** Reconciliation *)

Definition worker_le (a b : WorkerAdvertisement) : bool := String.leb (w_worker_id a) (w_worker_id b).

Definition considered (w : WorkerAdvertisement) : bool := mem (w_lifecycle_state w) _CONSIDERED_STATES.

(** Considered workers by ascending identity. *)
Definition eligible_workers (s : MembershipSnapshot) : list WorkerAdvertisement :=
  sort_by worker_le (List.filter considered (s_workers s)).

Definition member_id (m : RosterMember) : string := w_worker_id (advertisement m).

(** [{member.advertisement.worker_id: member for member in previous.members}] *)
Definition members_by_id (l : list RosterMember) : gmap string RosterMember := dict_by member_id l.

(** The loop over the capability evidence. *)
Fixpoint index_proofs (proofs : gmap member_key CapabilityEvidence) (l : list (dyn CapabilityEvidence))
  : res (gmap member_key CapabilityEvidence) :=
  match l with
  | [] => Ok proofs
  | Foreign :: _ => throw ValueError "invalid or duplicate capability evidence"
  | Inst e :: rest =>
      _ ← require (negb (bool_decide (is_Some (proofs !! evidence_key e)))) ValueError
            "invalid or duplicate capability evidence";
      index_proofs (<[evidence_key e := e]> proofs) rest
  end.

(** The worker's predecessor is the same incarnation, still admitted. *)
Definition is_same_incarnation (now : Z) (previous : option MembershipRoster) (old : option RosterMember)
    (worker : WorkerAdvertisement) : bool :=
  match old, previous with
  | Some o, Some p =>
      bool_decide (_key (advertisement o) = _key worker) && negb (String.eqb (lifecycle_state o) "expired")
      && (now <? s_expires_at (snapshot p))
  | _, _ => false
  end.

(** The state and the proof of one selected worker, and whether it is the same incarnation. *)
Definition place (now : Z) (previous : option MembershipRoster) (old : option RosterMember)
    (proofs : gmap member_key CapabilityEvidence) (worker : WorkerAdvertisement)
  : string * option CapabilityEvidence * bool :=
  let same_incarnation := is_same_incarnation now previous old worker in
  let proof := match proofs !! _key worker with
               | Some p => Some p
               | None => if same_incarnation then old ≫= evidence else None
               end in
  let state := if String.eqb (w_lifecycle_state worker) "unhealthy" then "unhealthy" else "probation" in
  if same_incarnation
     && match proof with Some p => (c_checked_at p <=? now) && (now <? c_expires_at p) | None => false end
     && negb (String.eqb state "unhealthy")
  then ("active", proof, same_incarnation) else (state, None, same_incarnation).

(** The loop over the selected workers: members, additions and activations. *)
Fixpoint place_all (now : Z) (previous : option MembershipRoster) (old_members : gmap string RosterMember)
    (proofs : gmap member_key CapabilityEvidence) (l : list WorkerAdvertisement)
  : res (list RosterMember * list WorkerAdvertisement * list WorkerAdvertisement) :=
  match l with
  | [] => Ok ([], [], [])
  | worker :: rest =>
      let old := old_members !! w_worker_id worker in
      let '(state, proof, same_incarnation) := place now previous old proofs worker in
      m ← roster_member worker state proof;
      '(ms, added, activated) ← place_all now previous old_members proofs rest;
      let fresh := String.eqb state "active"
                   && match old with Some o => negb (String.eqb (lifecycle_state o) "active") | None => true end in
      Ok (m :: ms, (if same_incarnation then added else worker :: added),
          (if fresh then worker :: activated else activated))
  end.

(** A generation advances when the members change. *)
Definition next_generation (ms : list RosterMember) (previous : MembershipRoster) : Z :=
  generation previous + (if bool_decide (ms = members previous) then 0 else 1).

(** [max(0, len(eligible) - len(members))] *)
Definition omitted (eligible : list WorkerAdvertisement) (ms : list RosterMember) : Z :=
  Z.max 0 (zlen eligible - zlen ms).

(** The outage path with an expired snapshot: every member expires. *)
Definition expire_all (snap : MembershipSnapshot) (water : option MembershipHighWater)
    (previous : MembershipRoster) : res MembershipReconciliation :=
  ms ← mapM_res (λ m, roster_member (advertisement m) "expired" None) (members previous);
  ros ← roster_of snap ms (next_generation ms previous);
  Reconciliation_init (Some ros) water [] [] []
    (advertisement <$> List.filter (λ m, negb (String.eqb (lifecycle_state m) "expired")) (members previous))
    (omitted (eligible_workers snap) ms).

(** The workers to place: on an outage only the incarnations the roster holds. *)
Definition selectable (outage : bool) (old_members : gmap string RosterMember)
    (eligible : list WorkerAdvertisement) : list WorkerAdvertisement :=
  if outage then
    List.filter (λ w, match old_members !! w_worker_id w with
                      | Some o => bool_decide (_key w = _key (advertisement o))
                      | None => false
                      end) eligible
  else eligible.

(** The roster of a snapshot that is in force. *)
Definition place_snapshot (now max_workers : Z) (outage : bool) (snap : MembershipSnapshot)
    (water : option MembershipHighWater) (previous : option MembershipRoster)
    (capability_evidence : dyn (list (dyn CapabilityEvidence))) : res MembershipReconciliation :=
  let previous_members := match previous with Some p => members p | None => [] end in
  let old_members := members_by_id previous_members in
  let eligible := eligible_workers snap in
  l ← _bounded_tuple capability_evidence MAX_ROSTER_WORKERS "capability evidence";
  proofs ← index_proofs ∅ l;
  let selected := take (Z.to_nat max_workers) (selectable outage old_members eligible) in
  '(ms, added, activated) ← place_all now previous old_members proofs selected;
  let selected_keys := (_key ∘ advertisement) <$> ms in
  let drained := advertisement <$> List.filter (λ m,
      negb (mem (_key (advertisement m)) selected_keys) && negb (String.eqb (lifecycle_state m) "expired"))
      (dict_values member_id previous_members) in
  let gen := match previous with Some p => next_generation ms p | None => 1 end in
  ros ← roster_of snap ms gen;
  Reconciliation_init (Some ros) water added activated drained [] (omitted eligible ms).

(** The body once the snapshot and the record are known; without a previous roster
    [previous.members] raises. *)
Definition apply_snapshot (now max_workers : Z) (outage : bool) (snap : MembershipSnapshot)
    (water : option MembershipHighWater) (previous : option MembershipRoster)
    (capability_evidence : dyn (list (dyn CapabilityEvidence))) : res MembershipReconciliation :=
  if s_expires_at snap <=? now then
    match previous with
    | Some p => expire_all snap water p
    | None => throw AttributeError "'NoneType' object has no attribute 'members'"
    end
  else place_snapshot now max_workers outage snap water previous capability_evidence.

(** The worker replaces its predecessor: the generation must advance. *)
Definition replaces (old_ads : gmap string WorkerAdvertisement) (worker : WorkerAdvertisement) : bool :=
  match old_ads !! w_worker_id worker with
  | None => true
  | Some old =>
      negb ((w_member_generation worker <? w_member_generation old)
            || (negb (String.eqb (w_origin worker) (w_origin old))
                && (w_member_generation worker <=? w_member_generation old)))
  end.

(** The previous roster against the retained record; [Some] is the early return. *)
Definition check_previous (now : Z) (cluster issuer : string) (outage : bool)
    (previous : dyn MembershipRoster) (water : option MembershipHighWater)
  : res (MembershipRoster * option MembershipReconciliation) :=
  match previous, water with
  | Inst p, Some w =>
      _ ← _authority (s_cluster_id (snapshot p)) (s_issuer_id (snapshot p)) cluster issuer;
      if outage && negb (binds (snapshot p) w) then
        r ← Reconciliation_init None (Some w) [] [] (advertisement <$> members p) [] 0;
        Ok (p, Some r)
      else
      _ ← require (negb ((h_generation w <? s_generation (snapshot p))
                         || ((s_generation (snapshot p) =? h_generation w)
                             && negb (String.eqb (s_digest (snapshot p)) (h_digest w))))) ValueError
            "previous roster does not match retained high-water";
      _ ← require (s_issued_at (snapshot p) <=? now) ValueError
            "previous snapshot is issued in the future";
      Ok (p, None)
  | _, _ => throw ValueError "previous roster requires its retained high-water record"
  end.

Definition reconcile_membership (candidate : option (dyn MembershipSnapshot)) (cluster_id issuer_id : pyval)
    (clock : dyn Z) (previous : option (dyn MembershipRoster)) (high_water : option (dyn MembershipHighWater))
    (max_workers : pyval) (capability_evidence : dyn (list (dyn CapabilityEvidence)))
  : res MembershipReconciliation :=
  cluster ← _identity cluster_id;
  issuer ← _identity issuer_id;
  limit ← _integer max_workers 1 MAX_ROSTER_WORKERS "roster worker limit";
  now ← _aware clock "clock";
  water ← match high_water with
          | None => Ok None
          | Some w =>
              w' ← inst_of ValueError "invalid high-water record" w;
              _ ← _authority (h_cluster_id w') (h_issuer_id w') cluster issuer;
              Ok (Some w')
          end;
  prev ← match previous with
         | None => Ok None
         | Some p => Some <$> check_previous now cluster issuer (negb (bool_decide (is_Some candidate))) p water
         end;
  match prev with
  | Some (_, Some early) => Ok early
  | _ =>
      let prev_roster := fst <$> prev in
      match candidate with
      | Some c =>
          next_water ← validate_high_water c (Inst <$> water) (PStr cluster) (PStr issuer) (Inst now);
          snap ← inst_of ValueError "a verified membership snapshot is required" c;
          _ ← require (match prev_roster with
                       | Some p => forallb (replaces (workers_by_id (s_workers (snapshot p)))) (s_workers snap)
                       | None => true
                       end) ValueError
                "member generation must advance for endpoint replacement and cannot roll back";
          apply_snapshot now limit false snap (Some next_water) prev_roster capability_evidence
      | None =>
          match prev_roster with
          | Some p => apply_snapshot now limit true (snapshot p) water prev_roster capability_evidence
          | None => Reconciliation_init None water [] [] [] [] 0
          end
      end
  end.

(** ** Well-formed values *)

Definition snapshot_ok (s : MembershipSnapshot) : Prop :=
  is_identity (s_cluster_id s) = true ∧ is_identity (s_issuer_id s) = true
  ∧ 1 <= s_generation s <= _MAX_GENERATION ∧ is_digest (s_digest s) = true
  ∧ s_issued_at s < s_expires_at s ∧ NoDup (w_worker_id <$> s_workers s)
  ∧ zlen (s_workers s) <= MAX_ADVERTISEMENTS.

(** Constructed values: the constructor accepts the fields of the value. *)
Definition member_ok (m : RosterMember) : Prop :=
  roster_member (advertisement m) (lifecycle_state m) (evidence m) = Ok m.

Definition roster_ok (r : MembershipRoster) : Prop :=
  snapshot_ok (snapshot r) ∧ Forall member_ok (members r)
  ∧ roster_of (snapshot r) (members r) (generation r) = Ok r.

Lemma identity_ok s : is_identity s = true → _identity (PStr s) = Ok s.
Proof. unfold _identity. by intros ->. Qed.

Lemma identity_inv v s : _identity v = Ok s → v = PStr s ∧ is_identity s = true.
Proof.
  unfold _identity. destruct v as [| | | |t| | | | | | |]; try done.
  destruct (is_identity t) eqn:E; [|done]. by intros [= <-].
Qed.

Lemma water_ok s :
  snapshot_ok s → _water s = Ok (MkWater (s_cluster_id s) (s_issuer_id s) (s_generation s) (s_digest s)).
Proof.
  intros (Hc & Hi & Hg & Hd & _). unfold _water, HighWater_init, _integer.
  rewrite !identity_ok by done. cbn [mbind res_bind]. rewrite check_int_PInt by done. cbn [mbind res_bind].
  by rewrite Hd.
Qed.

Lemma binds_spec s w :
  binds s w = true ↔ w = MkWater (s_cluster_id s) (s_issuer_id s) (s_generation s) (s_digest s).
Proof.
  unfold binds. rewrite !andb_true_iff, !String.eqb_eq, Z.eqb_eq. destruct w; cbn.
  split; [by intros [[[-> ->] ->] ->]|by intros [= -> -> -> ->]].
Qed.

(** A member of the roster: a known state, evidence of the worker's own key, and evidence
    when it is active. *)
Lemma roster_member_ok w state proof m :
  roster_member w state proof = Ok m ↔
  m = MkMember w state proof ∧ state ∈ ["probation"; "active"; "unhealthy"; "expired"]
  ∧ (∀ e, proof = Some e → evidence_key e = _key w) ∧ (state = "active" → is_Some proof).
Proof.
  unfold roster_member, RosterMember_init. cbn [inst_of mbind res_bind].
  destruct (mem state _) eqn:Hs; cbn [mbind res_bind]; to_prop.
  2: { split; [done|]. by intros (_ & ? & _). }
  assert (match Inst <$> proof with
    | None => Ok None
    | Some (Inst e) => if bool_decide (evidence_key e = _key w) then Ok (Some e)
                       else throw ValueError "capability evidence does not bind this member"
    | Some Foreign => throw ValueError "capability evidence does not bind this member"
    end = match proof with
          | Some e => if bool_decide (evidence_key e = _key w) then Ok (Some e)
                      else throw ValueError "capability evidence does not bind this member"
          | None => Ok None
          end) as -> by by destruct proof.
  destruct proof as [e|]; cbn [fmap option_fmap option_map].
  - destruct (bool_decide_reflect (evidence_key e = _key w)) as [He|He]; cbn [mbind res_bind].
    + rewrite bool_decide_eq_true_2 by done. rewrite andb_false_r. cbn. split.
      * intros [= <-]. split_and!; [done|done|by intros ? [= <-]|done].
      * by intros (-> & _).
    + split; [done|]. intros (_ & _ & H & _). by destruct (He (H e eq_refl)).
  - cbn [mbind res_bind]. rewrite bool_decide_eq_false_2 by by intros [? ?]. rewrite andb_true_r.
    destruct (String.eqb_spec state "active") as [->|Hne]; cbn.
    + split; [done|]. intros (_ & _ & _ & H). by destruct (H eq_refl).
    + split; [intros [= <-]; by split_and!|by intros (-> & _)].
Qed.

Lemma check_members_ok ads seen l ms :
  check_members ads seen (Inst <$> l) = Ok ms ↔
  ms = l ∧ NoDup (member_id <$> l) ∧ (∀ m, m ∈ l → member_id m ∉ seen)
  ∧ ∀ m, m ∈ l → ads !! member_id m = Some (advertisement m) ∧ considered (advertisement m) = true.
Proof.
  unfold member_id, considered. revert seen ms. induction l as [|m l IH]; intros seen ms; cbn [fmap list_fmap check_members].
  - split; [intros [= <-]; split_and!; [done|constructor|set_solver|set_solver]|by intros (-> & _)].
  - rewrite bind_ok. setoid_rewrite require_ok. setoid_rewrite bind_ok. setoid_rewrite require_ok.
    setoid_rewrite bind_ok. setoid_rewrite IH. rewrite NoDup_cons. split.
    + intros (_ & H1 & _ & H2 & ms' & (-> & Hn & Hs & Hall) & [= <-]). to_prop.
      split_and!; [done| |done| |].
      * intros (x & Hx & Hin)%list_elem_of_fmap. apply (Hs x Hin). rewrite <-Hx. by left.
      * intros x [->|Hx]%elem_of_cons; [done|]. intros Hc. apply (Hs x Hx). by right.
      * intros x [->|Hx]%elem_of_cons; [|by apply Hall]. split; [done|]. by apply mem_spec.
    + intros (-> & [Hnot Hn] & Hs & Hall). exists tt. split.
      { rewrite (proj2 (mem_false _ _)) by (apply Hs; by left).
        rewrite bool_decide_eq_true_2; [done|]. apply Hall. by left. }
      exists tt. split; [apply Hall; by left|]. exists l. split; [|done]. split_and!; [done|done| |].
      * intros x Hx [Hd|Hd]%elem_of_cons; [|by apply (Hs x); [right|]].
        apply Hnot. rewrite <-Hd. by apply (list_elem_of_fmap_2 (λ m, w_worker_id (advertisement m))).
      * intros x Hx. apply Hall. by right.
Qed.

Lemma roster_of_ok s ms g r :
  roster_of s ms g = Ok r ↔
  r = MkRoster s ms g ∧ 1 <= g <= _MAX_GENERATION ∧ zlen ms <= MAX_ROSTER_WORKERS
  ∧ NoDup (member_id <$> ms)
  ∧ ∀ m, m ∈ ms → workers_by_id (s_workers s) !! member_id m = Some (advertisement m)
      ∧ considered (advertisement m) = true.
Proof.
  unfold roster_of, Roster_init, _integer, _bounded_tuple. split.
  - intros H. repeat res_step. simplify_eq. rewrite zlen_fmap in *. to_prop.
    match goal with H : check_members _ _ _ = Ok _ |- _ => apply check_members_ok in H as (-> & Hn & _ & Hall) end.
    conjs.
  - intros (-> & Hg & Hl & Hn & Hall). rewrite <-(zlen_fmap Inst) in Hl. apply Z.leb_le in Hl.
    assert (check_members (workers_by_id (s_workers s)) [] (Inst <$> ms) = Ok ms) as Hc.
    { apply check_members_ok. split_and!; [done|done|set_solver|done]. }
    res_eval. cbn [inst_of mbind res_bind]. rewrite (require_true _ _ _ Hl). cbn [mbind res_bind].
    by rewrite (bind_Ok _ _ ms Hc).
Qed.

(** ** The high-water record *)

(** The snapshot may replace the record: never an older generation, and the same generation
    only with the same digest. *)
Definition advances (s : MembershipSnapshot) (previous : option MembershipHighWater) : Prop :=
  ∀ p, previous = Some p →
    h_cluster_id p = s_cluster_id s ∧ h_issuer_id p = s_issuer_id s
    ∧ (h_generation p < s_generation s ∨ h_generation p = s_generation s ∧ h_digest p = s_digest s).

Lemma authority_ok a b c d u : _authority a b c d = Ok u ↔ a = c ∧ b = d.
Proof. unfold _authority. by rewrite require_ok, andb_true_iff, !String.eqb_eq. Qed.

Lemma check_water_ok s cluster issuer previous :
  check_water s cluster issuer (Inst <$> previous) = Ok tt ↔
  ∀ p, previous = Some p → h_cluster_id p = cluster ∧ h_issuer_id p = issuer
    ∧ (h_generation p < s_generation s ∨ h_generation p = s_generation s ∧ h_digest p = s_digest s).
Proof.
  unfold check_water.
  destruct previous as [p|]; cbn [fmap option_fmap option_map inst_of mbind res_bind]; [|by split]. split.
  - intros H p0 [= <-]. repeat res_step. apply authority_ok in Hok as [? ?]. to_prop.
    split_and!; [done..|]. apply andb_false_iff in H as [H|H]; to_prop; [left; lia|].
    apply String.eqb_eq in H. destruct (decide (h_generation p = s_generation s)); [by right|left; lia].
  - intros H. destruct (H p eq_refl) as (? & ? & Hg).
    rewrite (bind_Ok _ _ tt) by by apply authority_ok. rewrite (bind_Ok _ _ tt).
    2: { apply require_true, negb_true_iff, Z.ltb_ge. lia. }
    apply require_true, negb_true_iff, andb_false_iff. destruct Hg as [Hg|[_ Hg]]; [left; apply Z.eqb_neq; lia|].
    right. rewrite Hg. by rewrite String.eqb_refl.
Qed.

Lemma validate_high_water_spec s previous cluster issuer now w :
  snapshot_ok s → is_identity cluster = true → is_identity issuer = true →
  validate_high_water (Inst s) (Inst <$> previous) (PStr cluster) (PStr issuer) (Inst now) = Ok w ↔
  s_cluster_id s = cluster ∧ s_issuer_id s = issuer ∧ s_issued_at s <= now < s_expires_at s
  ∧ advances s previous
  ∧ w = MkWater (s_cluster_id s) (s_issuer_id s) (s_generation s) (s_digest s).
Proof.
  intros Hs Hc Hi. unfold validate_high_water, advances. rewrite !identity_ok by done.
  cbn [inst_of _aware mbind res_bind]. rewrite (water_ok s Hs). split.
  - intros H. repeat res_step. destruct a1. apply authority_ok in Hok as [<- <-].
    rewrite check_water_ok in Hok1. to_prop. by split_and!.
  - intros (<- & <- & Ht & Hadv & ->). apply check_water_ok in Hadv.
    rewrite (bind_Ok _ _ tt) by by apply authority_ok.
    rewrite (bind_Ok _ _ tt) by (apply require_true; lia). by rewrite (bind_Ok _ _ tt Hadv).
Qed.

(** ** Evidence and placement *)

Lemma index_proofs_spec proofs l result :
  index_proofs proofs (Inst <$> l) = Ok result →
  ∀ k e, result !! k = Some e → proofs !! k = Some e ∨ e ∈ l ∧ evidence_key e = k.
Proof.
  revert proofs. induction l as [|x l IH]; intros proofs; cbn [fmap list_fmap index_proofs].
  - intros [= <-]. by left.
  - intros H. repeat res_step. intros k e Hk. destruct (IH _ H k e Hk) as [Hl|[Hl ?]].
    + destruct (decide (evidence_key x = k)) as [<-|Hne].
      * rewrite lookup_insert_eq in Hl. injection Hl as <-. right. split; [by left|done].
      * rewrite lookup_insert_ne in Hl by done. by left.
    + right. split; [by right|done].
Qed.

Lemma index_proofs_total proofs l :
  NoDup (evidence_key <$> l) → (∀ e, e ∈ l → proofs !! evidence_key e = None) →
  ∃ result, index_proofs proofs (Inst <$> l) = Ok result.
Proof.
  revert proofs. induction l as [|x l IH]; intros proofs Hn Hp; cbn [fmap list_fmap index_proofs]; [by eexists|].
  cbn in Hn. apply NoDup_cons in Hn as [Hx Hn]. rewrite Hp by by left.
  rewrite bool_decide_eq_false_2 by by intros [? ?]. cbn [negb require mbind res_bind]. apply IH; [done|].
  intros e He. rewrite lookup_insert_ne; [apply Hp; by right|]. intros Heq. apply Hx. rewrite Heq.
  by apply list_elem_of_fmap_2.
Qed.

Section Placement.
  Context (now : Z) (previous : option MembershipRoster).
  Context (old_members : gmap string RosterMember) (proofs : gmap member_key CapabilityEvidence).

  (** A proof the evidence or the predecessor offers is of the worker's own key. *)
  Hypothesis Hproofs : ∀ k e, proofs !! k = Some e → evidence_key e = k.
  Hypothesis Hold : ∀ i o, old_members !! i = Some o → member_ok o.

  Local Abbreviation old w := (old_members !! w_worker_id w).
  Local Abbreviation same w := (is_same_incarnation now previous (old w) w).

Lemma place_spec w state proof s :
    place now previous (old w) proofs w = (state, proof, s) →
    s = same w ∧ state ∈ ["probation"; "active"; "unhealthy"]
    ∧ (∀ e, proof = Some e → evidence_key e = _key w)
    ∧ (state ≠ "active" → proof = None)
    ∧ (state = "active" → same w = true ∧ w_lifecycle_state w ≠ "unhealthy"
        ∧ ∃ e, proof = Some e ∧ c_checked_at e <= now < c_expires_at e).
  Proof using Hproofs Hold.
    unfold place. set (offered := match proofs !! _key w with Some p => Some p | None => _ end).
    assert (∀ e, offered = Some e → evidence_key e = _key w) as Hkey.
    { intros e. unfold offered. destruct (proofs !! _key w) eqn:Ep; [intros [= <-]; by apply Hproofs|].
      destruct (same w) eqn:Es; [|done]. destruct (old w) as [o|] eqn:Eo; [|done]. cbn. intros He.
      pose proof (Hold _ _ Eo) as (_ & _ & Hb & _)%roster_member_ok. rewrite (Hb e He).
      unfold is_same_incarnation in Es. destruct previous; [|done]. by to_prop. }
    destruct (String.eqb_spec (w_lifecycle_state w) "unhealthy") as [Hu|Hu].
    - rewrite andb_false_r. intros [= <- <- <-]. conjs. split; [set_solver|]. conjs.
    - rewrite andb_true_r. destruct (same w) eqn:Es, offered as [e|] eqn:Eo; cbn [andb].
      1: destruct (_ && _) eqn:Et; [to_prop|].
      all: intros [= <- <- <-]; conjs; split; [set_solver|].
      { split; [done|]. split; [done|]. intros _. conjs. exists e. by split. }
      all: conjs.
  Qed.

Lemma place_all_spec l ms added activated :
    place_all now previous old_members proofs l = Ok (ms, added, activated) →
    Forall2 (λ w m, advertisement m = w ∧ member_ok m
      ∧ place now previous (old w) proofs w = (lifecycle_state m, evidence m, same w)) l ms
    ∧ added = List.filter (λ w, negb (same w)) l
    ∧ activated = advertisement <$> List.filter (λ m, String.eqb (lifecycle_state m) "active"
        && match old_members !! member_id m with
           | Some o => negb (String.eqb (lifecycle_state o) "active") | None => true end) ms.
  Proof using Hproofs Hold.
    revert ms added activated. induction l as [|w l IH]; intros ms added activated; cbn [place_all].
    - intros [= <- <- <-]. by split.
    - destruct (place _ _ _ _ w) as [[state proof] s] eqn:Ep. intros H. repeat res_step.
      destruct a0 as [[ms' added'] activated']. destruct (IH _ _ _ Hok0) as (Hall & -> & ->).
      pose proof (place_spec _ _ _ _ Ep) as (-> & _). pose proof Hok as Hm.
      apply roster_member_ok in Hm as (-> & _). injection H as <- <- <-. split; [|split].
      + constructor; [|done]. cbn. split; [done|]. split; [exact Hok|exact Ep].
      + cbn. by destruct (same w).
      + unfold member_id. cbn. by destruct (String.eqb state "active" && _).
  Qed.

Lemma place_all_total l : ∃ result, place_all now previous old_members proofs l = Ok result.
  Proof using Hproofs Hold.
    induction l as [|w l [[[ms added] activated] IH]]; cbn [place_all]; [by eexists|].
    destruct (place _ _ _ _ w) as [[state proof] s] eqn:Ep.
    pose proof (place_spec _ _ _ _ Ep) as (_ & Hst & Hk & _ & Ha).
    rewrite (bind_Ok _ _ (MkMember w state proof)), (bind_Ok _ _ _ IH); [by eexists|].
    apply roster_member_ok. split; [done|]. split; [set_solver|]. split; [done|].
    intros Hact. destruct (Ha Hact) as (_ & _ & e & -> & _). by exists e.
  Qed.
End Placement.

(** ** Outcomes *)

Definition previous_members (previous : option MembershipRoster) : list RosterMember :=
  match previous with Some p => members p | None => [] end.

Definition old_by_id (previous : option MembershipRoster) : gmap string RosterMember :=
  members_by_id (previous_members previous).

Definition selected_workers (max_workers : Z) (outage : bool) (snap : MembershipSnapshot)
    (previous : option MembershipRoster) : list WorkerAdvertisement :=
  take (Z.to_nat max_workers) (selectable outage (old_by_id previous) (eligible_workers snap)).

Definition same_incarnation (now : Z) (previous : option MembershipRoster) (w : WorkerAdvertisement) : bool :=
  is_same_incarnation now previous (old_by_id previous !! w_worker_id w) w.

Definition next_gen (ms : list RosterMember) (previous : option MembershipRoster) : Z :=
  match previous with Some p => next_generation ms p | None => 1 end.

(** The members placed by the code are the old ones that were neither kept nor expired. *)
Definition drained (ms : list RosterMember) (previous : option MembershipRoster) : list WorkerAdvertisement :=
  advertisement <$> List.filter (λ m,
    negb (mem (_key (advertisement m)) ((_key ∘ advertisement) <$> ms))
    && negb (String.eqb (lifecycle_state m) "expired")) (previous_members previous).

Definition newly_active (ms : list RosterMember) (previous : option MembershipRoster) : list WorkerAdvertisement :=
  advertisement <$> List.filter (λ m, String.eqb (lifecycle_state m) "active"
    && match old_by_id previous !! member_id m with
       | Some o => negb (String.eqb (lifecycle_state o) "active") | None => true end) ms.

(** The result for a snapshot in force: its members, one per selected worker, and the lists of
    changes. *)
Definition placed (now max_workers : Z) (outage : bool) (snap : MembershipSnapshot)
    (water : option MembershipHighWater) (previous : option MembershipRoster)
    (proofs : gmap member_key CapabilityEvidence) (ms : list RosterMember) (r : MembershipReconciliation) : Prop :=
  Forall2 (λ w m, advertisement m = w ∧ member_ok m
      ∧ place now previous (old_by_id previous !! w_worker_id w) proofs w
        = (lifecycle_state m, evidence m, same_incarnation now previous w))
    (selected_workers max_workers outage snap previous) ms
  ∧ roster_of snap ms (next_gen ms previous) = Ok (MkRoster snap ms (next_gen ms previous))
  ∧ r = MkReconciliation (Some (MkRoster snap ms (next_gen ms previous))) water
      (List.filter (λ w, negb (same_incarnation now previous w)) (selected_workers max_workers outage snap previous))
      (newly_active ms previous) (drained ms previous) []
      (omitted (eligible_workers snap) ms)
  ∧ match water with Some w => binds snap w = true | None => False end.

Definition proofs_from (l : list CapabilityEvidence) (proofs : gmap member_key CapabilityEvidence) : Prop :=
  index_proofs ∅ (Inst <$> l) = Ok proofs.

Lemma proofs_from_key l proofs k e : proofs_from l proofs → proofs !! k = Some e → evidence_key e = k.
Proof. intros H Hk. by destruct (index_proofs_spec _ _ _ H k e Hk) as [Hn|[_ ?]]. Qed.

Definition previous_ok (previous : option MembershipRoster) : Prop := ∀ p, previous = Some p → roster_ok p.

Lemma previous_ids_distinct previous : previous_ok previous → NoDup (member_id <$> previous_members previous).
Proof.
  intros H. destruct previous as [p|]; [|constructor]. destruct (H p eq_refl) as (_ & _ & Hr).
  by apply roster_of_ok in Hr as (_ & _ & _ & ? & _).
Qed.

Lemma old_by_id_lookup previous i o :
  previous_ok previous → old_by_id previous !! i = Some o ↔ o ∈ previous_members previous ∧ member_id o = i.
Proof. intros H. apply dict_by_lookup. by apply previous_ids_distinct. Qed.

Lemma old_members_ok previous i o : previous_ok previous → old_by_id previous !! i = Some o → member_ok o.
Proof.
  intros H Ho. apply old_by_id_lookup in Ho as [Ho _]; [|done]. destruct previous as [p|]; [|by apply elem_of_nil in Ho].
  destruct (H p eq_refl) as (_ & Hm & _). rewrite Forall_forall in Hm. by apply Hm.
Qed.

Lemma Reconciliation_init_inv ros water a b c d n r :
  Reconciliation_init ros water a b c d n = Ok r →
  r = MkReconciliation ros water a b c d n
  ∧ match ros, water with Some x, Some w => binds (snapshot x) w = true | Some _, None => False | None, _ => True end.
Proof.
  unfold Reconciliation_init, _bounded_tuple, _integer. intros H. repeat res_step. simplify_eq. split; [done|].
  by destruct ros, water.
Qed.

Lemma place_snapshot_inv now max_workers outage snap water previous l r :
  previous_ok previous →
  place_snapshot now max_workers outage snap water previous (Inst (Inst <$> l)) = Ok r →
  ∃ proofs ms, proofs_from l proofs ∧ placed now max_workers outage snap water previous proofs ms r.
Proof.
  intros Hp H. unfold place_snapshot in H. fold (previous_members previous) in H.
  fold (old_by_id previous) in H. fold (selected_workers max_workers outage snap previous) in H.
  repeat res_step. destruct a1 as [[ms added] activated].
  repeat res_step. unfold _bounded_tuple in Hok. repeat res_step. simplify_eq.
  assert (proofs_from l a0) as Hl by done.
  apply place_all_spec in Hok1 as (Hall & -> & ->);
    [|by intros; eapply proofs_from_key|by intros; eapply old_members_ok].
  exists a0, ms. split; [done|]. apply roster_of_ok in Hok2 as Hr. destruct Hr as (-> & _).
  apply Reconciliation_init_inv in H as [-> Hw]. rewrite dict_values_id by by apply previous_ids_distinct.
  split; [exact Hall|]. split; [exact Hok2|]. split; [done|]. by destruct water.
Qed.

Definition expire_member (m : RosterMember) : RosterMember := MkMember (advertisement m) "expired" None.

Lemma expire_all_inv snap water p r :
  expire_all snap water p = Ok r →
  let ms := expire_member <$> members p in
  roster_of snap ms (next_generation ms p) = Ok (MkRoster snap ms (next_generation ms p))
  ∧ r = MkReconciliation (Some (MkRoster snap ms (next_generation ms p))) water [] [] []
      (advertisement <$> List.filter (λ m, negb (String.eqb (lifecycle_state m) "expired")) (members p))
      (omitted (eligible_workers snap) ms)
  ∧ match water with Some w => binds snap w = true | None => False end.
Proof.
  unfold expire_all. intros H. repeat res_step.
  assert (a = expire_member <$> members p) as ->.
  { clear -Hok. induction Hok as [|m m' l k Hm _ IH]; [done|]. apply roster_member_ok in Hm as [-> _].
    cbn. by rewrite IH. }
  apply roster_of_ok in Hok0 as Hr. destruct Hr as (-> & _). apply Reconciliation_init_inv in H as [-> Hw].
  split; [exact Hok0|]. split; [done|]. by destruct water.
Qed.

(** What one call may return, on arguments of the declared types. *)
Inductive outcome (now max_workers : Z) (candidate : option MembershipSnapshot)
    (previous : option MembershipRoster) (water : option MembershipHighWater)
    (l : list CapabilityEvidence) (r : MembershipReconciliation) : Prop :=
  | superseded p w :
      candidate = None → previous = Some p → water = Some w → binds (snapshot p) w = false →
      r = MkReconciliation None (Some w) [] [] (advertisement <$> members p) [] 0 → outcome now max_workers candidate previous water l r
  | nothing :
      candidate = None → previous = None → r = MkReconciliation None water [] [] [] [] 0 →
      outcome now max_workers candidate previous water l r
  | expired p w :
      candidate = None → previous = Some p → water = Some w → binds (snapshot p) w = true →
      s_expires_at (snapshot p) <= now → expire_all (snapshot p) water p = Ok r →
      outcome now max_workers candidate previous water l r
  | retained p w proofs ms :
      candidate = None → previous = Some p → water = Some w → binds (snapshot p) w = true →
      s_issued_at (snapshot p) <= now < s_expires_at (snapshot p) → proofs_from l proofs →
      placed now max_workers true (snapshot p) water previous proofs ms r → outcome now max_workers candidate previous water l r
  | admitted snap w proofs ms :
      candidate = Some snap → s_issued_at snap <= now < s_expires_at snap → advances snap water →
      (∀ p, previous = Some p → forallb (replaces (workers_by_id (s_workers (snapshot p)))) (s_workers snap) = true) →
      proofs_from l proofs → placed now max_workers false snap (Some w) previous proofs ms r →
      outcome now max_workers candidate previous water l r.

Section Reconcile.
  Context (now max_workers : Z) (cluster issuer : string) (candidate : option MembershipSnapshot).
  Context (previous : option MembershipRoster) (water : option MembershipHighWater).
  Context (l : list CapabilityEvidence).
  Hypothesis Hcandidate : ∀ s, candidate = Some s → snapshot_ok s.
  Hypothesis Hprevious : previous_ok previous.

  Local Abbreviation call :=
    (reconcile_membership (Inst <$> candidate) (PStr cluster) (PStr issuer) (Inst now) (Inst <$> previous)
       (Inst <$> water) (PInt max_workers) (Inst (Inst <$> l))).

Lemma check_previous_inv outage p prev early :
    check_previous now cluster issuer outage (Inst p) water = Ok (prev, early) →
    ∃ w, water = Some w ∧ prev = p ∧
      match early with
      | Some r => outage = true ∧ binds (snapshot p) w = false
          ∧ r = MkReconciliation None (Some w) [] [] (advertisement <$> members p) [] 0
      | None => (outage = true → binds (snapshot p) w = true) ∧ s_issued_at (snapshot p) <= now
      end.
  Proof.
    unfold check_previous. destruct water as [w|]; [|done]. intros H. repeat res_step. exists w. split; [done|].
    destruct (outage && negb (binds (snapshot p) w)) eqn:E.
    - apply bind_ok in H as (r & Hr & H). apply Reconciliation_init_inv in Hr as [-> _]. simplify_eq.
      by to_prop.
    - apply bind_ok in H as (? & _ & H). apply bind_ok in H as (? & Hi & H). res_inv. to_prop.
      split; [done|]. split; [|done]. intros ->. cbn in E. by destruct (binds _ _).
  Qed.

Lemma admit_inv (given : option MembershipSnapshot) snap r :
    given = Some snap → snapshot_ok snap → is_identity cluster = true → is_identity issuer = true →
    (next_water ← validate_high_water (Inst snap) (Inst <$> water) (PStr cluster) (PStr issuer) (Inst now);
     s ← inst_of ValueError "a verified membership snapshot is required" (Inst snap);
     _ ← require (match previous with
                  | Some p => forallb (replaces (workers_by_id (s_workers (snapshot p)))) (s_workers s)
                  | None => true
                  end) ValueError
           "member generation must advance for endpoint replacement and cannot roll back";
     apply_snapshot now max_workers false s (Some next_water) previous (Inst (Inst <$> l))) = Ok r →
    outcome now max_workers given previous water l r.
  Proof using Hprevious.
    intros Hsnap Hok Hc Hi H. apply bind_ok in H as (w & Hw & H).
    apply validate_high_water_spec in Hw as (_ & _ & Ht & Hadv & _); [|done..].
    cbn [inst_of mbind res_bind] in H. apply bind_ok in H as (? & Hrep%require_ok & H).
    unfold apply_snapshot in H. rewrite (proj2 (Z.leb_gt _ _)) in H by lia.
    apply place_snapshot_inv in H as (proofs & ms & Hl & Hp); [|done].
    eapply admitted; [done..| |done|exact Hp]. intros p Hpr. by rewrite Hpr in Hrep.
  Qed.

Lemma reconcile_inv r : call = Ok r → outcome now max_workers candidate previous water l r.
  Proof using Hcandidate Hprevious.
    unfold reconcile_membership. intros H.
    apply bind_ok in H as (cl & [[= <-] Hci]%identity_inv & H).
    apply bind_ok in H as (iss & [[= <-] Hii]%identity_inv & H).
    apply bind_ok in H as (lim & [[= <-] Hlim]%check_int_ok & H). cbn [_aware inst_of] in H.
    rewrite (bind_Ok _ _ now) in H by done. apply bind_ok in H as (w0 & Hw0 & H).
    assert (w0 = water) as ->.
    { destruct water as [w|]; cbn in Hw0; repeat res_step; by simplify_eq. }
    clear Hw0. apply bind_ok in H as (prev & Hprev & H).
    assert (prev = None ∧ previous = None
      ∨ ∃ p early, prev = Some (p, early) ∧ previous = Some p
          ∧ check_previous now cluster issuer (negb (bool_decide (is_Some candidate))) (Inst p) water
            = Ok (p, early)) as [[-> Hnone]|(p & early & -> & Hsome & Hcheck)].
    { destruct previous as [p|]; cbn [fmap option_fmap option_map] in Hprev; [right|left; by simplify_eq].
      rewrite (bool_decide_ext _ (is_Some candidate)) in Hprev by by rewrite fmap_is_Some.
      destruct (check_previous _ _ _ _ _ _) as [[p' early]|] eqn:E; [|done]. injection Hprev as <-.
      pose proof (check_previous_inv _ _ _ _ E) as (w & _ & -> & _). by exists p, early. }
    - cbn [fmap option_fmap option_map] in H. destruct (candidate) as [snap|] eqn:Ec.
      + eapply admit_inv; [done|by apply Hcandidate|done..|]. rewrite Hnone. exact H.
      + apply Reconciliation_init_inv in H as [-> _]. by apply nothing.
    - apply check_previous_inv in Hcheck as (w & Hw & _ & He). destruct early as [r0|].
      + destruct He as (Ho & Hb & ->). injection H as <-. eapply superseded; [|done..].
        destruct candidate; [|done]. by rewrite bool_decide_eq_true_2 in Ho.
      + destruct He as [Hb Ht]. cbn [fmap option_fmap option_map fst] in H.
        destruct (candidate) as [snap|] eqn:Ec.
        * eapply admit_inv; [done|by apply Hcandidate|done..|]. by rewrite Hsome.
        * cbn [fmap option_fmap option_map] in H. unfold apply_snapshot in H. specialize (Hb eq_refl). destruct (Z.leb_spec (s_expires_at (snapshot p)) now).
          -- eapply expired; [done|exact Hsome|exact Hw|done..].
          -- rewrite <-Hsome in H. apply place_snapshot_inv in H as (proofs & ms & Hl & Hp); [|done].
             eapply retained; [done..|lia|done|exact Hp].
  Qed.
End Reconcile.

(** ** Theorems *)

(** What the rosters of all outcomes share. *)
Lemma outcome_roster now max_workers candidate previous water l r ros :
  previous_ok previous → outcome now max_workers candidate previous water l r → roster r = Some ros →
  (∃ w, high_water r = Some w ∧ binds (snapshot ros) w = true)
  ∧ roster_of (snapshot ros) (members ros) (generation ros) = Ok ros
  ∧ Forall member_ok (members ros)
  ∧ (candidate = Some (snapshot ros) ∨ ∃ p, previous = Some p ∧ snapshot ros = snapshot p).
Proof.
  intros Hp H Hr. destruct H as [p w ? ? ? ? ->|? ? ->|p w ? Hprev Hw Hb ? He|p w proofs ms ? Hprev Hw Hb ? ? Hpl
    |snap w proofs ms Hc ? ? ? ? Hpl]; try done.
  - apply expire_all_inv in He as (Hro & -> & Hw'). cbn in Hr. injection Hr as <-. cbn.
    rewrite Hw in Hw' |- *. split; [by exists w|]. split; [exact Hro|]. split; [|right; by exists p].
    apply Forall_fmap, Forall_forall. intros m _. by apply roster_member_ok; split_and!; [done|set_solver|..].
  - destruct Hpl as (Hall & Hro & -> & Hw'). cbn in Hr. injection Hr as <-. cbn. rewrite Hw in Hw' |- *.
    split; [by exists w|]. split; [exact Hro|]. split; [|right; by exists p].
    clear -Hall. induction Hall as [|a b k k' (_ & Hm & _) _ IH]; by constructor.
  - destruct Hpl as (Hall & Hro & -> & Hw'). cbn in Hr. injection Hr as <-. cbn.
    split; [by exists w|]. split; [exact Hro|]. split; [|by left].
    clear -Hall. induction Hall as [|a b k k' (_ & Hm & _) _ IH]; by constructor.
Qed.

(** A proposed roster is well formed: whatever the inputs, the roster a reconciliation
    returns is one its constructor accepts: at most 256 members with distinct identities, each
    a constructed member for an advertisement of the roster's own verified snapshot in a
    considered state, under a generation in range, and bound to the returned high-water record. *)
Theorem proposed_roster_well_formed now max_workers cluster issuer candidate previous water l r ros :
  (∀ s, candidate = Some s → snapshot_ok s) → previous_ok previous →
  reconcile_membership (Inst <$> candidate) (PStr cluster) (PStr issuer) (Inst now) (Inst <$> previous)
    (Inst <$> water) (PInt max_workers) (Inst (Inst <$> l)) = Ok r →
  roster r = Some ros →
  roster_ok ros ∧ zlen (members ros) <= MAX_ROSTER_WORKERS ∧ NoDup (member_id <$> members ros)
  ∧ (∀ m, m ∈ members ros → advertisement m ∈ s_workers (snapshot ros) ∧ considered (advertisement m) = true)
  ∧ high_water r = Some (MkWater (s_cluster_id (snapshot ros)) (s_issuer_id (snapshot ros))
                          (s_generation (snapshot ros)) (s_digest (snapshot ros))).
Proof.
  intros Hc Hp H Hr. apply reconcile_inv in H; [|done..].
  destruct (outcome_roster _ _ _ _ _ _ _ _ Hp H Hr) as ((w & Hw & Hb) & Hro & Hm & Hs).
  apply binds_spec in Hb as ->. split.
  { split; [|by split]. destruct Hs as [Hs|(p & Hpr & ->)]; [by apply Hc|]. by destruct (Hp p Hpr). }
  apply roster_of_ok in Hro as (_ & _ & Hl & Hn & Hall). split; [done|]. split; [done|]. split; [|done].
  intros m Hin. destruct (Hall m Hin) as [Ha ?]. split; [|done]. unfold workers_by_id in Ha.
  by apply dict_by_elem in Ha as [? _].
Qed.

(** Authority never rolls back: the record a reconciliation proposes is the retained one or
    one of the same cluster and issuer with a greater generation, and every proposed roster is
    of exactly the snapshot that record names. *)
Theorem high_water_never_rolls_back now max_workers cluster issuer candidate previous water l r w0 :
  (∀ s, candidate = Some s → snapshot_ok s) → previous_ok previous →
  reconcile_membership (Inst <$> candidate) (PStr cluster) (PStr issuer) (Inst now) (Inst <$> previous)
    (Inst <$> water) (PInt max_workers) (Inst (Inst <$> l)) = Ok r →
  water = Some w0 →
  ∃ w, high_water r = Some w ∧ h_cluster_id w = h_cluster_id w0 ∧ h_issuer_id w = h_issuer_id w0
    ∧ (w = w0 ∨ h_generation w0 < h_generation w)
    ∧ ∀ ros, roster r = Some ros → binds (snapshot ros) w = true.
Proof.
  intros Hc Hp H Hw0. apply reconcile_inv in H; [|done..].
  assert (∀ ros, roster r = Some ros → ∃ w, high_water r = Some w ∧ binds (snapshot ros) w = true) as Hros.
  { intros ros Hr. by destruct (outcome_roster _ _ _ _ _ _ _ _ Hp H Hr) as [? _]. }
  assert (∃ w, high_water r = Some w ∧ h_cluster_id w = h_cluster_id w0 ∧ h_issuer_id w = h_issuer_id w0
    ∧ (w = w0 ∨ h_generation w0 < h_generation w)) as (w & Hw & ? & ? & ?).
  { destruct H as [p w ? ? Hw ? ->|? ? ->|p w ? Hprev Hw Hb ? He|p w proofs ms ? Hprev Hw Hb ? ? Hpl
      |snap w proofs ms Hcand ? Hadv ? ? Hpl].
    - exists w. split; [done|]. assert (w = w0) as -> by congruence. auto.
    - exists w0. split; [done|]. auto.
    - apply expire_all_inv in He as (_ & -> & _). exists w0. cbn. auto.
    - destruct Hpl as (_ & _ & -> & _). exists w0. cbn. auto.
    - destruct Hpl as (_ & _ & -> & Hb). exists w. split; [done|]. apply binds_spec in Hb as ->. cbn.
      destruct (Hadv w0 Hw0) as (? & ? & [?|[? ?]]); split_and!; [done..|by right|done|done|left].
      destruct w0; cbn in *; congruence. }
  exists w. split_and!; [done..|]. intros ros Hr. destruct (Hros ros Hr) as (w' & Hw' & ?). congruence.
Qed.

(** Activity needs probation and fresh evidence: an active member of a proposed roster has
    a predecessor in the previous roster, of exactly the same worker, origin and generation and
    not expired, while that roster's snapshot was in force; it carries evidence of this
    incarnation that is in force now; and its advertisement is not unhealthy. *)
Theorem active_needs_probation now max_workers cluster issuer candidate previous water l r ros m :
  (∀ s, candidate = Some s → snapshot_ok s) → previous_ok previous →
  reconcile_membership (Inst <$> candidate) (PStr cluster) (PStr issuer) (Inst now) (Inst <$> previous)
    (Inst <$> water) (PInt max_workers) (Inst (Inst <$> l)) = Ok r →
  roster r = Some ros → m ∈ members ros → lifecycle_state m = "active" →
  (∃ p o, previous = Some p ∧ now < s_expires_at (snapshot p) ∧ o ∈ members p
     ∧ _key (advertisement o) = _key (advertisement m) ∧ lifecycle_state o ≠ "expired")
  ∧ (∃ e, evidence m = Some e ∧ evidence_key e = _key (advertisement m) ∧ c_checked_at e <= now < c_expires_at e)
  ∧ w_lifecycle_state (advertisement m) ≠ "unhealthy".
Proof.
  intros Hc Hp H Hr Hm Ha. apply reconcile_inv in H; [|done..].
  assert (∃ proofs outage snap water', proofs_from l proofs
    ∧ placed now max_workers outage snap water' previous proofs (members ros) r) as (proofs & outage & snap & water' & Hl & Hpl).
  { destruct H as [p w ? ? ? ? ->|? ? ->|p w ? Hprev Hw Hb ? He|p w proofs ms ? Hprev Hw Hb ? Hl Hpl
      |snap w proofs ms Hcand ? ? ? Hl Hpl]; try done.
    - apply expire_all_inv in He as (_ & -> & _). cbn in Hr. injection Hr as <-. cbn in Hm.
      apply list_elem_of_fmap in Hm as (x & -> & _). done.
    - pose proof Hpl as (_ & _ & -> & _). cbn in Hr. injection Hr as <-. cbn. eauto 10.
    - pose proof Hpl as (_ & _ & -> & _). cbn in Hr. injection Hr as <-. cbn. eauto 10. }
  destruct Hpl as (Hall & _). apply list_elem_of_lookup in Hm as [i Hi].
  destruct (Forall2_lookup_r _ _ _ _ _ Hall Hi) as (w & _ & Hw & Hmok & Hplace). rewrite Ha in Hplace.
  apply place_spec in Hplace as (_ & _ & Hk & _ & Hact);
    [|by intros; eapply proofs_from_key|by intros; eapply old_members_ok].
  destruct (Hact eq_refl) as (Hsame & Hun & e & He & Ht). rewrite Hw. split; [|split; [|done]].
  - unfold is_same_incarnation in Hsame. destruct (old_by_id previous !! w_worker_id w) as [o|] eqn:Eo; [|done].
    destruct previous as [p|] eqn:Epr; [|done]. to_prop. apply String.eqb_neq in H2.
    apply old_by_id_lookup in Eo as [Ho _]; [|done]. by exists p, o.
  - exists e. split; [done|]. split; [by apply Hk|done].
Qed.

(** The member is kept, drained or expired by the result. *)
Definition kept (o : RosterMember) (r : MembershipReconciliation) : Prop :=
  ∃ ros m, roster r = Some ros ∧ m ∈ members ros ∧ lifecycle_state m ≠ "expired"
    ∧ _key (advertisement m) = _key (advertisement o).

Lemma placed_accounts now max_workers outage snap water previous proofs ms r o :
  previous_ok previous → (∀ k e, proofs !! k = Some e → evidence_key e = k) →
  placed now max_workers outage snap water previous proofs ms r →
  o ∈ previous_members previous → lifecycle_state o ≠ "expired" →
  (kept o r ↔ advertisement o ∉ drains r) ∧ expirations r = [].
Proof.
  intros Hp Hproofs (Hall & _ & -> & _) Ho Hst. split; [|done].
  assert (∀ m, m ∈ ms → lifecycle_state m ≠ "expired") as Hne.
  { intros m Hm. apply list_elem_of_lookup in Hm as [i Hi].
    destruct (Forall2_lookup_r _ _ _ _ _ Hall Hi) as (w & _ & _ & _ & Hplace).
    apply place_spec in Hplace as (_ & Hs & _); [|done|]; [intros Heq; rewrite Heq in Hs; by apply mem_spec in Hs|]. by intros; eapply old_members_ok. }
  assert (kept o (MkReconciliation (Some (MkRoster snap ms (next_gen ms previous))) water
      (List.filter (λ w, negb (same_incarnation now previous w)) (selected_workers max_workers outage snap previous))
      (newly_active ms previous) (drained ms previous) [] (omitted (eligible_workers snap) ms))
    ↔ _key (advertisement o) ∈ (_key ∘ advertisement) <$> ms) as ->.
  { unfold kept. cbn. rewrite list_elem_of_fmap. split.
    - intros (ros & m & [= <-] & Hm & _ & Hk). by exists m.
    - intros (m & Hk & Hm). exists (MkRoster snap ms (next_gen ms previous)), m. by split_and!; [| |apply Hne|]. }
  cbn [drains]. unfold drained. rewrite (list_elem_of_fmap advertisement). split.
  - intros Hin (o' & Heq & Hf). apply elem_of_filter_bool in Hf as [_ Hf]. to_prop. by rewrite <-Heq in *.
  - intros Hn. destruct (decide (_key (advertisement o) ∈ (_key ∘ advertisement) <$> ms)) as [|Hk]; [done|].
    destruct Hn. exists o. split; [done|]. apply elem_of_filter_bool. split; [done|].
    rewrite (proj2 (mem_false _ _) Hk). by apply String.eqb_neq in Hst as ->.
Qed.

(** Every member is accounted for: a member of the previous roster that had not expired is
    either kept, as a member of the proposed roster of the same worker, origin and generation
    that has not expired, or drained, or expired: exactly one of the three. *)
Theorem members_accounted now max_workers cluster issuer candidate p water l r o :
  (∀ s, candidate = Some s → snapshot_ok s) → roster_ok p →
  reconcile_membership (Inst <$> candidate) (PStr cluster) (PStr issuer) (Inst now) (Some (Inst p))
    (Inst <$> water) (PInt max_workers) (Inst (Inst <$> l)) = Ok r →
  o ∈ members p → lifecycle_state o ≠ "expired" →
  let is_drained := advertisement o ∈ drains r in
  let is_expired := advertisement o ∈ expirations r in
  (kept o r ∧ ¬ is_drained ∧ ¬ is_expired) ∨ (¬ kept o r ∧ is_drained ∧ ¬ is_expired)
  ∨ (¬ kept o r ∧ ¬ is_drained ∧ is_expired).
Proof.
  intros Hc Hp H Ho Hst. cbn zeta. assert (previous_ok (Some p)) as Hpo by by intros ? [= <-].
  apply (reconcile_inv now max_workers cluster issuer candidate (Some p)) in H; [|done..].
  destruct H as [p' w ? ? ? ? ->|? ? ?|p' w ? [= <-] Hw Hb ? He|p' w proofs ms ? [= <-] Hw Hb ? Hl Hpl
    |snap w proofs ms Hcand ? ? ? Hl Hpl]; [|done| | |].
  - right; left. simplify_eq. split; [by intros (? & ? & ? & _)|]. split; [|by intros ?%elem_of_nil].
    by apply list_elem_of_fmap_2.
  - right; right. apply expire_all_inv in He as (_ & -> & _). split; [|split].
    + intros (ros & m & [= <-] & Hm & Hms & _). cbn in Hm. by apply list_elem_of_fmap in Hm as (x & -> & _).
    + by intros ?%elem_of_nil.
    + apply list_elem_of_fmap_2, elem_of_filter_bool. split; [done|]. by apply String.eqb_neq in Hst as ->.
  - destruct (placed_accounts _ _ _ _ _ _ _ _ _ o Hpo (λ k e, proofs_from_key l proofs k e Hl) Hpl Ho Hst) as [Hk ->].
    rewrite elem_of_nil. destruct (decide (advertisement o ∈ drains r)); tauto.
  - destruct (placed_accounts _ _ _ _ _ _ _ _ _ o Hpo (λ k e, proofs_from_key l proofs k e Hl) Hpl Ho Hst) as [Hk ->].
    rewrite elem_of_nil. destruct (decide (advertisement o ∈ drains r)); tauto.
Qed.

(** ** Totality *)

Lemma zlen_filter {A} (f : A → bool) l : zlen (List.filter f l) <= zlen l.
Proof. unfold zlen. apply inj_le. induction l as [|x l IH]; simpl; [lia|]. destruct (f x); simpl; lia. Qed.

Lemma eligible_subset s w : w ∈ eligible_workers s → w ∈ s_workers s ∧ considered w = true.
Proof. unfold eligible_workers. rewrite sort_by_Permutation. apply elem_of_filter_bool. Qed.

Lemma NoDup_fmap_filter {A B} (f : A → B) (p : A → bool) l : NoDup (f <$> l) → NoDup (f <$> List.filter p l).
Proof.
  induction l as [|x l IH]; [done|]. cbn. intros [Hx Hl]%NoDup_cons. destruct (p x); [|by apply IH]. cbn.
  apply NoDup_cons. split; [|by apply IH]. intros (y & Hy & [Hin _]%elem_of_filter_bool)%list_elem_of_fmap.
  apply Hx. rewrite Hy. by apply list_elem_of_fmap_2.
Qed.

Lemma selected_subset max_workers outage s previous w :
  w ∈ selected_workers max_workers outage s previous → w ∈ eligible_workers s.
Proof.
  unfold selected_workers, selectable. intros H%subseteq_take. destruct outage; [|done].
  by apply elem_of_filter_bool in H as [? _].
Qed.

Lemma selected_distinct max_workers outage s previous :
  NoDup (w_worker_id <$> s_workers s) → NoDup (w_worker_id <$> selected_workers max_workers outage s previous).
Proof.
  intros H. unfold selected_workers. rewrite fmap_take. eapply sublist_NoDup; [|apply sublist_take].
  assert (NoDup (w_worker_id <$> eligible_workers s)) as He.
  { unfold eligible_workers. rewrite sort_by_Permutation. by apply NoDup_fmap_filter. }
  unfold selectable. destruct outage; [|done]. by apply NoDup_fmap_filter.
Qed.

Lemma selected_bounded max_workers outage s previous :
  0 <= max_workers → zlen (selected_workers max_workers outage s previous) <= max_workers.
Proof. intros H. unfold selected_workers, zlen. rewrite length_take. lia. Qed.

Lemma previous_bounded previous : previous_ok previous → zlen (previous_members previous) <= MAX_ROSTER_WORKERS.
Proof.
  intros H. destruct previous as [p|]; [|done]. destruct (H p eq_refl) as (_ & _ & Hr).
  by apply roster_of_ok in Hr as (_ & _ & ? & _).
Qed.

Lemma Reconciliation_init_total ros w added activated dr exp n :
  binds (snapshot ros) w = true → zlen added <= 256 → zlen activated <= 256 → zlen dr <= 256 →
  zlen exp <= 256 → 0 <= n <= 4096 →
  Reconciliation_init (Some ros) (Some w) added activated dr exp n
  = Ok (MkReconciliation (Some ros) (Some w) added activated dr exp n).
Proof.
  intros Hb H1 H2 H3 H4 Hn. unfold Reconciliation_init, _bounded_tuple, _integer, MAX_ROSTER_WORKERS. rewrite Hb.
  cbn [require inst_of mbind res_bind].
  rewrite !(proj2 (Z.leb_le _ _)) by done. cbn [require inst_of mbind res_bind].
  by rewrite check_int_PInt.
Qed.

(** The members placed make a roster, unless the generation is used up. *)
Lemma selected_roster_ok max_workers outage snap previous ms :
  previous_ok previous → NoDup (w_worker_id <$> s_workers snap) → 1 <= max_workers <= MAX_ROSTER_WORKERS →
  advertisement <$> ms = selected_workers max_workers outage snap previous →
  (∀ p, previous = Some p → generation p < _MAX_GENERATION) →
  roster_of snap ms (next_gen ms previous) = Ok (MkRoster snap ms (next_gen ms previous)).
Proof.
  intros Hp Hids Hmax Hadv Hgen. apply roster_of_ok. split; [done|]. split.
  { unfold next_gen, next_generation. destruct previous as [p|]; [|by vm_compute].
    destruct (Hp p eq_refl) as (_ & _ & Hr). apply roster_of_ok in Hr as (_ & Hg & _).
    specialize (Hgen p eq_refl). destruct (bool_decide _); lia. }
  split.
  { rewrite <-(zlen_fmap advertisement), Hadv. etrans; [apply selected_bounded; lia|lia]. }
  assert (member_id <$> ms = w_worker_id <$> (advertisement <$> ms)) as Hmid by by rewrite <-list_fmap_compose.
  split; [rewrite Hmid, Hadv; by apply selected_distinct|]. intros m Hm.
  assert (advertisement m ∈ eligible_workers snap) as He.
  { eapply selected_subset. rewrite <-Hadv. by apply list_elem_of_fmap_2. }
  apply eligible_subset in He as [Hin ?]. split; [|done]. by apply dict_by_lookup.
Qed.

Lemma place_snapshot_total now max_workers outage snap w previous l :
  previous_ok previous → snapshot_ok snap → binds snap w = true → 1 <= max_workers <= MAX_ROSTER_WORKERS →
  NoDup (evidence_key <$> l) → zlen l <= MAX_ROSTER_WORKERS →
  (∀ p, previous = Some p → generation p < _MAX_GENERATION) →
  ∃ r, place_snapshot now max_workers outage snap (Some w) previous (Inst (Inst <$> l)) = Ok r.
Proof.
  intros Hp (_ & _ & _ & _ & _ & Hids & Hcount) Hb Hmax Hl Hlen Hgen. unfold place_snapshot, _bounded_tuple.
  fold (previous_members previous). fold (old_by_id previous).
  fold (selected_workers max_workers outage snap previous). cbn [inst_of mbind res_bind].
  rewrite zlen_fmap, (proj2 (Z.leb_le _ _) Hlen). cbn [require mbind res_bind].
  destruct (index_proofs_total ∅ l Hl) as [proofs Hproofs]; [by intros; rewrite lookup_empty|].
  rewrite (bind_Ok _ _ proofs Hproofs).
  assert (∀ k e, proofs !! k = Some e → evidence_key e = k) as Hk by by intros; eapply proofs_from_key.
  assert (∀ i o, old_by_id previous !! i = Some o → member_ok o) as Ho by by intros; eapply old_members_ok.
  destruct (place_all_total now previous _ proofs Hk Ho (selected_workers max_workers outage snap previous))
    as [[[ms added] activated] Hall].
  rewrite (bind_Ok _ _ _ Hall). cbn beta iota.
  destruct (place_all_spec now previous _ proofs Hk Ho _ _ _ _ Hall) as (Hms & -> & ->).
  assert (advertisement <$> ms = selected_workers max_workers outage snap previous) as Hadv.
  { clear -Hms. induction Hms as [|a m k k' (<- & _) _ IH]; [done|]. cbn. by rewrite IH. }
  pose proof (selected_bounded max_workers outage snap previous ltac:(lia)) as Hsel.
  assert (zlen ms = zlen (selected_workers max_workers outage snap previous)) as Hzms by by rewrite <-Hadv, zlen_fmap.
  fold (next_gen ms previous). rewrite (bind_Ok _ _ (MkRoster snap ms (next_gen ms previous))).
  2: { by eapply selected_roster_ok. }
  unfold MAX_ROSTER_WORKERS in *. eexists. apply Reconciliation_init_total; [done|..].
  - etrans; [apply zlen_filter|]. lia.
  - rewrite zlen_fmap. etrans; [apply zlen_filter|]. lia.
  - rewrite zlen_fmap. etrans; [apply zlen_filter|]. rewrite dict_values_id by by apply previous_ids_distinct.
    pose proof (previous_bounded previous Hp). unfold MAX_ROSTER_WORKERS in *. lia.
  - done.
  - unfold omitted. assert (zlen (eligible_workers snap) <= zlen (s_workers snap)).
    { unfold eligible_workers. unfold zlen at 1. rewrite sort_by_Permutation. apply zlen_filter. }
    unfold MAX_ADVERTISEMENTS in *. assert (0 <= zlen ms) by (unfold zlen; lia). lia.
Qed.

Lemma expire_all_total snap w p :
  roster_ok p → snap = snapshot p → binds snap w = true → generation p < _MAX_GENERATION →
  ∃ r, expire_all snap (Some w) p = Ok r.
Proof.
  intros ((_ & _ & _ & _ & _ & Hids & Hcount) & Hm & Hr) -> Hb Hgen.
  apply roster_of_ok in Hr as (_ & Hg & Hl & Hn & Hall). unfold expire_all.
  assert (mapM_res (λ m, roster_member (advertisement m) "expired" None) (members p)
    = Ok (expire_member <$> members p)) as Hexp.
  { apply mapM_res_ok, Forall2_fmap_r, Forall_Forall2_diag, Forall_forall. intros m _.
    apply roster_member_ok. split; [done|]. split; [set_solver|done]. }
  rewrite (bind_Ok _ _ _ Hexp). set (ms := expire_member <$> members p).
  rewrite (bind_Ok _ _ (MkRoster (snapshot p) ms (next_generation ms p))).
  2: { apply roster_of_ok. split; [done|]. split; [unfold next_generation; destruct (bool_decide _); lia|].
    unfold ms. rewrite zlen_fmap. split; [done|]. rewrite <-list_fmap_compose. split; [done|].
    intros m (x & -> & Hx)%list_elem_of_fmap. exact (Hall x Hx). }
  unfold MAX_ROSTER_WORKERS in *. eexists. apply Reconciliation_init_total; [done|easy..| |].
  - rewrite zlen_fmap. etrans; [apply zlen_filter|]. lia.
  - unfold omitted. assert (zlen (eligible_workers (snapshot p)) <= zlen (s_workers (snapshot p))).
    { unfold eligible_workers. unfold zlen at 1. rewrite sort_by_Permutation. apply zlen_filter. }
    unfold MAX_ADVERTISEMENTS in *. assert (0 <= zlen ms) by (unfold zlen; lia). lia.
Qed.

(** The retained record is not behind the previous roster, which was issued in the past and has
    a generation left. *)
Definition retained_by (now : Z) (cluster issuer : string) (water : option MembershipHighWater)
    (p : MembershipRoster) : Prop :=
  s_cluster_id (snapshot p) = cluster ∧ s_issuer_id (snapshot p) = issuer
  ∧ (∃ w, water = Some w ∧ s_generation (snapshot p) <= h_generation w
      ∧ (s_generation (snapshot p) = h_generation w → s_digest (snapshot p) = h_digest w))
  ∧ s_issued_at (snapshot p) <= now ∧ generation p < _MAX_GENERATION.

(** The candidate is in force, of the configured authority, newer than the record, and it
    advances the generation of every worker whose origin changes. *)
Definition admissible (now : Z) (cluster issuer : string) (water : option MembershipHighWater)
    (previous : option MembershipRoster) (s : MembershipSnapshot) : Prop :=
  s_cluster_id s = cluster ∧ s_issuer_id s = issuer ∧ s_issued_at s <= now < s_expires_at s
  ∧ advances s water
  ∧ ∀ p, previous = Some p → forallb (replaces (workers_by_id (s_workers (snapshot p)))) (s_workers s) = true.

Lemma check_previous_total now cluster issuer outage water p :
  roster_ok p → retained_by now cluster issuer water p →
  (check_previous now cluster issuer outage (Inst p) water = Ok (p, None)
    ∧ (outage = true → ∃ w, water = Some w ∧ binds (snapshot p) w = true))
  ∨ (outage = true ∧ ∃ r, check_previous now cluster issuer outage (Inst p) water = Ok (p, Some r)).
Proof.
  intros (_ & _ & Hr) (Hc & Hi & (w & -> & Hg & Hd) & Ht & _). apply roster_of_ok in Hr as (_ & _ & Hl & _).
  unfold check_previous. rewrite (bind_Ok _ _ tt) by by apply authority_ok.
  destruct (outage && negb (binds (snapshot p) w)) eqn:E.
  - right. to_prop. split; [done|]. unfold Reconciliation_init, _bounded_tuple, _integer, MAX_ROSTER_WORKERS in *.
    cbn [require inst_of mbind res_bind]. rewrite zlen_fmap.
    rewrite (proj2 (Z.leb_le (zlen (members p)) 256)) by done. by eexists.
  - left. rewrite (bind_Ok _ _ tt).
    2: { apply require_true, negb_true_iff, orb_false_iff. split; [lia|]. apply andb_false_iff.
         destruct (Z.eqb_spec (s_generation (snapshot p)) (h_generation w)) as [He|]; [right|by left].
         rewrite (Hd He). by rewrite String.eqb_refl. }
    rewrite (bind_Ok _ _ tt) by (apply require_true; lia). split; [done|]. intros ->. exists w.
    split; [done|]. cbn in E. by destruct (binds _ _).
Qed.

(** Reconciliation refuses nothing it was not meant to refuse: with valid configuration,
    distinct evidence, a record of the configured authority, a previous roster the record
    retains, and a candidate (if there is one) that is admissible, it returns a proposal; none
    of the checks of the values it builds itself can fail. *)
Theorem reconcile_total now max_workers cluster issuer candidate previous water l :
  is_identity cluster = true → is_identity issuer = true → 1 <= max_workers <= MAX_ROSTER_WORKERS →
  (∀ s, candidate = Some s → snapshot_ok s) → previous_ok previous →
  NoDup (evidence_key <$> l) → zlen l <= MAX_ROSTER_WORKERS →
  (∀ w, water = Some w → h_cluster_id w = cluster ∧ h_issuer_id w = issuer) →
  (∀ p, previous = Some p → retained_by now cluster issuer water p) →
  (∀ s, candidate = Some s → admissible now cluster issuer water previous s) →
  ∃ r, reconcile_membership (Inst <$> candidate) (PStr cluster) (PStr issuer) (Inst now) (Inst <$> previous)
    (Inst <$> water) (PInt max_workers) (Inst (Inst <$> l)) = Ok r.
Proof.
  intros Hcl His Hmax Hc Hp Hl Hlen Hw Hret Hadm. unfold reconcile_membership, _integer, _aware.
  rewrite !identity_ok by done. cbn [inst_of mbind res_bind].
  rewrite (bind_Ok _ _ max_workers) by by apply check_int_PInt.
  rewrite (bind_Ok _ _ water).
  2: { destruct water as [w|]; [|done]. destruct (Hw w eq_refl). cbn [fmap option_fmap option_map inst_of mbind res_bind].
       by rewrite (bind_Ok _ _ tt) by by apply authority_ok. }
  assert (∀ p, previous = Some p → generation p < _MAX_GENERATION) as Hgen by (intros p Hpr; apply (Hret p Hpr)).
  assert (∀ s, candidate = Some s → ∃ r,
    (next_water ← validate_high_water (Inst s) (Inst <$> water) (PStr cluster) (PStr issuer) (Inst now);
     snap ← inst_of ValueError "a verified membership snapshot is required" (Inst s);
     _ ← require (match previous with
                  | Some p => forallb (replaces (workers_by_id (s_workers (snapshot p)))) (s_workers snap)
                  | None => true
                  end) ValueError
           "member generation must advance for endpoint replacement and cannot roll back";
     apply_snapshot now max_workers false snap (Some next_water) previous (Inst (Inst <$> l))) = Ok r) as Hadmit.
  { intros s Hs. destruct (Hadm s Hs) as (? & ? & Ht & Hadv & Hrep).
    rewrite (bind_Ok _ _ (MkWater (s_cluster_id s) (s_issuer_id s) (s_generation s) (s_digest s))).
    2: { apply validate_high_water_spec; [by apply Hc|done..]. }
    cbn [inst_of mbind res_bind]. rewrite (bind_Ok _ _ tt).
    2: { apply require_true. destruct previous as [p|]; [by apply Hrep|done]. }
    unfold apply_snapshot. rewrite (proj2 (Z.leb_gt _ _)) by lia.
    apply place_snapshot_total; [done|by apply Hc|by apply binds_spec|done..]. }
  destruct previous as [p|]; cbn [fmap option_fmap option_map].
  - rewrite (bool_decide_ext _ (is_Some candidate)) by by rewrite fmap_is_Some.
    destruct (check_previous_total now cluster issuer (negb (bool_decide (is_Some candidate))) water p
      (Hp p eq_refl) (Hret p eq_refl)) as [[-> Hout]|[_ [r ->]]]; cbn [fmap res_fmap mbind res_bind]; [|by exists r].
    cbn [fmap option_fmap option_map fst]. destruct candidate as [s|]; [by apply Hadmit|].
    destruct (Hout eq_refl) as (w & -> & Hb). unfold apply_snapshot.
    destruct (s_expires_at (snapshot p) <=? now).
    + apply expire_all_total; [by apply Hp|done..|by apply Hgen].
    + destruct (Hp p eq_refl) as [Hs _]. by apply place_snapshot_total.
  - cbn [mbind res_bind fmap option_fmap option_map]. destruct candidate as [s|]; [by apply Hadmit|]. by eexists.
Qed.

(** ** Stability *)

(** A member placed by one pass is placed the same way by the next. *)
Lemma place_again now previous old proofs w m ros :
  place now previous old proofs w = (lifecycle_state m, evidence m, true) →
  advertisement m = w → lifecycle_state m ≠ "expired" → now < s_expires_at (snapshot ros) →
  place now (Some ros) (Some m) proofs w = (lifecycle_state m, evidence m, true).
Proof.
  intros Hp <- Hst Hexp. unfold place in *.
  assert (is_same_incarnation now (Some ros) (Some m) (advertisement m) = true) as ->.
  { cbn. rewrite bool_decide_eq_true_2 by done. apply String.eqb_neq in Hst as ->. cbn. by apply Z.ltb_lt. }
  destruct (is_same_incarnation now previous old (advertisement m)) eqn:Es.
  2: { exfalso. cbn in Hp. injection Hp as _ _ Hf. done. }
  set (offered := match proofs !! _key (advertisement m) with Some p => Some p | None => old ≫= evidence end) in *.
  set (state := if String.eqb (w_lifecycle_state (advertisement m)) "unhealthy" then _ else _) in *.
  assert (state ≠ "active") as Hna by (unfold state; by destruct (String.eqb _ _)).
  cbn [andb mbind option_bind] in Hp |- *. destruct (_ && negb (String.eqb state "unhealthy")) eqn:Ecur.
  - injection Hp as Hl He. assert (match proofs !! _key (advertisement m) with
      | Some p => Some p | None => evidence m end = offered) as ->.
    { rewrite <-He. unfold offered. by destruct (proofs !! _). }
    rewrite Ecur. by rewrite Hl, He.
  - injection Hp as Hl He. unfold offered in Ecur. rewrite <-He. destruct (proofs !! _key (advertisement m)) as [e|].
    + rewrite Ecur. by rewrite Hl.
    + cbn. by rewrite Hl.
Qed.

(** The lists of two passes over the same workers, when the first found every incarnation. *)
Lemma placed_again now previous proofs l ms ms' ros :
  (∀ k e, proofs !! k = Some e → evidence_key e = k) → previous_ok previous →
  NoDup (member_id <$> ms) → members ros = ms → now < s_expires_at (snapshot ros) →
  previous_ok (Some ros) → (∀ w, w ∈ l → same_incarnation now previous w = true) →
  Forall2 (λ w m, advertisement m = w ∧ member_ok m
    ∧ place now previous (old_by_id previous !! w_worker_id w) proofs w
      = (lifecycle_state m, evidence m, same_incarnation now previous w)) l ms →
  Forall2 (λ w m, advertisement m = w ∧ member_ok m
    ∧ place now (Some ros) (old_by_id (Some ros) !! w_worker_id w) proofs w
      = (lifecycle_state m, evidence m, same_incarnation now (Some ros) w)) l ms' →
  ms' = ms.
Proof.
  intros Hproofs Hp Hn Hros Hexp Hpros Hsame H1 H2. apply list_eq_Forall2.
  apply Forall2_same_length_lookup. split; [by rewrite <-(Forall2_length _ _ _ H1), (Forall2_length _ _ _ H2)|].
  intros i m' m Hm' Hm. destruct (Forall2_lookup_r _ _ _ _ _ H1 Hm) as (w & Hw & Hadv & _ & Hpl).
  destruct (Forall2_lookup_r _ _ _ _ _ H2 Hm') as (w' & Hw' & Hadv' & _ & Hpl').
  assert (w' = w) as -> by congruence. clear Hw'.
  rewrite Hsame in Hpl by by eapply list_elem_of_lookup_2.
  assert (old_by_id (Some ros) !! w_worker_id w = Some m) as Hold.
  { apply old_by_id_lookup; [done|]. cbn. rewrite Hros. split; [by eapply list_elem_of_lookup_2|].
    unfold member_id. by rewrite Hadv. }
  pose proof (place_spec now previous (old_by_id previous) proofs Hproofs
    (λ i o, old_members_ok previous i o Hp) _ _ _ _ Hpl) as (_ & Hst & _).
  rewrite Hold in Hpl'. eapply place_again in Hpl; [|done| |exact Hexp].
  - rewrite Hpl in Hpl'. destruct m, m'. cbn in *. congruence.
  - intros He. rewrite He in Hst. by apply mem_spec in Hst.
Qed.

Lemma incarnation_kept now previous proofs l ms ros w :
  (∀ k e, proofs !! k = Some e → evidence_key e = k) → previous_ok previous → previous_ok (Some ros) →
  members ros = ms → now < s_expires_at (snapshot ros) →
  Forall2 (λ w m, advertisement m = w ∧ member_ok m
    ∧ place now previous (old_by_id previous !! w_worker_id w) proofs w
      = (lifecycle_state m, evidence m, same_incarnation now previous w)) l ms →
  w ∈ l → same_incarnation now (Some ros) w = true.
Proof.
  intros Hproofs Hp Hpros Hros Hexp H Hin. apply list_elem_of_lookup in Hin as [i Hi].
  destruct (Forall2_lookup_l _ _ _ _ _ H Hi) as (m & Hm & Hadv & _ & Hpl). unfold same_incarnation.
  rewrite (proj2 (old_by_id_lookup (Some ros) (w_worker_id w) m Hpros)).
  2: { cbn. rewrite Hros. split; [by eapply list_elem_of_lookup_2|]. unfold member_id. by rewrite Hadv. }
  pose proof (place_spec now previous (old_by_id previous) proofs Hproofs
    (λ i o, old_members_ok previous i o Hp) _ _ _ _ Hpl) as (_ & Hst & _).
  cbn. rewrite Hadv, bool_decide_eq_true_2 by done. destruct (String.eqb_spec (lifecycle_state m) "expired") as [He|He].
  - rewrite He in Hst. by apply mem_spec in Hst.
  - cbn. by apply Z.ltb_lt.
Qed.

Lemma filter_nil {A} (f : A → bool) l : (∀ x, x ∈ l → f x = false) → List.filter f l = [].
Proof.
  induction l as [|x l IH]; intros H; [done|]. simpl. rewrite (H x) by by left. apply IH.
  intros y Hy. apply H. by right.
Qed.

(** The changes a pass that places the same members reports: none. *)
Lemma unchanged_lists ms ros :
  previous_ok (Some ros) → members ros = ms → newly_active ms (Some ros) = [] ∧ drained ms (Some ros) = [].
Proof.
  intros Hpros Hros. unfold newly_active, drained. split.
  - rewrite filter_nil; [done|]. intros m Hm.
    rewrite (proj2 (old_by_id_lookup (Some ros) (member_id m) m Hpros)) by (cbn; by rewrite Hros).
    apply andb_negb_r.
  - rewrite filter_nil; [done|]. cbn. rewrite Hros. intros m Hm.
    assert (_key (advertisement m) ∈ (_key ∘ advertisement) <$> ms) as Hin
      by by apply (list_elem_of_fmap_2 (_key ∘ advertisement)).
    by rewrite (proj2 (mem_spec _ _) Hin).
Qed.

(** Reconciliation comes to rest: once a pass over an admissible snapshot adds no worker,
    reconciling the same snapshot again, from the proposed roster and record, with the same
    evidence and at the same time, proposes exactly that roster and record again, at the same
    generation, and reports no addition, activation, drain or expiration. *)
Theorem reconcile_stable now max_workers cluster issuer snap previous water l r ros :
  is_identity cluster = true → is_identity issuer = true → 1 <= max_workers <= MAX_ROSTER_WORKERS →
  snapshot_ok snap → previous_ok previous → NoDup (evidence_key <$> l) → zlen l <= MAX_ROSTER_WORKERS →
  admissible now cluster issuer water previous snap →
  reconcile_membership (Some (Inst snap)) (PStr cluster) (PStr issuer) (Inst now) (Inst <$> previous)
    (Inst <$> water) (PInt max_workers) (Inst (Inst <$> l)) = Ok r →
  additions r = [] → roster r = Some ros → generation ros < _MAX_GENERATION →
  ∃ omitted_count,
  reconcile_membership (Some (Inst snap)) (PStr cluster) (PStr issuer) (Inst now) (Some (Inst ros))
    (Inst <$> high_water r) (PInt max_workers) (Inst (Inst <$> l))
  = Ok (MkReconciliation (Some ros) (high_water r) [] [] [] [] omitted_count).
Proof.
  intros Hcl His Hmax Hs Hp Hl Hlen (Hc1 & Hc2 & Ht & Hadv & _) H Hadd Hr Hgen.
  assert (∀ s, Some snap = Some s → snapshot_ok s) as Hso by by intros ? [= <-].
  apply (reconcile_inv now max_workers cluster issuer (Some snap)) in H; [|done..].
  destruct (outcome_roster _ _ _ _ _ _ _ _ Hp H Hr) as (_ & Hro & Hm & _).
  destruct H as [| | | |snap' w proofs ms [= <-] _ _ _ Hproofs Hpl]; try done.
  destruct Hpl as (Hall & Hroster & -> & Hb). cbn in Hadd, Hr. injection Hr as <-. cbn [high_water].
  set (ros := MkRoster snap ms (next_gen ms previous)) in *.
  assert (previous_ok (Some ros)) as Hpros by (intros ? [= <-]; by split).
  apply binds_spec in Hb as Hw.
  destruct (reconcile_total now max_workers cluster issuer (Some snap) (Some ros) (Some w) l) as [r' Hr']; try done.
  { intros ? [= <-]. by rewrite Hw. }
  { intros ? [= <-]. repeat (split; [done|]). split; [|split; [cbn; lia|done]]. exists w.
    rewrite Hw. cbn. split; [done|]. split; [lia|done]. }
  { intros ? [= <-]. do 2 (split; [done|]). split; [done|]. split.
    - intros ? [= <-]. rewrite Hw. cbn. auto.
    - intros ? [= <-]. apply forallb_forall. intros x Hx%list_elem_of_In. unfold replaces. cbn.
      destruct Hs as (_ & _ & _ & _ & _ & Hids & _).
      assert (workers_by_id (s_workers snap) !! w_worker_id x = Some x) as -> by by apply dict_by_lookup.
      rewrite Z.ltb_irrefl, String.eqb_refl. done. }
  cbn [fmap option_fmap option_map] in Hr' |- *. rewrite Hr'.
  apply (reconcile_inv now max_workers cluster issuer (Some snap) (Some ros) (Some w)) in Hr'; [|done..].
  destruct Hr' as [| | | |snap' w' proofs' ms' [= <-] _ _ _ Hproofs' Hpl']; try done.
  destruct Hpl' as (Hall' & _ & -> & Hb'). apply binds_spec in Hb' as Hw'.
  assert (proofs' = proofs) as -> by (unfold proofs_from in *; congruence).
  assert (∀ k e, proofs !! k = Some e → evidence_key e = k) as Hk by by intros; eapply proofs_from_key.
  apply roster_of_ok in Hro as (_ & _ & _ & Hn & _).
  assert (∀ x, x ∈ selected_workers max_workers false snap previous → same_incarnation now previous x = true) as Hsame.
  { intros x Hx. destruct (same_incarnation now previous x) eqn:E; [done|].
    assert (x ∈ @nil WorkerAdvertisement) as Hnil; [|by apply elem_of_nil in Hnil].
    rewrite <-Hadd. apply elem_of_filter_bool. by rewrite E. }
  assert (ms' = ms) as -> by (eapply (placed_again now previous proofs _ ms ms' ros); try done; cbn; lia).
  destruct (unchanged_lists ms ros Hpros eq_refl) as [-> ->].
  rewrite filter_nil.
  2: { intros x Hx. rewrite (incarnation_kept now previous proofs (selected_workers max_workers false snap previous) ms ros x);
       try done. cbn; lia. }
  eexists. rewrite Hw, Hw'. do 3 f_equal. unfold next_gen at 1, next_generation. cbn.
  by rewrite bool_decide_eq_true_2, Z.add_0_r by done.
Qed.

(** ** Examples *)

Module MembershipSample.

Definition zeros : string := "0000000000000000000000000000000000000000000000000000000000000000".
Definition worker : WorkerAdvertisement := MkWorker "w1" "https://10.0.0.1:443" 1 "active" [] 1.
Definition snap : MembershipSnapshot := MkSnapshot "c" "i" 1 0 1000 [worker] zeros.
Definition water : MembershipHighWater := MkWater "c" "i" 1 zeros.
Definition proof : CapabilityEvidence := MkEvidence "w1" "https://10.0.0.1:443" 1 5 500.

(** The first pass admits the worker on probation, the second activates it. *)
Definition on_probation : MembershipRoster := MkRoster snap [MkMember worker "probation" None] 1.
Definition active : MembershipRoster := MkRoster snap [MkMember worker "active" (Some proof)] 2.
Definition first : MembershipReconciliation := MkReconciliation (Some on_probation) (Some water) [worker] [] [] [] 0.
Definition second : MembershipReconciliation := MkReconciliation (Some active) (Some water) [] [worker] [] [] 0.

Lemma first_is :
  reconcile_membership (Some (Inst snap)) (PStr "c") (PStr "i") (Inst 10) None None (PInt 4) (Inst [Inst proof])
  = Ok first.
Proof. vm_compute. reflexivity. Qed.

Lemma second_is :
  reconcile_membership (Some (Inst snap)) (PStr "c") (PStr "i") (Inst 10) (Some (Inst on_probation))
    (Some (Inst water)) (PInt 4) (Inst [Inst proof]) = Ok second.
Proof. vm_compute. reflexivity. Qed.

(** On an outage after the snapshot's expiry the members expire. *)
Lemma third_is :
  reconcile_membership None (PStr "c") (PStr "i") (Inst 1000) (Some (Inst active)) (Some (Inst water)) (PInt 4)
    (Inst []) = Ok (MkReconciliation (Some (MkRoster snap [MkMember worker "expired" None] 3)) (Some water)
                      [] [] [] [worker] 0).
Proof. vm_compute. reflexivity. Qed.

Lemma snap_ok : snapshot_ok snap.
Proof. repeat (split; [by vm_compute|]). split; [apply NoDup_singleton|by vm_compute]. Qed.

Lemma candidate_ok : ∀ s, Some snap = Some s → snapshot_ok s.
Proof. intros ? [= <-]. exact snap_ok. Qed.

Lemma on_probation_ok : roster_ok on_probation.
Proof. split; [exact snap_ok|]. split; [by repeat constructor|by vm_compute]. Qed.

Lemma previous_probation_ok : previous_ok (Some on_probation).
Proof. intros ? [= <-]. exact on_probation_ok. Qed.

Lemma admissible_again : admissible 10 "c" "i" (Some water) (Some on_probation) snap.
Proof.
  do 2 (split; [done|]). split; [done|]. split; [intros ? [= <-]; by repeat split; right|]. by intros ? [= <-].
Qed.

End MembershipSample.

Lemma proposed_roster_well_formed_witness : roster_ok MembershipSample.active.
Proof.
  exact (proj1 (proposed_roster_well_formed 10 4 "c" "i" (Some MembershipSample.snap) (Some MembershipSample.on_probation)
    (Some MembershipSample.water) [MembershipSample.proof] MembershipSample.second MembershipSample.active
    MembershipSample.candidate_ok MembershipSample.previous_probation_ok MembershipSample.second_is eq_refl)).
Defined.

Lemma high_water_never_rolls_back_witness : ∃ w, high_water MembershipSample.second = Some w ∧ h_cluster_id w = "c".
Proof.
  destruct (high_water_never_rolls_back 10 4 "c" "i" (Some MembershipSample.snap) (Some MembershipSample.on_probation)
    (Some MembershipSample.water) [MembershipSample.proof] MembershipSample.second MembershipSample.water
    MembershipSample.candidate_ok MembershipSample.previous_probation_ok MembershipSample.second_is eq_refl)
    as (w & Hw & Hc & _).
  exists w. split; [exact Hw|exact Hc].
Defined.

Lemma active_needs_probation_witness :
  ∃ e, evidence (MkMember MembershipSample.worker "active" (Some MembershipSample.proof)) = Some e
    ∧ c_checked_at e <= 10 < c_expires_at e.
Proof.
  destruct (active_needs_probation 10 4 "c" "i" (Some MembershipSample.snap) (Some MembershipSample.on_probation)
    (Some MembershipSample.water) [MembershipSample.proof] MembershipSample.second MembershipSample.active
    (MkMember MembershipSample.worker "active" (Some MembershipSample.proof))
    MembershipSample.candidate_ok MembershipSample.previous_probation_ok MembershipSample.second_is eq_refl
    ltac:(by left) eq_refl) as (_ & (e & He & _ & Ht) & _).
  exists e. split; [exact He|exact Ht].
Defined.

Lemma members_accounted_witness :
  kept (MkMember MembershipSample.worker "probation" None) MembershipSample.second.
Proof.
  destruct (members_accounted 10 4 "c" "i" (Some MembershipSample.snap) MembershipSample.on_probation
    (Some MembershipSample.water) [MembershipSample.proof] MembershipSample.second
    (MkMember MembershipSample.worker "probation" None)
    MembershipSample.candidate_ok MembershipSample.on_probation_ok MembershipSample.second_is
    ltac:(by left) ltac:(done)) as [[H _]|[(_ & H & _)|(_ & _ & H)]].
  - exact H.
  - by apply elem_of_nil in H.
  - by apply elem_of_nil in H.
Defined.

Lemma reconcile_total_witness :
  ∃ r, reconcile_membership (Some (Inst MembershipSample.snap)) (PStr "c") (PStr "i") (Inst 10)
    (Some (Inst MembershipSample.on_probation)) (Some (Inst MembershipSample.water)) (PInt 4)
    (Inst [Inst MembershipSample.proof]) = Ok r.
Proof.
  apply (reconcile_total 10 4 "c" "i" (Some MembershipSample.snap) (Some MembershipSample.on_probation)
    (Some MembershipSample.water) [MembershipSample.proof]).
  - reflexivity.
  - reflexivity.
  - done.
  - exact MembershipSample.candidate_ok.
  - exact MembershipSample.previous_probation_ok.
  - apply NoDup_singleton.
  - done.
  - by intros w [= <-].
  - intros p [= <-]. do 2 (split; [done|]). split; [|done]. by exists MembershipSample.water.
  - intros s [= <-]. exact MembershipSample.admissible_again.
Defined.

Lemma reconcile_stable_witness :
  ∃ n, reconcile_membership (Some (Inst MembershipSample.snap)) (PStr "c") (PStr "i") (Inst 10)
    (Some (Inst MembershipSample.active)) (Some (Inst MembershipSample.water)) (PInt 4)
    (Inst [Inst MembershipSample.proof])
  = Ok (MkReconciliation (Some MembershipSample.active) (Some MembershipSample.water) [] [] [] [] n).
Proof.
  refine (reconcile_stable 10 4 "c" "i" MembershipSample.snap (Some MembershipSample.on_probation)
    (Some MembershipSample.water) [MembershipSample.proof] MembershipSample.second MembershipSample.active
    eq_refl eq_refl _ MembershipSample.snap_ok MembershipSample.previous_probation_ok _ _
    MembershipSample.admissible_again MembershipSample.second_is eq_refl eq_refl _); [done|apply NoDup_singleton|done|done].
Defined.
