(* ===== verification/ConsistentHash.v ===== *)
(** Consistent hashing: [domain/consistent_hash.py].

    [HashRing] keeps [replicas] virtual positions per node on a ring of 32-bit hashes and maps
    a key to the node at the next position clockwise.  The specification is a distance: the
    owner of a key is the node with a position nearest clockwise.  The theorems show that,
    as long as no two nodes share a position, the ring implements the specification, a node
    that joins or leaves moves only its own keys, and successor lists are complete; and that
    a shared position breaks the ring.

    MD5 is written out, so that positions can be computed. *)
From S2P Require Import Prelude Sha256.
From Stdlib Require Import Ascii.

Local Open Scope Z_scope.

(** ** MD5 *)

Module Md5.

Definition rotl (n x : Z) : Z := Z.lor (w32 (Z.shiftl x n)) (Z.shiftr x (32 - n)).

(** The constants of the standard, [floor(2 ^ 32 * abs(sin(i + 1)))]. *)
Definition constants : list Z := [
  3614090360; 3905402710; 606105819; 3250441966; 4118548399; 1200080426; 2821735955; 4249261313;
  1770035416; 2336552879; 4294925233; 2304563134; 1804603682; 4254626195; 2792965006; 1236535329;
  4129170786; 3225465664; 643717713; 3921069994; 3593408605; 38016083; 3634488961; 3889429448;
  568446438; 3275163606; 4107603335; 1163531501; 2850285829; 4243563512; 1735328473; 2368359562;
  4294588738; 2272392833; 1839030562; 4259657740; 2763975236; 1272893353; 4139469664; 3200236656;
  681279174; 3936430074; 3572445317; 76029189; 3654602809; 3873151461; 530742520; 3299628645;
  4096336452; 1126891415; 2878612391; 4237533241; 1700485571; 2399980690; 4293915773; 2240044497;
  1873313359; 4264355552; 2734768916; 1309151649; 4149444226; 3174756917; 718787259; 3951481745].

Definition shifts (round : nat) : list Z :=
  match round with
  | 0%nat => [7; 12; 17; 22]
  | 1%nat => [5; 9; 14; 20]
  | 2%nat => [4; 11; 16; 23]
  | _ => [6; 10; 15; 21]
  end.

Definition mix (round : nat) (b c d : Z) : Z :=
  match round with
  | 0%nat => Z.lor (Z.land b c) (Z.land (Z.lxor b 4294967295) d)
  | 1%nat => Z.lor (Z.land d b) (Z.land (Z.lxor d 4294967295) c)
  | 2%nat => Z.lxor b (Z.lxor c d)
  | _ => Z.lxor c (Z.lor b (Z.lxor d 4294967295))
  end.

Definition message_index (round i : nat) : nat :=
  match round with
  | 0 => i
  | 1 => (5 * i + 1) mod 16
  | 2 => (3 * i + 5) mod 16
  | _ => (7 * i) mod 16
  end%nat.

Definition step (m : list Z) (s : Z * Z * Z * Z) (i : nat) : Z * Z * Z * Z :=
  let '(a, b, c, d) := s in
  let round := (i / 16)%nat in
  let f := add32 (mix round b c d)
             (add32 a (add32 (nth i constants 0) (nth (message_index round i) m 0))) in
  (d, add32 b (rotl (nth (i mod 4) (shifts round) 0) f), b, c).

Definition compress (s : Z * Z * Z * Z) (m : list Z) : Z * Z * Z * Z :=
  let '(a, b, c, d) := s in
  let '(a', b', c', d') := foldl (step m) s (seq 0 64) in
  (add32 a a', add32 b b', add32 c c', add32 d d').

Definition le_bytes (n : nat) (z : Z) : list Z :=
  (λ i, Z.land (Z.shiftr z (8 * Z.of_nat i)) 255) <$> seq 0 n.

Definition pad (l : list Z) : list Z :=
  l ++ 128 :: replicate (Z.to_nat ((55 - zlen l) mod 64)) 0 ++ le_bytes 8 (8 * zlen l).

Fixpoint words_of (l : list Z) : list Z :=
  match l with
  | a :: b :: c :: d :: l' =>
      Z.lor a (Z.lor (Z.shiftl b 8) (Z.lor (Z.shiftl c 16) (Z.shiftl d 24))) :: words_of l'
  | _ => []
  end.

Fixpoint blocks (n : nat) (s : Z * Z * Z * Z) (ws : list Z) : Z * Z * Z * Z :=
  match n with
  | O => s
  | S n' => blocks n' (compress s (take 16 ws)) (drop 16 ws)
  end.

(** [hashlib.md5(s).digest()] *)
Definition digest (s : string) : list Z :=
  let ws := words_of (pad (text_bytes s)) in
  let '(a, b, c, d) := blocks (length ws / 16) (1732584193, 4023233417, 2562383102, 271733878) ws in
  le_bytes 4 a ++ le_bytes 4 b ++ le_bytes 4 c ++ le_bytes 4 d.

Example digest_abc :
  digest "abc" = [144; 1; 80; 152; 60; 210; 79; 176; 214; 150; 63; 125; 40; 225; 127; 114].
Proof. vm_compute. reflexivity. Qed.

End Md5.

(** ** The ring *)

(** [struct.unpack(">I", hashlib.md5(key.encode("utf-8")).digest()[:4])[0]] *)
Definition _ring_hash (key : string) : Z :=
  match Md5.digest key with
  | b0 :: b1 :: b2 :: b3 :: _ => b0 * 16777216 + b1 * 65536 + b2 * 256 + b3
  | _ => 0
  end.

(** The position of a virtual node, [_ring_hash(f"{node}:{i}")]. *)
Definition position (node : string) (i : nat) : Z := _ring_hash (node +:+ ":" +:+ pretty (N.of_nat i)).

Record HashRing := MkRing {
  _replicas : nat;
  _ring : list Z;
  _ring_to_node : gmap Z string;
  _nodes : gset string
}.

Definition HashRing_init (replicas : Z) : res HashRing :=
  if replicas <? 1 then throw ValueError "replicas must be at least 1"
  else Ok (MkRing (Z.to_nat replicas) [] ∅ ∅).

(** [bisect.bisect_right(l, x)]: binary search between [lo] and [hi]. *)
Fixpoint bisect_search (fuel : nat) (l : list Z) (x : Z) (lo hi : nat) : nat :=
  match fuel with
  | O => lo
  | S f =>
      if (lo <? hi)%nat then
        let mid := ((lo + hi) / 2)%nat in
        if x <? nth mid l 0 then bisect_search f l x lo mid else bisect_search f l x (S mid) hi
      else lo
  end.

Definition bisect_right (l : list Z) (x : Z) : nat := bisect_search (length l) l x 0 (length l).

(** [bisect.insort(l, x)] *)
Definition insort (l : list Z) (x : Z) : list Z :=
  take (bisect_right l x) l ++ x :: drop (bisect_right l x) l.

(** [l.remove(x)], with the [ValueError] of a missing element caught. *)
Fixpoint remove_first (x : Z) (l : list Z) : list Z :=
  match l with
  | [] => []
  | y :: l' => if y =? x then l' else y :: remove_first x l'
  end.

Definition add_position (node : string) (r : list Z * gmap Z string) (i : nat) : list Z * gmap Z string :=
  let h := position node i in (insort r.1 h, <[h := node]> r.2).

Definition add_node (r : HashRing) (node : string) : HashRing :=
  if bool_decide (node ∈ _nodes r) then r
  else
    let '(ring, ring_to_node) :=
      foldl (add_position node) (_ring r, _ring_to_node r) (seq 0 (_replicas r)) in
    MkRing (_replicas r) ring ring_to_node ({[node]} ∪ _nodes r).

Definition remove_position (node : string) (r : list Z * gmap Z string) (i : nat) : list Z * gmap Z string :=
  let h := position node i in (remove_first h r.1, delete h r.2).

Definition remove_node (r : HashRing) (node : string) : HashRing :=
  if bool_decide (node ∈ _nodes r) then
    let '(ring, ring_to_node) :=
      foldl (remove_position node) (_ring r, _ring_to_node r) (seq 0 (_replicas r)) in
    MkRing (_replicas r) ring ring_to_node (_nodes r ∖ {[node]})
  else r.

(** [self._ring_to_node[h]] *)
Definition node_at (r : HashRing) (h : Z) : res string :=
  match _ring_to_node r !! h with Some n => Ok n | None => throw KeyError (pretty h) end.

(** The index wraps around. *)
Definition wrap (r : HashRing) (idx : nat) : nat := if (length (_ring r) <=? idx)%nat then 0 else idx.

Definition get_node (r : HashRing) (key : string) : res (option string) :=
  match _ring r with
  | [] => Ok None
  | _ =>
      let idx := wrap r (bisect_right (_ring r) (_ring_hash key)) in
      n ← node_at r (nth idx (_ring r) 0);
      Ok (Some n)
  end.

(** The loop of [get_nodes]: [fuel] is the length of the ring; [seen] is the set of the
    nodes of [result], kept in reverse here. *)
Fixpoint walk (fuel : nat) (r : HashRing) (count : Z) (idx : nat) (result : list string)
  : res (list string) :=
  match fuel with
  | O => Ok (reverse result)
  | S f =>
      let idx := wrap r idx in
      node ← node_at r (nth idx (_ring r) 0);
      if mem node result then walk f r count (S idx) result
      else if count <=? zlen (node :: result) then Ok (reverse (node :: result))
      else walk f r count (S idx) (node :: result)
  end.

Definition get_nodes (r : HashRing) (key : string) (count : Z) : res (list string) :=
  if (length (_ring r) =? 0)%nat || (count <? 1) then Ok []
  else walk (length (_ring r)) r count (bisect_right (_ring r) (_ring_hash key)) [].

Definition nodes (r : HashRing) : gset string := _nodes r.
Definition size (r : HashRing) : Z := Z.of_nat (base.size (_nodes r)).

(** ** The shared position *)

(** Nodes that share a position break the ring: the names [n47651] and [n73991] have the
    same first position.  With one replica each, once both joined and one left, every lookup
    raises [KeyError], although the other is a member. *)
Theorem shared_position_breaks_ring key :
  let r := remove_node (add_node (add_node (MkRing 1 [] ∅ ∅) "n47651") "n73991") "n47651" in
  nodes r = {["n73991"]} ∧ get_node r key = throw KeyError "1196326569".
Proof.
  assert (remove_node (add_node (add_node (MkRing 1 [] ∅ ∅) "n47651") "n73991") "n47651"
    = MkRing 1 [1196326569] ∅ {["n73991"]}) as ->.
  { vm_compute. reflexivity. }
  split; [done|]. unfold get_node. cbn [_ring].
  assert (∀ idx, wrap (MkRing 1 [1196326569] ∅ {["n73991"]}) idx = 0%nat) as Hw.
  { intros [|idx]; [done|]. done. }
  rewrite Hw. vm_compute. reflexivity.
Qed.

(** ** Positions and distances *)

Definition ring_size : Z := 4294967296.

Lemma le_byte_range i z : 0 <= Z.land (Z.shiftr z i) 255 < 256.
Proof. change 255 with (Z.ones 8). rewrite Z.land_ones by lia. change 256 with (2 ^ 8). apply Z.mod_pos_bound. lia. Qed.

Lemma ring_hash_range key : 0 <= _ring_hash key < ring_size.
Proof.
  unfold _ring_hash, Md5.digest, ring_size. destruct (Md5.blocks _ _ _) as [[[a b] c] d]. cbn [Md5.le_bytes seq fmap list_fmap app].
  pose proof (le_byte_range (8 * Z.of_nat 0) a). pose proof (le_byte_range (8 * Z.of_nat 1) a).
  pose proof (le_byte_range (8 * Z.of_nat 2) a). pose proof (le_byte_range (8 * Z.of_nat 3) a).
  cbn. cbn in *. lia.
Qed.

(** From here on a hash is any number in range. *)
#[local] Opaque _ring_hash.

Lemma position_range node i : 0 <= position node i < ring_size.
Proof. apply ring_hash_range. Qed.

#[local] Opaque position.

(** The distance clockwise from a key's hash to a position; the position of the hash itself is
    the farthest, since the search is for a greater one. *)
Definition distance (h p : Z) : Z := (p - h - 1) mod ring_size.

Lemma distance_inj h p q :
  0 <= p < ring_size → 0 <= q < ring_size → distance h p = distance h q → p = q.
Proof.
  unfold distance, ring_size. intros Hp Hq H.
  pose proof (Z.div_mod (p - h - 1) 4294967296). pose proof (Z.div_mod (q - h - 1) 4294967296).
  assert ((p - h - 1) / 4294967296 = (q - h - 1) / 4294967296) by lia. lia.
Qed.

(** Greater positions come first, in order, then the others, in order. *)
Lemma distance_spec h p :
  0 <= h < ring_size → 0 <= p < ring_size →
  distance h p = if h <? p then p - h - 1 else p - h - 1 + ring_size.
Proof.
  unfold distance, ring_size. intros Hh Hp. destruct (Z.ltb_spec h p); [apply Z.mod_small; lia|].
  rewrite <-(Z_mod_plus_full _ 1). apply Z.mod_small. lia.
Qed.

(** ** Sorted lists *)

Definition sorted (l : list Z) : Prop := StronglySorted Z.le l.

Lemma sorted_nth l i j :
  sorted l → (i <= j)%nat → (j < length l)%nat → nth i l 0 <= nth j l 0.
Proof.
  intros H. revert i j. induction H as [|x l _ IH Hx]; intros i j Hij Hj; simpl in *; [lia|].
  destruct i as [|i], j as [|j]; simpl; try lia.
  - rewrite Forall_forall in Hx. apply Hx, list_elem_of_In, nth_In. lia.
  - apply IH; lia.
Qed.

Lemma bisect_search_spec fuel l x lo hi :
  sorted l → (hi <= length l)%nat → (lo <= hi)%nat → (hi - lo <= fuel)%nat →
  (∀ i, (i < lo)%nat → nth i l 0 <= x) → (∀ i, (hi <= i < length l)%nat → x < nth i l 0) →
  let k := bisect_search fuel l x lo hi in
  (k <= length l)%nat ∧ (∀ i, (i < k)%nat → nth i l 0 <= x) ∧ (∀ i, (k <= i < length l)%nat → x < nth i l 0).
Proof.
  intros Hs. revert lo hi. induction fuel as [|f IH]; intros lo hi Hhi Hlo Hf Hl Hr; cbn [bisect_search].
  - assert (lo = hi) as -> by lia. by split_and!.
  - destruct (Nat.ltb_spec lo hi) as [Hlt|Hge].
    2: { assert (lo = hi) as -> by lia. by split_and!. }
    assert (lo <= (lo + hi) / 2 < hi)%nat as Hmid.
    { split; [apply Nat.div_le_lower_bound; lia|apply Nat.Div0.div_lt_upper_bound; lia]. }
    destruct (Z.ltb_spec x (nth ((lo + hi) / 2) l 0)) as [Hx|Hx].
    + apply IH; [lia..|done|]. intros i Hi. pose proof (sorted_nth l ((lo + hi) / 2) i Hs). lia.
    + apply IH; [lia..| |done]. intros i Hi. pose proof (sorted_nth l i ((lo + hi) / 2) Hs). lia.
Qed.

Lemma bisect_right_spec l x :
  sorted l → let k := bisect_right l x in
  (k <= length l)%nat ∧ (∀ i, (i < k)%nat → nth i l 0 <= x) ∧ (∀ i, (k <= i < length l)%nat → x < nth i l 0).
Proof. intros H. apply bisect_search_spec; [done|lia..]. Qed.

(** The two halves of a split sorted list. *)
Lemma sorted_app_middle l1 x l2 :
  sorted (l1 ++ l2) → (∀ y, y ∈ l1 → y <= x) → (∀ y, y ∈ l2 → x <= y) → sorted (l1 ++ x :: l2).
Proof.
  intros H H1 H2. unfold sorted in *. induction l1 as [|y l1 IH]; simpl in *.
  - constructor; [done|]. by apply Forall_forall.
  - apply StronglySorted_inv in H as [H Hy]. constructor.
    + apply IH; [done|]. intros z Hz. apply H1. by right.
    + rewrite Forall_app, Forall_cons in *. destruct Hy. split_and!; [done| |done]. apply H1. by left.
Qed.

Lemma elem_of_nth l (y : Z) : y ∈ l → ∃ i, (i < length l)%nat ∧ nth i l 0 = y.
Proof. intros H%list_elem_of_In. by apply In_nth. Qed.

Lemma insort_spec l x : sorted l → sorted (insort l x) ∧ insort l x ≡ₚ x :: l.
Proof.
  intros Hs. destruct (bisect_right_spec l x Hs) as (Hk & Hl & Hr). unfold insort.
  set (k := bisect_right l x) in *. split.
  - apply sorted_app_middle; [by rewrite take_drop| |].
    + intros y (i & Hi & <-)%elem_of_nth. rewrite length_take in Hi.
      rewrite nth_firstn. destruct (Nat.ltb_spec i k); [apply Hl; lia|lia].
    + intros y (i & Hi & <-)%elem_of_nth. rewrite length_drop in Hi.
      rewrite nth_skipn. apply Z.lt_le_incl, Hr. lia.
  - rewrite <-Permutation_middle. by rewrite take_drop.
Qed.

Lemma remove_first_perm x l : x ∈ l → l ≡ₚ x :: remove_first x l.
Proof.
  induction l as [|y l IH]; intros H; [by apply elem_of_nil in H|]. simpl.
  destruct (Z.eqb_spec y x) as [->|Hne]; [done|]. apply elem_of_cons in H as [->|H]; [done|].
  rewrite (IH H) at 1. constructor.
Qed.

Lemma remove_first_sorted x l : sorted l → sorted (remove_first x l).
Proof.
  unfold sorted. induction 1 as [|y l Hl IH Hy]; simpl; [constructor|].
  destruct (y =? x); [done|]. constructor; [done|]. rewrite Forall_forall in Hy |- *. intros z Hz. apply Hy.
  clear -Hz. induction l as [|a l IH]; simpl in *; [done|]. destruct (a =? x); [by right|].
  apply elem_of_cons in Hz as [->|Hz]; [by left|right; by apply IH].
Qed.

(** ** The invariant *)

Definition places (k : nat) (node : string) : list Z := position node <$> seq 0 k.

(** The position belongs to a member. *)
Definition holds (k : nat) (members : gset string) (p : Z) (node : string) : Prop :=
  node ∈ members ∧ p ∈ places k node.

(** No two of the nodes share a position. *)
Definition collision_free (k : nat) (universe : gset string) : Prop :=
  ∀ n m p, n ∈ universe → m ∈ universe → p ∈ places k n → p ∈ places k m → n = m.

Definition all_places (k : nat) (members : gset string) : list Z := elements members ≫= places k.

Definition ring_inv (r : HashRing) : Prop :=
  sorted (_ring r) ∧ _ring r ≡ₚ all_places (_replicas r) (_nodes r)
  ∧ ∀ p n, _ring_to_node r !! p = Some n ↔ holds (_replicas r) (_nodes r) p n.

Lemma add_positions node l ring m :
  sorted ring →
  let r := foldl (add_position node) (ring, m) l in
  sorted r.1 ∧ r.1 ≡ₚ (position node <$> l) ++ ring
  ∧ ∀ p n, r.2 !! p = Some n ↔ (p ∈ position node <$> l ∧ n = node) ∨ (p ∉ position node <$> l) ∧ m !! p = Some n.
Proof.
  intros Hs. induction l as [|i l IH] using rev_ind; simpl.
  - split_and!; [done|done|]. intros p n. rewrite elem_of_nil. tauto.
  - rewrite foldl_snoc. destruct IH as (IH1 & IH2 & IH3). unfold add_position at 1. simpl.
    destruct (insort_spec _ (position node i) IH1) as [H1 H2]. split; [exact H1|]. split.
    + rewrite H2, IH2, fmap_app. cbn. rewrite <-app_assoc. by apply Permutation_middle.
    + intros p n. unfold add_position at 1. cbn [snd].
      rewrite fmap_app, elem_of_app. cbn. rewrite list_elem_of_singleton.
      destruct (decide (p = position node i)) as [->|Hne].
      * rewrite lookup_insert_eq. split; [intros [= <-]; auto|]. intros [[_ ->]|[Hn _]]; [done|]. tauto.
      * rewrite lookup_insert_ne by done. rewrite IH3. tauto.
Qed.

Lemma all_places_union k node members :
  node ∉ members → all_places k ({[node]} ∪ members) ≡ₚ places k node ++ all_places k members.
Proof. intros H. unfold all_places. by rewrite elements_union_singleton. Qed.

Lemma all_places_elem k members p : p ∈ all_places k members ↔ ∃ n, holds k members p n.
Proof.
  unfold all_places, holds. rewrite list_elem_of_bind. setoid_rewrite elem_of_elements.
  split; intros (n & ? & ?); by exists n.
Qed.

(** A node that joins keeps the invariant. *)
Lemma add_node_inv r node :
  ring_inv r → collision_free (_replicas r) ({[node]} ∪ _nodes r) → ring_inv (add_node r node).
Proof.
  intros (Hs & Hp & Hm) Hcf. unfold add_node. destruct (bool_decide_reflect (node ∈ _nodes r)) as [|Hn]; [by split_and!|].
  destruct (add_positions node (seq 0 (_replicas r)) (_ring r) (_ring_to_node r) Hs) as (H1 & H2 & H3).
  destruct (foldl _ _ _) as [ring m]. cbn in *. split; [exact H1|]. split.
  - cbn. rewrite H2, Hp. by rewrite all_places_union.
  - intros p n. cbn. rewrite H3, Hm. unfold holds. fold (places (_replicas r) node).
    rewrite elem_of_union, elem_of_singleton. split.
    + intros [[? ->]|[_ [? ?]]]; auto.
    + intros [[->|Hin] Hpl]; [by left|]. right. split; [|done]. intros Hpl'. apply Hn.
      by rewrite (Hcf node n p) by (done || set_solver).
Qed.

Lemma remove_positions node l ring m :
  sorted ring → (∃ rest, ring ≡ₚ (position node <$> l) ++ rest) →
  let r := foldl (remove_position node) (ring, m) l in
  sorted r.1 ∧ ring ≡ₚ (position node <$> l) ++ r.1
  ∧ ∀ p n, r.2 !! p = Some n ↔ (p ∉ position node <$> l) ∧ m !! p = Some n.
Proof.
  revert ring m. induction l as [|i l IH]; intros ring m Hs [rest Hr]; cbn.
  - split_and!; [done|done|]. intros p n. rewrite elem_of_nil. tauto.
  - assert (position node i ∈ ring) as Hin by (rewrite Hr; by left).
    pose proof (remove_first_perm _ _ Hin) as Hperm.
    destruct (IH (remove_first (position node i) ring) (delete (position node i) m)) as (H1 & H2 & H3).
    + by apply remove_first_sorted.
    + exists rest. rewrite Hperm in Hr. by apply Permutation_cons_inv in Hr.
    + split; [exact H1|]. split; [etrans; [exact Hperm|]; exact (perm_skip _ H2)|].
      intros p n. rewrite H3, lookup_delete_Some, elem_of_cons. split; [intros (? & ? & ?)|intros (Hne & ?)].
      * split; [|done]. intros [->|?]; done.
      * split; [by intros ?; apply Hne; right|]. split; [|done]. intros Heq. apply Hne. by left.
Qed.

(** A node that leaves keeps the invariant. *)
Lemma remove_node_inv r node :
  ring_inv r → collision_free (_replicas r) (_nodes r) → ring_inv (remove_node r node).
Proof.
  intros (Hs & Hp & Hm) Hcf. unfold remove_node. destruct (bool_decide_reflect (node ∈ _nodes r)) as [Hn|]; [|by split_and!].
  assert (_nodes r = {[node]} ∪ (_nodes r ∖ {[node]})) as Hset.
  { apply set_eq. intros x. destruct (decide (x = node)); set_solver. }
  assert (all_places (_replicas r) (_nodes r) ≡ₚ places (_replicas r) node ++ all_places (_replicas r) (_nodes r ∖ {[node]}))
    as Hall by (rewrite Hset at 1; apply all_places_union; set_solver).
  destruct (remove_positions node (seq 0 (_replicas r)) (_ring r) (_ring_to_node r) Hs) as (H1 & H2 & H3).
  { eexists. rewrite Hp. exact Hall. }
  destruct (foldl _ _ _) as [ring m]. cbn in *. split; [exact H1|]. split.
  - cbn. apply (Permutation_app_inv_l (places (_replicas r) node)). by rewrite <-Hall, <-Hp.
  - intros p n. cbn. rewrite H3, Hm. unfold holds. fold (places (_replicas r) node). split.
    + intros [Hno [Hin Hpl]]. split; [|done]. apply elem_of_difference. split; [done|].
      intros ->%elem_of_singleton. done.
    + intros [[Hin Hne]%elem_of_difference Hpl]. split; [|done]. intros Hpl'. apply Hne, elem_of_singleton.
      by eapply Hcf.
Qed.

(** ** Histories *)

Inductive ring_event := Join (node : string) | Leave (node : string).

Definition apply_event (r : HashRing) (e : ring_event) : HashRing :=
  match e with Join n => add_node r n | Leave n => remove_node r n end.

Definition ring_run (replicas : nat) (events : list ring_event) : HashRing :=
  foldl apply_event (MkRing replicas [] ∅ ∅) events.

(** The nodes that ever joined. *)
Definition joined (events : list ring_event) : gset string :=
  list_to_set (omap (λ e, match e with Join n => Some n | Leave _ => None end) events).

(** The members after a history, as a set. *)
Definition members_after (events : list ring_event) : gset string :=
  foldl (λ s e, match e with Join n => {[n]} ∪ s | Leave n => s ∖ {[n]} end) ∅ events.

Lemma add_node_fields r node :
  _replicas (add_node r node) = _replicas r ∧ _nodes (add_node r node) = {[node]} ∪ _nodes r.
Proof.
  unfold add_node. destruct (bool_decide_reflect (node ∈ _nodes r)); [split; [done|set_solver]|].
  by destruct (foldl _ _ _).
Qed.

Lemma remove_node_fields r node :
  _replicas (remove_node r node) = _replicas r ∧ _nodes (remove_node r node) = _nodes r ∖ {[node]}.
Proof.
  unfold remove_node. destruct (bool_decide_reflect (node ∈ _nodes r)); [|split; [done|set_solver]].
  by destruct (foldl _ _ _).
Qed.

Lemma collision_free_mono k U V : U ⊆ V → collision_free k V → collision_free k U.
Proof. intros H Hc n m p Hn Hm. by apply Hc; apply H. Qed.

Lemma ring_run_inv k events :
  collision_free k (joined events) →
  ring_inv (ring_run k events) ∧ _replicas (ring_run k events) = k
  ∧ _nodes (ring_run k events) = members_after events ∧ _nodes (ring_run k events) ⊆ joined events.
Proof.
  unfold ring_run, members_after. induction events as [|e l IH] using rev_ind; intros Hc.
  - split; [|set_solver]. split; [constructor|]. split; [done|]. intros p n. cbn.
    rewrite lookup_empty. split; [done|]. intros [? _]. set_solver.
  - rewrite !foldl_snoc. assert (joined l ⊆ joined (l ++ [e])) as Hsub.
    { unfold joined. rewrite omap_app, list_to_set_app_L. set_solver. }
    destruct IH as (Hi & Hk & Hn & Hs); [by eapply collision_free_mono|]. destruct e as [n|n]; cbn [apply_event].
    + destruct (add_node_fields (foldl apply_event (MkRing k [] ∅ ∅) l) n) as [-> ->].
      assert ({[n]} ∪ _nodes (foldl apply_event (MkRing k [] ∅ ∅) l) ⊆ joined (l ++ [Join n])) as Hsub'.
      { unfold joined in *. rewrite omap_app, list_to_set_app_L in *. set_solver. }
      split; [|by rewrite Hn in *]. apply add_node_inv; [done|]. rewrite Hk. by eapply collision_free_mono.
    + destruct (remove_node_fields (foldl apply_event (MkRing k [] ∅ ∅) l) n) as [-> ->].
      split; [|rewrite Hn in *; split_and!; [done|done|set_solver]].
      apply remove_node_inv; [done|]. rewrite Hk. eapply collision_free_mono; [|exact Hc]. set_solver.
Qed.

(** ** Lookup *)

(** The specification: the owner has a position nearest clockwise to the key. *)
Definition owner (k : nat) (members : gset string) (key node : string) : Prop :=
  ∃ p, holds k members p node
    ∧ ∀ q m, holds k members q m → distance (_ring_hash key) p <= distance (_ring_hash key) q.

Lemma places_range k n p : p ∈ places k n → 0 <= p < ring_size.
Proof. intros (i & -> & _)%list_elem_of_fmap. apply position_range. Qed.

Lemma owner_unique k members key n m :
  collision_free k members → owner k members key n → owner k members key m → n = m.
Proof.
  intros Hc (p & [Hn Hp] & Hpmin) (q & [Hm Hq] & Hqmin).
  assert (p = q) as ->; [|by eapply Hc].
  apply (distance_inj (_ring_hash key)); [by eapply places_range..|].
  apply Z.le_antisymm; [apply (Hpmin q m)|apply (Hqmin p n)]; by split.
Qed.

(** The entry after the insertion point, around the end, is nearest clockwise. *)
Lemma nearest_entry l h q :
  sorted l → (∀ p, p ∈ l → 0 <= p < ring_size) → 0 <= h < ring_size → q ∈ l →
  let k := bisect_right l h in
  let idx := if (length l <=? k)%nat then 0%nat else k in
  nth idx l 0 ∈ l ∧ distance h (nth idx l 0) <= distance h q.
Proof.
  intros Hs Hrange Hh Hq k idx. destruct (bisect_right_spec l h Hs) as (Hk & Hl & Hr). fold k in Hk, Hl, Hr.
  destruct (elem_of_nth l q Hq) as (j & Hj & Hjq).
  assert (idx < length l)%nat as Hidx by (unfold idx; destruct (Nat.leb_spec (length l) k); lia).
  assert (nth idx l 0 ∈ l) as Hin by by apply list_elem_of_In, nth_In. split; [done|].
  rewrite !distance_spec by auto. pose proof (Hrange q Hq). pose proof (Hrange _ Hin).
  unfold idx in *. destruct (Nat.leb_spec (length l) k) as [Hge|Hlt].
  - assert (q <= h) by (rewrite <-Hjq; apply Hl; lia). assert (nth 0 l 0 <= h) by (apply Hl; lia).
    rewrite !(proj2 (Z.ltb_ge _ _)) by lia. rewrite <-Hjq. pose proof (sorted_nth l 0 j Hs). lia.
  - assert (h < nth k l 0) by (apply Hr; lia). rewrite (proj2 (Z.ltb_lt h (nth k l 0))) by done.
    destruct (Z.ltb_spec h q) as [Hlt'|]; [|lia]. rewrite <-Hjq.
    destruct (Nat.ltb_spec j k) as [Hjk|Hjk]; [specialize (Hl j Hjk); lia|].
    pose proof (sorted_nth l k j Hs). lia.
Qed.

Lemma ring_elem r p : ring_inv r → p ∈ _ring r ↔ ∃ n, holds (_replicas r) (_nodes r) p n.
Proof. intros (_ & Hp & _). rewrite Hp. apply all_places_elem. Qed.

Lemma ring_range r p : ring_inv r → p ∈ _ring r → 0 <= p < ring_size.
Proof. intros Hi (n & _ & H)%ring_elem; [|done]. by eapply places_range. Qed.

Lemma get_node_spec r key :
  ring_inv r → (0 < _replicas r)%nat →
  (get_node r key = Ok None ∧ _nodes r = ∅)
  ∨ (∃ n, get_node r key = Ok (Some n) ∧ owner (_replicas r) (_nodes r) key n).
Proof.
  intros Hinv Hk. pose proof Hinv as (Hs & Hp & Hm). unfold get_node. destruct (_ring r) as [|x l] eqn:El.
  - left. split; [done|]. apply set_eq. intros n. split; [|set_solver]. intros Hn.
    assert (position n 0 ∈ all_places (_replicas r) (_nodes r)) as Hin.
    { apply all_places_elem. exists n. split; [done|]. apply list_elem_of_fmap_2, elem_of_seq. lia. }
    rewrite <-Hp in Hin. by apply elem_of_nil in Hin.
  - right. assert (x ∈ _ring r) as Hx by (rewrite El; by left). rewrite <-El in *. clear El l.
    destruct (nearest_entry (_ring r) (_ring_hash key) x Hs (λ p, ring_range r p Hinv) (ring_hash_range key) Hx)
      as [Hin _].
    fold (wrap r (bisect_right (_ring r) (_ring_hash key))) in Hin. set (idx := wrap r _) in *.
    pose proof Hin as Hin'. apply ring_elem in Hin' as [n Hn]; [|done].
    exists n. unfold node_at. rewrite (proj2 (Hm _ _) Hn). split; [done|]. exists (nth idx (_ring r) 0).
    split; [done|]. intros q m Hq. apply (nearest_entry (_ring r) (_ring_hash key)); [done| |apply ring_hash_range|].
    + intros p. by apply ring_range.
    + apply ring_elem; [done|]. by exists m.
Qed.

(** C34: the ring implements the specification: after any history of joins and leaves of nodes
    that share no position, a lookup raises nothing; it returns nothing exactly when there is
    no member, and otherwise the one owner of the key among the current members, whatever the
    history was. *)
Theorem ring_implements_owner k events key :
  (0 < k)%nat → collision_free k (joined events) →
  (members_after events = ∅ ∧ get_node (ring_run k events) key = Ok None)
  ∨ (∃ n, get_node (ring_run k events) key = Ok (Some n) ∧ n ∈ members_after events
      ∧ ∀ m, owner k (members_after events) key m ↔ m = n).
Proof.
  intros Hk Hc. destruct (ring_run_inv k events Hc) as (Hi & Hr & Hn & Hs).
  destruct (get_node_spec (ring_run k events) key Hi) as [[Hg He]|(n & Hg & Ho)]; [by rewrite Hr| |].
  - left. by rewrite <-Hn.
  - right. rewrite Hr, Hn in Ho. exists n. split; [done|]. split; [by destruct Ho as (p & [? _] & _)|].
    intros m. split; [|by intros ->]. intros Hm. eapply owner_unique; [|exact Hm|exact Ho].
    eapply collision_free_mono; [|exact Hc]. by rewrite <-Hn.
Qed.

(** The owner among more candidates is the new one or was the owner before. *)
Lemma owner_union k node members key n :
  owner k ({[node]} ∪ members) key n → n = node ∨ owner k members key n.
Proof.
  intros (p & [Hn Hp] & Hmin). destruct (decide (n = node)) as [->|Hne]; [by left|right].
  exists p. split; [split; [set_solver|done]|]. intros q m [Hm Hq]. apply (Hmin q m). split; [set_solver|done].
Qed.

Lemma owner_difference k node members key n :
  owner k members key n → n ≠ node → owner k (members ∖ {[node]}) key n.
Proof.
  intros (p & [Hn Hp] & Hmin) Hne. exists p. split; [split; [set_solver|done]|].
  intros q m [Hm Hq]. apply (Hmin q m). split; [set_solver|done].
Qed.

(** Minimal disruption: when a node joins, a key keeps its node or moves to the new one;
    when a node leaves, a key that was not on it stays where it was. *)
Theorem minimal_disruption k events node key :
  (0 < k)%nat → collision_free k ({[node]} ∪ joined events) →
  (get_node (add_node (ring_run k events) node) key = get_node (ring_run k events) key
   ∨ get_node (add_node (ring_run k events) node) key = Ok (Some node))
  ∧ (get_node (ring_run k events) key ≠ Ok (Some node) →
     get_node (remove_node (ring_run k events) node) key = get_node (ring_run k events) key).
Proof.
  intros Hk Hc. assert (collision_free k (joined events)) as Hc0 by (eapply collision_free_mono; [|exact Hc]; set_solver).
  destruct (ring_run_inv k events Hc0) as (Hi & Hr & Hn & Hs). set (r := ring_run k events) in *.
  assert (collision_free k (_nodes r)) as Hcr by (eapply collision_free_mono; [|exact Hc0]; done).
  pose proof (get_node_spec r key Hi ltac:(by rewrite Hr)) as Hold. rewrite Hr in Hold. split.
  - destruct (add_node_fields r node) as [Hra Hna].
    assert (collision_free k ({[node]} ∪ _nodes r)) as Hca by (eapply collision_free_mono; [|exact Hc]; set_solver).
    pose proof (add_node_inv r node Hi ltac:(by rewrite Hr)) as Hia.
    destruct (get_node_spec (add_node r node) key Hia ltac:(by rewrite Hra, Hr)) as [[_ He]|(n & Hg & Ho)].
    { rewrite Hna in He. set_solver. }
    rewrite Hra, Hr, Hna in Ho. rewrite Hg. destruct (owner_union _ _ _ _ _ Ho) as [->|Ho']; [by right|left].
    destruct Hold as [[_ He]|(m & -> & Hm)]; [|do 2 f_equal; exact (owner_unique k _ key n m Hcr Ho' Hm)].
    destruct Ho' as (p & [Hin _] & _). rewrite He in Hin. set_solver.
  - intros Hne. destruct (remove_node_fields r node) as [Hrm Hnm].
    pose proof (remove_node_inv r node Hi ltac:(by rewrite Hr)) as Him.
    assert (collision_free k (_nodes r ∖ {[node]})) as Hcm by (eapply collision_free_mono; [|exact Hcr]; set_solver).
    destruct (get_node_spec (remove_node r node) key Him ltac:(by rewrite Hrm, Hr)) as [[Hg He]|(n & Hg & Ho)].
    + destruct Hold as [[-> _]|(m & Hm & Ho)]; [done|]. rewrite Hm in Hne.
      apply (owner_difference k node) in Ho as (p & [Hin _] & _); [|intros ->; by apply Hne]. rewrite <-Hnm, He in Hin. set_solver.
    + rewrite Hrm, Hr, Hnm in Ho. rewrite Hg. destruct Hold as [[_ He]|(m & Hm & Hmo)].
      { destruct Ho as (p & [Hin _] & _). rewrite He in Hin. set_solver. }
      rewrite Hm in Hne |- *. do 2 f_equal. eapply owner_unique; [exact Hcm|exact Ho|].
      apply owner_difference; [done|]. intros ->. by apply Hne.
Qed.

(** ** Successor lists *)

Fixpoint collect (count : Z) (l result : list string) : list string :=
  match l with
  | [] => reverse result
  | n :: l' =>
      if mem n result then collect count l' result
      else if count <=? zlen (n :: result) then reverse (n :: result)
      else collect count l' (n :: result)
  end.

Lemma collect_spec count l result :
  zlen result < count → collect count l result = take (Z.to_nat count) (reverse result ++ fromkeys_aux result l).
Proof.
  revert result. induction l as [|n l IH]; intros result Hlt; cbn [collect fromkeys_aux].
  - rewrite app_nil_r. symmetry. apply take_ge. rewrite length_reverse. unfold zlen in Hlt. lia.
  - destruct (mem n result); [by apply IH|]. rewrite cons_middle, app_assoc, <-reverse_cons.
    unfold zlen in *. cbn [length]. destruct (Z.leb_spec count (Z.of_nat (S (length result)))) as [Hle|Hgt].
    + symmetry. rewrite take_app_le by (rewrite length_reverse; cbn; lia).
      apply take_ge. rewrite length_reverse. cbn. lia.
    + apply IH. cbn [length]. lia.
Qed.

(** The positions from an index around the ring. *)
Definition around (i : nat) (l : list Z) : list Z := drop i l ++ take i l.

Lemma around_perm i l : around i l ≡ₚ l.
Proof. unfold around. rewrite Permutation_app_comm. by rewrite take_drop. Qed.

Lemma drop_nth i (l : list Z) : (i < length l)%nat → drop i l = nth i l 0 :: drop (S i) l.
Proof.
  intros H. destruct (lookup_lt_is_Some_2 l i H) as [y Hy]. rewrite nth_lookup, Hy. by apply drop_S.
Qed.

Lemma wrap_lt r idx : _ring r ≠ [] → (wrap r idx < length (_ring r))%nat.
Proof.
  intros H. unfold wrap. destruct (Nat.leb_spec (length (_ring r)) idx); [|done]. destruct (_ring r); [done|cbn; lia].
Qed.

Lemma walk_spec f r count idx result label :
  ring_inv r → _ring r ≠ [] → (∀ p n, holds (_replicas r) (_nodes r) p n → label p = n) →
  (f <= length (_ring r))%nat →
  walk f r count idx result
  = Ok (collect count (label <$> take f (drop (wrap r idx) (_ring r) ++ _ring r)) result).
Proof.
  intros Hi Hne Hlabel. revert idx result. induction f as [|f IH]; intros idx result Hf; [done|]. cbn [walk].
  pose proof (wrap_lt r idx Hne) as Hw.
  set (i := wrap r idx) in *. set (p := nth i (_ring r) 0).
  assert (p ∈ _ring r) as Hp by by apply list_elem_of_In, nth_In.
  apply ring_elem in Hp as [n Hn]; [|done]. pose proof Hn as Hn'. destruct Hi as (_ & _ & Hm). apply Hm in Hn'.
  assert (node_at r p = Ok n) as Hat by (unfold node_at; by rewrite Hn').
  rewrite (bind_Ok _ _ n Hat).
  pose proof (drop_nth i (_ring r) Hw) as Hd. fold p in Hd.
  assert (take f (drop (wrap r (S i)) (_ring r) ++ _ring r) = take f (drop (S i) (_ring r) ++ _ring r)) as Hnext.
  { unfold wrap. destruct (Nat.leb_spec (length (_ring r)) (S i)) as [Hge|]; [|done].
    rewrite (drop_ge _ (S i)) by lia. rewrite drop_0, app_nil_l. apply take_app_le. lia. }
  rewrite Hd. cbn [app take fmap list_fmap collect]. rewrite (Hlabel p n Hn).
  destruct (mem n result); [rewrite IH by lia; by rewrite Hnext|].
  destruct (count <=? _); [done|]. rewrite IH by lia. by rewrite Hnext.
Qed.

Lemma strongly_sorted_app {A} (R : A → A → Prop) l1 l2 :
  StronglySorted R l1 → StronglySorted R l2 → (∀ x y, x ∈ l1 → y ∈ l2 → R x y) → StronglySorted R (l1 ++ l2).
Proof.
  intros H1 H2 H. induction H1 as [|x l1 _ IH Hx]; [done|]. cbn. constructor.
  - apply IH. intros a b Ha Hb. apply H; [by right|done].
  - apply Forall_app. split; [done|]. apply Forall_forall. intros y Hy. apply H; [by left|done].
Qed.

Lemma strongly_sorted_map {A} (R S : A → A → Prop) l :
  StronglySorted R l → (∀ x y, x ∈ l → y ∈ l → R x y → S x y) → StronglySorted S l.
Proof.
  induction 1 as [|x l _ IH Hx]; intros H; constructor.
  - apply IH. intros a b Ha Hb. apply H; by right.
  - rewrite Forall_forall in Hx |- *. intros y Hy. apply H; [by left|by right|by apply Hx].
Qed.

(** Around the ring from the insertion point the distance grows. *)
Lemma around_sorted l h :
  sorted l → (∀ p, p ∈ l → 0 <= p < ring_size) → 0 <= h < ring_size →
  let k := bisect_right l h in
  StronglySorted (λ p q, distance h p <= distance h q)
    (around (if (length l <=? k)%nat then 0%nat else k) l).
Proof.
  intros Hs Hrange Hh k. destruct (bisect_right_spec l h Hs) as (Hk & Hl & Hr). fold k in Hk, Hl, Hr.
  assert (around (if (length l <=? k)%nat then 0%nat else k) l = drop k l ++ take k l) as ->.
  { unfold around. destruct (Nat.leb_spec (length l) k); [|done].
    by rewrite drop_0, take_0, app_nil_r, drop_ge, take_ge by lia. }
  assert (∀ p, p ∈ drop k l → h < p) as Hhigh.
  { intros p (i & Hi & <-)%elem_of_nth. rewrite length_drop in Hi. rewrite nth_skipn. apply Hr. lia. }
  assert (∀ p, p ∈ take k l → p <= h) as Hlow.
  { intros p (i & Hi & <-)%elem_of_nth. rewrite length_take in Hi. rewrite nth_firstn.
    destruct (Nat.ltb_spec i k); [apply Hl; lia|lia]. }
  assert (sorted (take k l ++ drop k l)) as Hsplit by by rewrite take_drop.
  assert (∀ p, p ∈ drop k l → 0 <= p < ring_size) as Hrd.
  { intros p Hp. apply Hrange. rewrite <-(take_drop k l). apply elem_of_app. by right. }
  assert (∀ p, p ∈ take k l → 0 <= p < ring_size) as Hrt.
  { intros p Hp. apply Hrange. rewrite <-(take_drop k l). apply elem_of_app. by left. }
  assert (sorted (take k l) ∧ sorted (drop k l)) as [Hst Hsd].
  { unfold sorted in *. split; [by eapply StronglySorted_app_1_l|by eapply StronglySorted_app_1_r]. }
  apply strongly_sorted_app.
  - apply (strongly_sorted_map _ _ _ Hsd). intros p q Hp Hq Hle. rewrite !distance_spec by auto.
    rewrite !(proj2 (Z.ltb_lt _ _)) by auto. lia.
  - apply (strongly_sorted_map _ _ _ Hst). intros p q Hp Hq Hle. rewrite !distance_spec by auto.
    rewrite !(proj2 (Z.ltb_ge _ _)) by auto. lia.
  - intros p q Hp Hq. rewrite !distance_spec by auto. rewrite (proj2 (Z.ltb_lt h p)) by auto.
    rewrite (proj2 (Z.ltb_ge h q)) by auto. pose proof (Hrd p Hp). pose proof (Hrt q Hq). lia.
Qed.

(** A position of the first node is at least as near as every position of the second. *)
Definition nearer (k : nat) (members : gset string) (key n m : string) : Prop :=
  ∃ p, holds k members p n ∧ ∀ q, holds k members q m → distance (_ring_hash key) p <= distance (_ring_hash key) q.

Lemma first_labels_sorted k members key (label : Z → string) seen (prefix l : list Z) :
  (∀ p n, holds k members p n → label p = n) →
  StronglySorted (λ p q, distance (_ring_hash key) p <= distance (_ring_hash key) q) l →
  (∀ q m, holds k members q m → q ∈ prefix ∨ q ∈ l) → (∀ q, q ∈ l → ∃ n, holds k members q n) →
  (∀ p, p ∈ prefix → label p ∈ seen) →
  StronglySorted (nearer k members key) (fromkeys_aux seen (label <$> l)).
Proof.
  intros Hlabel Hs. revert seen prefix. induction Hs as [|p l Hl IH Hp]; intros seen prefix Hcover Hheld Hseen; [constructor|].
  cbn [fmap list_fmap fromkeys_aux]. destruct (mem (label p) seen) eqn:Em; [to_prop|to_prop; constructor].
  - apply (IH _ (p :: prefix)).
    + intros q m Hq. destruct (Hcover q m Hq) as [?|[->|?]%elem_of_cons]; [left; by right|left; by left|by right].
    + intros q Hq. apply Hheld. by right.
    + intros q [->|Hq]%elem_of_cons; auto.
  - apply (IH _ (p :: prefix)).
    + intros q m Hq. destruct (Hcover q m Hq) as [?|[->|?]%elem_of_cons]; [left; by right|left; by left|by right].
    + intros q Hq. apply Hheld. by right.
    + intros q [->|Hq]%elem_of_cons; [by left|]. right. by apply Hseen.
  - apply Forall_forall. intros m [Hm Hnot]%fromkeys_aux_elem. destruct (Hheld p ltac:(by left)) as [n Hn].
    rewrite (Hlabel p n Hn). exists p. split; [done|]. intros q Hq.
    destruct (Hcover q m Hq) as [Hin|[->|Hin]%elem_of_cons]; [|lia|].
    + apply Hseen in Hin. rewrite (Hlabel q m Hq) in Hin. destruct Hnot. by right.
    + rewrite Forall_forall in Hp. by apply Hp.
Qed.

Lemma get_node_nonempty r key :
  _ring r ≠ [] →
  get_node r key = n ← node_at r (nth (wrap r (bisect_right (_ring r) (_ring_hash key))) (_ring r) 0); Ok (Some n).
Proof. unfold get_node. by destruct (_ring r). Qed.

Section Labels.
  Context (r : HashRing) (key : string) (label : Z → string).
  Hypothesis Hinv : ring_inv r.
  Hypothesis Hlabel : ∀ p n, holds (_replicas r) (_nodes r) p n → label p = n.

  Local Abbreviation start := (wrap r (bisect_right (_ring r) (_ring_hash key))).

  (** The members in the order of their first position from the key. *)
Definition successors : list string := fromkeys (label <$> around start (_ring r)).

Lemma get_nodes_successors count : get_nodes r key count = Ok (take (Z.to_nat count) successors).
  Proof using Hinv Hlabel.
    unfold get_nodes, successors. destruct (Nat.eqb_spec (length (_ring r)) 0) as [Hz|Hz].
    { apply length_zero_iff_nil in Hz. unfold around. generalize start as i. intros i.
      rewrite Hz, drop_nil, (take_nil i). cbn. by rewrite take_nil. }
    destruct (Z.ltb_spec count 1) as [Hlt|Hge]; cbn [orb]; [by rewrite Z2Nat.nonpos by lia|].
    assert (_ring r ≠ []) as Hne by (intros E; by rewrite E in Hz). rewrite (walk_spec _ r _ _ _ label) by done.
    assert (take (length (_ring r)) (drop start (_ring r) ++ _ring r) = around start (_ring r)) as ->.
    { unfold around. rewrite take_app, length_drop. rewrite take_ge by (rewrite length_drop; lia). do 2 f_equal.
      pose proof (wrap_lt r (bisect_right (_ring r) (_ring_hash key)) Hne). lia. }
    rewrite collect_spec by (unfold zlen; cbn; lia). done.
  Qed.

Lemma get_node_successor : get_node r key = Ok (head successors).
  Proof using Hinv Hlabel.
    unfold successors. destruct (decide (_ring r = [])) as [Er|Hne].
    { unfold around, get_node. by rewrite Er, drop_nil, take_nil. }
    rewrite get_node_nonempty by done. unfold around.
    rewrite (drop_nth start (_ring r) (wrap_lt r _ Hne)). cbn [app fmap list_fmap]. unfold fromkeys.
    cbn [fromkeys_aux head]. assert (nth start (_ring r) 0 ∈ _ring r) as Hin
      by by apply list_elem_of_In, nth_In, wrap_lt.
    apply ring_elem in Hin as [n Hin]; [|done]. rewrite (Hlabel _ n Hin).
    unfold node_at. destruct Hinv as (_ & _ & Hm). by rewrite (proj2 (Hm _ n)) by done.
  Qed.

Lemma around_elem p : p ∈ around start (_ring r) ↔ ∃ n, holds (_replicas r) (_nodes r) p n.
  Proof using Hinv. by rewrite around_perm, ring_elem. Qed.

Lemma successors_elem n : (0 < _replicas r)%nat → n ∈ successors ↔ n ∈ _nodes r.
  Proof using Hinv Hlabel.
    intros Hk. unfold successors. rewrite fromkeys_elem, list_elem_of_fmap. setoid_rewrite around_elem. split.
    - intros (p & -> & m & Hm). rewrite (Hlabel p m Hm). apply Hm.
    - intros Hin. assert (holds (_replicas r) (_nodes r) (position n 0) n) as Hh.
      { split; [done|]. apply list_elem_of_fmap_2, elem_of_seq. lia. }
      exists (position n 0). rewrite (Hlabel _ n Hh). split; [done|]. by exists n.
  Qed.

Lemma successors_sorted : StronglySorted (nearer (_replicas r) (_nodes r) key) successors.
  Proof using Hinv Hlabel.
    apply (first_labels_sorted _ _ key label [] []); [done| | | |by intros ? ?%elem_of_nil].
    - apply around_sorted; [apply Hinv|intros p; by apply ring_range|apply ring_hash_range].
    - intros q m Hq. right. apply around_elem. by exists m.
    - intros q Hq. by apply around_elem.
  Qed.
End Labels.

(** Successor lists are complete: after any history of nodes that share no position, the
    members can be listed without repetition in clockwise order from the key, the nearest
    first, so that a request for [count] nodes returns exactly the first [count] of the list
    (all of them if there are fewer), and the single lookup its head. *)
Theorem successor_list k events key :
  (0 < k)%nat → collision_free k (joined events) →
  ∃ l, NoDup l ∧ (∀ n, n ∈ l ↔ n ∈ members_after events)
    ∧ StronglySorted (nearer k (members_after events) key) l
    ∧ (∀ count, get_nodes (ring_run k events) key count = Ok (take (Z.to_nat count) l))
    ∧ get_node (ring_run k events) key = Ok (head l).
Proof.
  intros Hk Hc. destruct (ring_run_inv k events Hc) as (Hi & Hr & Hn & _). set (r := ring_run k events) in *.
  set (label := λ p, default "" (_ring_to_node r !! p)).
  assert (∀ p n, holds (_replicas r) (_nodes r) p n → label p = n) as Hlabel.
  { intros p n H. unfold label. destruct Hi as (_ & _ & Hm). by rewrite (proj2 (Hm p n)). }
  exists (successors r key label). rewrite <-Hn, <-Hr. split; [apply fromkeys_NoDup|].
  split; [intros n; apply successors_elem; [done|done|by rewrite Hr]|].
  split; [by apply successors_sorted|]. split; [intros count; by apply get_nodes_successors|by apply get_node_successor].
Qed.

(** ** Examples *)

Lemma sample_free : collision_free 1 ({["c"]} ∪ joined [Join "a"; Join "b"]).
Proof.
  assert (∀ n, n ∈ ({["c"]} ∪ joined [Join "a"; Join "b"] : gset string) → n = "a" ∨ n = "b" ∨ n = "c") as H by set_solver.
  intros n m p Hn Hm (i & -> & Hi)%list_elem_of_fmap (j & Hij & Hj)%list_elem_of_fmap.
  apply elem_of_seq in Hi, Hj. assert (i = 0%nat) as -> by lia. assert (j = 0%nat) as -> by lia.
  apply H in Hn as [->|[->| ->]], Hm as [->|[->| ->]]; try reflexivity; vm_compute in Hij; discriminate Hij.
Qed.

Lemma sample_free_joined : collision_free 1 (joined [Join "a"; Join "b"]).
Proof. eapply collision_free_mono; [|exact sample_free]. set_solver. Qed.

Lemma ring_implements_owner_witness :
  ∃ n, get_node (ring_run 1 [Join "a"; Join "b"]) "key" = Ok (Some n) ∧ n ∈ members_after [Join "a"; Join "b"].
Proof.
  destruct (ring_implements_owner 1 [Join "a"; Join "b"] "key" ltac:(lia) sample_free_joined) as [[He _]|(n & Hn & Hin & _)].
  - exfalso. assert ("a" ∈ members_after [Join "a"; Join "b"]) as H by set_solver. rewrite He in H. set_solver.
  - exists n. split; [exact Hn|exact Hin].
Defined.

Lemma minimal_disruption_witness :
  get_node (add_node (ring_run 1 [Join "a"; Join "b"]) "c") "key" = get_node (ring_run 1 [Join "a"; Join "b"]) "key"
  ∨ get_node (add_node (ring_run 1 [Join "a"; Join "b"]) "c") "key" = Ok (Some "c").
Proof. exact (proj1 (minimal_disruption 1 [Join "a"; Join "b"] "c" "key" ltac:(lia) sample_free)). Defined.

Lemma successor_list_witness :
  ∃ l, NoDup l ∧ get_nodes (ring_run 1 [Join "a"; Join "b"]) "key" 1 = Ok (take 1 l).
Proof.
  destruct (successor_list 1 [Join "a"; Join "b"] "key" ltac:(lia) sample_free_joined) as (l & H1 & _ & _ & H2 & _).
  exists l. split; [exact H1|exact (H2 1)].
Defined.
