(* ===== verification/Automation.v ===== *)
(** Automation runs and the status machines of durable work:
    [domain/automation/models.py], [domain/automation/state_machine.py] and
    [application/automation/automation_service.py].

    Module [Machine] holds the transition tables of Autopilot and of the fleet; module [Runs]
    the run record, its transitions and claims; module [Service] the service over the
    persistence port, a class [AutomationStore] with the laws the service relies on. *)
From S2P Require Import Prelude.

Local Open Scope Z_scope.

Module Machine.

Definition AUTOPILOT_ACTIVE := ["planning"; "running"].
Definition AUTOPILOT_RESUMABLE := ["ready"; "paused"; "blocked"; "interrupted"].
Definition AUTOPILOT_TERMINAL := ["completed"; "failed"; "cancelled"].
Definition AUTOPILOT_ALL := AUTOPILOT_ACTIVE ++ AUTOPILOT_RESUMABLE ++ AUTOPILOT_TERMINAL.

Definition _AUTOPILOT_TRANSITIONS : gmap string (list string) := list_to_map
  [("ready", ["planning"; "running"; "cancelled"; "paused"]);
   ("planning", ["running"; "paused"; "blocked"; "completed"; "failed"; "interrupted"; "cancelled"]);
   ("running", ["paused"; "blocked"; "completed"; "failed"; "interrupted"; "cancelled"; "planning"]);
   ("paused", ["running"; "cancelled"; "planning"]);
   ("blocked", ["running"; "failed"; "cancelled"; "planning"; "paused"]);
   ("interrupted", ["running"; "cancelled"; "planning"; "paused"]);
   ("failed", ["running"]);
   ("completed", []);
   ("cancelled", [])].

Definition is_terminal (status : string) : bool := mem status AUTOPILOT_TERMINAL.
Definition is_active (status : string) : bool := mem status AUTOPILOT_ACTIVE.
Definition is_resumable (status : string) : bool := mem status AUTOPILOT_RESUMABLE.

Definition autopilot_can_transition (current nxt : string) : bool :=
  match _AUTOPILOT_TRANSITIONS !! current with Some l => mem nxt l | None => false end.

Definition autopilot_next_states (current : string) : list string :=
  default [] (_AUTOPILOT_TRANSITIONS !! current).

Definition FLEET_ACTIVE := ["queued"; "running"].
Definition FLEET_TERMINAL := ["done"; "failed"; "task_drift"; "cancelled"; "interrupted"; "retried"].
Definition FLEET_ALL := FLEET_ACTIVE ++ FLEET_TERMINAL.

Definition _FLEET_TRANSITIONS : gmap string (list string) := list_to_map
  [("queued", ["running"; "cancelled"; "interrupted"; "done"; "failed"; "task_drift"]);
   ("running", ["done"; "failed"; "task_drift"; "cancelled"; "interrupted"]);
   ("interrupted", ["queued"; "retried"]);
   ("failed", ["queued"; "retried"]);
   ("task_drift", ["queued"; "retried"]);
   ("cancelled", ["queued"; "retried"]);
   ("done", []);
   ("retried", [])].

Definition fleet_is_terminal (status : string) : bool := mem status FLEET_TERMINAL.
Definition fleet_is_active (status : string) : bool := mem status FLEET_ACTIVE.

Definition fleet_can_transition (current nxt : string) : bool :=
  match _FLEET_TRANSITIONS !! current with Some l => mem nxt l | None => false end.

(** A table is well formed when it has a row for each of its statuses and names no other. *)
Definition table_ok (statuses : list string) (table : gmap string (list string)) : bool :=
  forallb (λ s, bool_decide (is_Some (table !! s))) statuses
  && forallb (λ kv : string * list string, mem kv.1 statuses && subset kv.2 statuses && no_dups kv.2)
       (map_to_list table).

(** The classes of each machine are disjoint and the tables close over them. *)
Lemma machine_tables_ok :
  NoDup AUTOPILOT_ALL ∧ NoDup FLEET_ALL
  ∧ table_ok AUTOPILOT_ALL _AUTOPILOT_TRANSITIONS = true ∧ table_ok FLEET_ALL _FLEET_TRANSITIONS = true.
Proof. split_and!; [by apply no_dups_spec|by apply no_dups_spec|reflexivity|reflexivity]. Qed.

Lemma fleet_can_transition_known current nxt :
  fleet_can_transition current nxt = true → current ∈ FLEET_ALL ∧ nxt ∈ FLEET_ALL.
Proof.
  destruct machine_tables_ok as (_ & _ & _ & Ht). unfold fleet_can_transition.
  destruct (_FLEET_TRANSITIONS !! current) as [l|] eqn:E; [|done]. intros Hm.
  unfold table_ok in Ht. apply andb_true_iff in Ht as [_ Ht]. rewrite forallb_forall in Ht.
  assert ((current, l) ∈ map_to_list _FLEET_TRANSITIONS) as Hin by by apply elem_of_map_to_list.
  apply list_elem_of_In, Ht in Hin. to_prop. simpl in *. auto.
Qed.

(** [done] and [retried] are final: they have no successor. *)
Lemma fleet_final current nxt :
  current = "done" ∨ current = "retried" → fleet_can_transition current nxt = false.
Proof. by intros [->| ->]. Qed.

(** A final Autopilot state is left in one way only: an explicit retry of a failed run. *)
Lemma autopilot_terminal_leaves current nxt :
  is_terminal current = true → autopilot_can_transition current nxt = true →
  current = "failed" ∧ nxt = "running".
Proof.
  intros Ht%mem_spec Hc. unfold autopilot_can_transition in Hc.
  repeat (apply elem_of_cons in Ht as [->|Ht]); [| | |by apply elem_of_nil in Ht];
    vm_compute in Hc; try done.
  split; [done|]. change (mem nxt ["running"] = true) in Hc. to_prop.
  by apply list_elem_of_singleton in Hc.
Qed.

End Machine.

Module Runs.

Inductive RunKind := TASK | AUTOPILOT | FLEET | WORKFLOW.
#[export] Instance RunKind_eq_dec : EqDecision RunKind.
Proof. solve_decision. Defined.

Inductive RunStatus := PENDING | CLAIMED | RUNNING | PAUSED | COMPLETED | FAILED | CANCELLED.
#[export] Instance RunStatus_eq_dec : EqDecision RunStatus.
Proof. solve_decision. Defined.

Definition status_value (s : RunStatus) : string :=
  match s with
  | PENDING => "pending" | CLAIMED => "claimed" | RUNNING => "running" | PAUSED => "paused"
  | COMPLETED => "completed" | FAILED => "failed" | CANCELLED => "cancelled"
  end.

Definition TERMINAL_STATUSES : list RunStatus := [COMPLETED; FAILED; CANCELLED].

Definition VALID_TRANSITIONS (s : RunStatus) : list RunStatus :=
  match s with
  | PENDING => [CLAIMED; CANCELLED]
  | CLAIMED => [RUNNING; FAILED; CANCELLED]
  | RUNNING => [PAUSED; COMPLETED; FAILED; CANCELLED]
  | PAUSED => [RUNNING; CANCELLED]
  | COMPLETED | FAILED | CANCELLED => []
  end.

(** [config] is a JSON-like value the service only passes on. *)
Record AutomationRun := MkRun {
  run_id : string;
  kind : RunKind;
  status : RunStatus;
  revision : Z;
  objective : string;
  correlation_id : string;
  config : pyval;
  created_at : string;
  updated_at : string
}.

(** The run after the call; on an error the object is unchanged. *)
Definition transition (new_status : RunStatus) (r : AutomationRun) : res AutomationRun :=
  _ ← require (mem new_status (VALID_TRANSITIONS (status r))) InvalidTransition
        ("cannot transition from " +:+ status_value (status r) +:+ " to " +:+ status_value new_status);
  Ok (MkRun (run_id r) (kind r) new_status (revision r + 1) (objective r) (correlation_id r) (config r)
        (created_at r) (updated_at r)).

Definition is_terminal (r : AutomationRun) : bool := mem (status r) TERMINAL_STATUSES.

Record Claim := MkClaim {
  claim_run_id : string;
  worker_id : string;
  lease_until : string;
  claim_revision : Z
}.

Definition matches (c : Claim) (r : AutomationRun) : bool :=
  String.eqb (claim_run_id c) (run_id r) && (claim_revision c =? revision r).

(** [r'] is [r] after the transitions to the statuses of [path], one after the other. *)
Fixpoint follows (r : AutomationRun) (path : list RunStatus) (r' : AutomationRun) : Prop :=
  match path with
  | [] => r' = r
  | s :: rest => ∃ r1, transition s r = Ok r1 ∧ follows r1 rest r'
  end.

Lemma follows_app r path1 r1 path2 r2 :
  follows r path1 r1 → follows r1 path2 r2 → follows r (path1 ++ path2) r2.
Proof. revert r. induction path1 as [|s path1 IH]; simpl; [by intros r ->|naive_solver]. Qed.

Lemma transition_ok new r r' :
  transition new r = Ok r' ↔
  new ∈ VALID_TRANSITIONS (status r)
  ∧ r' = MkRun (run_id r) (kind r) new (revision r + 1) (objective r) (correlation_id r) (config r)
           (created_at r) (updated_at r).
Proof.
  unfold transition. rewrite bind_ok. setoid_rewrite require_ok. split.
  - intros (_ & Hm & [= <-]). to_prop. done.
  - intros [Hm ->]. exists tt. split; [by apply mem_spec|done].
Qed.

(** The revision counts the transitions, and what the run is about stays. *)
Lemma follows_counts r path r' :
  follows r path r' →
  revision r' = revision r + zlen path ∧ run_id r' = run_id r ∧ kind r' = kind r
  ∧ objective r' = objective r ∧ correlation_id r' = correlation_id r
  ∧ status r' = default (status r) (last path).
Proof.
  revert r. induction path as [|s path IH]; simpl; intros r.
  - intros ->. unfold zlen. simpl. split_and!; [lia|done..].
  - intros (r1 & [Hs ->]%transition_ok & Hp). apply IH in Hp. simpl in Hp.
    destruct Hp as (Hr & Hi & Hk & Ho & Hc & Hl). unfold zlen in *. simpl.
    split_and!; [lia|done..|]. rewrite Hl, last_cons. by destruct (last path).
Qed.

Lemma terminal_stays r path r' : is_terminal r = true → follows r path r' → r' = r.
Proof.
  intros Ht. destruct path as [|s path]; [done|]. intros (r1 & [Hs _]%transition_ok & _).
  unfold is_terminal in Ht. revert Ht Hs. by destruct (status r); simpl; intros Ht Hs; try done;
    apply elem_of_nil in Hs.
Qed.

End Runs.

Module Service.

Import Runs.

(** The persistence port of automation.db.  [S] is the state of the store. *)
Class AutomationStore (S : Type) := {
  create_run : string → RunKind → string → string → pyval → S → res (S * AutomationRun);
  get_run : string → S → option AutomationRun;
  save_run : AutomationRun → S → S;
  try_claim : string → string → Z → Z → S → S * option Claim;
  release_claim : string → string → S → S;
  get_claim : string → S → option Claim;
  reconcile_expired_claims : string → S → S * Z
}.

(** What the service relies on: runs are stored under their identity and only by [create_run]
    and [save_run]; a claim is granted by compare-and-set on the revision, to one worker at a
    time. *)
Class AutomationStoreLaws (S : Type) `{AutomationStore S} := {
  create_fresh id k o c cfg s s' r :
    create_run id k o c cfg s = Ok (s', r) →
    get_run id s = None ∧ run_id r = id ∧ status r = PENDING ∧ revision r = 0 ∧ objective r = o
    ∧ (∀ i, get_run i s' = if String.eqb i id then Some r else get_run i s)
    ∧ (∀ i, get_claim i s' = get_claim i s);
  get_save r s i : get_run i (save_run r s) = if String.eqb i (run_id r) then Some r else get_run i s;
  save_claims r s i : get_claim i (save_run r s) = get_claim i s;
  get_id i s r : get_run i s = Some r → run_id r = i;
  claim_runs id w l rev s i : get_run i (try_claim id w l rev s).1 = get_run i s;
  claim_granted id w l rev s c :
    (try_claim id w l rev s).2 = Some c →
    claim_run_id c = id ∧ worker_id c = w ∧ claim_revision c = rev
    ∧ (∃ r, get_run id s = Some r ∧ revision r = rev) ∧ get_claim id s = None
    ∧ ∀ i, get_claim i (try_claim id w l rev s).1 = if String.eqb i id then Some c else get_claim i s;
  claim_refused id w l rev s :
    (try_claim id w l rev s).2 = None → ∀ i, get_claim i (try_claim id w l rev s).1 = get_claim i s;
  release_runs id w s i : get_run i (release_claim id w s) = get_run i s;
  release_claims id w s i :
    get_claim i (release_claim id w s)
    = match get_claim i s with
      | Some c => if String.eqb i id && String.eqb (worker_id c) w then None else Some c
      | None => None
      end;
  reconcile_runs now s i : get_run i (reconcile_expired_claims now s).1 = get_run i s;
  reconcile_claims now s i :
    get_claim i (reconcile_expired_claims now s).1 = get_claim i s
    ∨ get_claim i (reconcile_expired_claims now s).1 = None
}.

Section Operations.

Context {S : Type} `{AutomationStore S}.

(** Each method returns the store it leaves; the error of a later step does not undo an
    earlier one.  The messages leave out the quoted arguments. *)
Definition create (id : string) (k : RunKind) (objective correlation : string) (config : pyval) (s : S)
  : S * res AutomationRun :=
  if is_blank objective then (s, throw InvalidInput "automation run requires an objective")
  else match create_run id k objective correlation config s with
       | Ok (s', r) => (s', Ok r)
       | Err e => (s, Err e)
       end.

Definition claim (id worker : string) (lease_seconds : Z) (s : S) : S * res Claim :=
  match get_run id s with
  | None => (s, throw InvalidInput ("run " +:+ id +:+ " not found"))
  | Some r =>
      if is_terminal r then (s, throw InvalidInput ("run " +:+ id +:+ " is already terminal"))
      else
        let '(s1, c) := try_claim id worker lease_seconds (revision r) s in
        match c with
        | None => (s1, throw (Forbidden "FORBIDDEN") ("run " +:+ id +:+ " claim failed"))
        | Some c =>
            if bool_decide (status r = PENDING) then
              match transition CLAIMED r with
              | Ok r' => (save_run r' s1, Ok c)
              | Err e => (s1, Err e)
              end
            else (s1, Ok c)
        end
  end.

Definition transition (id worker : string) (new_status : RunStatus) (s : S) : S * res AutomationRun :=
  match get_run id s with
  | None => (s, throw InvalidInput ("run " +:+ id +:+ " not found"))
  | Some r =>
      let held := get_claim id s in
      if match held with Some c => negb (String.eqb (worker_id c) worker) | None => false end
      then (s, throw (Forbidden "FORBIDDEN") ("run " +:+ id +:+ " is claimed by another worker"))
      else
        match Runs.transition new_status r with
        | Err e => (s, Err e)
        | Ok r' =>
            let s1 := save_run r' s in
            (if is_terminal r' && bool_decide (is_Some held) then release_claim id worker s1 else s1, Ok r')
        end
  end.

Definition reconcile_expired (now_iso : string) (s : S) : S * Z := reconcile_expired_claims now_iso s.

(** What a caller of the service does. *)
Inductive call :=
  | Create (id : string) (k : RunKind) (objective correlation : string) (config : pyval)
  | ClaimRun (id worker : string) (lease_seconds : Z)
  | Transition (id worker : string) (new_status : RunStatus)
  | ReconcileExpired (now_iso : string).

Definition perform (c : call) (s : S) : S :=
  match c with
  | Create id k o cid cfg => (create id k o cid cfg s).1
  | ClaimRun id w l => (claim id w l s).1
  | Transition id w st => (transition id w st s).1
  | ReconcileExpired now => (reconcile_expired now s).1
  end.

Definition run_calls (calls : list call) (s : S) : S := foldl (λ s c, perform c s) s calls.

End Operations.

Section Laws.

Context {S : Type} `{AutomationStoreLaws S}.

(** One call moves a stored run along at most one transition of the machine. *)
Lemma perform_follows c s id r :
  get_run id s = Some r →
  ∃ path r', get_run id (perform c s) = Some r' ∧ follows r path r' ∧ (length path <= 1)%nat.
Proof.
  intros Hr.
  assert (∀ s', get_run id s' = get_run id s →
    ∃ path r', get_run id s' = Some r' ∧ follows r path r' ∧ (length path <= 1)%nat) as Hsame.
  { intros s' Hs. exists [], r. rewrite Hs. simpl. split_and!; [done|done|lia]. }
  assert (∀ s' i r0 st r1, get_run i s = Some r0 → Runs.transition st r0 = Ok r1 →
    (∀ j, get_run j s' = get_run j s) →
    ∃ path r', get_run id (save_run r1 s') = Some r' ∧ follows r path r' ∧ (length path <= 1)%nat) as Hsave.
  { intros s' i r0 st r1 Hg Ht Hs'. rewrite get_save, Hs'. destruct (String.eqb_spec id (run_id r1)) as [E|].
    - exists [st], r1. simpl. split_and!; [done| |lia]. exists r1. split; [|done].
      pose proof (get_id _ _ _ Hg) as Hid. pose proof Ht as [_ ->]%transition_ok. simpl in E. congruence.
    - exists [], r. simpl. split_and!; [done|done|lia]. }
  destruct c as [id' k o cid cfg|id' w l|id' w st|now]; simpl.
  - unfold create. destruct (is_blank o); [by apply Hsame|].
    destruct (create_run id' k o cid cfg s) as [[s' r0]|e] eqn:E; [|by apply Hsame]. simpl.
    apply Hsame. apply create_fresh in E as (Hn & _ & _ & _ & _ & Hg & _). rewrite Hg.
    destruct (String.eqb_spec id id') as [->|]; [congruence|done].
  - unfold claim. destruct (get_run id' s) as [r0|] eqn:E0; [|by apply Hsame].
    destruct (is_terminal r0); [by apply Hsame|].
    pose proof (claim_runs id' w l (revision r0) s) as Hc.
    destruct (try_claim id' w l (revision r0) s) as [s1 [c|]]; simpl in *; [|by apply Hsame].
    destruct (bool_decide (status r0 = PENDING)); [|by apply Hsame].
    destruct (Runs.transition CLAIMED r0) as [r1|e] eqn:Et; simpl; [|by apply Hsame].
    by eapply Hsave.
  - unfold transition. destruct (get_run id' s) as [r0|] eqn:E0; [|by apply Hsame].
    destruct (match get_claim id' s with Some c => negb (String.eqb (worker_id c) w) | None => false end);
      [by apply Hsame|].
    destruct (Runs.transition st r0) as [r1|e] eqn:Et; [|by apply Hsame]. simpl.
    destruct (is_terminal r1 && bool_decide (is_Some (get_claim id' s)));
      [rewrite release_runs|]; by eapply Hsave.
  - apply Hsame, reconcile_runs.
Qed.

Lemma run_calls_follow calls s id r :
  get_run id s = Some r → ∃ path r', get_run id (run_calls calls s) = Some r' ∧ follows r path r'.
Proof.
  revert s r. induction calls as [|c calls IH]; intros s r Hr; [by exists [], r|].
  destruct (perform_follows c s id r Hr) as (p1 & r1 & H1 & Hp1 & _).
  destruct (IH _ _ H1) as (p2 & r2 & H2 & Hp2). exists (p1 ++ p2), r2. split; [done|].
  by eapply follows_app.
Qed.

(** The claim of [holder] stays unless a lease expires or the holder finishes the run. *)
Lemma perform_keeps_claim c s id k :
  get_claim id s = Some k → (∀ now, c ≠ ReconcileExpired now) →
  (∀ i st, c = Transition i (worker_id k) st → st ∉ TERMINAL_STATUSES) →
  get_claim id (perform c s) = Some k.
Proof.
  intros Hk Hnow Hfin. destruct c as [id' rk o cid cfg|id' w l|id' w st|now]; simpl.
  - unfold create. destruct (is_blank o); [done|].
    destruct (create_run id' rk o cid cfg s) as [[s' r0]|e] eqn:E; [|done]. simpl.
    by apply create_fresh in E as (_ & _ & _ & _ & _ & _ & ->).
  - unfold claim. destruct (get_run id' s) as [r0|] eqn:E0; [|done]. destruct (is_terminal r0); [done|].
    assert (get_claim id (try_claim id' w l (revision r0) s).1 = Some k) as Ht.
    { destruct ((try_claim id' w l (revision r0) s).2) as [c|] eqn:Ec.
      - apply claim_granted in Ec as (_ & _ & _ & _ & Hn & Hg). rewrite Hg.
        destruct (String.eqb_spec id id') as [->|]; [congruence|done].
      - rewrite claim_refused by done. done. }
    destruct (try_claim id' w l (revision r0) s) as [s1 [c|]]; simpl in *; [|done].
    destruct (bool_decide (status r0 = PENDING)); [|done].
    destruct (Runs.transition CLAIMED r0); simpl; [by rewrite save_claims|done].
  - unfold transition. destruct (get_run id' s) as [r0|] eqn:E0; [|done].
    destruct (get_claim id' s) as [h|] eqn:Eh.
    + destruct (String.eqb_spec (worker_id h) w) as [<-|Hw]; simpl; [|done].
      destruct (Runs.transition st r0) as [r1|e] eqn:Et; [|done]. simpl.
      destruct (is_terminal r1) eqn:Hterm; simpl; [|by rewrite save_claims].
      rewrite release_claims, save_claims, Hk.
      destruct (String.eqb_spec id id') as [->|]; simpl; [|done].
      assert (h = k) as -> by congruence. destruct (Hfin id' st eq_refl).
      apply transition_ok in Et as [_ ->]. by apply mem_spec in Hterm.
    + destruct (Runs.transition st r0) as [r1|e]; [|done]. simpl. rewrite andb_false_r.
      by rewrite save_claims.
  - by destruct (Hnow now).
Qed.

Lemma run_calls_keep_claim calls s id k :
  get_claim id s = Some k →
  Forall (λ c, (∀ now, c ≠ ReconcileExpired now)
    ∧ ∀ i st, c = Transition i (worker_id k) st → st ∉ TERMINAL_STATUSES) calls →
  get_claim id (run_calls calls s) = Some k.
Proof.
  intros Hk Hc. revert s Hk. induction Hc as [|c calls [H1 H2] _ IH]; intros s Hk; [done|].
  by apply IH, perform_keeps_claim.
Qed.

Lemma claim_ok id w l s s' c :
  claim id w l s = (s', Ok c) → get_claim id s' = Some c ∧ worker_id c = w ∧ get_claim id s = None.
Proof.
  unfold claim. destruct (get_run id s) as [r|]; [|done]. destruct (is_terminal r); [done|].
  destruct (try_claim id w l (revision r) s) as [s1 o] eqn:E. intros Hc.
  assert (∀ k, o = Some k → get_claim id s1 = Some k ∧ worker_id k = w ∧ get_claim id s = None) as Hg.
  { intros k ->. pose proof (claim_granted id w l (revision r) s k) as Hg. rewrite E in Hg.
    destruct (Hg eq_refl) as (_ & Hw & _ & _ & Hn & Hs). simpl in Hs. rewrite Hs, String.eqb_refl. done. }
  destruct o as [k|]; [|done]. destruct (Hg k eq_refl) as (H1 & H2 & H3).
  destruct (bool_decide (status r = PENDING)); [|by simplify_eq].
  destruct (Runs.transition CLAIMED r); simplify_eq. by rewrite save_claims.
Qed.

(** A stored run only ever moves along the machine: whatever the calls of whatever workers,
    the run keeps its identity, kind, objective and correlation, its status is reached by
    allowed transitions, its revision counts exactly them, and a terminal run never changes
    again. *)
Theorem service_runs_follow_machine calls s id r :
  get_run id s = Some r →
  ∃ path r', get_run id (run_calls calls s) = Some r' ∧ follows r path r'
    ∧ revision r' = revision r + zlen path ∧ kind r' = kind r ∧ objective r' = objective r
    ∧ (is_terminal r = true → r' = r).
Proof.
  intros Hr. destruct (run_calls_follow calls s id r Hr) as (path & r' & Hg & Hp).
  exists path, r'. pose proof (follows_counts _ _ _ Hp) as (Hv & _ & Hk & Ho & _).
  split_and!; [done..|]. intros Ht. by eapply terminal_stays.
Qed.

(** A claim excludes other workers: once a worker has claimed a run, until a lease expires
    or the worker itself finishes a run, whatever else is called, the claim stays in force,
    every other claim of that run fails, and no other worker can move the run. *)
Theorem claim_excludes_others id w l s s' c calls w' l' st :
  claim id w l s = (s', Ok c) → w' ≠ w →
  Forall (λ c, (∀ now, c ≠ ReconcileExpired now)
    ∧ ∀ i st, c = Transition i w st → st ∉ TERMINAL_STATUSES) calls →
  let s'' := run_calls calls s' in
  get_claim id s'' = Some c
  ∧ is_ok (claim id w' l' s'').2 = false
  ∧ (∀ i, get_run i (claim id w' l' s'').1 = get_run i s'')
  ∧ is_ok (transition id w' st s'').2 = false ∧ (transition id w' st s'').1 = s''.
Proof.
  intros Hc Hw Hcalls s''. destruct (claim_ok _ _ _ _ _ _ Hc) as (Hk & Hcw & _).
  assert (get_claim id s'' = Some c) as Hk'.
  { apply run_calls_keep_claim; [done|]. by rewrite Hcw. }
  split; [done|].
  assert (is_ok (claim id w' l' s'').2 = false
    ∧ ∀ i, get_run i (claim id w' l' s'').1 = get_run i s'') as [H1 H2].
  { unfold claim. destruct (get_run id s'') as [r|]; [|done]. destruct (is_terminal r); [done|].
    pose proof (claim_runs id w' l' (revision r) s'') as Hr.
    pose proof (claim_granted id w' l' (revision r) s'') as Hg.
    destruct (try_claim id w' l' (revision r) s'') as [s1 [k|]]; simpl in *; [|done].
    destruct (Hg k eq_refl) as (_ & _ & _ & _ & Hn & _). congruence. }
  split_and!; [done|done|..]; unfold transition; destruct (get_run id s'') as [r|]; try done;
    rewrite Hk'; destruct (String.eqb_spec (worker_id c) w'); simpl; congruence.
Qed.

(** A transition succeeds exactly when the run exists, nobody else holds its claim and the
    machine allows it; the run is then saved in the new status and, when that is terminal,
    the worker's claim is released. *)
Theorem service_transition_iff id w st s s' r' :
  transition id w st s = (s', Ok r') ↔
  ∃ r, get_run id s = Some r ∧ Runs.transition st r = Ok r'
    ∧ (∀ c, get_claim id s = Some c → worker_id c = w)
    ∧ s' = (if is_terminal r' && bool_decide (is_Some (get_claim id s))
            then release_claim id w (save_run r' s) else save_run r' s).
Proof.
  unfold transition. destruct (get_run id s) as [r|]; [|naive_solver].
  destruct (get_claim id s) as [c|] eqn:Ec.
  - destruct (String.eqb_spec (worker_id c) w) as [Hw|Hw]; simpl.
    + destruct (Runs.transition st r) as [r1|e] eqn:Et; [|by split; [done|intros (? & [= <-] & Ht & _); congruence]]. split.
      * intros [= <- <-]. exists r. split_and!; [done|done|by intros ? [= <-]|done].
      * intros (? & [= <-] & Ht & _ & ->). rewrite Et in Ht. injection Ht as ->. done.
    + split; [done|]. intros (? & _ & _ & Hc & _). by destruct (Hw (Hc c eq_refl)).
  - destruct (Runs.transition st r) as [r1|e] eqn:Et; [|by split; [done|intros (? & [= <-] & Ht & _); congruence]]. split.
    + intros [= <- <-]. exists r. split_and!; [done..|]. done.
    + intros (? & [= <-] & Ht & _ & ->). rewrite Et in Ht. injection Ht as ->. done.
Qed.

End Laws.

End Service.

(** A store that satisfies the laws: two maps.  The clock of a lease is a constant text. *)
Module MapStore.

Import Runs Service.

Record store := MkStore { runs : gmap string AutomationRun; claims : gmap string Claim }.

(** The runs are filed under their identity. *)
Definition filed (m : gmap string AutomationRun) : Prop := map_Forall (λ i r, run_id r = i) m.

Record good_store := MkGood { body : store; body_filed : filed (runs body) }.

Lemma filed_insert r m : filed m → filed (<[run_id r := r]> m).
Proof. intros Hm. by apply map_Forall_insert_2. Qed.

Definition with_run (r : AutomationRun) (s : good_store) : good_store :=
  MkGood (MkStore (<[run_id r := r]> (runs (body s))) (claims (body s))) (filed_insert r _ (body_filed s)).

Definition with_claims (m : gmap string Claim) (s : good_store) : good_store :=
  MkGood (MkStore (runs (body s)) m) (body_filed s).

#[export] Instance map_store : AutomationStore good_store := {
  create_run id k o c cfg s :=
    let r := MkRun id k PENDING 0 o c cfg "" "" in
    match runs (body s) !! id with
    | Some _ => throw (Conflict "CONFLICT") "run exists"
    | None => Ok (with_run r s, r)
    end;
  get_run i s := runs (body s) !! i;
  save_run := with_run;
  try_claim id w l rev s :=
    match runs (body s) !! id, claims (body s) !! id with
    | Some r, None =>
        if revision r =? rev then
          let c := MkClaim id w "2026-01-01T00:05:00" rev in
          (with_claims (<[id := c]> (claims (body s))) s, Some c)
        else (s, None)
    | _, _ => (s, None)
    end;
  release_claim id w s :=
    match claims (body s) !! id with
    | Some c => if String.eqb (worker_id c) w then with_claims (delete id (claims (body s))) s else s
    | None => s
    end;
  get_claim i s := claims (body s) !! i;
  reconcile_expired_claims now s :=
    let kept := filter (λ kv : string * Claim, String.ltb (lease_until kv.2) now = false) (claims (body s)) in
    (with_claims kept s, Z.of_nat (size (claims (body s))) - Z.of_nat (size kept))
}.

#[export] Instance map_store_laws : AutomationStoreLaws good_store.
Proof.
  split; simpl.
  - intros id k o c cfg s s' r. destruct (runs (body s) !! id) eqn:E; [done|]. intros [= <- <-]. simpl.
    split_and!; [done..| |done]. intros i. destruct (String.eqb_spec i id) as [->|];
      [by rewrite lookup_insert_eq|by rewrite lookup_insert_ne by congruence].
  - intros r s i. destruct (String.eqb_spec i (run_id r)) as [->|];
      [by rewrite lookup_insert_eq|by rewrite lookup_insert_ne by congruence].
  - done.
  - intros i s r Hr. exact (body_filed s i r Hr).
  - intros id w l rev s i. destruct (runs (body s) !! id), (claims (body s) !! id); try done.
    by destruct (revision _ =? rev).
  - intros id w l rev s c. destruct (runs (body s) !! id) as [r|] eqn:Er, (claims (body s) !! id) eqn:Ec; try done.
    destruct (Z.eqb_spec (revision r) rev) as [<-|]; [|done]. intros [= <-]. simpl.
    split_and!; [done..|by exists r|done|]. intros i. destruct (String.eqb_spec i id) as [->|];
      [by rewrite lookup_insert_eq|by rewrite lookup_insert_ne by congruence].
  - intros id w l rev s. destruct (runs (body s) !! id), (claims (body s) !! id); try done.
    by destruct (revision _ =? rev).
  - intros id w s i. destruct (claims (body s) !! id); [|done]. by destruct (String.eqb _ w).
  - intros id w s i. destruct (String.eqb_spec i id) as [->|Hi]; simpl.
    + destruct (claims (body s) !! id) as [c|] eqn:Ec; [|by rewrite Ec].
      destruct (String.eqb (worker_id c) w); simpl; [by rewrite lookup_delete_eq|done].
    + destruct (claims (body s) !! id) as [c|]; [|by destruct (claims (body s) !! i)].
      destruct (String.eqb (worker_id c) w); simpl; [rewrite lookup_delete_ne by congruence|];
        by destruct (claims (body s) !! i).
  - done.
  - intros now s i. destruct (claims (body s) !! i) as [c|] eqn:Ec.
    + destruct (String.ltb (lease_until c) now) eqn:El.
      * right. apply map_lookup_filter_None. right. intros c' Hc'. simpl. congruence.
      * left. by apply map_lookup_filter_Some.
    + right. apply map_lookup_filter_None. by left.
Qed.

Definition empty_store : good_store := MkGood (MkStore ∅ ∅) (map_Forall_empty _).

(** A run that is created, claimed by one worker and started. *)
Definition session : list call :=
  [Create "r1" TASK "build" "c1" PNone; ClaimRun "r1" "w1" 300; Transition "r1" "w1" RUNNING].

Definition created : AutomationRun := MkRun "r1" TASK PENDING 0 "build" "c1" PNone "" "".
Definition w1_claim : Claim := MkClaim "r1" "w1" "2026-01-01T00:05:00" 0.

End MapStore.

Import Runs Service MapStore.

Lemma service_runs_follow_machine_witness :
  get_run "r1" (perform (Create "r1" TASK "build" "c1" PNone) empty_store) = Some created
  ∧ ∃ path r', get_run "r1" (run_calls [ClaimRun "r1" "w1" 300; Transition "r1" "w1" RUNNING]
                  (perform (Create "r1" TASK "build" "c1" PNone) empty_store)) = Some r'
      ∧ follows created path r' ∧ revision r' = 0 + zlen path ∧ kind r' = TASK ∧ objective r' = "build"
      ∧ (is_terminal created = true → r' = created).
Proof.
  assert (get_run "r1" (perform (Create "r1" TASK "build" "c1" PNone) empty_store) = Some created) as Hc
    by reflexivity.
  split; [exact Hc|]. exact (service_runs_follow_machine _ _ "r1" created Hc).
Defined.

Lemma claim_excludes_others_witness :
  let s := perform (Create "r1" TASK "build" "c1" PNone) empty_store in
  let s'' := run_calls [Transition "r1" "w1" RUNNING; ClaimRun "r1" "w2" 300] (claim "r1" "w1" 300 s).1 in
  get_claim "r1" s'' = Some w1_claim
  ∧ is_ok (claim "r1" "w2" 60 s'').2 = false
  ∧ (∀ i, get_run i (claim "r1" "w2" 60 s'').1 = get_run i s'')
  ∧ is_ok (transition "r1" "w2" CANCELLED s'').2 = false ∧ (transition "r1" "w2" CANCELLED s'').1 = s''.
Proof.
  intros s s''. unfold s''.
  apply (claim_excludes_others "r1" "w1" 300 s (claim "r1" "w1" 300 s).1 w1_claim _ "w2" 60 CANCELLED).
  - reflexivity.
  - discriminate.
  - repeat constructor; try discriminate; intros i st [= <- <-]; by apply mem_false.
Defined.

(** A worker's claim stops matching the run as soon as the claim itself moves it on. *)
Example claim_outdated_by_its_own_transition :
  let s := perform (Create "r1" TASK "build" "c1" PNone) empty_store in
  let '(s', c) := claim "r1" "w1" 300 s in
  c = Ok w1_claim ∧ (matches w1_claim <$> get_run "r1" s') = Some false.
Proof. by vm_compute. Qed.

(** A retried fleet agent has no way back to the queue. *)
Example retried_is_final : Machine.fleet_can_transition "retried" "queued" = false.
Proof. reflexivity. Qed.
