(* ===== verification/PyNumText.v ===== *)
(** Numbers as text: [float(s)] on ASCII text and ["%.3f" % x], each rounded once, as the
    interpreter does.

    [float] also accepts decimal digits of other scripts; such a text is not a number here. *)
From S2P Require Import Prelude PyFloat PyText CanonicalJson Sha256.
From Stdlib Require Import Ascii.

Local Open Scope Z_scope.

(** ** Reading *)

Definition is_dec (c : ascii) : bool := ascii_between 48 57 c.
Definition dec_value (c : ascii) : Z := Z.of_N (N_of_ascii c) - 48.

Definition starts_dec (s : string) : bool :=
  match s with String c _ => is_dec c | EmptyString => false end.

(** Digits, with single underscores between them: the number they continue from [acc], how
    many there are, and the rest of the text. *)
Fixpoint digits_from (acc : Z) (count : nat) (after_digit : bool) (s : string) : Z * nat * string :=
  match s with
  | EmptyString => (acc, count, "")
  | String c s' =>
      if is_dec c then digits_from (acc * 10 + dec_value c) (S count) true s'
      else if Ascii.eqb c "_" && after_digit && starts_dec s' then digits_from acc count false s'
      else (acc, count, s)
  end.

(** The float nearest to [m * 10 ^ e10]. *)
Definition of_decimal (neg : bool) (m : Z) (e10 : Z) : spec_float :=
  match m with
  | Zpos p =>
      if 0 <=? e10 then binary_normalize 53 1024 ((if neg then Z.opp else id) (m * 10 ^ e10)) 0 neg
      else match 10 ^ (- e10) with
           | Zpos q => SFdiv 53 1024 (S754_finite neg p 0) (S754_finite false q 0)
           | _ => S754_nan
           end
  | _ => S754_zero neg
  end.

Definition take_sign (s : string) : bool * string :=
  match s with
  | String "-"%char s' => (true, s')
  | String "+"%char s' => (false, s')
  | _ => (false, s)
  end.

(** The exponent at the end of a number, if the text is one. *)
Definition exponent_of (s : string) : option Z :=
  match s with
  | EmptyString => Some 0
  | String c s' =>
      if Ascii.eqb c "e" || Ascii.eqb c "E" then
        let '(neg, t) := take_sign s' in
        let '(z, n, r) := digits_from 0 0 false t in
        if (0 <? n)%nat && String.eqb r "" then Some (if neg then - z else z) else None
      else None
  end.

Definition lower_ascii (c : ascii) : ascii :=
  if ascii_between 65 90 c then ascii_of_N (N_of_ascii c + 32) else c.

Fixpoint lower (s : string) : string :=
  match s with EmptyString => "" | String c s' => String (lower_ascii c) (lower s') end.

(** [float(s)], or [None] for a [ValueError]. *)
Definition float_of (s : string) : option spec_float :=
  let '(neg, t) := take_sign (strip s) in
  if mem (lower t) ["inf"; "infinity"] then Some (S754_infinity neg)
  else if String.eqb (lower t) "nan" then Some S754_nan
  else
    let '(i, ni, r) := digits_from 0 0 false t in
    let '(m, nf, r2) :=
      match r with
      | String "."%char r' => digits_from i 0 false r'
      | _ => (i, 0%nat, r)
      end in
    if (ni + nf =? 0)%nat then None
    else match exponent_of r2 with
         | Some e => Some (of_decimal neg m (e - Z.of_nat nf))
         | None => None
         end.

(** ** Printing *)

(** [n / d] rounded to the nearest integer, ties to even. *)
Definition half_even (n d : Z) : Z :=
  let q := n / d in
  match 2 * (n mod d) ?= d with
  | Lt => q
  | Gt => q + 1
  | Eq => if Z.even q then q else q + 1
  end.

(** Thousandths of [m * 2 ^ e]. *)
Definition milli (m : positive) (e : Z) : Z :=
  if 0 <=? e then Zpos m * 2 ^ e * 1000 else half_even (Zpos m * 1000) (2 ^ (- e)).

Definition dec_char (z : Z) : ascii := ascii_of (48 + z).

Definition fixed3 (neg : bool) (n : Z) : string :=
  (if neg then "-" else "") +:+ pretty (Z.to_N (n / 1000)) +:+ "."
  +:+ String (dec_char (n / 100 mod 10)) (String (dec_char (n / 10 mod 10)) (String (dec_char (n mod 10)) "")).

(** ["%.3f" % x] *)
Definition fmt3 (x : spec_float) : string :=
  match x with
  | S754_zero s => fixed3 s 0
  | S754_finite s m e => fixed3 s (milli m e)
  | S754_infinity s => if s then "-inf" else "inf"
  | S754_nan => "nan"
  end.

(** The number such a text reads as. *)
Definition rounded3 (x : spec_float) : spec_float :=
  match x with
  | S754_zero s => S754_zero s
  | S754_finite s m e => of_decimal s (milli m e) (-3)
  | _ => x
  end.

Example fmt3_half : fmt3 (f64_div (f64_of_Z 1) (f64_of_Z 16)) = "0.062".
Proof. reflexivity. Qed.

Example float_of_time : float_of " 1_700.25e1 " = Some (f64_div (f64_of_Z 34005) (f64_of_Z 2)).
Proof. vm_compute. reflexivity. Qed.

(** ** Reading back *)

Lemma digits_from_dec acc k b c s :
  is_dec c = true → digits_from acc k b (String c s) = digits_from (acc * 10 + dec_value c) (S k) true s.
Proof. intros Hc. simpl. by rewrite Hc. Qed.

Lemma pretty_N_char_dec x :
  (x < 10)%N → is_dec (pretty_N_char x) = true ∧ dec_value (pretty_N_char x) = Z.of_N x.
Proof.
  destruct x as [|p]; [done|]. intros Hx.
  by repeat match goal with p : positive |- _ => destruct p; try lia end.
Qed.

Lemma digits_pretty_go n :
  (0 < n)%N → ∃ len, (0 < len)%nat ∧ ∀ acc k b s,
    digits_from acc k b (pretty_N_go n s) = digits_from (acc * 10 ^ Z.of_nat len + Z.of_N n) (k + len) true s.
Proof.
  induction n as [n IH] using (well_founded_induction N.lt_wf_0). intros Hn.
  destruct (pretty_N_char_dec (n mod 10)) as [Hd Hv]; [by apply N.mod_lt|].
  pose proof (N.div_mod n 10 ltac:(done)) as Hdm.
  destruct (decide (n / 10 = 0)%N) as [Hz|Hz].
  - exists 1%nat. split; [lia|]. intros acc k b s.
    rewrite pretty_N_go_step by done. rewrite Hz, pretty_N_go_0, digits_from_dec, Hv by done.
    f_equal; [|lia]. change (Z.of_nat 1) with 1. lia.
  - destruct (IH (n / 10)%N) as (len & Hlen & Hg); [by apply N.div_lt|by apply N.neq_0_lt_0|].
    exists (S len). split; [lia|]. intros acc k b s.
    rewrite pretty_N_go_step, Hg by done. rewrite digits_from_dec, Hv by done.
    f_equal; [|lia]. rewrite Nat2Z.inj_succ, Z.pow_succ_r by lia. lia.
Qed.

Lemma digits_pretty n :
  ∃ len, (0 < len)%nat ∧ ∀ s, digits_from 0 0 false (pretty n +:+ s) = digits_from (Z.of_N n) len true s.
Proof.
  unfold pretty, pretty_N. destruct (decide (n = 0%N)) as [->|Hn].
  - exists 1%nat. split; [lia|]. done.
  - destruct (digits_pretty_go n) as (len & Hlen & Hg); [lia|]. exists len. split; [done|]. intros s.
    assert (∀ m a, pretty_N_go m a +:+ s = pretty_N_go m (a +:+ s)) as Happ.
    { induction m as [m IH] using (well_founded_induction N.lt_wf_0). intros a.
      destruct (decide (m = 0)%N) as [->|Hm]; [by rewrite !pretty_N_go_0|].
      rewrite !(pretty_N_go_step m) by lia. rewrite IH by (apply N.div_lt; lia). done. }
    rewrite Happ, Hg. f_equal; lia.
Qed.

(** Three digits after the point. *)
Lemma digits_three n acc :
  0 <= n →
  digits_from acc 0 false (String (dec_char (n / 100 mod 10))
    (String (dec_char (n / 10 mod 10)) (String (dec_char (n mod 10)) "")))
  = (acc * 1000 + n mod 1000, 3%nat, "").
Proof.
  intros Hn.
  assert (∀ z, 0 <= z < 10 → is_dec (dec_char z) = true ∧ dec_value (dec_char z) = z) as Hc.
  { intros z Hz. assert (z ∈ seqZ 0 10) as Hin by (apply elem_of_seqZ; lia). cbn in Hin.
    repeat (apply elem_of_cons in Hin as [->|Hin]; [done|]). by apply elem_of_nil in Hin. }
  destruct (Hc (n / 100 mod 10)) as [H1 V1]; [by apply Z.mod_pos_bound|].
  destruct (Hc (n / 10 mod 10)) as [H2 V2]; [by apply Z.mod_pos_bound|].
  destruct (Hc (n mod 10)) as [H3 V3]; [by apply Z.mod_pos_bound|].
  rewrite !digits_from_dec, V1, V2, V3 by done. simpl. f_equal. f_equal.
  change 1000 with (10 * 100). rewrite Z.rem_mul_r by lia.
  change 100 with (10 * 10) at 3. rewrite Z.rem_mul_r by lia. rewrite Z.div_div by lia.
  change (10 * 10) with 100. lia.
Qed.

Lemma half_even_nonneg n d : 0 <= n → 0 < d → 0 <= half_even n d.
Proof.
  intros Hn Hd. pose proof (Z.div_pos n d Hn Hd). unfold half_even.
  destruct (_ ?= _); [destruct (Z.even _)|..]; lia.
Qed.

Lemma milli_nonneg m e : 0 <= milli m e.
Proof.
  unfold milli. destruct (Z.leb_spec 0 e); [|apply half_even_nonneg; lia].
  pose proof (Z.pow_nonneg 2 e ltac:(lia)). nia.
Qed.

(** Text without white space. *)
Definition visible (s : string) : bool := str_forallb (ascii_between 33 126) s.

Lemma strip_visible s : visible s = true → strip s = s.
Proof.
  unfold visible. intros Hs.
  assert (str_forallb (ascii_between 0 127) s = true) as Ha.
  { eapply str_forallb_impl; [|exact Hs]. intros c. unfold ascii_between. rewrite !andb_true_iff, !N.leb_le. lia. }
  destruct (ascii_decode s Ha) as [_ He].
  assert (Forall (λ z, is_space_point z = false) (utf8_decode s)) as Hd.
  { clear Ha He. induction s as [|c s IH]; [constructor|]. simpl in Hs. apply andb_true_iff in Hs as [Hc Hs].
    unfold ascii_between in Hc. apply andb_true_iff in Hc as [H1%N.leb_le H2%N.leb_le]. simpl.
    assert (33 <= byte_of c <= 126) as Hb by (unfold byte_of; lia).
    destruct (Z.ltb_spec (byte_of c) 192); [|lia]. constructor; [|by apply IH].
    unfold is_space_point. lia. }
  assert (∀ l, Forall (λ z, is_space_point z = false) l → drop_spaces l = l) as Hdrop.
  { intros l Hl. destruct Hl as [|z l Hz _]; [done|]. simpl. by rewrite Hz. }
  unfold strip. rewrite (Hdrop _ Hd), Hdrop by (by apply Forall_reverse).
  by rewrite reverse_involutive.
Qed.

Lemma dec_char_dec z : 0 <= z < 10 → is_dec (dec_char z) = true.
Proof.
  intros Hz. assert (z ∈ seqZ 0 10) as Hin by (apply elem_of_seqZ; lia). cbn in Hin.
  repeat (apply elem_of_cons in Hin as [->|Hin]; [done|]). by apply elem_of_nil in Hin.
Qed.

Lemma dec_visible c : is_dec c = true → ascii_between 33 126 c = true.
Proof. unfold is_dec, ascii_between. rewrite !andb_true_iff, !N.leb_le. lia. Qed.

Lemma pretty_head (n : N) : ∃ c s, pretty n = String c s ∧ is_dec c = true.
Proof.
  pose proof (pretty_N_digits n) as Hd. destruct (pretty n) as [|c s] eqn:E.
  - destruct (digits_pretty n) as (len & Hlen & Hg). specialize (Hg ""). rewrite E in Hg. simpl in Hg.
    injection Hg. lia.
  - exists c, s. split; [done|]. simpl in Hd. by apply andb_true_iff in Hd as [? _].
Qed.

Definition body3 (n : Z) : string :=
  pretty (Z.to_N (n / 1000)) +:+ "."
  +:+ String (dec_char (n / 100 mod 10)) (String (dec_char (n / 10 mod 10)) (String (dec_char (n mod 10)) "")).

Lemma body3_visible n : visible (body3 n) = true.
Proof.
  unfold visible, body3. rewrite !str_forallb_app. apply andb_true_iff. split.
  - eapply str_forallb_impl; [exact dec_visible|]. apply pretty_N_digits.
  - simpl. rewrite !(dec_visible (dec_char _)) by (apply dec_char_dec; by apply Z.mod_pos_bound). done.
Qed.

Lemma fixed3_visible neg n : visible (fixed3 neg n) = true.
Proof. destruct neg; [|apply body3_visible]. exact (body3_visible n). Qed.

(** What [fixed3] prints reads as the thousandths it was given. *)
Lemma float_of_fixed3 neg n : 0 <= n → float_of (fixed3 neg n) = Some (of_decimal neg n (-3)).
Proof.
  intros Hn. unfold float_of. rewrite strip_visible by apply fixed3_visible.
  assert (take_sign (fixed3 neg n) = (neg, body3 n)) as ->.
  { destruct neg; [done|]. unfold fixed3. simpl. fold (body3 n).
    destruct (pretty_head (Z.to_N (n / 1000))) as (c & s & E & Hc). unfold body3. rewrite E. simpl.
    destruct c as [[] [] [] [] [] [] [] []]; done. }
  assert (mem (lower (body3 n)) ["inf"; "infinity"] = false ∧ String.eqb (lower (body3 n)) "nan" = false) as [-> ->].
  { unfold body3. destruct (pretty_head (Z.to_N (n / 1000))) as (c & s & -> & Hc).
    assert (∀ w, is_dec w = false → lower_ascii c ≠ w) as Hne.
    { intros w Hw <-. revert Hw. revert Hc. by destruct c as [[] [] [] [] [] [] [] []]. }
    split; [apply mem_false; rewrite !elem_of_cons, elem_of_nil; intros [?|[?|[]]]|apply String.eqb_neq; intros ?];
      simplify_eq/=; by eapply Hne; [|eassumption]. }
  unfold body3. destruct (digits_pretty (Z.to_N (n / 1000))) as (len & Hlen & ->).
  change ("." +:+ ?s) with (String "." s). simpl digits_from at 1.
  cbv beta iota. rewrite digits_three by done. cbv beta iota. destruct (Nat.eqb_spec (len + 3) 0) as [|_]; [lia|]. simpl. do 2 f_equal.
  rewrite Z2N.id by (apply Z.div_pos; lia). pose proof (Z.div_mod n 1000). lia.
Qed.

(** Printing with three decimals and reading back gives the rounded number. *)
Lemma float_of_fmt3 x : float_of (fmt3 x) = Some (rounded3 x).
Proof.
  destruct x as [s|s| |s m e]; [exact (float_of_fixed3 s 0 ltac:(lia))|by destruct s|done|].
  apply float_of_fixed3, milli_nonneg.
Qed.

(** It has no colon. *)
Lemma fmt3_free x : free_of ":" (fmt3 x) = true.
Proof.
  assert (∀ c, is_dec c = true → negb (Ascii.eqb c ":") = true) as Hd
    by (intros c; by destruct c as [[] [] [] [] [] [] [] []]).
  assert (∀ neg n, free_of ":" (fixed3 neg n) = true) as Hf.
  { intros neg n. unfold fixed3, free_of. rewrite !str_forallb_app, !andb_true_iff. split_and!.
    - by destruct neg.
    - eapply str_forallb_impl; [exact Hd|]. apply pretty_N_digits.
    - done.
    - simpl. rewrite !Hd by (apply dec_char_dec; by apply Z.mod_pos_bound). done. }
  destruct x as [s|s| |s m e]; [apply Hf|by destruct s|done|apply Hf].
Qed.
