(* ===== verification/FleetStore.v ===== *)
(** The durable ledger of fleet agents: [adapters/persistence/fleet_store.py].

    The database is a value: a map per table.  Every operation is one [BEGIN IMMEDIATE]
    transaction on it, so an interleaving of processes is a sequence of operations; an error
    rolls back.  Clock readings, the host, the process probe and fresh tokens are arguments.

    The values of a row have the declared types of their columns; an absent entry of a new
    row is its neutral value.  The JSON columns hold the decoded lists, and [drift_metrics]
    the encoded text. *)
From S2P Require Import Prelude PyFloat PyText PyNumText CanonicalJson Sha256 Automation.
From Stdlib Require Import Ascii.

Local Open Scope Z_scope.

Import Machine.

Definition ACTIVE_STATUSES := FLEET_ACTIVE.
Definition DEFAULT_STALE_SECONDS : Z := 60.
Definition DEFAULT_STALE_GRACE_SECONDS : Z := 10.
Definition MAX_TASK_CHARS : Z := 32000.
Definition MAX_OUTPUT_CHARS : Z := 128000.
Definition MAX_ERROR_CHARS : Z := 8000.
Definition MAX_SUMMARY_CHARS : Z := 2000.
Definition MAX_ACTIVITY_CHARS : Z := 500.
Definition RETRY_LEASE_PREFIX := "retry-pending:".
Definition DEFAULT_RETRY_LEASE_SECONDS : Z := 120.
Definition MAX_RETRY_LEASE_SECONDS : Z := 3600.
Definition RETRYABLE_STATUSES := ["interrupted"; "failed"; "cancelled"; "task_drift"].

(** ** Tables *)

Record owner := MkOwner {
  o_pid : Z;
  o_host : string;
  o_started_ts : spec_float;
  o_heartbeat_ts : spec_float;
  o_process_identity : string;
  o_stale_seen_ts : option spec_float;
  o_closed_ts : option spec_float
}.

Record principal := MkPrincipal {
  p_secret_hash : string;
  p_created_ts : spec_float;
  p_last_seen_ts : spec_float
}.

(** The columns of [fleet_agents] in four groups: the ones no operation changes, the ones of
    the life cycle, the result, and the counters of the work. *)
Record agent_fixed := MkFixed {
  owner_id : string;
  owner_pid : Z;
  principal_id : string;
  role : string;
  parent_id : string;
  task : string;
  started_ts : spec_float;
  project : string;
  retry_of : string;
  master_task_digest : string;
  delegated_task_digest : string;
  objective_ids : list string
}.

Record agent_life := MkLife {
  status : string;
  activity : string;
  updated_ts : spec_float;
  finished_ts : option spec_float;
  cancel_requested : bool;
  in_model_call : bool;
  retried_by : string
}.

Record agent_result := MkResult {
  summary : string;
  output : string;
  error : string;
  tokens_out : Z;
  task_drift : bool;
  drift_metrics : string
}.

Record agent_work := MkWork {
  tool_calls : Z;
  tokens_in : Z;
  files : list string;
  requested_agents : Z;
  worker_slots : Z;
  mode : string;
  tier : string
}.

Record agent := MkAgent { fixed : agent_fixed; life : agent_life; result : agent_result; work : agent_work }.

Record message := MkMessage {
  sender_id : string;
  recipient_id : string;
  m_owner_id : string;
  m_principal_id : string;
  project_scope : string;
  scope_root_id : string;
  m_mode : string;
  m_body : string;
  m_status : string;
  queued_ts : spec_float;
  delivered_ts : option spec_float;
  expires_ts : spec_float
}.

(** An event with the provenance it copies from its agent. *)
Record event := MkEvent {
  e_agent_id : string;
  e_owner_id : string;
  e_ts : spec_float;
  e_stamp : string;
  e_message : string;
  e_master_task_digest : string;
  e_delegated_task_digest : string;
  e_objective_ids : list string;
  e_task_drift : bool
}.

Record fleet := MkFleet {
  owners : gmap string owner;
  principals : gmap string principal;
  agents : gmap string agent;
  messages : gmap string message;
  events : list event
}.

Definition empty_fleet : fleet := MkFleet ∅ ∅ ∅ ∅ [].

Definition with_owners (m : gmap string owner) (db : fleet) : fleet :=
  MkFleet m (principals db) (agents db) (messages db) (events db).
Definition with_principals (m : gmap string principal) (db : fleet) : fleet :=
  MkFleet (owners db) m (agents db) (messages db) (events db).
Definition with_agents (m : gmap string agent) (db : fleet) : fleet :=
  MkFleet (owners db) (principals db) m (messages db) (events db).
Definition with_messages (m : gmap string message) (db : fleet) : fleet :=
  MkFleet (owners db) (principals db) (agents db) m (events db).

(** A transaction: the database it leaves and its result. *)
Definition _write_transaction {A} (body : fleet → res (fleet * A)) (db : fleet) : fleet * res A :=
  match body db with
  | Ok (db', a) => (db', Ok a)
  | Err e => (db, Err e)
  end.

(** ** Helpers *)

(** [text[:limit]] *)
Definition _clamp_text (text : string) (limit : Z) : string :=
  utf8_encode (take (Z.to_nat limit) (utf8_decode text)).

Definition _files_json (l : list string) : list string := (λ s, _clamp_text s 2000) <$> take 100 l.
Definition _objective_ids_json (l : list string) : list string := (λ s, _clamp_text s 64) <$> take 32 l.

Definition _drift_metrics_json (encoded : string) : string :=
  if Z.of_nat (String.length encoded) <=? 4000 then encoded
  else json_dumps (JObj [("audit_truncated", JBool true); ("sha256", JStr (sha256_hex encoded))]).

Definition is_active_status (a : agent) : bool := mem (status (life a)) ["queued"; "running"].

(** [raise ValueError] unless the state machine has the edge. *)
Definition require_edge (src dst : string) : res unit :=
  require (fleet_can_transition src dst) ValueError
    ("fleet state machine does not allow " +:+ src +:+ " -> " +:+ dst).

Fixpoint require_edges (srcs : list string) (dst : string) : res unit :=
  match srcs with
  | [] => Ok tt
  | src :: rest => _ ← require_edge src dst; require_edges rest dst
  end.

(** [float(value or time.time())] *)
Definition or_clock (value : option spec_float) (clock : spec_float) : spec_float :=
  match value with
  | Some (S754_zero _) | None => clock
  | Some f => f
  end.

(** SQLite's [text LIKE pattern ESCAPE '\'], on code points; letters compare without case. *)
Definition fold_ascii (z : Z) : Z := if (65 <=? z) && (z <=? 90) then z + 32 else z.
Definition same_letter (a b : Z) : bool := fold_ascii a =? fold_ascii b.

Fixpoint like (pattern : list Z) : list Z → bool :=
  match pattern with
  | [] => λ text, match text with [] => true | _ => false end
  | c :: rest =>
      if c =? 92 then
        match rest with
        | [] => λ _, false
        | d :: rest' => λ text, match text with x :: text' => same_letter d x && like rest' text' | [] => false end
        end
      else if c =? 37 then
        fix any (text : list Z) : bool :=
          like rest text || match text with [] => false | _ :: text' => any text' end
      else if c =? 95 then
        λ text, match text with _ :: text' => like rest text' | [] => false end
      else λ text, match text with x :: text' => same_letter c x && like rest text' | [] => false end
  end.

Definition sql_like (pattern text : string) : bool := like (utf8_decode pattern) (utf8_decode text).

(** ** Principals and owners *)

Definition _principal_secret_hash (secret : string) : string := sha256_hex secret.

Definition register_principal (principal_id secret : string) (now : spec_float) (db : fleet)
  : fleet * res unit :=
  let principal := strip principal_id in
  if negb (String.prefix "principal-" principal) || (96 <? py_len principal)
  then (db, throw ValueError "invalid fleet principal id")
  else if (py_len secret <? 32) || (256 <? py_len secret)
  then (db, throw ValueError "invalid fleet principal secret")
  else
    let digest := _principal_secret_hash secret in
    _write_transaction (λ db,
      _ ← require (match principals db !! principal with
                   | Some p => String.eqb (p_secret_hash p) digest
                   | None => true
                   end) PermissionError "fleet principal authentication failed";
      let row := match principals db !! principal with
                 | Some p => MkPrincipal (p_secret_hash p) (p_created_ts p) now
                 | None => MkPrincipal digest now now
                 end in
      Ok (with_principals (<[principal := row]> (principals db)) db, tt)) db.

Definition _authenticate_principal (db : fleet) (principal_id secret : string) : res string :=
  let principal := strip principal_id in
  _ ← require (match principals db !! principal with
               | Some p => negb (String.eqb secret "")
                           && String.eqb (p_secret_hash p) (_principal_secret_hash secret)
               | None => false
               end) PermissionError "fleet principal authentication failed";
  Ok principal.

Definition register_owner (id : string) (pid : Z) (host identity : string) (started : option spec_float)
    (now : spec_float) (db : fleet) : fleet :=
  let row := match owners db !! id with
             | Some o => MkOwner pid host (o_started_ts o) now identity None None
             | None => MkOwner pid host (or_clock started now) now identity None None
             end in
  with_owners (<[id := row]> (owners db)) db.

Definition heartbeat_owner (id : string) (now : spec_float) (db : fleet) : fleet * bool :=
  match owners db !! id with
  | Some (MkOwner pid host started _ identity _ None) =>
      (with_owners (<[id := MkOwner pid host started now identity None None]> (owners db)) db, true)
  | _ => (db, false)
  end.

(** The row an owner's active agent becomes when the owner is gone. *)
Definition interrupt (reason : string) (now : spec_float) (a : agent) : agent :=
  MkAgent (fixed a)
    (MkLife "interrupted" reason now (Some now) true false (retried_by (life a)))
    (result a) (work a).

Definition owned_active (id : string) (a : agent) : bool :=
  String.eqb (owner_id (fixed a)) id && is_active_status a.

(** [UPDATE fleet_agents SET status='interrupted' ... WHERE owner_id=? AND status IN ...], with
    the number of rows. *)
Definition interrupt_owned (id reason : string) (now : spec_float) (m : gmap string agent)
  : gmap string agent * Z :=
  ((λ a, if owned_active id a then interrupt reason now a else a) <$> m,
   Z.of_nat (size (filter (λ kv : string * agent, owned_active id kv.2 = true) m))).

Definition close_owner (id reason : string) (now : spec_float) (db : fleet) : fleet * res Z :=
  match require_edges ["queued"; "running"] "interrupted" with
  | Err e => (db, Err e)
  | Ok _ =>
      let '(m, n) := interrupt_owned id (_clamp_text reason MAX_ACTIVITY_CHARS) now (agents db) in
      let close o := MkOwner (o_pid o) (o_host o) (o_started_ts o) now (o_process_identity o)
                       (o_stale_seen_ts o) (Some now) in
      (with_owners (alter close id (owners db)) (with_agents m db), Ok n)
  end.

(** What reconciliation reports. *)
Record reconcile_report := MkReport {
  suspect_owners : Z;
  interrupted : Z;
  reclaimed : list string;
  identity_mismatches : list string
}.

Definition PROCESS_DEAD := "dead".

(** An owner row the pass looks at. *)
Definition stale_owner (cutoff : spec_float) (o : owner) : bool :=
  negb (bool_decide (is_Some (o_closed_ts o))) && f64_ltb (o_heartbeat_ts o) cutoff.

(** The probe's answer for an owner: the state and the identity it saw. *)
Definition probe_owner (probe : Z → option string → string * option string) (o : owner)
  : string * option string :=
  probe (o_pid o) (if String.eqb (o_process_identity o) "" then None else Some (o_process_identity o)).

(** The body of the loop for one stale owner row. *)
Definition reconcile_owner (host : string) (probe : Z → option string → string * option string)
    (current : spec_float) (grace : Z) (acc : fleet * reconcile_report) (row : string * owner)
  : fleet * reconcile_report :=
  let '(db, r) := acc in
  let '(id, o) := row in
  if negb (String.eqb (o_host o) host) then acc
  else
    let '(state, observed) := probe_owner probe o in
    if negb (String.eqb state PROCESS_DEAD) then acc
    else
      let mismatch := match observed with
                      | Some s => negb (String.eqb (o_process_identity o) "") && negb (String.eqb s "")
                                  && negb (String.eqb s (o_process_identity o))
                      | None => false
                      end in
      let seen := if mismatch then identity_mismatches r ++ [id] else identity_mismatches r in
      match o_stale_seen_ts o with
      | None =>
          let mark o := MkOwner (o_pid o) (o_host o) (o_started_ts o) (o_heartbeat_ts o)
                          (o_process_identity o) (Some current) (o_closed_ts o) in
          (with_owners (alter mark id (owners db)) db,
           MkReport (suspect_owners r + 1) (interrupted r) (reclaimed r) seen)
      | Some since =>
          if f64_ltb (f64_sub current (f64_of_Z grace)) since
          then (db, MkReport (suspect_owners r + 1) (interrupted r) (reclaimed r) seen)
          else
            let '(m, n) := interrupt_owned id "interrupted after owner heartbeat expired" current (agents db) in
            let close o := MkOwner (o_pid o) (o_host o) (o_started_ts o) (o_heartbeat_ts o)
                             (o_process_identity o) (o_stale_seen_ts o) (Some current) in
            (with_owners (alter close id (owners db)) (with_agents m db),
             MkReport (suspect_owners r) (interrupted r + n) (reclaimed r ++ [id]) seen)
      end.

(** The transaction of [reconcile_stale_owners]; the query before it only skips the
    transaction when no owner is stale.  The order of the rows is the map's. *)
Definition reconcile_stale_owners (now : option spec_float) (stale_seconds grace_seconds : Z)
    (clock : spec_float) (host : string) (probe : Z → option string → string * option string) (db : fleet)
  : fleet * res reconcile_report :=
  match require_edges ["queued"; "running"] "interrupted" with
  | Err e => (db, Err e)
  | Ok _ =>
      let current := or_clock now clock in
      let stale := Z.max 15 (Z.min stale_seconds 3600) in
      let grace := Z.max 1 (Z.min grace_seconds 300) in
      let cutoff := f64_sub current (f64_of_Z stale) in
      let rows := map_to_list (filter (λ kv : string * owner, stale_owner cutoff kv.2 = true) (owners db)) in
      let '(db', r) := foldl (reconcile_owner host probe current grace) (db, MkReport 0 0 [] []) rows in
      (db', Ok r)
  end.

(** ** The life of an agent *)

(** A row as the caller describes it: an absent or empty entry is [""], [0], [false], [[]] or
    [None]. *)
Record agent_row := MkRow {
  r_id : string;
  r_principal_id : string;
  r_role : option string;
  r_parent_id : string;
  r_task : string;
  r_status : string;
  r_activity : string;
  r_started_ts : option spec_float;
  r_updated_ts : option spec_float;
  r_finished_ts : option spec_float;
  r_tool_calls : Z;
  r_tokens_in : Z;
  r_tokens_out : Z;
  r_files : list string;
  r_summary : string;
  r_output : string;
  r_error : string;
  r_cancel_requested : bool;
  r_in_model_call : bool;
  r_requested_agents : Z;
  r_worker_slots : Z;
  r_mode : string;
  r_tier : string;
  r_project : string;
  r_retry_of : string;
  r_retried_by : string;
  r_master_task_digest : string;
  r_delegated_task_digest : string;
  r_objective_ids : list string;
  r_task_drift : bool;
  r_drift_metrics : string
}.

(** [a or b] on text. *)
Definition text_or (a b : string) : string := if String.eqb a "" then b else a.

(** The checks against the parent's row, and whether the parent is already cancelled. *)
Definition check_parent (parent : option agent) (principal project' : string) : res bool :=
  match parent with
  | None => Ok false
  | Some p =>
      _ ← require (String.eqb (principal_id (fixed p)) principal) PermissionError
            "child principal must match its parent tree";
      _ ← require (String.eqb (project (fixed p)) project') PermissionError
            "child project must match its parent tree";
      Ok (cancel_requested (life p) || mem (status (life p)) ["cancelled"; "interrupted"])
  end.

(** The inserted row; [inherited] is a cancellation taken over from the parent. *)
Definition new_agent (row : agent_row) (owner : string) (pid : Z) (principal : string) (inherited : bool)
    (now : spec_float) : agent :=
  let status := text_or (r_status row) "queued" in
  MkAgent
    (MkFixed owner pid principal (default "agent" (r_role row)) (r_parent_id row)
       (_clamp_text (r_task row) MAX_TASK_CHARS) (or_clock (r_started_ts row) now) (r_project row)
       (r_retry_of row) (_clamp_text (r_master_task_digest row) 64)
       (_clamp_text (r_delegated_task_digest row) 64) (_objective_ids_json (r_objective_ids row)))
    (MkLife (if inherited then "cancelled" else status)
       (if inherited then "cancelled with parent"
        else _clamp_text (text_or (r_activity row) status) MAX_ACTIVITY_CHARS)
       now (if inherited then Some now else r_finished_ts row) (r_cancel_requested row || inherited)
       (r_in_model_call row) (r_retried_by row))
    (MkResult (if inherited then "cancelled before model call" else _clamp_text (r_summary row) MAX_SUMMARY_CHARS)
       (_clamp_text (r_output row) MAX_OUTPUT_CHARS) (_clamp_text (r_error row) MAX_ERROR_CHARS)
       (r_tokens_out row) (r_task_drift row) (_drift_metrics_json (r_drift_metrics row)))
    (MkWork (r_tool_calls row) (r_tokens_in row) (_files_json (r_files row)) (r_requested_agents row)
       (r_worker_slots row) (r_mode row) (r_tier row)).

(** [create_agent]; announcing a new root to the narration is left out. *)
Definition create_agent (row : agent_row) (owner : string) (pid : Z) (principal_arg secret : string)
    (clock : spec_float) (db : fleet) : fleet * res agent :=
  let now := or_clock (r_updated_ts row) clock in
  let principal := text_or principal_arg (r_principal_id row) in
  _write_transaction (λ db,
    _ ← (if String.eqb principal "" then Ok "" else _authenticate_principal db principal secret);
    inherited ← (if String.eqb (r_parent_id row) "" then Ok false
                 else check_parent (agents db !! r_parent_id row) principal (r_project row));
    _ ← require (negb (bool_decide (is_Some (agents db !! r_id row)))) IntegrityError
          "UNIQUE constraint failed: fleet_agents.id";
    let a := new_agent row owner pid principal inherited now in
    Ok (with_agents (<[r_id row := a]> (agents db)) db, a)) db.

(** [CASE WHEN n > 0 THEN n ELSE column END] *)
Definition positive_or (n column : Z) : Z := if 0 <? n then n else column.

Definition start_agent (id owner act : string) (in_call : bool) (calls agents' slots : Z)
    (mode' tier' : string) (now : spec_float) (db : fleet) : fleet * res (option agent) :=
  match require_edge "queued" "running" with
  | Err e => (db, Err e)
  | Ok _ =>
      match agents db !! id with
      | Some a =>
          if String.eqb (owner_id (fixed a)) owner && String.eqb (status (life a)) "queued"
             && negb (cancel_requested (life a)) then
            let a' := MkAgent (fixed a)
              (MkLife "running" (_clamp_text act MAX_ACTIVITY_CHARS) now (finished_ts (life a))
                 (cancel_requested (life a)) in_call (retried_by (life a)))
              (result a)
              (MkWork calls (tokens_in (work a)) (files (work a))
                 (positive_or agents' (requested_agents (work a))) (positive_or slots (worker_slots (work a)))
                 (text_or mode' (mode (work a))) (text_or tier' (tier (work a)))) in
            (with_agents (<[id := a']> (agents db)) db, Ok (Some a'))
          else (db, Ok None)
      | None => (db, Ok None)
      end
  end.

Definition begin_model_call (id owner act : string) (calls : Z) (now : spec_float) (db : fleet)
  : fleet * option agent :=
  match agents db !! id with
  | Some a =>
      if String.eqb (owner_id (fixed a)) owner && String.eqb (status (life a)) "running"
         && negb (cancel_requested (life a)) then
        let w := work a in
        let a' := MkAgent (fixed a)
          (MkLife (status (life a)) (_clamp_text act MAX_ACTIVITY_CHARS) now (finished_ts (life a))
             (cancel_requested (life a)) true (retried_by (life a)))
          (result a)
          (MkWork calls (tokens_in w) (files w) (requested_agents w) (worker_slots w) (mode w) (tier w)) in
        (with_agents (<[id := a']> (agents db)) db, Some a')
      else (db, None)
  | None => (db, None)
  end.

(** The keyword arguments of [update_agent] that name a column it may change. *)
Record agent_changes := MkChanges {
  c_activity : option string;
  c_tool_calls : option Z;
  c_tokens_in : option Z;
  c_tokens_out : option Z;
  c_files : option (list string);
  c_summary : option string;
  c_requested_agents : option Z;
  c_worker_slots : option Z;
  c_mode : option string;
  c_tier : option string;
  c_in_model_call : option bool
}.

Definition no_changes (c : agent_changes) : bool :=
  match c with
  | MkChanges None None None None None None None None None None None => true
  | _ => false
  end.

Definition apply_changes (c : agent_changes) (now : spec_float) (a : agent) : agent :=
  let l := life a in let r := result a in let w := work a in
  MkAgent (fixed a)
    (MkLife (status l)
       (match c_activity c with Some s => _clamp_text s MAX_ACTIVITY_CHARS | None => activity l end)
       now (finished_ts l) (cancel_requested l) (default (in_model_call l) (c_in_model_call c))
       (retried_by l))
    (MkResult (match c_summary c with Some s => _clamp_text s MAX_SUMMARY_CHARS | None => summary r end)
       (output r) (error r) (default (tokens_out r) (c_tokens_out c)) (task_drift r) (drift_metrics r))
    (MkWork (default (tool_calls w) (c_tool_calls c)) (default (tokens_in w) (c_tokens_in c))
       (match c_files c with Some l => _files_json l | None => files w end)
       (default (requested_agents w) (c_requested_agents c)) (default (worker_slots w) (c_worker_slots c))
       (default (mode w) (c_mode c)) (default (tier w) (c_tier c))).

(** The agent with exactly this identity, else the only one whose identity starts with the
    text, letters compared without case. *)
Definition starts_like (value id : string) : bool :=
  (fix go (p t : list Z) : bool :=
     match p, t with
     | [], _ => true
     | c :: p', x :: t' => same_letter c x && go p' t'
     | _ :: _, [] => false
     end) (utf8_decode value) (utf8_decode id).

Definition get_agent (selector role' : string) (db : fleet) : option agent :=
  let value := strip selector in
  let fits (a : agent) := String.eqb role' "" || String.eqb (role (fixed a)) role' in
  if String.eqb value "" then None
  else
    match (a ← agents db !! value; if fits a then Some a else None) with
    | Some a => Some a
    | None =>
        match map_to_list (filter (λ kv : string * agent, starts_like value kv.1 && fits kv.2 = true) (agents db)) with
        | [(_, a)] => Some a
        | _ => None
        end
    end.

Definition update_agent (id owner : string) (c : agent_changes) (now : spec_float) (db : fleet)
  : fleet * option agent :=
  if no_changes c then (db, get_agent id "" db)
  else
    let m := alter (λ a, if String.eqb (owner_id (fixed a)) owner then apply_changes c now a else a) id
               (agents db) in
    (with_agents m db, m !! id).

Record provenance := MkProvenance {
  pv_from : string; pv_to : string; pv_source : string; pv_ts : spec_float; pv_valid : bool
}.
Definition transition_provenance (current target source : string) (now : spec_float) : provenance :=
  MkProvenance current target source now (fleet_can_transition current target).

(** ** Finishing *)

(** How a finish of an unfinished agent is recorded. *)
Record verdict := MkVerdict {
  v_status : string;
  v_activity : string;
  v_summary : string;
  v_output : string;
  v_error : string;
  v_marker : string;
  v_tokens_out : Z
}.

Definition cancelled_verdict : verdict :=
  MkVerdict "cancelled" "cancelled; late result discarded"
    "cancelled; active call returned and its result was discarded" "" "" "CANCELLED" 0.

Definition drift_verdict (error : string) : verdict :=
  let summary := "task drift; authoritative objective coverage failed" in
  MkVerdict "task_drift" "task drift; result rejected before aggregation" summary ""
    (_clamp_text (text_or error summary) MAX_ERROR_CHARS) "TASK_DRIFT" 0.

Definition result_verdict (output error : string) : verdict :=
  MkVerdict (if String.eqb error "" then "done" else "failed")
    (if String.eqb error "" then "finished" else "failed: " +:+ _clamp_text error 160)
    (_clamp_text (text_or output error) MAX_SUMMARY_CHARS)
    (_clamp_text output MAX_OUTPUT_CHARS) (_clamp_text error MAX_ERROR_CHARS) output
    (Z.max 0 ((py_len output + 3) / 4)).

Definition output_of (a : agent) : string := output (result a).
Definition error_of (a : agent) : string := error (result a).

(** The text of a result that is already stored. *)
Definition recorded_text (a : agent) : string :=
  if negb (String.eqb (output_of a) "") then output_of a
  else if String.eqb (error_of a) "" then ""
  else "ERROR: " +:+ error_of a.

(** What the finish decides on the stored row: [inl] is the marker returned without a change. *)
Definition judge_finish (a : agent) (output error : string) (drift : bool) : string + verdict :=
  let st := status (life a) in
  if String.eqb st "interrupted" then inl "INTERRUPTED"
  else if cancel_requested (life a) || String.eqb st "cancelled" then inr cancelled_verdict
  else if mem st ["done"; "failed"; "task_drift"] then
    inl (recorded_text a)
  else if drift then inr (drift_verdict error)
  else inr (result_verdict output error).

Definition record_verdict (v : verdict) (drift : bool) (metrics : string) (now : spec_float) (a : agent)
  : agent :=
  MkAgent (fixed a)
    (MkLife (v_status v) (v_activity v) now (Some now) (cancel_requested (life a)) false (retried_by (life a)))
    (MkResult (v_summary v) (v_output v) (v_error v) (v_tokens_out v) drift (_drift_metrics_json metrics))
    (work a).

(** [UPDATE fleet_messages SET status='expired'] where the condition holds. *)
Definition expire_messages (p : message → bool) (m : gmap string message) : gmap string message :=
  (λ x, if p x then
     MkMessage (sender_id x) (recipient_id x) (m_owner_id x) (m_principal_id x) (project_scope x)
       (scope_root_id x) (m_mode x) (m_body x) "expired" (queued_ts x) (delivered_ts x) (expires_ts x)
   else x) <$> m.

Definition set_retried_by (claim : string) (now : spec_float) (a : agent) : agent :=
  let l := life a in
  MkAgent (fixed a)
    (MkLife (status l) (activity l) now (finished_ts l) (cancel_requested l) (in_model_call l) claim)
    (result a) (work a).

(** [retried_by LIKE 'retry-pending:%'] *)
Definition is_claim (s : string) : bool := sql_like (RETRY_LEASE_PREFIX +:+ "%") s.

(** The two updates of the source of a retry master that has finished. *)
Definition settle_retry (id : string) (stored : agent) (now : spec_float) (m : gmap string agent)
  : res (gmap string agent) :=
  let source := retry_of (fixed stored) in
  if negb (String.eqb (role (fixed stored)) "master") || String.eqb source "" then Ok m
  else if mem (status (life stored)) ["failed"; "cancelled"; "task_drift"] then
    Ok (alter (λ a, if is_claim (retried_by (life a)) then set_retried_by "" now a else a) source m)
  else if String.eqb (status (life stored)) "done" then
    _ ← require_edges ["interrupted"; "failed"; "cancelled"; "task_drift"] "retried";
    Ok (alter (λ a,
          if mem (status (life a)) ["interrupted"; "failed"; "cancelled"; "task_drift"] then
            MkAgent (fixed a)
              (MkLife "retried" ("retried successfully as " +:+ id) now (finished_ts (life a))
                 (cancel_requested (life a)) (in_model_call (life a)) id)
              (result a) (work a)
          else a) source m)
  else Ok m.

Definition finish_agent (id owner output error : string) (drift : bool) (metrics : string)
    (now : spec_float) (db : fleet) : fleet * res (option agent * string) :=
  _write_transaction (λ db,
    match agents db !! id with
    | Some a =>
        if negb (String.eqb (owner_id (fixed a)) owner) then Ok (db, (None, ""))
        else
          match judge_finish a output error drift with
          | inl marker => Ok (db, (Some a, marker))
          | inr v =>
              _ ← (if String.eqb (status (life a)) (v_status v) then Ok tt
                   else require_edge (status (life a)) (v_status v));
              let stored := record_verdict v drift metrics now a in
              let ms := expire_messages (λ x, String.eqb (recipient_id x) id && String.eqb (m_mode x) "steer"
                                              && String.eqb (m_status x) "queued") (messages db) in
              m ← settle_retry id stored now (<[id := stored]> (agents db));
              Ok (with_messages ms (with_agents m db), (Some stored, v_marker v))
          end
    | None => Ok (db, (None, ""))
    end) db.

(** ** Cancellation *)

(** [value.lower() in ("all", "*")]: only ASCII letters lower to the letters of [all]. *)
Definition selects_all (value : string) : bool := mem (lower value) ["all"; "*"].

(** The rows the selector names among the active ones. *)
Definition named_by (value : string) (active : gmap string agent) : gset string :=
  if selects_all value then dom active
  else if String.eqb value "" then ∅
  else if bool_decide (is_Some (active !! value)) then {[value]}
  else filter (λ id, String.prefix value id = true) (dom active).

(** One pass of the loop: a row whose parent is selected is selected too. *)
Definition select_children (active : list (string * agent)) (selected : gset string) : gset string :=
  foldl (λ sel kv, if bool_decide (parent_id (fixed kv.2) ∈ sel) then {[kv.1]} ∪ sel else sel) selected active.

(** [while changed]: the passes, at most [fuel] of them. *)
Fixpoint select_subtree (fuel : nat) (active : list (string * agent)) (selected : gset string) : gset string :=
  match fuel with
  | O => selected
  | S fuel' =>
      let selected' := select_children active selected in
      if bool_decide (selected' = selected) then selected else select_subtree fuel' active selected'
  end.

(** The update of one selected row. *)
Definition cancel_one (now : spec_float) (a : agent) : agent :=
  let l := life a in let r := result a in
  if String.eqb (status l) "queued" then
    MkAgent (fixed a)
      (MkLife "cancelled" "cancelled before start" now (Some now) true false (retried_by l))
      (MkResult "cancelled before model call" (output r) (error r) (tokens_out r) (task_drift r) (drift_metrics r))
      (work a)
  else if String.eqb (status l) "running" then
    MkAgent (fixed a)
      (MkLife (status l)
         (if in_model_call l then "cancellation requested; waiting for active model call"
          else "cancellation requested; stopping after active children")
         now (finished_ts l) true (in_model_call l) (retried_by l))
      r (work a)
  else a.

Record cancel_report := MkCancelReport {
  cr_selector : string;
  cr_matched : Z;
  cr_running : Z;
  cr_queued : Z;
  cr_model_calls : Z;
  cr_agent_ids : list string
}.

Definition count_agents (p : agent → bool) (active : gmap string agent) (ids : list string) : Z :=
  zlen (List.filter (λ id, match active !! id with Some a => p a | None => false end) ids).

Definition cancel_agents (selector : string) (now : spec_float) (db : fleet) : fleet * res cancel_report :=
  match require_edge "queued" "cancelled" with
  | Err e => (db, Err e)
  | Ok _ =>
      let value := strip selector in
      let active := filter (λ kv : string * agent, is_active_status kv.2 = true) (agents db) in
      let selected := select_subtree (S (size active)) (map_to_list active) (named_by value active) in
      let ids := sorted_text (elements selected) in
      let queued (a : agent) := String.eqb (status (life a)) "queued" in
      (with_agents (foldl (λ m id, alter (cancel_one now) id m) (agents db) ids) db,
       Ok (MkCancelReport value (Z.of_nat (size selected))
             (count_agents (λ a, negb (queued a)) active ids) (count_agents queued active ids)
             (count_agents (λ a, negb (queued a) && in_model_call (life a)) active ids) ids))
  end.

Definition cancellation_requested (id : string) (db : fleet) : bool :=
  match agents db !! id with
  | Some a => cancel_requested (life a) || mem (status (life a)) ["cancelled"; "interrupted"]
  | None => false
  end.

(** ** Retry leases *)

(** The expiry of a pending claim; [None] for a text that is no claim. *)
Definition _retry_lease_expiry (value : string) : option spec_float :=
  if negb (String.prefix RETRY_LEASE_PREFIX value) then None
  else match split_text ":" value with
       | [_; _; t] => Some (default (S754_zero false) (float_of t))
       | _ => Some (S754_zero false)
       end.

(** The claim a grant stores. *)
Definition claim_text (token : string) (expires : spec_float) : string :=
  RETRY_LEASE_PREFIX +:+ token +:+ ":" +:+ fmt3 expires.

(** An active master that already retries the target. *)
Definition active_retry (target : string) (db : fleet) : bool :=
  negb (bool_decide (filter (λ kv : string * agent,
    String.eqb (retry_of (fixed kv.2)) target && String.eqb (role (fixed kv.2)) "master"
    && is_active_status kv.2 = true) (agents db) = ∅)).

Record retry_lease := MkRetryLease { l_agent_id : string; l_token : string; l_expires_ts : spec_float }.

Definition acquire_retry_lease (agent_id : string) (lease_seconds : Z) (now : option spec_float)
    (clock : spec_float) (token : string) (db : fleet) : fleet * option retry_lease :=
  let target := strip agent_id in
  if String.eqb target "" then (db, None)
  else
    let current := default clock now in
    let ttl := Z.max 5 (Z.min lease_seconds MAX_RETRY_LEASE_SECONDS) in
    match agents db !! target with
    | None => (db, None)
    | Some a =>
        if negb (String.eqb (role (fixed a)) "master") then (db, None)
        else if negb (mem (status (life a)) RETRYABLE_STATUSES) then (db, None)
        else if match _retry_lease_expiry (retried_by (life a)) with
                | None => negb (String.eqb (retried_by (life a)) "")
                | Some expiry => f64_ltb current expiry
                end then (db, None)
        else if active_retry target db then (db, None)
        else
          let expires := f64_add current (f64_of_Z ttl) in
          (with_agents (alter (set_retried_by (claim_text token expires) current) target (agents db)) db,
           Some (MkRetryLease target token expires))
    end.

(** The rows [retried_by LIKE] the claim of the token: the token is not escaped. *)
Definition claims_of (token : string) (a : agent) : bool :=
  sql_like (RETRY_LEASE_PREFIX +:+ token +:+ ":%") (retried_by (life a)).

Definition release_retry_lease (agent_id token : string) (now : spec_float) (db : fleet) : fleet * bool :=
  let target := strip agent_id in
  let value := strip token in
  if String.eqb target "" || String.eqb value "" then (db, false)
  else match agents db !! target with
       | Some a =>
           if claims_of value a
           then (with_agents (<[target := set_retried_by "" now a]> (agents db)) db, true)
           else (db, false)
       | None => (db, false)
       end.

(** ** Events *)

Definition add_event (id owner stamp text : string) (now : spec_float) (db : fleet) : fleet * res unit :=
  match agents db !! id with
  | Some a =>
      let e := MkEvent id owner now (_clamp_text stamp 40) (_clamp_text text 2000)
                 (master_task_digest (fixed a)) (delegated_task_digest (fixed a))
                 (objective_ids (fixed a)) (task_drift (result a)) in
      (MkFleet (owners db) (principals db) (agents db) (messages db) (events db ++ [e]), Ok tt)
  | None => (db, throw IntegrityError "FOREIGN KEY constraint failed")
  end.

(** ** How an agent may change *)

Definition fleet_edge (s s' : string) : Prop := fleet_can_transition s s' = true.

(** What every operation respects: the identity, the edges of the state machine, and what is
    never undone. *)
Record evolves (a a' : agent) : Prop := {
  ev_fixed : fixed a' = fixed a;
  ev_path : rtc fleet_edge (status (life a)) (status (life a'));
  ev_active : is_active_status a' = true → is_active_status a = true;
  ev_terminal : is_active_status a = false →
    status (life a') = status (life a)
    ∨ status (life a) ∈ RETRYABLE_STATUSES ∧ status (life a') = "retried";
  ev_cancel : cancel_requested (life a) = true → cancel_requested (life a') = true;
  ev_done : status (life a') = "done" → status (life a) ≠ "done" → cancel_requested (life a) = false;
  ev_result : is_active_status a = false → status (life a) ≠ "cancelled" →
    output_of a' = output_of a ∧ error_of a' = error_of a
    ∧ cancel_requested (life a') = cancel_requested (life a)
}.

Lemma active_iff a : is_active_status a = true ↔ status (life a) = "queued" ∨ status (life a) = "running".
Proof. unfold is_active_status. rewrite mem_spec. set_solver. Qed.

Lemma edge_to s s' : fleet_edge s s' → s' ≠ "queued" → s' ≠ "retried" → s = "queued" ∨ s = "running".
Proof.
  intros He Hq Hr. pose proof (fleet_can_transition_known _ _ He) as [Hs _].
  unfold FLEET_ALL in Hs. cbn in Hs. unfold fleet_edge, fleet_can_transition in He.
  repeat (apply elem_of_cons in Hs as [->|Hs]; [try (by auto)|]); [..|by apply elem_of_nil in Hs];
    vm_compute (_ !! _) in He; apply mem_spec in He; set_solver.
Qed.

#[export] Instance evolves_preorder : PreOrder evolves.
Proof.
  split.
  - intros a. split; auto; [reflexivity|congruence].
  - intros a b c [F1 P1 A1 T1 C1 D1 R1] [F2 P2 A2 T2 C2 D2 R2].
    assert (is_active_status a = false → is_active_status b = false) as Hi.
    { intros Ha. destruct (is_active_status b) eqn:E; [by rewrite A1 in Ha|done]. }
    split; auto.
    + congruence.
    + by transitivity (status (life b)).
    + intros Ha. destruct (T1 Ha) as [E|[E1 E2]], (T2 (Hi Ha)) as [E'|[E1' E2']]; rewrite ?E in *; auto.
      right. split; [done|]. congruence.
    + intros Hc Ha. destruct (decide (status (life b) = "done")) as [Hb|Hb]; [by apply D1|].
      specialize (D2 Hc Hb). destruct (cancel_requested (life a)); [by rewrite C1 in D2|done].
    + intros Ha Hne. destruct (R1 Ha Hne) as (<- & <- & <-). apply R2; [by apply Hi|].
      destruct (T1 Ha) as [E|[_ E]]; congruence.
Qed.

(** A row changed without touching status, cancellation, output and error. *)
Lemma evolves_same a a' :
  fixed a' = fixed a → status (life a') = status (life a) →
  cancel_requested (life a') = cancel_requested (life a) →
  output_of a' = output_of a → error_of a' = error_of a → evolves a a'.
Proof.
  intros Hf Hs Hc Ho He.
  split; auto; unfold is_active_status; rewrite ?Hs; auto; [reflexivity|congruence..].
Qed.

(** An active row that takes an edge of the machine. *)
Lemma evolves_edge a a' :
  fixed a' = fixed a → is_active_status a = true → fleet_edge (status (life a)) (status (life a')) →
  (cancel_requested (life a) = true → cancel_requested (life a') = true) →
  (status (life a') = "done" → cancel_requested (life a) = false) → evolves a a'.
Proof. intros Hf Ha He Hc Hd. split; auto; [by apply rtc_once|congruence..]. Qed.

(** What an operation does to the agents of a database: each stays and evolves, and [retried_by]
    changes only in the rows [K] allows. *)
Definition grows (K : string → Prop) (db db' : fleet) : Prop :=
  ∀ id a, agents db !! id = Some a →
    ∃ a', agents db' !! id = Some a' ∧ evolves a a' ∧ (K id ∨ retried_by (life a') = retried_by (life a)).

Definition nowhere : string → Prop := λ _, False.

#[export] Instance grows_preorder K : PreOrder (grows K).
Proof.
  split.
  - intros db id a Ha. exists a. split_and!; [done|reflexivity|by right].
  - intros d1 d2 d3 H1 H2 id a Ha. destruct (H1 id a Ha) as (b & Hb & E1 & R1).
    destruct (H2 id b Hb) as (c & Hc & E2 & R2). exists c. split_and!; [done|by transitivity b|].
    destruct R1 as [|R1], R2 as [|R2]; [by left..|]. right. congruence.
Qed.

Lemma grows_weaken (K K' : string → Prop) db db' : (∀ id, K id → K' id) → grows K db db' → grows K' db db'.
Proof. intros HK H id a Ha. destruct (H id a Ha) as (a' & Ha' & E & [R|R]); exists a'; auto. Qed.

Lemma grows_agents K db db' : agents db' = agents db → grows K db db'.
Proof. intros E id a Ha. exists a. rewrite E. split_and!; [done|reflexivity|by right]. Qed.

Lemma grows_alter (K : string → Prop) f id db db' :
  agents db' = alter f id (agents db) →
  (∀ a, agents db !! id = Some a → evolves a (f a) ∧ (K id ∨ retried_by (life (f a)) = retried_by (life a))) →
  grows K db db'.
Proof.
  intros E Hf i a Ha. rewrite E. destruct (decide (i = id)) as [->|Hi].
  - exists (f a). rewrite lookup_alter_eq, Ha. split; [done|]. by apply Hf.
  - exists a. rewrite lookup_alter_ne by done. split_and!; [done|reflexivity|by right].
Qed.

Lemma grows_insert (K : string → Prop) id a a' db db' :
  agents db' = <[id := a']> (agents db) → agents db !! id = Some a → evolves a a' →
  K id ∨ retried_by (life a') = retried_by (life a) → grows K db db'.
Proof.
  intros E Ha He Hr i b Hb. rewrite E. destruct (decide (i = id)) as [->|Hi].
  - exists a'. rewrite lookup_insert_eq. assert (b = a) as -> by congruence. done.
  - exists b. rewrite lookup_insert_ne by done. split_and!; [done|reflexivity|by right].
Qed.

Lemma grows_fmap K f db db' :
  agents db' = f <$> agents db → (∀ a, evolves a (f a) ∧ retried_by (life (f a)) = retried_by (life a)) →
  grows K db db'.
Proof.
  intros E Hf i a Ha. exists (f a). rewrite E, lookup_fmap, Ha. destruct (Hf a) as [He Hr]. auto.
Qed.

(** ** Every operation respects it *)

Lemma interrupt_edges : require_edges ["queued"; "running"] "interrupted" = Ok tt.
Proof. reflexivity. Qed.

Lemma owned_active_spec id a :
  owned_active id a = true ↔ owner_id (fixed a) = id ∧ is_active_status a = true.
Proof. unfold owned_active. by rewrite andb_true_iff, String.eqb_eq. Qed.

Lemma active_edge a dst :
  fleet_edge "queued" dst → fleet_edge "running" dst → is_active_status a = true →
  fleet_edge (status (life a)) dst.
Proof. intros Hq Hr [->| ->]%active_iff; done. Qed.

Lemma interrupt_evolves id reason now a :
  evolves a (if owned_active id a then interrupt reason now a else a).
Proof.
  destruct (owned_active id a) eqn:E; [|reflexivity]. apply owned_active_spec in E as [_ Ha].
  apply evolves_edge; auto; [|done]. by apply active_edge.
Qed.

Lemma interrupt_owned_grows id reason now db :
  grows nowhere db (with_agents (interrupt_owned id reason now (agents db)).1 db).
Proof. eapply grows_fmap; [done|]. intros a. split; [apply interrupt_evolves|]. by destruct (owned_active id a). Qed.

Lemma close_owner_grows id reason now db : grows nowhere db (close_owner id reason now db).1.
Proof.
  unfold close_owner. rewrite interrupt_edges. simpl.
  transitivity (with_agents (interrupt_owned id (_clamp_text reason MAX_ACTIVITY_CHARS) now (agents db)).1 db);
    [apply interrupt_owned_grows|by apply grows_agents].
Qed.

Lemma reconcile_owner_grows host probe current grace acc row :
  grows nowhere acc.1 (reconcile_owner host probe current grace acc row).1.
Proof.
  destruct acc as [db r], row as [id o]. unfold reconcile_owner.
  destruct (negb _); [reflexivity|]. destruct (probe_owner probe o) as [state observed].
  destruct (negb _); [reflexivity|]. destruct (o_stale_seen_ts o) as [since|]; [|by apply grows_agents].
  destruct (f64_ltb _ _); [reflexivity|]. simpl.
  transitivity (with_agents (interrupt_owned id "interrupted after owner heartbeat expired" current (agents db)).1 db);
    [apply interrupt_owned_grows|by apply grows_agents].
Qed.

Lemma foldl_grows {A B} (f : fleet * A → B → fleet * A) l acc :
  (∀ acc x, grows nowhere acc.1 (f acc x).1) → grows nowhere acc.1 (foldl f acc l).1.
Proof.
  intros Hf. revert acc. induction l as [|x l IH]; intros acc; simpl; [reflexivity|].
  transitivity (f acc x).1; [apply Hf|apply IH].
Qed.

Lemma reconcile_grows now stale grace clock host probe db :
  grows nowhere db (reconcile_stale_owners now stale grace clock host probe db).1.
Proof.
  unfold reconcile_stale_owners. rewrite interrupt_edges.
  match goal with |- context [foldl ?f ?a ?l] =>
    pose proof (foldl_grows f l a (reconcile_owner_grows _ _ _ _)) as H; destruct (foldl f a l) end.
  done.
Qed.

Lemma transaction_grows {A} K (body : fleet → res (fleet * A)) db :
  (∀ db' a, body db = Ok (db', a) → grows K db db') → grows K db (_write_transaction body db).1.
Proof.
  intros Hb. unfold _write_transaction. destruct (body db) as [[db' a]|e]; [by apply (Hb db' a)|reflexivity].
Qed.

Lemma write_transaction_ok {A} (body : fleet → res (fleet * A)) db db' a :
  _write_transaction body db = (db', Ok a) → body db = Ok (db', a).
Proof. unfold _write_transaction. destruct (body db) as [[db1 b]|e]; [by intros [= <- <-]|done]. Qed.

Lemma create_agent_grows row owner pid principal secret clock db :
  grows nowhere db (create_agent row owner pid principal secret clock db).1.
Proof.
  apply transaction_grows. intros db' a H. res_inv. intros id b Hb. exists b. split; [|split; [reflexivity|by right]].
  simpl. rewrite lookup_insert_ne; [done|]. intros <-. to_prop.
  match goal with H : ¬ is_Some _ |- _ => by apply H; exists b end.
Qed.

Lemma start_agent_grows id owner act in_call calls n slots mode' tier' now db :
  grows nowhere db (start_agent id owner act in_call calls n slots mode' tier' now db).1.
Proof.
  unfold start_agent. destruct (require_edge "queued" "running") as [u|]; [|reflexivity].
  destruct (agents db !! id) as [a|] eqn:Ha; [|reflexivity].
  destruct (_ && _) eqn:Hc; [|reflexivity]. eapply grows_insert; [done|exact Ha| |by right].
  rewrite !andb_true_iff in Hc.
  destruct Hc as [[_ Hs%String.eqb_eq] Hcan%negb_true_iff].
  apply evolves_edge; simpl; auto; [apply active_iff; auto|by rewrite Hs].
Qed.

Lemma begin_model_call_grows id owner act calls now db :
  grows nowhere db (begin_model_call id owner act calls now db).1.
Proof.
  unfold begin_model_call. destruct (agents db !! id) as [a|] eqn:Ha; [|reflexivity].
  destruct (_ && _); [|reflexivity]. eapply grows_insert; [done|exact Ha|by apply evolves_same|by right].
Qed.

Lemma update_agent_grows id owner c now db : grows nowhere db (update_agent id owner c now db).1.
Proof.
  unfold update_agent. destruct (no_changes c); [reflexivity|].
  eapply grows_alter; [reflexivity|]. intros a _. cbn beta.
  destruct (String.eqb (owner_id (fixed a)) owner); (split; [|by right]); [by apply evolves_same|reflexivity].
Qed.

Lemma judge_finish_cases a output error drift v :
  judge_finish a output error drift = inr v →
  status (life a) ≠ "interrupted"
  ∧ ((cancel_requested (life a) = true ∨ status (life a) = "cancelled") ∧ v = cancelled_verdict
     ∨ (cancel_requested (life a) = false ∧ status (life a) ∉ ["cancelled"; "done"; "failed"; "task_drift"])
       ∧ v = (if drift then drift_verdict error else result_verdict output error)).
Proof.
  unfold judge_finish. destruct (String.eqb_spec (status (life a)) "interrupted") as [|Hi]; [done|].
  destruct (cancel_requested (life a)) eqn:Hc; simpl; [intros [= <-]; auto|].
  destruct (String.eqb_spec (status (life a)) "cancelled") as [Hs|Hs]; [intros [= <-]; auto|].
  destruct (mem _ _) eqn:Hm; [done|]. apply mem_false in Hm. intros Hv.
  split; [done|]. right. split; [split; [done|set_solver]|]. destruct drift; congruence.
Qed.

Lemma verdict_evolves a output error drift metrics now v :
  judge_finish a output error drift = inr v →
  (if String.eqb (status (life a)) (v_status v) then Ok tt
   else require_edge (status (life a)) (v_status v)) = Ok tt →
  evolves a (record_verdict v drift metrics now a).
Proof.
  intros [_ Hj]%judge_finish_cases Hr.
  assert (v_status v ≠ "queued" ∧ v_status v ≠ "retried") as [Hq Hrt].
  { destruct Hj as [[_ ->]|[_ ->]]; [done|]. destruct drift; [done|]. simpl. by destruct (String.eqb error ""). }
  destruct (String.eqb_spec (status (life a)) (v_status v)) as [Hs|Hs].
  - assert (v = cancelled_verdict ∧ status (life a) = "cancelled") as [-> Hc].
    { destruct Hj as [[_ ->]|[[_ Hn] ->]]; [done|]. destruct Hn. rewrite Hs.
      destruct drift; simpl; [set_solver|]. destruct (String.eqb error ""); simpl; set_solver. }
    split; simpl; auto; unfold is_active_status; simpl; rewrite ?Hc; (reflexivity || done || congruence).
  - apply require_ok in Hr. pose proof (edge_to _ _ Hr Hq Hrt) as Ha%active_iff.
    apply evolves_edge; simpl; auto. intros Hd. destruct Hj as [[_ ->]|[[Hc _] _]]; [done|done].
Qed.

Lemma retried_evolves a l' :
  status (life a) ∈ RETRYABLE_STATUSES → status l' = "retried" →
  cancel_requested l' = cancel_requested (life a) →
  evolves a (MkAgent (fixed a) l' (result a) (work a)).
Proof.
  intros Hs Hl Hc. split; simpl; auto; rewrite ?Hl, ?Hc; try done.
  - apply rtc_once. unfold RETRYABLE_STATUSES in Hs.
    by repeat (apply elem_of_cons in Hs as [->|Hs]; [done|]); apply elem_of_nil in Hs.
  - unfold is_active_status at 1. simpl. by rewrite Hl.
Qed.

(** The source of a retry master: the row its finish may change. *)
Definition retries (b : agent) (target : string) : Prop :=
  role (fixed b) = "master" ∧ retry_of (fixed b) = target.

Lemma settle_retry_grows id stored now db1 db2 :
  settle_retry id stored now (agents db1) = Ok (agents db2) → grows (retries stored) db1 db2.
Proof.
  unfold settle_retry. destruct (String.eqb_spec (role (fixed stored)) "master") as [Hm|];
    [simpl|intros [= E]; by apply grows_agents].
  destruct (String.eqb _ _); [intros [= E]; by apply grows_agents|].
  destruct (mem _ _).
  { intros [= E]. eapply grows_alter; [symmetry; exact E|]. intros a _. split; [|by left]. cbn beta.
    destruct (is_claim (retried_by (life a))); [by apply evolves_same|reflexivity]. }
  destruct (String.eqb (status (life stored)) "done"); [|intros [= E]; by apply grows_agents].
  intros E. res_inv. eapply grows_alter; [symmetry; eassumption|]. intros a' _. split; [|by left]. cbn beta.
  destruct (mem (status (life a')) _) eqn:Hm'; [|reflexivity]. apply mem_spec in Hm'. by apply retried_evolves.
Qed.

Definition settles (id : string) (db : fleet) (target : string) : Prop :=
  ∃ b, agents db !! id = Some b ∧ retries b target.

Lemma finish_agent_grows id owner output error drift metrics now db :
  grows (settles id db) db (finish_agent id owner output error drift metrics now db).1.
Proof.
  apply transaction_grows. intros db' r. destruct (agents db !! id) as [a|] eqn:Ha; [|by intros [= <- _]].
  destruct (negb _); [by intros [= <- _]|].
  destruct (judge_finish a output error drift) as [marker|v] eqn:Hj; [by intros [= <- _]|].
  intros ([] & Hv & (m & Hm & [= <- _])%bind_ok)%bind_ok.
  transitivity (with_agents (<[id := record_verdict v drift metrics now a]> (agents db)) db).
  - eapply grows_insert; [reflexivity|exact Ha|by eapply verdict_evolves|by right].
  - eapply grows_weaken; [|eapply settle_retry_grows; exact Hm]. intros i Hi. by exists a.
Qed.

Lemma cancel_one_evolves now a : evolves a (cancel_one now a).
Proof.
  unfold cancel_one. destruct (String.eqb_spec (status (life a)) "queued") as [Hq|_].
  { apply evolves_edge; simpl; auto; [by apply active_iff; left|by rewrite Hq|done]. }
  destruct (String.eqb_spec (status (life a)) "running") as [Hr|_]; [|reflexivity].
  assert (is_active_status a = true) as Ha by (apply active_iff; auto).
  split; simpl; auto; try reflexivity; rewrite ?Ha, ?Hr; done.
Qed.

Lemma alters_lookup {A} (f : A → A) (ids : list string) (m : gmap string A) id :
  NoDup ids →
  foldl (λ m i, alter f i m) m ids !! id = if bool_decide (id ∈ ids) then f <$> m !! id else m !! id.
Proof.
  revert m. induction ids as [|i ids IH]; intros m Hn; simpl; [done|].
  apply NoDup_cons in Hn as [Hi Hn]. rewrite IH by done. destruct (decide (id = i)) as [->|Hne].
  - rewrite bool_decide_eq_false_2 by done. rewrite bool_decide_eq_true_2 by by left.
    apply lookup_alter_eq.
  - rewrite lookup_alter_ne by done.
    destruct (decide (id ∈ ids)); [rewrite !bool_decide_eq_true_2|rewrite !bool_decide_eq_false_2]; set_solver.
Qed.

Lemma alters_grow (f : agent → agent) (ids : list string) db :
  (∀ a, evolves a (f a) ∧ retried_by (life (f a)) = retried_by (life a)) → NoDup ids →
  grows nowhere db (with_agents (foldl (λ m i, alter f i m) (agents db) ids) db).
Proof.
  intros Hf Hn id a Ha. simpl. rewrite alters_lookup by done. rewrite Ha.
  destruct (bool_decide _); [|exists a; split_and!; [done|reflexivity|by right]].
  exists (f a). split; [done|]. destruct (Hf a). auto.
Qed.

Lemma sorted_ids_nodup (s : gset string) : NoDup (sorted_text (elements s)).
Proof. rewrite sorted_text_Permutation. apply NoDup_elements. Qed.

Lemma cancel_agents_grows selector now db : grows nowhere db (cancel_agents selector now db).1.
Proof.
  apply alters_grow; [|apply sorted_ids_nodup]. intros a. split; [apply cancel_one_evolves|].
  unfold cancel_one. by repeat case_match.
Qed.

Lemma set_retried_by_evolves claim now a : evolves a (set_retried_by claim now a).
Proof. by apply evolves_same. Qed.

Lemma acquire_retry_lease_grows id secs now clock token db :
  grows (λ i, i = strip id) db (acquire_retry_lease id secs now clock token db).1.
Proof.
  unfold acquire_retry_lease. destruct (String.eqb _ _); [reflexivity|].
  destruct (agents db !! strip id) as [a|] eqn:Ha; [|reflexivity].
  do 4 (match goal with |- grows _ _ (if ?b then _ else _).1 => destruct b; [reflexivity|] end).
  eapply grows_alter; [reflexivity|]. intros b _. split; [apply set_retried_by_evolves|by left].
Qed.

Lemma release_retry_lease_grows id token now db : grows (λ i, i = strip id) db (release_retry_lease id token now db).1.
Proof.
  unfold release_retry_lease. destruct (_ || _); [reflexivity|].
  destruct (agents db !! strip id) as [a|] eqn:Ha; [|reflexivity]. destruct (claims_of _ a); [|reflexivity].
  eapply grows_insert; [reflexivity|exact Ha|apply set_retried_by_evolves|by left].
Qed.

(** ** Runs *)

(** A call with its arguments, what it observes of clocks and processes, and fresh tokens.  Not among
    them: [prune] and [clear_all], which delete rows, and the lanes of [agent_lanes.py], which write
    some columns of their own. *)
Inductive fleet_op :=
  | RegisterPrincipal (principal_id secret : string) (now : spec_float)
  | RegisterOwner (id : string) (pid : Z) (host identity : string) (started : option spec_float) (now : spec_float)
  | Heartbeat (id : string) (now : spec_float)
  | CloseOwner (id reason : string) (now : spec_float)
  | ReconcileStale (now : option spec_float) (stale grace : Z) (clock : spec_float) (host : string)
      (probe : Z → option string → string * option string)
  | CreateAgent (row : agent_row) (owner : string) (pid : Z) (principal secret : string) (clock : spec_float)
  | StartAgent (id owner act : string) (in_call : bool) (calls n slots : Z) (mode' tier' : string) (now : spec_float)
  | BeginModelCall (id owner act : string) (calls : Z) (now : spec_float)
  | UpdateAgent (id owner : string) (c : agent_changes) (now : spec_float)
  | FinishAgent (id owner output error : string) (drift : bool) (metrics : string) (now : spec_float)
  | CancelAgents (selector : string) (now : spec_float)
  | AcquireRetry (id : string) (secs : Z) (now : option spec_float) (clock : spec_float) (token : string)
  | ReleaseRetry (id token : string) (now : spec_float)
  | AddEvent (id owner stamp text : string) (now : spec_float).

Definition perform (db : fleet) (o : fleet_op) : fleet :=
  match o with
  | RegisterPrincipal p s now => (register_principal p s now db).1
  | RegisterOwner id pid host identity started now => register_owner id pid host identity started now db
  | Heartbeat id now => (heartbeat_owner id now db).1
  | CloseOwner id reason now => (close_owner id reason now db).1
  | ReconcileStale now stale grace clock host probe =>
      (reconcile_stale_owners now stale grace clock host probe db).1
  | CreateAgent row owner pid principal secret clock => (create_agent row owner pid principal secret clock db).1
  | StartAgent id owner act in_call calls n slots m t now =>
      (start_agent id owner act in_call calls n slots m t now db).1
  | BeginModelCall id owner act calls now => (begin_model_call id owner act calls now db).1
  | UpdateAgent id owner c now => (update_agent id owner c now db).1
  | FinishAgent id owner output error drift metrics now =>
      (finish_agent id owner output error drift metrics now db).1
  | CancelAgents selector now => (cancel_agents selector now db).1
  | AcquireRetry id secs now clock token => (acquire_retry_lease id secs now clock token db).1
  | ReleaseRetry id token now => (release_retry_lease id token now db).1
  | AddEvent id owner stamp text now => (add_event id owner stamp text now db).1
  end.

Definition run (db : fleet) (ops : list fleet_op) : fleet := foldl perform db ops.

(** The rows whose claim an operation may change. *)
Definition touched (o : fleet_op) (db : fleet) (target : string) : Prop :=
  match o with
  | FinishAgent id _ _ _ _ _ _ => settles id db target
  | AcquireRetry id _ _ _ _ | ReleaseRetry id _ _ => target = strip id
  | _ => False
  end.

Lemma perform_grows db o : grows (touched o db) db (perform db o).
Proof.
  destruct o; simpl;
    try first [ apply finish_agent_grows | apply acquire_retry_lease_grows | apply release_retry_lease_grows
              | apply (grows_weaken nowhere); [done|];
                auto using close_owner_grows, reconcile_grows, create_agent_grows, start_agent_grows,
                  begin_model_call_grows, update_agent_grows, cancel_agents_grows ];
    apply grows_agents.
  - unfold register_principal, _write_transaction. repeat case_match; res_inv; done.
  - done.
  - unfold heartbeat_owner. by repeat case_match.
  - unfold add_event. by case_match.
Qed.

Lemma run_grows ops db : grows (λ _, True) db (run db ops).
Proof.
  unfold run. revert db. induction ops as [|o ops IH]; intros db; simpl; [reflexivity|].
  transitivity (perform db o); [|apply IH]. eapply grows_weaken; [|apply perform_grows]. done.
Qed.


(** ** Cancellation reaches a whole subtree *)

(** [c] is an active row whose parent is [p]. *)
Definition child_of (active : gmap string agent) (p c : string) : Prop :=
  ∃ a, active !! c = Some a ∧ parent_id (fixed a) = p.

(** The rows below the named ones. *)
Definition below (active : gmap string agent) (named : gset string) (id : string) : Prop :=
  ∃ root, root ∈ named ∧ rtc (child_of active) root id.

Lemma select_children_spec active named rows sel :
  (∀ k a, (k, a) ∈ rows → active !! k = Some a) →
  (∀ id, id ∈ sel → below active named id) →
  sel ⊆ select_children rows sel
  ∧ (∀ id, id ∈ select_children rows sel → below active named id)
  ∧ (∀ k a, (k, a) ∈ rows → parent_id (fixed a) ∈ sel → k ∈ select_children rows sel)
  ∧ (∀ id, id ∈ select_children rows sel → id ∈ sel ∨ id ∈ rows.*1).
Proof.
  unfold select_children. revert sel. induction rows as [|[k a] rows IH]; intros sel Hin Hb; simpl.
  { split_and!; [done|done|by intros ? ? ?%elem_of_nil|auto]. }
  set (sel' := if bool_decide (parent_id (fixed a) ∈ sel) then {[k]} ∪ sel else sel).
  assert (sel ⊆ sel') as Hs by (unfold sel'; case_bool_decide; set_solver).
  assert (∀ id, id ∈ sel' → id ∈ sel ∨ id = k ∧ parent_id (fixed a) ∈ sel) as Hk
    by (unfold sel'; case_bool_decide; set_solver).
  destruct (IH sel') as (H1 & H2 & H3 & H4).
  { intros k' a' Hin'. apply Hin. by right. }
  { intros id [Hid|[-> Hp]]%Hk; [by apply Hb|]. destruct (Hb _ Hp) as (root & Hr & Hc).
    exists root. split; [done|]. eapply rtc_r; [exact Hc|]. exists a. split; [|done]. apply Hin. by left. }
  split_and!; [by etransitivity|done| |].
  - intros k' a' [[= -> ->]|Hin']%elem_of_cons Hp; [|by eapply H3; [exact Hin'|apply Hs]].
    apply H1. unfold sel'. rewrite bool_decide_eq_true_2 by done. set_solver.
  - intros id [Hid|Hid]%H4; [|right; by right]. apply Hk in Hid as [Hid|[-> _]]; [by left|right; by left].
Qed.

Lemma closed_below active named sel :
  named ⊆ sel → (∀ p c, p ∈ sel → child_of active p c → c ∈ sel) → ∀ id, below active named id → id ∈ sel.
Proof.
  intros Hn Hc id (root & Hr & Hp). assert (root ∈ sel) as Hin by set_solver. clear Hr.
  induction Hp as [x|x y z Hxy _ IH]; [done|]. apply IH. by eapply Hc.
Qed.

(** Enough passes reach the closure: each pass that changes something adds a row. *)
Lemma select_subtree_spec active named fuel sel :
  let rows := map_to_list active in
  named ⊆ sel → sel ⊆ dom active → (∀ id, id ∈ sel → below active named id) →
  (size active - size sel < fuel)%nat →
  ∀ id, id ∈ select_subtree fuel rows sel ↔ below active named id.
Proof.
  intros rows. revert sel. induction fuel as [|fuel IH]; intros sel Hn Hd Hb Hf id; [lia|]. simpl.
  destruct (select_children_spec active named rows sel) as (H1 & H2 & H3 & H4); [|done|].
  { intros k a. apply elem_of_map_to_list. }
  case_bool_decide as E.
  - split; [apply Hb|]. apply closed_below; [done|]. intros p c Hp (a & Ha & <-). rewrite <- E.
    eapply H3; [by apply elem_of_map_to_list|done].
  - assert (select_children rows sel ⊆ dom active) as Hd'.
    { intros x [Hx|Hx]%H4; [by apply Hd|]. apply elem_of_dom. apply list_elem_of_fmap in Hx as ([k a] & -> & Hx).
      apply elem_of_map_to_list in Hx. by exists a. }
    apply IH; [by etransitivity|done|done|].
    assert (size sel < size (select_children rows sel))%nat by (apply subset_size; split; [done|set_solver]).
    assert (size (select_children rows sel) ≤ size active)%nat by (rewrite <- size_dom; by apply subseteq_size).
    lia.
Qed.

Lemma named_by_dom value active : named_by value active ⊆ dom active.
Proof.
  unfold named_by. destruct (selects_all value); [done|]. destruct (String.eqb value ""); [set_solver|].
  case_bool_decide as E; [by apply singleton_subseteq_l, elem_of_dom|]. set_solver.
Qed.

Definition active_rows (db : fleet) : gmap string agent :=
  filter (λ kv : string * agent, is_active_status kv.2 = true) (agents db).

(** The rows a cancellation selects. *)
Definition cancelled_ids (selector : string) (db : fleet) : list string :=
  sorted_text (elements (select_subtree (S (size (active_rows db))) (map_to_list (active_rows db))
    (named_by (strip selector) (active_rows db)))).

Lemma cancelled_ids_spec selector db id :
  id ∈ cancelled_ids selector db ↔ below (active_rows db) (named_by (strip selector) (active_rows db)) id.
Proof.
  unfold cancelled_ids. rewrite sorted_text_Permutation, elem_of_elements.
  apply select_subtree_spec; [done|apply named_by_dom| |lia]. intros x Hx. exists x. split; [done|reflexivity].
Qed.

Lemma cancel_agents_lookup selector now db id :
  agents (cancel_agents selector now db).1 !! id
  = if mem id (cancelled_ids selector db) then cancel_one now <$> agents db !! id else agents db !! id.
Proof. apply (alters_lookup (cancel_one now)), sorted_ids_nodup. Qed.

Lemma cancelled_ids_active selector db id :
  id ∈ cancelled_ids selector db → ∃ a, agents db !! id = Some a ∧ is_active_status a = true.
Proof.
  intros (root & Hr & Hp)%cancelled_ids_spec.
  assert (∃ a, active_rows db !! id = Some a) as (a & [Ha Hact]%map_lookup_filter_Some); [|by exists a].
  apply rtc_inv_r in Hp as [<-|(p & _ & (a & Ha & _))]; [|by exists a].
  apply named_by_dom in Hr. by apply elem_of_dom in Hr.
Qed.

(** A cancellation never fails; it selects exactly the active agents it names and every
    active agent below them through active ones, reports them once and in order, marks each
    (a queued one is cancelled at once, a running one is asked to stop) and changes no other
    agent. *)
Theorem cancel_agents_closure selector now db :
  ∃ r, (cancel_agents selector now db).2 = Ok r
    ∧ (∀ id, id ∈ cr_agent_ids r ↔ below (active_rows db) (named_by (strip selector) (active_rows db)) id)
    ∧ NoDup (cr_agent_ids r)
    ∧ cr_matched r = zlen (cr_agent_ids r)
    ∧ ∀ id, agents (cancel_agents selector now db).1 !! id
            = (if mem id (cr_agent_ids r) then cancel_one now <$> agents db !! id else agents db !! id).
Proof.
  eexists. split; [reflexivity|]. cbn [cr_agent_ids cr_matched]. split_and!.
  - intros id. apply cancelled_ids_spec.
  - apply sorted_ids_nodup.
  - unfold zlen. by rewrite sorted_text_Permutation.
  - apply cancel_agents_lookup.
Qed.

(** ** A cancellation is final *)

(** A row asked to stop that has not produced a result. *)
Definition stopping (a : agent) : Prop := cancel_requested (life a) = true ∧ status (life a) ≠ "done".

Lemma stopping_evolves a a' : stopping a → evolves a a' → stopping a'.
Proof.
  intros [Hc Hs] [_ _ _ _ C D _]. split; [by apply C|]. intros Hd. specialize (D Hd Hs). congruence.
Qed.

Lemma cancel_one_stopping now a : is_active_status a = true → stopping (cancel_one now a).
Proof. unfold cancel_one, stopping. intros [->| ->]%active_iff; done. Qed.

Lemma cancelled_stays a a' :
  status (life a) = "cancelled" → evolves a a' → status (life a') = "cancelled" ∨ status (life a') = "retried".
Proof.
  intros Hs [_ _ _ T _ _ _]. destruct T as [E|[_ E]]; [unfold is_active_status; by rewrite Hs| |by right].
  left. congruence.
Qed.

(** A child created under a row asked to stop is born cancelled. *)
Lemma create_agent_inherits row owner pid principal secret clock db db' child p :
  create_agent row owner pid principal secret clock db = (db', Ok child) →
  r_parent_id row ≠ "" → agents db !! r_parent_id row = Some p → cancel_requested (life p) = true →
  agents db' !! r_id row = Some child ∧ status (life child) = "cancelled" ∧ cancel_requested (life child) = true.
Proof.
  unfold create_agent. intros Hr%write_transaction_ok Hne Hp Hcan. apply String.eqb_neq in Hne. rewrite Hne, Hp in Hr.
  apply bind_ok in Hr as (pr & _ & (inh & Hi & Hr)%bind_ok). apply bind_ok in Hr as (u & _ & [= <- <-]).
  unfold check_parent in Hi. apply bind_ok in Hi as (u1 & _ & (u2 & _ & [= <-])%bind_ok).
  rewrite Hcan. simpl. rewrite lookup_insert_eq. split_and!; [done|done|apply orb_true_r].
Qed.

(** A cancellation is final: an agent it reports never becomes [done], whatever runs
    afterwards, and stays marked; and a child that is created under it at any later time is
    born cancelled and never starts. *)
Theorem cancellation_is_final selector now db r id ops :
  (cancel_agents selector now db).2 = Ok r → id ∈ cr_agent_ids r →
  let db2 := run (cancel_agents selector now db).1 ops in
  (∃ a, agents db2 !! id = Some a ∧ stopping a)
  ∧ ∀ row owner pid principal secret clock db3 child ops',
      create_agent row owner pid principal secret clock db2 = (db3, Ok child) →
      r_parent_id row = id → id ≠ "" →
      ∃ c, agents (run db3 ops') !! r_id row = Some c ∧ cancel_requested (life c) = true
           ∧ (status (life c) = "cancelled" ∨ status (life c) = "retried").
Proof.
  intros [= <-] Hid. cbn [cr_agent_ids] in Hid. change (id ∈ cancelled_ids selector db) in Hid. intros db2.
  assert (∃ a, agents db2 !! id = Some a ∧ stopping a) as (a2 & Ha2 & Hs).
  { destruct (cancelled_ids_active _ _ _ Hid) as (a & Ha & Hact).
    destruct (run_grows ops (cancel_agents selector now db).1 id (cancel_one now a)) as (a2 & Ha2 & He & _).
    - rewrite cancel_agents_lookup. unfold mem. by rewrite bool_decide_eq_true_2, Ha.
    - exists a2. split; [done|]. by eapply stopping_evolves; [apply cancel_one_stopping|]. }
  split; [by exists a2|]. intros row owner pid principal secret clock db3 child ops' Hc <- Hne.
  destruct (create_agent_inherits _ _ _ _ _ _ _ _ _ _ Hc Hne Ha2 (proj1 Hs)) as (Hl & Hst & Hcan).
  destruct (run_grows ops' db3 _ _ Hl) as (c & Hl' & He & _). exists c. split_and!; [done| |by eapply cancelled_stays].
  by apply (ev_cancel _ _ He).
Qed.

(** ** Reconciliation *)

Section reconcile.
Context (host : string) (probe : Z → option string → string * option string).
Context (current : spec_float) (grace : Z).

(** What a pass decides for a stale owner. *)
Definition probed_dead (o : owner) : bool :=
  String.eqb (o_host o) host && String.eqb (probe_owner probe o).1 PROCESS_DEAD.

Definition owner_lost (o : owner) : bool :=
  probed_dead o
  && match o_stale_seen_ts o with
     | Some since => negb (f64_ltb (f64_sub current (f64_of_Z grace)) since)
     | None => false
     end.

Definition owner_after (o : owner) : owner :=
  let closed := if owner_lost o then Some current else o_closed_ts o in
  let seen := match o_stale_seen_ts o with
              | None => if probed_dead o then Some current else None
              | Some t => Some t
              end in
  MkOwner (o_pid o) (o_host o) (o_started_ts o) (o_heartbeat_ts o) (o_process_identity o) seen closed.

Let lost_reason := "interrupted after owner heartbeat expired".

Lemma alter_insert_eq {A} (f : A → A) (m : gmap string A) k x : m !! k = Some x → alter f k m = <[k := f x]> m.
Proof.
  intros Hk. apply map_eq. intros i. destruct (decide (i = k)) as [->|Hi].
  - by rewrite lookup_alter_eq, Hk, lookup_insert_eq.
  - by rewrite lookup_alter_ne, lookup_insert_ne by done.
Qed.

Lemma reconcile_owner_step db r id o :
  owners db !! id = Some o →
  let p := reconcile_owner host probe current grace (db, r) (id, o) in
  owners p.1 = <[id := owner_after o]> (owners db)
  ∧ agents p.1 = (if owner_lost o then (interrupt_owned id lost_reason current (agents db)).1 else agents db)
  ∧ reclaimed p.2 = reclaimed r ++ (if owner_lost o then [id] else []).
Proof.
  intros Ho. unfold reconcile_owner, owner_after, owner_lost, probed_dead.
  destruct (probe_owner probe o) as [state observed]. destruct o as [pid h st hb ident seen closed]; simpl.
  destruct (String.eqb h host), (String.eqb state PROCESS_DEAD), seen as [since|]; simpl;
    try destruct (f64_ltb _ _); simpl; try rewrite insert_id by done; try rewrite app_nil_r; try done;
    by erewrite alter_insert_eq by exact Ho.
Qed.

(** The agents of the lost owners among the rows. *)
Definition hit (rows : list (string * owner)) (a : agent) : bool :=
  existsb (λ row, owner_lost row.2 && owned_active row.1 a) rows.

Lemma owned_active_interrupt id reason now a : owned_active id (interrupt reason now a) = false.
Proof. unfold owned_active, is_active_status. simpl. apply andb_false_r. Qed.

Lemma hit_interrupt rows reason now a : hit rows (interrupt reason now a) = false.
Proof.
  induction rows as [|[k o] rows IH]; simpl; [done|]. by rewrite owned_active_interrupt, andb_false_r, IH.
Qed.

Lemma filter_keys_nodup (p : string * owner → bool) rows : NoDup rows.*1 → NoDup (List.filter p rows).*1.
Proof.
  induction rows as [|[k o] rows IH]; simpl; [done|]. intros [Hk Hn]%NoDup_cons.
  destruct (p (k, o)); simpl; [|by apply IH]. apply NoDup_cons. split; [|by apply IH].
  intros ([k' o'] & -> & Hin%list_elem_of_In%filter_In)%list_elem_of_fmap. apply Hk.
  apply list_elem_of_fmap. exists (k', o'). split; [done|]. by apply list_elem_of_In, Hin.
Qed.

#[local] Arguments reconcile_owner : simpl never.

Lemma reconcile_rows rows db r :
  NoDup rows.*1 → (∀ k o, (k, o) ∈ rows → owners db !! k = Some o) →
  let p := foldl (reconcile_owner host probe current grace) (db, r) rows in
  (∀ k, owners p.1 !! k = if mem k rows.*1 then owner_after <$> owners db !! k else owners db !! k)
  ∧ (∀ i, agents p.1 !! i = (λ a, if hit rows a then interrupt lost_reason current a else a) <$> agents db !! i)
  ∧ reclaimed p.2 = reclaimed r ++ (List.filter (λ row, owner_lost row.2) rows).*1.
Proof.
  revert db r. induction rows as [|[id o] rows IH]; intros db r Hn Hin; simpl.
  { split_and!; [done| |by rewrite app_nil_r]. intros i. by destruct (agents db !! i). }
  apply NoDup_cons in Hn as [Hid Hn].
  destruct (reconcile_owner_step db r id o) as (Ho & Ha & Hr); [apply Hin; by left|].
  destruct (reconcile_owner host probe current grace (db, r) (id, o)) as [db1 r1]. simpl in Ho, Ha, Hr.
  destruct (IH db1 r1 Hn) as (IHo & IHa & IHr).
  { intros k o' Hk. rewrite Ho, lookup_insert_ne; [apply Hin; by right|]. intros ->. apply Hid.
    apply list_elem_of_fmap. by exists (k, o'). }
  split_and!.
  - intros k. rewrite IHo, Ho. unfold mem. destruct (decide (k = id)) as [->|Hk].
    + rewrite bool_decide_eq_false_2, bool_decide_eq_true_2, lookup_insert_eq by set_solver.
      rewrite (Hin id o); [done|by left].
    + rewrite lookup_insert_ne by done. destruct (decide (k ∈ rows.*1));
        [rewrite !bool_decide_eq_true_2|rewrite !bool_decide_eq_false_2]; set_solver.
  - intros i. rewrite IHa, Ha. destruct (owner_lost o); simpl; [|done]. rewrite lookup_fmap.
    destruct (agents db !! i) as [a|]; simpl; [|done]. f_equal.
    destruct (owned_active id a); simpl; [by rewrite hit_interrupt|done].
  - rewrite IHr, Hr. destruct (owner_lost o); simpl; by rewrite <- ?app_assoc, ?app_nil_r.
Qed.

Lemma hit_rows rows (m : gmap string owner) (p : owner → bool) a :
  (∀ k o, (k, o) ∈ rows ↔ m !! k = Some o ∧ p o = true) →
  hit rows a = is_active_status a
               && match m !! owner_id (fixed a) with Some o => p o && owner_lost o | None => false end.
Proof.
  intros Hrows. apply eq_bool_prop_intro. rewrite !Is_true_true. unfold hit. rewrite existsb_exists. split.
  - intros ([k o] & Hin & [Hl [Hk Hact]%owned_active_spec]%andb_true_iff).
    apply list_elem_of_In, Hrows in Hin as [E Hs]. simpl in *. by rewrite Hact, Hk, E, Hs, Hl.
  - intros [Hact Hm]%andb_true_iff. destruct (m !! owner_id (fixed a)) as [o|] eqn:E; [|done].
    apply andb_true_iff in Hm as [Hs Hl]. exists (owner_id (fixed a), o). rewrite <- list_elem_of_In, Hrows.
    split; [done|]. simpl. rewrite Hl. by apply owned_active_spec.
Qed.

End reconcile.

(** An owner whose agents a pass interrupts: not closed, silent for the stale time, of this
    host, with a process the probe reports dead, and first suspected at least the grace ago. *)
Definition lost (host : string) (probe : Z → option string → string * option string)
    (current : spec_float) (stale grace : Z) (o : owner) : bool :=
  stale_owner (f64_sub current (f64_of_Z (Z.max 15 (Z.min stale 3600)))) o
  && owner_lost host probe current (Z.max 1 (Z.min grace 300)) o.

(** A reconciliation never fails; it interrupts exactly the active agents of the lost
    owners and changes no other agent, reports exactly the lost owners, and never closes or
    marks an owner that is fresh, closed, of another host or not proven dead. *)
Theorem reconcile_interrupts_iff now stale grace clock host probe db :
  let current := or_clock now clock in
  let lost := lost host probe current stale grace in
  let db' := (reconcile_stale_owners now stale grace clock host probe db).1 in
  (∃ r, (reconcile_stale_owners now stale grace clock host probe db).2 = Ok r
        ∧ NoDup (reclaimed r)
        ∧ ∀ k, k ∈ reclaimed r ↔ ∃ o, owners db !! k = Some o ∧ lost o = true)
  ∧ (∀ id a, agents db !! id = Some a →
       agents db' !! id = Some (if is_active_status a
                                   && match owners db !! owner_id (fixed a) with Some o => lost o | None => false end
                                then interrupt "interrupted after owner heartbeat expired" current a else a))
  ∧ (∀ id, agents db !! id = None → agents db' !! id = None)
  ∧ ∀ k o, owners db !! k = Some o →
      owners db' !! k = Some (if stale_owner (f64_sub current (f64_of_Z (Z.max 15 (Z.min stale 3600)))) o
                              then owner_after host probe current (Z.max 1 (Z.min grace 300)) o else o).
Proof.
  intros current lost'. unfold reconcile_stale_owners. rewrite interrupt_edges.
  fold current. set (g := Z.max 1 (Z.min grace 300)). set (cutoff := f64_sub current _).
  set (stale_rows := filter _ (owners db)). set (rows := map_to_list stale_rows).
  assert (∀ k o, (k, o) ∈ rows ↔ owners db !! k = Some o ∧ stale_owner cutoff o = true) as Hrows.
  { intros k o. unfold rows. rewrite elem_of_map_to_list. apply map_lookup_filter_Some. }
  assert (NoDup rows.*1) as Hnd by apply NoDup_fst_map_to_list.
  destruct (reconcile_rows host probe current g rows db (MkReport 0 0 [] []) Hnd) as (Ho & Ha & Hr).
  { intros k o Hk. by apply Hrows in Hk as [??]. }
  destruct (foldl _ _ rows) as [db1 r]. simpl in *. split_and!.
  - exists r. split; [done|]. rewrite Hr. split.
    + by apply filter_keys_nodup.
    + intros k. rewrite list_elem_of_fmap. unfold lost', lost. fold g. fold cutoff. split.
      * intros ([k' o] & -> & [Hin Hl]%list_elem_of_In%filter_In). apply list_elem_of_In, Hrows in Hin as [E Hs].
        exists o. simpl in Hl. by rewrite Hs, Hl.
      * intros (o & E & [Hs Hl]%andb_true_iff). exists (k, o). split; [done|].
        apply list_elem_of_In, filter_In. split; [|done]. by apply list_elem_of_In, Hrows.
  - intros id a E. rewrite Ha, E. simpl. by rewrite (hit_rows _ _ _ _ _ _ _ a Hrows).
  - intros id E. by rewrite Ha, E.
  - intros k o E. rewrite Ho, E. unfold mem. destruct (stale_owner cutoff o) eqn:Hs.
    + rewrite bool_decide_eq_true_2; [done|]. apply list_elem_of_fmap. exists (k, o). by rewrite Hrows.
    + rewrite bool_decide_eq_false_2; [done|]. intros ([k' o'] & -> & Hin)%list_elem_of_fmap.
      apply Hrows in Hin as [E' Hs']. simpl in E. congruence.
Qed.

(** ** Retry claims *)

Lemma prefix_app s t : String.prefix s (s +:+ t) = true.
Proof. induction s as [|c s IH]; simpl; [by destruct t|]. by destruct (ascii_dec c c). Qed.

(** A stored claim reads back as its expiry, to the millisecond. *)
Lemma retry_lease_expiry_claim token x :
  free_of ":" token = true → _retry_lease_expiry (claim_text token x) = Some (rounded3 x).
Proof.
  intros Ht. unfold _retry_lease_expiry, claim_text. rewrite prefix_app. simpl negb. cbv iota.
  change (RETRY_LEASE_PREFIX +:+ ?s) with ("retry-pending" +:+ String ":" s).
  change (token +:+ ":" +:+ ?s) with (token +:+ String ":" s).
  rewrite (split_text_app ":" "retry-pending"), (split_text_app ":" token) by done.
  rewrite split_text_single by apply fmt3_free. by rewrite float_of_fmt3.
Qed.

(** The target is claimed until the time. *)
Definition claimed (target token : string) (expires : spec_float) (db : fleet) : Prop :=
  ∃ a, agents db !! target = Some a ∧ retried_by (life a) = claim_text token expires.

(** The calls that may take the claim away: a release of the target, the finish of a master
    that retries it, and an acquisition at or after the expiry. *)
Definition disturbs (target : string) (expires : spec_float) (o : fleet_op) (db : fleet) : Prop :=
  match o with
  | FinishAgent id _ _ _ _ _ _ => settles id db target
  | ReleaseRetry id _ _ => target = strip id
  | AcquireRetry id _ now clock _ => target = strip id ∧ f64_ltb (default clock now) (rounded3 expires) = false
  | _ => False
  end.

Fixpoint undisturbed (target : string) (expires : spec_float) (db : fleet) (ops : list fleet_op) : Prop :=
  match ops with
  | [] => True
  | o :: rest => ¬ disturbs target expires o db ∧ undisturbed target expires (perform db o) rest
  end.

(** A claimed target is refused before its expiry. *)
Lemma claimed_refused target token expires id secs now clock token' db :
  claimed target token expires db → free_of ":" token = true → strip id = target →
  f64_ltb (default clock now) (rounded3 expires) = true →
  acquire_retry_lease id secs now clock token' db = (db, None).
Proof.
  intros (a & Ha & Hc) Hf Hid Ht. unfold acquire_retry_lease. rewrite Hid, Ha, Hc.
  rewrite retry_lease_expiry_claim, Ht by done. by repeat case_match.
Qed.

Lemma claimed_run target token expires ops db :
  free_of ":" token = true → claimed target token expires db → undisturbed target expires db ops →
  claimed target token expires (run db ops).
Proof.
  intros Hf. unfold run. revert db. induction ops as [|o ops IH]; intros db Hc; simpl; [done|].
  intros [Hd Hu]. apply IH; [|done].
  assert (¬ touched o db target ∨ perform db o = db) as [Hn|E].
  - destruct o; simpl in *; auto. destruct (decide (target = strip id)) as [E|]; [right|by left].
    erewrite claimed_refused; [done|exact Hc|done|done|]. destruct (f64_ltb _ _) eqn:Ht; [done|]. by destruct Hd.
  - destruct Hc as (a & Ha & Hr). destruct (perform_grows db o target a Ha) as (a' & Ha' & _ & [?|E]); [done|].
    exists a'. split; [done|]. congruence.
  - by rewrite E.
Qed.

(** C31: A retry claim is exclusive: once granted, and until somebody releases the target or a
    master that retries it finishes, every further acquisition before the expiry (to the
    millisecond the claim records) is refused and changes nothing, whatever else runs. *)
Theorem retry_claim_exclusive id secs now clock token db db1 l ops id' secs' now' clock' token' :
  acquire_retry_lease id secs now clock token db = (db1, Some l) →
  free_of ":" token = true →
  undisturbed (strip id) (l_expires_ts l) db1 ops →
  strip id' = strip id → f64_ltb (default clock' now') (rounded3 (l_expires_ts l)) = true →
  acquire_retry_lease id' secs' now' clock' token' (run db1 ops) = (run db1 ops, None).
Proof.
  intros Ha Hf Hu Hid Ht. eapply (claimed_refused _ token); [|done|exact Hid|exact Ht].
  apply claimed_run; [done| |done].
  unfold acquire_retry_lease in Ha. destruct (String.eqb _ _); [done|].
  destruct (agents db !! strip id) as [a|] eqn:E; [|done].
  do 4 (match type of Ha with (if ?b then _ else _) = _ => destruct b; [done|] end).
  injection Ha as <- <-. exists (set_retried_by (claim_text token (l_expires_ts (MkRetryLease (strip id) token
    (f64_add (default clock now) (f64_of_Z (Z.max 5 (Z.min secs MAX_RETRY_LEASE_SECONDS)))))))
    (default clock now) a). simpl. by rewrite lookup_alter_eq, E.
Qed.

(** ** A finished result is replayed *)

(** A successful retry leaves every row that is [done] as it is. *)
Lemma settle_retry_done id stored now m m' i x :
  status (life stored) = "done" → settle_retry id stored now m = Ok m' →
  m !! i = Some x → status (life x) = "done" → m' !! i = Some x.
Proof.
  intros Hs Hm Hx Hd. unfold settle_retry in Hm. rewrite Hs in Hm.
  destruct (_ || _); [by injection Hm as <-|]. apply bind_ok in Hm as (u & _ & [= <-]).
  destruct (decide (i = retry_of (fixed stored))) as [->|Hi]; [|by rewrite lookup_alter_ne].
  rewrite lookup_alter_eq, Hx. simpl. by rewrite Hd.
Qed.

Lemma finish_agent_ok id owner output error drift metrics now db db1 a marker :
  finish_agent id owner output error drift metrics now db = (db1, Ok (Some a, marker)) →
  status (life a) = "done" →
  ∃ b, agents db !! id = Some b ∧ owner_id (fixed b) = owner ∧ cancel_requested (life a) = false
    ∧ owner_id (fixed a) = owner ∧ agents db1 !! id = Some a.
Proof.
  unfold finish_agent. intros H%write_transaction_ok Hs.
  destruct (agents db !! id) as [b|] eqn:Hb; [|done].
  destruct (String.eqb_spec (owner_id (fixed b)) owner) as [Ho|]; [simpl in H|done].
  exists b. do 2 (split; [done|]). destruct (judge_finish b output error drift) as [m|v] eqn:Hj.
  - injection H as <- <- _. split_and!; [|done|done]. unfold judge_finish in Hj. rewrite Hs in Hj. simpl in Hj.
    by destruct (cancel_requested (life b)).
  - apply bind_ok in H as ([] & _ & (m & Hm & [= <- <- _])%bind_ok). simpl in *.
    apply judge_finish_cases in Hj as [_ [[_ ->]|[[Hc _] ->]]]; [done|]. split_and!; [done|done|].
    eapply settle_retry_done; [|exact Hm|apply lookup_insert_eq|]; exact Hs.
Qed.

(** A finish is idempotent: once it reports [done], every later finish by the owner, with
    whatever outcome, returns the row with the recorded result and changes nothing, whatever ran
    in between. *)
Theorem finish_replays id owner output error drift metrics now db db1 a marker ops output' error' drift' metrics' now' :
  finish_agent id owner output error drift metrics now db = (db1, Ok (Some a, marker)) →
  status (life a) = "done" →
  ∃ a2, finish_agent id owner output' error' drift' metrics' now' (run db1 ops)
        = (run db1 ops, Ok (Some a2, recorded_text a))
    ∧ status (life a2) = "done" ∧ output_of a2 = output_of a ∧ error_of a2 = error_of a.
Proof.
  intros Hf Hs. destruct (finish_agent_ok _ _ _ _ _ _ _ _ _ _ _ Hf Hs) as (b & _ & _ & Hc & Ho & Ha).
  destruct (run_grows ops db1 id a Ha) as (a2 & Ha2 & [F _ _ T _ _ R] & _).
  assert (is_active_status a = false) as Hi by (unfold is_active_status; by rewrite Hs).
  destruct R as (Hout & Herr & Hcan); [done|by rewrite Hs|].
  assert (status (life a2) = "done") as Hs2.
  { destruct (T Hi) as [E|[E _]]; [congruence|]. exfalso. revert E. rewrite Hs. unfold RETRYABLE_STATUSES. set_solver. }
  exists a2. split_and!; [|done..]. unfold finish_agent, _write_transaction. rewrite Ha2, F, Ho, String.eqb_refl. simpl.
  unfold judge_finish. rewrite Hs2, Hcan, Hc. simpl. unfold recorded_text. by rewrite Hout, Herr.
Qed.

(** ** A concrete run *)

Definition at_ (n : Z) : spec_float := f64_of_Z n.

Definition demo_row (id role' parent retry : string) : agent_row :=
  MkRow id "" (Some role') parent "task" "" "" (Some (at_ 100)) (Some (at_ 100)) None 0 0 0 [] "" "" ""
    false false 0 0 "" "" "" retry "" "" "" [] false "{}".

(** A master with a queued child and a second master, of one owner. *)
Definition demo : fleet := run empty_fleet
  [RegisterOwner "o1" 7 "host" "p7" None (at_ 100);
   CreateAgent (demo_row "m1" "master" "" "") "o1" 7 "" "" (at_ 100);
   CreateAgent (demo_row "w1" "agent" "m1" "") "o1" 7 "" "" (at_ 100);
   CreateAgent (demo_row "m2" "master" "" "") "o1" 7 "" "" (at_ 100);
   StartAgent "m1" "o1" "planning" false 0 0 0 "" "" (at_ 101)].

Definition demo_status (db : fleet) (id : string) : option string := (status ∘ life) <$> agents db !! id.
Definition demo_claim (db : fleet) (id : string) : option string := (retried_by ∘ life) <$> agents db !! id.

Example demo_statuses :
  demo_status demo <$> ["m1"; "w1"; "m2"] = [Some "running"; Some "queued"; Some "queued"].
Proof. vm_compute. reflexivity. Qed.

(** Cancelling the running master by a prefix of its name cancels its queued child at once. *)
Example demo_cancel :
  demo_status (perform demo (CancelAgents " m1 " (at_ 102))) <$> ["m1"; "w1"; "m2"]
  = [Some "running"; Some "cancelled"; Some "queued"].
Proof. vm_compute. reflexivity. Qed.

Definition demo_probe (pid : Z) (identity : option string) : string * option string := ("dead", None).

(** The first pass suspects the silent owner, the next one interrupts its agents. *)
Example demo_reconcile :
  let pass t := ReconcileStale (Some (at_ t)) 60 10 (at_ t) "host" demo_probe in
  demo_status (run demo [pass 200]) <$> ["m1"; "w1"] = [Some "running"; Some "queued"]
  ∧ demo_status (run demo [pass 200; pass 205]) <$> ["m1"; "w1"] = [Some "running"; Some "queued"]
  ∧ demo_status (run demo [pass 200; pass 211]) <$> ["m1"; "w1"] = [Some "interrupted"; Some "interrupted"].
Proof. vm_compute. auto. Qed.

Definition demo_failed : fleet :=
  run demo [FinishAgent "m1" "o1" "" "boom" false "{}" (at_ 103)].

(** A finish that failed, a granted claim, a retry that succeeds. *)
Example demo_retry :
  let granted := run demo_failed [AcquireRetry "m1" 120 (Some (at_ 104)) (at_ 104) "tok"] in
  demo_claim granted "m1" = Some "retry-pending:tok:224.000"
  ∧ demo_status (run granted
      [CreateAgent (demo_row "m3" "master" "" "m1") "o1" 7 "" "" (at_ 105);
       StartAgent "m3" "o1" "again" false 0 0 0 "" "" (at_ 106);
       FinishAgent "m3" "o1" "fine" "" false "{}" (at_ 107)]) <$> ["m1"; "m3"]
    = [Some "retried"; Some "done"].
Proof. vm_compute. auto. Qed.

(** The token of a release is a pattern: the token [%] releases the claim of anybody. *)
Example release_token_is_pattern :
  demo_claim (run demo_failed
    [AcquireRetry "m1" 120 (Some (at_ 104)) (at_ 104) "tok"; ReleaseRetry "m1" "%" (at_ 105)]) "m1" = Some "".
Proof. vm_compute. reflexivity. Qed.

(** A retry dispatched under an expired claim clears, when it fails, the claim another
    dispatcher has been granted since. *)
Example failed_retry_clears_foreign_claim :
  let granted := run demo_failed
    [AcquireRetry "m1" 5 (Some (at_ 104)) (at_ 104) "one"; AcquireRetry "m1" 3600 (Some (at_ 110)) (at_ 110) "two"] in
  demo_claim granted "m1" = Some "retry-pending:two:3710.000"
  ∧ demo_claim (run granted
      [CreateAgent (demo_row "m3" "master" "" "m1") "o1" 7 "" "" (at_ 111);
       FinishAgent "m3" "o1" "" "boom" false "{}" (at_ 112)]) "m1" = Some "".
Proof. vm_compute. auto. Qed.


Lemma cancellation_is_final_witness :
  ∃ a, agents (run (cancel_agents "m1" (at_ 102) demo).1 [FinishAgent "m1" "o1" "out" "" false "{}" (at_ 103)])
         !! "m1" = Some a ∧ stopping a.
Proof.
  destruct (cancel_agents "m1" (at_ 102) demo).2 as [r|e] eqn:Hr; [|by vm_compute in Hr].
  refine (proj1 (cancellation_is_final "m1" (at_ 102) demo r "m1"
                   [FinishAgent "m1" "o1" "out" "" false "{}" (at_ 103)] Hr _)).
  vm_compute in Hr. injection Hr as <-. simpl. by left.
Defined.

Lemma retry_claim_exclusive_witness :
  let db1 := run demo_failed [AcquireRetry "m1" 120 (Some (at_ 104)) (at_ 104) "tok"] in
  let ops := [Heartbeat "o1" (at_ 105); AcquireRetry "m1" 120 (Some (at_ 106)) (at_ 106) "tik"] in
  acquire_retry_lease "m1" 120 (Some (at_ 200)) (at_ 200) "tak" (run db1 ops) = (run db1 ops, None).
Proof.
  intros db1 ops.
  destruct (acquire_retry_lease "m1" 120 (Some (at_ 104)) (at_ 104) "tok" demo_failed) as [db2 [l|]] eqn:Ha;
    [|by vm_compute in Ha].
  assert (db1 = db2) as -> by exact (f_equal fst Ha).
  apply (retry_claim_exclusive _ _ _ _ _ _ _ l _ _ _ _ _ _ Ha); [reflexivity| |reflexivity|];
    vm_compute in Ha; injection Ha as <- <-.
  - simpl. split_and!; [by intros []|intros [_ H]; vm_compute in H; discriminate|exact I].
  - vm_compute. reflexivity.
Defined.

Lemma finish_replays_witness :
  ∃ a2, (finish_agent "m1" "o1" "other" "late error" false "{}" (at_ 110)
           (run (finish_agent "m1" "o1" "out" "" false "{}" (at_ 103) demo).1 [CancelAgents "*" (at_ 104)])).2
        = Ok (Some a2, "out").
Proof.
  destruct (finish_agent "m1" "o1" "out" "" false "{}" (at_ 103) demo) as [db1 [[[a|] marker]|]] eqn:Hf;
    [|by vm_compute in Hf..].
  destruct (finish_replays "m1" "o1" "out" "" false "{}" (at_ 103) demo db1 a marker [CancelAgents "*" (at_ 104)]
              "other" "late error" false "{}" (at_ 110) Hf) as (a2 & E & _).
  - vm_compute in Hf. by injection Hf as _ <- _.
  - exists a2. change (Ok (Some a2, "out")) with (Ok (Some a2, "out")). simpl fst. rewrite E. simpl.
    vm_compute in Hf. by injection Hf as _ <- _.
Defined.
