(* ===== verification/FleetMessages.v ===== *)
(** The mailbox and the listings of the fleet ledger:
    [adapters/persistence/fleet_store.py], continued.

    A message is queued between two agents of one tree and is delivered by an atomic claim of
    its recipient.  The database does not store a NaN, so clock readings are numbers where the
    order of messages matters.  Pruning and the fleet snapshot are not modelled. *)
From S2P Require Import Prelude PyFloat PyText PyNumText Sha256 Automation FleetStore.
From Stdlib Require Import Ascii.

Local Open Scope Z_scope.

Definition MAX_MESSAGE_CHARS : Z := 8000.
Definition MAX_PENDING_MESSAGES_PER_AGENT : Z := 32.
Definition MAX_PENDING_MESSAGES_PER_SCOPE : Z := 128.
Definition MAX_MESSAGES_PER_RATE_WINDOW : Z := 10.
Definition MESSAGE_RATE_WINDOW_SECONDS : Z := 60.
Definition DEFAULT_MESSAGE_PENDING_TTL_SECONDS : Z := 24 * 60 * 60.
Definition MESSAGE_MODES := ["follow_up"; "steer"].

(** ** Scope *)

(** [if principal_id: principal = _authenticate_principal(...)], else [""]. *)
Definition authenticated (db : fleet) (principal secret : string) : res string :=
  if String.eqb principal "" then Ok "" else _authenticate_principal db principal secret.

(** The row belongs to the principal when there is one, else to the owner, and to the project. *)
Definition in_scope (principal owner project' : string) (a : agent) : bool :=
  (if String.eqb principal "" then String.eqb (owner_id (fixed a)) owner
   else String.eqb (principal_id (fixed a)) principal)
  && String.eqb (project (fixed a)) project'.

(** The walk up the parents, at most [fuel] rows of it. *)
Fixpoint climb (fuel : nat) (m : gmap string agent) (current : string) (seen : list string) : res string :=
  match fuel with
  | O => throw ValueError "agent parent chain exceeds safety limit"
  | S fuel' =>
      _ ← require (negb (String.eqb current "" || mem current seen)) ValueError "agent parent chain is invalid";
      match m !! current with
      | None => throw ValueError "agent does not exist"
      | Some a => if String.eqb (parent_id (fixed a)) "" then Ok current
                  else climb fuel' m (parent_id (fixed a)) (current :: seen)
      end
  end.

Definition _scope_root_id (db : fleet) (id : string) : res string := climb 64 (agents db) id [].

(** ** Queueing *)

Definition is_queued (x : message) : bool := String.eqb (m_status x) "queued".

(** [UPDATE fleet_messages SET status='expired' WHERE status='queued' AND expires_ts<=?] *)
Definition expire_due (current : spec_float) (m : gmap string message) : gmap string message :=
  expire_messages (λ x, is_queued x && f64_leb (expires_ts x) current) m.

Definition count_messages (p : message → bool) (m : gmap string message) : Z :=
  Z.of_nat (size (filter (λ kv : string * message, p kv.2 = true) m)).

Definition pending_for (recipient : string) (x : message) : bool :=
  String.eqb (recipient_id x) recipient && is_queued x.

Definition of_scope (principal owner : string) (x : message) : bool :=
  if String.eqb principal "" then String.eqb (m_owner_id x) owner
  else String.eqb (m_principal_id x) principal.

Definition pending_in (principal owner project' root : string) (x : message) : bool :=
  of_scope principal owner x && String.eqb (project_scope x) project'
  && String.eqb (scope_root_id x) root && is_queued x.

Definition recent_of (sender : string) (since : spec_float) (x : message) : bool :=
  String.eqb (sender_id x) sender && f64_ltb since (queued_ts x).

(** [str(mode or "").strip().lower().replace("-", "_")]: only ASCII letters lower to the letters
    of a mode. *)
Definition message_mode (mode : string) : string := replace_char "-" "_" (lower (strip mode)).

(** The transaction of [queue_agent_message] with cleaned arguments. *)
Definition queue_body (sender recipient owner project' mode body : string) (current : spec_float) (ttl : Z)
    (principal_arg secret id : string) (db : fleet) : res (fleet * message) :=
  principal ← authenticated db principal_arg secret;
  match agents db !! sender, agents db !! recipient with
  | Some s, Some r =>
      _ ← require (in_scope principal owner project' s && in_scope principal owner project' r) PermissionError
            "agent is outside the requested owner/project scope";
      sender_root ← _scope_root_id db sender;
      recipient_root ← _scope_root_id db recipient;
      _ ← require (String.eqb sender_root recipient_root) PermissionError
            "agents do not belong to the same parent scope";
      _ ← require (negb (String.eqb mode "steer") || is_active_status r) ValueError
            "steer requires a queued or running recipient";
      let m := expire_due current (messages db) in
      _ ← require (count_messages (pending_for recipient) m <? MAX_PENDING_MESSAGES_PER_AGENT) RuntimeError
            "recipient pending-message limit reached";
      _ ← require (count_messages (pending_in principal owner project' sender_root) m
                   <? MAX_PENDING_MESSAGES_PER_SCOPE) RuntimeError
            "parent scope pending-message limit reached";
      _ ← require (count_messages (recent_of sender (f64_sub current (f64_of_Z MESSAGE_RATE_WINDOW_SECONDS))) m
                   <? MAX_MESSAGES_PER_RATE_WINDOW) RuntimeError
            "sender message rate limit reached";
      _ ← require (negb (bool_decide (is_Some (m !! id)))) IntegrityError
            "UNIQUE constraint failed: fleet_messages.message_id";
      let x := MkMessage sender recipient owner principal project' sender_root mode body "queued" current None
                 (f64_add current (f64_of_Z ttl)) in
      Ok (with_messages (<[id := x]> m) db, x)
  | _, _ => throw ValueError "sender or recipient agent does not exist"
  end.

Definition queue_agent_message (sender_arg recipient_arg owner_arg project' mode_arg body_arg : string)
    (now : option spec_float) (pending_ttl_seconds : Z) (principal_arg secret : string) (clock : spec_float)
    (id : string) (db : fleet) : fleet * res message :=
  let sender := strip sender_arg in
  let recipient := strip recipient_arg in
  let owner := strip owner_arg in
  let mode := message_mode mode_arg in
  let body := strip body_arg in
  match
    _ ← require (negb (String.eqb sender "" || String.eqb recipient "" || String.eqb owner "")) ValueError
          "sender_id, recipient_id, and owner_id are required";
    _ ← require (mem mode MESSAGE_MODES) ValueError "mode must be follow_up or steer";
    _ ← require (negb (String.eqb body "")) ValueError "message body is required";
    require (py_len body <=? MAX_MESSAGE_CHARS) ValueError "message body exceeds 8000 characters"
  with
  | Err e => (db, Err e)
  | Ok _ =>
      _write_transaction
        (queue_body sender recipient owner project' mode body (default clock now)
           (Z.max 60 (Z.min pending_ttl_seconds (7 * 24 * 60 * 60))) principal_arg secret id) db
  end.

(** ** Claiming *)

(** [ORDER BY queued_ts, message_id] *)
Definition message_le (x y : string * message) : bool :=
  f64_ltb (queued_ts x.2) (queued_ts y.2)
  || f64_leb (queued_ts x.2) (queued_ts y.2) && f64_leb (queued_ts y.2) (queued_ts x.2) && String.leb x.1 y.1.

(** What the two updates of a claim expire: messages past their time, and steering of a
    recipient that has stopped. *)
Definition lapsed (recipient : string) (active : bool) (current : spec_float) (x : message) : bool :=
  pending_for recipient x
  && (f64_leb (expires_ts x) current || String.eqb (m_mode x) "steer" && negb active).

Definition claimable (recipient principal owner project' : string) (x : message) : bool :=
  pending_for recipient x && of_scope principal owner x && String.eqb (project_scope x) project'.

Definition deliver (current : spec_float) (x : message) : message :=
  MkMessage (sender_id x) (recipient_id x) (m_owner_id x) (m_principal_id x) (project_scope x)
    (scope_root_id x) (m_mode x) (m_body x) "delivered" (queued_ts x) (Some current) (expires_ts x).

Definition claim_body (recipient owner project' : string) (limit : Z) (current : spec_float)
    (principal_arg secret : string) (db : fleet) : res (fleet * list (string * message)) :=
  principal ← authenticated db principal_arg secret;
  a ← match agents db !! recipient with
      | Some a => _ ← require (in_scope principal owner project' a) PermissionError
                        "recipient is outside the requested scope";
                  Ok a
      | None => throw PermissionError "recipient is outside the requested scope"
      end;
  let m := expire_messages (lapsed recipient (is_active_status a) current) (messages db) in
  let rows := sort_by message_le (map_to_list
                (filter (λ kv : string * message, claimable recipient principal owner project' kv.2 = true) m)) in
  let ids := (take (Z.to_nat limit) rows).*1 in
  let m' := foldl (λ m id, alter (deliver current) id m) m ids in
  Ok (with_messages m' db, omap (λ id, pair id <$> m' !! id) ids).

Definition claim_agent_messages (recipient_arg owner_arg project' : string) (limit : Z) (now : option spec_float)
    (principal_arg secret : string) (clock : spec_float) (db : fleet) : fleet * res (list (string * message)) :=
  let recipient := strip recipient_arg in
  let owner := strip owner_arg in
  if String.eqb recipient "" || String.eqb owner ""
  then (db, throw ValueError "recipient_id and owner_id are required")
  else
    let capped := Z.max 1 (Z.min (if limit =? 0 then 8 else limit) 32) in
    _write_transaction
      (claim_body recipient owner project' capped (default clock now) principal_arg secret) db.

(** The receipts of one agent, the newest first. *)
Definition list_agent_messages (agent_arg owner_arg project' : string) (limit : Z) (principal_arg secret : string)
    (db : fleet) : res (list (string * message)) :=
  let id := strip agent_arg in
  let owner := strip owner_arg in
  _ ← require (negb (String.eqb id "" || String.eqb owner "")) ValueError "agent_id and owner_id are required";
  principal ← authenticated db principal_arg secret;
  _ ← require (match agents db !! id with Some a => in_scope principal owner project' a | None => false end)
        PermissionError "agent is outside the requested scope";
  let shown (x : message) := of_scope principal owner x && String.eqb (project_scope x) project'
                             && (String.eqb (sender_id x) id || String.eqb (recipient_id x) id) in
  let rows := sort_by message_le (map_to_list (filter (λ kv : string * message, shown kv.2 = true) (messages db))) in
  Ok (take (Z.to_nat (Z.max 1 (Z.min (if limit =? 0 then 50 else limit) 200))) (rev rows)).

Definition clear_all (db : fleet) : fleet := MkFleet ∅ (principals db) ∅ ∅ [].

(** ** Listings *)

(** [WITH RECURSIVE scoped(id) ... UNION ALL ...]: the rows below the given ones, level by
    level; [None] when the levels do not end within [fuel]. *)
Fixpoint subtree_rows (fuel : nat) (scope : agent → bool) (m : gmap string agent) (level : list string)
  : option (list string) :=
  match fuel with
  | O => None
  | S fuel' =>
      match level with
      | [] => Some []
      | _ =>
          let next := flat_map (λ id, (map_to_list (filter (λ kv : string * agent,
                        String.eqb (parent_id (fixed kv.2)) id && scope kv.2 = true) m)).*1) level in
          below ← subtree_rows fuel' scope m next;
          Some (level ++ below)
      end
  end.

(** [ORDER BY updated_ts DESC], rows of the same time in the order of the map. *)
Definition newest_first (x y : string * agent) : bool := f64_leb (updated_ts (life y.2)) (updated_ts (life x.2)).

(** [None] when the query does not end within [fuel] levels. *)
Definition list_agents_scoped (fuel : nat) (owner_arg project' parent : string) (include_finished : bool)
    (limit : Z) (principal_arg secret : string) (db : fleet) : option (res (list (string * agent))) :=
  let owner := strip owner_arg in
  let capped := Z.to_nat (Z.max 1 (Z.min (if limit =? 0 then 50 else limit) 200)) in
  let finish (principal : string) (ids : list string) :=
    let rows := List.filter (λ kv : string * agent, in_scope principal owner project' kv.2
                               && (include_finished || is_active_status kv.2))
                  (omap (λ id, pair id <$> agents db !! id) ids) in
    Some (Ok (take capped (sort_by newest_first rows))) in
  match
    _ ← require (negb (String.eqb owner "" && String.eqb principal_arg "")) ValueError
          "owner_id or authenticated principal is required";
    principal ← authenticated db principal_arg secret;
    _ ← require (String.eqb parent ""
                 || match agents db !! parent with Some a => in_scope principal owner project' a | None => false end)
          PermissionError "parent agent is outside the requested scope";
    Ok principal
  with
  | Err e => Some (Err e)
  | Ok principal =>
      if String.eqb parent "" then finish principal (map_to_list (agents db)).*1
      else ids ← subtree_rows fuel (in_scope principal owner project') (agents db) [parent];
           finish principal ids
  end.

(** The last [limit] events of the agents, the oldest first; an event carries its place in the
    log. *)
Definition events_for_agents (ids : list string) (limit : Z) (db : fleet) : list (nat * event) :=
  let identities := take 201 (sorted_text (remove_dups (List.filter (λ s, negb (String.eqb s "")) ids))) in
  let rows := List.filter (λ e : nat * event, mem (e_agent_id e.2) identities) (imap pair (events db)) in
  drop (length rows - Z.to_nat (Z.max 1 (Z.min limit 200))) rows.

(** ** Runs of the whole ledger *)

Inductive mail_op :=
  | Fleet (o : fleet_op)
  | QueueMessage (sender recipient owner project' mode body : string) (now : option spec_float) (ttl : Z)
      (principal secret : string) (clock : spec_float) (id : string)
  | ClaimMessages (recipient owner project' : string) (limit : Z) (now : option spec_float)
      (principal secret : string) (clock : spec_float).

Definition perform_mail (db : fleet) (o : mail_op) : fleet :=
  match o with
  | Fleet o => FleetStore.perform db o
  | QueueMessage s r o p m b now ttl pr se clock id => (queue_agent_message s r o p m b now ttl pr se clock id db).1
  | ClaimMessages r o p l now pr se clock => (claim_agent_messages r o p l now pr se clock db).1
  end.

Definition run_mail (db : fleet) (ops : list mail_op) : fleet := foldl perform_mail db ops.

(** What happens to a stored message: nothing, or it leaves the queue for good. *)
Record retired (x x' : message) : Prop := {
  ret_queue : is_queued x' = true → is_queued x = true;
  ret_kept : is_queued x = false → x' = x;
  ret_sender : sender_id x' = sender_id x;
  ret_recipient : recipient_id x' = recipient_id x;
  ret_owner : m_owner_id x' = m_owner_id x;
  ret_principal : m_principal_id x' = m_principal_id x;
  ret_project : project_scope x' = project_scope x;
  ret_root : scope_root_id x' = scope_root_id x;
  ret_time : queued_ts x' = queued_ts x
}.

#[export] Instance retired_preorder : PreOrder retired.
Proof.
  split; [by intros x; split|]. intros x y z [] []. split; try congruence; auto.
  intros Hx. assert (y = x) as -> by auto. auto.
Qed.

Definition retires (m m' : gmap string message) : Prop :=
  ∀ id, option_Forall2 retired (m !! id) (m' !! id).

#[export] Instance retires_preorder : PreOrder retires.
Proof.
  split.
  - intros m id. destruct (m !! id); by constructor.
  - intros m1 m2 m3 H1 H2 id. specialize (H1 id). specialize (H2 id). destruct H1 as [x y Hxy|].
    + inversion H2 as [? z Hyz E|]; subst. constructor. by transitivity y.
    + inversion H2; subst. constructor.
Qed.

Lemma retires_lookup m m' id x :
  retires m m' → m !! id = Some x → ∃ x', m' !! id = Some x' ∧ retired x x'.
Proof. intros H Hx. specialize (H id). rewrite Hx in H. inversion H; subst. eauto. Qed.

Lemma retires_lookup_r m m' id x' :
  retires m m' → m' !! id = Some x' → ∃ x, m !! id = Some x ∧ retired x x'.
Proof. intros H Hx. specialize (H id). rewrite Hx in H. inversion H; subst. eauto. Qed.

Lemma retires_fmap f m : (∀ x, retired x (f x)) → retires m (f <$> m).
Proof. intros Hf id. rewrite lookup_fmap. destruct (m !! id); constructor. apply Hf. Qed.

Lemma expire_retires p m : (∀ x, p x = true → is_queued x = true) → retires m (expire_messages p m).
Proof.
  intros Hp. apply retires_fmap. intros x. destruct (p x) eqn:E; [|reflexivity].
  apply Hp in E. split; try done. congruence.
Qed.

Lemma pending_queued r x : pending_for r x = true → is_queued x = true.
Proof. unfold pending_for. by intros [_ ?]%andb_true_iff. Qed.

(** ** Counting *)

Lemma count_le (p q : message → bool) m m' :
  (∀ id x', m' !! id = Some x' → p x' = true → ∃ x, m !! id = Some x ∧ q x = true) →
  count_messages p m' <= count_messages q m.
Proof.
  intros H. unfold count_messages. apply inj_le. rewrite <- !size_dom. apply subseteq_size.
  intros id [x' Hx]%elem_of_dom. apply map_lookup_filter_Some in Hx as [Hx Hp].
  destruct (H id x' Hx Hp) as (x & Hx0 & Hp0). apply elem_of_dom. exists x. by apply map_lookup_filter_Some.
Qed.

Lemma count_insert p id x m : m !! id = None → count_messages p (<[id := x]> m) <= count_messages p m + 1.
Proof.
  intros Hid. unfold count_messages. destruct (p x) eqn:E.
  - rewrite map_filter_insert_True by done. rewrite map_size_insert_None; [lia|].
    apply map_lookup_filter_None. by left.
  - rewrite map_filter_insert_False by (simpl; congruence). rewrite delete_id by done. lia.
Qed.

(** A count of queued messages of a kind does not grow when messages retire. *)
Lemma count_retires p m m' :
  (∀ x x', retired x x' → p x' = true → p x = true) → retires m m' →
  count_messages p m' <= count_messages p m.
Proof.
  intros Hp Hr. apply count_le. intros id x' Hx' Hpx. destruct (retires_lookup_r _ _ _ _ Hr Hx') as (x & Hx & Hret).
  exists x. split; [done|]. by eapply Hp.
Qed.

Lemma pending_for_retired r x x' : retired x x' → pending_for r x' = true → pending_for r x = true.
Proof. intros [Hq _ _ E]. unfold pending_for. rewrite E, !andb_true_iff. tauto. Qed.

Lemma pending_in_retired pr o pj root x x' :
  retired x x' → pending_in pr o pj root x' = true → pending_in pr o pj root x = true.
Proof.
  intros [Hq _ _ _ Eo Ep Epj Er]. unfold pending_in, of_scope. rewrite Eo, Ep, Epj, Er, !andb_true_iff. tauto.
Qed.

(** ** What operations do to the mailbox *)

Lemma retires_same m m' : m' = m → retires m m'.
Proof. by intros ->. Qed.

Lemma transaction_messages {A} (body : fleet → res (fleet * A)) db :
  (∀ db' a, body db = Ok (db', a) → retires (messages db) (messages db')) →
  retires (messages db) (messages (_write_transaction body db).1).
Proof.
  intros Hb. unfold _write_transaction. destruct (body db) as [[db' a]|e]; [by apply (Hb db' a)|reflexivity].
Qed.

Lemma finish_agent_messages id owner output error drift metrics now db :
  retires (messages db) (messages (finish_agent id owner output error drift metrics now db).1).
Proof.
  apply transaction_messages. intros db' r. destruct (agents db !! id) as [a|]; [|by intros [= <- _]].
  destruct (negb _); [by intros [= <- _]|]. destruct (judge_finish a output error drift); [by intros [= <- _]|].
  intros (u & _ & (m & _ & [= <- _])%bind_ok)%bind_ok. apply expire_retires.
  intros x [_ Hq]%andb_true_iff. exact Hq.
Qed.

Lemma reconcile_owner_messages host probe current grace acc row :
  messages (reconcile_owner host probe current grace acc row).1 = messages acc.1.
Proof. destruct acc as [d r], row as [k o]. unfold reconcile_owner. by repeat case_match. Qed.

Lemma foldl_messages {A B} (f : fleet * A → B → fleet * A) l acc :
  (∀ acc x, messages (f acc x).1 = messages acc.1) → messages (foldl f acc l).1 = messages acc.1.
Proof. intros Hf. revert acc. induction l as [|x l IH]; intros acc; simpl; [done|]. by rewrite IH, Hf. Qed.

Lemma reconcile_messages now stale grace clock host probe db :
  messages (reconcile_stale_owners now stale grace clock host probe db).1 = messages db.
Proof.
  unfold reconcile_stale_owners. rewrite interrupt_edges.
  match goal with |- context [foldl ?f ?a ?l] =>
    pose proof (foldl_messages f l a (reconcile_owner_messages _ _ _ _)) as H; destruct (foldl f a l) end.
  done.
Qed.

Lemma perform_messages db o : retires (messages db) (messages (FleetStore.perform db o)).
Proof.
  destruct o; simpl; try (by apply finish_agent_messages);
    try (by apply retires_same, reconcile_messages); apply retires_same.
  - unfold register_principal, _write_transaction. repeat case_match; res_inv; done.
  - done.
  - unfold heartbeat_owner. by repeat case_match.
  - unfold close_owner. rewrite interrupt_edges. done.
  - unfold create_agent, _write_transaction. repeat case_match; res_inv; done.
  - unfold start_agent. by repeat case_match.
  - unfold begin_model_call. by repeat case_match.
  - unfold update_agent. by repeat case_match.
  - done.
  - unfold acquire_retry_lease. by repeat case_match.
  - unfold release_retry_lease. by repeat case_match.
  - unfold add_event. by case_match.
Qed.

Section claim.
Context (recipient owner project' : string) (limit : Z) (current : spec_float).

(** The messages a claim finds in the queue. *)
Definition claim_rows (principal : string) (active : bool) (m : gmap string message) : list (string * message) :=
  sort_by message_le (map_to_list
    (filter (λ kv : string * message, claimable recipient principal owner project' kv.2 = true)
       (expire_messages (lapsed recipient active current) m))).

Lemma claimable_queued pr x : claimable recipient pr owner project' x = true → is_queued x = true.
Proof. unfold claimable. intros [[H _]%andb_true_iff _]%andb_true_iff. by eapply pending_queued. Qed.

Lemma claim_rows_spec pr active m id x :
  (id, x) ∈ claim_rows pr active m ↔
  m !! id = Some x ∧ claimable recipient pr owner project' x = true ∧ lapsed recipient active current x = false.
Proof.
  unfold claim_rows. rewrite sort_by_Permutation, elem_of_map_to_list, map_lookup_filter_Some.
  unfold expire_messages. rewrite lookup_fmap, fmap_Some. simpl. split.
  - intros [(x0 & Hx & E) Hc]. destruct (lapsed recipient active current x0) eqn:Hl; subst x; [|done].
    apply claimable_queued in Hc. done.
  - intros (Hx & Hc & Hl). split; [|done]. exists x. by rewrite Hl.
Qed.

Lemma claim_rows_nodup pr active m : NoDup (claim_rows pr active m).*1.
Proof. unfold claim_rows. rewrite sort_by_Permutation. apply NoDup_fst_map_to_list. Qed.

Lemma lapsed_queued active x : lapsed recipient active current x = true → is_queued x = true.
Proof. unfold lapsed. intros [H _]%andb_true_iff. by eapply pending_queued. Qed.

Lemma deliver_retired x : is_queued x = true → retired x (deliver current x).
Proof. intros Hq. split; try done. congruence. Qed.

(** What a claim does, for its cleaned arguments. *)
Lemma claim_body_ok principal_arg secret db db' ms :
  claim_body recipient owner project' limit current principal_arg secret db = Ok (db', ms) →
  ∃ principal a, authenticated db principal_arg secret = Ok principal
    ∧ agents db !! recipient = Some a ∧ in_scope principal owner project' a = true
    ∧ agents db' = agents db
    ∧ (let due := take (Z.to_nat limit) (claim_rows principal (is_active_status a) (messages db)) in
       ms = prod_map id (deliver current) <$> due
       ∧ ∀ i, messages db' !! i = (if mem i due.*1 then deliver current <$> messages db !! i
                                   else expire_messages (lapsed recipient (is_active_status a) current) (messages db) !! i)).
Proof.
  unfold claim_body. intros (principal & Hp & (a & Ha & [= <- <-])%bind_ok)%bind_ok.
  destruct (agents db !! recipient) as [b|] eqn:Hb; [|done].
  apply bind_ok in Ha as (u & Hs%require_ok & [= <-]). exists principal, b. do 4 (split; [done|]).
  fold (claim_rows principal (is_active_status b) (messages db)).
  set (due := take _ (claim_rows _ _ _)). set (m := expire_messages _ (messages db)).
  assert (∀ k x, (k, x) ∈ due → messages db !! k = Some x ∧ m !! k = Some x) as Hdue.
  { intros k x Hk. apply (sublist_subseteq _ _ (sublist_take _ _)), claim_rows_spec in Hk as (Hk & _ & Hl). split; [done|].
    unfold m, expire_messages. by rewrite lookup_fmap, Hk; simpl; rewrite Hl. }
  assert (NoDup due.*1) as Hnd.
  { eapply sublist_NoDup; [apply claim_rows_nodup|]. apply fmap_sublist, sublist_take. }
  assert (∀ i, foldl (λ m i, alter (deliver current) i m) m due.*1 !! i
               = if mem i due.*1 then deliver current <$> messages db !! i else m !! i) as Hl.
  { intros i. rewrite alters_lookup by done. unfold mem. case_bool_decide as Hi; [|done].
    apply list_elem_of_fmap in Hi as ([k x] & -> & Hk). apply Hdue in Hk as [E1 E2]. simpl. by rewrite E1, E2. }
  split; [|exact Hl]. revert Hl Hdue. generalize (foldl (λ m i, alter (deliver current) i m) m due.*1).
  intros m' Hl Hdue.
  assert (∀ l, (∀ p, p ∈ l → p ∈ due) → omap (λ id, pair id <$> m' !! id) l.*1 = prod_map id (deliver current) <$> l) as H;
    [|by apply H].
  induction l as [|[k x] l IH]; intros Hin; [done|]. simpl.
  assert ((k, x) ∈ due) as Hk by (apply Hin; by left). rewrite Hl.
  unfold mem. rewrite bool_decide_eq_true_2 by (apply list_elem_of_fmap; by exists (k, x)).
  destruct (Hdue _ _ Hk) as [-> _]. simpl. f_equal. apply IH. intros p Hq. apply Hin. by right.
Qed.

End claim.

(** Every message of the first database is in the second, kept or retired. *)
Definition keeps_mail (db db' : fleet) : Prop :=
  ∀ id x, messages db !! id = Some x → ∃ x', messages db' !! id = Some x' ∧ retired x x'.

#[export] Instance keeps_mail_preorder : PreOrder keeps_mail.
Proof.
  split; [intros db id x Hx; by exists x|]. intros d1 d2 d3 H1 H2 id x Hx.
  destruct (H1 id x Hx) as (y & Hy & R1). destruct (H2 id y Hy) as (z & Hz & R2).
  exists z. split; [done|]. by transitivity y.
Qed.

Lemma retires_keeps db db' : retires (messages db) (messages db') → keeps_mail db db'.
Proof. intros H id x Hx. by eapply retires_lookup. Qed.

Lemma expire_due_retires current m : retires m (expire_due current m).
Proof. apply expire_retires. by intros x [? _]%andb_true_iff. Qed.

(** A failed transaction changes nothing; a committed one did what its body says. *)
Lemma transaction_elim {A} (P : fleet → Prop) (body : fleet → res (fleet * A)) db :
  P db → (∀ db' a, body db = Ok (db', a) → P db') → P (_write_transaction body db).1.
Proof. intros H0 H. unfold _write_transaction. destruct (body db) as [[db' a]|e]; [by apply (H db' a)|done]. Qed.

Lemma claim_messages_ok r o pj l now pr se clock db db' ms :
  claim_agent_messages r o pj l now pr se clock db = (db', Ok ms) →
  claim_body (strip r) (strip o) pj (Z.max 1 (Z.min (if l =? 0 then 8 else l) 32)) (default clock now) pr se db
  = Ok (db', ms).
Proof.
  unfold claim_agent_messages. destruct (_ || _); [done|]. apply write_transaction_ok.
Qed.

Lemma claim_body_retires r o pj l current pr se db db' ms :
  claim_body r o pj l current pr se db = Ok (db', ms) → retires (messages db) (messages db').
Proof.
  intros (principal & a & _ & _ & _ & _ & _ & Hm)%claim_body_ok i. rewrite Hm. unfold mem.
  destruct (bool_decide_reflect (i ∈ (take (Z.to_nat l) (claim_rows r o pj current principal
    (is_active_status a) (messages db))).*1)) as [Hi|Hi].
  - apply list_elem_of_fmap in Hi as ([k x] & -> & Hk).
    apply (sublist_subseteq _ _ (sublist_take _ _)), claim_rows_spec in Hk as (Hk & Hc & _). simpl. rewrite Hk.
    constructor. apply deliver_retired. by eapply claimable_queued.
  - apply (expire_retires _ _ (lapsed_queued r current _)).
Qed.

Lemma claim_messages_retires r o pj l now pr se clock db :
  retires (messages db) (messages (claim_agent_messages r o pj l now pr se clock db).1).
Proof.
  unfold claim_agent_messages. destruct (_ || _); [reflexivity|]. apply transaction_messages.
  intros db' ms. apply claim_body_retires.
Qed.

(** What a successful queueing inserts, and the tests it passed. *)
Lemma queue_body_ok s r o pj mode body current ttl pr se id db db' x :
  queue_body s r o pj mode body current ttl pr se id db = Ok (db', x) →
  ∃ principal sa ra, agents db !! s = Some sa ∧ agents db !! r = Some ra
    ∧ in_scope principal o pj sa = true ∧ in_scope principal o pj ra = true
    ∧ sender_id x = s ∧ recipient_id x = r ∧ m_owner_id x = o ∧ m_principal_id x = principal ∧ project_scope x = pj
    ∧ queued_ts x = current ∧ _scope_root_id db s = Ok (scope_root_id x) ∧ _scope_root_id db r = Ok (scope_root_id x)
    ∧ (let m := expire_due current (messages db) in
       m !! id = None ∧ db' = with_messages (<[id := x]> m) db
       ∧ count_messages (pending_for r) m < MAX_PENDING_MESSAGES_PER_AGENT
       ∧ count_messages (pending_in principal o pj (scope_root_id x)) m < MAX_PENDING_MESSAGES_PER_SCOPE
       ∧ count_messages (recent_of s (f64_sub current (f64_of_Z MESSAGE_RATE_WINDOW_SECONDS))) m
         < MAX_MESSAGES_PER_RATE_WINDOW).
Proof.
  unfold queue_body. intros (principal & Hp & H)%bind_ok.
  destruct (agents db !! s) as [sa|] eqn:Hs; [|done]. destruct (agents db !! r) as [ra|] eqn:Hr; [|done].
  apply bind_ok in H as (u1 & [Hsa Hra]%require_ok%andb_true_iff & H).
  apply bind_ok in H as (root & Hroot & H). apply bind_ok in H as (root' & Hroot' & H).
  apply bind_ok in H as (u2 & E%require_ok%String.eqb_eq & H). subst root'.
  apply bind_ok in H as (u3 & _ & H).
  apply bind_ok in H as (u4 & C1%require_ok%Z.ltb_lt & H). apply bind_ok in H as (u5 & C2%require_ok%Z.ltb_lt & H).
  apply bind_ok in H as (u6 & C3%require_ok%Z.ltb_lt & H). apply bind_ok in H as (u7 & Hf%require_ok & [= <- <-]).
  exists principal, sa, ra. split_and!; try done. apply eq_None_not_Some. to_prop. done.
Qed.

Lemma queue_message_body s r o pj mode body now ttl pr se clock id db :
  let p := queue_agent_message s r o pj mode body now ttl pr se clock id db in
  p.1 = db ∨ ∃ x ttl', queue_body (strip s) (strip r) (strip o) pj (message_mode mode) (strip body)
                         (default clock now) ttl' pr se id db = Ok (p.1, x).
Proof.
  unfold queue_agent_message. destruct (require _ _ _ ≫= _) as [u|e]; [|by left].
  unfold _write_transaction. destruct (queue_body _ _ _ _ _ _ _ _ _ _ _ db) as [[db' x]|e] eqn:E; [|by left].
  right. by exists x, (Z.max 60 (Z.min ttl (7 * 24 * 60 * 60))).
Qed.

Lemma insert_keeps_mail id x m db :
  m !! id = None → retires (messages db) m → keeps_mail db (with_messages (<[id := x]> m) db).
Proof.
  intros Hid Hr i y Hy. destruct (retires_lookup _ _ _ _ Hr Hy) as (y' & Hy' & R). exists y'. split; [|done].
  simpl. rewrite lookup_insert_ne; [done|]. intros <-. congruence.
Qed.

Lemma perform_keeps_mail db o : keeps_mail db (perform_mail db o).
Proof.
  destruct o; simpl.
  - apply retires_keeps, perform_messages.
  - destruct (queue_message_body sender recipient owner project' mode body now ttl principal secret clock id db)
      as [->|(x & ttl' & H)]; [reflexivity|].
    apply queue_body_ok in H as (pr & sa & ra & H). destruct H as (_&_&_&_&_&_&_&_&_&_&_&_&Hid&->&_).
    apply insert_keeps_mail; [done|]. apply expire_due_retires.
  - apply retires_keeps, claim_messages_retires.
Qed.

Lemma run_keeps_mail ops db : keeps_mail db (run_mail db ops).
Proof.
  unfold run_mail. revert db. induction ops as [|o ops IH]; intros db; simpl; [reflexivity|].
  transitivity (perform_mail db o); [apply perform_keeps_mail|apply IH].
Qed.

(** What one claim returns. *)
Lemma claim_returns r o pj l now pr se clock db db' ms :
  claim_agent_messages r o pj l now pr se clock db = (db', Ok ms) →
  NoDup ms.*1 ∧ ∀ id x', (id, x') ∈ ms →
    ∃ x, messages db !! id = Some x ∧ is_queued x = true ∧ messages db' !! id = Some x' ∧ is_queued x' = false.
Proof.
  intros (principal & a & _ & _ & _ & _ & -> & Hm)%claim_messages_ok%claim_body_ok.
  set (due := take _ _) in *. split.
  - rewrite <- list_fmap_compose. change (fst ∘ _) with (fst (A := string) (B := message)).
    eapply sublist_NoDup; [apply claim_rows_nodup|]. apply fmap_sublist, sublist_take.
  - intros id x' Hin. apply list_elem_of_fmap in Hin as ([k x] & [= -> ->] & Hk).
    exists x. pose proof Hk as Hr. apply (sublist_subseteq _ _ (sublist_take _ _)), claim_rows_spec in Hr as (Hx & Hc & _).
    split_and!; [done|by eapply claimable_queued| |done]. rewrite Hm. unfold mem.
    rewrite bool_decide_eq_true_2 by (apply list_elem_of_fmap; by exists (k, x)). by rewrite Hx.
Qed.

(** C21: Messages are delivered at most once: a claim returns each message once, and what a claim
    has returned no claim ever returns again, whatever runs in between. *)
Theorem delivered_once r o pj l now pr se clock db db1 ms ops r' o' pj' l' now' pr' se' clock' db2 ms' :
  claim_agent_messages r o pj l now pr se clock db = (db1, Ok ms) →
  claim_agent_messages r' o' pj' l' now' pr' se' clock' (run_mail db1 ops) = (db2, Ok ms') →
  NoDup (ms.*1 ++ ms'.*1).
Proof.
  intros [N1 H1]%claim_returns [N2 H2]%claim_returns. apply NoDup_app. split_and!; [done| |done].
  intros id Hin Hin'. apply list_elem_of_fmap in Hin as ([k x1] & -> & Hx1).
  apply list_elem_of_fmap in Hin' as ([k' x2] & E & Hx2). simpl in E. subst k'.
  destruct (H1 _ _ Hx1) as (x & _ & _ & Hl & Hq). destruct (H2 _ _ Hx2) as (y & Hy & Hyq & _).
  destruct (run_keeps_mail ops db1 k x1 Hl) as (y' & Hy' & [Hr _ _ _ _ _ _ _ _]).
  assert (y' = y) as -> by congruence. apply Hr in Hyq. congruence.
Qed.

(** ** Bounds of the mailbox *)

(** The bounds on pending messages: per recipient; per principal, project and tree; and, among
    the messages without a principal, per owner, project and tree. *)
Definition plain_pending (owner project' root : string) (x : message) : bool :=
  String.eqb (m_principal_id x) "" && pending_in "" owner project' root x.

Record bounded (m : gmap string message) : Prop := {
  bd_recipient r : count_messages (pending_for r) m <= MAX_PENDING_MESSAGES_PER_AGENT;
  bd_principal pr pj root : pr ≠ "" →
    count_messages (pending_in pr "" pj root) m <= MAX_PENDING_MESSAGES_PER_SCOPE;
  bd_owner o pj root : count_messages (plain_pending o pj root) m <= MAX_PENDING_MESSAGES_PER_SCOPE
}.

Lemma plain_pending_retired o pj root x x' :
  retired x x' → plain_pending o pj root x' = true → plain_pending o pj root x = true.
Proof.
  intros R. unfold plain_pending. rewrite (ret_principal _ _ R), !andb_true_iff.
  intros [Hp H]. split; [done|]. by eapply pending_in_retired.
Qed.

Lemma bounded_retires m m' : retires m m' → bounded m → bounded m'.
Proof.
  intros Hr [B1 B2 B3]. split.
  - intros r. etransitivity; [|apply B1]. apply count_retires; [apply pending_for_retired|done].
  - intros pr pj root Hp. etransitivity; [|by apply (B2 pr pj root)].
    apply count_retires; [apply pending_in_retired|done].
  - intros o pj root. etransitivity; [|apply (B3 o pj root)]. apply count_retires; [apply plain_pending_retired|done].
Qed.

(** An insertion raises a count only when the new message is counted. *)
Lemma count_insert_le p id x m (bound : Z) :
  m !! id = None → count_messages p m <= bound → (p x = true → count_messages p m < bound) →
  count_messages p (<[id := x]> m) <= bound.
Proof.
  intros Hid Hle Hx. destruct (p x) eqn:E; [pose proof (count_insert p id x m Hid); specialize (Hx eq_refl); lia|].
  etransitivity; [|exact Hle]. apply count_le. intros i y Hy Hp. exists y. split; [|done].
  rewrite lookup_insert_ne in Hy; [done|]. intros <-. rewrite lookup_insert_eq in Hy. congruence.
Qed.

Lemma pending_in_spec pr o pj root x :
  pending_in pr o pj root x = true ↔
  (if String.eqb pr "" then m_owner_id x = o else m_principal_id x = pr)
  ∧ project_scope x = pj ∧ scope_root_id x = root ∧ is_queued x = true.
Proof.
  unfold pending_in, of_scope. rewrite !andb_true_iff, !String.eqb_eq.
  destruct (String.eqb pr ""); rewrite String.eqb_eq; tauto.
Qed.

Lemma queue_bounded s r o pj mode body current ttl pr se id db db' x :
  queue_body s r o pj mode body current ttl pr se id db = Ok (db', x) →
  bounded (messages db) → bounded (messages db').
Proof.
  intros H%queue_body_ok B. destruct H as (principal & sa & ra & _&_&_&_& <- & <- & <- & <- & <- &_&_&_& Hid & -> & C1 & C2 & _).
  pose proof (bounded_retires _ _ (expire_due_retires current (messages db)) B) as [B1 B2 B3].
  set (m := expire_due current (messages db)) in *. cbn [messages with_messages]. split.
  - intros r. apply count_insert_le; [done|done|]. unfold pending_for at 1.
    intros [<-%String.eqb_eq _]%andb_true_iff. exact C1.
  - intros pr' pj root Hpr. apply count_insert_le; [done|by apply B2|]. rewrite pending_in_spec.
    apply String.eqb_neq in Hpr as Hb. rewrite Hb. intros (<- & <- & <- & _). revert C2.
    unfold pending_in, of_scope. by rewrite Hb.
  - intros o pj root. apply count_insert_le; [done|done|]. unfold plain_pending at 1.
    intros [Hp%String.eqb_eq (Ho & Hpj & Hroot & _)%pending_in_spec]%andb_true_iff. simpl in Ho.
    eapply Z.le_lt_trans; [|exact C2]. rewrite Hp, Ho, Hpj, Hroot. apply count_le.
    unfold plain_pending. intros i y Hy [_ ?]%andb_true_iff. by exists y.
Qed.

Lemma empty_bounded : bounded (messages empty_fleet).
Proof. split; intros; vm_compute; discriminate. Qed.

Lemma perform_bounded db o : bounded (messages db) → bounded (messages (perform_mail db o)).
Proof.
  intros B. destruct o; simpl.
  - eapply bounded_retires; [apply perform_messages|done].
  - destruct (queue_message_body sender recipient owner project' mode body now ttl principal secret clock id db)
      as [->|(x & ttl' & H)]; [done|]. by eapply queue_bounded.
  - eapply bounded_retires; [apply claim_messages_retires|done].
Qed.

(** C32: The mailbox stays bounded: in every reachable ledger no recipient has more than 32
    messages pending, and no tree of a project more than 128 from one principal, nor more than
    128 from one owner without a principal. *)
Theorem mailbox_bounded ops : bounded (messages (run_mail empty_fleet ops)).
Proof.
  unfold run_mail. generalize empty_fleet, empty_bounded.
  induction ops as [|o ops IH]; intros db B; simpl; [done|]. apply IH. by apply perform_bounded.
Qed.

(** A sender that has just queued a message has at most ten in the last minute. *)
Lemma queue_rate s r o pj mode body current ttl pr se id db db' x :
  queue_body s r o pj mode body current ttl pr se id db = Ok (db', x) →
  count_messages (recent_of s (f64_sub current (f64_of_Z MESSAGE_RATE_WINDOW_SECONDS))) (messages db')
  <= MAX_MESSAGES_PER_RATE_WINDOW.
Proof.
  intros H%queue_body_ok. destruct H as (principal & sa & ra & _&_&_&_&_&_&_&_&_&_&_&_& Hid & -> & _ & _ & C).
  apply count_insert_le; [done|lia|done].
Qed.

(** ** Messages stay inside one tree *)

Lemma climb_stable fuel (m m' : gmap string agent) current seen root :
  (∀ id a, m !! id = Some a → ∃ a', m' !! id = Some a' ∧ fixed a' = fixed a) →
  climb fuel m current seen = Ok root → climb fuel m' current seen = Ok root.
Proof.
  intros Hm. revert current seen. induction fuel as [|fuel IH]; intros current seen; simpl; [done|].
  intros (u & -> & H)%bind_ok. simpl. destruct (m !! current) as [a|] eqn:Ha; [|done].
  destruct (Hm _ _ Ha) as (a' & -> & ->). destruct (String.eqb _ _); [done|]. by apply IH.
Qed.

(** The two ends of a message are agents of its project and of one tree, both of its principal
    or, without one, both of its owner. *)
Definition well_addressed (db : fleet) (x : message) : Prop :=
  ∃ s r, agents db !! sender_id x = Some s ∧ agents db !! recipient_id x = Some r
    ∧ in_scope (m_principal_id x) (m_owner_id x) (project_scope x) s = true
    ∧ in_scope (m_principal_id x) (m_owner_id x) (project_scope x) r = true
    ∧ _scope_root_id db (sender_id x) = Ok (scope_root_id x)
    ∧ _scope_root_id db (recipient_id x) = Ok (scope_root_id x).

Definition fixed_kept (db db' : fleet) : Prop :=
  ∀ id a, agents db !! id = Some a → ∃ a', agents db' !! id = Some a' ∧ fixed a' = fixed a.

Lemma fixed_kept_same db db' : agents db' = agents db → fixed_kept db db'.
Proof. intros E id a Ha. exists a. by rewrite E. Qed.

Lemma well_addressed_kept db db' x x' :
  fixed_kept db db' → retired x x' → well_addressed db x → well_addressed db' x'.
Proof.
  intros Hf [_ _ Es Er Eo Ep Epj Ert _] (s & r & Hs & Hr & Is & Ir & Rs & Rr).
  destruct (Hf _ _ Hs) as (s' & Hs' & Fs). destruct (Hf _ _ Hr) as (r' & Hr' & Fr).
  exists s', r'. rewrite Es, Er, Eo, Ep, Epj, Ert. unfold in_scope in *. rewrite Fs, Fr.
  do 4 (split; [assumption|]).
  split; (apply (climb_stable 64 (agents db)); [exact Hf|]); [exact Rs|exact Rr].
Qed.

Definition addressed (db : fleet) : Prop := map_Forall (λ _ x, well_addressed db x) (messages db).

Lemma addressed_retires db db' :
  fixed_kept db db' → retires (messages db) (messages db') → addressed db → addressed db'.
Proof.
  intros Hf Hr Ha id x' Hx'. destruct (retires_lookup_r _ _ _ _ Hr Hx') as (x & Hx & R).
  eapply well_addressed_kept; [done|exact R|]. by apply (Ha id).
Qed.

Lemma queue_addressed s r o pj mode body current ttl pr se id db db' x :
  queue_body s r o pj mode body current ttl pr se id db = Ok (db', x) → addressed db → addressed db'.
Proof.
  intros H%queue_body_ok Ha.
  destruct H as (principal & sa & ra & Hs & Hr & Is & Ir & <- & <- & <- & <- & <- & _ & Rs & Rr & Hid & -> & _).
  intros i y. cbn [messages with_messages]. destruct (decide (i = id)) as [->|Hi].
  - rewrite lookup_insert_eq. intros [= <-]. exists sa, ra. do 4 (split; [assumption|]). split; [exact Rs|exact Rr].
  - rewrite lookup_insert_ne by done. intros Hy.
    destruct (retires_lookup_r _ _ _ _ (expire_due_retires current (messages db)) Hy) as (y0 & Hy0 & R).
    eapply well_addressed_kept; [by apply fixed_kept_same|exact R|]. by apply (Ha i).
Qed.

Lemma perform_addressed db o : addressed db → addressed (perform_mail db o).
Proof.
  intros Ha. destruct o; simpl.
  - eapply addressed_retires; [|apply perform_messages|done].
    intros id a E. destruct (perform_grows db o id a E) as (a' & Ha' & R & _). exists a'. by split; [|apply R].
  - destruct (queue_message_body sender recipient owner project' mode body now ttl principal secret clock id db)
      as [->|(x & ttl' & H)]; [done|]. by eapply queue_addressed.
  - eapply addressed_retires; [|apply claim_messages_retires|done]. apply fixed_kept_same.
    unfold claim_agent_messages. destruct (_ || _); [done|].
    apply (transaction_elim (λ d, agents d = agents db)); [done|].
    intros db' ms (pr & a & _ & _ & _ & E & _)%claim_body_ok. exact E.
Qed.

(** A message never leaves its tree: in every reachable ledger the sender and the recipient
    of each message exist, belong to the message's project and to its principal (or, without
    one, its owner), and their parent chains end in the same root. *)
Theorem mail_stays_in_tree ops : addressed (run_mail empty_fleet ops).
Proof.
  unfold run_mail. assert (addressed empty_fleet) as H by (intros id x Hx; done). revert H.
  generalize empty_fleet. induction ops as [|o ops IH]; intros db Ha; simpl; [done|].
  apply IH. by apply perform_addressed.
Qed.

(** ** The order of delivery *)

Definition timed (p : string * message) : Prop := queued_ts p.2 ≠ S754_nan.

Lemma message_le_key p q : timed p → timed q →
  message_le p q = true ↔
  ¬ key_le (f64_key (queued_ts q.2)) (f64_key (queued_ts p.2))
  ∨ key_le (f64_key (queued_ts p.2)) (f64_key (queued_ts q.2))
    ∧ key_le (f64_key (queued_ts q.2)) (f64_key (queued_ts p.2)) ∧ String.leb p.1 q.1 = true.
Proof.
  intros Hp Hq. unfold message_le. rewrite orb_true_iff, !andb_true_iff, f64_ltb_key, !f64_leb_key by done. tauto.
Qed.

Lemma key_le_cases a b : ¬ key_le a b ∨ ¬ key_le b a ∨ key_le a b ∧ key_le b a.
Proof. unfold key_le. lia. Qed.

Lemma message_le_total p q : timed p → timed q → message_le p q = true ∨ message_le q p = true.
Proof.
  intros Hp Hq. rewrite !message_le_key by done.
  destruct (key_le_cases (f64_key (queued_ts p.2)) (f64_key (queued_ts q.2))) as [?|[?|[??]]]; [tauto..|].
  destruct (String.leb_total p.1 q.1); tauto.
Qed.

Lemma message_le_trans p q r :
  timed p → timed q → timed r → message_le p q = true → message_le q r = true → message_le p r = true.
Proof.
  intros Hp Hq Hr. rewrite !message_le_key by done.
  intros [H1|(H1 & H1' & L1)] [H2|(H2 & H2' & L2)]; [left; unfold key_le in *; lia..|].
  right. split_and!; [unfold key_le in *; lia..|]. by apply (sort_trans _ q.1).
Qed.

(** Sorting sorts where the order is total and transitive. *)
Lemma insert_by_sorted_on {A} (P : A → Prop) le x l :
  (∀ a b, P a → P b → le a b = true ∨ le b a = true) →
  (∀ a b c, P a → P b → P c → le a b = true → le b c = true → le a c = true) →
  P x → Forall P l → StronglySorted (λ a b, le a b = true) l → StronglySorted (λ a b, le a b = true) (insert_by le x l).
Proof.
  intros Ht Htr Hx HP. induction 1 as [|y l Hl IH Hy]; simpl; [by repeat constructor|].
  apply Forall_cons in HP as [Py HP]. destruct (le x y) eqn:E.
  - constructor; [by constructor|]. constructor; [done|]. apply Forall_forall. intros z Hz.
    rewrite Forall_forall in HP, Hy. eapply (Htr x y z); auto.
  - constructor; [by apply IH|]. rewrite insert_by_Permutation. constructor; [|done].
    destruct (Ht x y); [done..|congruence|done].
Qed.

Lemma sort_by_sorted_on {A} (P : A → Prop) le l :
  (∀ a b, P a → P b → le a b = true ∨ le b a = true) →
  (∀ a b c, P a → P b → P c → le a b = true → le b c = true → le a c = true) →
  Forall P l → StronglySorted (λ a b, le a b = true) (sort_by le l).
Proof.
  intros Ht Htr. induction 1 as [|x l Hx HP IH]; simpl; [constructor|].
  apply (insert_by_sorted_on P); auto. by rewrite sort_by_Permutation.
Qed.

Lemma sorted_take_drop {A} (R : A → A → Prop) n l x y :
  StronglySorted R l → x ∈ take n l → y ∈ drop n l → R x y.
Proof.
  intros Hs. revert n. induction Hs as [|a l Hl IH Ha]; intros n; [by rewrite take_nil; intros ?%elem_of_nil|].
  destruct n as [|n]; simpl; [by intros ?%elem_of_nil|]. rewrite elem_of_cons. intros [->|Hx] Hy; [|by eapply IH].
  rewrite Forall_forall in Ha. apply Ha. by eapply (sublist_subseteq _ _ (sublist_drop _ _)).
Qed.

(** A claim delivers in order: it returns, as delivered now, the oldest messages that wait in
    the queue for the recipient in its scope, have not expired and, when they steer, find it
    active; as many as the limit allows, and no message left waiting is before a delivered one. *)
Theorem claim_delivers r o pj l now pr se clock db db' ms :
  claim_agent_messages r o pj l now pr se clock db = (db', Ok ms) →
  map_Forall (λ id x, timed (id, x)) (messages db) →
  let current := default clock now in
  let capped := Z.to_nat (Z.max 1 (Z.min (if l =? 0 then 8 else l) 32)) in
  ∃ principal a waiting,
    authenticated db pr se = Ok principal ∧ agents db !! strip r = Some a
    ∧ (∀ id x, (id, x) ∈ waiting ↔
         messages db !! id = Some x ∧ claimable (strip r) principal (strip o) pj x = true
         ∧ lapsed (strip r) (is_active_status a) current x = false)
    ∧ ms = prod_map id (deliver current) <$> take capped waiting
    ∧ StronglySorted (λ p q, message_le p q = true) waiting
    ∧ ∀ p q, p ∈ take capped waiting → q ∈ drop capped waiting → message_le p q = true.
Proof.
  intros H%claim_messages_ok%claim_body_ok Ht current capped.
  destruct H as (principal & a & Hp & Ha & _ & _ & Hms & _).
  set (waiting := claim_rows (strip r) (strip o) pj current principal (is_active_status a) (messages db)).
  assert (StronglySorted (λ p q, message_le p q = true) waiting) as Hs.
  { apply (sort_by_sorted_on timed); [apply message_le_total|apply message_le_trans|].
    apply Forall_forall. intros [k x] Hk.
    assert ((k, x) ∈ waiting) as Hw by (unfold waiting, claim_rows; by rewrite sort_by_Permutation).
    apply claim_rows_spec in Hw as (Hw & _). by apply (Ht k). }
  exists principal, a, waiting. do 2 (split; [done|]). split; [intros id x; apply claim_rows_spec|].
  split; [exact Hms|]. split; [exact Hs|]. intros p q. by apply (sorted_take_drop (λ p q, message_le p q = true)).
Qed.

(** ** Listings *)

Section subtree.
Context (scope : agent → bool) (m : gmap string agent).

(** [c] is a row of the scope whose parent is [p]. *)
Definition child_in (p c : string) : Prop :=
  ∃ a, m !! c = Some a ∧ parent_id (fixed a) = p ∧ scope a = true.

Definition next_level (level : list string) : list string :=
  flat_map (λ id, (map_to_list (filter (λ kv : string * agent,
    String.eqb (parent_id (fixed kv.2)) id && scope kv.2 = true) m)).*1) level.

Lemma next_level_spec level c : c ∈ next_level level ↔ ∃ p, p ∈ level ∧ child_in p c.
Proof.
  unfold next_level. rewrite list_elem_of_In, in_flat_map.
  split; intros (p & Hp & Hc); exists p; rewrite ?list_elem_of_In in *; (split; [done|]).
  - apply list_elem_of_In, list_elem_of_fmap in Hc as ([k a] & -> & Hk).
    apply elem_of_map_to_list, map_lookup_filter_Some in Hk as [Hk [He%String.eqb_eq Hs]%andb_true_iff]. by exists a.
  - destruct Hc as (a & Ha & He & Hs). apply list_elem_of_In, list_elem_of_fmap. exists (c, a). split; [done|].
    apply elem_of_map_to_list, map_lookup_filter_Some. split; [done|]. simpl. by rewrite He, String.eqb_refl, Hs.
Qed.

Lemma subtree_rows_step fuel level :
  subtree_rows (S fuel) scope m level
  = match level with [] => Some [] | _ => below ← subtree_rows fuel scope m (next_level level); Some (level ++ below) end.
Proof. done. Qed.

(** The rows found are those below the level. *)
Lemma subtree_rows_spec fuel level rows c :
  subtree_rows fuel scope m level = Some rows → c ∈ rows ↔ ∃ p, p ∈ level ∧ rtc child_in p c.
Proof.
  revert level rows. induction fuel as [|fuel IH]; intros level rows; [done|]. rewrite subtree_rows_step.
  destruct level as [|x level]; [intros [= <-]; split; [by intros ?%elem_of_nil|by intros (p & ?%elem_of_nil & _)]|].
  set (lv := x :: level). destruct (subtree_rows fuel scope m (next_level lv)) as [below|] eqn:E; [|done].
  intros [= <-]. transitivity (c ∈ lv ∨ c ∈ below); [apply (elem_of_app lv below c)|]. rewrite (IH _ _ E). split.
  - intros [Hc|(p & (q & Hq & Hqp)%next_level_spec & Hpc)]; [exists c; by split|].
    exists q. split; [done|]. by eapply rtc_l.
  - intros (p & Hp & Hpc). apply rtc_inv in Hpc as [<-|(q & Hpq & Hqc)]; [by left|]. right.
    exists q. split; [|done]. apply next_level_spec. by exists p.
Qed.

Fixpoint chain (x : string) (l : list string) : Prop :=
  match l with [] => True | y :: l' => child_in x y ∧ chain y l' end.

Lemma chain_below x l y : chain x l → y ∈ l → tc child_in x y.
Proof.
  revert x. induction l as [|z l IH]; intros x; [by intros _ ?%elem_of_nil|].
  intros [Hz Hl] [->|Hy]%elem_of_cons; [by apply tc_once|]. eapply tc_l; [exact Hz|by apply IH].
Qed.

Lemma chain_nodup x l :
  chain x l → (∀ id, tc child_in x id → ¬ tc child_in id id) → NoDup l.
Proof.
  revert x. induction l as [|y l IH]; intros x; [constructor|]. intros [Hy Hl] Ha. apply NoDup_cons. split.
  - intros Hin. apply (Ha y); [by apply tc_once|by apply (chain_below y l)].
  - apply (IH y); [done|]. intros id Hid. apply Ha. by eapply tc_l.
Qed.

Lemma chain_rows x l : chain x l → list_to_set l ⊆ dom m.
Proof.
  revert x. induction l as [|y l IH]; intros x; simpl; [set_solver|]. intros [(a & Ha & _) Hl].
  apply union_subseteq. split; [|by apply (IH y)]. apply singleton_subseteq_l, elem_of_dom. by exists a.
Qed.

(** Levels that do not end within the fuel leave a path as long as it. *)
Lemma subtree_rows_chain fuel level :
  subtree_rows (S fuel) scope m level = None → ∃ x l, x ∈ level ∧ chain x l ∧ length l = fuel.
Proof.
  revert level. induction fuel as [|fuel IH]; intros level; rewrite subtree_rows_step; (destruct level as [|x level]; [done|]).
  - intros _. exists x, []. split_and!; [by left|done|done].
  - set (lv := x :: level). destruct (subtree_rows (S fuel) scope m (next_level lv)) as [rows|] eqn:E; [done|].
    intros _. destruct (IH _ E) as (y & l & (z & Hz & Hzy)%next_level_spec & Hl & Hlen).
    exists z, (y :: l). split_and!; [done|done|simpl; congruence].
Qed.

Lemma subtree_rows_cycle fuel level x :
  x ∈ level → tc child_in x x → subtree_rows fuel scope m level = None.
Proof.
  revert level x. induction fuel as [|fuel IH]; intros level x Hx Hc; [done|]. rewrite subtree_rows_step.
  destruct level as [|z level]; [by apply elem_of_nil in Hx|]. set (lv := z :: level) in *.
  assert (∃ y, child_in x y ∧ tc child_in y y) as (y & Hxy & Hy).
  { inversion Hc as [? ? H|? y ? H1 H2]; subst; [by exists x|]. exists y. split; [done|]. by eapply tc_r. }
  rewrite (IH (next_level lv) y); [done| |done]. apply next_level_spec. by exists x.
Qed.

Lemma subtree_rows_none fuel level x :
  x ∈ level → (∃ id, rtc child_in x id ∧ tc child_in id id) → subtree_rows fuel scope m level = None.
Proof.
  intros Hx (id & Hid & Hc). revert level fuel Hx. induction Hid as [x|x y z Hxy _ IH]; intros level fuel Hx.
  { by eapply subtree_rows_cycle. }
  destruct fuel as [|fuel]; [done|]. rewrite subtree_rows_step.
  destruct level as [|w level]; [by apply elem_of_nil in Hx|]. set (lv := w :: level) in *.
  rewrite (IH Hc (next_level lv)); [done|]. apply next_level_spec. by exists x.
Qed.

End subtree.

(** C33: The recursive query of a scoped listing ends exactly when no agent of the scope below the
    parent is its own ancestor; then one level more than there are agents is enough, and it
    visits exactly the rows of the scope below the parent, with the parent. *)
Theorem subtree_listing_ends_iff scope m root :
  ((∃ fuel rows, subtree_rows fuel scope m [root] = Some rows)
   ↔ ∀ id, rtc (child_in scope m) root id → ¬ tc (child_in scope m) id id)
  ∧ ((∃ fuel rows, subtree_rows fuel scope m [root] = Some rows) →
     ∃ rows, subtree_rows (S (S (size m))) scope m [root] = Some rows
             ∧ ∀ id, id ∈ rows ↔ rtc (child_in scope m) root id).
Proof.
  assert (∀ fuel rows id, subtree_rows fuel scope m [root] = Some rows →
            rtc (child_in scope m) root id → ¬ tc (child_in scope m) id id) as H1.
  { intros fuel rows id Hs Hid Hc.
    rewrite (subtree_rows_none scope m fuel [root] root) in Hs; [done|by left|by exists id]. }
  assert ((∀ id, rtc (child_in scope m) root id → ¬ tc (child_in scope m) id id) →
            ∃ rows, subtree_rows (S (S (size m))) scope m [root] = Some rows) as H2.
  { intros Ha. destruct (subtree_rows (S (S (size m))) scope m [root]) as [rows|] eqn:E; [by exists rows|].
    apply subtree_rows_chain in E as (x & l & ->%list_elem_of_singleton & Hl & Hlen).
    assert (NoDup l) as Hn by (apply (chain_nodup scope m root); [done|]; intros id Hid; apply Ha; by apply tc_rtc).
    pose proof (subseteq_size _ _ (chain_rows scope m root l Hl)) as Hsz.
    rewrite size_list_to_set, size_dom in Hsz by done. lia. }
  split; [split; [intros (fuel & rows & Hs) id; by apply (H1 fuel rows)|]|].
  - intros Ha. destruct (H2 Ha) as [rows Hr]. eauto.
  - intros (fuel & rows & Hs). destruct H2 as [rows' Hr]; [intros id; by apply (H1 fuel rows)|].
    exists rows'. split; [done|]. intros id. rewrite (subtree_rows_spec _ _ _ _ _ _ Hr). split.
    + by intros (p & ->%list_elem_of_singleton & Hp).
    + intros Hp. exists root. split; [by left|done].
Qed.

(** Whatever a listing returns is stored, in the scope asked for, and active when only those
    were asked for. *)
Lemma listing_in_scope fuel owner pj parent fin limit pr se db rows :
  list_agents_scoped fuel owner pj parent fin limit pr se db = Some (Ok rows) →
  ∃ principal, authenticated db pr se = Ok principal
    ∧ ∀ id a, (id, a) ∈ rows → agents db !! id = Some a ∧ in_scope principal (strip owner) pj a = true
                                ∧ (fin = false → is_active_status a = true).
Proof.
  unfold list_agents_scoped.
  destruct (require _ _ _ ≫= _) as [principal|e] eqn:E; [|done]. apply bind_ok in E as (u & _ & E).
  apply bind_ok in E as (pr' & Hp & E). apply bind_ok in E as (u' & _ & [= ->]). intros H.
  exists principal. split; [done|]. intros id a Hin.
  assert (∃ ids : list string, (id, a) ∈ List.filter (λ kv : string * agent, in_scope principal (strip owner) pj kv.2
            && (fin || is_active_status kv.2)) (omap (λ i, pair i <$> agents db !! i) ids)) as (ids & Hids).
  { destruct (String.eqb parent ""); [|destruct (subtree_rows _ _ _ _) as [ids|]; [|done]]; simpl in H;
      injection H as <-; apply (sublist_subseteq _ _ (sublist_take _ _)) in Hin; rewrite sort_by_Permutation in Hin;
      by eexists. }
  apply list_elem_of_In, filter_In in Hids as [Hids [Hs Hf]%andb_true_iff].
  apply list_elem_of_In, list_elem_of_omap in Hids as (i & _ & Hi). apply fmap_Some in Hi as (b & Hb & [= -> ->]).
  split_and!; [done|done|]. intros ->. exact Hf.
Qed.

(** ** A concrete mailbox *)

Definition mail_demo : fleet := run_mail demo
  [QueueMessage "m1" "w1" "o1" "" "Follow-Up" " check the logs " (Some (at_ 110)) 3600 "" "" (at_ 110) "msg-1";
   QueueMessage "m1" "w1" "o1" "" "steer" "hurry" (Some (at_ 109)) 3600 "" "" (at_ 109) "msg-2"].

Definition demo_claimed (limit : Z) (db : fleet) : res (list (string * string)) :=
  match (claim_agent_messages "w1" "o1" "" limit (Some (at_ 120)) "" "" (at_ 120) db).2 with
  | Ok ms => Ok ((λ kv : string * message, (kv.1, m_body kv.2)) <$> ms)
  | Err e => Err e
  end.

Example mail_in_order :
  demo_claimed 8 mail_demo = Ok [("msg-2", "hurry"); ("msg-1", "check the logs")]
  ∧ demo_claimed 1 mail_demo = Ok [("msg-2", "hurry")].
Proof. vm_compute. auto. Qed.

(** Steering lapses when its recipient has stopped; another tree cannot write. *)
Example steer_lapses :
  demo_claimed 8 (run_mail mail_demo [Fleet (CancelAgents "m1" (at_ 111))]) = Ok [("msg-1", "check the logs")]
  ∧ (queue_agent_message "m2" "w1" "o1" "" "steer" "x" (Some (at_ 111)) 60 "" "" (at_ 111) "msg-3" mail_demo).2
    = throw PermissionError "agents do not belong to the same parent scope".
Proof. vm_compute. auto. Qed.

(** An agent may be created as its own parent; listing it never ends. *)
Definition self_parent : fleet :=
  run_mail demo [Fleet (CreateAgent (demo_row "x" "agent" "x" "") "o1" 7 "" "" (at_ 110))].

Example self_parent_listing fuel : list_agents_scoped fuel "o1" "" "x" true 50 "" "" self_parent = None.
Proof.
  assert (subtree_rows fuel (in_scope "" "o1" "") (agents self_parent) ["x"] = None) as H.
  { apply (subtree_rows_cycle _ _ fuel _ "x"); [by left|]. apply tc_once.
    destruct (agents self_parent !! "x") as [a|] eqn:Ha; [|by vm_compute in Ha].
    exists a. split; [exact Ha|]. vm_compute in Ha. by injection Ha as <-. }
  unfold list_agents_scoped. replace (strip "o1") with "o1" by reflexivity.
  cbn -[subtree_rows self_parent in_scope lookup].
  destruct (agents self_parent !! "x") as [a|] eqn:Ha; [|by vm_compute in Ha].
  assert (in_scope "" "o1" "" a = true) as -> by (vm_compute in Ha; by injection Ha as <-).
  cbn -[subtree_rows self_parent in_scope]. by rewrite H.
Qed.

Definition mail_claim (db : fleet) : fleet * res (list (string * message)) :=
  claim_agent_messages "w1" "o1" "" 1 (Some (at_ 120)) "" "" (at_ 120) db.

Lemma delivered_once_witness :
  match (mail_claim mail_demo).2, (mail_claim (run_mail (mail_claim mail_demo).1 [Fleet (Heartbeat "o1" (at_ 121))])).2 with
  | Ok ms, Ok ms' => ms.*1 = ["msg-2"] ∧ ms'.*1 = ["msg-1"] ∧ NoDup (ms.*1 ++ ms'.*1)
  | _, _ => False
  end.
Proof.
  destruct (mail_claim mail_demo) as [db1 [ms|e]] eqn:E1; [|by vm_compute in E1]. cbn [fst snd].
  destruct (mail_claim (run_mail db1 [Fleet (Heartbeat "o1" (at_ 121))])) as [db2 r] eqn:E2.
  assert (∃ ms', r = Ok ms' ∧ ms'.*1 = ["msg-1"] ∧ ms.*1 = ["msg-2"]) as (ms' & -> & H1 & H2).
  { vm_compute in E1. injection E1 as <- <-. vm_compute in E2. injection E2 as _ <-. eexists. split; [reflexivity|].
    split; reflexivity. }
  cbn [fst snd]. split_and!; [exact H2|exact H1|].
  exact (delivered_once "w1" "o1" "" 1 (Some (at_ 120)) "" "" (at_ 120) mail_demo db1 ms
           [Fleet (Heartbeat "o1" (at_ 121))] "w1" "o1" "" 1 (Some (at_ 120)) "" "" (at_ 120) db2 ms' E1 E2).
Defined.

Lemma claim_delivers_witness :
  match mail_claim mail_demo with
  | (_, Ok ms) => ∃ waiting, ms = prod_map id (deliver (at_ 120)) <$> take 1 waiting
                           ∧ StronglySorted (λ p q, message_le p q = true) waiting
  | _ => False
  end.
Proof.
  destruct (mail_claim mail_demo) as [db1 [ms|e]] eqn:E1; [|by vm_compute in E1].
  assert (map_Forall (λ id x, timed (id, x)) (messages mail_demo)) as Ht.
  { apply map_Forall_to_list. vm_compute (map_to_list _). repeat constructor; discriminate. }
  destruct (claim_delivers "w1" "o1" "" 1 (Some (at_ 120)) "" "" (at_ 120) mail_demo db1 ms E1 Ht)
    as (principal & a & waiting & _ & _ & _ & Hms & Hs & _).
  exists waiting. split; [exact Hms|exact Hs].
Defined.
