(* ===== verification/MemoryReplication.v ===== *)
(** The records of authoritative memory replication: [domain/memory/replication.py].

    A constructor takes JSON values, as the wire readers hand them over; a payload holds texts,
    integers, booleans, nulls, lists and objects with text keys (floats are left out).  Reading
    an ISO date is a parameter: [iso] returns nothing if the text is not a timestamp, else
    whether it has an offset, and its [isoformat()]. *)
From S2P Require Import Prelude PyText CanonicalJson Sha256.
From Stdlib Require Import Ascii.

Local Open Scope Z_scope.

(** ** Validators *)

Definition js_str (v : json) : option string := match v with JStr s => Some s | _ => None end.
Definition js_int (v : json) : option Z := match v with JInt z => Some z | _ => None end.

Definition _KINDS := ["fact"; "interaction"; "outcome"; "preference"; "lesson_decision"].
Definition _OPERATIONS := ["upsert"; "delete"].
Definition _MAX_PAYLOAD_BYTES : Z := 64 * 1024.
Definition _MAX_RECORDS : Z := 1024.

Definition text_matching (p : string → bool) (msg : string) (v : json) : res string :=
  match js_str v with
  | Some s => _ ← require (p s) MemoryReplicationError msg; Ok s
  | None => throw MemoryReplicationError msg
  end.

Definition _identity (v : json) (field : string) : res string :=
  text_matching is_identity (field +:+ " must be a bounded stable identity") v.

(** [r"(?:[A-Za-z0-9]|/|\\\\)[A-Za-z0-9._:\\/\\-]{0,255}\Z"] *)
Definition is_project_char (c : ascii) : bool :=
  is_identity_char c || bool_decide (c = "\"%char) || bool_decide (c = "/"%char).

Definition project_tail (s : string) : bool :=
  str_forallb is_project_char s && (String.length s <=? 255)%nat.

Definition is_project (s : string) : bool :=
  match s with
  | String "\"%char (String "\"%char s') => project_tail s'
  | String c s' => (is_alnum c || bool_decide (c = "/"%char)) && project_tail s'
  | EmptyString => false
  end.

Definition _project (v : json) : res string :=
  text_matching is_project "project must be a bounded stable scope" v.

Definition int_within (lo hi : Z) (field : string) (v : json) : res Z :=
  match js_int v with
  | Some z => _ ← require ((lo <=? z) && (z <=? hi)) MemoryReplicationError (field +:+ " is out of bounds"); Ok z
  | None => throw MemoryReplicationError (field +:+ " is out of bounds")
  end.

Definition _positive (v : json) (field : string) : res Z := int_within 1 max_i64 field v.
Definition _non_negative (v : json) (field : string) (maximum : Z) : res Z := int_within 0 maximum field v.

Definition iso_reader : Type := string → option (bool * string).

Definition _timestamp (iso : iso_reader) (v : json) : res string :=
  match js_str v with
  | None => throw MemoryReplicationError "recorded_at must be a timezone-aware timestamp"
  | Some s =>
      match iso s with
      | Some (true, text) => Ok text
      | _ => throw MemoryReplicationError "recorded_at must be a timezone-aware timestamp"
      end
  end.

Definition _payload (v : json) (operation : string) : res (list (string * json)) :=
  match v with
  | JObj d =>
      _ ← require (negb (String.eqb operation "delete" && negb (zlen d =? 0))) MemoryReplicationError
            "tombstone payload must be empty";
      _ ← require (zlen d <=? 64) MemoryReplicationError "payload has too many fields";
      _ ← require (Z.of_nat (String.length (json_dumps v)) <=? _MAX_PAYLOAD_BYTES) MemoryReplicationError
            "payload exceeds the replication bound";
      Ok d
  | _ => throw MemoryReplicationError "payload must be a JSON object"
  end.

Definition one_of (l : list string) (msg : string) (v : json) : res string :=
  text_matching (λ s, mem s l) msg v.

Definition _digest (v : json) (msg : string) : res string := text_matching is_digest msg v.

Definition _bool (v : json) (msg : string) : res bool :=
  match v with JBool b => Ok b | _ => throw MemoryReplicationError msg end.

Definition _canonical_json (d : list (string * json)) : string := json_dumps (JObj d).

(** [isinstance(value, dict) and frozenset(value) == expected] *)
Definition _require_wire_keys (v : json) (expected : list string) (label : string) : res (list (string * json)) :=
  match v with
  | JObj d =>
      _ ← require (subset d.*1 expected && subset expected d.*1) MemoryReplicationError
            (label +:+ " has an invalid wire shape");
      Ok d
  | _ => throw MemoryReplicationError (label +:+ " has an invalid wire shape")
  end.

(** [wire[name]] *)
Fixpoint wire_get (name : string) (d : list (string * json)) : json :=
  match d with
  | [] => JNull
  | (k, v) :: d' => if String.eqb k name then v else wire_get name d'
  end.

(** ** Mutations *)

Record MemoryMutation := MkMutation {
  source_id : string;
  source_epoch : Z;
  sequence : Z;
  entity_kind : string;
  entity_id : string;
  version : Z;
  operation : string;
  project : string;
  payload : list (string * json);
  recorded_at : string
}.

Section iso.
Context (iso : iso_reader).

Definition Mutation_init (source epoch seq kind entity ver op proj pay recorded : json) : res MemoryMutation :=
  source' ← _identity source "source_id";
  epoch' ← _positive epoch "source_epoch";
  seq' ← _positive seq "sequence";
  kind' ← one_of _KINDS "entity_kind is not supported" kind;
  entity' ← _identity entity "entity_id";
  ver' ← _positive ver "version";
  op' ← one_of _OPERATIONS "operation must be upsert or delete" op;
  proj' ← _project proj;
  pay' ← _payload pay op';
  recorded' ← _timestamp iso recorded;
  Ok (MkMutation source' epoch' seq' kind' entity' ver' op' proj' pay' recorded').

Definition is_tombstone (m : MemoryMutation) : bool := String.eqb (operation m) "delete".

Definition entity_key (m : MemoryMutation) : string * string * string := (project m, entity_kind m, entity_id m).

Definition _wire_fields (m : MemoryMutation) : list (string * json) :=
  [("schema", JStr "sonder.memory-mutation.v1"); ("source_id", JStr (source_id m));
   ("source_epoch", JInt (source_epoch m)); ("sequence", JInt (sequence m));
   ("entity_kind", JStr (entity_kind m)); ("entity_id", JStr (entity_id m)); ("version", JInt (version m));
   ("operation", JStr (operation m)); ("project", JStr (project m)); ("payload", JObj (payload m));
   ("recorded_at", JStr (recorded_at m))].

Definition digest (m : MemoryMutation) : string := sha256_hex (_canonical_json (_wire_fields m)).

Definition as_dict (m : MemoryMutation) : json := JObj (_wire_fields m ++ [("digest", JStr (digest m))]).

Definition mutation_keys : list string :=
  ["schema"; "source_id"; "source_epoch"; "sequence"; "entity_kind"; "entity_id"; "version"; "operation";
   "project"; "payload"; "recorded_at"; "digest"].

Definition from_dict (v : json) : res MemoryMutation :=
  wire ← _require_wire_keys v mutation_keys "memory mutation";
  _ ← require (bool_decide (js_str (wire_get "schema" wire) = Some "sonder.memory-mutation.v1"))
        MemoryReplicationError "memory mutation schema is unsupported";
  supplied ← _digest (wire_get "digest" wire) "memory mutation digest is invalid";
  mutation ← Mutation_init (wire_get "source_id" wire) (wire_get "source_epoch" wire) (wire_get "sequence" wire)
               (wire_get "entity_kind" wire) (wire_get "entity_id" wire) (wire_get "version" wire)
               (wire_get "operation" wire) (wire_get "project" wire) (wire_get "payload" wire)
               (wire_get "recorded_at" wire);
  _ ← require (String.eqb (digest mutation) supplied) MemoryReplicationError
        "memory mutation digest does not match fields";
  Ok mutation.

(** ** Batches *)

Record MemoryReplicationBatch := MkBatch {
  b_source_id : string;
  b_source_epoch : Z;
  after_sequence : Z;
  records : list MemoryMutation;
  next_sequence : Z;
  has_more : bool
}.

(** The loop over the records: the sequence of the last one. *)
Fixpoint check_records (source : string) (epoch previous : Z) (l : list MemoryMutation) : res Z :=
  match l with
  | [] => Ok previous
  | r :: rest =>
      _ ← require (String.eqb (source_id r) source) MemoryReplicationError "batch records must belong to the source";
      _ ← require (source_epoch r =? epoch) MemoryReplicationError "batch records must share the source epoch";
      _ ← require (previous <? sequence r) MemoryReplicationError "batch sequences must increase";
      check_records source epoch (sequence r) rest
  end.

Definition Batch_init (source epoch after : json) (l : list MemoryMutation) (next more : json)
  : res MemoryReplicationBatch :=
  source' ← _identity source "source_id";
  epoch' ← _positive epoch "source_epoch";
  after' ← _non_negative after "after_sequence" max_i64;
  _ ← require (zlen l <=? _MAX_RECORDS) MemoryReplicationError "records must be a bounded tuple";
  previous ← check_records source' epoch' after' l;
  next' ← _non_negative next "next_sequence" max_i64;
  _ ← require (next' =? previous) MemoryReplicationError "next_sequence must identify the last record";
  more' ← _bool more "has_more must be boolean";
  Ok (MkBatch source' epoch' after' l next' more').

Definition batch_wire_fields (b : MemoryReplicationBatch) : list (string * json) :=
  [("schema", JStr "sonder.memory-replication-batch.v1"); ("source_id", JStr (b_source_id b));
   ("source_epoch", JInt (b_source_epoch b)); ("after_sequence", JInt (after_sequence b));
   ("records", JArr (List.map as_dict (records b))); ("next_sequence", JInt (next_sequence b));
   ("has_more", JBool (has_more b))].

Definition batch_digest_of (b : MemoryReplicationBatch) : string := sha256_hex (_canonical_json (batch_wire_fields b)).

Definition batch_as_dict (b : MemoryReplicationBatch) : json :=
  JObj (batch_wire_fields b ++ [("digest", JStr (batch_digest_of b))]).

Definition batch_keys : list string :=
  ["schema"; "source_id"; "source_epoch"; "after_sequence"; "records"; "next_sequence"; "has_more"; "digest"].

Definition batch_from_dict (v : json) : res MemoryReplicationBatch :=
  wire ← _require_wire_keys v batch_keys "memory replication batch";
  _ ← require (bool_decide (js_str (wire_get "schema" wire) = Some "sonder.memory-replication-batch.v1"))
        MemoryReplicationError "memory replication batch schema is unsupported";
  supplied ← _digest (wire_get "digest" wire) "memory replication batch digest is invalid";
  items ← match wire_get "records" wire with
          | JArr l => Ok l
          | _ => throw MemoryReplicationError "memory replication batch records must be a list"
          end;
  l ← mapM_res from_dict items;
  batch ← Batch_init (wire_get "source_id" wire) (wire_get "source_epoch" wire) (wire_get "after_sequence" wire) l
            (wire_get "next_sequence" wire) (wire_get "has_more" wire);
  _ ← require (String.eqb (batch_digest_of batch) supplied) MemoryReplicationError
        "memory replication batch digest does not match fields";
  Ok batch.

(** ** Receipts *)

Record MemoryReplicaReceipt := MkReceipt {
  replica_id : string;
  r_source_id : string;
  r_source_epoch : Z;
  r_next_sequence : Z;
  batch_digest : string;
  durable : bool;
  inserted_records : Z
}.

Definition Receipt_init (replica source epoch next bd dur inserted : json) : res MemoryReplicaReceipt :=
  replica' ← _identity replica "replica_id";
  source' ← _identity source "source_id";
  epoch' ← _positive epoch "source_epoch";
  next' ← _non_negative next "next_sequence" max_i64;
  bd' ← _digest bd "batch_digest must be a SHA-256 digest";
  dur' ← _bool dur "durable must be boolean";
  inserted' ← _non_negative inserted "inserted_records" _MAX_RECORDS;
  Ok (MkReceipt replica' source' epoch' next' bd' dur' inserted').

Definition receipt_wire_fields (r : MemoryReplicaReceipt) : list (string * json) :=
  [("schema", JStr "sonder.memory-replica-receipt.v1"); ("replica_id", JStr (replica_id r));
   ("source_id", JStr (r_source_id r)); ("source_epoch", JInt (r_source_epoch r));
   ("next_sequence", JInt (r_next_sequence r)); ("batch_digest", JStr (batch_digest r));
   ("durable", JBool (durable r)); ("inserted_records", JInt (inserted_records r))].

Definition receipt_digest (r : MemoryReplicaReceipt) : string := sha256_hex (_canonical_json (receipt_wire_fields r)).

Definition receipt_as_dict (r : MemoryReplicaReceipt) : json :=
  JObj (receipt_wire_fields r ++ [("digest", JStr (receipt_digest r))]).

Definition receipt_keys : list string :=
  ["schema"; "replica_id"; "source_id"; "source_epoch"; "next_sequence"; "batch_digest"; "durable";
   "inserted_records"; "digest"].

Definition receipt_from_dict (v : json) : res MemoryReplicaReceipt :=
  wire ← _require_wire_keys v receipt_keys "memory replica receipt";
  _ ← require (bool_decide (js_str (wire_get "schema" wire) = Some "sonder.memory-replica-receipt.v1"))
        MemoryReplicationError "memory replica receipt schema is unsupported";
  supplied ← _digest (wire_get "digest" wire) "memory replica receipt digest is invalid";
  receipt ← Receipt_init (wire_get "replica_id" wire) (wire_get "source_id" wire) (wire_get "source_epoch" wire)
              (wire_get "next_sequence" wire) (wire_get "batch_digest" wire) (wire_get "durable" wire)
              (wire_get "inserted_records" wire);
  _ ← require (String.eqb (receipt_digest receipt) supplied) MemoryReplicationError
        "memory replica receipt digest does not match fields";
  Ok receipt.

(** ** Well-formed records *)

(** A record its constructor returns unchanged. *)
Definition wf_mutation (m : MemoryMutation) : Prop :=
  Mutation_init (JStr (source_id m)) (JInt (source_epoch m)) (JInt (sequence m)) (JStr (entity_kind m))
    (JStr (entity_id m)) (JInt (version m)) (JStr (operation m)) (JStr (project m)) (JObj (payload m))
    (JStr (recorded_at m)) = Ok m.

Definition wf_batch (b : MemoryReplicationBatch) : Prop :=
  Forall wf_mutation (records b)
  ∧ Batch_init (JStr (b_source_id b)) (JInt (b_source_epoch b)) (JInt (after_sequence b)) (records b)
      (JInt (next_sequence b)) (JBool (has_more b)) = Ok b.

Definition wf_receipt (r : MemoryReplicaReceipt) : Prop :=
  Receipt_init (JStr (replica_id r)) (JStr (r_source_id r)) (JInt (r_source_epoch r)) (JInt (r_next_sequence r))
    (JStr (batch_digest r)) (JBool (durable r)) (JInt (inserted_records r)) = Ok r.

(** The reader gives back the text it printed. *)
Definition iso_stable : Prop := ∀ s text, iso s = Some (true, text) → iso text = Some (true, text).

Lemma text_matching_ok p msg v s : text_matching p msg v = Ok s ↔ v = JStr s ∧ p s = true.
Proof.
  unfold text_matching. destruct v; simpl; try (split; [done|by intros [? ?]]). rewrite bind_ok.
  setoid_rewrite require_ok. split; [by intros (u & Hp & [= <-])|]. intros [[= ->] Hp]. by exists tt.
Qed.

Lemma int_within_ok lo hi field v z : int_within lo hi field v = Ok z ↔ v = JInt z ∧ lo <= z <= hi.
Proof.
  unfold int_within. destruct v; simpl; try (split; [done|by intros [? ?]]). split.
  - intros (u & [H1%Z.leb_le H2%Z.leb_le]%require_ok%andb_true_iff & [= <-])%bind_ok. done.
  - intros ([= ->] & H1%Z.leb_le & H2%Z.leb_le). by rewrite H1, H2.
Qed.

Lemma bool_ok v msg b : _bool v msg = Ok b ↔ v = JBool b.
Proof. destruct v; simpl; split; try done; congruence. Qed.

Lemma timestamp_ok v s : _timestamp iso v = Ok s ↔ ∃ t, v = JStr t ∧ iso t = Some (true, s).
Proof.
  unfold _timestamp. destruct v; simpl; try (split; [done|by intros (t & ? & ?)]).
  destruct (iso s0) as [[[] text]|] eqn:E; split; try done; try (intros (t & [= <-] & E'); congruence).
  intros [= <-]. by exists s0.
Qed.

Lemma payload_ok v op d :
  _payload v op = Ok d ↔
  v = JObj d ∧ (op = "delete" → d = []) ∧ zlen d <= 64
  ∧ Z.of_nat (String.length (json_dumps (JObj d))) <= _MAX_PAYLOAD_BYTES.
Proof.
  unfold _payload. destruct v; try (split; [done|by intros [? ?]]). split.
  - intros (u & H1%require_ok & (u2 & H2%require_ok%Z.leb_le & (u3 & H3%require_ok%Z.leb_le & [= <-])%bind_ok)%bind_ok)%bind_ok.
    split_and!; try done. intros ->.
    apply negb_true_iff, andb_false_iff in H1 as [H1|H1]; [done|].
    apply negb_false_iff, Z.eqb_eq in H1. unfold zlen in H1. destruct m; [done|simpl in H1; lia].
  - intros ([= ->] & H1 & H2%Z.leb_le & H3%Z.leb_le). rewrite H2, H3.
    destruct (String.eqb_spec op "delete") as [E|]; [|done]. by rewrite (H1 E).
Qed.
End iso.

Lemma text_matching_JStr p msg s : p s = true → text_matching p msg (JStr s) = Ok s.
Proof. intros H. by apply text_matching_ok. Qed.

Lemma int_within_JInt lo hi field z : lo <= z <= hi → int_within lo hi field (JInt z) = Ok z.
Proof. intros H. by apply int_within_ok. Qed.

#[local] Arguments text_matching : simpl never.
#[local] Arguments int_within : simpl never.
#[local] Arguments _payload : simpl never.
#[local] Arguments _timestamp : simpl never.
#[local] Arguments _bool : simpl never.
#[local] Arguments require : simpl never.

(** Inverts a chain of validators. *)
Ltac fields_inv :=
  repeat match goal with
  | H : _ ≫= _ = Ok _ |- _ => apply bind_ok in H as (? & ? & ?)
  | H : _identity _ _ = Ok _ |- _ => apply text_matching_ok in H as [? ?]
  | H : _project _ = Ok _ |- _ => apply text_matching_ok in H as [? ?]
  | H : _digest _ _ = Ok _ |- _ => apply text_matching_ok in H as [? ?]
  | H : one_of _ _ _ = Ok _ |- _ => apply text_matching_ok in H as [? ?]
  | H : _positive _ _ = Ok _ |- _ => apply int_within_ok in H as [? ?]
  | H : _non_negative _ _ _ = Ok _ |- _ => apply int_within_ok in H as [? ?]
  | H : _bool _ _ = Ok _ |- _ => apply bool_ok in H
  | H : require _ _ _ = Ok _ |- _ => apply require_ok in H
  | H : Ok _ = Ok _ |- _ => injection H as H; subst
  end; subst.

(** Runs a chain of validators on values they accept. *)
Ltac fields_run :=
  repeat first
    [ erewrite bind_Ok; [|first
        [ apply text_matching_JStr; eassumption | apply int_within_JInt; eassumption | reflexivity
        | apply require_true; eassumption ]]; cbn beta ].

Lemma Mutation_init_wf iso source epoch seq kind entity ver op proj pay recorded m :
  iso_stable iso → Mutation_init iso source epoch seq kind entity ver op proj pay recorded = Ok m → wf_mutation iso m.
Proof.
  intros Hiso H. unfold Mutation_init in H. fields_inv. unfold wf_mutation, Mutation_init; simpl.
  fields_run.
  match goal with H : _payload _ _ = Ok _ |- _ => pose proof H as Hp; apply payload_ok in Hp as [-> _]; rewrite H end.
  match goal with H : _timestamp _ _ = Ok _ |- _ => apply timestamp_ok in H as (t & -> & Ht) end.
  unfold _timestamp; simpl. by rewrite (Hiso _ _ Ht).
Qed.

Lemma wf_payload iso m : wf_mutation iso m → _payload (JObj (payload m)) (operation m) = Ok (payload m).
Proof.
  unfold wf_mutation, Mutation_init. intros H. fields_inv. simplify_eq/=. done.
Qed.

Lemma wf_operation iso m : wf_mutation iso m → operation m = "upsert" ∨ operation m = "delete".
Proof.
  unfold wf_mutation, Mutation_init. intros H. fields_inv. simplify_eq/=.
  match goal with H : mem _ _OPERATIONS = true |- _ => apply mem_spec in H; unfold _OPERATIONS in H end. set_solver.
Qed.

(** Another payload the reader returns unchanged. *)
Lemma wf_with_payload iso m d :
  wf_mutation iso m → _payload (JObj d) (operation m) = Ok d →
  wf_mutation iso (MkMutation (source_id m) (source_epoch m) (sequence m) (entity_kind m) (entity_id m) (version m)
                     (operation m) (project m) d (recorded_at m)).
Proof.
  unfold wf_mutation, Mutation_init. intros H Hd. fields_inv. simplify_eq/=. fields_run. simpl in Hd. rewrite Hd. simpl.
  by match goal with H : _timestamp _ _ = Ok _ |- _ => rewrite H end.
Qed.

Lemma Batch_init_fields source epoch after l next more b :
  Batch_init source epoch after l next more = Ok b →
  records b = l ∧ Batch_init (JStr (b_source_id b)) (JInt (b_source_epoch b)) (JInt (after_sequence b)) (records b)
                    (JInt (next_sequence b)) (JBool (has_more b)) = Ok b.
Proof.
  intros H. unfold Batch_init in H. fields_inv. split; [done|]. unfold Batch_init; simpl. fields_run.
  match goal with H : check_records _ _ _ _ = Ok _ |- _ => rewrite H end. simpl. fields_run. reflexivity.
Qed.

Lemma Receipt_init_wf replica source epoch next bd dur inserted r :
  Receipt_init replica source epoch next bd dur inserted = Ok r → wf_receipt r.
Proof. intros H. unfold Receipt_init in H. fields_inv. unfold wf_receipt, Receipt_init; simpl. fields_run. reflexivity. Qed.

(** ** The wire *)

Lemma wire_keys_ok d keys label : d.*1 = keys → _require_wire_keys (JObj d) keys label = Ok d.
Proof.
  intros <-. unfold _require_wire_keys. assert (subset d.*1 d.*1 = true) as -> by by apply subset_spec. done.
Qed.

#[local] Arguments digest : simpl never.
#[local] Arguments batch_digest_of : simpl never.
#[local] Arguments receipt_digest : simpl never.

Lemma mutation_roundtrip iso m : wf_mutation iso m → from_dict iso (as_dict m) = Ok m.
Proof.
  intros Hm. unfold from_dict, as_dict. erewrite bind_Ok; [|by apply wire_keys_ok]. cbn beta.
  erewrite bind_Ok; [|reflexivity]. cbn beta.
  erewrite bind_Ok; [|apply text_matching_JStr, sha256_hex_is_digest]. cbn beta.
  erewrite bind_Ok; [|exact Hm]. cbn beta. by rewrite String.eqb_refl.
Qed.

Lemma mutations_roundtrip iso l :
  Forall (wf_mutation iso) l → mapM_res (from_dict iso) (List.map as_dict l) = Ok l.
Proof. intros Hl. apply mapM_res_ok. induction Hl as [|m l Hm _ IH]; simpl; constructor; auto using mutation_roundtrip. Qed.

Lemma batch_roundtrip iso b : wf_batch iso b → batch_from_dict iso (batch_as_dict b) = Ok b.
Proof.
  intros [Hl Hb]. unfold batch_from_dict, batch_as_dict. erewrite bind_Ok; [|by apply wire_keys_ok]. cbn beta.
  erewrite bind_Ok; [|reflexivity]. cbn beta.
  erewrite bind_Ok; [|apply text_matching_JStr, sha256_hex_is_digest]. cbn beta.
  erewrite bind_Ok; [|reflexivity]. cbn beta.
  erewrite bind_Ok; [|by apply mutations_roundtrip]. cbn beta.
  erewrite bind_Ok; [|exact Hb]. cbn beta. by rewrite String.eqb_refl.
Qed.

Lemma replica_receipt_roundtrip r : wf_receipt r → receipt_from_dict (receipt_as_dict r) = Ok r.
Proof.
  intros Hr. unfold receipt_from_dict, receipt_as_dict. erewrite bind_Ok; [|by apply wire_keys_ok]. cbn beta.
  erewrite bind_Ok; [|reflexivity]. cbn beta.
  erewrite bind_Ok; [|apply text_matching_JStr, sha256_hex_is_digest]. cbn beta.
  erewrite bind_Ok; [|exact Hr]. cbn beta. by rewrite String.eqb_refl.
Qed.

(** What the readers accept. *)
Lemma from_dict_wf iso v m : iso_stable iso → from_dict iso v = Ok m → wf_mutation iso m.
Proof.
  intros Hiso H. unfold from_dict in H. apply bind_ok in H as (w & _ & (? & _ & (? & _ & (m' & Hm & H)%bind_ok)%bind_ok)%bind_ok).
  apply bind_ok in H as (? & _ & [= <-]). by eapply Mutation_init_wf.
Qed.

Lemma batch_from_dict_wf iso v b : iso_stable iso → batch_from_dict iso v = Ok b → wf_batch iso b.
Proof.
  intros Hiso H. unfold batch_from_dict in H.
  apply bind_ok in H as (w & _ & (? & _ & (? & _ & (items & _ & (l & Hl & (b' & Hb & H)%bind_ok)%bind_ok)%bind_ok)%bind_ok)%bind_ok).
  apply bind_ok in H as (? & _ & [= <-]). apply Batch_init_fields in Hb as [Hr Hb]. split; [|done]. rewrite Hr. clear Hr Hb.
  apply mapM_res_ok in Hl. by induction Hl; constructor; eauto using from_dict_wf.
Qed.

(** ** The records of a well-formed batch *)

Lemma last_default_irrel {A} (l : list A) x d d' : List.last (x :: l) d = List.last (x :: l) d'.
Proof. revert x. induction l as [|y l IH]; intros x; [done|]. exact (IH y). Qed.

Lemma check_records_ok source epoch previous l last :
  check_records source epoch previous l = Ok last →
  Forall (λ r, source_id r = source ∧ source_epoch r = epoch ∧ previous < sequence r <= last) l
  ∧ last = List.last (sequence <$> l) previous
  ∧ StronglySorted Z.lt (sequence <$> l).
Proof.
  revert previous. induction l as [|r l IH]; intros previous; simpl.
  - intros [= <-]. split_and!; [constructor|done|constructor].
  - intros (u1 & H1%require_ok%String.eqb_eq & (u2 & H2%require_ok%Z.eqb_eq & (u3 & H3%require_ok%Z.ltb_lt & H)%bind_ok)%bind_ok)%bind_ok.
    pose proof (IH _ H) as (Hf & Hlast & Hs). clear IH.
    assert (sequence r <= last).
    { subst last. destruct l as [|r' l]; [simpl; lia|]. apply Forall_cons in Hf as [(_ & _ & ? & ?) _]. lia. }
    split_and!.
    + constructor; [by conjs|]. eapply Forall_impl; [exact Hf|]. simpl. intros r' (? & ? & ? & ?). conjs; lia.
    + rewrite Hlast. destruct l; [done|]. cbn [fmap list_fmap List.last]. apply last_default_irrel.
    + constructor; [done|]. apply Forall_fmap. eapply Forall_impl; [exact Hf|]. simpl. intros r' (_ & _ & ? & _). lia.
Qed.
