(* ===== verification/MemoryJournal.v ===== *)
(** The SQLite journal of memory mutations: [adapters/persistence/sqlite/memory_replication.py].

    The two tables are finite maps: [memory_replication_meta] from a source to its cursor,
    [memory_replication_log] from a source and a sequence number to the row.  A row is the
    mutation its columns hold, the payload in the order [json.loads] reads it back from the
    canonical text, and the digest column.  A query is a list in the order of its [ORDER BY].
    An operation that raises leaves the database as it was, since the transaction around it is
    rolled back. *)
From S2P Require Import Prelude PyText CanonicalJson Sha256 MemoryReplication.

Local Open Scope Z_scope.

Record Meta := MkMeta { m_epoch : Z; m_next : Z; m_scope : option string }.
Record Row := MkRow { row_mutation : MemoryMutation; row_digest : string }.
Record Database := MkDb { meta : gmap string Meta; log : gmap (string * Z) Row }.

Definition _MAX_EXPORT_ROWS : Z := 1024.
Definition _MAX_PRUNE_ROWS : Z := 1024.

Definition empty_db : Database := MkDb ∅ ∅.
Definition set_meta (db : Database) (s : string) (m : Meta) : Database := MkDb (<[s := m]> (meta db)) (log db).
Definition set_next (m : Meta) (next : Z) : Meta := MkMeta (m_epoch m) next (m_scope m).
Definition set_epoch (m : Meta) (epoch : Z) : Meta := MkMeta epoch (m_next m) (m_scope m).

(** Binding an integer outside 64 bits raises. *)
Definition bind_int (z : Z) : res unit :=
  require (z <=? max_i64) OverflowError "Python int too large to convert to SQLite INTEGER".

(** ** Queries *)

(** [WHERE source_id=? ... ORDER BY sequence] *)
Definition row_le (a b : Row) : bool := sequence (row_mutation a) <=? sequence (row_mutation b).
Definition rows_of (db : Database) (s : string) : list Row :=
  sort_by row_le (filter (λ r, source_id (row_mutation r) = s) (map_to_list (log db)).*2).

Definition in_scope (scope : option string) (r : Row) : bool :=
  match scope with Some p => String.eqb (project (row_mutation r)) p | None => true end.

Definition row_key (r : Row) : string * string * string := entity_key (row_mutation r).
Definition row_version (r : Row) : Z := version (row_mutation r).
Definition entity_rows (ek : string * string * string) (l : list Row) : list Row := filter (λ r, row_key r = ek) l.

(** [SELECT MAX(version)] *)
Definition max_version (l : list Row) : option Z :=
  foldr (λ r acc, Some (match acc with Some v => Z.max (row_version r) v | None => row_version r end)) None l.

Definition digest_at (db : Database) (s : string) (n : Z) : option string := row_digest <$> log db !! (s, n).

(** The payload as [json.loads] reads it back from [payload_json]. *)
Definition canon_members (d : list (string * json)) : list (string * json) :=
  sort_by member_le (List.map (λ kv, (kv.1, canon kv.2)) d).
Definition stored (m : MemoryMutation) : MemoryMutation :=
  MkMutation (source_id m) (source_epoch m) (sequence m) (entity_kind m) (entity_id m) (version m) (operation m)
    (project m) (canon_members (payload m)) (recorded_at m).

(** An [INSERT] that violates the primary key or the unique entity version fails. *)
Definition _insert_mutation (db : Database) (m : MemoryMutation) : option Database :=
  if bool_decide (log db !! (source_id m, sequence m) ≠ None)
     || existsb (λ r, row_version r =? version m) (entity_rows (entity_key m) (rows_of db (source_id m)))
  then None
  else Some (MkDb (meta db) (<[(source_id m, sequence m) := MkRow (stored m) (digest m)]> (log db))).

(** ** Operations inside the caller's transaction *)

Section journal.
Context (iso : iso_reader) (now : string).

Definition scope_json (scope : option string) : json :=
  match scope with Some p => JStr (if String.eqb p "" then "global" else p) | None => JStr "global" end.

Definition validation_mutation (source : string) (project : json) : res MemoryMutation :=
  Mutation_init iso (JStr source) (JInt 1) (JInt 1) (JStr "fact") (JStr "validation") (JInt 1) (JStr "delete")
    project (JObj []) (JStr now).

Definition _validate_source (source : string) (scope : option string) : res unit :=
  _ ← validation_mutation source (scope_json scope);
  require (bool_decide (scope ≠ Some "")) MemoryReplicationError "project scope must not be empty".

Definition ensure_memory_replication_source (db : Database) (source : string) (scope : option string)
  : res (Database * Meta) :=
  _ ← _validate_source source scope;
  match meta db !! source with
  | None => let m := MkMeta 1 1 scope in Ok (set_meta db source m, m)
  | Some m =>
      _ ← require (bool_decide (m_scope m = None) || bool_decide (m_scope m = scope)) MemoryReplicationError
            "journal project scope conflicts with persisted scope";
      Ok (db, m)
  end.

(** The loop over the records: the database, the next sequence and the number of rows inserted. *)
Fixpoint append_records (db : Database) (source : string) (epoch expected inserted : Z) (l : list MemoryMutation)
  : res (Database * Z * Z) :=
  match l with
  | [] => Ok (db, expected, inserted)
  | r :: rest =>
      _ ← require (source_epoch r =? epoch) MemoryReplicationError "record source epoch is stale or not admitted";
      if negb (sequence r =? expected) then
        _ ← require (bool_decide (digest_at db source (sequence r) = Some (digest r))) MemoryReplicationError
              "journal sequence is not contiguous";
        append_records db source epoch expected inserted rest
      else
        _ ← require (match max_version (entity_rows (entity_key r) (rows_of db (source_id r))) with
                     | Some latest => negb (version r <=? latest) | None => true end)
              MemoryReplicationError "entity version must advance";
        match _insert_mutation db r with
        | Some db' => append_records db' source epoch (expected + 1) (inserted + 1) rest
        | None =>
            match digest_at db source (sequence r) with
            | Some d =>
                _ ← require (String.eqb d (digest r)) MemoryReplicationError
                      "journal sequence conflicts with existing evidence";
                append_records db source epoch (expected + 1) inserted rest
            | None => throw MemoryReplicationError "journal entity version conflicts"
            end
        end
  end.

Definition append_memory_mutations_in_transaction (db : Database) (records : list MemoryMutation) (source : string)
    (scope : option string) : res (Database * Z) :=
  _ ← require ((1 <=? zlen records) && (zlen records <=? _MAX_EXPORT_ROWS)) ValueError
        "records must be a bounded non-empty tuple";
  _ ← mapM_res (λ r,
        _ ← require (String.eqb (source_id r) source) MemoryReplicationError "journal records must belong to this source";
        require (match scope with Some p => String.eqb (project r) p | None => true end) MemoryReplicationError
          "project scope cannot be widened") records;
  '(db1, m) ← ensure_memory_replication_source db source scope;
  '(db2, expected, inserted) ← append_records db1 source (m_epoch m) (m_next m) 0 records;
  _ ← bind_int expected;
  Ok (set_meta db2 source (set_next m expected), inserted).

Fixpoint apply_records (db : Database) (epoch expected inserted : Z) (l : list MemoryMutation)
  : res (Database * Z * Z) :=
  match l with
  | [] => Ok (db, expected, inserted)
  | r :: rest =>
      match digest_at db (source_id r) (sequence r) with
      | Some d =>
          _ ← require (String.eqb d (digest r)) MemoryReplicationError
                "replication sequence conflicts with existing evidence";
          apply_records db epoch (Z.max expected (sequence r + 1)) inserted rest
      | None =>
          _ ← require (source_epoch r =? epoch) MemoryReplicationError "record source epoch does not match batch";
          _ ← require (sequence r =? expected) MemoryReplicationError "replication batch has a sequence gap";
          _ ← require (match max_version (entity_rows (entity_key r) (rows_of db (source_id r))) with
                       | Some latest => negb (version r <=? latest) | None => true end)
                MemoryReplicationError "replication entity version must advance";
          match _insert_mutation db r with
          | Some db' => apply_records db' epoch (expected + 1) (inserted + 1) rest
          | None => throw MemoryReplicationError "replication entity version conflicts"
          end
      end
  end.

Definition apply_memory_replication_batch_in_transaction (db : Database) (batch : MemoryReplicationBatch)
    (scope : option string) : res (Database * Z) :=
  _ ← require (zlen (records batch) <=? _MAX_EXPORT_ROWS) MemoryReplicationError
        "replication batch exceeds the journal bound";
  _ ← match scope with
      | Some p =>
          _ ← _validate_source (b_source_id batch) scope;
          require (forallb (λ r, String.eqb (project r) p) (records batch)) MemoryReplicationError
            "project scope cannot be widened"
      | None => Ok tt
      end;
  '(db1, m) ←
    match meta db !! b_source_id batch with
    | None =>
        let m := MkMeta (b_source_epoch batch) 1 scope in Ok (set_meta db (b_source_id batch) m, m)
    | Some m =>
        _ ← require (bool_decide (m_scope m = scope)) MemoryReplicationError
              "journal project scope conflicts with persisted scope";
        _ ← require (negb (b_source_epoch batch <? m_epoch m)) MemoryReplicationError
              "replication batch has a stale source epoch";
        let m' := set_epoch m (b_source_epoch batch) in Ok (set_meta db (b_source_id batch) m', m')
    end;
  '(db2, expected, inserted) ← apply_records db1 (m_epoch m) (m_next m) 0 (records batch);
  _ ← bind_int expected;
  Ok (set_meta db2 (b_source_id batch) (set_next m expected), inserted).

(** ** The journal *)

(** [SQLiteMemoryReplicationJournal]: the identity and the optional project it was opened with. *)
Record Journal := MkJournal { j_source : string; j_scope : option string }.

Definition Journal_init (db : Database) (source : string) (scope : option string) : res (Database * Journal) :=
  _ ← _validate_source source scope;
  '(db', _) ← ensure_memory_replication_source db source scope;
  Ok (db', MkJournal source scope).

Definition _meta (j : Journal) (db : Database) : res Meta :=
  match meta db !! j_source j with
  | Some m => Ok m
  | None => throw MemoryReplicationError "journal metadata is missing"
  end.

Definition _scope (j : Journal) (project : option string) : res (option string) :=
  match project with
  | None => Ok (j_scope j)
  | Some p =>
      _ ← require (bool_decide (j_scope j ≠ None)) MemoryReplicationError
            "project-scoped export requires a journal project scope";
      _ ← require (negb (String.eqb p "")) MemoryReplicationError "project scope must be non-empty";
      _ ← require (bool_decide (j_scope j = Some p)) MemoryReplicationError "project scope cannot be widened";
      _ ← validation_mutation (j_source j) (JStr p);
      Ok (Some p)
  end.

Definition _row_to_mutation (r : Row) : res MemoryMutation :=
  let m := row_mutation r in
  Mutation_init iso (JStr (source_id m)) (JInt (source_epoch m)) (JInt (sequence m)) (JStr (entity_kind m))
    (JStr (entity_id m)) (JInt (version m)) (JStr (operation m)) (JStr (project m)) (JObj (payload m))
    (JStr (recorded_at m)).

Definition advance_epoch (j : Journal) (db : Database) (source_epoch : Z) : res Database :=
  _ ← require (1 <=? source_epoch) MemoryReplicationError "source epoch must be positive";
  m ← _meta j db;
  _ ← require (m_epoch m <? source_epoch) MemoryReplicationError "source epoch must advance";
  _ ← require (bool_decide (rows_of db (j_source j) = []) && (m_next m =? 1)) MemoryReplicationError
        "source epoch can advance only from an empty bootstrap cursor";
  _ ← bind_int source_epoch;
  Ok (set_meta db (j_source j) (set_epoch m source_epoch)).

Definition append (j : Journal) (db : Database) (records : list MemoryMutation) : res (Database * Z) :=
  append_memory_mutations_in_transaction db records (j_source j) (j_scope j).

Definition last_sequence (l : list MemoryMutation) (after : Z) : Z := List.last (sequence <$> l) after.

Definition export (j : Journal) (db : Database) (after limit : Z) (project : option string)
  : res MemoryReplicationBatch :=
  _ ← require (0 <=? after) ValueError "after_sequence must be a non-negative integer";
  _ ← require ((1 <=? limit) && (limit <=? _MAX_EXPORT_ROWS)) ValueError "limit must be within 1..1024";
  scope ← _scope j project;
  m ← _meta j db;
  _ ← bind_int after;
  let rows := take (Z.to_nat (limit + 1))
                (filter (λ r, after < sequence (row_mutation r) ∧ in_scope scope r = true) (rows_of db (j_source j))) in
  let more := limit <? zlen rows in
  l ← mapM_res _row_to_mutation (take (Z.to_nat limit) rows);
  Batch_init (JStr (j_source j)) (JInt (m_epoch m)) (JInt after) l (JInt (last_sequence l after)) (JBool more).

Definition apply (j : Journal) (db : Database) (batch : MemoryReplicationBatch) : res (Database * Z) :=
  apply_memory_replication_batch_in_transaction db batch (j_scope j).

(** [PARTITION BY project,entity_kind,entity_id ORDER BY version DESC,sequence DESC], first row *)
Definition rank_le (a b : Row) : bool :=
  (row_version a <? row_version b) || (row_version a =? row_version b) && row_le a b.
Definition is_first (l : list Row) (r : Row) : bool := forallb (λ r', rank_le r' r) (entity_rows (row_key r) l).

(** [ORDER BY project,entity_kind,entity_id] *)
Definition text_lex {A} (le : A → A → bool) (a b : string * A) : bool :=
  if String.eqb a.1 b.1 then le a.2 b.2 else String.leb a.1 b.1.
Definition key_le (a b : string * string * string) : bool :=
  text_lex (text_lex String.leb) (a.1.1, (a.1.2, a.2)) (b.1.1, (b.1.2, b.2)).

Definition _latest (j : Journal) (db : Database) (project : option string) (tombstones : bool) (limit : Z)
  : res (list MemoryMutation) :=
  _ ← require ((1 <=? limit) && (limit <=? _MAX_EXPORT_ROWS)) ValueError "limit must be within 1..1024";
  scope ← _scope j project;
  let rows := filter (λ r, in_scope scope r = true) (rows_of db (j_source j)) in
  let firsts := filter (λ r, is_first rows r = true) rows in
  let wanted := filter (λ r, operation (row_mutation r) = if tombstones then "delete" else "upsert") firsts in
  mapM_res _row_to_mutation (take (Z.to_nat limit) (sort_by (λ a b, key_le (row_key a) (row_key b)) wanted)).

Definition current_records (j : Journal) (db : Database) (project : option string) (limit : Z) :=
  _latest j db project false limit.
Definition tombstones (j : Journal) (db : Database) (project : option string) (limit : Z) :=
  _latest j db project true limit.

(** One row of the grouped query: an entity, [MAX(version)] and the operation of its latest version. *)
Definition protected_rows (l : list Row) : list (string * string * string * Z * string) :=
  omap (λ ek,
    v ← max_version (entity_rows ek l);
    r ← head (filter (λ r, row_version r = v) (entity_rows ek l));
    Some (ek, v, operation (row_mutation r))) (fromkeys (row_key <$> l)).

Definition keeps (retain_tombstones : bool) (l : list Row) (r : Row) : bool :=
  existsb (λ '(ek, v, op), negb (String.eqb op "delete" && negb retain_tombstones)
                           && bool_decide (row_key r = ek) && (row_version r =? v)) (protected_rows l).

Definition prunable (retain_tombstones : bool) (l : list Row) (bound : Z) (r : Row) : bool :=
  (sequence (row_mutation r) <? bound) && negb (keeps retain_tombstones l r)
  && (negb retain_tombstones || String.eqb (operation (row_mutation r)) "upsert").

Definition prune_before (j : Journal) (db : Database) (bound : Z) (retain_tombstones : bool) (limit : Z)
  : res (Database * Z) :=
  _ ← require (1 <=? bound) ValueError "sequence must be positive";
  _ ← require ((1 <=? limit) && (limit <=? _MAX_PRUNE_ROWS)) ValueError "limit must be within 1..1024";
  _ ← bind_int bound;
  let l := rows_of db (j_source j) in
  let rows := take (Z.to_nat limit) (filter (λ r, prunable retain_tombstones l bound r = true) l) in
  Ok (MkDb (meta db) (foldr (λ r m, delete (j_source j, sequence (row_mutation r)) m) (log db) rows), zlen rows).
End journal.

(** ** Stored rows *)

Lemma canon_members_obj d : canon (JObj d) = JObj (canon_members d).
Proof. done. Qed.

Lemma canon_members_idem d : canon_members (canon_members d) = canon_members d.
Proof. pose proof (canon_idem (JObj d)) as H. rewrite !canon_members_obj in H. congruence. Qed.

Lemma canon_members_nil d : canon_members d = [] → d = [].
Proof.
  unfold canon_members. intros H. apply (f_equal length) in H.
  rewrite (Permutation_length (sort_by_Permutation _ _)), length_map in H. by destruct d.
Qed.

Lemma zlen_canon_members d : zlen (canon_members d) = zlen d.
Proof. unfold zlen, canon_members. by rewrite (Permutation_length (sort_by_Permutation _ _)), length_map. Qed.

Lemma json_dumps_members d : json_dumps (JObj (canon_members d)) = json_dumps (JObj d).
Proof. unfold json_dumps. by rewrite <-canon_members_obj, canon_idem. Qed.

Lemma stored_idem m : stored (stored m) = stored m.
Proof. unfold stored; simpl. by rewrite canon_members_idem. Qed.

(** The digest does not depend on the order the payload was given in. *)
Lemma digest_stored m : digest (stored m) = digest m.
Proof.
  assert (List.map (λ kv, (kv.1, canon kv.2)) (_wire_fields (stored m)) = List.map (λ kv, (kv.1, canon kv.2)) (_wire_fields m))
    as E. { unfold _wire_fields. cbn [List.map fst snd]. change (payload (stored m)) with (canon_members (payload m)).
    by rewrite !canon_members_obj, canon_members_idem. }
  unfold digest, _canonical_json, json_dumps. rewrite !canon_members_obj. unfold canon_members. by rewrite E.
Qed.

Lemma stored_key m : entity_key (stored m) = entity_key m.
Proof. done. Qed.

Lemma wf_stored iso m : wf_mutation iso m → wf_mutation iso (stored m).
Proof.
  intros Hm. pose proof (wf_payload iso m Hm) as (_ & Hd & Hn & Hlen)%payload_ok.
  assert (_payload (JObj (canon_members (payload m))) (operation m) = Ok (canon_members (payload m))) as Hp.
  { apply payload_ok. rewrite zlen_canon_members, json_dumps_members. split_and!; [done| |done|done].
    intros E. by rewrite (Hd E). }
  by apply wf_with_payload.
Qed.

(** ** Queries *)

#[export] Instance row_sort_key : SortKey row_le.
Proof. unfold row_le. split; intros; rewrite ?Z.leb_le in *; lia. Qed.

(** Every row sits under the source and the sequence of its columns. *)
Definition rows_ok (iso : iso_reader) (L : gmap (string * Z) Row) : Prop :=
  ∀ s n r, L !! (s, n) = Some r →
  source_id (row_mutation r) = s ∧ sequence (row_mutation r) = n ∧ wf_mutation iso (row_mutation r)
  ∧ stored (row_mutation r) = row_mutation r ∧ row_digest r = digest (row_mutation r).

Section queries.
Context (iso : iso_reader) (db : Database) (Hrows : rows_ok iso (log db)).

Lemma rows_of_elem s r : r ∈ rows_of db s ↔ log db !! (s, sequence (row_mutation r)) = Some r.
Proof.
  unfold rows_of. rewrite sort_by_Permutation, list_elem_of_filter, list_elem_of_fmap. split.
  - intros [<- ([[s1 n1] r1] & -> & Hk%elem_of_map_to_list)]. simpl. by destruct (Hrows _ _ _ Hk) as (-> & -> & _).
  - intros Hk. split; [by destruct (Hrows _ _ _ Hk) as (? & _)|]. eexists (_, r). split; [done|].
    by apply elem_of_map_to_list.
Qed.

Lemma rows_of_lookup s n r : log db !! (s, n) = Some r → r ∈ rows_of db s.
Proof. intros H. apply rows_of_elem. by destruct (Hrows _ _ _ H) as (_ & -> & _). Qed.

Lemma rows_of_sequence_inj s r r' :
  r ∈ rows_of db s → r' ∈ rows_of db s → sequence (row_mutation r) = sequence (row_mutation r') → r = r'.
Proof. rewrite !rows_of_elem. congruence. Qed.

Lemma rows_of_NoDup s : NoDup (rows_of db s).
Proof.
  unfold rows_of. rewrite sort_by_Permutation. apply NoDup_filter, NoDup_fmap_2_strong; [|apply NoDup_map_to_list].
  intros [[s1 n1] r1] [[s2 n2] r2] H1%elem_of_map_to_list H2%elem_of_map_to_list. simpl. intros ->.
  destruct (Hrows _ _ _ H1) as (<- & <- & _), (Hrows _ _ _ H2) as (<- & <- & _). done.
Qed.

Lemma rows_of_sorted s : StronglySorted (λ a b, sequence (row_mutation a) < sequence (row_mutation b)) (rows_of db s).
Proof.
  assert (StronglySorted (λ a b, row_le a b = true) (rows_of db s)) as Hs by apply sort_by_sorted, _.
  pose proof (rows_of_NoDup s) as Hn.
  assert (∀ r, r ∈ rows_of db s → r ∈ rows_of db s) as Hin by done. revert Hs Hn Hin.
  generalize (rows_of db s) at 1 2 3 5 as l. induction 1 as [|r l Hs IH Hr]; [constructor|].
  intros [Hni Hn]%NoDup_cons Hin. constructor; [apply IH; set_solver|]. rewrite Forall_forall in Hr |- *. intros r' Hr'.
  specialize (Hr r' Hr'). apply Z.leb_le, Z.lt_eq_cases in Hr as [|E]; [done|].
  destruct Hni. by rewrite (rows_of_sequence_inj s r r') by set_solver.
Qed.
End queries.

Lemma max_version_None l : max_version l = None ↔ l = [].
Proof. by destruct l. Qed.

Lemma max_version_Some l v :
  max_version l = Some v → (∀ r, r ∈ l → row_version r <= v) ∧ ∃ r, r ∈ l ∧ row_version r = v.
Proof.
  revert v. induction l as [|r l IH]; [done|]. simpl. intros v [= <-]. destruct (max_version l) as [w|] eqn:E.
  - destruct (IH w eq_refl) as [Hle (r' & Hr' & Hw)]. split.
    + intros r0 [->|H0]%elem_of_cons; [lia|]. specialize (Hle _ H0). lia.
    + destruct (Z.max_spec (row_version r) w) as [[_ ->]|[_ ->]]; [by exists r'; split; [by right|]|].
      exists r. split; [by left|done].
  - apply max_version_None in E as ->. split; [by intros r0 ->%list_elem_of_singleton|]. exists r. split; [by left|done].
Qed.

Lemma entity_rows_elem ek l r : r ∈ entity_rows ek l ↔ row_key r = ek ∧ r ∈ l.
Proof. unfold entity_rows. by rewrite list_elem_of_filter. Qed.

(** ** The journal invariant *)

(** One source: sequences lie below the cursor, and of two versions of an entity the later is higher. *)
Record src_inv (L : gmap (string * Z) Row) (s : string) (epoch next : Z) : Prop := {
  si_epoch : 1 <= epoch;
  si_next : 1 <= next;
  si_rows : ∀ n r, L !! (s, n) = Some r → 1 <= n < next ∧ source_epoch (row_mutation r) <= epoch;
  si_versions : ∀ n n' r r', L !! (s, n) = Some r → L !! (s, n') = Some r' → row_key r = row_key r' → n < n' →
                  row_version r < row_version r'
}.

Definition cursor_inv (db : Database) (s : string) : Prop :=
  match meta db !! s with
  | Some m => src_inv (log db) s (m_epoch m) (m_next m) ∧ m_next m <= max_i64 ∧ m_epoch m <= max_i64
  | None => ∀ n, log db !! (s, n) = None
  end.

Definition journal_inv (iso : iso_reader) (db : Database) : Prop := rows_ok iso (log db) ∧ ∀ s, cursor_inv db s.

Lemma src_inv_epoch L s epoch epoch' next : src_inv L s epoch next → epoch <= epoch' → src_inv L s epoch' next.
Proof.
  intros [He Hn Hr Hv] Hle. constructor; [lia|done| |done]. intros n r H. specialize (Hr n r H). lia.
Qed.

Lemma src_inv_fresh L s epoch : 1 <= epoch → (∀ n, L !! (s, n) = None) → src_inv L s epoch 1.
Proof. intros He HL. constructor; [done|lia|..]; intros; congruence. Qed.

Lemma src_inv_ext L L' s epoch next : (∀ n, L' !! (s, n) = L !! (s, n)) → src_inv L s epoch next → src_inv L' s epoch next.
Proof.
  intros HL [He Hn Hr Hv]. constructor; [done|done|..].
  - intros n r. rewrite HL. apply Hr.
  - intros n n' r r'. rewrite !HL. apply Hv.
Qed.

Lemma src_inv_subset L L' s epoch next : L' ⊆ L → src_inv L s epoch next → src_inv L' s epoch next.
Proof.
  intros HL [He Hn Hr Hv]. constructor; [done|done|..].
  - intros n r H. by eapply Hr, lookup_weaken.
  - intros n n' r r' H H'. eapply Hv; by eapply lookup_weaken.
Qed.

(** The guard of both loops lets only a new highest version through. *)
Definition version_free (db : Database) (m : MemoryMutation) : Prop :=
  ∀ r, r ∈ entity_rows (entity_key m) (rows_of db (source_id m)) → row_version r < version m.

Lemma version_guard db m :
  match max_version (entity_rows (entity_key m) (rows_of db (source_id m))) with
  | Some latest => negb (version m <=? latest) | None => true end = true ↔ version_free db m.
Proof.
  unfold version_free. destruct (max_version _) as [v|] eqn:E.
  - apply max_version_Some in E as [Hle (r & Hr & <-)]. rewrite negb_true_iff, Z.leb_gt. split.
    + intros Hv r' Hr'. specialize (Hle r' Hr'). lia.
    + intros Hv. by apply Hv.
  - apply max_version_None in E as ->. split; [|done]. by intros _ r ?%elem_of_nil.
Qed.

(** A record at the cursor with a free version is inserted: the unique constraints cannot fail. *)
Lemma insert_ok iso db m epoch :
  rows_ok iso (log db) → src_inv (log db) (source_id m) epoch (sequence m) → wf_mutation iso m →
  source_epoch m <= epoch → version_free db m →
  let L' := <[(source_id m, sequence m) := MkRow (stored m) (digest m)]> (log db) in
  _insert_mutation db m = Some (MkDb (meta db) L')
  ∧ log db !! (source_id m, sequence m) = None
  ∧ rows_ok iso L' ∧ src_inv L' (source_id m) epoch (sequence m + 1).
Proof.
  intros Hrows [He Hn Hr Hv] Hm Hepoch Hfree L'.
  assert (log db !! (source_id m, sequence m) = None) as Hnone.
  { destruct (log db !! _) as [r|] eqn:E; [|done]. apply Hr in E. lia. }
  split_and!; [|done|..].
  - unfold _insert_mutation. rewrite bool_decide_eq_false_2 by (rewrite Hnone; tauto). simpl.
    destruct (existsb _ _) eqn:E; [|done]. apply existsb_exists in E as (r & Hr'%list_elem_of_In & E%Z.eqb_eq).
    specialize (Hfree r Hr'). lia.
  - intros s n r [[[= <- <-] <-]|[_ H]]%lookup_insert_Some; [|by apply Hrows]. simpl.
    split_and!; [done|done|by apply wf_stored|apply stored_idem|by rewrite digest_stored].
  - constructor; [done|lia|..].
    + intros n r [[[= <-] <-]|[_ H]]%lookup_insert_Some; [simpl; lia|]. specialize (Hr _ _ H). lia.
    + intros n n' r r' [[[= <-] <-]|[Hne H]]%lookup_insert_Some [[[= <-] <-]|[Hne' H']]%lookup_insert_Some Hk Hlt;
        [lia| |  |by eapply Hv].
      * apply Hr in H'. lia.
      * apply Hfree, entity_rows_elem. split; [done|]. by eapply rows_of_lookup.
Qed.

(** What a loop over [l] does to the log of [s]: the cursor moves from [next] to [next'], each
    sequence passed holds a record of the list, and nothing else changes. *)
Record grows (iso : iso_reader) (s : string) (epoch next next' : Z) (l : list MemoryMutation) (db db' : Database) : Prop := {
  g_meta : meta db' = meta db;
  g_le : next <= next';
  g_new : ∀ n, next <= n < next' →
            ∃ m, m ∈ l ∧ sequence m = n ∧ source_epoch m = epoch ∧ log db' !! (s, n) = Some (MkRow (stored m) (digest m));
  g_old : ∀ k, log db' !! k = log db !! k ∨ ∃ n, k = (s, n) ∧ next <= n < next';
  g_rows : rows_ok iso (log db');
  g_inv : src_inv (log db') s epoch next'
}.

Section loops.
Context (iso : iso_reader) (s : string) (epoch : Z).
Implicit Types (db : Database) (l : list MemoryMutation).

Lemma grows_refl next l db : rows_ok iso (log db) → src_inv (log db) s epoch next → grows iso s epoch next next l db db.
Proof. intros Hr Hi. constructor; try done; [lia|]. by left. Qed.

Lemma log_grows_weaken next next' m l db db' : grows iso s epoch next next' l db db' → grows iso s epoch next next' (m :: l) db db'.
Proof. intros []. constructor; try done. intros n Hn. destruct (g_new0 n Hn) as (m' & ? & ?). exists m'. set_solver. Qed.

Lemma log_grows_insert m l next' db db' :
  source_id m = s → source_epoch m = epoch → log db !! (s, sequence m) = None →
  let db1 := MkDb (meta db) (<[(s, sequence m) := MkRow (stored m) (digest m)]> (log db)) in
  grows iso s epoch (sequence m + 1) next' l db1 db' → grows iso s epoch (sequence m) next' (m :: l) db db'.
Proof.
  intros Hs He Hnone db1 [Hm Hle Hnew Hold Hr Hi]. constructor; try done; [lia| |].
  - intros n Hn. destruct (decide (n = sequence m)) as [->|].
    + exists m. split_and!; [by left|done|done|]. destruct (Hold (s, sequence m)) as [->|(n & [= <-] & ?)]; [|lia].
      apply lookup_insert_eq.
    + destruct (Hnew n ltac:(lia)) as (m' & ? & ?). exists m'. set_solver.
  - intros k. destruct (Hold k) as [->|(n & -> & ?)]; [|right; exists n; split; [done|lia]]. simpl.
    destruct (decide (k = (s, sequence m))) as [->|]; [right; exists (sequence m); split; [done|lia]|].
    left. by rewrite lookup_insert_ne.
Qed.

Definition own_records l : Prop := Forall (λ m, wf_mutation iso m ∧ source_id m = s) l.

Lemma append_records_grows l : own_records l → ∀ db expected inserted db' expected' inserted',
  rows_ok iso (log db) → src_inv (log db) s epoch expected →
  append_records db s epoch expected inserted l = Ok (db', expected', inserted') →
  grows iso s epoch expected expected' l db db' ∧ inserted' - inserted = expected' - expected.
Proof.
  induction 1 as [|m l [Hm Hs] _ IH]; intros db expected inserted db' expected' inserted' Hr Hi; simpl.
  - intros [= <- <- <-]. split; [by apply grows_refl|lia].
  - intros (u & He%require_ok%Z.eqb_eq & H)%bind_ok. destruct (Z.eqb_spec (sequence m) expected) as [<-|]; simpl in H.
    + apply bind_ok in H as (u' & Hv%require_ok%version_guard & H). rewrite <-Hs, <-He in Hi.
      destruct (insert_ok iso db m _ Hr Hi Hm (Z.le_refl _) Hv) as (Hins & Hnone & Hr1 & Hi1). rewrite Hins in H.
      rewrite Hs, He in *. apply IH in H as [Hg Hc]; [|done..]. split; [by eapply log_grows_insert|lia].
    + apply bind_ok in H as (u' & _ & H). apply IH in H as [Hg Hc]; [|done..]. split; [by apply log_grows_weaken|done].
Qed.

Lemma apply_records_grows l : own_records l → ∀ db expected inserted db' expected' inserted',
  rows_ok iso (log db) → src_inv (log db) s epoch expected →
  apply_records db epoch expected inserted l = Ok (db', expected', inserted') →
  grows iso s epoch expected expected' l db db' ∧ inserted' - inserted = expected' - expected.
Proof.
  induction 1 as [|m l [Hm Hs] _ IH]; intros db expected inserted db' expected' inserted' Hr Hi; simpl.
  - intros [= <- <- <-]. split; [by apply grows_refl|lia].
  - unfold digest_at. rewrite Hs. destruct (log db !! (s, sequence m)) as [r|] eqn:E; simpl.
    + intros (u & _ & H)%bind_ok. pose proof (si_rows _ _ _ _ Hi _ _ E) as [? _]. rewrite Z.max_l in H by lia.
      apply IH in H as [Hg Hc]; [|done..]. split; [by apply log_grows_weaken|done].
    + intros (u & He%require_ok%Z.eqb_eq & (u1 & <-%require_ok%Z.eqb_eq & (u2 & Hv & H)%bind_ok)%bind_ok)%bind_ok.
      rewrite <-Hs in Hv. apply require_ok, version_guard in Hv. rewrite <-Hs, <-He in Hi.
      destruct (insert_ok iso db m _ Hr Hi Hm (Z.le_refl _) Hv) as (Hins & Hnone & Hr1 & Hi1). rewrite Hins in H.
      rewrite Hs, He in *. apply IH in H as [Hg Hc]; [|done..]. split; [by eapply log_grows_insert|lia].
Qed.
End loops.

(** ** The operations keep the invariant *)

Section operations.
Context (iso : iso_reader) (now : string).
Implicit Types (db : Database) (s : string) (l : list MemoryMutation).

Lemma empty_journal_inv : journal_inv iso empty_db.
Proof.
  split; [intros s n r; simpl; by rewrite lookup_empty|]. intros s. unfold cursor_inv. simpl. rewrite lookup_empty.
  intros n. apply lookup_empty.
Qed.

Lemma set_meta_inv db s m :
  journal_inv iso db → src_inv (log db) s (m_epoch m) (m_next m) → m_next m <= max_i64 → m_epoch m <= max_i64 →
  journal_inv iso (set_meta db s m).
Proof.
  intros [Hr Hi] Hs Hn He. split; [done|]. intros s'. unfold cursor_inv. simpl. destruct (decide (s' = s)) as [->|].
  - by rewrite lookup_insert_eq.
  - rewrite lookup_insert_ne by done. apply Hi.
Qed.

(** The cursor of a source, or the one a first contact creates. *)
Definition cursor_or (db : Database) (s : string) (m0 : Meta) : Meta := default m0 (meta db !! s).

Lemma cursor_or_inv db s m0 :
  journal_inv iso db → 1 <= m_epoch m0 <= max_i64 → m_next m0 = 1 →
  src_inv (log db) s (m_epoch (cursor_or db s m0)) (m_next (cursor_or db s m0))
  ∧ m_next (cursor_or db s m0) <= max_i64 ∧ m_epoch (cursor_or db s m0) <= max_i64.
Proof.
  intros [_ Hi] He Hn. specialize (Hi s). unfold cursor_inv, cursor_or in *. destruct (meta db !! s) as [m|]; simpl; [done|].
  rewrite Hn. split_and!; [apply src_inv_fresh; [lia|done]|done|lia].
Qed.

(** The transaction of both writers: the loop ran from the cursor, and the cursor moved with it. *)
Definition committed (db : Database) (s : string) (m : Meta) (l : list MemoryMutation) (k : Z) (db' : Database) : Prop :=
  ∃ db2, grows iso s (m_epoch m) (m_next m) (m_next m + k) l (set_meta db s m) db2
         ∧ m_next m + k <= max_i64 ∧ db' = set_meta db2 s (set_next m (m_next m + k)).

Lemma committed_inv db s m l k db' :
  journal_inv iso db → m_epoch m <= max_i64 → committed db s m l k db' → journal_inv iso db'.
Proof.
  intros [Hr Hi] He (db2 & Hg & Hk & ->). split; [apply Hg|]. intros s'. unfold cursor_inv. simpl.
  destruct (decide (s' = s)) as [->|Hne].
  - rewrite lookup_insert_eq. simpl. split_and!; [apply Hg|done|done].
  - rewrite lookup_insert_ne, (g_meta _ _ _ _ _ _ _ _ Hg) by done. simpl. rewrite lookup_insert_ne by done.
    assert (∀ n, log db2 !! (s', n) = log db !! (s', n)) as Hold.
    { intros n. by destruct (g_old _ _ _ _ _ _ _ _ Hg (s', n)) as [->|(n' & [= -> <-] & _)]. }
    specialize (Hi s'). unfold cursor_inv in Hi. destruct (meta db !! s').
    + destruct Hi as [Hi ?]. split; [|done]. by eapply src_inv_ext.
    + intros n. by rewrite Hold.
Qed.

Lemma ensure_ok db s scope db1 m :
  ensure_memory_replication_source iso now db s scope = Ok (db1, m) →
  m = cursor_or db s (MkMeta 1 1 scope) ∧ db1 = set_meta db s m ∧ (m_scope m = None ∨ m_scope m = scope).
Proof.
  unfold ensure_memory_replication_source, cursor_or. intros (u & _ & H)%bind_ok. destruct (meta db !! s) as [m'|] eqn:E; simpl.
  - apply bind_ok in H as (u' & Hs%require_ok%orb_true_iff & [= <- <-]). rewrite !bool_decide_eq_true in Hs.
    split_and!; [done| |done]. destruct db as [M L]. unfold set_meta; simpl in *. by rewrite insert_id.
  - injection H as <- <-. split_and!; [done..|by right].
Qed.

Lemma append_ok db l s scope db' k :
  journal_inv iso db → Forall (wf_mutation iso) l →
  append_memory_mutations_in_transaction iso now db l s scope = Ok (db', k) →
  let m := cursor_or db s (MkMeta 1 1 scope) in
  (m_scope m = None ∨ m_scope m = scope)
  ∧ Forall (λ r, source_id r = s ∧ ∀ p, scope = Some p → project r = p) l
  ∧ committed db s m l k db'.
Proof.
  intros Hinv Hl H. unfold append_memory_mutations_in_transaction in H.
  apply bind_ok in H as (? & _ & (us & Hrec%mapM_res_ok & ([db1 m'] & Hen%ensure_ok & H)%bind_ok)%bind_ok).
  destruct Hen as (-> & -> & Hsc). intros m. fold m in H.
  apply bind_ok in H as ([[db2 e] i] & Ha & (? & He%require_ok%Z.leb_le & [= <- <-])%bind_ok).
  destruct (cursor_or_inv db s (MkMeta 1 1 scope) Hinv) as (Hi & Hn & Hep); [done..|].
  assert (Forall (λ r, source_id r = s ∧ ∀ p, scope = Some p → project r = p) l) as Hown.
  { clear -Hrec. induction Hrec as [|r u l us Hu _ IH]; constructor; [|done].
    apply bind_ok in Hu as (? & Hs%require_ok%String.eqb_eq & Hp%require_ok). split; [done|].
    intros p ->. by apply String.eqb_eq. }
  split_and!; [done|done|].
  eapply (append_records_grows iso s) in Ha as [Hg Hc]; [| |apply Hinv|done].
  - exists db2. assert (m_next m + i = e) as -> by lia. by split_and!.
  - unfold own_records. apply Forall_and. split; [done|]. eapply Forall_impl; [exact Hown|]. by intros r [? _].
Qed.

(** The cursor a batch meets: its own epoch replaces the persisted one. *)
Definition batch_cursor (db : Database) (b : MemoryReplicationBatch) (scope : option string) : Meta :=
  set_epoch (cursor_or db (b_source_id b) (MkMeta (b_source_epoch b) 1 scope)) (b_source_epoch b).

Lemma wf_batch_records b :
  wf_batch iso b →
  Forall (λ r, wf_mutation iso r ∧ source_id r = b_source_id b ∧ source_epoch r = b_source_epoch b
               ∧ after_sequence b < sequence r <= next_sequence b) (records b)
  ∧ 1 <= b_source_epoch b <= max_i64 ∧ 0 <= after_sequence b
  ∧ next_sequence b = List.last (sequence <$> records b) (after_sequence b)
  ∧ StronglySorted Z.lt (sequence <$> records b) ∧ zlen (records b) <= _MAX_RECORDS.
Proof.
  intros [Hl Hb]. unfold Batch_init in Hb.
  apply bind_ok in Hb as (? & Hs & (? & He & (? & Ha & (? & Hn & (? & Hc & Hb)%bind_ok)%bind_ok)%bind_ok)%bind_ok).
  apply text_matching_ok in Hs as [[= <-] _]. apply int_within_ok in He as [[= <-] He], Ha as [[= <-] Ha].
  apply require_ok, Z.leb_le in Hn. apply bind_ok in Hb as (? & Hnext & (? & Heq%require_ok%Z.eqb_eq & _)%bind_ok).
  apply int_within_ok in Hnext as [[= <-] _]. apply check_records_ok in Hc as (Hf & Hlast & Hsort).
  split_and!; try done; [|lia|lia|lia|congruence]. apply Forall_and. split; [done|]. by rewrite Heq.
Qed.

Lemma apply_ok db b scope db' k :
  journal_inv iso db → wf_batch iso b →
  apply_memory_replication_batch_in_transaction iso now db b scope = Ok (db', k) →
  let m := batch_cursor db b scope in
  m_scope m = scope ∧ (∀ m0, meta db !! b_source_id b = Some m0 → m_epoch m0 <= b_source_epoch b)
  ∧ Forall (λ r, ∀ p, scope = Some p → project r = p) (records b)
  ∧ committed db (b_source_id b) m (records b) k db'.
Proof.
  intros Hinv Hb H. destruct (wf_batch_records b Hb) as (Hrec & Hep & _).
  unfold apply_memory_replication_batch_in_transaction in H. apply bind_ok in H as (? & _ & (? & Hsc & H)%bind_ok).
  assert (Forall (λ r, ∀ p, scope = Some p → project r = p) (records b)) as Hown.
  { apply Forall_forall. intros r Hr p ->. apply bind_ok in Hsc as (? & _ & Hf%require_ok). rewrite forallb_forall in Hf.
    by apply String.eqb_eq, Hf, list_elem_of_In. }
  intros m. apply bind_ok in H as ([db1 m'] & Hm & H).
  assert (m' = m ∧ db1 = set_meta db (b_source_id b) m ∧ m_scope m = scope
          ∧ ∀ m0, meta db !! b_source_id b = Some m0 → m_epoch m0 <= b_source_epoch b) as (-> & -> & Hms & Hstale).
  { unfold m, batch_cursor, cursor_or. destruct (meta db !! b_source_id b) as [m0|]; simpl.
    - apply bind_ok in Hm as (? & Hs%require_ok%bool_decide_eq_true & (? & He%require_ok & [= <- <-])%bind_ok).
      split_and!; [done..|]. intros ? [= <-]. apply negb_true_iff, Z.ltb_ge in He. done.
    - injection Hm as <- <-. by split_and!. }
  apply bind_ok in H as ([[db2 e] i] & Ha & (? & He%require_ok%Z.leb_le & [= <- <-])%bind_ok).
  assert (src_inv (log db) (b_source_id b) (m_epoch m) (m_next m)) as Hi.
  { destruct (cursor_or_inv db (b_source_id b) (MkMeta (b_source_epoch b) 1 scope) Hinv) as (Hi & _); [done..|].
    eapply src_inv_epoch; [exact Hi|]. unfold m, batch_cursor, cursor_or. simpl.
    destruct (meta db !! b_source_id b) as [m0|]; simpl; [by apply Hstale|lia]. }
  split_and!; [done..|]. eapply (apply_records_grows iso (b_source_id b)) in Ha as [Hg Hc]; [| |apply Hinv|done].
  - exists db2. assert (m_next m + i = e) as -> by lia. by split_and!.
  - eapply Forall_impl; [exact Hrec|]. by intros r (? & ? & _).
Qed.

(** [prune_before] deletes a selection of rows and keeps every cursor. *)
Definition pruned_rows (db : Database) (s : string) (bound : Z) (retain : bool) (limit : Z) : list Row :=
  take (Z.to_nat limit) (filter (λ r, prunable retain (rows_of db s) bound r = true) (rows_of db s)).

Lemma prune_ok j db bound retain limit db' k :
  prune_before j db bound retain limit = Ok (db', k) →
  meta db' = meta db
  ∧ log db' = foldr (λ r m, delete (j_source j, sequence (row_mutation r)) m) (log db)
                (pruned_rows db (j_source j) bound retain limit).
Proof. unfold prune_before. intros (? & _ & (? & _ & (? & _ & [= <- _])%bind_ok)%bind_ok)%bind_ok. done. Qed.

Lemma deleted_lookup (L : gmap (string * Z) Row) s (rows : list Row) k r :
  foldr (λ r m, delete (s, sequence (row_mutation r)) m) L rows !! k = Some r ↔
  L !! k = Some r ∧ ∀ r', r' ∈ rows → k ≠ (s, sequence (row_mutation r')).
Proof.
  induction rows as [|r0 rows IH]; simpl; [set_solver|]. rewrite lookup_delete_Some, IH. split.
  - intros (Hne & HL & Hall). split; [done|]. intros r' [->|Hr']%elem_of_cons; [congruence|by apply Hall].
  - intros [HL Hall]. split_and!; [|done|]; [|set_solver]. intros E. by apply (Hall r0); [left|].
Qed.

Lemma prune_lookup j db bound retain limit db' k :
  rows_ok iso (log db) → prune_before j db bound retain limit = Ok (db', k) →
  log db' ⊆ log db ∧ (∀ s n, s ≠ j_source j → log db' !! (s, n) = log db !! (s, n))
  ∧ ∀ r, r ∈ rows_of db' (j_source j) ↔
         r ∈ rows_of db (j_source j) ∧ r ∉ pruned_rows db (j_source j) bound retain limit.
Proof.
  intros Hrows [_ Hlog]%prune_ok.
  assert (log db' ⊆ log db) as Hsub.
  { apply map_subseteq_spec. intros key r. rewrite Hlog, deleted_lookup. tauto. }
  assert (rows_ok iso (log db')) as Hrows'. { intros s n r H. by eapply Hrows, lookup_weaken. }
  assert (∀ r, r ∈ pruned_rows db (j_source j) bound retain limit → r ∈ rows_of db (j_source j)) as Hin.
  { intros r Hr. unfold pruned_rows in Hr. apply elem_of_take in Hr as (i & Hr & _). apply list_elem_of_lookup_2 in Hr.
    by apply list_elem_of_filter in Hr as [_ ?]. }
  split_and!; [done| |].
  - intros s n Hs. apply option_eq. intros r. rewrite Hlog, deleted_lookup. split; [tauto|]. intros H. split; [done|]. congruence.
  - intros r. rewrite !(rows_of_elem iso) by done. rewrite Hlog, deleted_lookup. split.
    + intros [H Hne]. split; [done|]. intros Hr. by apply (Hne r).
    + intros [H Hr]. split; [done|]. intros r' Hr' [= E]. apply Hr.
      rewrite (rows_of_sequence_inj iso db Hrows (j_source j) r r'); auto. by apply (rows_of_elem iso).
Qed.

(** One operation of a journal, on any source of the database, that did not raise. *)
Inductive journal_step (db db' : Database) : Prop :=
  | step_open s scope j : Journal_init iso now db s scope = Ok (db', j) → journal_step db db'
  | step_append j l k : Forall (wf_mutation iso) l → append iso now j db l = Ok (db', k) → journal_step db db'
  | step_apply j b k : wf_batch iso b → apply iso now j db b = Ok (db', k) → journal_step db db'
  | step_advance j e : advance_epoch j db e = Ok db' → journal_step db db'
  | step_prune j bound retain limit k : prune_before j db bound retain limit = Ok (db', k) → journal_step db db'.

Lemma memory_step_inv db db' : journal_step db db' → journal_inv iso db → journal_inv iso db'.
Proof.
  intros Hstep Hinv. destruct Hstep as [s scope j H|j l k Hl H|j b k Hb H|j e H|j bound retain limit k H].
  - unfold Journal_init in H. apply bind_ok in H as (? & _ & ([? m] & (-> & -> & _)%ensure_ok & [= <- _])%bind_ok).
    destruct (cursor_or_inv db s (MkMeta 1 1 scope) Hinv) as (? & ? & ?); [done..|]. by apply set_meta_inv.
  - apply append_ok in H as (_ & _ & Hc); [|done..]. eapply committed_inv; [done| |done].
    by apply (cursor_or_inv db (j_source j) (MkMeta 1 1 (j_scope j)) Hinv).
  - apply apply_ok in H as (_ & _ & _ & Hc); [|done..]. eapply committed_inv; [done| |done].
    simpl. by destruct (wf_batch_records b Hb) as (_ & [_ ?] & _).
  - unfold advance_epoch, _meta in H. apply bind_ok in H as (? & H1%require_ok%Z.leb_le & H).
    destruct (meta db !! j_source j) as [m|] eqn:E; [|done]. simpl in H.
    apply bind_ok in H as (? & H2%require_ok%Z.ltb_lt & (? & [H3%bool_decide_eq_true H4%Z.eqb_eq]%require_ok%andb_true_iff & H)%bind_ok).
    apply bind_ok in H as (? & H5%require_ok%Z.leb_le & [= <-]).
    pose proof Hinv as [Hr Hi]. specialize (Hi (j_source j)). unfold cursor_inv in Hi. rewrite E in Hi.
    apply set_meta_inv; simpl; [done| |tauto|done]. eapply src_inv_epoch; [apply Hi|lia].
  - destruct Hinv as [Hr Hi]. pose proof (prune_ok _ _ _ _ _ _ _ H) as [Hm _].
    destruct (prune_lookup _ _ _ _ _ _ _ Hr H) as (Hsub & _). split.
    + intros s n r Hk. by eapply Hr, lookup_weaken.
    + intros s. specialize (Hi s). unfold cursor_inv in *. rewrite Hm. destruct (meta db !! s).
      * destruct Hi as [Hi ?]. split; [by eapply src_inv_subset|done].
      * intros n. specialize (Hi n). destruct (log db' !! (s, n)) eqn:E; [|done].
        by apply (lookup_weaken _ _ _ _ E) in Hsub; simplify_eq.
Qed.

Lemma memory_reachable_inv db : rtc journal_step empty_db db → journal_inv iso db.
Proof.
  intros H. pose proof empty_journal_inv as Hinv. revert Hinv. induction H; [done|]. eauto using memory_step_inv.
Qed.
End operations.

(** ** A journal of four mutations *)

Definition demo_iso : iso_reader := λ s, Some (true, s).
Definition demo_now : string := "2026-09-01T00:00:00+00:00".
Definition demo_journal : Journal := MkJournal "cluster-a" (Some "global").
Definition demo_mutation (n : Z) (entity : string) (v : Z) (op : string) (payload : list (string * json)) : MemoryMutation :=
  MkMutation "cluster-a" 1 n "fact" entity v op "global" payload demo_now.
Definition demo_records : list MemoryMutation :=
  [demo_mutation 1 "f1" 1 "upsert" [("text", JStr "a"); ("k", JInt 1)]; demo_mutation 2 "f2" 1 "upsert" [("text", JStr "b")];
   demo_mutation 3 "f1" 2 "upsert" [("text", JStr "c")]; demo_mutation 4 "f2" 2 "delete" []].

Definition db_of {A} (m : res (Database * A)) : Database := match m with Ok (db, _) => db | Err _ => empty_db end.
Definition demo_opened : Database := db_of (Journal_init demo_iso demo_now empty_db "cluster-a" (Some "global")).
Definition demo_db : Database := db_of (append demo_iso demo_now demo_journal demo_opened demo_records).

Lemma demo_opened_eq : Journal_init demo_iso demo_now empty_db "cluster-a" (Some "global") = Ok (demo_opened, demo_journal).
Proof. vm_compute. reflexivity. Qed.

Lemma demo_db_eq : append demo_iso demo_now demo_journal demo_opened demo_records = Ok (demo_db, 4).
Proof. vm_compute. reflexivity. Qed.

Lemma demo_records_wf : Forall (wf_mutation demo_iso) demo_records.
Proof. repeat (constructor; [vm_compute; reflexivity|]). constructor. Qed.

Lemma demo_reachable : rtc (journal_step demo_iso demo_now) empty_db demo_db.
Proof.
  eapply rtc_l; [by eapply step_open, demo_opened_eq|]. apply rtc_once.
  eapply step_append; [apply demo_records_wf|apply demo_db_eq].
Qed.

(** The operations on it. *)
Definition res_map {A B} (f : A → B) (m : res A) : res B := match m with Ok a => Ok (f a) | Err e => Err e end.
Definition versions (l : list MemoryMutation) : list (string * Z) := List.map (λ m, (entity_id m, version m)) l.

Example demo_current :
  res_map versions (current_records demo_iso demo_now demo_journal demo_db None 10) = Ok [("f1", 2)]
  ∧ res_map versions (tombstones demo_iso demo_now demo_journal demo_db None 10) = Ok [("f2", 2)].
Proof. split; vm_compute; reflexivity. Qed.

Example demo_prune :
  res_map snd (prune_before demo_journal demo_db 4 true 10) = Ok 2
  ∧ res_map snd (prune_before demo_journal demo_db 5 false 10) = Ok 3
  ∧ res_map (λ b, (List.map sequence (records b), has_more b)) (export demo_iso demo_now demo_journal demo_db 1 2 None)
    = Ok ([2; 3], true).
Proof. split_and!; vm_compute; reflexivity. Qed.

(** A record whose sequence skips the cursor, and one whose version does not advance. *)
Example demo_refused :
  append demo_iso demo_now demo_journal demo_db [demo_mutation 6 "f3" 1 "delete" []]
  = throw MemoryReplicationError "journal sequence is not contiguous"
  ∧ append demo_iso demo_now demo_journal demo_db [demo_mutation 5 "f2" 2 "delete" []]
    = throw MemoryReplicationError "entity version must advance"
  ∧ append demo_iso demo_now demo_journal demo_db (take 2 demo_records) = Ok (demo_db, 0).
Proof. split_and!; vm_compute; reflexivity. Qed.
