(* ===== verification/MemoryState.v ===== *)
(** What a journal says the memory is: [current_records] and [tombstones] against the state the
    log replays to, and what [prune_before] may forget. *)
From S2P Require Import Prelude PyText CanonicalJson MemoryReplication MemoryJournal.

Local Open Scope Z_scope.

Definition entity := (string * string * string)%type.

(** The reference: the mutations applied in sequence order to a map of entities. *)
Definition apply_mutation (st : gmap entity MemoryMutation) (m : MemoryMutation) : gmap entity MemoryMutation :=
  if is_tombstone m then delete (entity_key m) st else <[entity_key m := m]> st.
Definition replay (l : list MemoryMutation) : gmap entity MemoryMutation := foldl apply_mutation ∅ l.

Definition scoped_rows (db : Database) (s : string) (scope : option string) : list Row :=
  filter (λ r, in_scope scope r = true) (rows_of db s).

Definition by_key (a b : MemoryMutation) : bool := key_le (entity_key a) (entity_key b).

(** The live records of the replayed state in the order of the query. *)
Definition replayed_records (db : Database) (s : string) (scope : option string) : list MemoryMutation :=
  sort_by by_key (map_to_list (replay (row_mutation <$> scoped_rows db s scope))).*2.

(** ** Orders *)

Section lex.
Context {A : Type} (le : A → A → bool) `{!SortKey le} (Hanti : ∀ x y, le x y = true → le y x = true → x = y).

Lemma text_leb_antisym a b : String.leb a b = true → String.leb b a = true → a = b.
Proof. apply String.leb_antisym. Qed.

Lemma text_lex_antisym a b : text_lex le a b = true → text_lex le b a = true → a = b.
Proof.
  destruct a as [a x], b as [b y]. unfold text_lex; simpl. rewrite (String.eqb_sym b a).
  destruct (String.eqb_spec a b) as [->|Hne]; intros H1 H2; [f_equal; by apply Hanti|].
  by destruct Hne; apply text_leb_antisym.
Qed.

Lemma text_lex_sort_key : SortKey (text_lex le).
Proof.
  unfold text_lex. split.
  - intros [a x] [b y]. simpl. rewrite (String.eqb_sym b a). destruct (String.eqb a b); apply sort_total.
  - intros [a x] [b y] [c z]. simpl.
    destruct (String.eqb_spec a b) as [->|Hab], (String.eqb_spec b c) as [->|Hbc]; rewrite ?String.eqb_refl.
    + apply sort_trans.
    + done.
    + intros H _. by destruct (String.eqb_spec a c).
    + intros H1 H2. destruct (String.eqb_spec a c) as [->|]; [by destruct Hab; apply text_leb_antisym|].
      by apply (sort_trans (le := String.leb) a b c).
Qed.
End lex.

#[export] Instance key_sort_key : SortKey key_le.
Proof.
  assert (SortKey (text_lex (text_lex String.leb))) as [Ht Htr] by apply text_lex_sort_key, text_lex_sort_key, _.
  unfold key_le. split; eauto.
Qed.

Lemma key_le_antisym a b : key_le a b = true → key_le b a = true → a = b.
Proof.
  unfold key_le. intros H1 H2. destruct a as [[p k] i], b as [[p' k'] i']. simpl in *.
  assert ((p, (k, i)) = (p', (k', i'))) as [=]; [|congruence].
  apply (text_lex_antisym (text_lex String.leb)); [|done..]. by apply text_lex_antisym, text_leb_antisym.
Qed.

(** Sorting by a key that tells the elements apart does not depend on the order given. *)
Lemma sort_by_unique {A B} (le : B → B → bool) `{!SortKey le} (f : A → B) (l k : list A) :
  (∀ x y, le x y = true → le y x = true → x = y) →
  (∀ x y, x ∈ l → y ∈ l → f x = f y → x = y) →
  l ≡ₚ k → sort_by (λ a b, le (f a) (f b)) l = sort_by (λ a b, le (f a) (f b)) k.
Proof.
  intros Hanti Hinj Hp.
  assert (SortKey (λ a b, le (f a) (f b))) as Hk.
  { split; [intros; apply sort_total|]. intros x y z. apply sort_trans. }
  set (l1 := sort_by _ l). set (l2 := sort_by _ k).
  assert (StronglySorted (λ a b, le (f a) (f b) = true) l1) as S1 by apply sort_by_sorted, _.
  assert (StronglySorted (λ a b, le (f a) (f b) = true) l2) as S2 by apply sort_by_sorted, _.
  assert (l1 ≡ₚ l2) as H12. { unfold l1, l2. by rewrite !sort_by_Permutation. }
  assert (∀ x, x ∈ l1 → x ∈ l) as Hin. { intros x. unfold l1. by rewrite sort_by_Permutation. }
  apply StronglySorted_unique_strong with (λ a b, le (f a) (f b) = true); [|done..].
  intros x y Hx Hy Hxy Hyx. apply Hinj; [by apply Hin|apply Hin; by rewrite H12|by apply Hanti].
Qed.

(** ** Replaying a log *)

Lemma replay_snoc l m : replay (l ++ [m]) = apply_mutation (replay l) m.
Proof. unfold replay. by rewrite foldl_app. Qed.

(** An entity is live with [m] if [m] is an upsert and the last mutation of it. *)
Lemma replay_lookup l ek m :
  replay l !! ek = Some m ↔
  ∃ l1 l2, l = l1 ++ m :: l2 ∧ entity_key m = ek ∧ is_tombstone m = false ∧ Forall (λ m', entity_key m' ≠ ek) l2.
Proof.
  induction l as [|m' l IH] using rev_ind.
  - split; [done|]. intros (l1 & ? & E & _). by destruct l1.
  - rewrite replay_snoc. unfold apply_mutation.
    assert (∀ l1 l2, l ++ [m'] = l1 ++ m :: l2 → l2 = [] ∧ m' = m ∧ l = l1 ∨ ∃ l3, l2 = l3 ++ [m'] ∧ l = l1 ++ m :: l3) as Hsplit.
    { intros l1 l2. destruct l2 as [|x l2 _] using rev_ind; intros E.
      - apply app_inj_tail in E as [-> ->]. by left.
      - right. exists l2. rewrite app_comm_cons, app_assoc in E. apply app_inj_tail in E as [-> ->]. done. }
    destruct (decide (entity_key m' = ek)) as [<-|Hne].
    + destruct (is_tombstone m') eqn:Et.
      * rewrite lookup_delete_eq. split; [done|]. intros (l1 & l2 & E & Hk & Ht & Hl2).
        destruct (Hsplit _ _ E) as [(_ & -> & _)|(l3 & -> & _)]; [congruence|].
        apply Forall_app in Hl2 as [_ Hl2]. by rewrite Forall_singleton in Hl2.
      * rewrite lookup_insert_eq. split.
        -- intros [= <-]. exists l, []. by split_and!.
        -- intros (l1 & l2 & E & Hk & Ht & Hl2). destruct (Hsplit _ _ E) as [(_ & -> & _)|(l3 & -> & _)]; [done|].
           apply Forall_app in Hl2 as [_ Hl2]. by rewrite Forall_singleton in Hl2.
    + assert ((if is_tombstone m' then delete (entity_key m') (replay l) else <[entity_key m' := m']> (replay l)) !! ek
              = replay l !! ek) as ->.
      { destruct (is_tombstone m'); [by rewrite lookup_delete_ne|by rewrite lookup_insert_ne]. }
      rewrite IH. split.
      * intros (l1 & l2 & -> & Hk & Ht & Hl2). exists l1, (l2 ++ [m']). rewrite app_comm_cons, app_assoc.
        split_and!; [done..|]. apply Forall_app. split; [done|by apply Forall_singleton].
      * intros (l1 & l2 & E & Hk & Ht & Hl2). destruct (Hsplit _ _ E) as [(_ & -> & _)|(l3 & -> & ->)]; [done|].
        apply Forall_app in Hl2 as [Hl2 _]. by exists l1, l3.
Qed.

Lemma replay_values_keys l : (λ m, entity_key m) <$> (map_to_list (replay l)).*2 = (map_to_list (replay l)).*1.
Proof.
  rewrite <-list_fmap_compose. apply list_fmap_ext. intros i [ek m] H%list_elem_of_lookup_2%elem_of_map_to_list. simpl.
  by apply replay_lookup in H as (l1 & l2 & _ & -> & _).
Qed.

Lemma replay_values_NoDup l : NoDup (map_to_list (replay l)).*2.
Proof. apply (NoDup_fmap_1 entity_key). rewrite replay_values_keys. apply NoDup_fst_map_to_list. Qed.

Lemma replay_values_elem l m : m ∈ (map_to_list (replay l)).*2 ↔ replay l !! entity_key m = Some m.
Proof.
  rewrite list_elem_of_fmap. split.
  - intros ([ek m'] & -> & H%elem_of_map_to_list). simpl.
    pose proof H as (l1 & l2 & _ & -> & _)%replay_lookup. done.
  - intros H. exists (entity_key m, m). split; [done|]. by apply elem_of_map_to_list.
Qed.

(** ** The rows of one scope *)

Lemma sorted_filter {A} (R : A → A → Prop) (P : A → Prop) `{!∀ x, Decision (P x)} l :
  StronglySorted R l → StronglySorted R (filter P l).
Proof.
  induction 1 as [|x l Hl IH Hx]; [constructor|]. rewrite filter_cons. destruct (decide (P x)); [|done].
  constructor; [done|]. rewrite Forall_forall in Hx |- *. intros y [_ Hy]%list_elem_of_filter. by apply Hx.
Qed.

Section scoped.
Context (iso : iso_reader) (db : Database) (Hinv : journal_inv iso db) (s : string) (scope : option string).

Let rows := scoped_rows db s scope.

Lemma scoped_elem r : r ∈ rows ↔ in_scope scope r = true ∧ log db !! (s, sequence (row_mutation r)) = Some r.
Proof. unfold rows, scoped_rows. rewrite list_elem_of_filter, (rows_of_elem iso); [done|apply Hinv]. Qed.

Lemma scoped_sorted : StronglySorted (λ a b, sequence (row_mutation a) < sequence (row_mutation b)) rows.
Proof. apply sorted_filter, (rows_of_sorted iso), Hinv. Qed.

Lemma scoped_versions r r' :
  r ∈ rows → r' ∈ rows → row_key r = row_key r' →
  sequence (row_mutation r) < sequence (row_mutation r') ↔ row_version r < row_version r'.
Proof.
  rewrite !scoped_elem. intros [_ H] [_ H'] Hk. destruct Hinv as [Hr Hi]. specialize (Hi s). unfold cursor_inv in Hi.
  destruct (meta db !! s); [|by rewrite Hi in H]. destruct Hi as [Hi _].
  destruct (Ztrichotomy (sequence (row_mutation r)) (sequence (row_mutation r'))) as [Hlt|[E|Hgt]].
  - pose proof (si_versions _ _ _ _ Hi _ _ _ _ H H' Hk Hlt). lia.
  - rewrite E in H. assert (r = r') as -> by congruence. lia.
  - pose proof (si_versions _ _ _ _ Hi _ _ _ _ H' H (eq_sym Hk) ltac:(lia)). lia.
Qed.

(** The row with the highest version is the last mutation of its entity. *)
Lemma is_first_last r :
  r ∈ rows →
  is_first rows r = true ↔
  ∀ r', r' ∈ rows → row_key r' = row_key r → sequence (row_mutation r') <= sequence (row_mutation r).
Proof.
  intros Hr. unfold is_first. rewrite forallb_forall. setoid_rewrite <-list_elem_of_In. setoid_rewrite entity_rows_elem.
  split.
  - intros H r' Hr' Hk. specialize (H r' (conj Hk Hr')). pose proof (scoped_versions r r' Hr Hr' (eq_sym Hk)) as Hv.
    unfold rank_le, row_le in H. to_prop. lia.
  - intros H r' [Hk Hr']. specialize (H r' Hr' Hk). pose proof (scoped_versions r r' Hr Hr' (eq_sym Hk)) as Hv.
    pose proof (scoped_versions r' r Hr' Hr Hk) as Hv'. unfold rank_le, row_le.
    apply orb_true_iff. rewrite andb_true_iff, Z.ltb_lt, Z.eqb_eq, Z.leb_le. lia.
Qed.

Definition latest_rows (l : list Row) (tombstones : bool) : list Row :=
  filter (λ r, operation (row_mutation r) = if tombstones then "delete" else "upsert")
    (filter (λ r, is_first l r = true) l).

Lemma scoped_row_ok r : r ∈ rows → wf_mutation iso (row_mutation r).
Proof. rewrite scoped_elem. intros [_ H]. by apply (proj1 Hinv) in H as (_ & _ & ? & _). Qed.

Lemma rows_to_mutations l : l ⊆ rows → mapM_res (_row_to_mutation iso) l = Ok (row_mutation <$> l).
Proof.
  intros Hl. apply mapM_res_ok, Forall2_fmap_r, Forall_Forall2_diag, Forall_forall. intros r Hr.
  by apply scoped_row_ok, Hl.
Qed.

Lemma latest_rows_sub tomb : latest_rows rows tomb ⊆ rows.
Proof. unfold latest_rows. intros r. rewrite !list_elem_of_filter. tauto. Qed.

(** The query returns the latest rows in key order. *)
Lemma latest_query now j project tomb limit :
  j_source j = s → _scope iso now j project = Ok scope → 1 <= limit <= _MAX_EXPORT_ROWS →
  _latest iso now j db project tomb limit
  = Ok (take (Z.to_nat limit) (sort_by by_key (row_mutation <$> latest_rows rows tomb))).
Proof.
  intros Hj Hsc [H1%Z.leb_le H2%Z.leb_le]. unfold _latest. rewrite Hj, H1, H2. simpl. rewrite Hsc. simpl.
  fold (scoped_rows db s scope). fold rows. fold (latest_rows rows tomb).
  rewrite rows_to_mutations.
  - f_equal. rewrite fmap_take. f_equal. by apply sort_by_map.
  - intros r Hr%list_elem_of_In. apply (latest_rows_sub tomb).
    assert (r ∈ sort_by (λ a b, key_le (row_key a) (row_key b)) (latest_rows rows tomb)) as Hr'; [|by rewrite sort_by_Permutation in Hr'].
    apply list_elem_of_In in Hr. apply elem_of_take in Hr as (i & Hi & _). by eapply list_elem_of_lookup_2.
Qed.

Lemma latest_rows_elem tomb r :
  r ∈ latest_rows rows tomb ↔
  r ∈ rows ∧ operation (row_mutation r) = (if tomb then "delete" else "upsert")
  ∧ ∀ r', r' ∈ rows → row_key r' = row_key r → sequence (row_mutation r') <= sequence (row_mutation r).
Proof.
  unfold latest_rows. rewrite !list_elem_of_filter. split.
  - intros (Ho & Hf & Hr). split_and!; [done..|]. by apply is_first_last.
  - intros (Hr & Ho & Hl). split_and!; [done| |done]. by apply is_first_last.
Qed.

Lemma latest_rows_key_inj tomb r r' :
  r ∈ latest_rows rows tomb → r' ∈ latest_rows rows tomb → row_key r = row_key r' → r = r'.
Proof.
  rewrite !latest_rows_elem. intros (Hr & _ & Hl) (Hr' & _ & Hl') Hk.
  specialize (Hl _ Hr' (eq_sym Hk)). specialize (Hl' _ Hr Hk). rewrite scoped_elem in Hr, Hr'.
  destruct Hr as [_ Hr], Hr' as [_ Hr']. assert (sequence (row_mutation r) = sequence (row_mutation r')) as E by lia.
  rewrite E in Hr. congruence.
Qed.

Lemma latest_rows_NoDup tomb : NoDup (row_mutation <$> latest_rows rows tomb).
Proof.
  apply NoDup_fmap_2_strong.
  - intros r r' Hr Hr' E. eapply latest_rows_key_inj; [done..|]. unfold row_key. by rewrite E.
  - unfold latest_rows, rows, scoped_rows. do 3 apply NoDup_filter. by apply (rows_of_NoDup iso), Hinv.
Qed.

(** The live rows are the replayed state. *)
Lemma latest_rows_replay :
  row_mutation <$> latest_rows rows false ≡ₚ (map_to_list (replay (row_mutation <$> rows))).*2.
Proof.
  apply NoDup_Permutation; [apply latest_rows_NoDup|apply replay_values_NoDup|]. intros m.
  rewrite replay_values_elem, replay_lookup, list_elem_of_fmap. split.
  - intros (r & -> & (Hr & Ho & Hl)%latest_rows_elem). apply list_elem_of_split in Hr as (l1 & l2 & E).
    exists (row_mutation <$> l1), (row_mutation <$> l2). rewrite E, fmap_app, fmap_cons. split_and!; [done..| |].
    + unfold is_tombstone. by rewrite Ho.
    + pose proof scoped_sorted as Hs. rewrite E in Hs. apply StronglySorted_app in Hs as (_ & _ & Hs).
      apply StronglySorted_inv in Hs as [_ Hs]. apply Forall_fmap, Forall_forall. intros r' Hr' Hk. simpl in Hk.
      rewrite Forall_forall in Hs. specialize (Hs _ Hr'). assert (r' ∈ rows) as Hin by (rewrite E; set_solver).
      specialize (Hl r' Hin Hk). lia.
  - intros (l1 & l2 & E & _ & Ht & Hl2). apply fmap_app_inv in E as (k1 & k2' & -> & E2 & E).
    destruct k2' as [|r k2]; [done|]. rewrite fmap_cons in E2. injection E2 as -> ->. exists r. split; [done|].
    assert (r ∈ rows) as Hr by (rewrite E; set_solver). apply latest_rows_elem. split_and!; [done| |].
    + unfold is_tombstone in Ht. apply String.eqb_neq in Ht. by destruct (wf_operation iso _ (scoped_row_ok r Hr)).
    + intros r' Hr' Hk. rewrite E in Hr'. pose proof scoped_sorted as Hs. rewrite E in Hs.
      apply elem_of_app in Hr' as [Hr'|[->|Hr']%elem_of_cons]; [|done|].
      * apply StronglySorted_app in Hs as (Hs & _ & _). specialize (Hs r' r Hr' ltac:(left)). lia.
      * rewrite Forall_fmap, Forall_forall in Hl2. by destruct (Hl2 r' Hr').
Qed.
End scoped.

(** ** Pruning *)

Section prune.
Context (iso : iso_reader) (now : string) (db : Database) (Hinv : journal_inv iso db).

(** [r] is the last mutation of its entity. *)
Definition is_last (s : string) (r : Row) : Prop :=
  r ∈ rows_of db s ∧
  ∀ r', r' ∈ rows_of db s → row_key r' = row_key r → sequence (row_mutation r') <= sequence (row_mutation r).

Lemma scoped_None s : scoped_rows db s None = rows_of db s.
Proof. unfold scoped_rows. induction (rows_of db s) as [|r l IH]; [done|]. by rewrite filter_cons_True, IH by done. Qed.

Lemma rows_of_versions s r r' :
  r ∈ rows_of db s → r' ∈ rows_of db s → row_key r = row_key r' →
  sequence (row_mutation r) < sequence (row_mutation r') ↔ row_version r < row_version r'.
Proof. rewrite <-scoped_None. by apply scoped_versions with iso. Qed.

Lemma max_version_last s r :
  r ∈ rows_of db s → max_version (entity_rows (row_key r) (rows_of db s)) = Some (row_version r) ↔ is_last s r.
Proof.
  intros Hr. split.
  - intros [Hle _]%max_version_Some. split; [done|]. intros r' Hr' Hk.
    assert (row_version r' <= row_version r) as Hv by by apply Hle, entity_rows_elem.
    pose proof (rows_of_versions s r r' Hr Hr' (eq_sym Hk)). lia.
  - intros [_ Hl]. destruct (max_version _) as [v|] eqn:E.
    + apply max_version_Some in E as [Hle (r' & [Hk Hr']%entity_rows_elem & <-)]. f_equal.
      assert (row_version r <= row_version r') by by apply Hle, entity_rows_elem.
      pose proof (rows_of_versions s r r' Hr Hr' (eq_sym Hk)). specialize (Hl r' Hr' Hk). lia.
    + apply max_version_None in E. assert (r ∈ entity_rows (row_key r) (rows_of db s)) as H by by apply entity_rows_elem.
      rewrite E in H. by apply elem_of_nil in H.
Qed.

Lemma rows_of_version_inj s r r' :
  r ∈ rows_of db s → r' ∈ rows_of db s → row_key r = row_key r' → row_version r = row_version r' → r = r'.
Proof.
  intros Hr Hr' Hk Hv. apply (rows_of_sequence_inj iso db (proj1 Hinv) s); [done..|].
  pose proof (rows_of_versions s r r' Hr Hr' Hk). pose proof (rows_of_versions s r' r Hr' Hr (eq_sym Hk)). lia.
Qed.

(** The rows pruning protects: the last of each entity, and a tombstone only on request. *)
Lemma keeps_spec s retain r :
  r ∈ rows_of db s →
  keeps retain (rows_of db s) r = true ↔ is_last s r ∧ (operation (row_mutation r) = "delete" → retain = true).
Proof.
  intros Hr. unfold keeps. rewrite existsb_exists. setoid_rewrite <-list_elem_of_In.
  assert (∀ v, v = row_version r → ∀ r0, head (filter (λ r', row_version r' = v) (entity_rows (row_key r) (rows_of db s))) = Some r0 → r0 = r)
    as Hhead.
  { intros v -> r0 H0. assert (r0 ∈ filter (λ r', row_version r' = row_version r) (entity_rows (row_key r) (rows_of db s))) as Hin
      by (destruct (filter _ _); [done|]; injection H0 as ->; left).
    apply list_elem_of_filter in Hin as [Hv [Hk Hin]%entity_rows_elem]. by apply (rows_of_version_inj s). }
  split.
  - intros ([[ek v] op] & Hp & Hc). apply list_elem_of_omap in Hp as (ek' & _ & Hp).
    apply bind_Some in Hp as (v' & Hmax & (r0 & H0 & [= <- <- <-])%bind_Some).
    apply andb_true_iff in Hc as [[Hop Hk%bool_decide_eq_true]%andb_true_iff Hv%Z.eqb_eq]. subst ek' v'.
    apply max_version_last in Hmax; [|done]. split; [done|]. rewrite (Hhead _ eq_refl _ H0) in Hop. intros Ho.
    rewrite Ho in Hop. by destruct retain.
  - intros [Hl%max_version_last Ho]; [|done].
    destruct (head (filter (λ r', row_version r' = row_version r) (entity_rows (row_key r) (rows_of db s)))) as [r0|] eqn:H0.
    + exists (row_key r, row_version r, operation (row_mutation r0)). split.
      * apply list_elem_of_omap. exists (row_key r). split.
        -- apply fromkeys_elem, list_elem_of_fmap. by exists r.
        -- rewrite Hl. simpl. by rewrite H0.
      * rewrite (Hhead _ eq_refl _ H0), bool_decide_eq_true_2, Z.eqb_refl, !andb_true_r by done.
        destruct (String.eqb_spec (operation (row_mutation r)) "delete"); [|done]. by rewrite Ho.
    + assert (r ∈ filter (λ r', row_version r' = row_version r) (entity_rows (row_key r) (rows_of db s))) as Hin
        by by apply list_elem_of_filter; split; [|apply entity_rows_elem].
      by destruct (filter _ _); [apply elem_of_nil in Hin|].
Qed.

Lemma elem_of_take_sorted {A} (R : A → A → Prop) (l : list A) n x y :
  StronglySorted R l → (∀ a b, R a b → ¬ R b a) → x ∈ l → R x y → y ∈ take n l → x ∈ take n l.
Proof.
  intros Hs Has Hx Hxy Hy. rewrite <-(take_drop n l) in Hs, Hx. apply elem_of_app in Hx as [|Hx]; [done|].
  apply StronglySorted_app in Hs as [Hs _]. by destruct (Has x y Hxy); apply Hs.
Qed.

Context (j : Journal) (bound : Z) (retain : bool) (limit : Z) (db' : Database) (k : Z).
Context (Hprune : prune_before j db bound retain limit = Ok (db', k)).

Let s := j_source j.

Lemma pruned_elem r :
  r ∈ pruned_rows db s bound retain limit →
  r ∈ rows_of db s ∧ sequence (row_mutation r) < bound
  ∧ keeps retain (rows_of db s) r = false ∧ (retain = true → operation (row_mutation r) = "upsert").
Proof.
  unfold pruned_rows. intros (i & Hi & _)%elem_of_take. apply list_elem_of_lookup_2, list_elem_of_filter in Hi as [Hp Hr].
  split; [done|]. unfold prunable in Hp. apply andb_true_iff in Hp as [[H1 H2]%andb_true_iff H3]. to_prop.
  apply orb_true_iff in H3. split_and!; [done|done|]. intros ->. destruct H3 as [|H3]; [done|]. by apply String.eqb_eq.
Qed.

(** A row pruned takes the earlier rows of its entity along. *)
Lemma pruned_downward r r' :
  r ∈ pruned_rows db s bound retain limit → retain = false → r' ∈ rows_of db s → row_key r' = row_key r →
  sequence (row_mutation r') < sequence (row_mutation r) → r' ∈ pruned_rows db s bound retain limit.
Proof.
  intros Hr Hret Hr' Hk Hlt. pose proof (pruned_elem r Hr) as (Hin & Hb & _ & _). unfold pruned_rows in *.
  eapply elem_of_take_sorted; [|intros a b; apply Z.lt_asymm| |exact Hlt|exact Hr].
  - apply sorted_filter, (rows_of_sorted iso), Hinv.
  - apply list_elem_of_filter. split; [|done]. unfold prunable. subst retain. rewrite andb_true_r.
    apply andb_true_iff. split; [apply Z.ltb_lt; lia|]. apply negb_true_iff, not_true_iff_false.
    rewrite keeps_spec by done. intros [[_ Hl] _]. specialize (Hl r Hin (eq_sym Hk)). lia.
Qed.

Lemma prune_rows r : r ∈ rows_of db' s ↔ r ∈ rows_of db s ∧ r ∉ pruned_rows db s bound retain limit.
Proof. by apply (prune_lookup iso j db bound retain limit db' k (proj1 Hinv) Hprune). Qed.

Lemma last_exists r : r ∈ rows_of db s → ∃ r', is_last s r' ∧ row_key r' = row_key r.
Proof.
  intros Hr. destruct (max_version (entity_rows (row_key r) (rows_of db s))) as [v|] eqn:E.
  - pose proof E as [_ (r' & [Hk Hr']%entity_rows_elem & <-)]%max_version_Some. exists r'. split; [|done].
    apply max_version_last; [done|]. by rewrite Hk.
  - apply max_version_None in E. assert (r ∈ entity_rows (row_key r) (rows_of db s)) as H by by apply entity_rows_elem.
    rewrite E in H. by apply elem_of_nil in H.
Qed.

Definition last_with (tomb : bool) (d : Database) (r : Row) : Prop :=
  r ∈ rows_of d s ∧ operation (row_mutation r) = (if tomb then "delete" else "upsert")
  ∧ ∀ r', r' ∈ rows_of d s → row_key r' = row_key r → sequence (row_mutation r') <= sequence (row_mutation r).

Lemma prune_last_with tomb r : tomb = false ∨ retain = true → last_with tomb db' r ↔ last_with tomb db r.
Proof.
  intros Hside. unfold last_with. rewrite prune_rows. split.
  - intros ([Hr Hnp] & Ho & Hl). split_and!; [done..|]. intros r' Hr' Hk.
    destruct (last_exists r Hr) as (rl & [Hrl Hlast] & Hkl).
    assert (rl ∉ pruned_rows db s bound retain limit) as Hkept.
    { intros Hp. destruct (decide (sequence (row_mutation rl) <= sequence (row_mutation r))) as [Hle|Hgt].
      - specialize (Hlast r Hr (eq_sym Hkl)). assert (r = rl) as ->; [|done].
        apply (rows_of_sequence_inj iso db (proj1 Hinv) s); [done..|lia].
      - assert (retain = true ∨ retain = false) as [Hret|Hret] by (clear; destruct retain; auto).
        + apply pruned_elem in Hp as (_ & _ & Hk' & _). apply not_true_iff_false in Hk'. apply Hk'.
          apply keeps_spec; [done|]. by split.
        + apply Hnp. eapply pruned_downward; [exact Hp|done|done|by rewrite Hkl|lia]. }
    assert (sequence (row_mutation rl) <= sequence (row_mutation r)).
    { apply Hl; [|by rewrite Hkl]. by apply prune_rows. }
    specialize (Hlast r' Hr' (eq_trans Hk (eq_sym Hkl))). lia.
  - intros (Hr & Ho & Hl). split_and!; [done| |done|].
    + intros Hp. apply pruned_elem in Hp as (_ & _ & Hk & Hup). apply not_true_iff_false in Hk. apply Hk.
      apply keeps_spec; [done|]. split; [by split|]. intros Hd. destruct Hside as [->|]; [congruence|done].
    + intros r' [Hr' _]%prune_rows Hk. by apply Hl.
Qed.
End prune.

(** The same for a journal of any source. *)
Lemma prune_last_with_any iso db (Hinv : journal_inv iso db) j bound retain limit db' k
    (Hprune : prune_before j db bound retain limit = Ok (db', k)) j' tomb r :
  tomb = false ∨ retain = true → last_with j' tomb db' r ↔ last_with j' tomb db r.
Proof.
  intros Hside. destruct (decide (j_source j' = j_source j)) as [E|Hne].
  - pose proof (prune_last_with iso db Hinv j bound retain limit db' k Hprune tomb r Hside) as H.
    unfold last_with in *. by rewrite E.
  - assert (∀ r', r' ∈ rows_of db' (j_source j') ↔ r' ∈ rows_of db (j_source j')) as Hr.
    { destruct (prune_lookup iso j db bound retain limit db' k (proj1 Hinv) Hprune) as (Hsub & Hother & _). intros r'.
      rewrite !(rows_of_elem iso), Hother; try done; [apply Hinv|].
      intros s n r0 H0. by eapply Hinv, lookup_weaken. }
    unfold last_with. by setoid_rewrite Hr.
Qed.

Lemma latest_rows_last_with iso db s scope tomb r :
  journal_inv iso db →
  r ∈ latest_rows (scoped_rows db s scope) tomb ↔ in_scope scope r = true ∧ last_with (MkJournal s None) tomb db r.
Proof.
  intros Hinv. rewrite latest_rows_elem by done. unfold last_with. simpl. unfold scoped_rows.
  setoid_rewrite list_elem_of_filter. split.
  - intros ([Hsc Hr] & Ho & Hl). split_and!; [done..|]. intros r' Hr' Hk. apply Hl; [|done]. split; [|done].
    unfold in_scope in *. destruct scope; [|done]. unfold row_key, entity_key in Hk. congruence.
  - intros (Hsc & Hr & Ho & Hl). split_and!; [done..|]. intros r' [_ Hr'] Hk. by apply Hl.
Qed.

Section results.
Context (iso : iso_reader) (now : string).

(** C16: what a journal reports is what its log means.  For every database the operations reach,
    [current_records] returns, in key order and up to the limit, exactly the records that applying
    the mutations of the log one after the other leaves (an upsert sets its entity, a tombstone
    removes it), although the code never replays: it picks the highest version of each entity with
    a window function and filters afterwards. *)
Theorem current_records_replay db j project scope limit :
  rtc (journal_step iso now) empty_db db → _scope iso now j project = Ok scope → 1 <= limit <= _MAX_EXPORT_ROWS →
  current_records iso now j db project limit = Ok (take (Z.to_nat limit) (replayed_records db (j_source j) scope)).
Proof.
  intros Hreach Hsc Hlim. assert (journal_inv iso db) as Hinv by by apply (memory_reachable_inv iso now).
  unfold current_records. erewrite latest_query; [|done..]. do 2 f_equal. unfold replayed_records.
  apply (sort_by_unique key_le entity_key).
  - apply key_le_antisym.
  - intros m m' (r & -> & Hr)%list_elem_of_fmap (r' & -> & Hr')%list_elem_of_fmap Hk.
    f_equal. by eapply (latest_rows_key_inj iso).
  - by apply (latest_rows_replay iso).
Qed.

(** Pruning forgets history, never state.  Whatever the bound and the limit, the live records
    a journal reports after [prune_before] are those it reported before, for every scope; with
    [retain_tombstones] so are the tombstones, and without it a deleted record still does not come
    back, because a tombstone goes only together with the upserts before it. *)
Theorem prune_keeps_state db db' j j' bound retain prune_limit k project scope limit :
  rtc (journal_step iso now) empty_db db → prune_before j db bound retain prune_limit = Ok (db', k) →
  _scope iso now j' project = Ok scope → 1 <= limit <= _MAX_EXPORT_ROWS →
  current_records iso now j' db' project limit = current_records iso now j' db project limit
  ∧ (retain = true → tombstones iso now j' db' project limit = tombstones iso now j' db project limit).
Proof.
  intros Hreach Hprune Hsc Hlim. assert (journal_inv iso db) as Hinv by by apply (memory_reachable_inv iso now).
  assert (journal_inv iso db') as Hinv'.
  { eapply memory_step_inv; [|exact Hinv]. by eapply (step_prune _ now). }
  assert (∀ tomb, tomb = false ∨ retain = true →
    _latest iso now j' db' project tomb limit = _latest iso now j' db project tomb limit) as Hall.
  { intros tomb Hside. erewrite !latest_query; [|done..]. do 2 f_equal. apply (sort_by_unique key_le entity_key).
    - apply key_le_antisym.
    - intros m m' (r & -> & Hr)%list_elem_of_fmap (r' & -> & Hr')%list_elem_of_fmap Hk.
      f_equal. by eapply (latest_rows_key_inj iso db').
    - apply NoDup_Permutation; [by apply (latest_rows_NoDup iso)..|]. intros m. rewrite !list_elem_of_fmap.
      assert (∀ r, r ∈ latest_rows (scoped_rows db' (j_source j') scope) tomb ↔
                   r ∈ latest_rows (scoped_rows db (j_source j') scope) tomb) as E; [|by setoid_rewrite E].
      intros r. rewrite !(latest_rows_last_with iso) by done. by rewrite (prune_last_with_any iso db Hinv j bound retain prune_limit db' k). }
  split; [by apply Hall; left|]. intros Hret. apply Hall. by right.
Qed.
End results.

Lemma current_records_replay_witness :
  current_records demo_iso demo_now demo_journal demo_db None 10
  = Ok (take 10 (replayed_records demo_db "cluster-a" (Some "global"))).
Proof. by apply (current_records_replay demo_iso demo_now demo_db demo_journal None (Some "global") 10); [apply demo_reachable|..]. Defined.

Definition demo_forgotten : Database := db_of (prune_before demo_journal demo_db 5 false 10).

Lemma prune_keeps_state_witness :
  current_records demo_iso demo_now demo_journal demo_forgotten None 10
  = current_records demo_iso demo_now demo_journal demo_db None 10.
Proof.
  assert (1 <= 10 <= _MAX_EXPORT_ROWS) as Hl by done.
  assert (prune_before demo_journal demo_db 5 false 10 = Ok (demo_forgotten, 3)) as Hp by (vm_compute; reflexivity).
  assert (_scope demo_iso demo_now demo_journal None = Ok (Some "global")) as Hs by reflexivity.
  exact (proj1 (prune_keeps_state demo_iso demo_now demo_db demo_forgotten demo_journal demo_journal 5 false 10 3 None
    (Some "global") 10 demo_reachable Hp Hs Hl)).
Defined.
