(* ===== verification/MemoryNetwork.v ===== *)
(** One source journal and its replicas over a network that delays, repeats, reorders and loses pages.

    The origin appends, prunes and exports; a page once exported can reach any replica at any time
    and any number of times; a replica can be lost and come back empty.  The theorems are about the
    rows of the source in the databases: no two databases ever disagree on one, a replica never has
    a gap, and paging from the replica's cursor reaches the origin's log. *)
From S2P Require Import Prelude PyText CanonicalJson MemoryReplication MemoryJournal MemoryState.

Local Open Scope Z_scope.

(** ** A page *)

Section export.
Context (iso : iso_reader) (now : string).

Definition exported_rows (j : Journal) (db : Database) (after : Z) (scope : option string) : list Row :=
  filter (λ r, after < sequence (row_mutation r) ∧ in_scope scope r = true) (rows_of db (j_source j)).

Lemma export_ok j db after limit project b :
  journal_inv iso db → export iso now j db after limit project = Ok b →
  ∃ m scope, meta db !! j_source j = Some m ∧ _scope iso now j project = Ok scope
  ∧ wf_batch iso b ∧ b_source_id b = j_source j ∧ b_source_epoch b = m_epoch m ∧ after_sequence b = after
  ∧ records b = row_mutation <$> take (Z.to_nat limit) (exported_rows j db after scope).
Proof.
  intros Hinv H. unfold export in H. apply bind_ok in H as (? & _ & (? & Hlim & (scope & Hsc & H)%bind_ok)%bind_ok).
  apply bind_ok in H as (m & Hm & (? & _ & (l & Hl & H)%bind_ok)%bind_ok). unfold _meta in Hm.
  destruct (meta db !! j_source j) as [m'|]; [|done]. injection Hm as ->. exists m, scope.
  fold (exported_rows j db after scope) in Hl. rewrite take_take, Nat.min_l in Hl.
  2: { apply require_ok, andb_true_iff in Hlim. rewrite !Z.leb_le in Hlim. lia. }
  assert (l = row_mutation <$> take (Z.to_nat limit) (exported_rows j db after scope) ∧ Forall (wf_mutation iso) l) as [El Hwf].
  { apply mapM_res_ok in Hl. assert (∀ r, r ∈ take (Z.to_nat limit) (exported_rows j db after scope) → wf_mutation iso (row_mutation r)) as Hin.
    { intros r (i & Hi & _)%elem_of_take. apply list_elem_of_lookup_2 in Hi. unfold exported_rows in Hi.
      apply list_elem_of_filter in Hi as [_ Hi]. apply (rows_of_elem iso) in Hi; [|apply Hinv].
      by apply (proj1 Hinv) in Hi as (_ & _ & ? & _). }
    revert Hin. generalize (take (Z.to_nat limit) (exported_rows j db after scope)) as k, Hl. clear.
    induction 1 as [|r m k l Hr _ IH]; intros Hin; [done|]. destruct IH as [-> Hwf]; [intros; apply Hin; by right|].
    assert (wf_mutation iso (row_mutation r)) as Hrw by (apply Hin; left).
    unfold _row_to_mutation in Hr. pose proof Hrw as Hrw'. unfold wf_mutation in Hrw'. rewrite Hrw' in Hr. injection Hr as <-.
    split; [done|by constructor]. }
  pose proof H as [Hrec Hb]%Batch_init_fields. unfold Batch_init in H.
  apply bind_ok in H as (? & Hs%text_matching_ok & (? & He%int_within_ok & (? & Ha%int_within_ok & H)%bind_ok)%bind_ok).
  do 4 apply bind_ok in H as (? & _ & H). apply bind_ok in H as (? & _ & [= <-]). simpl in *.
  destruct Hs as [[= <-] _], He as [[= <-] _], Ha as [[= <-] _]. split_and!; try done; by rewrite El in *.
Qed.

(** A row of the log that lies beyond the cursor is exported in order. *)
Lemma exported_rows_sorted j db after scope :
  rows_ok iso (log db) →
  StronglySorted (λ a b, sequence (row_mutation a) < sequence (row_mutation b)) (exported_rows j db after scope).
Proof.
  intros Hr. unfold exported_rows. pose proof (rows_of_sorted iso db Hr (j_source j)) as Hs.
  induction Hs as [|r l Hs IH Hf]; [constructor|]. rewrite filter_cons. destruct (decide _); [|done].
  constructor; [done|]. rewrite Forall_forall in Hf |- *. intros r' [_ Hr']%list_elem_of_filter. by apply Hf.
Qed.
End export.

(** ** A page can always be exported *)

Lemma check_records_total source epoch previous l :
  Forall (λ r, source_id r = source ∧ source_epoch r = epoch ∧ previous < sequence r) l →
  StronglySorted Z.lt (sequence <$> l) →
  check_records source epoch previous l = Ok (last_sequence l previous).
Proof.
  revert previous. induction l as [|r l IH]; intros previous Hf Hs; [done|]. simpl.
  apply Forall_cons in Hf as [(-> & -> & Hlt) Hf]. rewrite String.eqb_refl, Z.eqb_refl. simpl.
  rewrite fmap_cons in Hs. apply StronglySorted_inv in Hs as [Hs Hr].
  assert ((previous <? sequence r) = true) as -> by by apply Z.ltb_lt. simpl. rewrite IH; [|  |done].
  - unfold last_sequence. destruct l as [|m l]; [done|].
    exact (f_equal Ok (last_default_irrel (List.map sequence l) (sequence m) (sequence r) previous)).
  - rewrite Forall_fmap in Hr. apply Forall_forall. intros r' Hr'. rewrite Forall_forall in Hf, Hr.
    destruct (Hf r' Hr') as (? & ? & _). by specialize (Hr r' Hr').
Qed.

Lemma last_sequence_elem l after : last_sequence l after = after ∨ ∃ r, r ∈ l ∧ sequence r = last_sequence l after.
Proof.
  unfold last_sequence. induction l as [|r l IH] using rev_ind; [by left|]. right. exists r. split; [set_solver|].
  rewrite fmap_app. symmetry. apply List.last_last.
Qed.

Lemma sorted_sequences l :
  StronglySorted (λ a b, sequence (row_mutation a) < sequence (row_mutation b)) l →
  StronglySorted Z.lt (sequence <$> (row_mutation <$> l)).
Proof.
  induction 1 as [|r l _ IH Hf]; [constructor|]. rewrite !fmap_cons. constructor; [done|]. by rewrite !Forall_fmap.
Qed.

Lemma sorted_lt_NoDup (l : list Z) : StronglySorted Z.lt l → NoDup l.
Proof.
  induction 1 as [|z l _ IH Hz]; constructor; [|done]. intros Hin. rewrite Forall_forall in Hz. by apply Z.lt_irrefl with z, Hz.
Qed.

Lemma sorted_seqZ a n : StronglySorted Z.lt (seqZ a n).
Proof.
  destruct (decide (0 <= n)) as [Hn|]; [|rewrite seqZ_nil by lia; constructor].
  revert a. pattern n. apply natlike_ind; [intros a; rewrite seqZ_nil by lia; constructor| |done].
  intros k Hk IH a. rewrite seqZ_cons by lia. constructor; [by rewrite Z.pred_succ|].
  apply Forall_forall. intros z Hz%elem_of_seqZ. lia.
Qed.

Section total.
Context (iso : iso_reader) (now : string) (j : Journal) (db : Database) (m : Meta).
Context (Hinv : journal_inv iso db) (Hm : meta db !! j_source j = Some m).
Context (Hvalid : _validate_source iso now (j_source j) (j_scope j) = Ok tt).
Context (Hepoch : ∀ n r, log db !! (j_source j, n) = Some r → source_epoch (row_mutation r) = m_epoch m).

Lemma valid_source_identity : is_identity (j_source j) = true.
Proof.
  unfold _validate_source, validation_mutation, Mutation_init in Hvalid.
  apply bind_ok in Hvalid as (? & H & _). apply bind_ok in H as (? & [[= <-] H]%text_matching_ok & _). done.
Qed.

Lemma rows_to_mutations_of l : (∀ r, r ∈ l → r ∈ rows_of db (j_source j)) → mapM_res (_row_to_mutation iso) l = Ok (row_mutation <$> l).
Proof.
  intros Hl. apply mapM_res_ok, Forall2_fmap_r, Forall_Forall2_diag, Forall_forall. intros r Hr%Hl.
  apply (rows_of_elem iso) in Hr; [|apply Hinv]. by apply (proj1 Hinv) in Hr as (_ & _ & ? & _).
Qed.

Lemma export_total after limit :
  0 <= after <= max_i64 → 1 <= limit <= _MAX_EXPORT_ROWS →
  ∃ b, export iso now j db after limit None = Ok b
       ∧ has_more b = (limit <? zlen (take (Z.to_nat (limit + 1)) (exported_rows j db after (j_scope j)))).
Proof.
  intros Hafter Hlimit. unfold export.
  rewrite bind_Ok with (a := tt) by (apply require_true, Z.leb_le; lia). cbn beta.
  rewrite bind_Ok with (a := tt) by (apply require_true, andb_true_iff; rewrite !Z.leb_le; lia). cbn beta.
  erewrite bind_Ok; [|reflexivity]. cbn beta. rewrite bind_Ok with (a := m) by (unfold _meta; by rewrite Hm). cbn beta.
  rewrite bind_Ok with (a := tt) by (apply require_true, Z.leb_le; lia). cbn beta zeta.
  fold (exported_rows j db after (j_scope j)). rewrite take_take, Nat.min_l by lia.
  set (rows := take (Z.to_nat limit) (exported_rows j db after (j_scope j))).
  assert (∀ r, r ∈ rows → r ∈ rows_of db (j_source j) ∧ after < sequence (row_mutation r)) as Hrows.
  { intros r (i & Hi & _)%elem_of_take. apply list_elem_of_lookup_2 in Hi. unfold exported_rows in Hi.
    by apply list_elem_of_filter in Hi as [[? _] ?]. }
  rewrite bind_Ok with (1 := rows_to_mutations_of rows (λ r H, proj1 (Hrows r H))). cbn beta.
  destruct Hinv as [Hro Hi]. pose proof (Hi (j_source j)) as Hs. unfold cursor_inv in Hs. rewrite Hm in Hs.
  destruct Hs as (Hs & Hmax & Hemax).
  assert (StronglySorted Z.lt (sequence <$> (row_mutation <$> rows))) as Hsorted.
  { unfold rows. pose proof (exported_rows_sorted iso j db after (j_scope j) Hro) as He.
    rewrite <-(take_drop (Z.to_nat limit)) in He. apply StronglySorted_app in He as (_ & He & _). by apply sorted_sequences. }
  assert (Forall (λ r, source_id r = j_source j ∧ source_epoch r = m_epoch m ∧ after < sequence r) (row_mutation <$> rows)) as Hall.
  { apply Forall_fmap, Forall_forall. intros r Hr. simpl. destruct (Hrows r Hr) as [Hr' ?].
    apply (rows_of_elem iso) in Hr'; [|done]. split_and!; [by apply Hro in Hr' as (? & _)|by eapply Hepoch|done]. }
  unfold Batch_init. erewrite bind_Ok; [|apply text_matching_JStr, valid_source_identity]. cbn beta.
  rewrite bind_Ok with (a := m_epoch m) by (apply int_within_JInt; pose proof (si_epoch _ _ _ _ Hs); lia). cbn beta.
  rewrite bind_Ok with (a := after) by (by apply int_within_JInt). cbn beta.
  rewrite bind_Ok with (a := tt).
  2: { apply require_true, Z.leb_le. rewrite zlen_fmap. unfold zlen, rows. rewrite length_take.
    unfold _MAX_EXPORT_ROWS, _MAX_RECORDS in *. lia. }
  cbn beta. rewrite bind_Ok with (1 := check_records_total _ _ _ _ Hall Hsorted). cbn beta.
  rewrite bind_Ok with (a := last_sequence (row_mutation <$> rows) after).
  2: { apply int_within_JInt. destruct (last_sequence_elem (row_mutation <$> rows) after) as [->|(r & Hr & <-)]; [done|].
    apply list_elem_of_fmap in Hr as (row & -> & Hr). destruct (Hrows row Hr) as [Hr' ?].
    apply (rows_of_elem iso) in Hr'; [|done]. apply (si_rows _ _ _ _ Hs) in Hr'. lia. }
  cbn beta. rewrite bind_Ok with (a := tt) by (by rewrite Z.eqb_refl). eexists. split; [reflexivity|done].
Qed.
End total.

(** ** The network *)

Record Net := MkNet { n_origin : Database; n_sent : list MemoryReplicationBatch; n_replicas : list Database }.

Section net.
Context (iso : iso_reader) (now : string) (J : Journal).

Let s := j_source J.
Let scope := j_scope J.

(** A database no page of the source has reached. *)
Definition fresh_replica (d : Database) : Prop := rtc (journal_step iso now) empty_db d ∧ meta d !! s = None.

Inductive net_step : Net → Net → Prop :=
  | net_append o l k o' sent reps :
      Forall (wf_mutation iso) l → append iso now J o l = Ok (o', k) → net_step (MkNet o sent reps) (MkNet o' sent reps)
  | net_advance o e o' sent reps :
      advance_epoch J o e = Ok o' → net_step (MkNet o sent reps) (MkNet o' sent reps)
  | net_prune o bound retain limit k o' sent reps :
      prune_before J o bound retain limit = Ok (o', k) → net_step (MkNet o sent reps) (MkNet o' sent reps)
  | net_export o after limit project b sent reps :
      export iso now J o after limit project = Ok b → net_step (MkNet o sent reps) (MkNet o (sent ++ [b]) reps)
  | net_deliver o b sent reps i d d' k :
      b ∈ sent → reps !! i = Some d → apply_memory_replication_batch_in_transaction iso now d b scope = Ok (d', k) →
      net_step (MkNet o sent reps) (MkNet o sent (<[i := d']> reps))
  | net_lose o sent reps i d :
      fresh_replica d → net_step (MkNet o sent reps) (MkNet o sent (<[i := d]> reps)).

Definition net_start (net : Net) : Prop :=
  ∃ o reps, Journal_init iso now empty_db s scope = Ok (o, J) ∧ Forall fresh_replica reps ∧ net = MkNet o [] reps.

(** [H] is every row the origin ever committed. *)
Definition history_ok (H : Z → option Row) (m : Meta) : Prop :=
  1 <= m_next m ∧ (∀ n, is_Some (H n) ↔ 1 <= n < m_next m)
  ∧ ∀ n r, H n = Some r →
      source_id (row_mutation r) = s ∧ sequence (row_mutation r) = n ∧ source_epoch (row_mutation r) = m_epoch m
      ∧ stored (row_mutation r) = row_mutation r ∧ row_digest r = digest (row_mutation r) ∧ in_scope scope r = true.

(** A replica holds a prefix of the history. *)
Definition replica_ok (H : Z → option Row) (m : Meta) (d : Database) : Prop :=
  journal_inv iso d ∧
  ∀ m', meta d !! s = Some m' →
    m_scope m' = scope ∧ m_epoch m' <= m_epoch m ∧ m_next m' <= m_next m ∧ ∀ n, n < m_next m' → log d !! (s, n) = H n.

Definition sent_ok (H : Z → option Row) (m : Meta) (b : MemoryReplicationBatch) : Prop :=
  wf_batch iso b ∧ b_source_id b = s ∧ b_source_epoch b <= m_epoch m
  ∧ ∀ r, r ∈ records b → H (sequence r) = Some (MkRow r (digest r)).

Record net_inv (H : Z → option Row) (m : Meta) (net : Net) : Prop := {
  ni_origin : journal_inv iso (n_origin net);
  ni_meta : meta (n_origin net) !! s = Some m;
  ni_scope : m_scope m = scope;
  ni_history : history_ok H m;
  ni_log : ∀ n r, log (n_origin net) !! (s, n) = Some r → H n = Some r;
  ni_sent : Forall (sent_ok H m) (n_sent net);
  ni_replicas : Forall (replica_ok H m) (n_replicas net)
}.

Lemma history_lt H m n r : history_ok H m → H n = Some r → 1 <= n < m_next m.
Proof. intros (_ & Hd & _) E. apply Hd. by rewrite E. Qed.

Lemma fresh_replica_ok H m d : fresh_replica d → replica_ok H m d.
Proof. intros [Hd%memory_reachable_inv Hm]. split; [done|]. intros m'. by rewrite Hm. Qed.

(** What was known stays known when the history grows. *)
Definition extends (H : Z → option Row) (m : Meta) (H' : Z → option Row) (m' : Meta) : Prop :=
  (∀ n, n < m_next m → H' n = H n) ∧ m_next m <= m_next m' ∧ m_epoch m <= m_epoch m'.

Lemma replica_extends H m H' m' d : extends H m H' m' → replica_ok H m d → replica_ok H' m' d.
Proof.
  intros (HH & Hn & He) [Hinv Hd]. split; [done|]. intros m1 E. destruct (Hd m1 E) as (? & ? & ? & Hlog).
  split_and!; [done|lia|lia|]. intros n Hlt. rewrite Hlog by done. symmetry. apply HH. lia.
Qed.

Lemma sent_extends H m H' m' b : history_ok H m → extends H m H' m' → sent_ok H m b → sent_ok H' m' b.
Proof.
  intros Hh (HH & Hn & He) (? & ? & ? & Hr). split_and!; [done..|lia|]. intros r Hin. specialize (Hr r Hin).
  rewrite HH; [done|]. apply (history_lt _ _ _ _ Hh) in Hr. lia.
Qed.

Lemma knowledge_extends H m H' m' sent reps :
  history_ok H m → extends H m H' m' → Forall (sent_ok H m) sent → Forall (replica_ok H m) reps →
  Forall (sent_ok H' m') sent ∧ Forall (replica_ok H' m') reps.
Proof.
  intros Hh Hx Hs Hr. split; eapply Forall_impl; eauto using sent_extends, replica_extends.
Qed.

Lemma start_inv net : net_start net → ∃ H m, net_inv H m net.
Proof.
  intros (o & reps & Ho & Hreps & ->). exists (λ _, None), (MkMeta 1 1 scope).
  assert (journal_inv iso o) as Hinv.
  { eapply memory_step_inv; [by eapply step_open|apply empty_journal_inv]. }
  unfold Journal_init in Ho. apply bind_ok in Ho as (? & _ & ([? m] & (-> & -> & _)%ensure_ok & [= <-])%bind_ok).
  constructor; simpl; try done.
  - rewrite lookup_insert_eq. unfold cursor_or. simpl. by rewrite lookup_empty.
  - split_and!; [done| |done]. intros n0. split; [by intros [? ?]|simpl; lia].
  - eapply Forall_impl; [exact Hreps|]. intros d. apply fresh_replica_ok.
Qed.

(** The rows an origin's transaction adds continue the history. *)
Lemma append_inv H m o l k o' sent reps :
  net_inv H m (MkNet o sent reps) → Forall (wf_mutation iso) l → append iso now J o l = Ok (o', k) →
  ∃ H' m', net_inv H' m' (MkNet o' sent reps).
Proof.
  intros [Hinv Hm Hsc Hh Hlog Hsent Hreps] Hl Happ; simpl in *.
  assert (journal_inv iso o') as Hinv' by (eapply memory_step_inv; [by eapply step_append|done]).
  apply append_ok in Happ as (_ & Hown & (db2 & Hg & Hk & ->)); [|done..].
  assert (cursor_or o s (MkMeta 1 1 scope) = m) as Ec by by unfold cursor_or; rewrite Hm.
  fold s in Hg, Hk, Hown, Hinv' |- *. fold scope in Hg, Hk, Hown, Hinv' |- *. rewrite Ec in *.
  set (m' := set_next m (m_next m + k)). set (H' := λ n, if decide (m_next m <= n < m_next m + k) then log db2 !! (s, n) else H n).
  assert (extends H m H' m') as Hx.
  { destruct Hg as [_ Hle _ _ _ _]. split_and!; simpl; [|lia|done]. intros n Hn. unfold H'. by rewrite decide_False by lia. }
  destruct (knowledge_extends _ _ _ _ _ _ Hh Hx Hsent Hreps) as [Hsent' Hreps'].
  exists H', m'. constructor; simpl; try done.
  - apply lookup_insert_eq.
  - destruct Hh as (H1 & Hd & Hr). destruct Hg as [_ Hle Hnew _ _ _]. split_and!; [simpl; lia| |].
    + intros n. unfold H'. destruct (decide _) as [Hn|Hn].
      * destruct (Hnew n Hn) as (r & _ & _ & _ & E). rewrite E. simpl. split; [lia|done].
      * rewrite Hd. simpl. lia.
    + intros n r. unfold H'. destruct (decide _) as [Hn|Hn]; [|apply Hr].
      destruct (Hnew n Hn) as (r' & Hr' & <- & He & E). rewrite E. intros [= <-]. simpl.
      rewrite Forall_forall in Hown. destruct (Hown r' Hr') as [Hs Hp].
      split_and!; [done|done|done|apply stored_idem|by rewrite digest_stored|]. unfold in_scope; simpl.
      destruct scope as [p|]; [|done]. apply String.eqb_eq. by apply Hp.
  - intros n r E. unfold H'. destruct (decide _) as [Hn|Hn]; [done|]. apply Hlog.
    destruct (g_old _ _ _ _ _ _ _ _ Hg (s, n)) as [E'|(n' & [= <-] & ?)]; [|done]. simpl in E'. by rewrite <-E'.
Qed.

Lemma advance_inv H m o e o' sent reps :
  net_inv H m (MkNet o sent reps) → advance_epoch J o e = Ok o' → ∃ H' m', net_inv H' m' (MkNet o' sent reps).
Proof.
  intros [Hinv Hm Hsc Hh Hlog Hsent Hreps] Hadv; simpl in *.
  assert (journal_inv iso o') as Hinv' by (eapply (memory_step_inv _ now); [by eapply step_advance|done]).
  unfold advance_epoch, _meta in Hadv. fold s in Hadv. rewrite Hm in Hadv. apply bind_ok in Hadv as (? & _ & H0). simpl in H0.
  apply bind_ok in H0 as (? & Hlt%require_ok%Z.ltb_lt & (? & [_ Hnext%Z.eqb_eq]%require_ok%andb_true_iff & H0)%bind_ok).
  apply bind_ok in H0 as (? & _ & [= <-]).
  assert (extends H m H (set_epoch m e)) as Hx by (split_and!; simpl; [done|lia|lia]).
  destruct (knowledge_extends _ _ _ _ _ _ Hh Hx Hsent Hreps) as [Hsent' Hreps'].
  exists H, (set_epoch m e). constructor; simpl; try done; [apply lookup_insert_eq|].
  split; [exact (proj1 Hh)|split; [exact (proj1 (proj2 Hh))|]]. intros n r E. apply (history_lt _ _ _ _ Hh) in E. lia.
Qed.

Lemma export_inv H m o after limit project b sent reps :
  net_inv H m (MkNet o sent reps) → export iso now J o after limit project = Ok b → sent_ok H m b.
Proof.
  intros [Hinv Hm Hsc Hh Hlog Hsent Hreps] Hexp; simpl in *.
  apply export_ok in Hexp as (m' & sc & Hm' & _ & Hwf & Hb & He & _ & Hrec); [|done]. fold s in Hm', Hb.
  assert (m' = m) as -> by congruence. split_and!; [done|done|lia|]. intros r Hr. rewrite Hrec in Hr.
  apply list_elem_of_fmap in Hr as (row & -> & (i & Hi & _)%elem_of_take). apply list_elem_of_lookup_2 in Hi.
  unfold exported_rows in Hi. apply list_elem_of_filter in Hi as [_ Hi]. apply (rows_of_elem iso) in Hi; [|apply Hinv].
  fold s in Hi. apply Hlog in Hi. rewrite Hi. f_equal. destruct Hh as (_ & _ & Hr). apply Hr in Hi as (_ & _ & _ & _ & E & _).
  destruct row as [rm rd]; simpl in *. by rewrite E.
Qed.

Lemma deliver_inv H m d b d' k :
  history_ok H m → sent_ok H m b → replica_ok H m d →
  apply_memory_replication_batch_in_transaction iso now d b scope = Ok (d', k) → replica_ok H m d'.
Proof.
  intros Hh (Hwf & Hb & Hbe & Hrec) [Hinv Hd] Happ. pose proof Happ as Happ'.
  apply (apply_ok iso now) in Happ' as (Hsc & Hstale & _ & Hc); [|done..].
  assert (journal_inv iso d') as Hinv'.
  { eapply (memory_step_inv _ now); [by eapply (step_apply _ _ _ _ (MkJournal s scope))|done]. }
  split; [done|]. rewrite Hb in *. set (c := batch_cursor d b scope) in *.
  destruct Hc as (db2 & Hg & Hk & ->). simpl. rewrite lookup_insert_eq. intros m' [= <-].
  cbn [m_scope m_epoch m_next set_next]. assert (m_next c <= m_next m ∧ ∀ n, n < m_next c → log d !! (s, n) = H n) as [Hcn Hclog].
  { unfold c, batch_cursor, cursor_or. rewrite Hb. destruct (meta d !! s) as [m0|] eqn:E; simpl.
    - by destruct (Hd m0 eq_refl) as (_ & _ & ? & ?).
    - destruct Hinv as [_ Hi]. specialize (Hi s). unfold cursor_inv in Hi. rewrite E in Hi. split; [exact (proj1 Hh)|].
      intros n Hn. rewrite Hi. destruct (H n) eqn:E0; [|done]. apply (history_lt _ _ _ _ Hh) in E0. lia. }
  assert (∀ n, m_next c <= n < m_next c + k → is_Some (log db2 !! (s, n)) ∧ log db2 !! (s, n) = H n) as Hnew.
  { intros n Hn. destruct (g_new _ _ _ _ _ _ _ _ Hg n Hn) as (r & Hr & <- & _ & E). rewrite E. split; [done|].
    specialize (Hrec r Hr). rewrite Hrec. destruct Hh as (_ & _ & Hh). apply Hh in Hrec as (_ & _ & _ & Est & _). simpl in Est.
    by rewrite Est. }
  split_and!; [done|done| |].
  - change (m_next c + k <= m_next m). pose proof (g_le _ _ _ _ _ _ _ _ Hg). destruct (decide (m_next c <= m_next c + k - 1)) as [Hlt|]; [|lia].
    destruct (Hnew (m_next c + k - 1) ltac:(lia)) as [[r E1] E2]. rewrite E1 in E2. symmetry in E2.
    apply (history_lt _ _ _ _ Hh) in E2. lia.
  - intros n Hn. change (n < m_next c + k) in Hn. destruct (decide (m_next c <= n)); [by apply Hnew|]. rewrite <-Hclog by lia.
    destruct (g_old _ _ _ _ _ _ _ _ Hg (s, n)) as [E'|(n' & [= <-] & ?)]; [by rewrite E'|lia].
Qed.

Lemma net_step_inv H m net net' : net_inv H m net → net_step net net' → ∃ H' m', net_inv H' m' net'.
Proof.
  intros Hinv Hstep. destruct Hstep as [o l k o' sent reps Hl Happ|o e o' sent reps Hadv|o bound retain limit k o' sent reps Hp
    |o after limit project b sent reps Hexp|o b sent reps i d d' k Hb Hd Happ|o sent reps i d Hd].
  - by eapply append_inv.
  - by eapply advance_inv.
  - exists H, m. destruct Hinv as [Hinv Hm Hsc Hh Hlog Hsent Hreps]; simpl in *.
    destruct (prune_lookup iso _ _ _ _ _ _ _ (proj1 Hinv) Hp) as (Hsub & _). constructor; simpl; try done.
    + eapply (memory_step_inv _ now); [by eapply step_prune|done].
    + by apply prune_ok in Hp as [-> _].
    + intros n r E. eapply Hlog, lookup_weaken; done.
  - exists H, m. pose proof (export_inv _ _ _ _ _ _ _ _ _ Hinv Hexp). destruct Hinv; simpl in *. constructor; simpl; try done.
    apply Forall_app. split; [done|by apply Forall_singleton].
  - exists H, m. destruct Hinv as [Hinv Hm Hsc Hh Hlog Hsent Hreps]; simpl in *. constructor; simpl; try done.
    apply Forall_insert; [done|]. rewrite Forall_forall in Hsent.
    eapply deliver_inv; [done|by apply Hsent| |done]. by eapply Forall_lookup_1.
  - exists H, m. destruct Hinv; simpl in *. constructor; simpl; try done. apply Forall_insert; [done|by apply fresh_replica_ok].
Qed.

Definition net_reachable (net : Net) : Prop := ∃ start, net_start start ∧ rtc net_step start net.

Lemma net_reachable_inv net :
  net_reachable net → (∃ H m, net_inv H m net) ∧ _validate_source iso now s scope = Ok tt.
Proof.
  intros (start & Hstart & Hsteps). split.
  - apply start_inv in Hstart. induction Hsteps as [|x y z Hstep _ IH]; [done|]. destruct Hstart as (H & m & Hinv).
    apply IH. by eapply net_step_inv.
  - destruct Hstart as (o & reps & Ho & _). unfold Journal_init in Ho. apply bind_ok in Ho as ([] & ? & _). done.
Qed.

(** ** Catching up *)

(** The last sequence a database holds of the source. *)
Definition cursor_of (d : Database) : Z := match meta d !! s with Some m => m_next m - 1 | None => 0 end.

(** One page from the replica's cursor. *)
Definition pull (limit : Z) (o d : Database) : res Database :=
  b ← export iso now J o (cursor_of d) limit None;
  '(d', _) ← apply_memory_replication_batch_in_transaction iso now d b scope;
  Ok d'.

Fixpoint pulls (n : nat) (limit : Z) (o d : Database) : res Database :=
  match n with O => Ok d | S n' => d' ← pull limit o d; pulls n' limit o d' end.

Lemma replica_prefix H m d :
  history_ok H m → replica_ok H m d →
  0 <= cursor_of d < m_next m ∧ ∀ n, log d !! (s, n) = if decide (n <= cursor_of d) then H n else None.
Proof.
  intros Hh [[Hr Hi] Hd]. specialize (Hi s). unfold cursor_inv in Hi. unfold cursor_of.
  assert (∀ n, H n = None ∨ 1 <= n) as Hpos.
  { intros n. destruct (H n) eqn:E; [right|by left]. apply (history_lt _ _ _ _ Hh) in E. lia. }
  destruct (meta d !! s) as [m'|] eqn:E.
  - destruct (Hd m' eq_refl) as (_ & _ & Hle & Hlog). destruct Hi as (Hi & _). pose proof (si_next _ _ _ _ Hi). split; [lia|].
    intros n. destruct (decide _); [apply Hlog; lia|]. destruct (log d !! (s, n)) eqn:E'; [|done].
    apply (si_rows _ _ _ _ Hi) in E'. lia.
  - destruct Hh as (? & _). split; [lia|]. intros n. rewrite Hi. destruct (decide _); [|done]. by destruct (Hpos n); [|lia].
Qed.

(** Consecutive rows of the history are applied one and all. *)
Lemma apply_records_total H epoch l : ∀ db expected inserted,
  (∀ n n' r r', H n = Some r → H n' = Some r' → row_key r = row_key r' → n < n' → row_version r < row_version r') →
  rows_ok iso (log db) → src_inv (log db) s epoch expected →
  (∀ n r, log db !! (s, n) = Some r → H n = Some r) →
  Forall (λ r, wf_mutation iso r ∧ source_id r = s ∧ source_epoch r = epoch ∧ stored r = r) l →
  (∀ i r, l !! i = Some r → sequence r = expected + Z.of_nat i ∧ H (sequence r) = Some (MkRow r (digest r))) →
  ∃ db', apply_records db epoch expected inserted l = Ok (db', expected + zlen l, inserted + zlen l).
Proof.
  induction l as [|r l IH]; intros db expected inserted Hv Hrows Hinv Hsub Hwf Hseq; simpl.
  - exists db. by rewrite !Z.add_0_r.
  - apply Forall_cons in Hwf as [(Hw & Hs & He & Hst) Hwf]. destruct (Hseq 0%nat r eq_refl) as [Hn Hr].
    rewrite Z.add_0_r in Hn. subst expected. rewrite <-Hs, <-He in Hinv.
    assert (version_free db r) as Hfree.
    { intros r' [Hk Hr']%entity_rows_elem. apply (rows_of_elem iso) in Hr'; [|done]. rewrite Hs in Hr'.
      pose proof (si_rows _ _ _ _ Hinv _ _ ltac:(by rewrite Hs)) as [? _].
      apply Hsub in Hr'. eapply (Hv _ _ _ (MkRow r (digest r)) Hr' Hr); [done|lia]. }
    destruct (insert_ok iso db r _ Hrows Hinv Hw (Z.le_refl _) Hfree) as (Hins & Hnone & Hrows' & Hinv').
    unfold digest_at. rewrite Hnone. simpl. rewrite He, Z.eqb_refl. simpl. rewrite Z.eqb_refl. simpl.
    apply version_guard in Hfree. rewrite Hfree. simpl. rewrite Hins.
    edestruct (IH (MkDb (meta db) (<[(source_id r, sequence r) := MkRow (stored r) (digest r)]> (log db))) (sequence r + 1)
      (inserted + 1)) as (db' & E); [done|done|rewrite <-He, <-Hs; exact Hinv'| |done| |].
    + intros n r'. simpl. rewrite Hs. intros [[[= <-] <-]|[_ E]]%lookup_insert_Some; [by rewrite Hst|by apply Hsub].
    + intros i r' Hi. destruct (Hseq (S i) r' Hi) as [-> ?]. split; [lia|done].
    + exists db'. assert (zlen (r :: l) = 1 + zlen l) as -> by (unfold zlen; rewrite length_cons; lia). by rewrite !Z.add_assoc.
Qed.

(** A page that starts at the replica's cursor is accepted whole. *)
Lemma apply_total H m d b :
  _validate_source iso now s scope = Ok tt → m_next m <= max_i64 →
  (∀ n n' r r', H n = Some r → H n' = Some r' → row_key r = row_key r' → n < n' → row_version r < row_version r') →
  history_ok H m → replica_ok H m d → sent_ok H m b → b_source_epoch b = m_epoch m → 1 <= m_epoch m →
  (∀ i r, records b !! i = Some r → sequence r = cursor_of d + 1 + Z.of_nat i) →
  ∃ d', apply_memory_replication_batch_in_transaction iso now d b scope = Ok (d', zlen (records b))
        ∧ cursor_of d' = cursor_of d + zlen (records b).
Proof.
  intros Hvalid Hmax Hv Hh Hd (Hwf & Hb & _ & Hrec) He He1 Hseq.
  destruct (wf_batch_records iso b Hwf) as (Hall & _ & _ & _ & _ & Hlen).
  pose proof (replica_prefix H m d Hh Hd) as [Hc Hlog]. pose proof Hd as [[Hro Hi] Hd'].
  assert (∀ r, r ∈ records b → stored r = r ∧ in_scope scope (MkRow r (digest r)) = true) as Hrow.
  { intros r Hr. specialize (Hrec r Hr). apply Hh in Hrec as (_ & _ & _ & ? & _ & ?). done. }
  unfold apply_memory_replication_batch_in_transaction.
  rewrite bind_Ok with (a := tt) by (by apply require_true, Z.leb_le). cbn beta. rewrite bind_Ok with (a := tt).
  2: { destruct scope as [p|] eqn:Esc; [|done]. rewrite Hb, Hvalid. simpl. apply require_true, forallb_forall.
    intros r Hr%list_elem_of_In. by apply Hrow in Hr as [_ ?]. }
  cbn beta. set (c := MkMeta (m_epoch m) (cursor_of d + 1) scope).
  rewrite bind_Ok with (a := (set_meta d s c, c)).
  2: { rewrite Hb, He. unfold c, cursor_of. destruct (meta d !! s) as [m0|] eqn:E; [|done].
    destruct (Hd' m0 eq_refl) as (Hsc & Hle & _). rewrite bool_decide_eq_true_2 by done. simpl.
    assert ((m_epoch m <? m_epoch m0) = false) as -> by by apply Z.ltb_ge. simpl. unfold set_epoch.
    assert (m_next m0 - 1 + 1 = m_next m0) as -> by lia. by rewrite Hsc. }
  cbn beta zeta. assert (src_inv (log d) s (m_epoch m) (cursor_of d + 1)) as Hsi.
  { specialize (Hi s). unfold cursor_inv in Hi. unfold cursor_of. destruct (meta d !! s) as [m0|].
    - destruct (Hd' m0 eq_refl) as (_ & ? & _). assert (m_next m0 - 1 + 1 = m_next m0) as -> by lia.
      by eapply src_inv_epoch; [apply Hi|].
    - by apply src_inv_fresh. }
  assert (cursor_of d + 1 + zlen (records b) <= m_next m) as Hend.
  { destruct (decide (records b = [])) as [->|Hne]; [unfold zlen; simpl; lia|].
    destruct (last (records b)) as [r|] eqn:El; [|by apply last_None in El].
    rewrite last_lookup in El. pose proof (Hseq _ _ El) as Hs. apply list_elem_of_lookup_2, Hrec, (history_lt _ _ _ _ Hh) in El.
    unfold zlen. destruct (records b); [done|]. simpl in *. lia. }
  edestruct (apply_records_total H (m_epoch m) (records b) (set_meta d s c) (cursor_of d + 1) 0) as (db2 & E);
    [done|done|done| | | |].
  - intros n r. simpl. rewrite Hlog. by destruct (decide _).
  - apply Forall_forall. intros r Hr. rewrite Forall_forall in Hall. destruct (Hall r Hr) as (? & Hs & Hre & _).
    split_and!; [done|congruence|congruence|by apply Hrow].
  - intros i r Hir. split; [by apply Hseq|]. by eapply Hrec, list_elem_of_lookup_2.
  - change (m_next c) with (cursor_of d + 1). change (m_epoch c) with (m_epoch m).
    rewrite bind_Ok with (1 := E). cbn beta iota. rewrite bind_Ok with (a := tt) by (apply require_true, Z.leb_le; lia).
    eexists. split; [reflexivity|]. unfold cursor_of at 1. simpl. rewrite Hb, lookup_insert_eq. simpl. lia.
Qed.

Section unpruned.
Context (H : Z → option Row) (m : Meta) (o : Database) (sent : list MemoryReplicationBatch) (reps : list Database).
Context (Hnet : net_inv H m (MkNet o sent reps)) (Hvalid : _validate_source iso now s scope = Ok tt).
Context (Hfull : ∀ n, 1 <= n < m_next m → is_Some (log o !! (s, n))).

Lemma full_log n : log o !! (s, n) = H n.
Proof.
  destruct (H n) as [r|] eqn:E.
  - destruct (Hfull n) as [r' E']; [by apply (history_lt _ _ _ _ (ni_history _ _ _ Hnet)) in E|]. rewrite E'.
    apply (ni_log _ _ _ Hnet) in E'. congruence.
  - destruct (log o !! (s, n)) eqn:E'; [|done]. apply (ni_log _ _ _ Hnet) in E'. congruence.
Qed.

Lemma origin_src_inv : src_inv (log o) s (m_epoch m) (m_next m) ∧ m_next m <= max_i64 ∧ m_epoch m <= max_i64.
Proof.
  pose proof (proj2 (ni_origin _ _ _ Hnet) s) as Hi. simpl in Hi. unfold cursor_inv in Hi.
  pose proof (ni_meta _ _ _ Hnet) as Hm. simpl in Hm. by rewrite Hm in Hi.
Qed.

(** The page after [c] is the history after [c]. *)
Lemma exported_sequences c :
  0 <= c < m_next m →
  (λ r, sequence (row_mutation r)) <$> exported_rows J o c scope = seqZ (c + 1) (m_next m - 1 - c).
Proof.
  intros Hc. pose proof (ni_origin _ _ _ Hnet) as [Hro _]. simpl in Hro.
  apply (StronglySorted_unique_strong Z.lt); [intros; lia|..].
  - pose proof (sorted_sequences _ (exported_rows_sorted iso J o c scope Hro)) as Hs. by rewrite <-list_fmap_compose in Hs.
  - apply sorted_seqZ.
  - apply NoDup_Permutation; [|apply NoDup_seqZ|].
    + pose proof (sorted_sequences _ (exported_rows_sorted iso J o c scope Hro)) as Hs. rewrite <-list_fmap_compose in Hs.
      by apply sorted_lt_NoDup.
    + intros n. rewrite elem_of_seqZ, list_elem_of_fmap. unfold exported_rows. setoid_rewrite list_elem_of_filter.
      fold s. setoid_rewrite (rows_of_elem iso); [|done]. split.
      * intros (r & -> & [Hlt _] & E). apply (ni_log _ _ _ Hnet), (history_lt _ _ _ _ (ni_history _ _ _ Hnet)) in E. lia.
      * intros Hn. destruct (Hfull n ltac:(lia)) as [r E]. exists r. pose proof (ni_log _ _ _ Hnet _ _ E) as Hr.
        apply (ni_history _ _ _ Hnet) in Hr as (_ & <- & _ & _ & _ & Hsc). split_and!; [done|lia|done|done].
Qed.

Lemma pull_progress d limit :
  replica_ok H m d → 1 <= limit <= _MAX_EXPORT_ROWS →
  ∃ d', pull limit o d = Ok d' ∧ replica_ok H m d' ∧ cursor_of d' = Z.min (cursor_of d + limit) (m_next m - 1).
Proof.
  intros Hd Hlim. pose proof (ni_history _ _ _ Hnet) as Hh. pose proof origin_src_inv as (Hsi & Hmax & Hemax).
  pose proof (replica_prefix H m d Hh Hd) as [Hc _]. pose proof (ni_meta _ _ _ Hnet) as Hm. simpl in Hm.
  destruct (export_total iso now J o m (ni_origin _ _ _ Hnet) Hm Hvalid) with (after := cursor_of d) (limit := limit)
    as (b & Hexp & _); [|lia|done|].
  { intros n r E. fold s in E. apply (ni_log _ _ _ Hnet), Hh in E as (_ & _ & ? & _). done. }
  pose proof (export_inv _ _ _ _ _ _ _ _ _ Hnet Hexp) as Hsent.
  pose proof Hexp as (m' & sc & Hm' & [= <-] & _ & _ & Hbe & _ & Hrec)%export_ok; [|apply Hnet].
  assert (m' = m) as -> by (fold s in Hm'; congruence). fold scope in Hrec.
  pose proof (exported_sequences (cursor_of d) Hc) as Hseqs.
  assert (zlen (records b) = Z.min limit (m_next m - 1 - cursor_of d)) as Hlen.
  { rewrite Hrec, zlen_fmap. unfold zlen. rewrite length_take. apply (f_equal length) in Hseqs.
    rewrite length_fmap, length_seqZ in Hseqs. rewrite Hseqs. lia. }
  destruct (apply_total H m d b) as (d' & Happ & Hcur); try done; [|apply Hsi|..].
  - intros n n' r r'. rewrite <-!full_log. apply Hsi.
  - intros i r Hi. rewrite Hrec, list_lookup_fmap in Hi. apply fmap_Some in Hi as (row & Hi & ->).
    apply lookup_take_Some in Hi as [Hi _].
    assert ((λ r, sequence (row_mutation r)) <$> exported_rows J o (cursor_of d) scope !! i = Some (sequence (row_mutation row))) as Hsq
      by by rewrite Hi.
    rewrite <-list_lookup_fmap, Hseqs in Hsq. apply lookup_seqZ in Hsq. lia.
  - exists d'. unfold pull. rewrite bind_Ok with (1 := Hexp). cbn beta. rewrite bind_Ok with (1 := Happ). cbn beta iota.
    split_and!; [done|by eapply deliver_inv|]. rewrite Hcur, Hlen. lia.
Qed.

Lemma pulls_progress n limit : ∀ d,
  replica_ok H m d → 1 <= limit <= _MAX_EXPORT_ROWS →
  ∃ d', pulls n limit o d = Ok d' ∧ replica_ok H m d'
        ∧ cursor_of d' = Z.min (cursor_of d + Z.of_nat n * limit) (m_next m - 1).
Proof.
  induction n as [|n IH]; intros d Hd Hlim; simpl.
  - exists d. pose proof (replica_prefix H m d (ni_history _ _ _ Hnet) Hd) as [? _]. split_and!; [done|done|lia].
  - destruct (pull_progress d limit Hd Hlim) as (d1 & -> & Hd1 & Hc1). simpl.
    destruct (IH d1 Hd1 Hlim) as (d2 & -> & Hd2 & Hc2). exists d2. split_and!; [done|done|]. rewrite Hc2, Hc1.
    pose proof (replica_prefix H m d (ni_history _ _ _ Hnet) Hd) as [? _]. nia.
Qed.
End unpruned.
End net.

(** ** Theorems *)

Section theorems.
Context (iso : iso_reader) (now : string) (J : Journal).

Lemma net_database_history net H m d n r :
  net_inv iso J H m net → d ∈ n_origin net :: n_replicas net → log d !! (j_source J, n) = Some r → H n = Some r.
Proof.
  intros Hnet [->|Hd]%elem_of_cons E; [by apply (ni_log _ _ _ _ _ Hnet)|].
  pose proof (ni_replicas _ _ _ _ _ Hnet) as Hr. rewrite Forall_forall in Hr.
  destruct (replica_prefix iso J H m d (ni_history _ _ _ _ _ Hnet) (Hr d Hd)) as [_ Hlog].
  rewrite Hlog in E. by destruct (decide _).
Qed.

(** C12: replicas never diverge and never skip.  Whatever the origin appends, prunes and exports, and
    in whatever order, however often and however late its pages reach the replicas, any two databases
    of the network that hold a row for the same sequence hold the same row, and a replica that holds
    a sequence holds every one before it. *)
Theorem replicas_never_diverge net :
  net_reachable iso now J net →
  (∀ d d' n r r', d ∈ n_origin net :: n_replicas net → d' ∈ n_origin net :: n_replicas net →
    log d !! (j_source J, n) = Some r → log d' !! (j_source J, n) = Some r' → r = r')
  ∧ ∀ d n k r, d ∈ n_replicas net → log d !! (j_source J, n) = Some r → 1 <= k <= n →
      is_Some (log d !! (j_source J, k)).
Proof.
  intros [(H & m & Hnet) _]%net_reachable_inv. split.
  - intros d d' n r r' Hd Hd' Hr%(net_database_history _ _ _ _ _ _ Hnet Hd) Hr'%(net_database_history _ _ _ _ _ _ Hnet Hd').
    congruence.
  - intros d n k r Hd Hr Hk. pose proof (ni_history _ _ _ _ _ Hnet) as Hh. pose proof (ni_replicas _ _ _ _ _ Hnet) as Hreps.
    rewrite Forall_forall in Hreps. destruct (replica_prefix iso J H m d Hh (Hreps d Hd)) as [Hc Hlog].
    rewrite Hlog in Hr |- *. destruct (decide (n <= cursor_of J d)); [|done]. rewrite decide_True by lia. apply Hh. lia.
Qed.

(** C20: a replica catches up.  From any state of the network whose origin was not pruned, paging from
    the replica's own cursor never fails, and once the pages cover the distance the replica's log of
    the source is the origin's. *)
Theorem replica_catches_up net d limit n :
  net_reachable iso now J net → d ∈ n_replicas net →
  (∀ k, 1 <= k <= cursor_of J (n_origin net) → is_Some (log (n_origin net) !! (j_source J, k))) →
  1 <= limit <= _MAX_EXPORT_ROWS → cursor_of J (n_origin net) <= cursor_of J d + Z.of_nat n * limit →
  ∃ d', pulls iso now J n limit (n_origin net) d = Ok d'
        ∧ ∀ k, log d' !! (j_source J, k) = log (n_origin net) !! (j_source J, k).
Proof.
  intros [(H & m & Hnet) Hvalid]%net_reachable_inv Hd Hfull Hlim Hdist.
  destruct net as [o sent reps]; simpl in *.
  assert (cursor_of J o = m_next m - 1) as Hco.
  { unfold cursor_of. pose proof (ni_meta _ _ _ _ _ Hnet) as Hm. simpl in Hm. by rewrite Hm. }
  assert (∀ k, 1 <= k < m_next m → is_Some (log o !! (j_source J, k))) as Hfull' by (intros; apply Hfull; lia).
  pose proof (ni_replicas _ _ _ _ _ Hnet) as Hreps. rewrite Forall_forall in Hreps.
  destruct (pulls_progress iso now J H m o sent reps Hnet Hvalid Hfull' n limit d (Hreps d Hd) Hlim) as (d' & Hp & Hd' & Hc).
  exists d'. split; [done|]. intros k. rewrite (full_log iso J H m o sent reps Hnet Hfull').
  pose proof (ni_history _ _ _ _ _ Hnet) as Hh. destruct (replica_prefix iso J H m d' Hh Hd') as [_ ->].
  destruct (decide _); [done|]. destruct (H k) eqn:E; [|done]. apply (history_lt J _ _ _ _ Hh) in E. lia.
Qed.

(** A replica that holds no row of the source, whose cursor, if it has one, is at the start. *)
Definition unfilled (epoch : Z) (d : Database) : Prop :=
  (∀ n, log d !! (j_source J, n) = None)
  ∧ ∀ m, meta d !! j_source J = Some m → m_next m = 1 ∧ m_scope m = j_scope J ∧ m_epoch m <= epoch.

Lemma fresh_unfilled epoch d : fresh_replica iso now J d → unfilled epoch d.
Proof.
  intros [[_ Hi]%memory_reachable_inv Hm]. specialize (Hi (j_source J)). unfold cursor_inv in Hi. rewrite Hm in Hi.
  split; [done|]. by rewrite Hm.
Qed.

Lemma exported_page_of_pruned H m o sent reps after limit project b :
  net_inv iso J H m (MkNet o sent reps) → _validate_source iso now (j_source J) (j_scope J) = Ok tt →
  log o !! (j_source J, 1) = None → export iso now J o after limit project = Ok b →
  wf_batch iso b ∧ b_source_id b = j_source J ∧ b_source_epoch b = m_epoch m
  ∧ (∀ r, r ∈ records b → sequence r ≠ 1 ∧ in_scope (j_scope J) (MkRow r (digest r)) = true).
Proof.
  intros Hnet Hvalid Hgone Hexp. pose proof (export_inv _ _ _ _ _ _ _ _ _ _ _ _ Hnet Hexp) as (Hwf & Hb & _ & Hrec).
  apply export_ok in Hexp as (m' & sc & Hm' & _ & _ & _ & He & _ & Hrows); [|apply Hnet].
  pose proof (ni_meta _ _ _ _ _ Hnet) as Hm. simpl in Hm. simplify_eq. split_and!; [done..|].
  intros r Hr. split; [|by apply Hrec, (ni_history _ _ _ _ _ Hnet) in Hr as (_ & _ & _ & _ & _ & Hp)].
  intros E. rewrite Hrows in Hr. apply list_elem_of_fmap in Hr as (row & -> & (i & Hi & _)%elem_of_take).
  apply list_elem_of_lookup_2 in Hi. unfold exported_rows in Hi. apply list_elem_of_filter in Hi as [_ Hi].
  apply (rows_of_elem iso) in Hi; [|apply Hnet]. rewrite E in Hi. congruence.
Qed.

(** What a page without the first mutation does to such a replica. *)
Lemma unfilled_page epoch d b :
  unfilled epoch d → wf_batch iso b → _validate_source iso now (j_source J) (j_scope J) = Ok tt →
  b_source_id b = j_source J → b_source_epoch b = epoch →
  (∀ r, r ∈ records b → sequence r ≠ 1 ∧ in_scope (j_scope J) (MkRow r (digest r)) = true) →
  match records b with
  | [] => ∃ d', apply_memory_replication_batch_in_transaction iso now d b (j_scope J) = Ok (d', 0) ∧ unfilled epoch d'
  | _ => apply_memory_replication_batch_in_transaction iso now d b (j_scope J)
         = throw MemoryReplicationError "replication batch has a sequence gap"
  end.
Proof.
  intros [Hlog Hmeta] Hwf Hvalid Hb He Hrec. destruct (wf_batch_records iso b Hwf) as (Hall & _ & _ & _ & _ & Hlen).
  unfold apply_memory_replication_batch_in_transaction.
  rewrite bind_Ok with (a := tt) by (by apply require_true, Z.leb_le). cbn beta. rewrite bind_Ok with (a := tt).
  2: { destruct (j_scope J) as [p|] eqn:Esc; [|done]. rewrite Hb, Hvalid. simpl. apply require_true, forallb_forall.
    intros r Hr%list_elem_of_In. apply Hrec in Hr as [_ Hp]. done. }
  cbn beta. rewrite Hb.
  erewrite bind_Ok with (a := (set_meta d (j_source J) (MkMeta epoch 1 (j_scope J)), MkMeta epoch 1 (j_scope J))).
  2: { destruct (meta d !! j_source J) as [[me mn ms]|] eqn:Em; [|by rewrite He]. destruct (Hmeta _ eq_refl) as (Hn & Hsc & Hle). simpl in *. subst.
    rewrite bool_decide_true by done. rewrite bind_Ok with (a := tt) by done. cbn beta.
    rewrite bind_Ok with (a := tt) by (apply require_true, negb_true_iff, Z.ltb_ge; lia). done. }
  cbn beta iota. destruct (records b) as [|r l] eqn:El.
  - eexists. split; [reflexivity|]. split; [done|]. cbn [set_meta meta]. intros m. rewrite lookup_insert_eq. by intros [= <-].
  - cbn [apply_records m_epoch m_next]. apply Forall_cons in Hall as [(_ & Hs & Hre & _) _].
    destruct (Hrec r ltac:(left)) as [Hseq%Z.eqb_neq _]. unfold digest_at. cbn [log set_meta]. rewrite Hs, Hb, Hlog. simpl.
    rewrite Hre, He, Z.eqb_refl. simpl. by rewrite Hseq.
Qed.

(** A replica that is handed pages one after the other; a refused page changes nothing. *)
Definition feed (d : Database) (pages : list MemoryReplicationBatch) : Database :=
  foldl (λ d b, match apply_memory_replication_batch_in_transaction iso now d b (j_scope J) with Ok (d', _) => d' | Err _ => d end) d pages.

(** C30: pruning the first mutation closes the source to new replicas.  Once the origin's row 1 is
    gone, a fresh replica that is handed any pages the origin exports, at whatever cursors, limits and
    projects, as often as one likes, never holds a row of the source: a page with records is refused
    for its sequence gap, and a page without any brings nothing. *)
Theorem pruned_source_refuses_new_replica net d pages after limit project b :
  net_reachable iso now J net → fresh_replica iso now J d → log (n_origin net) !! (j_source J, 1) = None →
  Forall (λ b, ∃ after limit project, export iso now J (n_origin net) after limit project = Ok b) pages →
  export iso now J (n_origin net) after limit project = Ok b →
  (∀ n, log (feed d pages) !! (j_source J, n) = None)
  ∧ match records b with
    | [] => ∃ d', apply_memory_replication_batch_in_transaction iso now (feed d pages) b (j_scope J) = Ok (d', 0)
                  ∧ ∀ n, log d' !! (j_source J, n) = None
    | _ => apply_memory_replication_batch_in_transaction iso now (feed d pages) b (j_scope J)
           = throw MemoryReplicationError "replication batch has a sequence gap"
    end.
Proof.
  intros [(H & m & Hnet) Hvalid]%net_reachable_inv Hd Hgone Hpages Hexp. destruct net as [o sent reps]; simpl in *.
  apply (fresh_unfilled (m_epoch m)) in Hd. assert (unfilled (m_epoch m) (feed d pages)) as Hfeed.
  { revert d Hd. induction Hpages as [|p l (a & li & pr & Hp) _ IH]; intros d Hd; [done|]. simpl. apply IH.
    destruct (exported_page_of_pruned _ _ _ _ _ _ _ _ _ Hnet Hvalid Hgone Hp) as (Hwf & Hb & He & Hrec).
    pose proof (unfilled_page _ _ _ Hd Hwf Hvalid Hb He Hrec) as Hu. destruct (records p); [by destruct Hu as (d' & -> & ?)|by rewrite Hu]. }
  split; [apply Hfeed|]. destruct (exported_page_of_pruned _ _ _ _ _ _ _ _ _ Hnet Hvalid Hgone Hexp) as (Hwf & Hb & He & Hrec).
  pose proof (unfilled_page _ _ _ Hfeed Hwf Hvalid Hb He Hrec) as Hu. destruct (records b); [|done].
  destruct Hu as (d' & ? & [? _]). by exists d'.
Qed.
End theorems.

(** ** Witnesses *)

Definition demo_page (after limit : Z) : MemoryReplicationBatch :=
  match export demo_iso demo_now demo_journal demo_db after limit None with
  | Ok b => b | Err _ => MkBatch "" 0 0 [] 0 false end.
Definition demo_opened_replica (id : string) : Database := db_of (Journal_init demo_iso demo_now empty_db id (Some "global")).
Definition demo_replica : Database :=
  db_of (apply_memory_replication_batch_in_transaction demo_iso demo_now (demo_opened_replica "r1") (demo_page 0 3) (Some "global")).
Definition demo_net : Net := MkNet demo_db [demo_page 0 3] [demo_replica; demo_opened_replica "r2"].

Lemma demo_fresh id :
  Journal_init demo_iso demo_now empty_db id (Some "global") = Ok (demo_opened_replica id, MkJournal id (Some "global")) →
  meta (demo_opened_replica id) !! "cluster-a" = None → fresh_replica demo_iso demo_now demo_journal (demo_opened_replica id).
Proof. intros Ho Hm. split; [|done]. apply rtc_once. by eapply step_open. Qed.

Lemma demo_r1 : fresh_replica demo_iso demo_now demo_journal (demo_opened_replica "r1").
Proof. apply demo_fresh; vm_compute; reflexivity. Qed.

Lemma demo_r2 : fresh_replica demo_iso demo_now demo_journal (demo_opened_replica "r2").
Proof. apply demo_fresh; vm_compute; reflexivity. Qed.

Lemma demo_start reps :
  Forall (fresh_replica demo_iso demo_now demo_journal) reps →
  net_reachable demo_iso demo_now demo_journal (MkNet demo_db [] reps).
Proof.
  intros Hreps. exists (MkNet demo_opened [] reps).
  split; [exists demo_opened, reps; split; [apply demo_opened_eq|done]|].
  apply rtc_once. eapply net_append; [apply demo_records_wf|apply demo_db_eq].
Qed.

Lemma demo_net_reachable : net_reachable demo_iso demo_now demo_journal demo_net.
Proof.
  destruct (demo_start [demo_opened_replica "r1"; demo_opened_replica "r2"]) as (start & Hstart & Hsteps).
  { repeat constructor; first [apply demo_r1|apply demo_r2]. }
  exists start. split; [done|].
  eapply rtc_r; [eapply rtc_r; [exact Hsteps|]|].
  - eapply (net_export demo_iso demo_now demo_journal demo_db 0 3 None (demo_page 0 3)). vm_compute. reflexivity.
  - eapply (net_deliver demo_iso demo_now demo_journal demo_db (demo_page 0 3) [demo_page 0 3]
      [demo_opened_replica "r1"; demo_opened_replica "r2"] 0%nat (demo_opened_replica "r1") demo_replica 3);
      [left|done|vm_compute; reflexivity].
Qed.

Lemma replicas_never_diverge_witness :
  is_Some (log demo_replica !! ("cluster-a", 2)) ∧ log demo_replica !! ("cluster-a", 2) = log demo_db !! ("cluster-a", 2).
Proof.
  destruct (replicas_never_diverge demo_iso demo_now demo_journal demo_net demo_net_reachable) as [Hsame _].
  assert (is_Some (log demo_db !! ("cluster-a", 2))) as [r' Hr'] by (vm_compute; eauto).
  assert (is_Some (log demo_replica !! ("cluster-a", 2))) as [r Hr] by (vm_compute; eauto).
  split; [rewrite Hr; eauto|]. rewrite Hr, Hr'. f_equal.
  apply (Hsame demo_replica demo_db 2); [right; left|left|exact Hr|exact Hr'].
Defined.

Lemma replica_catches_up_witness :
  ∃ d', pulls demo_iso demo_now demo_journal 1 2 demo_db demo_replica = Ok d'
        ∧ ∀ k, log d' !! ("cluster-a", k) = log demo_db !! ("cluster-a", k).
Proof.
  apply (replica_catches_up demo_iso demo_now demo_journal demo_net demo_replica 2 1 demo_net_reachable).
  - left.
  - intros k Hk. assert (k = 1 ∨ k = 2 ∨ k = 3 ∨ k = 4) as [->|[->|[->| ->]]].
    { assert (cursor_of demo_journal (n_origin demo_net) = 4) as E by (vm_compute; reflexivity). lia. }
    all: vm_compute; eauto.
  - done.
  - vm_compute. done.
Defined.

Definition demo_pruned : Database := db_of (prune_before demo_journal demo_db 4 true 10).

Lemma demo_pruned_reachable :
  net_reachable demo_iso demo_now demo_journal (MkNet demo_pruned [demo_page 0 3] [demo_replica; demo_opened_replica "r2"]).
Proof.
  destruct demo_net_reachable as (start & Hstart & Hsteps). exists start. split; [done|].
  eapply rtc_r; [exact Hsteps|]. eapply (net_prune _ _ _ demo_db 4 true 10 2). vm_compute. reflexivity.
Qed.

Definition demo_pruned_page : MemoryReplicationBatch :=
  match export demo_iso demo_now demo_journal demo_pruned 0 10 None with
  | Ok b => b | Err _ => MkBatch "" 0 0 [] 0 false end.

Lemma pruned_source_refuses_new_replica_witness :
  let d := feed demo_iso demo_now demo_journal (demo_opened_replica "r2") [demo_pruned_page] in
  log d !! ("cluster-a", 2) = None
  ∧ apply_memory_replication_batch_in_transaction demo_iso demo_now d demo_pruned_page (Some "global")
    = throw MemoryReplicationError "replication batch has a sequence gap".
Proof.
  assert (export demo_iso demo_now demo_journal demo_pruned 0 10 None = Ok demo_pruned_page) as Hexp by (vm_compute; reflexivity).
  assert (records demo_pruned_page ≠ []) as Hne by (vm_compute; discriminate).
  destruct (pruned_source_refuses_new_replica demo_iso demo_now demo_journal _ (demo_opened_replica "r2") [demo_pruned_page] 0 10 None
    demo_pruned_page demo_pruned_reachable demo_r2) as [Hnone Hpage].
  - vm_compute. reflexivity.
  - repeat constructor. exists 0, 10, None. exact Hexp.
  - exact Hexp.
  - split; [exact (Hnone 2)|]. destruct (records demo_pruned_page); [by destruct Hne|exact Hpage].
Defined.

(** A tombstone pruned at the origin frees its entity's version numbers there, and only there: the
    origin accepts version 1 of [f2] again, the replica that holds the tombstone refuses the page. *)
Definition demo_reused : Database :=
  db_of (append demo_iso demo_now demo_journal demo_forgotten [demo_mutation 5 "f2" 1 "upsert" [("text", JStr "d")]]).
Definition demo_full_replica : Database :=
  db_of (apply_memory_replication_batch_in_transaction demo_iso demo_now (demo_opened_replica "r1") (demo_page 0 10) (Some "global")).

Example pruned_tombstone_blocks_replica :
  res_map snd (append demo_iso demo_now demo_journal demo_forgotten [demo_mutation 5 "f2" 1 "upsert" [("text", JStr "d")]]) = Ok 1
  ∧ pull demo_iso demo_now demo_journal 10 demo_reused demo_full_replica
    = throw MemoryReplicationError "replication entity version must advance".
Proof. split; vm_compute; reflexivity. Qed.
