(* ===== verification/MemoryCoordinator.v ===== *)
(** Replication to explicit sinks, and the receiving side: [application/memory/replication.py].

    A sink is any object with an identity and an [apply]; the coordinator and the receiver are proved
    against that interface ([MemorySink]), which the SQLite sink implements.  [replicate] gives the
    sinks after the call and the outcome, since a sink keeps what it stored when the call raises. *)
From S2P Require Import Prelude PyText CanonicalJson Sha256 MemoryReplication MemoryJournal MemoryNetwork.
From Stdlib Require Import Ascii.

Local Open Scope Z_scope.

Definition _MAX_REPLICAS : Z := 64.
Definition _MAX_BATCH_RECORDS : Z := 1024.

(** The validators of this module: no upper bound on the integers. *)
Definition app_non_negative (z : Z) (field : string) : res Z :=
  _ ← require (0 <=? z) MemoryReplicationError (field +:+ " must be a non-negative integer"); Ok z.
Definition app_positive (z : Z) (field : string) : res Z :=
  _ ← require (1 <=? z) MemoryReplicationError (field +:+ " must be a positive integer"); Ok z.

(** [apply] returns a receipt, or something else, or raises. *)
Class MemorySink (T : Type) := {
  sink_identity : T → json;
  sink_apply : T → MemoryReplicationBatch → T * res (dyn MemoryReplicaReceipt)
}.

Class MemorySource (S : Type) := {
  source_identity : S → json;
  source_export : S → Z → Z → option string → res (dyn MemoryReplicationBatch)
}.

(** ** The SQLite sink *)

Inductive fault := Healthy | Unreachable | LostReceipt.

(** A journal behind a sink, and what becomes of the next call on it. *)
Record Peer := MkPeer { p_identity : string; p_journal : Journal; p_db : Database; p_fault : fault }.

Definition SQLiteMemoryReplicationSink_init (identity : json) (journal : Journal) (db : Database) : res Peer :=
  id ← _identity identity "replica identity";
  _ ← require (String.eqb (j_source journal) id) MemoryReplicationError
        "replica identity must match the journal source identity";
  Ok (MkPeer id journal db Healthy).

Section sqlite.
Context (iso : iso_reader) (now : string).

Definition set_db (p : Peer) (db : Database) : Peer := MkPeer (p_identity p) (p_journal p) db (p_fault p).

(** The receipt is built after the journal committed. *)
Definition SQLiteMemoryReplicationSink_apply (p : Peer) (b : MemoryReplicationBatch) : Peer * res (dyn MemoryReplicaReceipt) :=
  match apply iso now (p_journal p) (p_db p) b with
  | Err e => (p, Err e)
  | Ok (db', inserted) =>
      (set_db p db',
       receipt ← Receipt_init (JStr (p_identity p)) (JStr (b_source_id b)) (JInt (b_source_epoch b))
                   (JInt (next_sequence b)) (JStr (batch_digest_of b)) (JBool true) (JInt inserted);
       Ok (Inst receipt))
  end.

Definition peer_apply (p : Peer) (b : MemoryReplicationBatch) : Peer * res (dyn MemoryReplicaReceipt) :=
  match p_fault p with
  | Unreachable => (p, throw RuntimeError "unreachable")
  | Healthy => SQLiteMemoryReplicationSink_apply p b
  | LostReceipt => ((SQLiteMemoryReplicationSink_apply p b).1, throw RuntimeError "connection lost")
  end.

#[local] Instance peer_sink : MemorySink Peer := {
  sink_identity p := JStr (p_identity p);
  sink_apply := peer_apply
}.
End sqlite.

(** The authoritative source. *)
Record SourceJournal := MkSource { sj_journal : Journal; sj_db : Database }.

Definition journal_export (iso : iso_reader) (now : string) (x : SourceJournal) (after limit : Z) (project : option string)
  : res (dyn MemoryReplicationBatch) :=
  b ← export iso now (sj_journal x) (sj_db x) after limit project; Ok (Inst b).

#[local] Instance journal_source (iso : iso_reader) (now : string) : MemorySource SourceJournal := {
  source_identity x := JStr (j_source (sj_journal x));
  source_export := journal_export iso now
}.

(** ** Outcomes *)

Record MemoryReplicationOutcome := MkOutcome {
  o_source_id : string;
  o_source_epoch : Z;
  o_after_sequence : Z;
  o_next_sequence : Z;
  o_batch_digest : string;
  o_status : string;
  o_inserted_records : Z;
  o_replica_ids : list string;
  o_failed_replica_ids : list string;
  o_failure_reasons : list (string * string)
}.

Definition all_identities (field : string) (l : list string) : res unit :=
  _ ← mapM_res (λ s, _identity (JStr s) field) l; Ok tt.

Definition Outcome_init (o : MemoryReplicationOutcome) : res MemoryReplicationOutcome :=
  _ ← _identity (JStr (o_source_id o)) "source_id";
  _ ← app_positive (o_source_epoch o) "source_epoch";
  _ ← app_non_negative (o_after_sequence o) "after_sequence";
  _ ← app_non_negative (o_next_sequence o) "next_sequence";
  _ ← _digest (JStr (o_batch_digest o)) "batch_digest must be a SHA-256 digest";
  _ ← require (mem (o_status o) ["empty"; "replicated"; "pending"]) MemoryReplicationError "replication status is unsupported";
  _ ← app_non_negative (o_inserted_records o) "inserted_records";
  _ ← all_identities "replica identity" (o_replica_ids o);
  _ ← all_identities "failed replica identity" (o_failed_replica_ids o);
  _ ← mapM_res (λ '(replica, reason),
        _ ← _identity (JStr replica) "failed replica identity";
        _identity (JStr reason) "failure reason") (o_failure_reasons o);
  _ ← require (bool_decide (head (o_replica_ids o) = Some (o_source_id o))) MemoryReplicationError
        "source must lead replica evidence";
  _ ← require (bool_decide (NoDup (o_replica_ids o))) MemoryReplicationError "durable replica identities must be unique";
  _ ← require (bool_decide (NoDup (o_failed_replica_ids o))) MemoryReplicationError "failed replica identities must be unique";
  _ ← require (bool_decide ((o_failure_reasons o).*1 = o_failed_replica_ids o)) MemoryReplicationError
        "failure reasons must cover failed replicas in order";
  _ ← require (forallb (λ i, negb (mem i (o_failed_replica_ids o))) (o_replica_ids o)) MemoryReplicationError
        "replica cannot be both durable and failed";
  Ok o.

(** ** The coordinator *)

Record Coordinator := MkCoordinator {
  c_source_id : string;
  c_sink_identities : list string;
  c_minimum : Z;
  c_limit : Z;
  c_project : option string
}.

Definition _receipt_failure (b : MemoryReplicationBatch) (identity : string) (receipt : dyn MemoryReplicaReceipt)
  : option string :=
  match receipt with
  | Foreign => Some "invalid_receipt"
  | Inst r =>
      if negb (String.eqb (replica_id r) identity) then Some "receipt_identity_mismatch"
      else if negb (String.eqb (r_source_id r) (b_source_id b)) then Some "receipt_source_mismatch"
      else if negb (r_source_epoch r =? b_source_epoch b) then Some "receipt_epoch_mismatch"
      else if negb (r_next_sequence r =? next_sequence b) then Some "receipt_sequence_mismatch"
      else if negb (String.eqb (batch_digest r) (batch_digest_of b)) then Some "receipt_digest_mismatch"
      else if negb (durable r) then Some "receipt_not_durable"
      else if zlen (records b) <? inserted_records r then Some "receipt_inserted_count_mismatch"
      else None
  end.

(** [durable], [failed], [reasons] and [inserted_records] of the loop. *)
Record Tally := MkTally { t_durable : list string; t_failed : list string; t_reasons : list (string * string); t_inserted : Z }.
Definition fail_sink (t : Tally) (i reason : string) : Tally :=
  MkTally (t_durable t) (t_failed t ++ [i]) (t_reasons t ++ [(i, reason)]) (t_inserted t).
Definition count_sink (t : Tally) (i : string) (inserted : Z) : Tally :=
  MkTally (t_durable t ++ [i]) (t_failed t) (t_reasons t) (t_inserted t + inserted).

Section coordinator.
Context {S T : Type} `{!MemorySource S} `{!MemorySink T}.

Fixpoint collect_identities (source : string) (seen : list string) (sinks : list T) : res (list string) :=
  match sinks with
  | [] => Ok seen
  | k :: rest =>
      i ← _identity (sink_identity k) "replica identity";
      _ ← require (negb (String.eqb i source)) MemoryReplicationError "source cannot also be a replica sink";
      _ ← require (negb (mem i seen)) MemoryReplicationError "replica identities must be unique";
      collect_identities source (seen ++ [i]) rest
  end.

Definition Coordinator_init (source : S) (sinks : list T) (minimum limit project : json) : res Coordinator :=
  id ← _identity (source_identity source) "source_id";
  _ ← require (zlen sinks <=? _MAX_REPLICAS) MemoryReplicationError "sinks must contain 0..64 replicas";
  ids ← collect_identities id [] sinks;
  minimum' ← match js_int minimum with
             | Some z => Ok z
             | None => throw MemoryReplicationError "minimum_data_replicas must be an integer"
             end;
  _ ← require ((1 <=? minimum') && (minimum' <=? zlen sinks + 1)) MemoryReplicationError
        "minimum_data_replicas exceeds configured replicas";
  limit' ← match js_int limit with
           | Some z =>
               _ ← require ((1 <=? z) && (z <=? _MAX_BATCH_RECORDS)) MemoryReplicationError "limit must be within 1..1024"; Ok z
           | None => throw MemoryReplicationError "limit must be within 1..1024"
           end;
  project' ← match project with
             | JNull => Ok None
             | JStr p => if String.eqb p "" then throw MemoryReplicationError "project must be a non-empty scope"
                         else Ok (Some p)
             | _ => throw MemoryReplicationError "project must be a non-empty scope"
             end;
  Ok (MkCoordinator id ids minimum' limit' project').

(** The body of the loop, for one sink. *)
Definition deliver_one (b : MemoryReplicationBatch) (t : Tally) (i : string) (k : T) : Tally * T :=
  if negb (bool_decide (js_str (sink_identity k) = Some i)) then (fail_sink t i "sink_identity_changed", k)
  else
    match sink_apply k b with
    | (k', Err _) => (fail_sink t i "sink_failure", k')
    | (k', Ok receipt) =>
        match _receipt_failure b i receipt, receipt with
        | None, Inst r => (count_sink t i (inserted_records r), k')
        | None, Foreign => (t, k')
        | Some reason, _ => (fail_sink t i reason, k')
        end
    end.

(** [for expected_identity, sink in zip(self._sink_identities, self.sinks)] *)
Fixpoint deliver (b : MemoryReplicationBatch) (t : Tally) (ids : list string) (sinks : list T) : Tally * list T :=
  match ids, sinks with
  | i :: ids', k :: sinks' =>
      let '(t', k') := deliver_one b t i k in
      let '(t2, sinks2) := deliver b t' ids' sinks' in
      (t2, k' :: sinks2)
  | _, _ => (t, sinks)
  end.

Definition checked_export (c : Coordinator) (source : S) (after : Z) : res MemoryReplicationBatch :=
  after' ← app_non_negative after "after_sequence";
  exported ← source_export source after' (c_limit c) (c_project c);
  b ← inst_of TypeError "source export must return MemoryReplicationBatch" exported;
  _ ← require (String.eqb (b_source_id b) (c_source_id c)) MemoryReplicationError
        "source export identity does not match source";
  _ ← require (after_sequence b =? after') MemoryReplicationError "source export cursor does not match request";
  _ ← require (zlen (records b) <=? c_limit c) MemoryReplicationError "source export exceeds coordinator batch limit";
  Ok b.

Definition outcome (b : MemoryReplicationBatch) (status : string) (t : Tally) : MemoryReplicationOutcome :=
  MkOutcome (b_source_id b) (b_source_epoch b) (after_sequence b) (next_sequence b) (batch_digest_of b) status
    (t_inserted t) (t_durable t) (t_failed t) (t_reasons t).

Definition replicate (c : Coordinator) (source : S) (sinks : list T) (after : Z)
  : list T * res MemoryReplicationOutcome :=
  match checked_export c source after with
  | Err e => (sinks, Err e)
  | Ok b =>
      let start := MkTally [b_source_id b] [] [] 0 in
      match records b with
      | [] => (sinks, Outcome_init (outcome b "empty" start))
      | _ =>
          let '(t, sinks') := deliver b start (c_sink_identities c) sinks in
          let status := if c_minimum c <=? zlen (t_durable t) then "replicated" else "pending" in
          (sinks', Outcome_init (outcome b status t))
      end
  end.
End coordinator.

(** ** The receiver *)

Record Receiver := MkReceiver {
  v_identity : string;
  v_api_key : string;
  v_accepted : list string;
  v_max_body : Z
}.

Definition is_key_char (c : ascii) : bool := ascii_between 33 126 c.
Definition is_ascii_text (s : string) : bool := str_forallb (ascii_between 0 127) s.

(** [hmac.compare_digest] on texts *)
Definition compare_digest (a b : string) : res bool :=
  _ ← require (is_ascii_text a && is_ascii_text b) TypeError "comparing strings with non-ASCII characters is not supported";
  Ok (String.eqb a b).

Section receiver.
Context {T : Type} `{!MemorySink T} (iso : iso_reader).

Definition Receiver_init (sink : T) (api_key : json) (accepted : list json) (max_body : Z) : res Receiver :=
  id ← _identity (sink_identity sink) "replica identity";
  key ← match js_str api_key with
        | Some s => _ ← require ((1 <=? py_len s) && (py_len s <=? 512)) ValueError
                          "memory replication API key must be 1..512 characters"; Ok s
        | None => throw ValueError "memory replication API key must be 1..512 characters"
        end;
  _ ← require (str_forallb is_key_char key) ValueError "memory replication API key must contain printable ASCII";
  _ ← require ((1 <=? zlen accepted) && (zlen accepted <=? _MAX_REPLICAS)) ValueError
        "accepted_source_ids must contain 1..64 identities";
  normalized ← mapM_res (λ v, _identity v "accepted source identity") accepted;
  _ ← require (bool_decide (NoDup normalized)) ValueError "accepted_source_ids must not contain duplicates";
  _ ← require (negb (mem id normalized)) ValueError "receiver identity cannot be an accepted source";
  _ ← require ((1024 <=? max_body) && (max_body <=? 64 * 1024 * 1024)) ValueError
        "memory replication body bound must be within 1024..67108864 bytes";
  Ok (MkReceiver id key normalized max_body).

Definition authenticated (v : Receiver) (authorization : json) : res bool :=
  match js_str authorization with
  | None => Ok false
  | Some a => if 520 <? py_len a then Ok false else compare_digest a ("Bearer " +:+ v_api_key v)
  end.

(** What [receive] checks before it touches the sink. *)
Definition admit_batch (v : Receiver) (authorization payload : json) : res MemoryReplicationBatch :=
  ok ← authenticated v authorization;
  _ ← require ok PermissionError "memory replication authentication is required";
  wire ← match payload with
         | JObj d =>
             _ ← require (subset d.*1 ["object"; "batch"] && subset ["object"; "batch"] d.*1) MemoryReplicationError
                   "memory replication request envelope is invalid";
             Ok d
         | _ => throw MemoryReplicationError "memory replication request envelope is invalid"
         end;
  _ ← require (bool_decide (js_str (wire_get "object" wire) = Some "memory_replication_batch")) MemoryReplicationError
        "memory replication request envelope is invalid";
  b ← match batch_from_dict iso (wire_get "batch" wire) with
      | Ok b => Ok b
      | Err e => if caught_as_value_or_type (exn_cls e) then throw MemoryReplicationError (exn_msg e) else Err e
      end;
  _ ← require (mem (b_source_id b) (v_accepted v)) PermissionError "memory replication source is not accepted";
  Ok b.

Definition receipt_matches (v : Receiver) (b : MemoryReplicationBatch) (r : MemoryReplicaReceipt) : bool :=
  String.eqb (replica_id r) (v_identity v) && String.eqb (r_source_id r) (b_source_id b)
  && (r_source_epoch r =? b_source_epoch b) && (r_next_sequence r =? next_sequence b)
  && String.eqb (batch_digest r) (batch_digest_of b) && durable r && (inserted_records r <=? zlen (records b)).

Definition checked_receipt (v : Receiver) (b : MemoryReplicationBatch) (answer : res (dyn MemoryReplicaReceipt))
  : res MemoryReplicaReceipt :=
  match answer with
  | Err e =>
      match exn_cls e with
      | MemoryReplicationError | PermissionError => Err e
      | _ => throw RuntimeError "memory replication sink is unavailable"
      end
  | Ok answered =>
      receipt ← inst_of MemoryReplicationError "memory replication sink returned an invalid receipt" answered;
      _ ← require (receipt_matches v b receipt) MemoryReplicationError
            "memory replication sink receipt does not match the batch";
      Ok receipt
  end.

Definition receive (v : Receiver) (sink : T) (authorization payload : json) : T * res MemoryReplicaReceipt :=
  match admit_batch v authorization payload with
  | Err e => (sink, Err e)
  | Ok b => let '(sink', answer) := sink_apply sink b in (sink', checked_receipt v b answer)
  end.
End receiver.

(** ** One round, declaratively *)

#[local] Arguments _receipt_failure : simpl never.

(** What the coordinator relies on: the objects it is handed went through their constructors. *)
Class SinkLaws (T : Type) `{!MemorySink T} : Prop :=
  sink_receipt_wf : ∀ k b k' r, sink_apply k b = (k', Ok (Inst r)) → wf_receipt r.
Class SourceLaws (iso : iso_reader) (S : Type) `{!MemorySource S} : Prop :=
  source_batch_wf : ∀ x after limit project b, source_export x after limit project = Ok (Inst b) → wf_batch iso b.

Section rounds.
Context {S T : Type} `{!MemorySource S} `{!MemorySink T}.
Implicit Types (b : MemoryReplicationBatch) (k : T).

(** The reason a sink fails, or the rows its matching receipt reports. *)
Definition verdict b (i : string) k : string + Z :=
  if negb (bool_decide (js_str (sink_identity k) = Some i)) then inl "sink_identity_changed"
  else match (sink_apply k b).2 with
       | Err _ => inl "sink_failure"
       | Ok Foreign => inl "invalid_receipt"
       | Ok (Inst r) => match _receipt_failure b i (Inst r) with Some reason => inl reason | None => inr (inserted_records r) end
       end.

Definition next_sink b (i : string) k : T :=
  if negb (bool_decide (js_str (sink_identity k) = Some i)) then k else (sink_apply k b).1.

Definition durable_ids b (l : list (string * T)) : list string :=
  omap (λ x, match verdict b x.1 x.2 with inr _ => Some x.1 | inl _ => None end) l.
Definition failures b (l : list (string * T)) : list (string * string) :=
  omap (λ x, match verdict b x.1 x.2 with inl reason => Some (x.1, reason) | inr _ => None end) l.
Definition inserted_total b (l : list (string * T)) : Z :=
  foldr (λ x acc, match verdict b x.1 x.2 with inr n => n | inl _ => 0 end + acc) 0 l.

Lemma deliver_one_verdict b t i k :
  deliver_one b t i k
  = (match verdict b i k with inl reason => fail_sink t i reason | inr n => count_sink t i n end, next_sink b i k).
Proof.
  unfold deliver_one, verdict, next_sink. destruct (negb _); [done|]. destruct (sink_apply k b) as [k' [[r|]|e]]; simpl; [|done..].
  by destruct (_receipt_failure b i (Inst r)).
Qed.

Lemma deliver_spec b ids : ∀ t sinks,
  length ids = length sinks →
  deliver b t ids sinks
  = (MkTally (t_durable t ++ durable_ids b (zip ids sinks)) (t_failed t ++ (failures b (zip ids sinks)).*1)
       (t_reasons t ++ failures b (zip ids sinks)) (t_inserted t + inserted_total b (zip ids sinks)),
     zip_with (next_sink b) ids sinks).
Proof.
  induction ids as [|i ids IH]; intros t [|k sinks] Hl; try done; simpl.
  - rewrite !app_nil_r, Z.add_0_r. by destruct t.
  - rewrite deliver_one_verdict, IH by (simpl in Hl; lia).
    destruct (verdict b i k) as [reason|n]; simpl; f_equal; unfold fail_sink, count_sink; simpl;
      rewrite <-!(assoc_L (++)), ?Z.add_assoc, ?Z.add_0_r; done.
Qed.

Lemma durable_ids_sub b (l : list (string * T)) : sublist (durable_ids b l) l.*1.
Proof.
  induction l as [|[i k] l IH]; simpl; [constructor|]. destruct (verdict b i k); simpl; [by apply sublist_cons|by apply sublist_skip].
Qed.

Lemma failures_sub b (l : list (string * T)) : sublist (failures b l).*1 l.*1.
Proof.
  induction l as [|[i k] l IH]; simpl; [constructor|]. destruct (verdict b i k); simpl; [by apply sublist_skip|by apply sublist_cons].
Qed.

(** Every configured sink is on exactly one side. *)
Lemma round_partition b (l : list (string * T)) : durable_ids b l ++ (failures b l).*1 ≡ₚ l.*1.
Proof.
  induction l as [|[i k] l IH]; simpl; [done|]. destruct (verdict b i k); simpl; [|by rewrite IH].
  rewrite <-Permutation_middle. by rewrite IH.
Qed.

Lemma collect_identities_ok source sinks : ∀ seen ids,
  NoDup seen → source ∉ seen → Forall (λ i, is_identity i = true) seen → collect_identities source seen sinks = Ok ids →
  NoDup ids ∧ (source ∉ ids) ∧ Forall (λ i, is_identity i = true) ids
  ∧ ∃ l, ids = seen ++ l ∧ Forall2 (λ i k, sink_identity k = JStr i) l sinks.
Proof.
  induction sinks as [|k sinks IH]; intros seen ids Hn Hs Hi; simpl.
  - intros [= <-]. split_and!; [done..|]. exists []. by rewrite app_nil_r.
  - intros (i & [Hk Hid]%text_matching_ok & (? & H1%require_ok & (? & H2%require_ok & H)%bind_ok)%bind_ok)%bind_ok.
    apply negb_true_iff in H1, H2. apply String.eqb_neq in H1. apply not_true_iff_false in H2. rewrite mem_spec in H2.
    apply IH in H as (? & ? & ? & l & -> & Hl).
    + split_and!; [done..|]. exists (i :: l). rewrite <-(assoc_L (++)). split; [done|by constructor].
    + apply NoDup_app. split_and!; [done| |apply NoDup_singleton]. set_solver.
    + set_solver.
    + apply Forall_app. split; [done|by apply Forall_singleton].
Qed.

Lemma Coordinator_init_ok source sinks minimum limit project c :
  Coordinator_init source sinks minimum limit project = Ok c →
  is_identity (c_source_id c) = true ∧ NoDup (c_source_id c :: c_sink_identities c)
  ∧ Forall (λ i, is_identity i = true) (c_sink_identities c) ∧ length (c_sink_identities c) = length sinks
  ∧ 1 <= c_minimum c <= zlen sinks + 1 ∧ 1 <= c_limit c <= _MAX_BATCH_RECORDS.
Proof.
  unfold Coordinator_init. intros (id & [_ Hid]%text_matching_ok & (? & _ & (ids & Hc & (mn & _ & H)%bind_ok)%bind_ok)%bind_ok)%bind_ok.
  apply bind_ok in H as (? & Hm%require_ok & (lm & Hl & (pr & _ & [= <-])%bind_ok)%bind_ok). simpl.
  apply collect_identities_ok in Hc as (Hn & Hs & Hi & l & -> & H2); [|constructor|set_solver|constructor]. simpl in *.
  to_prop. split_and!; [done|by constructor|done|by apply Forall2_length in H2|lia|lia|..];
    destruct (js_int limit); try done; apply bind_ok in Hl as (? & Hl%require_ok & [= <-]); to_prop; lia.
Qed.
End rounds.

(** ** The outcome of a round *)

Section outcomes.
Context (iso : iso_reader) {S T : Type} `{!MemorySource S} `{!MemorySink T} `{!SourceLaws iso S} `{!SinkLaws T}.
Implicit Types (b : MemoryReplicationBatch) (k : T).

Lemma verdict_inserted b i k n : verdict b i k = inr n → 0 <= n.
Proof.
  unfold verdict. destruct (negb _); [done|]. destruct (sink_apply k b) as [k' [[r|]|e]] eqn:E; simpl; [|done..].
  destruct (_receipt_failure b i (Inst r)); [done|]. intros [= <-].
  apply sink_receipt_wf in E. unfold wf_receipt, Receipt_init in E. fields_inv. simplify_eq/=. lia.
Qed.

Lemma inserted_total_nonneg b (l : list (string * T)) : 0 <= inserted_total b l.
Proof.
  induction l as [|[i k] l IH]; simpl; [done|]. destruct (verdict b i k) eqn:E; [lia|]. apply verdict_inserted in E. lia.
Qed.

Lemma receipt_failure_reason b i r reason : _receipt_failure b i r = Some reason → is_identity reason = true.
Proof.
  unfold _receipt_failure. intros H. destruct r as [r|]; [|by injection H as <-].
  repeat (case_match; [by injection H as <-|]). done.
Qed.

Lemma verdict_reason b i k reason : verdict b i k = inl reason → is_identity reason = true.
Proof.
  unfold verdict. destruct (negb _); [by intros [= <-]|]. destruct (sink_apply k b) as [k' [[r|]|e]]; simpl; [|by intros [= <-]..].
  destruct (_receipt_failure b i (Inst r)) eqn:E; [|done]. intros [= <-]. by eapply receipt_failure_reason.
Qed.

Lemma identities_ok field l : Forall (λ i, is_identity i = true) l → all_identities field l = Ok tt.
Proof.
  intros Hl. unfold all_identities. rewrite bind_Ok with (a := l); [done|]. apply mapM_res_ok.
  induction Hl; constructor; [by apply text_matching_JStr|done].
Qed.

Definition reason_fields (x : string * string) : res string :=
  let '(replica, reason) := x in _ ← _identity (JStr replica) "failed replica identity"; _identity (JStr reason) "failure reason".

Lemma reasons_ok l :
  Forall (λ x : string * string, is_identity x.1 = true ∧ is_identity x.2 = true) l → mapM_res reason_fields l = Ok l.*2.
Proof.
  intros Hl. apply mapM_res_ok. induction Hl as [|[i reason] l [Hi Hr] _ IH]; constructor; [|done]. simpl in *.
  unfold _identity. rewrite (text_matching_JStr _ _ _ Hi). simpl. by apply text_matching_JStr.
Qed.

(** A round over configured sinks passes every check of the outcome. *)
Lemma round_outcome_ok c b (l : list (string * T)) status t :
  is_identity (c_source_id c) = true → NoDup (c_source_id c :: l.*1) → Forall (λ i, is_identity i = true) l.*1 →
  wf_batch iso b → b_source_id b = c_source_id c → mem status ["empty"; "replicated"; "pending"] = true →
  t = MkTally (b_source_id b :: durable_ids b l) (failures b l).*1 (failures b l) (inserted_total b l) →
  Outcome_init (outcome b status t) = Ok (outcome b status t).
Proof.
  intros Hid [Hni Hn]%NoDup_cons Hall Hwf Hb Hst ->. destruct (wf_batch_records iso b Hwf) as (_ & He & Ha & Hnext & _).
  assert (0 <= next_sequence b) as Hnn.
  { destruct Hwf as [_ Hbi]. unfold Batch_init in Hbi. fields_inv. simplify_eq/=. lia. }
  rewrite Forall_forall in Hall. pose proof (round_partition b l) as Hp. rewrite <-Hp in Hn, Hni.
  assert (∀ i, i ∈ durable_ids b l ++ (failures b l).*1 → is_identity i = true) as Hid'.
  { intros i Hi. apply Hall. by rewrite Hp in Hi. }
  apply NoDup_app in Hn as (Hnd & Hdisj & Hnf). unfold Outcome_init, outcome; simpl.
  erewrite bind_Ok; [|by apply text_matching_JStr; rewrite Hb]. cbn beta.
  unfold app_positive, app_non_negative. rewrite bind_Ok with (a := b_source_epoch b).
  2: { rewrite bind_Ok with (a := tt) by (apply require_true, Z.leb_le; lia). done. }
  cbn beta. rewrite bind_Ok with (a := after_sequence b).
  2: { rewrite bind_Ok with (a := tt) by (apply require_true, Z.leb_le; lia). done. }
  cbn beta. rewrite bind_Ok with (a := next_sequence b).
  2: { rewrite bind_Ok with (a := tt) by (apply require_true, Z.leb_le; lia). done. }
  cbn beta. erewrite bind_Ok; [|apply text_matching_JStr, sha256_hex_is_digest]. cbn beta.
  rewrite bind_Ok with (a := tt) by (by apply require_true). cbn beta. rewrite bind_Ok with (a := inserted_total b l).
  2: { rewrite bind_Ok with (a := tt) by (apply require_true, Z.leb_le, inserted_total_nonneg). done. }
  cbn beta. rewrite bind_Ok with (a := tt).
  2: { apply identities_ok. constructor; [by rewrite Hb|]. apply Forall_forall. set_solver. }
  cbn beta. rewrite bind_Ok with (a := tt) by (apply identities_ok, Forall_forall; set_solver). cbn beta.
  erewrite bind_Ok.
  2: { apply (reasons_ok (failures b l)). apply Forall_forall. intros [i reason] Hir. split.
    - apply Hid'. apply elem_of_app. right. apply list_elem_of_fmap. by exists (i, reason).
    - unfold failures in Hir. apply list_elem_of_omap in Hir as ([i' k] & _ & Hv). simpl in Hv.
      destruct (verdict b i' k) eqn:E; [|done]. injection Hv as <- <-. by eapply verdict_reason. }
  cbn beta. rewrite bind_Ok with (a := tt) by (by apply require_true, bool_decide_eq_true). cbn beta.
  rewrite bind_Ok with (a := tt).
  2: { apply require_true, bool_decide_eq_true. constructor; [rewrite Hb; set_solver|done]. }
  cbn beta. rewrite bind_Ok with (a := tt) by (by apply require_true, bool_decide_eq_true). cbn beta.
  rewrite bind_Ok with (a := tt) by (by apply require_true, bool_decide_eq_true). cbn beta.
  rewrite bind_Ok with (a := tt); [done|]. apply require_true.
  change (forallb (λ i, negb (mem i (failures b l).*1)) (b_source_id b :: durable_ids b l) = true).
  apply forallb_forall. intros i Hi%list_elem_of_In.
  apply negb_true_iff, not_true_iff_false. rewrite mem_spec. intros Hf. rewrite Hb in Hi. set_solver.
Qed.

(** A round always ends in an outcome that accounts for every sink.  Once the source has exported
    a page for the cursor, [replicate] raises nothing, whatever the sinks do: it returns
    [replicated] exactly if the source and the sinks whose receipt matches the page reach the
    minimum, lists those sinks in the configured order after the source, lists every other sink with
    its reason, and leaves each sink in the state its own call left it in, so one failing sink keeps
    no other from being served. *)
Theorem replicate_accounts_for_every_sink c source sinks0 minimum limit project sinks after b :
  Coordinator_init source sinks0 minimum limit project = Ok c → length sinks = length sinks0 →
  checked_export c source after = Ok b →
  let round := zip (c_sink_identities c) sinks in
  ∃ o, replicate c source sinks after = (if decide (records b = []) then sinks else zip_with (next_sink b) (c_sink_identities c) sinks, Ok o)
  ∧ (records b = [] → o_status o = "empty" ∧ o_replica_ids o = [c_source_id c])
  ∧ (records b ≠ [] →
      o_replica_ids o = c_source_id c :: durable_ids b round ∧ o_failure_reasons o = failures b round
      ∧ o_failed_replica_ids o = (failures b round).*1
      ∧ o_replica_ids o ++ o_failed_replica_ids o ≡ₚ c_source_id c :: c_sink_identities c
      ∧ (o_status o = "replicated" ↔ c_minimum c <= zlen (o_replica_ids o))).
Proof.
  intros (Hid & Hn & Hall & Hlen & _ & _)%Coordinator_init_ok Hl Hexp round.
  assert (round.*1 = c_sink_identities c) as Hround by (apply fst_zip; lia).
  pose proof Hexp as Hexp'. unfold checked_export in Hexp'.
  apply bind_ok in Hexp' as (? & _ & (exported & Hsrc & (b' & Hinst%inst_of_ok & H)%bind_ok)%bind_ok). subst exported.
  apply bind_ok in H as (? & Hb%require_ok%String.eqb_eq & (? & _ & (? & _ & [= ->])%bind_ok)%bind_ok).
  apply source_batch_wf in Hsrc. unfold replicate. rewrite Hexp. rewrite <-Hround in Hn, Hall. destruct (decide _) as [E|E].
  - rewrite E. exists (outcome b "empty" (MkTally [b_source_id b] [] [] 0)). split.
    + f_equal. apply (round_outcome_ok c b []); try done. apply NoDup_singleton.
    + split; [|done]. intros _. simpl. by rewrite Hb.
  - rewrite deliver_spec by lia. simpl. fold round.
    set (t := MkTally (b_source_id b :: durable_ids b round) (failures b round).*1 (failures b round) (inserted_total b round)).
    set (st := if c_minimum c <=? zlen (b_source_id b :: durable_ids b round) then "replicated" else "pending").
    exists (outcome b st t). split; [|split; [done|]].
    + destruct (records b) eqn:Er; [done|]. f_equal. eapply (round_outcome_ok c b round); try done. unfold st. by destruct (_ <=? _).
    + intros _. simpl. rewrite Hb. split_and!; [done..| |].
      * rewrite round_partition. by rewrite Hround.
      * unfold st. rewrite Hb. destruct (Z.leb_spec (c_minimum c) (zlen (c_source_id c :: durable_ids b round))); split; try done; lia.
Qed.
End outcomes.

(** ** Rounds over SQLite journals *)





Section peers.
Context (iso : iso_reader) (now : string).
#[local] Hint Extern 0 (MemorySink Peer) => exact (peer_sink iso now) : typeclass_instances.
#[local] Hint Extern 0 (MemorySource SourceJournal) => exact (journal_source iso now) : typeclass_instances.

#[local] Instance peer_sink_laws : @SinkLaws Peer (peer_sink iso now).
Proof.
  intros p b p' r. simpl. unfold peer_apply, SQLiteMemoryReplicationSink_apply. intros H.
  assert (∃ db k, Receipt_init (JStr (p_identity p)) (JStr (b_source_id b)) (JInt (b_source_epoch b)) (JInt (next_sequence b))
            (JStr (batch_digest_of b)) (JBool true) (JInt k) = Ok r ∧ apply iso now (p_journal p) (p_db p) b = Ok (db, k))
    as (db & k & Hr & _); [|by eapply Receipt_init_wf].
  destruct (p_fault p); [|done|done]. destruct (apply iso now (p_journal p) (p_db p) b) as [[db k]|e]; [|done].
  injection H as _ H. apply bind_ok in H as (r' & Hr & [= <-]). by exists db, k.
Qed.

Lemma journal_source_laws (Hiso : iso_stable iso) : @SourceLaws iso SourceJournal (journal_source iso now).
Proof.
  intros x after limit project b. simpl. unfold journal_export. intros (b' & H & [= <-])%bind_ok.
  unfold export in H. apply bind_ok in H as (? & _ & (? & _ & (sc & _ & (m & _ & (? & _ & (l & Hl & H)%bind_ok)%bind_ok)%bind_ok)%bind_ok)%bind_ok).
  apply Batch_init_fields in H as [Hr Hb]. split; [|done]. rewrite Hr. apply mapM_res_ok in Hl. clear -Hiso Hl.
  induction Hl as [|r m rs l Hm _ IH]; constructor; [|done]. by eapply Mutation_init_wf.
Qed.












End peers.

(** ** The receiver's theorems *)

Lemma py_len_ascii s : is_ascii_text s = true → py_len s = Z.of_nat (String.length s).
Proof.
  unfold is_ascii_text. induction s as [|c s IH]; [done|]. simpl. intros [Hc Hs]%andb_true_iff. rewrite IH by done.
  assert (ascii_between 128 191 c = false) as ->; [|lia]. unfold ascii_between in *.
  apply andb_true_iff in Hc as [_ Hc%N.leb_le]. apply andb_false_iff. left. apply N.leb_gt. lia.
Qed.

Lemma key_text s : str_forallb is_key_char s = true → is_ascii_text s = true.
Proof.
  apply str_forallb_impl. unfold is_key_char, ascii_between. intros c [H1%N.leb_le H2%N.leb_le]%andb_true_iff.
  apply andb_true_iff. rewrite !N.leb_le. lia.
Qed.

Section receivers.
Context {T : Type} `{!MemorySink T} (iso : iso_reader).

Lemma Receiver_init_ok sink key accepted body v :
  Receiver_init sink key accepted body = Ok v →
  is_ascii_text (v_api_key v) = true ∧ 1 <= py_len (v_api_key v) <= 512 ∧ v_identity v ∉ v_accepted v.
Proof.
  unfold Receiver_init. intros (id & _ & (k & Hk & (? & Hp%require_ok%key_text & H)%bind_ok)%bind_ok)%bind_ok.
  apply bind_ok in H as (? & _ & (ids & _ & (? & _ & (? & Hn%require_ok & (? & _ & [= <-])%bind_ok)%bind_ok)%bind_ok)%bind_ok).
  simpl. destruct (js_str key) as [s|]; [|done]. apply bind_ok in Hk as (? & Hl%require_ok & [= <-]). to_prop.
  split_and!; [done|lia|lia|done].
Qed.

Lemma authenticated_ok v authorization :
  authenticated v authorization = Ok true → authorization = JStr ("Bearer " +:+ v_api_key v).
Proof.
  unfold authenticated. destruct (js_str authorization) as [a|] eqn:E; [|done]. destruct (_ <? _); [done|].
  unfold compare_digest. intros (? & _ & [= Ha])%bind_ok. apply String.eqb_eq in Ha as ->.
  destruct authorization; try done. simpl in E. by injection E as ->.
Qed.

(** Nothing reaches a receiver's sink unless it is authentic.  If a request changes the sink or is
    answered with a receipt, then its authorization is exactly the bearer of the configured key, its
    envelope holds a well-formed batch whose digests check, the batch comes from an accepted source,
    and the sink was called once with that batch; a receipt that is returned matches the batch and
    names this receiver. *)
Theorem receiver_admits_only_authentic v sink authorization payload sink' answer :
  iso_stable iso → receive iso v sink authorization payload = (sink', answer) →
  (sink' ≠ sink ∨ is_ok answer = true) →
  authorization = JStr ("Bearer " +:+ v_api_key v)
  ∧ ∃ d b, payload = JObj d ∧ batch_from_dict iso (wire_get "batch" d) = Ok b ∧ wf_batch iso b
      ∧ b_source_id b ∈ v_accepted v ∧ sink' = (sink_apply sink b).1
      ∧ ∀ r, answer = Ok r → receipt_matches v b r = true ∧ (sink_apply sink b).2 = Ok (Inst r).
Proof.
  intros Hiso. unfold receive. destruct (admit_batch iso v authorization payload) as [b|e] eqn:Ha.
  2: { intros [= <- <-] [?|?]; done. }
  intros Hr _. unfold admit_batch in Ha. apply bind_ok in Ha as (ok & Hauth & (? & ->%require_ok & (d & Hd & H)%bind_ok)%bind_ok).
  apply bind_ok in H as (? & _ & (b' & Hb & (? & Hacc%require_ok & [= ->])%bind_ok)%bind_ok).
  split; [by apply authenticated_ok|]. exists d, b.
  assert (payload = JObj d) as -> by (destruct payload; try done; by apply bind_ok in Hd as (? & _ & [= ->])).
  destruct (batch_from_dict iso (wire_get "batch" d)) as [b2|e] eqn:Eb.
  2: { by destruct (caught_as_value_or_type _). }
  injection Hb as ->. apply mem_spec in Hacc. destruct (sink_apply sink b) as [k' a] eqn:Es. injection Hr as <- <-.
  split_and!; [done|done|by eapply batch_from_dict_wf|done|done|]. simpl. intros r Hr. unfold checked_receipt in Hr.
  destruct a as [y|e]; [|by destruct (exn_cls e)].
  by apply bind_ok in Hr as (r' & ->%inst_of_ok & (? & Hm%require_ok & [= ->])%bind_ok).
Qed.

Definition request (b : MemoryReplicationBatch) : json :=
  JObj [("object", JStr "memory_replication_batch"); ("batch", batch_as_dict b)].

(** An authentic request is transparent.  A well-formed batch of an accepted source, sent as its
    [as_dict] under the configured key, reaches the sink as that very batch, and the sink's answer
    comes back, an unusable one as an error. *)
Theorem receiver_transparent sink0 key accepted body v sink b :
  Receiver_init sink0 key accepted body = Ok v → wf_batch iso b → b_source_id b ∈ v_accepted v →
  receive iso v sink (JStr ("Bearer " +:+ v_api_key v)) (request b)
  = ((sink_apply sink b).1, checked_receipt v b (sink_apply sink b).2).
Proof.
  intros (Hascii & Hlen & _)%Receiver_init_ok Hb Hacc. unfold receive, admit_batch.
  assert (is_ascii_text ("Bearer " +:+ v_api_key v) = true) as Hb' by exact Hascii.
  assert (py_len ("Bearer " +:+ v_api_key v) = 7 + py_len (v_api_key v)) as Hpl.
  { change (1 + (1 + (1 + (1 + (1 + (1 + (1 + py_len (v_api_key v))))))) = 7 + py_len (v_api_key v)). lia. }
  erewrite bind_Ok with (a := true).
  2: { unfold authenticated. cbn [js_str]. rewrite Hpl. assert ((520 <? 7 + py_len (v_api_key v)) = false) as -> by (apply Z.ltb_ge; lia).
    unfold compare_digest. rewrite Hb'. cbn [andb require mbind res_bind]. by rewrite String.eqb_refl. }
  cbn beta. erewrite bind_Ok; [|by apply require_true]. cbn beta. unfold request.
  erewrite bind_Ok; [|reflexivity]. cbn beta. erewrite bind_Ok; [|reflexivity]. cbn beta.
  erewrite bind_Ok with (a := b). 2: { cbn [wire_get String.eqb Ascii.eqb Bool.eqb]. by rewrite batch_roundtrip. }
  cbn beta. erewrite bind_Ok; [|by apply require_true, mem_spec]. by destruct (sink_apply sink b).
Qed.
End receivers.

(** ** Witnesses: a source with a healthy peer, one whose answer is lost and one that is down *)

Lemma demo_iso_stable : iso_stable demo_iso.
Proof. by intros s text [= <-]. Qed.

Definition demo_peer (id : string) (f : fault) : Peer := MkPeer id (MkJournal id (Some "global")) (demo_opened_replica id) f.
Definition demo_peers : list Peer := [demo_peer "r1" Healthy; demo_peer "r2" LostReceipt; demo_peer "r3" Unreachable].
Definition demo_source : SourceJournal := MkSource demo_journal demo_db.
Definition demo_coordinator : Coordinator := MkCoordinator "cluster-a" ["r1"; "r2"; "r3"] 2 3 None.

#[local] Instance demo_sink : MemorySink Peer := peer_sink demo_iso demo_now.
#[local] Instance demo_origin : MemorySource SourceJournal := journal_source demo_iso demo_now.

Lemma demo_coordinator_eq : Coordinator_init demo_source demo_peers (JInt 2) (JInt 3) JNull = Ok demo_coordinator.
Proof. vm_compute. reflexivity. Qed.

Lemma demo_export_eq : checked_export demo_coordinator demo_source 0 = Ok (demo_page 0 3).
Proof. vm_compute. reflexivity. Qed.




Lemma replicate_accounts_for_every_sink_witness :
  ∃ o, replicate demo_coordinator demo_source demo_peers 0
       = (zip_with (next_sink (demo_page 0 3)) ["r1"; "r2"; "r3"] demo_peers, Ok o)
       ∧ o_failed_replica_ids o = ["r2"; "r3"].
Proof.
  destruct (@replicate_accounts_for_every_sink demo_iso SourceJournal Peer demo_origin demo_sink
    (journal_source_laws demo_iso demo_now demo_iso_stable) (peer_sink_laws demo_iso demo_now)
    demo_coordinator demo_source demo_peers (JInt 2) (JInt 3) JNull demo_peers 0 (demo_page 0 3)
    demo_coordinator_eq eq_refl demo_export_eq) as (o & Ho & _ & Hne).
  assert (records (demo_page 0 3) ≠ []) as Hr by (vm_compute; discriminate).
  exists o. rewrite decide_False in Ho by exact Hr. split; [exact Ho|].
  destruct (Hne Hr) as (_ & _ & Hf & _). rewrite Hf. vm_compute. reflexivity.
Defined.



Definition demo_receiver : Receiver := MkReceiver "r1" "secret-key" ["cluster-a"] 1048576.

Lemma demo_receiver_eq :
  Receiver_init (demo_peer "r1" Healthy) (JStr "secret-key") [JStr "cluster-a"] 1048576 = Ok demo_receiver.
Proof. vm_compute. reflexivity. Qed.

Lemma demo_page_wf : wf_batch demo_iso (demo_page 0 3).
Proof. split; [repeat (constructor; [vm_compute; reflexivity|]); constructor|vm_compute; reflexivity]. Qed.

Lemma receiver_transparent_witness :
  receive demo_iso demo_receiver (demo_peer "r1" Healthy) (JStr "Bearer secret-key") (request (demo_page 0 3))
  = ((sink_apply (demo_peer "r1" Healthy) (demo_page 0 3)).1,
     checked_receipt demo_receiver (demo_page 0 3) (sink_apply (demo_peer "r1" Healthy) (demo_page 0 3)).2).
Proof.
  apply (receiver_transparent demo_iso (demo_peer "r1" Healthy) (JStr "secret-key") [JStr "cluster-a"] 1048576 demo_receiver
    (demo_peer "r1" Healthy) (demo_page 0 3) demo_receiver_eq demo_page_wf). left.
Defined.

Definition demo_received : Peer * res MemoryReplicaReceipt :=
  receive demo_iso demo_receiver (demo_peer "r1" Healthy) (JStr "Bearer secret-key") (request (demo_page 0 3)).

Lemma demo_received_eq :
  receive demo_iso demo_receiver (demo_peer "r1" Healthy) (JStr "Bearer secret-key") (request (demo_page 0 3))
  = (demo_received.1, demo_received.2).
Proof. fold demo_received. by destruct demo_received. Qed.

Lemma receiver_admits_only_authentic_witness :
  JStr "Bearer secret-key" = JStr ("Bearer " +:+ v_api_key demo_receiver)
  ∧ ∃ d b, request (demo_page 0 3) = JObj d ∧ batch_from_dict demo_iso (wire_get "batch" d) = Ok b.
Proof.
  assert (is_ok demo_received.2 = true) as Hok by (vm_compute; reflexivity).
  destruct (receiver_admits_only_authentic demo_iso demo_receiver (demo_peer "r1" Healthy) (JStr "Bearer secret-key")
    (request (demo_page 0 3)) demo_received.1 demo_received.2 demo_iso_stable demo_received_eq (or_intror Hok))
    as (Ha & d & b & Hd & Hb & _).
  split; [exact Ha|]. exists d, b. split; [exact Hd|exact Hb].
Defined.

(** A wrong key, and a source that is not accepted: the sink is not called. *)
Example demo_refused_requests :
  receive demo_iso demo_receiver (demo_peer "r1" Healthy) (JStr "Bearer secret-kez") (request (demo_page 0 3))
  = (demo_peer "r1" Healthy, throw PermissionError "memory replication authentication is required")
  ∧ receive demo_iso (MkReceiver "r1" "secret-key" ["cluster-b"] 1048576) (demo_peer "r1" Healthy) (JStr "Bearer secret-key")
      (request (demo_page 0 3))
    = (demo_peer "r1" Healthy, throw PermissionError "memory replication source is not accepted").
Proof. split; vm_compute; reflexivity. Qed.
