(* ===== verification/BatchGuard.v ===== *)
(** The batch-coalescing guard of an agent turn: [domain/batch_coalescing.py].

    The guard is a state machine over the tool calls of one turn.  What the host supplies is a
    parameter: the identity of a target ([resolve]), whether a batch tool is admissible, and the
    JSON reader for a batch argument that is a text.  [resolve] is one pure function for the whole
    turn, as if the files a target's identity is read from did not change within it.  The steering texts ([render], [_view_note])
    and the telemetry are left out: they do not decide anything. *)
From S2P Require Import Prelude PyText CanonicalJson.
From Stdlib Require Import Ascii.

Local Open Scope Z_scope.

Definition DEFAULT_ADVISORY_AFTER : Z := 3.
Definition DEFAULT_REFUSE_AFTER : Z := 6.
Definition DEFAULT_MAX_REFUSALS : Z := 3.
Definition AGENT_STEP_CEILING : Z := 20.
Definition MIN_ADVISORY_AFTER : Z := 2.
Definition MAX_THRESHOLD : Z := AGENT_STEP_CEILING - 1.
Definition MAX_REFUSALS_CEILING : Z := 10.
Definition MIN_VIEW_CHARS_PER_TARGET : Z := 1500.

(** ** Counterparts *)

Record BatchCounterpart := MkCounterpart {
  single_tool : string;
  batch_tool : string;
  target_argument : string;
  batch_argument : string;
  family : string
}.

Definition trimmed (name : string) (v : pyval) : res string :=
  check_str (λ s, negb (String.eqb (strip s) "") && String.eqb (strip s) s) ValueError
    ("batch counterpart " +:+ name +:+ " must be a non-empty trimmed string") v.

Definition Counterpart_init (single batch target_arg batch_arg fam : pyval) : res BatchCounterpart :=
  single' ← trimmed "single_tool" single;
  batch' ← trimmed "batch_tool" batch;
  target' ← trimmed "target_argument" target_arg;
  batch_arg' ← trimmed "batch_argument" batch_arg;
  fam' ← trimmed "family" fam;
  _ ← require (negb (String.eqb single' batch')) ValueError "a batch counterpart must name two different tools";
  Ok (MkCounterpart single' batch' target' batch_arg' fam').

Definition CANDIDATE_COUNTERPARTS : list BatchCounterpart :=
  [MkCounterpart "file_read" "context_pack" "path" "paths_json" "file-read"].

Fixpoint resolve_loop (registered read_only state_changing seen : list string) (l : list BatchCounterpart)
  : list BatchCounterpart :=
  match l with
  | [] => []
  | c :: rest =>
      let tools := [single_tool c; batch_tool c] in
      if mem (single_tool c) seen || negb (forallb (λ t, mem t registered) tools)
         || negb (forallb (λ t, mem t read_only) tools) || existsb (λ t, mem t state_changing) tools
      then resolve_loop registered read_only state_changing seen rest
      else c :: resolve_loop registered read_only state_changing (single_tool c :: seen) rest
  end.

Definition resolve_counterparts (candidates : list BatchCounterpart) (registered read_only state_changing : list string)
  : list BatchCounterpart := resolve_loop registered read_only state_changing [] candidates.

(** ** Configuration *)

Record BatchCoalescingConfig := MkConfig { advisory_after : Z; refuse_after : Z; max_refusals : Z }.

Definition _strict_int (v : pyval) (name : string) : res Z :=
  match py_int v with
  | Some z => Ok z
  | None => throw ValueError (name +:+ " must be an integer")
  end.

Definition Config_init (advisory refuse refusals : pyval) : res BatchCoalescingConfig :=
  advisory' ← _strict_int advisory "advisory_after";
  refuse' ← _strict_int refuse "refuse_after";
  refusals' ← _strict_int refusals "max_refusals";
  _ ← require ((MIN_ADVISORY_AFTER <=? advisory') && (advisory' <=? MAX_THRESHOLD)) ValueError
        "advisory_after must be between 2 and 19";
  _ ← require ((advisory' <=? refuse') && (refuse' <=? MAX_THRESHOLD)) ValueError
        "refuse_after must be between advisory_after and 19";
  _ ← require ((1 <=? refusals') && (refusals' <=? MAX_REFUSALS_CEILING)) ValueError
        "max_refusals must be between 1 and 10";
  Ok (MkConfig advisory' refuse' refusals').

Definition is_digit (c : ascii) : bool := ascii_between 48 57 c.

(** [int(text)] of decimal digits *)
Fixpoint decimal (acc : Z) (s : string) : Z :=
  match s with EmptyString => acc | String c s' => decimal (10 * acc + (byte_of c - 48)) s' end.

(** One setting; [int] refuses more than 4300 digits. *)
Definition env_setting (env : gmap string string) (key : string) (default_value : Z) : res Z :=
  match env !! key with
  | None => Ok default_value
  | Some raw =>
      let text := strip raw in
      if String.eqb text "" then Ok default_value
      else
        _ ← require (str_forallb is_digit text) ValueError (key +:+ " must be a positive integer");
        _ ← require (String.length text <=? 4300)%nat ValueError "Exceeds the limit for integer string conversion";
        Ok (decimal 0 text)
  end.

Definition from_environ (env : gmap string string) : res BatchCoalescingConfig :=
  advisory ← env_setting env "SONDER_AGENT_BATCH_ADVISORY_AFTER" DEFAULT_ADVISORY_AFTER;
  refuse ← env_setting env "SONDER_AGENT_BATCH_REFUSE_AFTER" DEFAULT_REFUSE_AFTER;
  refusals ← env_setting env "SONDER_AGENT_BATCH_MAX_REFUSALS" DEFAULT_MAX_REFUSALS;
  Config_init (PInt advisory) (PInt refuse) (PInt refusals).

Definition recommended_batch_size (view_chars : Z) : Z := Z.max 1 (view_chars / MIN_VIEW_CHARS_PER_TARGET).

(** ** Targets *)

(** The loop of [posixpath.normpath]; [acc] holds the components in reverse. *)
Fixpoint norm_parts (rooted : bool) (acc l : list string) : list string :=
  match l with
  | [] => rev acc
  | c :: rest =>
      if String.eqb c "" || String.eqb c "." then norm_parts rooted acc rest
      else if negb (String.eqb c "..") || (negb rooted && bool_decide (acc = [])) || bool_decide (head acc = Some "..")
      then norm_parts rooted (c :: acc) rest
      else norm_parts rooted (tail acc) rest
  end.

Fixpoint join_parts (l : list string) : string :=
  match l with [] => "" | [c] => c | c :: rest => c +:+ "/" +:+ join_parts rest end.

Definition normpath (s : string) : string :=
  let slashes := if String.prefix "/" s
                 then if String.prefix "//" s && negb (String.prefix "///" s) then "//" else "/"
                 else "" in
  let path := slashes +:+ join_parts (norm_parts (negb (String.eqb slashes "")) [] (split_text "/"%char s)) in
  if String.eqb path "" then "." else path.

Definition target_key (s : string) : option string :=
  let text := strip s in
  if String.eqb text "" then None else Some (casefold (normpath (replace_char "\"%char "/"%char text))).

(** ** The guard *)

Record Guard := MkGuard {
  g_config : BatchCoalescingConfig;
  g_by_single : gmap string BatchCounterpart;
  g_by_batch : gmap string (list BatchCounterpart);
  g_view_chars : Z
}.

(** The windows, per family, and the counters. *)
Record Windows := MkWindows {
  w_targets : gmap string (gset string);
  w_attempted : gmap string (gset string);
  w_covered : gmap string (gset string);
  w_refusals : gmap string Z;
  n_advisories : Z;
  n_refusals : Z;
  n_resets : Z
}.

Definition index_counterparts (l : list BatchCounterpart)
  : gmap string BatchCounterpart * gmap string (list BatchCounterpart) :=
  foldl (λ '(s, b) c,
    (match s !! single_tool c with Some _ => s | None => <[single_tool c := c]> s end,
     <[batch_tool c := default [] (b !! batch_tool c) ++ [c]]> b)) (∅, ∅) l.

Definition Guard_init (counterparts : list BatchCounterpart) (config : option BatchCoalescingConfig) (view_chars : pyval)
  : res (Guard * Windows) :=
  let '(s, b) := index_counterparts counterparts in
  view ← match py_int view_chars with
         | Some z => _ ← require (0 <=? z) ValueError "view_chars must be a non-negative integer"; Ok z
         | None => throw ValueError "view_chars must be a non-negative integer"
         end;
  Ok (MkGuard (default (MkConfig DEFAULT_ADVISORY_AFTER DEFAULT_REFUSE_AFTER DEFAULT_MAX_REFUSALS) config) s b view,
      MkWindows ∅ ∅ ∅ ∅ 0 0 0).

Record BatchRefusal := MkRefusal {
  rf_counterpart : BatchCounterpart;
  rf_target : string;
  rf_distinct_targets : Z;
  rf_refuse_after : Z;
  rf_refusals : Z;
  rf_max_refusals : Z;
  rf_view_chars : Z
}.
Definition exhausted (r : BatchRefusal) : bool := rf_max_refusals r <=? rf_refusals r.

Record BatchAdvisory := MkAdvisory {
  ad_counterpart : BatchCounterpart;
  ad_distinct_targets : Z;
  ad_refuse_after : Z;
  ad_view_chars : Z
}.

Definition window (m : gmap string (gset string)) (f : string) : gset string := default ∅ (m !! f).
Definition zsize (k : gset string) : Z := Z.of_nat (size k).

(** [args.get(name)] if [args] is a dict *)
Definition arg_get (args : json) (name : string) : json :=
  match args with
  | JObj d => match list_find (λ kv, kv.1 = name) (rev d) with Some (_, (_, v)) => v | None => JNull end
  | _ => JNull
  end.

Section guard.
Context (resolve : string → string) (admissible : BatchCounterpart → string → bool) (loads : string → option json).
Context (g : Guard).

Definition _key (v : json) : option string :=
  match v with
  | JStr s => if String.eqb (strip s) "" then None else target_key (resolve (strip s))
  | _ => None
  end.

Definition _exempt (w : Windows) (c : BatchCounterpart) (key : string) : bool :=
  bool_decide (key ∈ window (w_targets w) (family c)) || bool_decide (key ∈ window (w_attempted w) (family c))
  || bool_decide (key ∈ window (w_covered w) (family c)).

Definition _batch_keys (c : BatchCounterpart) (args : json) : gset string :=
  let raw := arg_get args (batch_argument c) in
  let raw' := match raw with JStr s => loads s | _ => Some raw end in
  match raw' with
  | Some (JArr l) => list_to_set (omap _key l)
  | _ => ∅
  end.

(** [raw.strip()] of a text that has a key *)
Definition stripped (v : json) : string := match v with JStr s => strip s | _ => "" end.

Definition before_dispatch (w : Windows) (tool : string) (args : json) : Windows * option BatchRefusal :=
  match g_by_single g !! tool with
  | None => (w, None)
  | Some c =>
      let raw := arg_get args (target_argument c) in
      match _key raw with
      | None => (w, None)
      | Some key =>
          if _exempt w c key then (w, None)
          else
            let keys := window (w_targets w) (family c) in
            if zsize keys <? refuse_after (g_config g) then (w, None)
            else if negb (admissible c (stripped raw)) then (w, None)
            else
              let refusals := default 0 (w_refusals w !! family c) + 1 in
              (MkWindows (w_targets w) (w_attempted w) (w_covered w) (<[family c := refusals]> (w_refusals w))
                 (n_advisories w) (n_refusals w + 1) (n_resets w),
               Some (MkRefusal c (stripped raw) (zsize keys) (refuse_after (g_config g)) refusals
                       (max_refusals (g_config g)) (g_view_chars g)))
      end
  end.

(** The model complied: a new window for the family of one counterpart. *)
Definition comply (args : json) (w : Windows) (c : BatchCounterpart) : Windows :=
  MkWindows (delete (family c) (w_targets w)) (w_attempted w)
    (<[family c := window (w_covered w) (family c) ∪ _batch_keys c args]> (w_covered w))
    (delete (family c) (w_refusals w)) (n_advisories w) (n_refusals w) (n_resets w).

Definition comply_all (w : Windows) (tool : string) (args : json) (ok : bool) : Windows :=
  if ok then foldl (comply args) w (default [] (g_by_batch g !! tool)) else w.

Definition set_targets (w : Windows) (f : string) (k : gset string) : Windows :=
  MkWindows (<[f := k]> (w_targets w)) (w_attempted w) (w_covered w) (w_refusals w)
    (n_advisories w) (n_refusals w) (n_resets w).
Definition set_attempted (w : Windows) (f : string) (k : gset string) : Windows :=
  MkWindows (w_targets w) (<[f := k]> (w_attempted w)) (w_covered w) (w_refusals w)
    (n_advisories w) (n_refusals w) (n_resets w).
Definition count_advisory (w : Windows) : Windows :=
  MkWindows (w_targets w) (w_attempted w) (w_covered w) (w_refusals w) (n_advisories w + 1) (n_refusals w) (n_resets w).

(** The single-tool half of [after_dispatch]. *)
Definition account (w : Windows) (c : BatchCounterpart) (raw : json) (ok : bool) : Windows * option BatchAdvisory :=
  match _key raw with
  | None => (w, None)
  | Some key =>
      if negb ok then
        (if _exempt w c key then w
         else set_attempted w (family c) ({[key]} ∪ window (w_attempted w) (family c)), None)
      else if _exempt w c key then (w, None)
      else
        let keys := {[key]} ∪ window (w_targets w) (family c) in
        let w' := set_targets w (family c) keys in
        if zsize keys <? advisory_after (g_config g) then (w', None)
        else if negb (admissible c (stripped raw)) then (w', None)
        else (count_advisory w', Some (MkAdvisory c (zsize keys) (refuse_after (g_config g)) (g_view_chars g)))
  end.

Definition after_dispatch (w : Windows) (tool : string) (args : json) (ok : bool) : Windows * option BatchAdvisory :=
  let w1 := comply_all w tool args ok in
  match g_by_single g !! tool with
  | None => (w1, None)
  | Some c => account w1 c (arg_get args (target_argument c)) ok
  end.

Definition reset (w : Windows) : Windows :=
  MkWindows ∅ ∅ ∅ ∅ (n_advisories w) (n_refusals w)
    (if bool_decide (w_targets w = ∅) && bool_decide (w_attempted w = ∅) && bool_decide (w_covered w = ∅)
        && bool_decide (w_refusals w = ∅) then n_resets w else n_resets w + 1).

(** ** A turn *)

(** The caller asks before each call, dispatches it unless it is refused, and reports how it ended;
    a state-changing step resets the windows. *)
Inductive turn_event := Call (tool : string) (args : json) (ok : bool) | StateChange.
Inductive answer := Refused (r : BatchRefusal) | Dispatched (a : option BatchAdvisory) | Restarted.

Definition turn_step (w : Windows) (e : turn_event) : Windows * answer :=
  match e with
  | StateChange => (reset w, Restarted)
  | Call tool args ok =>
      let '(w1, refusal) := before_dispatch w tool args in
      match refusal with
      | Some r => (w1, Refused r)
      | None => let '(w2, advisory) := after_dispatch w1 tool args ok in (w2, Dispatched advisory)
      end
  end.

Fixpoint turn (w : Windows) (l : list turn_event) : Windows * list answer :=
  match l with
  | [] => (w, [])
  | e :: rest => let '(w1, a) := turn_step w e in let '(w2, answers) := turn w1 rest in (w2, a :: answers)
  end.
End guard.

(** ** One family's window *)

(** A target of the window: read, attempted, or returned by a batch call. *)
Definition known (w : Windows) (f key : string) : Prop :=
  key ∈ window (w_targets w) f ∨ key ∈ window (w_attempted w) f ∨ key ∈ window (w_covered w) f.

(** A step that neither changes state nor completes a batch call of the family. *)
Definition quiet (g : Guard) (f : string) (e : turn_event) : Prop :=
  match e with
  | StateChange => False
  | Call tool _ ok => ok = true → Forall (λ c, family c ≠ f) (default [] (g_by_batch g !! tool))
  end.

Definition no_change (e : turn_event) : Prop := match e with StateChange => False | _ => True end.

(** A counterpart the host lets the guard use. *)
Definition steerable (registered read_only state_changing : list string) (c : BatchCounterpart) : Prop :=
  ∀ t, t = single_tool c ∨ t = batch_tool c → t ∈ registered ∧ t ∈ read_only ∧ t ∉ state_changing.

(** A successful read of [path] through the single tool [tool] of the counterpart [c]. *)
Definition read (tool : string) (c : BatchCounterpart) (path : string) : turn_event :=
  Call tool (JObj [(target_argument c, JStr path)]) true.

(** What the guard promises for the read of a new target when [n] were already asked for. *)
Definition scheduled (g : Guard) (c : BatchCounterpart) (n : Z) (path : string) : answer :=
  if refuse_after (g_config g) <=? n
  then Refused (MkRefusal c (strip path) (refuse_after (g_config g)) (refuse_after (g_config g))
                  (n - refuse_after (g_config g) + 1) (max_refusals (g_config g)) (g_view_chars g))
  else if n + 1 <? advisory_after (g_config g) then Dispatched None
  else Dispatched (Some (MkAdvisory c (n + 1) (refuse_after (g_config g)) (g_view_chars g))).

(** The state of one family when [n] new targets were asked for. *)
Definition at_read (g : Guard) (f : string) (seen : gset string) (n : Z) (w : Windows) : Prop :=
  window (w_targets w) f ⊆ seen ∧ zsize (window (w_targets w) f) = Z.min n (refuse_after (g_config g))
  ∧ window (w_attempted w) f = ∅ ∧ window (w_covered w) f = ∅
  ∧ default 0 (w_refusals w !! f) = Z.max 0 (n - refuse_after (g_config g)).

(** A guard for the witnesses: advice from the second read, refusals after the third. *)
Definition demo_guard : Guard :=
  MkGuard (MkConfig 2 3 2) (index_counterparts CANDIDATE_COUNTERPARTS).1 (index_counterparts CANDIDATE_COUNTERPARTS).2 6000.
Definition demo_windows : Windows := MkWindows ∅ ∅ ∅ ∅ 0 0 0.
Definition demo_counterpart : BatchCounterpart := MkCounterpart "file_read" "context_pack" "path" "paths_json" "file-read".
Definition demo_admissible (c : BatchCounterpart) (path : string) : bool := true.
Definition demo_loads (s : string) : option json := None.

Lemma exempt_known w c key : _exempt w c key = true ↔ known w (family c) key.
Proof. unfold _exempt, known. rewrite !orb_true_iff, !bool_decide_eq_true. tauto. Qed.

Lemma exempt_false w c key : _exempt w c key = false ↔ ¬ known w (family c) key.
Proof. by rewrite <-exempt_known, not_true_iff_false. Qed.

Lemma window_insert m f k f' : window (<[f := k]> m) f' = if decide (f = f') then k else window m f'.
Proof. unfold window. destruct (decide (f = f')) as [->|]; [by rewrite lookup_insert_eq|by rewrite lookup_insert_ne]. Qed.

Lemma window_delete m f f' : window (delete f m) f' = if decide (f = f') then ∅ else window m f'.
Proof. unfold window. destruct (decide (f = f')) as [->|]; [by rewrite lookup_delete_eq|by rewrite lookup_delete_ne]. Qed.

Section lemmas.
Context (resolve : string → string) (admissible : BatchCounterpart → string → bool) (loads : string → option json).
Context (g : Guard).
Implicit Types (w : Windows) (c : BatchCounterpart) (f key : string).

Abbreviation before := (before_dispatch resolve admissible g).
Abbreviation after := (after_dispatch resolve admissible loads g).
Abbreviation step := (turn_step resolve admissible loads g).
Abbreviation run := (turn resolve admissible loads g).
Abbreviation target := (_key resolve).

(** Asking changes only the refusal count. *)
Lemma before_windows w tool args :
  let w' := (before w tool args).1 in
  w_targets w' = w_targets w ∧ w_attempted w' = w_attempted w ∧ w_covered w' = w_covered w.
Proof. unfold before_dispatch. repeat (case_match; try done). Qed.

Lemma before_none w tool args : (before w tool args).2 = None → (before w tool args).1 = w.
Proof. unfold before_dispatch. repeat (case_match; try done). Qed.

(** The exact condition of a refusal, and its content. *)
Lemma before_refused w tool args r :
  (before w tool args).2 = Some r →
  ∃ c key, g_by_single g !! tool = Some c ∧ target (arg_get args (target_argument c)) = Some key
  ∧ ¬ known w (family c) key ∧ refuse_after (g_config g) <= zsize (window (w_targets w) (family c))
  ∧ admissible c (stripped (arg_get args (target_argument c))) = true ∧ rf_counterpart r = c.
Proof.
  unfold before_dispatch. destruct (g_by_single g !! tool) as [c|]; [|done].
  destruct (target (arg_get args (target_argument c))) as [key|] eqn:Ek; [|done].
  destruct (_exempt w c key) eqn:Ee; [done|]. destruct (Z.ltb_spec (zsize (window (w_targets w) (family c))) (refuse_after (g_config g)));
    [done|]. destruct (admissible c _) eqn:Ea; [|done]. simpl. intros [= <-]. exists c, key.
  apply exempt_false in Ee. by split_and!.
Qed.

(** What a batch call that succeeded does to one window. *)
Lemma comply_all_window tool args ok w f :
  let w' := comply_all resolve loads g w tool args ok in
  w_attempted w' = w_attempted w ∧ window (w_covered w) f ⊆ window (w_covered w') f
  ∧ (window (w_targets w') f = window (w_targets w) f
     ∨ ok = true ∧ Exists (λ c, family c = f) (default [] (g_by_batch g !! tool))).
Proof.
  unfold comply_all. destruct ok; [|split_and!; [done|done|by left]].
  generalize (default [] (g_by_batch g !! tool)) as l. intros l. revert w. induction l as [|c l IH]; intros w; simpl.
  - split_and!; [done|done|by left].
  - destruct (IH (comply resolve loads args w c)) as (Ha & Hc & Ht). split_and!; [done| |].
    + etrans; [|exact Hc]. simpl. rewrite window_insert. destruct (decide (family c = f)) as [->|]; set_solver.
    + destruct Ht as [->|[_ Ht]]; [|right; split; [done|by right]]. simpl. rewrite window_delete.
      destruct (decide (family c = f)); [right; split; [done|by left]|by left].
Qed.

Lemma comply_all_covers tool args w c :
  c ∈ default [] (g_by_batch g !! tool) →
  _batch_keys resolve loads c args ⊆ window (w_covered (comply_all resolve loads g w tool args true)) (family c).
Proof.
  unfold comply_all. generalize (default [] (g_by_batch g !! tool)) as l. intros l. revert w.
  induction l as [|c' l IH]; intros w; [by intros ?%elem_of_nil|]. intros [->|Hc]%elem_of_cons; simpl; [|by apply IH].
  assert (∀ l w, window (w_covered w) (family c') ⊆ window (w_covered (foldl (comply resolve loads args) w l)) (family c')) as Hmono.
  { clear. induction l as [|d l IH]; intros w; [done|]. simpl. etrans; [|apply IH]. simpl. rewrite window_insert.
    destruct (decide _) as [->|]; set_solver. }
  etrans; [|apply Hmono]. simpl. rewrite window_insert, decide_True by done. set_solver.
Qed.

(** Accounting a call never forgets a target. *)
Lemma account_known w c raw ok f key : known w f key → known (account resolve admissible g w c raw ok).1 f key.
Proof.
  unfold account. intros Hk. destruct (target raw) as [key'|]; [|done].
  destruct ok; simpl; destruct (_exempt w c key'); try done.
  - assert (known (set_targets w (family c) ({[key']} ∪ window (w_targets w) (family c))) f key) as Hk'.
    { unfold known in *. simpl. rewrite window_insert. destruct (decide _) as [<-|]; set_solver. }
    repeat (case_match; try done).
  - unfold known in *. simpl. rewrite window_insert. destruct (decide _) as [<-|]; set_solver.
Qed.

(** After a dispatched call its target is known. *)
Lemma account_adds w c raw ok key :
  target raw = Some key → known (account resolve admissible g w c raw ok).1 (family c) key.
Proof.
  unfold account. intros ->. destruct ok; simpl; destruct (_exempt w c key) eqn:Ee; simpl; try by apply exempt_known.
  - assert (known (set_targets w (family c) ({[key]} ∪ window (w_targets w) (family c))) (family c) key) as Hk'.
    { unfold known. simpl. rewrite window_insert, decide_True by done. set_solver. }
    repeat (case_match; try done).
  - unfold known. simpl. rewrite !window_insert, !decide_True by done. set_solver.
Qed.

Lemma after_known w tool args ok f key :
  known (comply_all resolve loads g w tool args ok) f key → known (after w tool args ok).1 f key.
Proof. unfold after_dispatch. destruct (g_by_single g !! tool); [|done]. apply account_known. Qed.

Lemma step_known w e f key : quiet g f e → known w f key → known (step w e).1 f key.
Proof.
  destruct e as [tool args ok|]; [|done]. simpl. intros Hq Hk.
  destruct (before w tool args) as [w1 refusal] eqn:Eb. pose proof (before_windows w tool args) as Hw. rewrite Eb in Hw.
  simpl in Hw. destruct Hw as (Ht & Ha & Hc). assert (known w1 f key) as Hk1 by (unfold known; by rewrite Ht, Ha, Hc).
  destruct refusal; [done|]. destruct (after w1 tool args ok) as [w2 a] eqn:Ea. simpl.
  pose proof (after_known w1 tool args ok f key) as Hafter. rewrite Ea in Hafter. apply Hafter.
  destruct (comply_all_window tool args ok w1 f) as (Ha' & Hc' & Ht'). unfold known. rewrite Ha'.
  destruct Hk1 as [H|[H|H]]; [|by right; left|right; right; by apply Hc'].
  destruct Ht' as [->|[-> Hex]]; [by left|]. specialize (Hq eq_refl). rewrite Exists_exists in Hex. rewrite Forall_forall in Hq.
  destruct Hex as (c & Hin & Hf). by apply Hq in Hin.
Qed.

Lemma step_covered w e f key :
  no_change e → key ∈ window (w_covered w) f → key ∈ window (w_covered (step w e).1) f.
Proof.
  destruct e as [tool args ok|]; [|done]. simpl. intros _ Hk.
  destruct (before w tool args) as [w1 refusal] eqn:Eb. pose proof (before_windows w tool args) as Hw. rewrite Eb in Hw.
  simpl in Hw. destruct Hw as (_ & _ & Hc). rewrite <-Hc in Hk. destruct refusal; [done|].
  destruct (after w1 tool args ok) as [w2 a] eqn:Ea. simpl. unfold after_dispatch in Ea.
  destruct (comply_all_window tool args ok w1 f) as (_ & Hc' & _). apply Hc' in Hk.
  destruct (g_by_single g !! tool) as [c|]; [|by injection Ea as <- _]. unfold account in Ea.
  repeat (case_match; try (injection Ea as <- _; done)).
Qed.

Lemma turn_app w l1 l2 :
  run w (l1 ++ l2) = ((run (run w l1).1 l2).1, (run w l1).2 ++ (run (run w l1).1 l2).2).
Proof.
  revert w. induction l1 as [|e l1 IH]; intros w; simpl; [by destruct (run w l2)|].
  destruct (step w e) as [w1 a]. rewrite IH. by destruct (run w1 l1).
Qed.

Lemma turn_last w l e : last (run w (l ++ [e])).2 = Some (step (run w l).1 e).2.
Proof. rewrite turn_app. cbn. destruct (step (run w l).1 e) as [w1 a]. cbn. by rewrite last_snoc. Qed.

Lemma run_known w l f key : Forall (quiet g f) l → known w f key → known (run w l).1 f key.
Proof.
  intros Hl. revert w. induction Hl as [|e l He _ IH]; intros w Hk; simpl; [done|].
  pose proof (step_known w e f key He Hk) as Hk'. destruct (step w e) as [w1 a]. simpl in Hk'.
  specialize (IH w1 Hk'). by destruct (run w1 l).
Qed.

Lemma run_covered w l f key :
  Forall no_change l → key ∈ window (w_covered w) f → key ∈ window (w_covered (run w l).1) f.
Proof.
  intros Hl. revert w. induction Hl as [|e l He _ IH]; intros w Hk; simpl; [done|].
  pose proof (step_covered w e f key He Hk) as Hk'. destruct (step w e) as [w1 a]. simpl in Hk'.
  specialize (IH w1 Hk'). by destruct (run w1 l).
Qed.

Lemma known_not_refused w tool args c key r :
  g_by_single g !! tool = Some c → target (arg_get args (target_argument c)) = Some key → known w (family c) key →
  (before w tool args).2 ≠ Some r.
Proof.
  intros Hc Hk Hkn Hr. apply before_refused in Hr as (c' & key' & Hc' & Hk' & Hn & _). congruence.
Qed.

(** A dispatched call makes its target known, and a successful batch call covers its targets. *)
Lemma dispatched_single w tool args ok a c key :
  (step w (Call tool args ok)).2 = Dispatched a → g_by_single g !! tool = Some c →
  target (arg_get args (target_argument c)) = Some key → known (step w (Call tool args ok)).1 (family c) key.
Proof.
  simpl. destruct (before w tool args) as [v [r|]]; [done|]. unfold after_dispatch. intros Ha Hc Hk. rewrite Hc in Ha |- *.
  pose proof (account_adds (comply_all resolve loads g v tool args ok) c (arg_get args (target_argument c)) ok key Hk) as Hadd.
  by destruct (account _ _ _ _ _ _ _).
Qed.

Lemma dispatched_batch w tool args a c :
  (step w (Call tool args true)).2 = Dispatched a → c ∈ default [] (g_by_batch g !! tool) →
  _batch_keys resolve loads c args ⊆ window (w_covered (step w (Call tool args true)).1) (family c).
Proof.
  simpl. destruct (before w tool args) as [v [r|]]; [done|]. intros _ Hb.
  pose proof (comply_all_covers tool args v c Hb) as Hcov. unfold after_dispatch.
  destruct (g_by_single g !! tool) as [c0|]; [|done]. unfold account. repeat (case_match; simplify_eq; try done).
Qed.

Lemma known_dispatched w tool args ok c key :
  g_by_single g !! tool = Some c → target (arg_get args (target_argument c)) = Some key → known w (family c) key →
  ∃ a, (step w (Call tool args ok)).2 = Dispatched a.
Proof.
  intros Hc Hk Hkn. simpl. pose proof (λ r, known_not_refused w tool args c key r Hc Hk Hkn) as Hn.
  destruct (before w tool args) as [v [r|]]; [by destruct (Hn r)|]. destruct (after v tool args ok) as [v2 a]. by exists a.
Qed.
End lemmas.

(** ** Counterparts of the host *)

Lemma resolve_loop_ok registered read_only state_changing l : ∀ seen,
  Forall (steerable registered read_only state_changing) (resolve_loop registered read_only state_changing seen l)
  ∧ NoDup (single_tool <$> resolve_loop registered read_only state_changing seen l)
  ∧ ∀ c, c ∈ resolve_loop registered read_only state_changing seen l → (single_tool c ∉ seen) ∧ c ∈ l.
Proof.
  induction l as [|c l IH]; intros seen; [cbn; split_and!; [constructor|constructor|by intros ? ?%elem_of_nil]|].
  cbn [resolve_loop]. destruct (_ || _) eqn:E.
  - destruct (IH seen) as (? & ? & Hin). split_and!; [done..|]. intros c' Hc'. destruct (Hin c' Hc'). split; [done|by right].
  - destruct (IH (single_tool c :: seen)) as (Hs & Hn & Hin). rewrite !orb_false_iff in E. destruct E as [[[E1 E2] E3] E4].
    apply negb_false_iff in E2, E3. rewrite forallb_forall in E2, E3.
    assert (∀ t, t = single_tool c ∨ t = batch_tool c → mem t state_changing = false) as E5.
    { intros t Ht. apply not_true_iff_false. intros Hm. apply not_true_iff_false in E4. apply E4, existsb_exists. exists t.
      split; [|done]. simpl. intuition. }
    split_and!.
    + constructor; [|done]. intros t Ht. assert (In t [single_tool c; batch_tool c]) as Hin' by (simpl; intuition).
      split_and!; [by apply mem_spec, E2|by apply mem_spec, E3|]. specialize (E5 t Ht). apply not_true_iff_false in E5.
      by rewrite mem_spec in E5.
    + rewrite fmap_cons. constructor; [|done]. intros (c' & Hc' & Hin')%list_elem_of_fmap. apply Hin in Hin' as [Hns _].
      rewrite <-Hc' in Hns. set_solver.
    + intros c' [->|Hc']%elem_of_cons.
      * split; [|by left]. apply not_true_iff_false in E1. by rewrite mem_spec in E1.
      * destruct (Hin c' Hc') as [Hns ?]. split; [set_solver|by right].
Qed.

Lemma index_single l tool c : (index_counterparts l).1 !! tool = Some c → c ∈ l ∧ single_tool c = tool.
Proof.
  revert c. induction l as [|c' l IH] using rev_ind; intros c; unfold index_counterparts in *; [done|].
  rewrite foldl_app. simpl. destruct (foldl _ (∅, ∅) l) as [s b]. simpl in *. destruct (s !! single_tool c') eqn:E.
  - intros H. apply IH in H as [? ?]. set_solver.
  - intros [[<- <-]|[_ H]]%lookup_insert_Some; [set_solver|]. apply IH in H as [? ?]. set_solver.
Qed.

Section theorems.
Context (resolve : string → string) (admissible : BatchCounterpart → string → bool) (loads : string → option json).
Abbreviation run := (turn resolve admissible loads).
Abbreviation target := (_key resolve).

(** C40: the guard never refuses what was tried.  Once a single call was dispatched, whether it
    succeeded or not, a further call of its family on the same target, as the turn's [resolve]
    identifies targets, is dispatched too, as long as no state change and no successful batch call of the family came between; and a target a
    successful batch call returned stays readable until the next state change. *)
Theorem tried_target_never_refused g w l tool args ok a tool' args' ok' c c' key :
  (turn_step resolve admissible loads g w (Call tool args ok)).2 = Dispatched a →
  g_by_single g !! tool' = Some c' → target (arg_get args' (target_argument c')) = Some key → family c = family c' →
  (g_by_single g !! tool = Some c ∧ target (arg_get args (target_argument c)) = Some key ∧ Forall (quiet g (family c)) l)
  ∨ (c ∈ default [] (g_by_batch g !! tool) ∧ key ∈ _batch_keys resolve loads c args ∧ ok = true ∧ Forall no_change l) →
  ∃ a', last (run g w (Call tool args ok :: l ++ [Call tool' args' ok'])).2 = Some (Dispatched a').
Proof.
  intros Ha Hc' Hk' Hf Hcase.
  assert (known (run g (turn_step resolve admissible loads g w (Call tool args ok)).1 l).1 (family c') key) as Hkn.
  { rewrite <-Hf. destruct Hcase as [(Hc & Hk & Hq)|(Hb & Hk & -> & Hq)].
    - apply run_known; [done|]. by eapply dispatched_single.
    - right; right. apply run_covered; [done|]. by eapply dispatched_batch. }
  apply (known_dispatched resolve admissible loads g _ tool' args' ok' c' key Hc' Hk') in Hkn as [a' Ha'].
  exists a'. rewrite app_comm_cons, turn_last. cbn [turn].
  destruct (turn_step _ _ _ g w _) as [w1 b]. simpl in *. destruct (run g w1 l). simpl in *. by rewrite Ha'.
Qed.

Lemma read_step g w tool c path key seen n :
  g_by_single g !! tool = Some c → g_by_batch g !! tool = None → (∀ p, admissible c p = true) →
  target (JStr path) = Some key → key ∉ seen → 0 <= n → at_read g (family c) seen n w →
  (turn_step resolve admissible loads g w (read tool c path)).2 = scheduled g c n path
  ∧ at_read g (family c) ({[key]} ∪ seen) (n + 1) (turn_step resolve admissible loads g w (read tool c path)).1.
Proof.
  intros Hc Hb Hadm Hk Hnew Hn (Hsub & Hsize & Hatt & Hcov & Href).
  assert (_exempt w c key = false) as He.
  { apply exempt_false. unfold known. rewrite Hatt, Hcov. set_solver. }
  assert (arg_get (JObj [(target_argument c, JStr path)]) (target_argument c) = JStr path) as Earg.
  { cbn. by rewrite decide_True by done. }
  unfold turn_step, read, before_dispatch. rewrite Hc, Earg, Hk, He, Hsize, Hadm. unfold scheduled. cbn [negb stripped].
  destruct (Z.leb_spec (refuse_after (g_config g)) n).
  - rewrite Z.min_r, Z.ltb_irrefl by lia. cbn. split; [repeat f_equal; lia|]. unfold at_read. cbn.
    rewrite lookup_insert_eq. cbn. split_and!; try done; [set_solver|lia..].
  - rewrite (proj2 (Z.ltb_lt _ _)) by lia. unfold after_dispatch, comply_all. rewrite Hb. cbn [default foldl]. rewrite Hc, Earg.
    unfold account. rewrite Hk, He. cbn [negb].
    assert (zsize ({[key]} ∪ window (w_targets w) (family c)) = n + 1) as Hs'.
    { unfold zsize in *. rewrite size_union by set_solver. rewrite size_singleton. lia. }
    assert (at_read g (family c) ({[key]} ∪ seen) (n + 1)
              (set_targets w (family c) ({[key]} ∪ window (w_targets w) (family c)))) as Hat.
    { unfold at_read. cbn. rewrite window_insert, decide_True, Hs' by done. split_and!; try done; [set_solver|lia..]. }
    rewrite Hs', Hadm. by destruct (n + 1 <? advisory_after (g_config g)).
Qed.

Lemma reads_scheduled g tool c paths keys :
  g_by_single g !! tool = Some c → g_by_batch g !! tool = None → (∀ p, admissible c p = true) →
  Forall2 (λ p k, target (JStr p) = Some k) paths keys → NoDup keys →
  ∀ w seen n, Forall (.∉ seen) keys → 0 <= n → at_read g (family c) seen n w →
  (run g w (read tool c <$> paths)).2 = imap (λ i p, scheduled g c (n + Z.of_nat i) p) paths.
Proof.
  intros Hc Hb Hadm. induction 1 as [|p k paths keys Hk _ IH]; intros Hnd w seen n Hnew Hn Hat; [done|].
  apply NoDup_cons in Hnd as [Hfresh Hnd]. apply Forall_cons in Hnew as [Hkn Hnew].
  destruct (read_step g w tool c p k seen n Hc Hb Hadm Hk Hkn Hn Hat) as [Ha Hat'].
  rewrite fmap_cons. cbn [turn]. destruct (turn_step _ _ _ g w _) as [w1 a]. cbn [fst snd] in Ha, Hat'. subst a.
  assert (IH' := λ sn, IH Hnd w1 sn (n + 1)). clear IH. rename IH' into IH. destruct (run g w1 _) as [w2 answers]. cbn [snd] in *. rewrite imap_cons. f_equal.
  - f_equal. lia.
  - rewrite (IH ({[k]} ∪ seen)); [|apply Forall_forall; rewrite Forall_forall in Hnew; set_solver|lia|done].
    apply imap_ext. intros i x _. cbn. f_equal. lia.
Qed.

(** The schedule of a guard.  In a new turn whose admission check allows steering, successful
    reads of distinct targets are answered exactly so: the first [advisory_after - 1] are dispatched
    silently, those up to [refuse_after] are dispatched with an advisory that counts them, and each
    later one is refused, with its own target, the number of the refusal and the limits in force. *)
Theorem guard_schedule a r m config l view g w tool c paths keys :
  Config_init a r m = Ok config → Guard_init l (Some config) view = Ok (g, w) →
  g_by_single g !! tool = Some c → g_by_batch g !! tool = None → (∀ p, admissible c p = true) →
  Forall2 (λ p k, target (JStr p) = Some k) paths keys → NoDup keys →
  (run g w (read tool c <$> paths)).2 = imap (λ i p, scheduled g c (Z.of_nat i) p) paths.
Proof.
  intros Hcfg Hg Hc Hb Hadm Hk Hnd.
  rewrite (reads_scheduled g tool c paths keys Hc Hb Hadm Hk Hnd w ∅ 0); [done|apply Forall_forall; by intros x _ ?%elem_of_empty|done|].
  unfold Guard_init in Hg. destruct (index_counterparts l). res_inv.
  unfold Config_init in Hcfg. res_inv. to_prop. unfold at_read, window, zsize. cbn.
  rewrite !lookup_empty. cbn. rewrite size_empty. split_and!; try done; unfold MIN_ADVISORY_AFTER in *; lia.
Qed.

(** The tools of every counterpart the guard steers between are usable, and the host admits the
    batch tool for the very target. *)
Lemma steering_safe registered read_only state_changing candidates config view g w0 w tool args ok b :
  Guard_init (resolve_counterparts candidates registered read_only state_changing) config view = Ok (g, w0) →
  (turn_step resolve admissible loads g w (Call tool args ok)).2 = b →
  match b with
  | Refused r =>
      steerable registered read_only state_changing (rf_counterpart r) ∧ single_tool (rf_counterpart r) = tool
      ∧ admissible (rf_counterpart r) (rf_target r) = true ∧ refuse_after (g_config g) <= rf_distinct_targets r
  | Dispatched (Some d) =>
      steerable registered read_only state_changing (ad_counterpart d) ∧ single_tool (ad_counterpart d) = tool
      ∧ advisory_after (g_config g) <= ad_distinct_targets d
  | _ => True
  end.
Proof.
  intros Hg <-.
  assert (∀ c, g_by_single g !! tool = Some c → steerable registered read_only state_changing c ∧ single_tool c = tool) as Hs.
  { intros c Hc. unfold Guard_init in Hg.
    pose proof (index_single (resolve_counterparts candidates registered read_only state_changing) tool c) as Hi.
    destruct (index_counterparts _) as [s b]. res_inv. simpl in Hc. apply Hi in Hc as [Hin ?]. split; [|done].
    destruct (resolve_loop_ok registered read_only state_changing candidates []) as (Hf & _). rewrite Forall_forall in Hf. by apply Hf. }
  simpl. unfold before_dispatch, after_dispatch. destruct (g_by_single g !! tool) as [c|] eqn:Ec; [|done].
  destruct (Hs c eq_refl) as [Hst Ht]. unfold account.
  repeat (case_match; simplify_eq/=; try done); to_prop; rewrite ?negb_false_iff in *; split_and!; try done; lia.
Qed.
End theorems.

(** ** Witnesses *)

Lemma tried_target_never_refused_witness :
  ∃ a', last (turn id demo_admissible demo_loads demo_guard demo_windows
    (Call "file_read" (JObj [("path", JStr "a/b")]) false
     :: (read "file_read" demo_counterpart <$> ["c"; "d"; "e"; "f"])
     ++ [Call "file_read" (JObj [("path", JStr "a//./B")]) true])).2 = Some (Dispatched a').
Proof.
  apply (tried_target_never_refused id demo_admissible demo_loads demo_guard demo_windows
    (read "file_read" demo_counterpart <$> ["c"; "d"; "e"; "f"]) "file_read" (JObj [("path", JStr "a/b")]) false None
    "file_read" (JObj [("path", JStr "a//./B")]) true demo_counterpart demo_counterpart "a/b");
    [vm_compute; reflexivity..|].
  left. split_and!; [vm_compute; reflexivity..|]. cbn. repeat constructor.
Defined.

Lemma guard_schedule_witness :
  (turn id demo_admissible demo_loads demo_guard demo_windows
    (read "file_read" demo_counterpart <$> ["a"; "b"; "c"; "d"; "e"])).2
  = imap (λ i p, scheduled demo_guard demo_counterpart (Z.of_nat i) p) ["a"; "b"; "c"; "d"; "e"].
Proof.
  apply (guard_schedule id demo_admissible demo_loads (PInt 2) (PInt 3) (PInt 2) (MkConfig 2 3 2) CANDIDATE_COUNTERPARTS (PInt 6000)
    demo_guard demo_windows "file_read" demo_counterpart _ ["a"; "b"; "c"; "d"; "e"]);
    [vm_compute; reflexivity|vm_compute; reflexivity|vm_compute; reflexivity|vm_compute; reflexivity|done|..].
  - repeat constructor.
  - apply (bool_decide_unpack _). vm_compute. exact I.
Defined.
