(* ===== verification/PyDate.v ===== *)
(** Aware datetimes as texts.  An instant is its number of microseconds since 1970 in UTC;
    [isoformat] is the text of [datetime.isoformat()] in UTC and [iso_z] that text with [Z] for
    the offset.  The order of the texts is the order of the instants, which is what the SQL
    comparisons of time columns rely on. *)
From S2P Require Import Prelude PyText.
From Stdlib Require Import Ascii.

Local Open Scope Z_scope.

(** ** The proleptic Gregorian calendar *)

(** Days are counted from 0001-01-01. *)
Definition leap (y : Z) : bool := (y mod 4 =? 0) && (negb (y mod 100 =? 0) || (y mod 400 =? 0)).
Definition days_before_year (y : Z) : Z := 365 * (y - 1) + (y - 1) / 4 - (y - 1) / 100 + (y - 1) / 400.

Definition year_of (d : Z) : Z :=
  let n400 := d / 146097 in
  let r := d mod 146097 in
  let n100 := r / 36524 in
  let n4 := r mod 36524 / 1461 in
  let n1 := r mod 36524 mod 1461 / 365 in
  400 * n400 + 100 * n100 + 4 * n4 + n1 + (if (n1 =? 4) || (n100 =? 4) then 0 else 1).

Definition month_lengths (y : Z) : list Z := [31; if leap y then 29 else 28; 31; 30; 31; 30; 31; 31; 30; 31; 30; 31].

Fixpoint month_day (m : Z) (lengths : list Z) (n : Z) : Z * Z :=
  match lengths with
  | [] => (m, n + 1)
  | len :: rest => if n <? len then (m, n + 1) else month_day (m + 1) rest (n - len)
  end.

(** ** Texts *)

(** [format(z, '0kd')] of a natural number with at most [k] digits. *)
Fixpoint fixed (k : nat) (z : Z) : string :=
  match k with
  | O => ""
  | S k' => String (ascii_of (48 + z / 10 ^ Z.of_nat k')) (fixed k' (z mod 10 ^ Z.of_nat k'))
  end.

Definition day_us : Z := 86400000000.
Definition epoch_day : Z := 719162.

(** [datetime.min] and the instant after [datetime.max], in UTC. *)
Definition min_us : Z := - epoch_day * day_us.
Definition end_us : Z := 2932897 * day_us.

(** The text of an instant, with the text of its offset. *)
Definition stamp (offset : string) (t : Z) : string :=
  let d := t / day_us + epoch_day in
  let y := year_of d in
  let '(month, day) := month_day 1 (month_lengths y) (d - days_before_year y) in
  let us := t mod day_us in
  let fraction := us mod 1000000 in
  fixed 4 y +:+ "-" +:+ fixed 2 month +:+ "-" +:+ fixed 2 day +:+ "T" +:+ fixed 2 (us / 3600000000) +:+ ":"
  +:+ fixed 2 (us / 60000000 mod 60) +:+ ":" +:+ fixed 2 (us / 1000000 mod 60)
  +:+ (if fraction =? 0 then "" else "." +:+ fixed 6 fraction) +:+ offset.

Definition isoformat (t : Z) : string := stamp "+00:00" t.
Definition iso_z (t : Z) : string := stamp "Z" t.

(** [value + timedelta(seconds=...)] *)
Definition add_seconds (t seconds : Z) : res Z :=
  let t' := t + seconds * 1000000 in
  if (min_us <=? t') && (t' <? end_us) then Ok t' else throw OverflowError "date value out of range".

Lemma add_seconds_ok t k u : add_seconds t k = Ok u → u = t + k * 1000000 ∧ min_us <= u < end_us.
Proof. unfold add_seconds. case_match; [|done]. intros [= <-]. to_prop. done. Qed.

Example iso_epoch : isoformat 0 = "1970-01-01T00:00:00+00:00".
Proof. reflexivity. Qed.
Example iso_fraction : iso_z 1709208000000123 = "2024-02-29T12:00:00.000123Z".
Proof. reflexivity. Qed.
Example iso_max : isoformat (end_us - 1) = "9999-12-31T23:59:59.999999+00:00".
Proof. reflexivity. Qed.

(** ** The calendar *)

Lemma year_bounds d : days_before_year (year_of d) <= d < days_before_year (year_of d + 1).
Proof.
  unfold year_of, days_before_year. cbv zeta.
  destruct (Z.eqb_spec (d mod 146097 mod 36524 mod 1461 / 365) 4); destruct (Z.eqb_spec (d mod 146097 / 36524) 4);
    cbn [orb]; Z.div_mod_to_equations; lia.
Qed.

Lemma days_before_year_mono y y' : y <= y' → days_before_year y <= days_before_year y'.
Proof. unfold days_before_year. intros. Z.div_mod_to_equations. lia. Qed.

Lemma year_length y : days_before_year (y + 1) = days_before_year y + 365 + (if leap y then 1 else 0).
Proof.
  unfold days_before_year, leap.
  destruct (Z.eqb_spec (y mod 4) 0); destruct (Z.eqb_spec (y mod 100) 0); destruct (Z.eqb_spec (y mod 400) 0);
    cbn [andb orb negb]; Z.div_mod_to_equations; lia.
Qed.

Lemma year_of_range d : 0 <= d < 3652059 → 1 <= year_of d <= 9999.
Proof.
  intros Hd. pose proof (year_bounds d) as Hy. split.
  - destruct (Z.le_gt_cases 1 (year_of d)); [done|]. pose proof (days_before_year_mono (year_of d + 1) 1).
    change (days_before_year 1) with 0 in *. lia.
  - destruct (Z.le_gt_cases (year_of d) 9999); [done|]. pose proof (days_before_year_mono 10000 (year_of d)).
    change (days_before_year 10000) with 3652059 in *. lia.
Qed.

Lemma year_of_mono d d' : d <= d' → year_of d <= year_of d'.
Proof.
  intros Hd. destruct (Z.le_gt_cases (year_of d) (year_of d')); [done|].
  pose proof (days_before_year_mono (year_of d' + 1) (year_of d)). pose proof (year_bounds d). pose proof (year_bounds d'). lia.
Qed.

(** Lexicographic order. *)
Definition order_then (c d : comparison) : comparison := match c with Eq => d | _ => c end.
Definition pair_compare (p q : Z * Z) : comparison := order_then (Z.compare p.1 q.1) (Z.compare p.2 q.2).

Lemma month_day_fst lengths : ∀ m n, m <= (month_day m lengths n).1.
Proof.
  induction lengths as [|len rest IH]; intros m n; simpl; [lia|].
  destruct (n <? len); simpl; [lia|]. specialize (IH (m + 1) (n - len)). lia.
Qed.

Lemma succ_compare a b : Z.compare (a + 1) (b + 1) = Z.compare a b.
Proof. by rewrite !(Z.add_comm _ 1), Z.add_compare_mono_l. Qed.

Lemma month_day_compare lengths : ∀ m n n',
  pair_compare (month_day m lengths n) (month_day m lengths n') = Z.compare n n'.
Proof.
  induction lengths as [|len rest IH]; intros m n n'.
  - unfold pair_compare, order_then. simpl. rewrite Z.compare_refl. apply succ_compare.
  - assert (∀ k, m < (month_day (m + 1) rest k).1) as Hlt by (intros k; pose proof (month_day_fst rest (m + 1) k); lia).
    simpl. destruct (Z.ltb_spec n len), (Z.ltb_spec n' len).
    + unfold pair_compare, order_then. simpl. rewrite Z.compare_refl. apply succ_compare.
    + unfold pair_compare, order_then. simpl. specialize (Hlt (n' - len)). apply Z.compare_lt_iff in Hlt. rewrite Hlt.
      symmetry. apply Z.compare_lt_iff. lia.
    + unfold pair_compare, order_then. simpl. specialize (Hlt (n - len)).
      rewrite (proj2 (Z.compare_gt_iff _ _) Hlt). symmetry. apply Z.compare_gt_iff. lia.
    + rewrite IH. unfold Z.sub. rewrite !(Z.add_comm _ (- len)). apply Z.add_compare_mono_l.
Qed.

Lemma month_day_range lengths : ∀ m n, Forall (λ len, 0 < len <= 31) lengths → 0 <= n < foldr Z.add 0 lengths →
  (month_day m lengths n).1 < m + zlen lengths ∧ 1 <= (month_day m lengths n).2 <= 31.
Proof.
  induction lengths as [|len rest IH]; intros m n Hf Hn; [simpl in Hn; lia|]. apply Forall_cons in Hf as [Hlen Hf].
  simpl in *. unfold zlen in *. simpl. destruct (Z.ltb_spec n len); simpl; [lia|].
  destruct (IH (m + 1) (n - len) Hf ltac:(lia)). lia.
Qed.

Lemma month_lengths_sum y : foldr Z.add 0 (month_lengths y) = 365 + (if leap y then 1 else 0).
Proof. unfold month_lengths. destruct (leap y); reflexivity. Qed.

Lemma month_lengths_ok y : Forall (λ len, 0 < len <= 31) (month_lengths y).
Proof. unfold month_lengths. destruct (leap y); repeat (constructor; [lia|]); constructor. Qed.

(** ** The order of texts *)

Lemma ascii_of_compare a b : 0 <= a < 256 → 0 <= b < 256 → Ascii.compare (ascii_of a) (ascii_of b) = Z.compare a b.
Proof.
  intros. unfold Ascii.compare, ascii_of. rewrite !N_ascii_embedding by lia.
  by rewrite <-N2Z.inj_compare, !Z2N.id by lia.
Qed.

Lemma compare_same c s s' : String.compare (String c s) (String c s') = String.compare s s'.
Proof. simpl. unfold Ascii.compare. by rewrite N.compare_refl. Qed.

Lemma fixed_compare k : ∀ a b s s', 0 <= a < 10 ^ Z.of_nat k → 0 <= b < 10 ^ Z.of_nat k →
  String.compare (fixed k a +:+ s) (fixed k b +:+ s')
  = order_then (Z.compare a b) (String.compare s s').
Proof.
  induction k as [|k IH]; intros a b s s' Ha Hb.
  - simpl in *. assert (a = 0) as -> by lia. assert (b = 0) as -> by lia. done.
  - rewrite Nat2Z.inj_succ, Z.pow_succ_r in Ha, Hb by lia. set (p := 10 ^ Z.of_nat k) in *.
    assert (0 < p) by (apply Z.pow_pos_nonneg; lia).
    assert (∀ x, 0 <= x < 10 * p → 0 <= x / p < 10 ∧ 0 <= x mod p < p) as Hr
      by (intros x ?; split; [split; [apply Z.div_pos; lia|apply Z.div_lt_upper_bound; lia]|apply Z.mod_pos_bound; lia]).
    destruct (Hr a Ha), (Hr b Hb). cbn [fixed]. fold p. simpl. rewrite ascii_of_compare by lia.
    rewrite Z.add_compare_mono_l. pose proof (Z.div_mod a p) as Ea. pose proof (Z.div_mod b p) as Eb.
    destruct (Z.compare_spec (a / p) (b / p)) as [E|E|E].
    + rewrite IH by lia. rewrite E in Ea. replace (Z.compare a b) with (Z.compare (a mod p) (b mod p)); [done|].
      destruct (Z.compare_spec a b), (Z.compare_spec (a mod p) (b mod p)); done || lia.
    + rewrite (proj2 (Z.compare_lt_iff a b)); [done|]. nia.
    + rewrite (proj2 (Z.compare_gt_iff a b)); [done|]. nia.
Qed.

(** ** The order of stamps *)

(** What a stamp prints of an instant. *)
Lemma stamp_parts t : min_us <= t < end_us →
  let d := t / day_us + epoch_day in
  let md := month_day 1 (month_lengths (year_of d)) (d - days_before_year (year_of d)) in
  1 <= year_of d <= 9999 ∧ 1 <= md.1 <= 12 ∧ 1 <= md.2 <= 31.
Proof.
  intros Ht d md. assert (0 <= d < 3652059) as Hd.
  { unfold d, min_us, end_us, epoch_day, day_us in *. Z.div_mod_to_equations. lia. }
  pose proof (year_of_range d Hd) as Hy. pose proof (year_bounds d) as Hb. rewrite year_length in Hb.
  assert (0 <= d - days_before_year (year_of d) < foldr Z.add 0 (month_lengths (year_of d))) as Hn
    by (rewrite month_lengths_sum; lia).
  pose proof (month_day_fst (month_lengths (year_of d)) 1 (d - days_before_year (year_of d))).
  destruct (month_day_range (month_lengths (year_of d)) 1 _ (month_lengths_ok _) Hn) as [Hm Hday].
  change (zlen (month_lengths (year_of d))) with 12 in Hm. unfold md. lia.
Qed.

(** The date part: year, month and day order as the days do. *)
Lemma date_compare d d' :
  order_then (Z.compare (year_of d) (year_of d'))
    (pair_compare (month_day 1 (month_lengths (year_of d)) (d - days_before_year (year_of d)))
       (month_day 1 (month_lengths (year_of d')) (d' - days_before_year (year_of d')))) = Z.compare d d'.
Proof.
  unfold order_then. pose proof (year_bounds d). pose proof (year_bounds d').
  destruct (Z.compare_spec (year_of d) (year_of d')) as [E|E|E].
  - rewrite E, month_day_compare. destruct (Z.compare_spec d d'), (Z.compare_spec (d - days_before_year (year_of d')) (d' - days_before_year (year_of d')));
      done || lia.
  - symmetry. apply Z.compare_lt_iff. pose proof (days_before_year_mono (year_of d + 1) (year_of d')). lia.
  - symmetry. apply Z.compare_gt_iff. pose proof (days_before_year_mono (year_of d' + 1) (year_of d)). lia.
Qed.

(** The offsets of two texts may differ: they only decide between equal instants. *)
Lemma fraction_compare f f' o o' : 0 <= f < 1000000 → 0 <= f' < 1000000 →
  let tail f o := (if f =? 0 then "" else "." +:+ fixed 6 f) +:+ o in
  String.compare (tail f o) (tail f' o')
  = if (f =? 0) && (f' =? 0) then String.compare o o'
    else if f =? 0 then String.compare o (tail f' o')
    else if f' =? 0 then String.compare (tail f o) o'
    else order_then (Z.compare f f') (String.compare o o').
Proof.
  intros Hf Hf' tail. unfold tail. destruct (Z.eqb_spec f 0), (Z.eqb_spec f' 0); try done.
  cbn [andb]. change ("." +:+ fixed 6 f) with (String "." (fixed 6 f)). change ("." +:+ fixed 6 f') with (String "." (fixed 6 f')).
  change (String "." (fixed 6 f) +:+ o) with (String "." (fixed 6 f +:+ o)).
  change (String "." (fixed 6 f') +:+ o') with (String "." (fixed 6 f' +:+ o')).
  rewrite compare_same, fixed_compare by (change (10 ^ Z.of_nat 6) with 1000000; lia). by destruct (Z.compare f f').
Qed.

Lemma order_then_assoc a b c : order_then (order_then a b) c = order_then a (order_then b c).
Proof. by destruct a. Qed.

Lemma digits_compare k q q' r r' : 0 <= r < k → 0 <= r' < k →
  order_then (Z.compare q q') (Z.compare r r') = Z.compare (q * k + r) (q' * k + r').
Proof.
  intros Hr Hr'. unfold order_then. destruct (Z.compare_spec q q') as [->|E|E].
  - symmetry. apply Z.add_compare_mono_l.
  - symmetry. apply Z.compare_lt_iff. nia.
  - symmetry. apply Z.compare_gt_iff. nia.
Qed.

(** The seconds decide, then the fraction and the offset. *)
Definition tail_of (o : string) (t : Z) : string :=
  let f := t mod day_us mod 1000000 in (if f =? 0 then "" else "." +:+ fixed 6 f) +:+ o.

Lemma compare_prefix p s s' : String.compare (p +:+ s) (p +:+ s') = String.compare s s'.
Proof.
  induction p as [|c p IH]; [done|].
  change (String.compare (String c (p +:+ s)) (String c (p +:+ s')) = String.compare s s'). by rewrite compare_same.
Qed.

Lemma time_parts u : 0 <= u < day_us →
  u / 1000000 = u / 3600000000 * 3600 + (u / 60000000 mod 60 * 60 + u / 1000000 mod 60)
  ∧ 0 <= u / 60000000 mod 60 * 60 + u / 1000000 mod 60 < 3600 ∧ 0 <= u / 1000000 < 86400
  ∧ 0 <= u / 60000000 mod 60 < 60 ∧ 0 <= u / 1000000 mod 60 < 60.
Proof. unfold day_us. intros. Z.div_mod_to_equations. lia. Qed.

Lemma seconds_parts t : t / 1000000 = t / day_us * 86400 + t mod day_us / 1000000.
Proof. unfold day_us. Z.div_mod_to_equations. lia. Qed.

Lemma stamp_compare o o' t t' : min_us <= t < end_us → min_us <= t' < end_us →
  String.compare (stamp o t) (stamp o' t')
  = order_then (Z.compare (t / 1000000) (t' / 1000000)) (String.compare (tail_of o t) (tail_of o' t')).
Proof.
  intros Ht Ht'. pose proof (stamp_parts t Ht) as (Hy & Hm & Hd). pose proof (stamp_parts t' Ht') as (Hy' & Hm' & Hd').
  unfold stamp. cbv zeta in *. pose proof (date_compare (t / day_us + epoch_day) (t' / day_us + epoch_day)) as Hdate.
  destruct (month_day 1 _ (t / day_us + epoch_day - _)) as [m d]. destruct (month_day 1 _ (t' / day_us + epoch_day - _)) as [m' d'].
  unfold tail_of. set (tl := _ +:+ o). set (tl' := _ +:+ o'). unfold pair_compare in Hdate. cbn [fst snd] in *.
  assert (0 <= t mod day_us < day_us ∧ 0 <= t' mod day_us < day_us) as [Hu Hu'] by (unfold day_us; Z.div_mod_to_equations; lia).
  set (u := t mod day_us) in *. set (u' := t' mod day_us) in *.
  assert (Z.compare (t / 1000000) (t' / 1000000)
          = order_then (Z.compare (t / day_us + epoch_day) (t' / day_us + epoch_day))
              (order_then (Z.compare (u / 3600000000) (u' / 3600000000))
                (order_then (Z.compare (u / 60000000 mod 60) (u' / 60000000 mod 60))
                   (Z.compare (u / 1000000 mod 60) (u' / 1000000 mod 60))))) as ->.
  { destruct (time_parts u Hu) as (Eu & ? & ? & ? & ?), (time_parts u' Hu') as (Eu' & ? & ? & ? & ?).
    rewrite (digits_compare 60), (digits_compare 3600), (digits_compare 86400) by lia.
    rewrite (seconds_parts t), (seconds_parts t'). fold u u'.
    match goal with |- Z.compare ?a ?b = Z.compare ?c ?d =>
      destruct (Z.compare_spec a b), (Z.compare_spec c d); done || lia end. }
  assert (∀ v, 0 <= v < day_us → 0 <= v / 3600000000 < 100 ∧ 0 <= v / 60000000 mod 60 < 100 ∧ 0 <= v / 1000000 mod 60 < 100)
    as Hr by (unfold day_us; intros; Z.div_mod_to_equations; lia).
  destruct (Hr u Hu) as (?&?&?), (Hr u' Hu') as (?&?&?).
  rewrite <-Hdate, !order_then_assoc.
  repeat (rewrite fixed_compare by (change (10 ^ Z.of_nat 4) with 10000; change (10 ^ Z.of_nat 2) with 100; lia);
    rewrite ?compare_prefix).
  done.
Qed.

Lemma tail_compare o o' t t' :
  let f := t mod day_us mod 1000000 in
  let f' := t' mod day_us mod 1000000 in
  String.compare (tail_of o t) (tail_of o' t')
  = if (f =? 0) && (f' =? 0) then String.compare o o'
    else if f =? 0 then String.compare o (tail_of o' t')
    else if f' =? 0 then String.compare (tail_of o t) o'
    else order_then (Z.compare f f') (String.compare o o').
Proof.
  apply (fraction_compare _ _ o o'); apply Z.mod_pos_bound; lia.
Qed.

Lemma instant_parts t : t = t / 1000000 * 1000000 + t mod day_us mod 1000000 ∧ 0 <= t mod day_us mod 1000000 < 1000000.
Proof. unfold day_us. Z.div_mod_to_equations. lia. Qed.

Lemma tail_dot o t : t mod day_us mod 1000000 ≠ 0 → ∃ s, tail_of o t = String "." s.
Proof. intros H. unfold tail_of. apply Z.eqb_neq in H. rewrite H. eexists. reflexivity. Qed.

(** The texts of two instants are ordered as the instants. *)
Theorem iso_compare t t' : min_us <= t < end_us → min_us <= t' < end_us →
  String.compare (isoformat t) (isoformat t') = Z.compare t t'.
Proof.
  intros Ht Ht'. unfold isoformat. rewrite stamp_compare, tail_compare by done.
  destruct (instant_parts t) as [E ?], (instant_parts t') as [E' ?].
  destruct (Z.eqb_spec (t mod day_us mod 1000000) 0) as [Z0|Z0], (Z.eqb_spec (t' mod day_us mod 1000000) 0) as [Z0'|Z0'];
    cbn [andb]; [..|change (String.compare "+00:00" "+00:00") with Eq].
  2: destruct (tail_dot "+00:00" t' Z0') as [s ->].
  3: destruct (tail_dot "+00:00" t Z0) as [s ->].
  all: cbn; unfold order_then; destruct (Z.compare_spec (t / 1000000) (t' / 1000000));
    try destruct (Z.compare_spec (t mod day_us mod 1000000) (t' mod day_us mod 1000000));
    destruct (Z.compare_spec t t'); done || lia.
Qed.

Lemma iso_leb t t' : min_us <= t < end_us → min_us <= t' < end_us →
  String.leb (isoformat t) (isoformat t') = (t <=? t').
Proof. intros. unfold String.leb. by rewrite iso_compare. Qed.

Lemma iso_inj t t' : min_us <= t < end_us → min_us <= t' < end_us → isoformat t = isoformat t' → t = t'.
Proof.
  intros Ht Ht' E. apply Z.compare_eq_iff. rewrite <-iso_compare, E, iso_compare by done. apply Z.compare_refl.
Qed.

(** A text with [Z] against one with [+00:00]: smaller only if the instant is, and certainly if
    it is a second earlier. *)
Theorem iso_z_leb t t' : min_us <= t < end_us → min_us <= t' < end_us →
  (String.leb (iso_z t) (isoformat t') = true → t < t') ∧ (t + 1000000 <= t' → String.leb (iso_z t) (isoformat t') = true).
Proof.
  intros Ht Ht'. unfold String.leb, iso_z, isoformat. rewrite stamp_compare, tail_compare by done.
  destruct (instant_parts t) as [E ?], (instant_parts t') as [E' ?].
  destruct (Z.eqb_spec (t mod day_us mod 1000000) 0) as [Z0|Z0], (Z.eqb_spec (t' mod day_us mod 1000000) 0) as [Z0'|Z0'];
    cbn [andb]; [..|change (String.compare "Z" "+00:00") with Gt].
  2: destruct (tail_dot "+00:00" t' Z0') as [s ->].
  3: destruct (tail_dot "Z" t Z0) as [s ->].
  all: cbn; unfold order_then; destruct (Z.compare_spec (t / 1000000) (t' / 1000000));
    try destruct (Z.compare_spec (t mod day_us mod 1000000) (t' mod day_us mod 1000000));
    split; intros; done || lia.
Qed.
