(* ===== verification/JobRegistry.v ===== *)
(** The durable job registry: [adapters/persistence/sqlite/job_registry.py] with the values of
    [application/ports/jobs.py].

    The database is a value: the table of jobs with the order of its rowids, the completion
    receipts, the output rows of each job in the order of their sequence, and the cleanup
    evidence.  A time column is the instant its text denotes; where SQL compares such texts the
    model compares them as texts.  A JSON column is the value read back from it.  Every operation
    is one transaction: one that raises leaves the database as it was.  An argument declared [int]
    is an integer, and [now] is the reading of the clock. *)
From S2P Require Import Prelude PyText CanonicalJson Sha256 PyDate.

Local Open Scope Z_scope.

Definition MAX_JOB_ATTEMPTS : Z := 100.
Definition MAX_OUTPUT_APPEND_BATCH : Z := 4096.

Inductive JobStatus :=
  | PENDING | CLAIMED | RUNNING | CANCELLATION_REQUESTED | PAUSED | SUCCEEDED | FAILED | CANCELLED | INTERRUPTED.
#[export] Instance job_status_eq_dec : EqDecision JobStatus.
Proof. solve_decision. Defined.

Definition status_value (s : JobStatus) : string :=
  match s with
  | PENDING => "pending" | CLAIMED => "claimed" | RUNNING => "running"
  | CANCELLATION_REQUESTED => "cancellation_requested" | PAUSED => "paused" | SUCCEEDED => "succeeded"
  | FAILED => "failed" | CANCELLED => "cancelled" | INTERRUPTED => "interrupted"
  end.

Definition TERMINAL_JOB_STATUSES : list JobStatus := [SUCCEEDED; FAILED; CANCELLED].
Definition terminal (s : JobStatus) : bool := mem s TERMINAL_JOB_STATUSES.

(** ** Values *)

Record JobIdentity := MkIdentity {
  job_id : string;
  kind : string;
  operation_id : string;
  idempotency_key : string;
  parent_job_id : option string;
  parent_session_id : option string
}.

Definition nonblank (name : string) (v : pyval) : res string :=
  check_str (λ s, negb (is_blank s)) ValueError (name +:+ " must be non-empty") v.

Definition JobIdentity_init (id knd op key : pyval) (parent session : option string) : res JobIdentity :=
  id' ← nonblank "job_id" id;
  knd' ← nonblank "kind" knd;
  op' ← nonblank "operation_id" op;
  key' ← nonblank "idempotency_key" key;
  Ok (MkIdentity id' knd' op' key' parent session).

(** [JobIdentity(...)] of the values an identity holds. *)
Definition revalidate (i : JobIdentity) : res JobIdentity :=
  JobIdentity_init (PStr (job_id i)) (PStr (kind i)) (PStr (operation_id i)) (PStr (idempotency_key i))
    (parent_job_id i) (parent_session_id i).

Record JobRecord := MkRecord {
  jr_identity : JobIdentity;
  jr_status : JobStatus;
  jr_revision : Z;
  jr_created_at : Z;
  jr_updated_at : Z;
  jr_result : option json;
  jr_error : string;
  jr_attempt : Z;
  jr_max_attempts : Z
}.
Definition is_terminal (r : JobRecord) : bool := terminal (jr_status r).

Definition JobRecord_init (ident : JobIdentity) (st : JobStatus) (rev created updated : Z) (res : option json)
  (err : string) (att max_att : Z) : Prelude.res JobRecord :=
  _ ← require (0 <=? att) ValueError "job attempt cannot be negative";
  _ ← require ((1 <=? max_att) && (max_att <=? MAX_JOB_ATTEMPTS)) ValueError "job max_attempts must be between 1 and 100";
  _ ← require (att <=? max_att) ValueError "job attempt cannot exceed max_attempts";
  Ok (MkRecord ident st rev created updated res err att max_att).

Record JobClaim := MkClaim {
  cl_job_id : string;
  cl_worker_id : string;
  cl_lease_until : Z;
  cl_revision : Z;
  cl_token : string;
  cl_attempt : Z
}.

Record JobCompletionReceipt := MkReceipt {
  rc_job_id : string;
  rc_attempt : Z;
  rc_receipt_key : string;
  rc_status : JobStatus;
  rc_payload_digest : string;
  rc_committed_at : Z;
  rc_revision : Z
}.

Definition JobCompletionReceipt_init (id : string) (att : Z) (key : string) (st : JobStatus) (digest : string) (at_ rev : Z)
  : res JobCompletionReceipt :=
  _ ← require (negb (is_blank id) && negb (is_blank key)) ValueError "receipt job_id and receipt_key must be non-empty";
  _ ← require (1 <=? att) ValueError "receipt attempt must be positive";
  _ ← require (terminal st) ValueError "completion receipt status must be terminal";
  _ ← require (is_digest digest) ValueError "completion receipt payload_digest must be sha256";
  _ ← require (1 <=? rev) ValueError "completion receipt revision must be positive";
  Ok (MkReceipt id att key st digest at_ rev).

(** ** Rows *)

(** The columns of the worker that holds a job. *)
Record Hold := MkHold { h_worker : option string; h_until : option Z; h_token : option string }.
Definition no_hold : Hold := MkHold None None None.

Record JobRow := MkRow {
  j_identity : JobIdentity;
  j_status : JobStatus;
  j_revision : Z;
  j_created_at : Z;
  j_updated_at : Z;
  j_result : option json;
  j_error : string;
  j_process_id : option Z;
  j_process_group_id : option Z;
  j_output_next : Z;
  j_output_dropped_before : Z;
  j_hold : Hold;
  j_attempt : Z;
  j_max_attempts : Z;
  j_metadata : option (list (string * json))
}.

Inductive OutputStream := STDOUT | STDERR | TERMINAL_STREAM.
Record SpillReference := MkSpill { sp_digest : string; sp_preview : string; sp_size : Z; sp_mime_type : string; sp_owner_id : string }.
Record OutputAppend := MkAppend { oa_stream : OutputStream; oa_data : string; oa_spill : option SpillReference }.
Record OutputRow := MkOutput { o_sequence : Z; o_entry : OutputAppend }.

Record JobDB := MkJobDb {
  jobs : gmap string JobRow;
  rowids : list string;
  receipts : list JobCompletionReceipt;
  outputs : gmap string (list OutputRow);
  cleanups : gmap string json
}.
Definition empty_jobs : JobDB := MkJobDb ∅ [] [] ∅ ∅.

Definition put (db : JobDB) (id : string) (r : JobRow) : JobDB :=
  MkJobDb (<[id := r]> (jobs db)) (rowids db) (receipts db) (outputs db) (cleanups db).

(** [json.loads(_json(value))]; a NULL column for [None]. *)
Definition stored_result (v : json) : option json := match v with JNull => None | _ => Some (canon v) end.
Definition stored_members (l : list (string * json)) : list (string * json) :=
  sort_by member_le (List.map (λ kv, (kv.1, canon kv.2)) l).

Definition _record (r : JobRow) : res JobRecord :=
  identity ← revalidate (j_identity r);
  JobRecord_init identity (j_status r) (j_revision r) (j_created_at r) (j_updated_at r) (j_result r) (j_error r)
    (j_attempt r) (j_max_attempts r).
#[global] Arguments _record : simpl never.

(** The columns every change of a job's life writes. *)
Definition moved (r : JobRow) (st : JobStatus) (now : Z) (result : option json) (error : string) (hold : Hold) (att : Z) : JobRow :=
  MkRow (j_identity r) st (j_revision r + 1) (j_created_at r) now result error (j_process_id r) (j_process_group_id r)
    (j_output_next r) (j_output_dropped_before r) hold att (j_max_attempts r) (j_metadata r).

(** ** Creation *)

(** [identity] stands for the argument [JobIdentity(...)] of the call, whose constructor runs first. *)
Definition start (db : JobDB) (identity : JobIdentity) (parent_id : option string) (process_id process_group_id : option Z)
  (max_attempts : pyval) (metadata : option (list (string * json))) (now : Z) : res (JobDB * JobRecord) :=
  identity ← revalidate identity;
  let parent := match parent_id with Some p => Some p | None => parent_job_id identity end in
  _ ← require (negb (bool_decide (parent = Some (job_id identity)))) ValueError "a job cannot be its own parent";
  _ ← require (match process_id with Some p => 0 <? p | None => true end) ValueError "process_id must be positive";
  _ ← require (match process_group_id with Some p => 0 <? p | None => true end) ValueError "process_group_id must be positive";
  max_att ← check_int 1 MAX_JOB_ATTEMPTS ValueError "max_attempts must be between 1 and 100" max_attempts;
  let identity' := MkIdentity (job_id identity) (kind identity) (operation_id identity) (idempotency_key identity)
                     parent (parent_session_id identity) in
  _ ← require (match parent with Some p => bool_decide (is_Some (jobs db !! p)) | None => true end) KeyError
        "parent job not found";
  _ ← require (bool_decide (jobs db !! job_id identity = None)) ValueError "job already exists";
  let row := MkRow identity' PENDING 0 now now None "" process_id process_group_id 1 0 no_hold 0 max_att
               (Some (stored_members (default [] metadata))) in
  record ← JobRecord_init identity' PENDING 0 now now None "" 0 max_att;
  Ok (MkJobDb (<[job_id identity := row]> (jobs db)) (rowids db ++ [job_id identity]) (receipts db) (outputs db) (cleanups db),
      record).

(** [metadata.get(name)] *)
Definition member (name : string) (l : list (string * json)) : option json :=
  snd <$> (snd <$> list_find (λ kv : string * json, kv.1 = name) (rev l)).

Definition create (db : JobDB) (identity : JobIdentity) (metadata : option (list (string * json))) (now : Z)
  : res (JobDB * JobRecord) :=
  let max_attempts := match metadata ≫= member "max_attempts" with
                      | None => PInt 3
                      | Some (JInt z) => PInt z
                      | Some _ => PNone
                      end in
  start db identity None None None max_attempts None now.

(** ** Reading *)

Definition no_job : string := "unknown job".

Definition poll (db : JobDB) (id : string) : res JobRecord :=
  match jobs db !! id with Some r => _record r | None => throw KeyError no_job end.

Definition get (db : JobDB) (id : string) : res (option JobRecord) :=
  match jobs db !! id with Some r => record ← _record r; Ok (Some record) | None => Ok None end.

(** [ORDER BY rowid] *)
Definition job_rows (db : JobDB) : list JobRow := omap (λ id, jobs db !! id) (rowids db).
Definition row_id (r : JobRow) : string := job_id (j_identity r).
Definition children (db : JobDB) (id : string) : list string :=
  row_id <$> filter (λ r, parent_job_id (j_identity r) = Some id) (job_rows db).

Definition list_jobs (db : JobDB) (parent : option string) (include_terminal : bool) (limit : Z) : res (list JobRecord) :=
  _ ← require (1 <=? limit) ValueError "limit must be positive";
  mapM_res _record (take (Z.to_nat limit)
    (filter (λ r, (match parent with Some p => bool_decide (parent_job_id (j_identity r) = Some p) | None => true end)
                  && (include_terminal || negb (terminal (j_status r))) = true) (job_rows db))).

Definition all (db : JobDB) (limit : Z) : res (list JobRecord) :=
  _ ← require (1 <=? limit) ValueError "limit must be positive";
  mapM_res _record (take (Z.to_nat limit) (job_rows db)).

Record DurableJobView := MkView {
  v_record : JobRecord;
  v_parent_job_id : option string;
  v_child_job_ids : list string;
  v_process_id : option Z;
  v_process_group_id : option Z;
  v_metadata : list (string * json)
}.

Definition view (db : JobDB) (id : string) : res DurableJobView :=
  match jobs db !! id with
  | None => throw KeyError no_job
  | Some r =>
      record ← _record r;
      Ok (MkView record (parent_job_id (j_identity r)) (children db id) (j_process_id r) (j_process_group_id r)
            (default [] (j_metadata r)))
  end.

Definition collect (db : JobDB) (id : string) : res JobRecord :=
  record ← poll db id;
  _ ← require (is_terminal record) ValueError "job is not terminal";
  Ok record.

(** ** Processes, cleanup evidence and cancellation bindings *)

Definition attach_process (db : JobDB) (id : string) (process_id : Z) (process_group_id : option Z)
  (metadata : option (list (string * json))) (now : Z) : res (JobDB * JobRecord) :=
  _ ← require (0 <? process_id) ValueError "process_id must be positive";
  _ ← require (match process_group_id with Some p => 0 <? p | None => true end) ValueError "process_group_id must be positive";
  match jobs db !! id with
  | None => throw KeyError no_job
  | Some r =>
      current ← _record r;
      _ ← require (negb (is_terminal current)) ValueError "cannot attach a process to a terminal job";
      _ ← require (bool_decide (j_process_id r = None)) ValueError "job already has an attached process";
      let merged := foldl (λ m kv, filter (λ kv' : string * json, kv'.1 ≠ kv.1) m ++ [kv]) (default [] (j_metadata r)) (default [] metadata) in
      let r' := MkRow (j_identity r) (j_status r) (j_revision r + 1) (j_created_at r) now (j_result r) (j_error r)
                  (Some process_id) process_group_id (j_output_next r) (j_output_dropped_before r) (j_hold r)
                  (j_attempt r) (j_max_attempts r) (Some (stored_members merged)) in
      record ← _record r';
      Ok (put db id r', record)
  end.

(** [proof.get(name) == value] for a JSON value *)
Definition proof_is (proof : list (string * json)) (name : string) (v : json) : bool :=
  match member name proof, v with
  | Some (JStr s), JStr s' => String.eqb s s'
  | Some (JInt z), JInt z' => Z.eqb z z'
  | Some (JBool b), JInt z => Z.eqb (Z.b2z b) z
  | Some (JBool b), JBool b' => Bool.eqb b b'
  | Some JNull, JNull | None, JNull => true
  | _, _ => false
  end.

Definition _validate_cleanup_evidence (record : JobRecord) (proof : list (string * json)) : res unit :=
  require (is_terminal record
           && proof_is proof "job_id" (JStr (job_id (jr_identity record)))
           && proof_is proof "job_revision" (JInt (jr_revision record))
           && proof_is proof "parent_session_id" (match parent_session_id (jr_identity record) with Some s => JStr s | None => JNull end)
           && proof_is proof "status" (JStr (status_value (jr_status record)))
           && forallb (λ k, proof_is proof k (JBool true)) ["process_exited"; "containment_empty"; "resources_released"])
    ValueError "process cleanup evidence does not match terminal job identity".

(** The evidence is compared as the text that is stored. *)
Definition _record_process_cleanup (db : JobDB) (id : string) (proof : list (string * json)) : res JobDB :=
  match jobs db !! id with
  | None => throw KeyError "job not found"
  | Some r =>
      record ← _record r;
      _ ← _validate_cleanup_evidence record proof;
      match cleanups db !! id with
      | Some prior =>
          _ ← require (String.eqb (json_dumps prior) (json_dumps (JObj proof))) ValueError
                "immutable process cleanup evidence conflict";
          Ok db
      | None => Ok (MkJobDb (jobs db) (rowids db) (receipts db) (outputs db) (<[id := canon (JObj proof)]> (cleanups db)))
      end
  end.

Definition process_cleanup_proof (db : JobDB) (id : string) : option json := cleanups db !! id.

Definition CANCEL_REQUEST_DIGESTS : string := "cancel_request_digests".
Definition CANCEL_REQUEST_BOUND_STATES : string := "cancel_request_bound_states".
Definition MAX_CANCEL_REQUEST_BINDINGS : Z := 32.
Definition _CANCEL_KEY_MAX : Z := 256.

Definition set_member (l : list (string * json)) (name : string) (v : json) : list (string * json) :=
  filter (λ kv : string * json, kv.1 ≠ name) l ++ [(name, v)].

Definition is_text (v : json) : bool := match v with JStr _ => true | _ => false end.
Definition is_object (v : json) : bool := match v with JObj _ => true | _ => false end.

(** The members of an object whose values all satisfy [p]. *)
Definition object_of (p : json → bool) (msg : string) (v : option json) : res (list (string * json)) :=
  match default (JObj []) v with
  | JObj l => _ ← require (forallb (λ kv, p kv.2) l) ValueError msg; Ok l
  | _ => throw ValueError msg
  end.

Definition _bind_cancel_request_metadata (metadata : list (string * json)) (key digest : pyval) (record : JobRecord)
  : res (option (list (string * json))) :=
  key' ← check_str (λ s, negb (is_blank s) && (py_len s <=? _CANCEL_KEY_MAX)) ValueError
           "cancel binding idempotency key must be non-empty and bounded" key;
  digest' ← check_str is_digest ValueError "cancel binding request digest must be lowercase SHA-256 hex" digest;
  bindings ← object_of is_text "stored cancel request bindings are malformed" (member CANCEL_REQUEST_DIGESTS metadata);
  states ← object_of is_object "stored cancel request bound states are malformed" (member CANCEL_REQUEST_BOUND_STATES metadata);
  match member key' bindings with
  | Some prior =>
      _ ← require (match prior with JStr s => String.eqb s digest' | _ => false end) ValueError
            "cancel request binding conflicts with a prior request";
      Ok None
  | None =>
      _ ← require (zlen bindings <? MAX_CANCEL_REQUEST_BINDINGS) ValueError "cancel request bindings are exhausted for this job";
      _ ← require (1 <=? jr_revision record) ValueError "cancel binding requires a positive record revision";
      Ok (Some (set_member
        (set_member metadata CANCEL_REQUEST_DIGESTS (JObj (set_member bindings key' (JStr digest'))))
        CANCEL_REQUEST_BOUND_STATES
        (JObj (set_member states key'
          (JObj [("revision", JInt (jr_revision record)); ("status", JStr (status_value (jr_status record)))])))))
  end.

Definition set_metadata (r : JobRow) (m : list (string * json)) : JobRow :=
  MkRow (j_identity r) (j_status r) (j_revision r) (j_created_at r) (j_updated_at r) (j_result r) (j_error r)
    (j_process_id r) (j_process_group_id r) (j_output_next r) (j_output_dropped_before r) (j_hold r)
    (j_attempt r) (j_max_attempts r) (Some (stored_members m)).

Definition bind_cancel_request (db : JobDB) (id : string) (key digest : pyval) : res JobDB :=
  match jobs db !! id with
  | None => throw KeyError no_job
  | Some r =>
      record ← _record r;
      updated ← _bind_cancel_request_metadata (default [] (j_metadata r)) key digest record;
      Ok (match updated with Some m => put db id (set_metadata r m) | None => db end)
  end.

(** ** Output *)

(** How many entries at the front are dropped. *)
Fixpoint excess (max_events max_bytes total : Z) (l : list (Z * Z)) : nat :=
  match l with
  | [] => O
  | (_, size) :: rest =>
      if (max_events <? zlen l) || (max_bytes <? total) then S (excess max_events max_bytes (total - size) rest) else O
  end.

Definition entry_size (e : OutputAppend) : Z := Z.of_nat (String.length (oa_data e)).
Definition sizes (l : list OutputRow) : list (Z * Z) := (λ o, (o_sequence o, entry_size (o_entry o))) <$> l.
Definition sum_sizes (l : list (Z * Z)) : Z := foldr (λ p acc, p.2 + acc) 0 l.
Definition numbered (first : Z) (batch : list OutputAppend) : list OutputRow :=
  imap (λ i e, MkOutput (first + Z.of_nat i) e) batch.

Definition set_output (r : JobRow) (next dropped : Z) : JobRow :=
  MkRow (j_identity r) (j_status r) (j_revision r) (j_created_at r) (j_updated_at r) (j_result r) (j_error r)
    (j_process_id r) (j_process_group_id r) next dropped (j_hold r) (j_attempt r) (j_max_attempts r) (j_metadata r).

Definition append_outputs (max_events max_bytes : Z) (db : JobDB) (id : string) (batch : list OutputAppend) : res JobDB :=
  _ ← require (zlen batch <=? MAX_OUTPUT_APPEND_BATCH) ValueError "output batch exceeds 4096 entries";
  match jobs db !! id with
  | None => throw KeyError no_job
  | Some r =>
      if bool_decide (batch = []) then Ok db
      else
        let sequence := j_output_next r in
        let retained := default [] (outputs db !! id) in
        let combined := sizes retained ++ imap (λ i e, (sequence + Z.of_nat i, entry_size e)) batch in
        let start := excess max_events max_bytes (sum_sizes combined) combined in
        let dropped_through := match start with O => None | S n => fst <$> combined !! n end in
        let kept := λ o, match dropped_through with None => true | Some d => d <? o_sequence o end in
        Ok (MkJobDb (<[id := set_output r (sequence + zlen batch) (default (j_output_dropped_before r) dropped_through)]> (jobs db))
              (rowids db) (receipts db)
              (<[id := filter (λ o, kept o = true) retained ++ filter (λ o, kept o = true) (numbered sequence batch)]> (outputs db))
              (cleanups db))
  end.

Definition append_output (max_events max_bytes : Z) (db : JobDB) (id : string) (e : OutputAppend) : res JobDB :=
  append_outputs max_events max_bytes db id [e].

Record OutputPage := MkPage {
  pg_events : list OutputRow;
  pg_next : Z;
  pg_has_more : bool;
  pg_truncated : bool
}.

(** The loop over the events after the cursor; [n] and [used] count what was selected. *)
Fixpoint select_events (max_events max_bytes n used : Z) (l : list OutputRow) : list OutputRow :=
  match l with
  | [] => []
  | o :: rest =>
      let size := entry_size (o_entry o) in
      if (0 <? n) && ((max_events <=? n) || (max_bytes <? used + size)) then []
      else o :: (if (max_events <=? n + 1) || (max_bytes <=? used + size) then []
                 else select_events max_events max_bytes (n + 1) (used + size) rest)
  end.

Definition stream (db : JobDB) (id : string) (after : Z) (max_events max_bytes : Z) : res OutputPage :=
  _ ← require ((1 <=? max_events) && (1 <=? max_bytes)) ValueError "output read bounds must be positive";
  match jobs db !! id with
  | None => throw KeyError no_job
  | Some r =>
      let events := filter (λ o, after < o_sequence o) (default [] (outputs db !! id)) in
      let selected := select_events max_events max_bytes 0 0 events in
      let next := match last selected with Some o => o_sequence o | None => after end in
      Ok (MkPage selected next (existsb (λ o, next <? o_sequence o) events) (after <? j_output_dropped_before r))
  end.

(** ** The life of a job *)

(** [UPDATE ... WHERE job_id=? AND revision=? AND status=?] of [transition], with the row that was
    read before: another process may have written in between. *)
Definition transition_write (db : JobDB) (id : string) (read : JobRow) (status : JobStatus) (result : json) (error : string) (now : Z)
  : JobDB :=
  match jobs db !! id with
  | Some r =>
      if (j_revision r =? j_revision read) && bool_decide (j_status r = j_status read)
      then put db id (moved r status now (stored_result result) error (j_hold r) (j_attempt r))
      else db
  | None => db
  end.

Definition transition (db : JobDB) (id : string) (status : JobStatus) (result : json) (error : string)
  (expected_revision : option Z) (expected_status : option JobStatus) (now : Z) : res (JobDB * JobRecord) :=
  match jobs db !! id with
  | None => throw KeyError no_job
  | Some r =>
      current ← _record r;
      if negb (match expected_revision with Some v => jr_revision current =? v | None => true end)
         || negb (match expected_status with Some s => bool_decide (jr_status current = s) | None => true end)
      then Ok (db, current)
      else if is_terminal current then Ok (db, current)
      else
        _ ← require (negb (bool_decide (status = SUCCEEDED) && negb (String.eqb error ""))) ValueError
              "successful jobs cannot carry an error";
        let db' := transition_write db id r status result error now in
        record ← poll db' id;
        Ok (db', record)
  end.

(** [_lease_active(row[17], now)] of the holder's columns *)
Definition lease_active (h : Hold) (now : Z) : bool :=
  match h_until h with Some u => now <? u | None => false end.
Definition held (h : Hold) (now : Z) : bool :=
  match h_worker h with Some w => negb (String.eqb w "") | None => false end && lease_active h now.

Definition worker_arg (v : pyval) : res string :=
  check_str (λ s, negb (is_blank s)) ValueError "worker_id must be non-empty" v.
Definition token_arg (v : pyval) : res (option string) :=
  match v with
  | PNone => Ok None
  | _ => s ← check_str (λ s, negb (is_blank s)) ValueError "claim_token must be non-empty when provided" v; Ok (Some s)
  end.

(** [row[16] == worker_id], the lease is active, and the token is the one given, if any. *)
Definition holds_claim (h : Hold) (worker : string) (token : option string) (now : Z) : bool :=
  bool_decide (h_worker h = Some worker) && lease_active h now
  && match token with Some t => bool_decide (h_token h = Some t) | None => true end.

(** [token] is [uuid4().hex]. *)
Definition claim (db : JobDB) (id : string) (worker_id : pyval) (lease_seconds : Z) (token : string) (now : Z)
  : res (JobDB * option JobClaim) :=
  worker ← worker_arg worker_id;
  _ ← require (1 <=? lease_seconds) ValueError "lease_seconds must be positive";
  match jobs db !! id with
  | None => Ok (db, None)
  | Some r =>
      current ← _record r;
      if is_terminal current || (jr_max_attempts current <=? jr_attempt current) then Ok (db, None)
      else if held (j_hold r) now then Ok (db, None)
      else
        until ← add_seconds now lease_seconds;
        let attempt := jr_attempt current + 1 in
        Ok (put db id (moved r CLAIMED now (j_result r) (j_error r) (MkHold (Some worker) (Some until) (Some token)) attempt),
            Some (MkClaim id worker until (jr_revision current + 1) token attempt))
  end.

Definition heartbeat (db : JobDB) (id : string) (worker_id : pyval) (lease_seconds : Z) (claim_token : pyval) (now : Z)
  : res (JobDB * bool) :=
  worker ← worker_arg worker_id;
  _ ← require (1 <=? lease_seconds) ValueError "lease_seconds must be positive";
  token ← token_arg claim_token;
  match jobs db !! id with
  | None => Ok (db, false)
  | Some r =>
      current ← _record r;
      if is_terminal current then Ok (db, false)
      else if negb (holds_claim (j_hold r) worker token now) then Ok (db, false)
      else
        until ← add_seconds now lease_seconds;
        Ok (put db id (moved r RUNNING now (j_result r) (j_error r)
                         (MkHold (h_worker (j_hold r)) (Some until) (h_token (j_hold r))) (j_attempt r)), true)
  end.

Definition finish (db : JobDB) (id : string) (worker_id : pyval) (status : JobStatus) (result : json) (error : string)
  (claim_token : pyval) (now : Z) : res (JobDB * option JobRecord) :=
  _ ← require (terminal status) ValueError "finish status must be terminal";
  worker ← worker_arg worker_id;
  token ← token_arg claim_token;
  match jobs db !! id with
  | None => Ok (db, None)
  | Some r =>
      current ← _record r;
      if is_terminal current then Ok (db, Some current)
      else if negb (holds_claim (j_hold r) worker token now) then Ok (db, None)
      else
        _ ← require (negb (bool_decide (status = SUCCEEDED) && negb (String.eqb error ""))) ValueError
              "successful jobs cannot carry an error";
        let r' := moved r status now (stored_result result) error no_hold (j_attempt r) in
        record ← _record r';
        Ok (put db id r', Some record)
  end.

Definition _completion_digest (status : JobStatus) (result : json) (error : string) : string :=
  sha256_hex (json_dumps (JObj [("status", JStr (status_value status)); ("result", result); ("error", JStr error)])).

Definition receipt_by_key (db : JobDB) (key : string) : option JobCompletionReceipt :=
  snd <$> list_find (λ c, rc_receipt_key c = key) (receipts db).
Definition receipt_at (db : JobDB) (id : string) (att : Z) : option JobCompletionReceipt :=
  snd <$> list_find (λ c, rc_job_id c = id ∧ rc_attempt c = att) (receipts db).

(** [ORDER BY attempt DESC LIMIT 1] *)
Definition newer (a : option JobCompletionReceipt) (c : JobCompletionReceipt) : option JobCompletionReceipt :=
  match a with Some b => if rc_attempt b <? rc_attempt c then Some c else a | None => Some c end.

Definition completion_receipt (db : JobDB) (id : string) (att : option Z) : res (option JobCompletionReceipt) :=
  _ ← require (match att with Some a => 1 <=? a | None => true end) ValueError "attempt must be positive when provided";
  Ok (match att with
      | Some a => receipt_at db id a
      | None => foldl newer None (filter (λ c, rc_job_id c = id) (receipts db))
      end).

Definition same_payload (status : JobStatus) (digest : string) (c : JobCompletionReceipt) : bool :=
  bool_decide (rc_status c = status) && String.eqb (rc_payload_digest c) digest.

Definition add_receipt (db : JobDB) (c : JobCompletionReceipt) : JobDB :=
  MkJobDb (jobs db) (rowids db) (receipts db ++ [c]) (outputs db) (cleanups db).

Definition finish_once (db : JobDB) (id : string) (worker_id : pyval) (status : JobStatus) (receipt_key : pyval) (result : json)
  (error : string) (claim_token : pyval) (now : Z) : res (JobDB * option JobCompletionReceipt) :=
  _ ← require (terminal status) ValueError "finish status must be terminal";
  worker ← worker_arg worker_id;
  key ← check_str (λ s, negb (is_blank s)) ValueError "receipt_key must be non-empty" receipt_key;
  token ← token_arg claim_token;
  _ ← require (negb (bool_decide (status = SUCCEEDED) && negb (String.eqb error ""))) ValueError
        "successful jobs cannot carry an error";
  let digest := _completion_digest status result error in
  match jobs db !! id with
  | None => Ok (db, None)
  | Some r =>
      current ← _record r;
      match receipt_by_key db key with
      | Some replay =>
          _ ← require (String.eqb (rc_job_id replay) id && same_payload status digest replay) ValueError
                "completion receipt key is already committed";
          Ok (db, Some replay)
      | None =>
          match receipt_at db id (jr_attempt current) with
          | Some existing =>
              _ ← require (String.eqb (rc_receipt_key existing) key && same_payload status digest existing) ValueError
                    "completion receipt conflicts with committed attempt";
              Ok (db, Some existing)
          | None =>
              _ ← require (negb (is_terminal current)) ValueError "terminal job has no matching completion receipt";
              if negb (holds_claim (j_hold r) worker token now) then Ok (db, None)
              else
                receipt ← JobCompletionReceipt_init id (jr_attempt current) key status digest now (jr_revision current + 1);
                Ok (add_receipt (put db id (moved r status now (stored_result result) error no_hold (j_attempt r))) receipt,
                    Some receipt)
          end
      end
  end.

Definition retry (db : JobDB) (id : string) (expected_revision : option Z) (now : Z) : res (JobDB * option JobRecord) :=
  match jobs db !! id with
  | None => Ok (db, None)
  | Some r =>
      current ← _record r;
      if negb (match expected_revision with Some v => jr_revision current =? v | None => true end) then Ok (db, None)
      else
        _ ← require (mem (jr_status current) [FAILED; INTERRUPTED]) ValueError "only failed or interrupted jobs can be retried";
        _ ← require (jr_attempt current <? jr_max_attempts current) ValueError "job retry budget is exhausted";
        let r' := moved r PENDING now None "" no_hold (j_attempt r) in
        record ← _record r';
        Ok (put db id r', Some record)
  end.

(** ** Cancellation *)

(** The breadth-first walk over the children. *)
Fixpoint walk (fuel : nat) (db : JobDB) (max_descendants : Z) (queue ids : list string) : option (res (list string)) :=
  match queue with
  | [] => Some (Ok ids)
  | current :: queue' =>
      match fuel with
      | O => None
      | S fuel' =>
          if mem current ids then walk fuel' db max_descendants queue' ids
          else if bool_decide (jobs db !! current = None) then Some (throw KeyError no_job)
          else if max_descendants <? zlen (ids ++ [current]) - 1
          then Some (throw ValueError "job cancellation exceeds max_descendants")
          else walk fuel' db max_descendants (queue' ++ children db current) (ids ++ [current])
      end
  end.

Definition walk_fuel (db : JobDB) : nat := S (length (rowids db)).

(** The update of the selected rows. *)
Definition cancel_row (now : Z) (reason : string) (r : JobRow) : JobRow :=
  if terminal (j_status r) then r else moved r CANCELLED now (j_result r) reason no_hold (j_attempt r).
Definition request_row (now : Z) (reason : string) (r : JobRow) : JobRow :=
  if terminal (j_status r) || bool_decide (j_status r = CANCELLATION_REQUESTED) then r
  else moved r CANCELLATION_REQUESTED now (j_result r) reason (j_hold r) (j_attempt r).

Definition update_all (f : JobRow → JobRow) (ids : list string) (db : JobDB) : JobDB :=
  foldl (λ db id, match jobs db !! id with Some r => put db id (f r) | None => db end) db ids.

Definition cancel_with (f : JobRow → JobRow) (db : JobDB) (id reason : string) (max_descendants : Z)
  : option (res (JobDB * list JobRecord)) :=
  if is_blank reason then Some (throw ValueError "cancellation reason is required")
  else if max_descendants <? 0 then Some (throw ValueError "max_descendants must be a non-negative integer")
  else
    ids ← walk (walk_fuel db) db max_descendants [id] [];
    Some (ids' ← ids;
          let db' := update_all f ids' db in
          records ← mapM_res _record (omap (λ i, jobs db' !! i) ids');
          Ok (db', records)).

Definition cancel (db : JobDB) (id reason : string) (max_descendants now : Z) : option (res (JobDB * list JobRecord)) :=
  cancel_with (cancel_row now reason) db id reason max_descendants.
Definition request_cancellation (db : JobDB) (id reason : string) (max_descendants now : Z)
  : option (res (JobDB * list JobRecord)) :=
  cancel_with (request_row now reason) db id reason max_descendants.

(** ** Stale leases *)

(** [status IN ('claimed','running') AND lease_until IS NOT NULL AND lease_until<=?] on the texts *)
Definition stale (now : Z) (r : JobRow) : bool :=
  mem (j_status r) [CLAIMED; RUNNING]
  && match h_until (j_hold r) with Some u => String.leb (iso_z u) (isoformat now) | None => false end.

Definition row_until (r : JobRow) : string := match h_until (j_hold r) with Some u => iso_z u | None => "" end.
Definition stale_le (a b : JobRow) : bool :=
  match String.compare (row_until a) (row_until b) with
  | Lt => true | Gt => false
  | Eq => String.leb (job_id (j_identity a)) (job_id (j_identity b))
  end.

Record JobReconciliationReport := MkReport { rp_scanned : Z; rp_interrupted : list string; rp_truncated : bool }.

Definition interrupt_row (now : Z) (r : JobRow) : JobRow :=
  if stale now r then moved r INTERRUPTED now (j_result r) (j_error r) no_hold (j_attempt r) else r.

Definition reconcile_stale (db : JobDB) (now max_records : Z) : res (JobDB * JobReconciliationReport) :=
  _ ← require (1 <=? max_records) ValueError "max_records must be positive";
  let rows := take (Z.to_nat (max_records + 1)) (sort_by stale_le (filter (λ r, stale now r = true) (job_rows db))) in
  let selected := row_id <$> take (Z.to_nat max_records) rows in
  Ok (update_all (interrupt_row now) selected db,
      MkReport (zlen selected) selected (max_records <? zlen rows)).

Definition reconcile (db : JobDB) (now max_records : Z) : res (JobDB * Z) :=
  out ← reconcile_stale db now max_records; Ok (out.1, zlen (rp_interrupted out.2)).

(** ** Runs *)

Inductive job_op :=
  | Start (identity : JobIdentity) (parent : option string) (process_id group_id : option Z) (max_attempts : pyval)
      (metadata : option (list (string * json))) (now : Z)
  | Attach (id : string) (process_id : Z) (group_id : option Z) (metadata : option (list (string * json))) (now : Z)
  | RecordCleanup (id : string) (proof : list (string * json)) (now : Z)
  | BindCancel (id : string) (key digest : pyval) (now : Z)
  | Append (id : string) (batch : list OutputAppend) (now : Z)
  | Transition (id : string) (status : JobStatus) (result : json) (error : string) (revision : option Z)
      (expected : option JobStatus) (now : Z)
  | Claim (id : string) (worker : pyval) (lease_seconds : Z) (token : string) (now : Z)
  | Heartbeat (id : string) (worker : pyval) (lease_seconds : Z) (token : pyval) (now : Z)
  | Finish (id : string) (worker : pyval) (status : JobStatus) (result : json) (error : string) (token : pyval) (now : Z)
  | FinishOnce (id : string) (worker : pyval) (status : JobStatus) (key : pyval) (result : json) (error : string)
      (token : pyval) (now : Z)
  | Retry (id : string) (revision : option Z) (now : Z)
  | Cancel (id reason : string) (max_descendants now : Z)
  | RequestCancel (id reason : string) (max_descendants now : Z)
  | Reconcile (max_records now : Z).

Definition op_now (o : job_op) : Z :=
  match o with
  | Start _ _ _ _ _ _ n | Attach _ _ _ _ n | RecordCleanup _ _ n | BindCancel _ _ _ n | Append _ _ n
  | Transition _ _ _ _ _ _ n | Claim _ _ _ _ n | Heartbeat _ _ _ _ n | Finish _ _ _ _ _ _ n
  | FinishOnce _ _ _ _ _ _ _ n | Retry _ _ n | Cancel _ _ _ n | RequestCancel _ _ _ n | Reconcile _ n => n
  end.

Definition keep {A} (db : JobDB) (m : res (JobDB * A)) : JobDB := match m with Ok (db', _) => db' | Err _ => db end.
Definition keep_db (db : JobDB) (m : res JobDB) : JobDB := match m with Ok db' => db' | Err _ => db end.
Definition keep_walk {A} (db : JobDB) (m : option (res (JobDB * A))) : JobDB :=
  match m with Some m' => keep db m' | None => db end.

(** The database after one operation; [bounds] are the bounds of the output. *)
Definition apply (bounds : Z * Z) (db : JobDB) (o : job_op) : JobDB :=
  match o with
  | Start ident p pid gid max_att m n => keep db (start db ident p pid gid max_att m n)
  | Attach id pid gid m n => keep db (attach_process db id pid gid m n)
  | RecordCleanup id proof _ => keep_db db (_record_process_cleanup db id proof)
  | BindCancel id k d _ => keep_db db (bind_cancel_request db id k d)
  | Append id batch _ => keep_db db (append_outputs bounds.1 bounds.2 db id batch)
  | Transition id st v e rev exp n => keep db (transition db id st v e rev exp n)
  | Claim id w s t n => keep db (claim db id w s t n)
  | Heartbeat id w s t n => keep db (heartbeat db id w s t n)
  | Finish id w st v e t n => keep db (finish db id w st v e t n)
  | FinishOnce id w st k v e t n => keep db (finish_once db id w st k v e t n)
  | Retry id rev n => keep db (retry db id rev n)
  | Cancel id reason m n => keep_walk db (cancel db id reason m n)
  | RequestCancel id reason m n => keep_walk db (request_cancellation db id reason m n)
  | Reconcile m n => keep db (reconcile_stale db n m)
  end.

Definition run (bounds : Z * Z) (db : JobDB) (l : list job_op) : JobDB := foldl (apply bounds) db l.

(** What the operation [o] may do to the row of [id]. *)
Inductive row_step (o : job_op) (id : string) (r : JobRow) : JobRow → Prop :=
  | step_same : row_step o id r r
  | step_attach r' : terminal (j_status r) = false → j_process_id r = None →
      r' = MkRow (j_identity r) (j_status r) (j_revision r + 1) (j_created_at r) (op_now o) (j_result r) (j_error r)
             (j_process_id r') (j_process_group_id r') (j_output_next r) (j_output_dropped_before r) (j_hold r)
             (j_attempt r) (j_max_attempts r) (j_metadata r') → row_step o id r r'
  | step_metadata m : row_step o id r (set_metadata r m)
  | step_output next dropped batch : o = Append id batch (op_now o) → row_step o id r (set_output r next dropped)
  | step_transition st v e : terminal (j_status r) = false →
      row_step o id r (moved r st (op_now o) v e (j_hold r) (j_attempt r))
  | step_claim v w s t u : o = Claim id v s t (op_now o) → terminal (j_status r) = false →
      j_attempt r < j_max_attempts r → held (j_hold r) (op_now o) = false → add_seconds (op_now o) s = Ok u →
      row_step o id r (moved r CLAIMED (op_now o) (j_result r) (j_error r) (MkHold (Some w) (Some u) (Some t)) (j_attempt r + 1))
  | step_heartbeat v w s tv t u : o = Heartbeat id v s tv (op_now o) → terminal (j_status r) = false →
      holds_claim (j_hold r) w t (op_now o) = true → add_seconds (op_now o) s = Ok u →
      row_step o id r (moved r RUNNING (op_now o) (j_result r) (j_error r)
                         (MkHold (h_worker (j_hold r)) (Some u) (h_token (j_hold r))) (j_attempt r))
  | step_finish w t st v e : terminal (j_status r) = false → terminal st = true → holds_claim (j_hold r) w t (op_now o) = true →
      row_step o id r (moved r st (op_now o) v e no_hold (j_attempt r))
  | step_retry rev : o = Retry id rev (op_now o) → j_status r = FAILED ∨ j_status r = INTERRUPTED →
      j_attempt r < j_max_attempts r → row_step o id r (moved r PENDING (op_now o) None "" no_hold (j_attempt r))
  | step_cancel e : terminal (j_status r) = false →
      row_step o id r (moved r CANCELLED (op_now o) (j_result r) e no_hold (j_attempt r))
  | step_reconcile : stale (op_now o) r = true →
      row_step o id r (moved r INTERRUPTED (op_now o) (j_result r) (j_error r) no_hold (j_attempt r)).
#[export] Hint Constructors row_step : core.

(** ** Lemmas *)

Lemma revalidate_ok i j : revalidate i = Ok j → j = i ∧ revalidate i = Ok i.
Proof.
  intros H. assert (j = i) as ->; [|done]. unfold revalidate, JobIdentity_init, nonblank in H. res_inv. by destruct i.
Qed.

(** The parent is not part of what is checked. *)
Lemma revalidate_parent i p : revalidate i = Ok i →
  revalidate (MkIdentity (job_id i) (kind i) (operation_id i) (idempotency_key i) p (parent_session_id i))
  = Ok (MkIdentity (job_id i) (kind i) (operation_id i) (idempotency_key i) p (parent_session_id i)).
Proof.
  unfold revalidate, JobIdentity_init, nonblank. intros H. res_inv. unfold check_str. simpl.
  repeat match goal with H : negb (is_blank _) = true |- _ => rewrite H; clear H end. done.
Qed.

Lemma record_ok r rec : _record r = Ok rec →
  rec = MkRecord (j_identity r) (j_status r) (j_revision r) (j_created_at r) (j_updated_at r) (j_result r) (j_error r)
          (j_attempt r) (j_max_attempts r) ∧ 0 <= j_attempt r <= j_max_attempts r ∧ 1 <= j_max_attempts r <= 100.
Proof.
  unfold _record, JobRecord_init. intros (i & [-> _]%revalidate_ok & H)%bind_ok. res_inv. to_prop.
  unfold MAX_JOB_ATTEMPTS in *. split_and!; try done; lia.
Qed.

Lemma put_lookup db id r i : jobs (put db id r) !! i = if decide (i = id) then Some r else jobs db !! i.
Proof. simpl. destruct (decide (i = id)) as [->|]; [by rewrite lookup_insert_eq|by rewrite lookup_insert_ne]. Qed.

(** Each row moves by [row_step]; none is lost and none is new. *)
Definition steps (o : job_op) (db db' : JobDB) : Prop :=
  rowids db' = rowids db ∧ ∀ id, option_Forall2 (row_step o id) (jobs db !! id) (jobs db' !! id).

Lemma steps_refl o db : steps o db db.
Proof. split; [done|]. intros id. destruct (jobs db !! id); by constructor. Qed.

Lemma steps_put o db id r r' : jobs db !! id = Some r → row_step o id r r' → steps o db (put db id r').
Proof.
  intros Hr Hs. split; [done|]. intros i. rewrite put_lookup. destruct (decide (i = id)) as [->|].
  - rewrite Hr. by constructor.
  - apply steps_refl.
Qed.
#[export] Hint Resolve steps_refl : core.

Lemma steps_jobs o db db' db2 : steps o db db' → rowids db2 = rowids db' → jobs db2 = jobs db' → steps o db db2.
Proof. intros [Hr Hs] Hr2 Hj2. split; [congruence|]. by rewrite Hj2. Qed.

Lemma update_all_lookup f ids : ∀ db i, NoDup ids →
  jobs (update_all f ids db) !! i = if decide (i ∈ ids) then f <$> jobs db !! i else jobs db !! i.
Proof.
  induction ids as [|id ids IH]; intros db i Hnd; [by rewrite decide_False by (by intros ?%elem_of_nil)|].
  apply NoDup_cons in Hnd as [Hid Hnd]. change (update_all f (id :: ids) db) with
    (update_all f ids (match jobs db !! id with Some r => put db id (f r) | None => db end)). rewrite (IH _ i Hnd).
  assert (jobs (match jobs db !! id with Some r => put db id (f r) | None => db end) !! i
          = if decide (i = id) then f <$> jobs db !! i else jobs db !! i) as ->.
  { destruct (jobs db !! id) as [r|] eqn:E; [rewrite put_lookup|]; destruct (decide (i = id)) as [->|]; by rewrite ?E. }
  destruct (decide (i = id)) as [->|Hne].
  - rewrite decide_False by done. by rewrite decide_True by (by left).
  - destruct (decide (i ∈ ids)); [rewrite decide_True by (by right)|rewrite decide_False by (intros [->|?]%elem_of_cons; done)]; done.
Qed.

Lemma update_all_rowids f ids : ∀ db, rowids (update_all f ids db) = rowids db.
Proof.
  unfold update_all. induction ids as [|id ids IH]; intros db; [done|]. simpl. rewrite IH. by destruct (jobs db !! id).
Qed.

Lemma update_all_steps o f ids db : NoDup ids → (∀ id r, row_step o id r (f r)) → steps o db (update_all f ids db).
Proof.
  intros Hnd Hf. split; [apply update_all_rowids|]. intros id. rewrite update_all_lookup by done.
  destruct (decide (id ∈ ids)); [|apply steps_refl]. destruct (jobs db !! id); simpl; by constructor.
Qed.

Lemma cancel_row_step o id reason r : row_step o id r (cancel_row (op_now o) reason r).
Proof. unfold cancel_row. destruct (terminal (j_status r)) eqn:E; auto. Qed.

Lemma request_row_step o id reason r : row_step o id r (request_row (op_now o) reason r).
Proof. unfold request_row. destruct (terminal (j_status r)) eqn:E; [done|]. cbn. case_bool_decide; auto. Qed.

Lemma interrupt_row_step o id r : row_step o id r (interrupt_row (op_now o) r).
Proof. unfold interrupt_row. destruct (stale (op_now o) r) eqn:E; auto. Qed.

(** The walk collects each job once. *)
Lemma walk_nodup fuel db m : ∀ queue ids ids', NoDup ids → walk fuel db m queue ids = Some (Ok ids') → NoDup ids'.
Proof.
  induction fuel as [|fuel IH]; intros [|c queue] ids ids' Hnd; simpl; try (by intros [= <-]); try done.
  unfold mem. case_bool_decide as Hin; [by apply IH|]. case_bool_decide; [done|]. destruct (_ <? _); [done|].
  apply IH. apply NoDup_app. split_and!; [done| |apply NoDup_singleton]. by intros x Hx ->%list_elem_of_singleton.
Qed.

Lemma cancel_with_steps o f db id reason m : (∀ id r, row_step o id r (f r)) → steps o db (keep_walk db (cancel_with f db id reason m)).
Proof.
  intros Hf. unfold cancel_with. destruct (is_blank reason); [done|]. destruct (m <? 0); [done|].
  destruct (walk _ db m [id] []) as [[ids|e]|] eqn:E; cbn; try done.
  destruct (mapM_res _ _); cbn; [|done]. apply update_all_steps; [|done]. eapply walk_nodup, E. constructor.
Qed.

(** Rows in rowid order, and the order the registry keeps of them. *)
Definition indexed (db : JobDB) : Prop :=
  NoDup (rowids db) ∧ (∀ id, id ∈ rowids db ↔ is_Some (jobs db !! id))
  ∧ ∀ id r, jobs db !! id = Some r → job_id (j_identity r) = id.

Lemma job_rows_ids db : indexed db → row_id <$> job_rows db = rowids db.
Proof.
  intros (_ & Hin & Hid). unfold job_rows. assert (∀ l : list string, (∀ x, x ∈ l → x ∈ rowids db) →
    row_id <$> omap (λ id, jobs db !! id) l = l) as H; [|by apply H].
  induction l as [|x l IH]; intros Hl; [done|]. destruct (proj1 (Hin x) (Hl x ltac:(by left))) as [r Hr].
  cbn. rewrite Hr. cbn. f_equal; [exact (Hid x r Hr)|]. apply IH. intros y Hy. apply Hl. by right.
Qed.

Lemma elem_job_rows db r : indexed db → r ∈ job_rows db ↔ jobs db !! job_id (j_identity r) = Some r.
Proof.
  intros (_ & Hin & Hid). unfold job_rows. rewrite list_elem_of_omap. split.
  - intros (id & _ & Hr). by rewrite (Hid id r Hr).
  - intros Hr. exists (job_id (j_identity r)). split; [|done]. apply Hin. eauto.
Qed.

Lemma selection_nodup (g : JobRow → bool) le db n m : indexed db →
  NoDup (row_id <$> take n (take m (sort_by le (filter (λ r, g r = true) (job_rows db))))).
Proof.
  intros Hi. rewrite !fmap_take. do 2 (eapply sublist_NoDup; [|apply sublist_take]).
  rewrite (sort_by_Permutation le). eapply sublist_NoDup; [|apply (fmap_sublist row_id), sublist_filter].
  rewrite job_rows_ids by done. apply Hi.
Qed.

(** Inverts an operation that returned. *)
Ltac job_inv :=
  repeat first
    [ progress simplify_eq/=
    | res_step
    | match goal with
      | H : _record _ = Ok _ |- _ => apply record_ok in H as (-> & ? & ?)
      | H : revalidate _ = Ok _ |- _ => apply revalidate_ok in H as [-> _]
      | H : match ?x with _ => _ end = Ok _ |- _ => destruct x eqn:?
      end ];
  unfold is_terminal in *; simpl in *; to_prop.

Lemma keep_steps {A} o db (m : res (JobDB * A)) : (∀ db' a, m = Ok (db', a) → steps o db db') → steps o db (keep db m).
Proof. destruct m as [[db' a]|]; simpl; [eauto|intros; apply steps_refl]. Qed.

Lemma transition_steps db id st v e rev exp now : steps (Transition id st v e rev exp now) db (keep db (transition db id st v e rev exp now)).
Proof.
  apply keep_steps. unfold transition. intros db' a E. job_inv; try apply steps_refl; try done.
  unfold transition_write. rewrite Heqo, Z.eqb_refl, bool_decide_true by done. cbn [andb]. eapply steps_put; [eassumption|]. auto.
Qed.

Lemma claim_steps db id w s t now : steps (Claim id w s t now) db (keep db (claim db id w s t now)).
Proof. apply keep_steps. unfold claim. intros db' a E. job_inv; try apply steps_refl; try done. eapply steps_put; [eassumption|]. by eapply (step_claim (Claim id w s t now)). Qed.

Lemma heartbeat_steps db id w s t now : steps (Heartbeat id w s t now) db (keep db (heartbeat db id w s t now)).
Proof. apply keep_steps. unfold heartbeat. intros db' a E. job_inv; try apply steps_refl; try done. eapply steps_put; [eassumption|]. by eapply (step_heartbeat (Heartbeat id w s t now)). Qed.

Lemma finish_steps db id w st v e t now : steps (Finish id w st v e t now) db (keep db (finish db id w st v e t now)).
Proof. apply keep_steps. unfold finish. intros db' a E. job_inv; try apply steps_refl; try done. eapply steps_put; [eassumption|]. by eapply (step_finish (Finish id w st v e t now)). Qed.

Lemma finish_once_steps db id w st k v e t now : steps (FinishOnce id w st k v e t now) db (keep db (finish_once db id w st k v e t now)).
Proof. apply keep_steps. unfold finish_once. intros db' a E. job_inv; try apply steps_refl; try done. eapply steps_put; [eassumption|]. by eapply (step_finish (FinishOnce id w st k v e t now)). Qed.

Lemma retry_steps db id rev now : steps (Retry id rev now) db (keep db (retry db id rev now)).
Proof.
  apply keep_steps. unfold retry. intros db' a E. job_inv; try apply steps_refl; try done. eapply steps_put; [eassumption|]. eapply step_retry; [done| |done].
  set_solver.
Qed.

Lemma attach_steps db id p g m now : steps (Attach id p g m now) db (keep db (attach_process db id p g m now)).
Proof. apply keep_steps. unfold attach_process. intros db' a E. job_inv; try apply steps_refl; try done. eapply steps_put; [eassumption|]. by eapply step_attach. Qed.

(** A new job: the row [start] inserts. *)
Definition created (db db' : JobDB) : Prop :=
  ∃ id r, jobs db !! id = None ∧ jobs db' = <[id := r]> (jobs db) ∧ rowids db' = rowids db ++ [id]
  ∧ receipts db' = receipts db ∧ outputs db' = outputs db ∧ cleanups db' = cleanups db
  ∧ job_id (j_identity r) = id ∧ j_status r = PENDING ∧ j_attempt r = 0 ∧ j_revision r = 0 ∧ j_hold r = no_hold
  ∧ 1 <= j_max_attempts r <= 100 ∧ j_output_next r = 1 ∧ j_output_dropped_before r = 0
  ∧ revalidate (j_identity r) = Ok (j_identity r) ∧ (∀ p, parent_job_id (j_identity r) = Some p → is_Some (jobs db !! p)).

Lemma start_created db ident p pid gid ma m now db' rec :
  start db ident p pid gid ma m now = Ok (db', rec) → created db db'.
Proof.
  unfold start, JobRecord_init, MAX_JOB_ATTEMPTS. intros E. apply bind_ok in E as (i & Hi & E).
  apply revalidate_ok in Hi as [-> Hi]. pose proof (revalidate_parent ident) as Hp. job_inv. eexists (job_id ident), _. split_and!; try done; simpl; try lia; [by apply Hp|].
  intros q Hq. destruct p; simplify_eq/=; [by to_prop|]. rewrite Hq in *. by to_prop.
Qed.

Lemma keep_db_steps o db m : (∀ db', m = Ok db' → steps o db db') → steps o db (keep_db db m).
Proof. destruct m; simpl; [eauto|intros; apply steps_refl]. Qed.

Lemma cleanup_steps now db id proof : steps (RecordCleanup id proof now) db (keep_db db (_record_process_cleanup db id proof)).
Proof.
  apply keep_db_steps. unfold _record_process_cleanup. intros db' E. job_inv; [done|]. by eapply steps_jobs; [apply steps_refl|..].
Qed.

Lemma bind_steps now db id k d : steps (BindCancel id k d now) db (keep_db db (bind_cancel_request db id k d)).
Proof.
  apply keep_db_steps. unfold bind_cancel_request. intros db' E. destruct (jobs db !! id) as [r|] eqn:Er; [|done].
  res_inv. destruct a0; simplify_eq/=; [|apply steps_refl]. eapply steps_put; [eassumption|]. auto.
Qed.

Lemma append_steps now b db id batch : steps (Append id batch now) db (keep_db db (append_outputs b.1 b.2 db id batch)).
Proof.
  apply keep_db_steps. unfold append_outputs. intros db' E. destruct (jobs db !! id) as [r|] eqn:Er; res_inv.
  case_bool_decide; simplify_eq/=; [apply steps_refl|]. eapply steps_jobs; [eapply steps_put; [exact Er|by eapply step_output]|done..].
Qed.

Lemma reconcile_steps db now m : indexed db → steps (Reconcile m now) db (keep db (reconcile_stale db now m)).
Proof.
  intros Hi. apply keep_steps. unfold reconcile_stale. intros db' a E. job_inv. apply update_all_steps; [|intros i r; apply (interrupt_row_step (Reconcile _ _))].
  by apply selection_nodup.
Qed.

(** Every operation moves rows by [row_step], or creates one. *)
Theorem apply_steps b db o : indexed db → steps o db (apply b db o) ∨ created db (apply b db o).
Proof.
  intros Hi. destruct o; simpl; try (left; auto using attach_steps, cleanup_steps, bind_steps, append_steps, transition_steps,
    claim_steps, heartbeat_steps, finish_steps, finish_once_steps, retry_steps, reconcile_steps; fail).
  - destruct (start _ _ _ _ _ _ _ _) as [[db' rec]|] eqn:E; simpl; [right; by eapply start_created|by left].
  - left. apply cancel_with_steps. intros i r. apply (cancel_row_step (Cancel _ _ _ _)).
  - left. apply cancel_with_steps. intros i r. apply (request_row_step (RequestCancel _ _ _ _)).
Qed.

(** ** The invariant *)

(** The bounds the values of a row have. *)
Definition row_ok (r : JobRow) : Prop :=
  0 <= j_attempt r <= j_max_attempts r ∧ 1 <= j_max_attempts r <= 100 ∧ 0 <= j_revision r
  ∧ (h_worker (j_hold r) ≠ None → 1 <= j_attempt r) ∧ (∀ u, h_until (j_hold r) = Some u → min_us <= u < end_us)
  ∧ revalidate (j_identity r) = Ok (j_identity r).

Definition db_ok (db : JobDB) : Prop :=
  indexed db ∧ (∀ id r, jobs db !! id = Some r → row_ok r
    ∧ ∀ p, parent_job_id (j_identity r) = Some p → is_Some (jobs db !! p)).

Lemma row_ok_record r : row_ok r → _record r = Ok (MkRecord (j_identity r) (j_status r) (j_revision r) (j_created_at r)
  (j_updated_at r) (j_result r) (j_error r) (j_attempt r) (j_max_attempts r)).
Proof.
  intros ((? & ?) & (? & ?) & _ & _ & _ & Hid). unfold _record, JobRecord_init, MAX_JOB_ATTEMPTS. rewrite Hid. cbn.
  rewrite !require_true by (rewrite ?andb_true_iff, !Z.leb_le; lia). done.
Qed.

Lemma holds_claim_worker h w t now : holds_claim h w t now = true → h_worker h = Some w.
Proof. unfold holds_claim. intros H. by to_prop. Qed.

Lemma row_step_ok o id r r' : row_step o id r r' → row_ok r → row_ok r' ∧ j_identity r' = j_identity r.
Proof.
  unfold row_ok. intros Hs (Ha & Hm & Hr & Hw & Hu & Hid).
  destruct Hs as [|r' ? ? ->| | | |v w s t u ? ? ? ? ?%add_seconds_ok|v w s tv t u ? ? ? ?%add_seconds_ok| | | |]; simpl; split_and!; try done; try lia;
    try (intros ?; lia); try (intros ? [= <-]; lia).
Qed.

Lemma steps_indexed o db db' : steps o db db' → (∀ id r, jobs db !! id = Some r → row_ok r) → indexed db → indexed db'.
Proof.
  intros [Hr Hs] Hok (Hn & Hin & Hid). split_and!; [by rewrite Hr|..].
  - intros id. rewrite Hr, Hin. specialize (Hs id). inversion Hs; split; intros [? ?]; simplify_eq; eauto.
  - intros id r' Hr'. specialize (Hs id). rewrite Hr' in Hs. inversion Hs as [r ? Hstep Er|]; subst. symmetry in Er.
    destruct (row_step_ok _ _ _ _ Hstep (Hok _ _ Er)) as [_ ->]. by apply Hid.
Qed.

Lemma steps_some o db db' id r' : steps o db db' → jobs db' !! id = Some r' →
  ∃ r, jobs db !! id = Some r ∧ row_step o id r r'.
Proof. intros [_ Hs] Hr. specialize (Hs id). rewrite Hr in Hs. inversion Hs; subst. eauto. Qed.

Lemma steps_from o db db' id r : steps o db db' → jobs db !! id = Some r →
  ∃ r', jobs db' !! id = Some r' ∧ row_step o id r r'.
Proof. intros [_ Hs] Hr. specialize (Hs id). rewrite Hr in Hs. inversion Hs; subst. eauto. Qed.

Lemma created_indexed db db' : created db db' → indexed db → indexed db'.
Proof.
  intros (id & r & Hn & Hj & Hr & _ & _ & _ & Hid & _) (Hnd & Hin & Hids). unfold indexed. rewrite Hj, Hr. split_and!.
  - apply NoDup_app. split_and!; [done| |apply NoDup_singleton]. intros x Hx ->%list_elem_of_singleton.
    apply Hin in Hx as [? ?]. congruence.
  - intros i. rewrite elem_of_app, list_elem_of_singleton, Hin, lookup_insert_is_Some. destruct (decide (i = id)); naive_solver.
  - intros i x [[<- <-]|[_ Hx]]%lookup_insert_Some; [done|by apply Hids].
Qed.

Lemma job_apply_ok b db o : db_ok db → db_ok (apply b db o).
Proof.
  intros [Hi Hok]. destruct (apply_steps b db o Hi) as [Hs|Hc].
  - split; [eapply steps_indexed; [exact Hs| |done]; intros id r Hr; by apply (Hok id r)|]. intros id r' Hr'.
    destruct (steps_some _ _ _ _ _ Hs Hr') as (r & Hr & Hstep). destruct (Hok id r Hr) as [Hrow Hpar].
    destruct (row_step_ok _ _ _ _ Hstep Hrow) as [? ->]. split; [done|]. intros p Hp. destruct (Hpar p Hp) as [x Hx].
    destruct (steps_from _ _ _ _ _ Hs Hx) as (x' & ? & _). eauto.
  - split; [by eapply created_indexed|]. destruct Hc as (id & r & Hn & Hj & _ & _ & _ & _ & _ & _ & Ha & Hrev & Hh & Hm & _ & _ & Hv & Hp).
    rewrite Hj. intros i x [[<- <-]|[Hne Hx]]%lookup_insert_Some.
    + split; [unfold row_ok; rewrite Ha, Hrev, Hh; simpl; split_and!; try lia; done|]. intros p Hpp.
      destruct (Hp p Hpp) as [y Hy]. apply lookup_insert_is_Some. destruct (decide (id = p)); [by left|right; eauto].
    + destruct (Hok i x Hx) as [? Hpar]. split; [done|]. intros p Hpp. destruct (Hpar p Hpp) as [y Hy].
      apply lookup_insert_is_Some. destruct (decide (id = p)); [by left|right; eauto].
Qed.

Lemma empty_ok : db_ok empty_jobs.
Proof. split; [split_and!; [constructor|intros id; split; [by intros ?%elem_of_nil|by intros [? ?]]|done]|done]. Qed.

Lemma job_run_ok b l db : db_ok db → db_ok (run b db l).
Proof. revert db. induction l as [|o l IH]; intros db H; [done|]. simpl. by apply IH, job_apply_ok. Qed.

(** One row through a run. *)
Lemma run_row b l (P : JobRow → Prop) (ops : job_op → Prop) id : ∀ db,
  db_ok db → (∀ o r r', ops o → row_ok r → P r → row_step o id r r' → P r') → Forall ops l →
  (∃ r, jobs db !! id = Some r ∧ P r) → ∃ r, jobs (run b db l) !! id = Some r ∧ P r.
Proof.
  induction l as [|o l IH]; intros db Hok Hstep Hl (r & Hr & HP); [eauto|]. apply Forall_cons in Hl as [Ho Hl]. simpl.
  apply IH; [by apply job_apply_ok|done|done|]. destruct (apply_steps b db o (proj1 Hok)) as [Hs|Hc].
  - destruct (steps_from _ _ _ _ _ Hs Hr) as (r' & Hr' & Hst). exists r'. split; [done|].
    eapply Hstep; [exact Ho| |exact HP|exact Hst]. by apply (proj2 Hok id r).
  - destruct Hc as (i & x & Hn & -> & _). exists r. split; [|done]. rewrite lookup_insert_ne; [done|congruence].
Qed.
