(* ===== verification/JobLeases.v ===== *)
(** Claims, terminal states and completion receipts of the durable job registry, over every run of
    its operations. *)
From S2P Require Import Prelude PyText CanonicalJson Sha256 PyDate JobRegistry.

Local Open Scope Z_scope.

(** ** Predicates of one row *)

(** The columns a verdict consists of. *)
Definition verdict (r : JobRow) : JobStatus * option json * string * Z * Z :=
  (j_status r, j_result r, j_error r, j_revision r, j_attempt r).

(** A clock reading. *)
Definition instant (t : Z) : Prop := min_us <= t < end_us.

(** An operation before [until] that neither retries the job nor shortens its lease below [until]. *)
Definition respects (id : string) (until : Z) (o : job_op) : Prop :=
  instant (op_now o) ∧ op_now o < until
  ∧ match o with
    | Retry i _ _ => i ≠ id
    | Heartbeat i _ s _ n => i = id → until <= n + s * 1000000
    | _ => True
    end.

(** The claim of [token] stands until [until], or the job has ended. *)
Definition claimed_until (worker token : string) (until : Z) (r : JobRow) : Prop :=
  terminal (j_status r) = true
  ∨ (h_worker (j_hold r) = Some worker ∧ h_token (j_hold r) = Some token ∧ ∃ u, h_until (j_hold r) = Some u ∧ until <= u).

(** An operation that does not issue the token again. *)
Definition not_reissued (id token : string) (o : job_op) : Prop :=
  match o with Claim i _ _ t _ => i = id → t ≠ token | _ => True end.

(** The text of a completion whose SHA-256 a receipt keeps. *)
Definition payload_text (status : JobStatus) (result : json) (error : string) : string :=
  json_dumps (JObj [("status", JStr (status_value status)); ("result", result); ("error", JStr error)]).

(** The operations with which a worker speaks for its claim. *)
Inductive speaks (id token : string) : job_op → Prop :=
  | speaks_heartbeat w s n : speaks id token (Heartbeat id w s (PStr token) n)
  | speaks_finish w st v e n : speaks id token (Finish id w st v e (PStr token) n)
  | speaks_finish_once w st k v e n : speaks id token (FinishOnce id w st k v e (PStr token) n).

(** ** Final states *)

Lemma stale_status now r : stale now r = true → j_status r = CLAIMED ∨ j_status r = RUNNING.
Proof. unfold stale. intros Hs. to_prop. rewrite !elem_of_cons, elem_of_nil in *. naive_solver. Qed.

Lemma final_step o id r r' : row_step o id r r' → j_status r = SUCCEEDED ∨ j_status r = CANCELLED → verdict r' = verdict r.
Proof.
  unfold verdict. destruct 1 as [|r' Ht ? ->| | |st v e Ht|v w s t u ? Ht|v w s tv t u ? Ht|w t st v e Ht|rev ? Hst|e Ht|Hs]; intros Hf; try done;
    try (destruct Hf as [Hf|Hf]; rewrite Hf in Ht; discriminate Ht).
  - destruct Hf, Hst; congruence.
  - apply stale_status in Hs. destruct Hf, Hs; congruence.
Qed.

(** C36: a job that succeeded or was cancelled keeps its verdict: no operation, by whoever, changes
    its status, result, error, revision or attempt any more. *)
Theorem final_jobs_stay b l0 l id r :
  jobs (run b empty_jobs l0) !! id = Some r → j_status r = SUCCEEDED ∨ j_status r = CANCELLED →
  ∃ r', jobs (run b empty_jobs (l0 ++ l)) !! id = Some r' ∧ verdict r' = verdict r.
Proof.
  intros Hr Hf. unfold run. rewrite foldl_app. fold (run b empty_jobs l0) (run b (run b empty_jobs l0) l).
  apply (run_row b l (λ x, verdict x = verdict r) (λ _, True)); [apply job_run_ok, empty_ok| |by apply Forall_true|eauto].
  intros o x x' _ _ Hx Hs. rewrite <-Hx. eapply final_step; [exact Hs|]. unfold verdict in Hx. injection Hx as -> _. done.
Qed.

(** ** Leases *)

Lemma stale_expired now r : instant now → row_ok r → stale now r = true → ∃ u, h_until (j_hold r) = Some u ∧ u < now.
Proof.
  intros Hn (_ & _ & _ & _ & Hu & _) Hs. unfold stale in Hs. to_prop. destruct (h_until (j_hold r)) as [u|]; [|done].
  exists u. split; [done|]. by apply (iso_z_leb u now (Hu u eq_refl) Hn).
Qed.

Lemma claimed_step w t until id o r r' :
  w ≠ "" → respects id until o → row_ok r → claimed_until w t until r → row_step o id r r' → claimed_until w t until r'.
Proof.
  intros Hw (Hn & Hlt & Hop) Hok Hc Hs. unfold claimed_until in *.
  destruct Hc as [Ht|(Hwk & Htk & u & Hu & Hle)].
  { left. destruct Hs as [|r' Ht' ? ->| | |st v e Ht'|? ? ? ? ? ? Ht'|? ? ? ? ? ? ? Ht'|? ? ? ? ? Ht'|rev Heq ? ?|e Ht'|Hst]; try done; try congruence.
    - by destruct o; simplify_eq/=.
    - apply stale_status in Hst as [Hst|Hst]; rewrite Hst in Ht; discriminate Ht. }
  destruct Hs as [|r' ? ? ->| | | |v w' s t' u' Heq ? ? Hheld ?|v w' s tv t' u' Heq ? ? [Hu' ?]%add_seconds_ok| |rev Heq| |Hst]; simpl;
    try (by right; eauto); try (by left).
  - exfalso. unfold held, lease_active in Hheld. rewrite Hwk, Hu in Hheld. apply andb_false_iff in Hheld as [Hh|Hh]; [|apply Z.ltb_ge in Hh; lia].
    apply negb_false_iff, String.eqb_eq in Hh. done.
  - right. split_and!; [done|done|]. exists u'. split; [done|]. destruct o; simplify_eq/=. specialize (Hop eq_refl). lia.
  - exfalso. by destruct o; simplify_eq/=.
  - exfalso. destruct (stale_expired _ _ Hn Hok Hst) as (u0 & Hu0 & ?). simplify_eq. lia.
Qed.

Lemma claim_some db id w s t now db1 c : claim db id w s t now = Ok (db1, Some c) →
  ∃ r, jobs db !! id = Some r ∧ cl_worker_id c ≠ "" ∧ cl_token c = t ∧ cl_attempt c = j_attempt r + 1
  ∧ db1 = put db id (moved r CLAIMED now (j_result r) (j_error r)
      (MkHold (Some (cl_worker_id c)) (Some (cl_lease_until c)) (Some t)) (j_attempt r + 1))
  ∧ terminal (j_status r) = false ∧ j_attempt r < j_max_attempts r ∧ held (j_hold r) now = false.
Proof.
  unfold claim, worker_arg. intros Hc. job_inv. eexists. split_and!; try done. intros ->. done.
Qed.

Lemma claim_apply b db id w s t now db1 c : claim db id w s t now = Ok (db1, c) → db1 = apply b db (Claim id w s t now).
Proof. intros Hc. simpl. by rewrite Hc. Qed.

(** C5: a claim excludes every other one.  From a granted claim to the end of its lease no claim of the
    job is granted, whatever operations run in between, unless a retry reopens the job or a
    heartbeat of the holder shortens the lease. *)
Theorem claim_excludes b l0 l id w s t now db1 c w' s' t' now' db2 c' :
  claim (run b empty_jobs l0) id w s t now = Ok (db1, Some c) →
  Forall (respects id (cl_lease_until c)) l → now' < cl_lease_until c →
  claim (run b db1 l) id w' s' t' now' ≠ Ok (db2, Some c').
Proof.
  intros Hc Hl Hn' Hc'. destruct (claim_some _ _ _ _ _ _ _ _ Hc) as (r & Hr & Hw & _ & _ & Hdb & _).
  destruct (run_row b l (claimed_until (cl_worker_id c) t (cl_lease_until c)) (respects id (cl_lease_until c)) id db1)
    as (x & Hx & Hcl); [|intros; by eapply claimed_step|done| |].
  - rewrite (claim_apply b _ _ _ _ _ _ _ _ Hc). apply job_apply_ok, job_run_ok, empty_ok.
  - eexists. rewrite Hdb, put_lookup, decide_True by done. split; [done|]. right. simpl. split_and!; [done..|]. eexists. split; [done|lia].
  - destruct (claim_some _ _ _ _ _ _ _ _ Hc') as (y & Hy & _ & _ & _ & _ & Ht & _ & Hh). simplify_eq.
    destruct Hcl as [?|(Hwk & _ & u & Hu & ?)]; [congruence|]. unfold held, lease_active in Hh. rewrite Hwk, Hu in Hh.
    apply andb_false_iff in Hh as [Hh|Hh]; [|apply Z.ltb_ge in Hh; lia]. by apply negb_false_iff, String.eqb_eq in Hh.
Qed.

(** ** Fencing *)

Lemma not_held_noop b db id t o : (∀ r, jobs db !! id = Some r → h_token (j_hold r) ≠ Some t) → speaks id t o → apply b db o = db.
Proof.
  intros Hn Ho.
  assert (∀ r w n, jobs db !! id = Some r → holds_claim (j_hold r) w (Some t) n = false) as Hh.
  { intros r w n Hr. unfold holds_claim. rewrite (bool_decide_false (h_token _ = _)) by eauto. by rewrite andb_false_r. }
  destruct Ho as [w s n|w st v e n|w st k v e n]; simpl.
  - destruct (heartbeat _ _ _ _ _ _) as [[db' a]|] eqn:E; [|done]. unfold heartbeat, token_arg in E. job_inv; try done.
    by erewrite Hh in *.
  - destruct (finish _ _ _ _ _ _ _ _) as [[db' a]|] eqn:E; [|done]. unfold finish, token_arg in E. job_inv; try done.
    by erewrite Hh in *.
  - destruct (finish_once _ _ _ _ _ _ _ _ _) as [[db' a]|] eqn:E; [|done]. unfold finish_once, token_arg in E. job_inv; try done.
    by erewrite Hh in *.
Qed.

Lemma lost_step t id o r r' : not_reissued id t o → h_token (j_hold r) ≠ Some t → row_step o id r r' → h_token (j_hold r') ≠ Some t.
Proof.
  intros Ho Hn Hs. destruct Hs as [|r' ? ? ->| | | |v w s t' u Heq| | | | |]; simpl; try done.
  destruct o; simplify_eq/=. intros [= ->]. by apply Ho.
Qed.

(** C6: a superseded worker is fenced.  Once a job is not held under a token any more - its lease was
    taken over, its attempt ended, was cancelled or interrupted - nothing said under that token has
    an effect ever again, as long as the token is not issued a second time. *)
Theorem superseded_worker_fenced b l0 l id token r o :
  jobs (run b empty_jobs l0) !! id = Some r → h_token (j_hold r) ≠ Some token → Forall (not_reissued id token) l →
  speaks id token o → apply b (run b empty_jobs (l0 ++ l)) o = run b empty_jobs (l0 ++ l).
Proof.
  intros Hr Hn Hl. apply not_held_noop. intros x Hx. unfold run in Hx. rewrite foldl_app in Hx.
  destruct (run_row b l (λ r, h_token (j_hold r) ≠ Some token) (not_reissued id token) id (run b empty_jobs l0))
    as (y & Hy & ?); [apply job_run_ok, empty_ok|intros; by eapply lost_step|done|eauto|].
  unfold run in Hy. by simplify_eq.
Qed.

(** ** Receipts *)

Definition slot (c : JobCompletionReceipt) : string * Z := (rc_job_id c, rc_attempt c).

(** A receipt an operation adds: its key and its attempt had none, and it reports a terminal state. *)
Definition fresh_receipt (db : JobDB) (c : JobCompletionReceipt) : Prop :=
  receipt_by_key db (rc_receipt_key c) = None ∧ receipt_at db (rc_job_id c) (rc_attempt c) = None
  ∧ terminal (rc_status c) = true ∧ 1 <= rc_attempt c.

Definition receipts_grow (db db' : JobDB) : Prop :=
  receipts db' = receipts db ∨ ∃ c, receipts db' = receipts db ++ [c] ∧ fresh_receipt db c.

Lemma update_all_receipts f ids : ∀ db, receipts (update_all f ids db) = receipts db.
Proof. unfold update_all. induction ids as [|id ids IH]; intros db; [done|]. simpl. rewrite IH. by destruct (jobs db !! id). Qed.

Lemma keep_grow {A} db (m : res (JobDB * A)) : (∀ db' a, m = Ok (db', a) → receipts_grow db db') → receipts_grow db (keep db m).
Proof. destruct m as [[db' a]|]; simpl; [eauto|by left]. Qed.

Lemma keep_db_grow db m : (∀ db', m = Ok db' → receipts_grow db db') → receipts_grow db (keep_db db m).
Proof. destruct m; simpl; [eauto|by left]. Qed.

Lemma cancel_with_grow f db id reason m : receipts_grow db (keep_walk db (cancel_with f db id reason m)).
Proof.
  unfold cancel_with. destruct (is_blank reason); [by left|]. destruct (m <? 0); [by left|].
  destruct (walk _ db m [id] []) as [[ids|e]|]; cbn; try by left. destruct (mapM_res _ _); cbn; left; [|done].
  apply update_all_receipts.
Qed.

Lemma by_key_some db k c : receipt_by_key db k = Some c → rc_receipt_key c = k ∧ c ∈ receipts db.
Proof.
  unfold receipt_by_key. intros ([n y] & Hf & ->)%fmap_Some. apply list_find_Some in Hf as (? & ? & _).
  split; [done|]. by eapply list_elem_of_lookup_2.
Qed.

Lemma by_key_none db k c : receipt_by_key db k = None → c ∈ receipts db → rc_receipt_key c ≠ k.
Proof. unfold receipt_by_key. intros Hf%fmap_None%list_find_None. rewrite Forall_forall in Hf. apply Hf. Qed.

Lemma at_some db id n c : receipt_at db id n = Some c → slot c = (id, n) ∧ c ∈ receipts db.
Proof.
  unfold receipt_at. intros ([m y] & Hf & ->)%fmap_Some. apply list_find_Some in Hf as (? & [<- <-] & _).
  split; [done|]. by eapply list_elem_of_lookup_2.
Qed.

Lemma at_none db id n c : receipt_at db id n = None → c ∈ receipts db → slot c ≠ (id, n).
Proof.
  unfold receipt_at. intros Hf%fmap_None%list_find_None. rewrite Forall_forall in Hf. intros Hc [= Hi Hn]. by apply (Hf c Hc).
Qed.

Lemma finish_once_new db id w st k v e t now db' c :
  finish_once db id w st k v e t now = Ok (db', Some c) →
  ∃ key, py_str k = Some key ∧ is_blank key = false ∧ rc_receipt_key c = key ∧ rc_job_id c = id
  ∧ same_payload st (_completion_digest st v e) c = true
  ∧ (db' = db ∧ receipt_by_key db key = Some c
     ∨ ∃ r, jobs db !! id = Some r ∧ db' = add_receipt (put db id (moved r st now (stored_result v) e no_hold (j_attempt r))) c
       ∧ fresh_receipt db c ∧ rc_attempt c = j_attempt r ∧ rc_revision c = j_revision r + 1).
Proof.
  unfold finish_once, worker_arg. intros E. job_inv; try match goal with H : (_ =? _)%string = true |- _ => apply String.eqb_eq in H end.
  - destruct (by_key_some _ _ _ Heqo0) as [? _]. eexists. split_and!; try done. by left.
  - destruct (at_some _ _ _ _ Heqo1) as [? Hin]. by destruct (by_key_none _ _ _ Heqo0 Hin).
  - unfold JobCompletionReceipt_init in *. job_inv. eexists. split_and!; try done.
    + unfold same_payload. by rewrite bool_decide_true, String.eqb_refl.
    + right. eexists. by split_and!.
Qed.

Lemma finish_once_grow db id w st k v e t now : receipts_grow db (keep db (finish_once db id w st k v e t now)).
Proof.
  apply keep_grow. intros db' [c|] E.
  - destruct (finish_once_new _ _ _ _ _ _ _ _ _ _ _ E) as (key & _ & _ & _ & _ & _ & [[-> _]|(r & _ & -> & Hf & _)]); [by left|].
    right. exists c. by split.
  - left. unfold finish_once in E. by job_inv.
Qed.

Lemma apply_grow b db o : receipts_grow db (apply b db o).
Proof.
  destruct o; simpl; try apply finish_once_grow; try apply cancel_with_grow;
    try (apply keep_db_grow; intros db'); try (apply keep_grow; intros db' a); intros E; left.
  - unfold start in E. by job_inv.
  - unfold attach_process in E. by job_inv.
  - unfold _record_process_cleanup in E. by job_inv.
  - unfold bind_cancel_request in E. job_inv. destruct a0; by simplify_eq/=.
  - unfold append_outputs in E. job_inv; done.
  - unfold transition in E. job_inv; try done. unfold transition_write. by repeat case_match.
  - unfold claim in E. by job_inv.
  - unfold heartbeat in E. by job_inv.
  - unfold finish in E. by job_inv.
  - unfold retry in E. by job_inv.
  - unfold reconcile_stale in E. job_inv. apply update_all_receipts.
Qed.

(** A receipt is found by its key ever after. *)
Lemma by_key_grows db db' k c : receipts_grow db db' → receipt_by_key db k = Some c → receipt_by_key db' k = Some c.
Proof.
  unfold receipt_by_key. intros Hg Hc. destruct Hg as [->|(c' & -> & _)]; [done|].
  apply fmap_Some in Hc as ([n y] & Hf & ->). by rewrite (list_find_app_l _ _ _ _ _ Hf).
Qed.

Lemma by_key_run b l k c : ∀ db, receipt_by_key db k = Some c → receipt_by_key (run b db l) k = Some c.
Proof.
  induction l as [|o l IH]; intros db Hc; [done|]. simpl. apply IH. by eapply by_key_grows; [apply apply_grow|].
Qed.

Lemma by_key_added db id r k c : receipt_by_key db k = None → rc_receipt_key c = k →
  receipt_by_key (add_receipt (put db id r) c) k = Some c.
Proof.
  unfold receipt_by_key. intros Hn Hk. change (receipts (add_receipt (put db id r) c)) with (receipts db ++ [c]).
  apply fmap_None in Hn. rewrite list_find_app_r by done. simpl. by rewrite decide_True.
Qed.

(** A receipt that was returned is found by its key ever after, and its job is still there. *)
Lemma receipt_kept b l0 id w st k v e t now db1 c l key :
  finish_once (run b empty_jobs l0) id w st k v e t now = Ok (db1, Some c) → py_str k = Some key →
  receipt_by_key (run b db1 l) key = Some c ∧ ∃ r, jobs (run b db1 l) !! id = Some r ∧ row_ok r.
Proof.
  intros Hf Hk. destruct (finish_once_new _ _ _ _ _ _ _ _ _ _ _ Hf) as (key' & Hk' & _ & Hck & _ & _ & Hcase). simplify_eq.
  assert (db1 = apply b (run b empty_jobs l0) (FinishOnce id w st k v e t now)) as Hdb by (simpl; by rewrite Hf).
  assert (db_ok db1) as Hok by (rewrite Hdb; apply job_apply_ok, job_run_ok, empty_ok).
  assert (receipt_by_key db1 (rc_receipt_key c) = Some c ∧ ∃ r, jobs db1 !! id = Some r) as [Hc1 (r1 & Hr1)].
  { destruct Hcase as [[-> Hb]|(r & Hr & -> & (Hn & _) & _)].
    - split; [done|]. unfold finish_once in Hf. destruct (jobs (run b empty_jobs l0) !! id); [eauto|]. by job_inv.
    - split; [|exists (moved r st now (stored_result v) e no_hold (j_attempt r)); simpl; by rewrite lookup_insert_eq].
      by apply by_key_added. }
  split; [by apply by_key_run|]. pose proof (job_run_ok b l _ Hok) as Hok2.
  destruct (run_row b l (λ _, True) (λ _, True) id db1) as (r2 & Hr2 & _); [done|done|by apply Forall_true|eauto|].
  exists r2. split; [done|]. by apply (proj2 Hok2 id).
Qed.

(** At most one receipt per key and per attempt. *)
Definition receipts_ok (db : JobDB) : Prop :=
  NoDup (rc_receipt_key <$> receipts db) ∧ NoDup (slot <$> receipts db)
  ∧ Forall (λ c, terminal (rc_status c) = true ∧ 1 <= rc_attempt c) (receipts db).

Lemma receipts_ok_grow db db' : receipts_grow db db' → receipts_ok db → receipts_ok db'.
Proof.
  unfold receipts_ok. intros [->|(c & -> & Hk & Hs & Ht & Ha)] (Hnk & Hns & Hf); [done|]. rewrite !fmap_app. split_and!.
  - apply NoDup_app. split_and!; [done| |apply NoDup_singleton]. intros x (y & -> & Hy)%list_elem_of_fmap Hx%list_elem_of_singleton.
    by destruct (by_key_none _ _ _ Hk Hy).
  - apply NoDup_app. split_and!; [done| |apply NoDup_singleton]. intros x (y & -> & Hy)%list_elem_of_fmap Hx%list_elem_of_singleton.
    by destruct (at_none _ _ _ _ Hs Hy).
  - apply Forall_app. by split; [|constructor].
Qed.

(** C37: in every reachable registry the rows are well formed and a completion is committed once: each
    row reads back without an error, its attempt is within its budget and its parent exists; there
    is at most one receipt for a key and at most one for an attempt of a job, and each reports a
    terminal state. *)
Theorem registry_well_formed b l :
  let db := run b empty_jobs l in
  map_Forall (λ id r, job_id (j_identity r) = id ∧ is_ok (_record r) = true ∧ 0 <= j_attempt r <= j_max_attempts r
    ∧ ∀ p, parent_job_id (j_identity r) = Some p → is_Some (jobs db !! p)) (jobs db)
  ∧ receipts_ok db.
Proof.
  intros db. destruct (job_run_ok b l _ empty_ok) as [(_ & _ & Hid) Hok]. fold db in Hid, Hok. split.
  - intros id r Hr. destruct (Hok id r Hr) as [Hrow Hp]. rewrite row_ok_record by done. split_and!; try done; [by apply Hid|apply Hrow..].
  - unfold db. clear. assert (receipts_ok empty_jobs) as H by (split_and!; constructor). revert H. generalize empty_jobs.
    induction l as [|o l IH]; intros db H; [done|]. simpl. apply IH. eapply receipts_ok_grow; [apply apply_grow|done].
Qed.

Lemma status_value_inj : Inj (=) (=) status_value.
Proof. by intros [] []. Qed.

Lemma status_value_valid st : valid_text (status_value st) = true.
Proof. by destruct st. Qed.

(** The text determines the payload, up to the order of the members of its objects. *)
Lemma payload_text_inj st v e st' v' e' :
  json_valid v = true → json_valid v' = true → valid_text e = true → valid_text e' = true →
  payload_text st v e = payload_text st' v' e' ↔ st = st' ∧ canon v = canon v' ∧ e = e'.
Proof.
  intros Hv Hv' He He'. unfold payload_text.
  rewrite json_dumps_injective by (cbn; by rewrite !status_value_valid, ?Hv, ?Hv', ?He, ?He'). cbn. split.
  - intros [= -> ? ->%status_value_inj]. done.
  - by intros (-> & -> & ->).
Qed.

#[local] Opaque sha256_hex json_dumps.
Lemma completion_digest_text st v e : _completion_digest st v e = sha256_hex (payload_text st v e).
Proof. reflexivity. Qed.
#[local] Transparent sha256_hex json_dumps.

(** C7: a completion is committed exactly once.  When [finish_once] returned a receipt, the receipt
    names the job, the key and the status of the call, and either it was committed before and
    nothing changed or the row now holds the result, the error and the status of the call.  After
    any further operations a call under this key, by any worker at any time, returns this very
    receipt and changes nothing if it reports the same payload - the same status, error and JSON
    result, up to the order of object members - and is refused for every other payload.  The texts
    are those JSON can hold, and SHA-256 tells the two payloads apart. *)
Theorem finish_once_exactly_once b l0 l id w st k v e t now db1 c w' st' v' e' t' now' :
  finish_once (run b empty_jobs l0) id w st k v e t now = Ok (db1, Some c) →
  is_ok (worker_arg w') = true → is_ok (token_arg t') = true → terminal st' = true → (st' = SUCCEEDED → e' = "") →
  json_valid v = true → json_valid v' = true → valid_text e = true → valid_text e' = true →
  (sha256_hex (payload_text st v e) = sha256_hex (payload_text st' v' e') → payload_text st v e = payload_text st' v' e') →
  (rc_job_id c = id ∧ py_str k = Some (rc_receipt_key c) ∧ rc_status c = st)
  ∧ (db1 = run b empty_jobs l0 ∨ receipts db1 = receipts (run b empty_jobs l0) ++ [c]
       ∧ ∃ r, jobs db1 !! id = Some r ∧ verdict r = (st, stored_result v, e, rc_revision c, rc_attempt c))
  ∧ let again := finish_once (run b db1 l) id w' st' k v' e' t' now' in
    (st = st' ∧ canon v = canon v' ∧ e = e' → again = Ok (run b db1 l, Some c))
    ∧ (¬ (st = st' ∧ canon v = canon v' ∧ e = e') → again = throw ValueError "completion receipt key is already committed").
Proof.
  intros Hf Hw Ht Hst He Hv Hv' Hte Hte' Hsha. destruct (finish_once_new _ _ _ _ _ _ _ _ _ _ _ Hf) as (key & Hk & Hbl & Hck & Hid & Hsame & Hcase).
  unfold same_payload in Hsame. apply andb_true_iff in Hsame as [Hcs%bool_decide_eq_true Hcd%String.eqb_eq].
  split; [by rewrite Hck|]. split.
  { destruct Hcase as [[-> _]|(r & Hr & -> & _ & Ha & Hrev)]; [by left|right]. split; [done|]. eexists.
    split; [by apply lookup_insert_eq|]. unfold verdict. simpl. by rewrite Ha, Hrev. }
  destruct (receipt_kept _ _ _ _ _ _ _ _ _ _ _ _ l key Hf Hk) as (Hc2 & r2 & Hr2 & Hrow).
  intros again. subst again. unfold finish_once. remember (_completion_digest st' v' e') as d eqn:Ed. destruct (worker_arg w'); [|done]. destruct (token_arg t'); [|done].
  rewrite Hst. cbn. unfold check_str. rewrite Hk, Hbl. cbn.
  assert (bool_decide (st' = SUCCEEDED) && negb (String.eqb e' "") = false) as ->.
  { case_bool_decide; [|done]. by rewrite He. }
  cbn. rewrite Hr2, row_ok_record by done. cbn. rewrite Hc2. cbn. rewrite Hid, String.eqb_refl. cbn.
  unfold same_payload. rewrite Hcs, Hcd. split; [intros Heq|intros Hne].
  - assert (_completion_digest st v e = d) as ->.
    { rewrite Ed, !completion_digest_text. f_equal. by apply payload_text_inj. }
    by rewrite bool_decide_true, String.eqb_refl by apply Heq.
  - destruct (String.eqb_spec (_completion_digest st v e) d) as [Heq|]; [|by rewrite andb_false_r].
    destruct Hne. rewrite Ed, !completion_digest_text in Heq. by apply payload_text_inj, Hsha.
Qed.

(** ** Reconciliation *)

Lemma take_short {A} (l : list A) (m : Z) : 1 <= m → zlen (take (Z.to_nat (m + 1)) l) <= m →
  take (Z.to_nat m) (take (Z.to_nat (m + 1)) l) = l.
Proof.
  unfold zlen. intros Hm Hl. rewrite length_take in Hl. assert (length l ≤ Z.to_nat m)%nat by lia.
  rewrite take_take, take_ge; [done|lia].
Qed.

Lemma elem_selected db (g : JobRow → bool) le n m id : indexed db →
  id ∈ row_id <$> take n (take m (sort_by le (filter (λ r, g r = true) (job_rows db)))) →
  ∃ r, jobs db !! id = Some r ∧ g r = true.
Proof.
  intros Hi (r & -> & Hr)%list_elem_of_fmap. apply subseteq_take, subseteq_take in Hr.
  rewrite (sort_by_Permutation le) in Hr. apply list_elem_of_filter in Hr as [Hg Hr]. apply elem_job_rows in Hr; eauto.
Qed.

(** Reconciliation interrupts exactly the expired attempts.  Every job it reports was claimed or
    running with a lease that had ended before [now], although SQL compares the times as texts, and
    is now interrupted and free; no other job changes; and unless the report is truncated, no job
    whose lease ended a second or more before [now] was left. *)
Theorem reconcile_stale_exact b l now m db' rep :
  let db := run b empty_jobs l in
  instant now → reconcile_stale db now m = Ok (db', rep) →
  (∀ id, id ∈ rp_interrupted rep → ∃ r u, jobs db !! id = Some r ∧ (j_status r = CLAIMED ∨ j_status r = RUNNING)
     ∧ h_until (j_hold r) = Some u ∧ u < now
     ∧ jobs db' !! id = Some (moved r INTERRUPTED now (j_result r) (j_error r) no_hold (j_attempt r)))
  ∧ (∀ id, id ∉ rp_interrupted rep → jobs db' !! id = jobs db !! id)
  ∧ (rp_truncated rep = false → ∀ id r u, jobs db !! id = Some r → j_status r = CLAIMED ∨ j_status r = RUNNING →
       h_until (j_hold r) = Some u → u + 1000000 <= now → id ∈ rp_interrupted rep)
  ∧ zlen (rp_interrupted rep) <= m.
Proof.
  intros db Hn Hrep. destruct (job_run_ok b l _ empty_ok) as [Hi Hok]. fold db in Hi, Hok. unfold reconcile_stale in Hrep. job_inv.
  set (rows := take _ (sort_by _ _)). pose proof (selection_nodup (stale now) stale_le db (Z.to_nat m) (Z.to_nat (m + 1)) Hi) as Hnd.
  fold rows in Hnd |- *. split_and!.
  - intros id Hid. destruct (elem_selected _ _ _ _ _ _ Hi Hid) as (r & Hr & Hs).
    destruct (stale_expired now r Hn (proj1 (Hok id r Hr)) Hs) as (u & Hu & ?). exists r, u. split_and!; try done; [by eapply stale_status|].
    rewrite update_all_lookup, decide_True, Hr by done. simpl. unfold interrupt_row. by rewrite Hs.
  - intros id Hid. by rewrite update_all_lookup, decide_False by done.
  - intros Ht id r u Hr Hst Hu Hle. apply Z.ltb_ge in Ht. unfold rows. rewrite take_short by done. apply list_elem_of_fmap. exists r.
    split; [symmetry; by apply Hi|]. rewrite (sort_by_Permutation stale_le). apply list_elem_of_filter. split.
    + unfold stale. rewrite Hu. destruct (proj1 (Hok id r Hr)) as (_ & _ & _ & _ & Hr' & _).
      rewrite (proj2 (iso_z_leb u now (Hr' u Hu) Hn) Hle), andb_true_r. apply mem_spec. set_solver.
    + apply elem_job_rows; [done|]. by replace (job_id (j_identity r)) with id by (symmetry; by apply Hi).
  - unfold zlen. rewrite length_fmap, length_take. lia.
Qed.

(** ** Witnesses and examples *)

Definition demo_job : JobIdentity := MkIdentity "j" "compute-build" "op" "key" None None.
Definition demo_bounds : Z * Z := (256, 65536).
Definition demo_start : list job_op := [Start demo_job None None None (PInt 3) None 0; Claim "j" (PStr "w") 300 "t1" 1000000].
Definition demo_done : list job_op := demo_start ++ [Finish "j" (PStr "w") SUCCEEDED (JInt 7) "" (PStr "t1") 2000000].

Lemma final_jobs_stay_witness :
  ∃ r r', jobs (run demo_bounds empty_jobs demo_done) !! "j" = Some r ∧ j_status r = SUCCEEDED
  ∧ jobs (run demo_bounds empty_jobs (demo_done ++ [Cancel "j" "stop" 16 3000000; Retry "j" None 4000000])) !! "j" = Some r'
  ∧ verdict r' = verdict r.
Proof.
  assert (∃ r, jobs (run demo_bounds empty_jobs demo_done) !! "j" = Some r ∧ j_status r = SUCCEEDED) as (r & Hr & Hs)
    by (eexists; split; [vm_compute; reflexivity|reflexivity]).
  destruct (final_jobs_stay demo_bounds demo_done [Cancel "j" "stop" 16 3000000; Retry "j" None 4000000] "j" r Hr (or_introl Hs))
    as (r' & Hr' & Hv). by exists r, r'.
Defined.

Lemma claim_excludes_witness :
  ∃ db1 c, claim (run demo_bounds empty_jobs [Start demo_job None None None (PInt 3) None 0]) "j" (PStr "w") 300 "t1" 1000000 = Ok (db1, Some c)
  ∧ ∀ db2 c', claim (run demo_bounds db1 [RequestCancel "j" "stop" 16 5000000]) "j" (PStr "v") 60 "t2" 9000000 ≠ Ok (db2, Some c').
Proof.
  eexists _, _. split; [vm_compute; reflexivity|]. intros db2 c'.
  refine (claim_excludes demo_bounds [Start demo_job None None None (PInt 3) None 0] [RequestCancel "j" "stop" 16 5000000] "j"
    (PStr "w") 300 "t1" 1000000 _ _ (PStr "v") 60 "t2" 9000000 db2 c' _ _ _); [vm_compute; reflexivity| |reflexivity].
  constructor; [|constructor]. split; [split; vm_compute; done|split; [reflexivity|exact I]].
Defined.

Lemma superseded_worker_fenced_witness :
  let l0 := demo_start ++ [Claim "j" (PStr "v") 300 "t2" 400000000] in
  let o := FinishOnce "j" (PStr "w") SUCCEEDED (PStr "k") (JInt 7) "" (PStr "t1") 410000000 in
  let l := [Heartbeat "j" (PStr "v") 300 (PStr "t2") 405000000] in
  apply demo_bounds (run demo_bounds empty_jobs (l0 ++ l)) o = run demo_bounds empty_jobs (l0 ++ l).
Proof.
  intros l0 o l. assert (∃ r, jobs (run demo_bounds empty_jobs l0) !! "j" = Some r ∧ h_token (j_hold r) = Some "t2") as (r & Hr & Ht)
    by (eexists; split; [vm_compute; reflexivity|reflexivity]).
  apply (superseded_worker_fenced demo_bounds l0 l "j" "t1" r o Hr); [by rewrite Ht|by constructor|apply speaks_finish_once].
Defined.

Lemma finish_once_exactly_once_witness :
  let result := JObj [("b", JInt 1); ("a", JInt 2)] in let result' := JObj [("a", JInt 2); ("b", JInt 1)] in
  ∃ db1 c, finish_once (run demo_bounds empty_jobs demo_start) "j" (PStr "w") FAILED (PStr "k") result "boom" (PStr "t1") 2000000
           = Ok (db1, Some c)
  ∧ finish_once (run demo_bounds db1 [Retry "j" None 3000000]) "j" (PStr "v") FAILED (PStr "k") result' "boom" PNone 4000000
    = Ok (run demo_bounds db1 [Retry "j" None 3000000], Some c)
  ∧ finish_once (run demo_bounds db1 [Retry "j" None 3000000]) "j" (PStr "w") FAILED (PStr "k") JNull "boom" PNone 4000000
    = throw ValueError "completion receipt key is already committed".
Proof.
  intros result result'.
  destruct (finish_once (run demo_bounds empty_jobs demo_start) "j" (PStr "w") FAILED (PStr "k") result "boom" (PStr "t1") 2000000)
    as [[db1 [c|]]|] eqn:E; [|vm_compute in E; discriminate E..].
  exists db1, c. split; [reflexivity|split].
  - refine (proj1 (proj2 (proj2 (finish_once_exactly_once demo_bounds demo_start [Retry "j" None 3000000] "j" (PStr "w") FAILED (PStr "k")
      result "boom" (PStr "t1") 2000000 db1 c (PStr "v") FAILED result' "boom" PNone 4000000 E eq_refl eq_refl eq_refl _
      eq_refl eq_refl eq_refl eq_refl _))) _); [discriminate|intros _; vm_compute; reflexivity|].
    split; [reflexivity|split; vm_compute; reflexivity].
  - refine (proj2 (proj2 (proj2 (finish_once_exactly_once demo_bounds demo_start [Retry "j" None 3000000] "j" (PStr "w") FAILED (PStr "k")
      result "boom" (PStr "t1") 2000000 db1 c (PStr "w") FAILED JNull "boom" PNone 4000000 E eq_refl eq_refl eq_refl _
      eq_refl eq_refl eq_refl eq_refl _))) _); [discriminate| |].
    + intros H. vm_compute in H. discriminate H.
    + intros (_ & Hc & _). vm_compute in Hc. discriminate Hc.
Defined.

Lemma reconcile_stale_exact_witness :
  ∃ db' rep, reconcile_stale (run demo_bounds empty_jobs demo_start) 400000000 100 = Ok (db', rep) ∧ "j" ∈ rp_interrupted rep
  ∧ zlen (rp_interrupted rep) <= 100.
Proof.
  eexists _, _. split; [vm_compute; reflexivity|]. split; [by left|].
  refine (proj2 (proj2 (proj2 (reconcile_stale_exact demo_bounds demo_start 400000000 100 _ _ _ _)))); [split; vm_compute; done|vm_compute; reflexivity].
Defined.

(** A heartbeat of the worker erases a cancellation that was requested. *)
Example heartbeat_erases_cancellation :
  let l := demo_start ++ [RequestCancel "j" "stop" 16 2000000; Heartbeat "j" (PStr "w") 300 (PStr "t1") 3000000] in
  j_status <$> jobs (run demo_bounds empty_jobs l) !! "j" = Some RUNNING.
Proof. vm_compute. reflexivity. Qed.

(** After the lease ended another worker is granted a job whose cancellation was requested. *)
Example cancelled_job_claimed :
  let l := demo_start ++ [RequestCancel "j" "stop" 16 2000000; Claim "j" (PStr "v") 300 "t2" 400000000] in
  j_status <$> jobs (run demo_bounds empty_jobs l) !! "j" = Some CLAIMED.
Proof. vm_compute. reflexivity. Qed.

(** A failed job is not final: a retry makes it pending. *)
Example failed_job_reopens :
  let l := demo_start ++ [Finish "j" (PStr "w") FAILED JNull "boom" (PStr "t1") 2000000; Retry "j" None 3000000] in
  j_status <$> jobs (run demo_bounds empty_jobs l) !! "j" = Some PENDING.
Proof. vm_compute. reflexivity. Qed.
