(* ===== verification/JobOutput.v ===== *)
(** The bounded output of durable jobs: what the registry retains of the lines a job printed, and what
    a reader that pages through it sees. *)
From S2P Require Import Prelude PyText CanonicalJson Sha256 PyDate JobRegistry.

Local Open Scope Z_scope.

(** ** The abstract output of a job: the list of all its lines *)

Definition total_size (l : list OutputAppend) : Z := foldr (λ e acc, entry_size e + acc) 0 l.
Definition within (b : Z * Z) (l : list OutputAppend) : Prop := zlen l <= b.1 ∧ total_size l <= b.2.
#[export] Instance within_dec b l : Decision (within b l).
Proof. unfold within. apply _. Defined.

(** What a job's columns and rows say: the rows, the next sequence, and the last one dropped. *)
Definition OutState : Type := list OutputRow * Z * Z.
Definition out_state (db : JobDB) (id : string) : option OutState :=
  r ← jobs db !! id; Some (default [] (outputs db !! id), j_output_next r, j_output_dropped_before r).

(** A state that retains the lines of [log] from the [d]-th on; sequences count from 1. *)
Definition retains (b : Z * Z) (log : list OutputAppend) (s : OutState) : Prop :=
  ∃ d, (d ≤ length log)%nat ∧ s = (numbered (Z.of_nat d + 1) (drop d log), zlen log + 1, Z.of_nat d)
  ∧ (∀ k, (k < d)%nat → ¬ within b (drop k log)) ∧ within b (drop d log).

(** The lines an operation adds to a job. *)
Definition added (db : JobDB) (id : string) (o : job_op) : list OutputAppend :=
  match o with
  | Append i batch _ =>
      if bool_decide (i = id) && bool_decide (is_Some (jobs db !! id)) && (zlen batch <=? MAX_OUTPUT_APPEND_BATCH)
      then batch else []
  | _ => []
  end.

Fixpoint appended (b : Z * Z) (db : JobDB) (id : string) (l : list job_op) : list OutputAppend :=
  match l with [] => [] | o :: rest => added db id o ++ appended b (apply b db o) id rest end.

(** A reader that follows the watermark until nothing more is reported. *)
Fixpoint read_all (fuel : nat) (db : JobDB) (id : string) (after max_events max_bytes : Z) : option (list OutputRow) :=
  match fuel with
  | O => None
  | S fuel' =>
      match stream db id after max_events max_bytes with
      | Ok p =>
          if pg_has_more p then (pg_events p ++.) <$> read_all fuel' db id (pg_next p) max_events max_bytes
          else Some (pg_events p)
      | Err _ => None
      end
  end.

(** ** Numbered rows *)

Lemma numbered_cons n e l : numbered n (e :: l) = MkOutput n e :: numbered (n + 1) l.
Proof.
  unfold numbered. rewrite imap_cons. f_equal; [f_equal; lia|]. apply imap_ext. intros i x _. cbn. f_equal. lia.
Qed.

Lemma numbered_app n l k : numbered n (l ++ k) = numbered n l ++ numbered (n + zlen l) k.
Proof.
  revert n. induction l as [|e l IH]; intros n; cbn [app]; [unfold zlen; simpl; by rewrite Z.add_0_r|].
  rewrite !numbered_cons, IH. cbn. do 2 f_equal. unfold zlen. simpl. f_equal. lia.
Qed.

Lemma numbered_drop n d l : drop d (numbered n l) = numbered (n + Z.of_nat d) (drop d l).
Proof.
  revert n l. induction d as [|d IH]; intros n l; [rewrite !drop_0; f_equal; lia|].
  destruct l as [|e l]; [done|]. rewrite numbered_cons. cbn [drop]. rewrite IH. f_equal. lia.
Qed.

Lemma numbered_filter n l d : filter (λ o, (d <? o_sequence o) = true) (numbered n l) = drop (Z.to_nat (d - n + 1)) (numbered n l).
Proof.
  revert n. induction l as [|e l IH]; intros n; [by destruct (Z.to_nat _)|]. rewrite numbered_cons. destruct (Z.ltb_spec d n).
  - rewrite filter_cons_True by (cbn; apply Z.ltb_lt; lia). replace (Z.to_nat (d - n + 1)) with O by lia. rewrite drop_0. f_equal.
    rewrite IH. by replace (Z.to_nat (d - (n + 1) + 1)) with O by lia.
  - rewrite filter_cons_False by (cbn; rewrite Z.ltb_lt; lia). replace (Z.to_nat (d - n + 1)) with (S (Z.to_nat (d - (n + 1) + 1))) by lia.
    cbn [drop]. apply IH.
Qed.

Lemma length_numbered n l : length (numbered n l) = length l.
Proof. unfold numbered. apply length_imap. Qed.

Lemma sizes_numbered n l : sizes (numbered n l) = imap (λ i e, (n + Z.of_nat i, entry_size e)) l.
Proof. unfold sizes, numbered. by rewrite fmap_imap. Qed.

Lemma sum_sizes_imap n l : sum_sizes (imap (λ i e, (n + Z.of_nat i, entry_size e)) l) = total_size l.
Proof.
  revert n. induction l as [|e l IH]; intros n; [done|]. rewrite imap_cons. simpl. f_equal. rewrite <-(IH (n + 1)). f_equal.
  apply imap_ext. intros i x _. cbn. f_equal. lia.
Qed.

Lemma sum_sizes_app l k : sum_sizes (l ++ k) = sum_sizes l + sum_sizes k.
Proof. induction l as [|p l IH]; [done|]. simpl. rewrite IH. lia. Qed.

(** ** What is dropped *)

Lemma total_size_nonneg l : 0 <= total_size l.
Proof. induction l as [|e l IH]; simpl; [lia|]. unfold entry_size. lia. Qed.

Lemma total_size_app l k : total_size (l ++ k) = total_size l + total_size k.
Proof. induction l as [|e l IH]; simpl; lia. Qed.

Lemma within_nil b : 0 <= b.1 ∧ 0 <= b.2 → within b [].
Proof. done. Qed.

Lemma within_drop b l k : within b l → within b (drop k l).
Proof.
  revert l. induction k as [|k IH]; intros [|e l] Hw; try done. apply IH. destruct Hw as [H1 H2]. unfold within, zlen in *. simpl in *.
  unfold entry_size in H2. lia.
Qed.

Lemma within_prefix b l k : within b (l ++ k) → within b l.
Proof.
  unfold within, zlen. rewrite length_app, total_size_app. pose proof (total_size_nonneg k). lia.
Qed.

(** [excess] drops the fewest entries that bring the rest within the bounds. *)
Lemma excess_spec b n l : 0 <= b.1 ∧ 0 <= b.2 →
  let k := excess b.1 b.2 (total_size l) (imap (λ i e, (n + Z.of_nat i, entry_size e)) l) in
  (k ≤ length l)%nat ∧ (∀ i, (i < k)%nat → ¬ within b (drop i l)) ∧ within b (drop k l).
Proof.
  intros Hb. revert n. induction l as [|e l IH]; intros n; [cbn; split_and!; [lia|lia|by apply within_nil]|].
  rewrite imap_cons. cbn [excess total_size foldr]. fold (total_size l).
  replace (entry_size e + total_size l - entry_size e) with (total_size l) by lia.
  assert (imap ((λ i e0, (n + Z.of_nat i, entry_size e0)) ∘ S) l = imap (λ i e, (n + 1 + Z.of_nat i, entry_size e)) l) as ->
    by (apply imap_ext; intros i x _; cbn; f_equal; lia).
  set (lst := _ :: imap _ l). assert (zlen lst = zlen (e :: l)) as Hz by (unfold zlen, lst; simpl; by rewrite length_imap).
  rewrite Hz. destruct (_ || _) eqn:Eo; cbv zeta.
  - destruct (IH (n + 1)) as (Hk & Hn & Hw). cbv zeta in *. split_and!; [simpl; lia| |exact Hw].
    intros [|i] Hi; [|apply Hn; lia]. unfold within. rewrite drop_0. cbn [total_size foldr]. fold (total_size l).
    apply orb_true_iff in Eo as [Eo|Eo]; apply Z.ltb_lt in Eo; lia.
  - apply orb_false_iff in Eo as [E1 E2]. apply Z.ltb_ge in E1, E2. split_and!; [lia|lia|]. rewrite drop_0. by split.
Qed.

(** Dropping a front that was too much for a part of the log is too much for the whole. *)
Lemma retains_more b log batch d k : (d ≤ length log)%nat → (∀ i, (i < d)%nat → ¬ within b (drop i log)) →
  (∀ i, (i < k)%nat → ¬ within b (drop i (drop d log ++ batch))) →
  ∀ i, (i < d + k)%nat → ¬ within b (drop i (log ++ batch)).
Proof.
  intros Hd Hn Hk i Hi Hw. destruct (decide (i < d)%nat) as [Hlt|Hge].
  - apply (Hn i Hlt). rewrite drop_app_le in Hw by lia. by apply within_prefix in Hw.
  - apply (Hk (i - d)%nat ltac:(lia)). rewrite <-drop_app_le, drop_drop by lia. by replace (d + (i - d))%nat with i by lia.
Qed.

(** The sequence of the last entry dropped when [k] entries are, counted from [n]. *)
Definition last_dropped (n : Z) (k : nat) : option Z := match k with O => None | S m => Some (n + Z.of_nat m) end.

Lemma last_dropped_eq n k (l : list OutputAppend) : (k ≤ length l)%nat →
  match k with O => None | S m => fst <$> imap (λ i e, (n + Z.of_nat i, entry_size e)) l !! m end = last_dropped n k.
Proof.
  intros Hk. destruct k as [|m]; [done|]. rewrite list_lookup_imap. destruct (lookup_lt_is_Some_2 l m ltac:(lia)) as [x Hx].
  by rewrite Hx.
Qed.

Lemma kept_rows n k l :
  filter (λ o, match last_dropped n k with None => true | Some d => d <? o_sequence o end = true) (numbered n l)
  = numbered (n + Z.of_nat k) (drop k l).
Proof.
  destruct k as [|m]; cbn [last_dropped].
  - rewrite drop_0, Z.add_0_r. induction (numbered n l) as [|o k IH]; [done|]. rewrite filter_cons_True by done. by rewrite IH.
  - rewrite numbered_filter, numbered_drop. replace (Z.to_nat (n + Z.of_nat m - n + 1)) with (S m) by lia. done.
Qed.

(** Appending a batch appends it to the log. *)
Lemma append_retains b db id batch db' log : 0 <= b.1 ∧ 0 <= b.2 →
  append_outputs b.1 b.2 db id batch = Ok db' → (∃ s, out_state db id = Some s ∧ retains b log s) →
  ∃ s, out_state db' id = Some s ∧ retains b (log ++ batch) s.
Proof.
  intros Hb Ha (s & Hs & d & Hd & Es & Hn & Hw). unfold append_outputs in Ha. unfold out_state in Hs.
  destruct (jobs db !! id) as [r|] eqn:Hr; [|by res_inv]. simpl in Hs. injection Hs as <-. injection Es as Hrows Hnext Hdrop. res_inv.
  case_bool_decide as Hbt; simplify_eq/=.
  { exists (default [] (outputs db' !! id), j_output_next r, j_output_dropped_before r). unfold out_state. rewrite Hr. split; [done|].
    rewrite app_nil_r. exists d. by rewrite Hrows, Hnext, Hdrop. }
  set (lines := drop d log ++ batch). set (n := Z.of_nat d + 1).
  assert (zlen log + 1 = n + zlen (drop d log)) as Hseq by (unfold zlen, n; rewrite length_drop; lia).
  assert (sizes (default [] (outputs db !! id)) ++ imap (λ i e, (j_output_next r + Z.of_nat i, entry_size e)) batch
          = imap (λ i e, (n + Z.of_nat i, entry_size e)) lines) as ->.
  { rewrite Hrows, Hnext, Hseq, sizes_numbered. unfold lines. rewrite imap_app. f_equal. apply imap_ext. intros i x _. cbn. unfold zlen. f_equal. lia. }
  rewrite sum_sizes_imap. destruct (excess_spec b n lines Hb) as (Hk & Hkn & Hkw). set (k := excess _ _ _ _) in *.
  rewrite (last_dropped_eq n k lines Hk). rewrite <-filter_app.
  rewrite Hrows, Hnext, Hseq. rewrite <-numbered_app. fold lines n. rewrite kept_rows.
  eexists. unfold out_state. cbn. rewrite !lookup_insert_eq. cbn. split; [reflexivity|].
  exists (d + k)%nat. assert (drop (d + k) (log ++ batch) = drop k lines) as Edrop.
  { rewrite <-drop_drop. unfold lines. by rewrite (drop_app_le log) by done. }
  split_and!.
  - unfold lines in Hk. rewrite length_app, length_drop in Hk. rewrite length_app. lia.
  - rewrite Edrop. f_equal; [f_equal; [f_equal; unfold n; lia|]|].
    + rewrite <-Hseq. unfold zlen. rewrite length_app. lia.
    + rewrite Hdrop. destruct k; cbn; unfold n; lia.
  - apply retains_more; [done|done|]. exact Hkn.
  - by rewrite Edrop.
Qed.

(** ** The other operations leave the output alone *)

Lemma update_all_outputs f ids : ∀ db, outputs (update_all f ids db) = outputs db.
Proof. unfold update_all. induction ids as [|id ids IH]; intros db; [done|]. simpl. rewrite IH. by destruct (jobs db !! id). Qed.

Definition is_append (id : string) (o : job_op) : bool := match o with Append i _ _ => bool_decide (i = id) | _ => false end.

Lemma cancel_with_outputs f db id reason m : outputs (keep_walk db (cancel_with f db id reason m)) = outputs db.
Proof.
  unfold cancel_with. destruct (is_blank reason); [done|]. destruct (m <? 0); [done|].
  destruct (walk _ db m [id] []) as [[ids|e]|]; cbn; try done. destruct (mapM_res _ _); cbn; [apply update_all_outputs|done].
Qed.

Lemma outputs_apply b db o id : is_append id o = false → outputs (apply b db o) !! id = outputs db !! id.
Proof.
  intros Ha. destruct o; simpl in *; unfold cancel, request_cancellation; try by rewrite cancel_with_outputs.
  - destruct (start _ _ _ _ _ _ _ _) as [[db' a]|] eqn:E; [|done]. unfold start in E. by job_inv.
  - destruct (attach_process _ _ _ _ _ _) as [[db' a]|] eqn:E; [|done]. unfold attach_process in E. by job_inv.
  - destruct (_record_process_cleanup _ _ _) as [db'|] eqn:E; [|done]. unfold _record_process_cleanup in E. by job_inv.
  - destruct (bind_cancel_request _ _ _ _) as [db'|] eqn:E; [|done]. unfold bind_cancel_request in E. job_inv. destruct a0; by simplify_eq/=.
  - destruct (append_outputs _ _ _ _ _) as [db'|] eqn:E; [|done]. unfold append_outputs in E. job_inv; [done|].
    by rewrite lookup_insert_ne.
  - destruct (transition _ _ _ _ _ _ _ _) as [[db' a]|] eqn:E; [|done]. unfold transition in E. job_inv; try done.
    unfold transition_write. by repeat case_match.
  - destruct (claim _ _ _ _ _ _) as [[db' a]|] eqn:E; [|done]. unfold claim in E. by job_inv.
  - destruct (heartbeat _ _ _ _ _ _) as [[db' a]|] eqn:E; [|done]. unfold heartbeat in E. by job_inv.
  - destruct (finish _ _ _ _ _ _ _ _) as [[db' a]|] eqn:E; [|done]. unfold finish in E. by job_inv.
  - destruct (finish_once _ _ _ _ _ _ _ _ _) as [[db' a]|] eqn:E; [|done]. unfold finish_once in E. by job_inv.
  - destruct (retry _ _ _ _) as [[db' a]|] eqn:E; [|done]. unfold retry in E. by job_inv.
  - destruct (reconcile_stale _ _ _) as [[db' a]|] eqn:E; [|done]. unfold reconcile_stale in E. job_inv. by rewrite update_all_outputs.
Qed.

Lemma row_step_output o id r r' : is_append id o = false → row_step o id r r' →
  j_output_next r' = j_output_next r ∧ j_output_dropped_before r' = j_output_dropped_before r.
Proof.
  intros Ha Hs. destruct Hs as [|r' ? ? ->| |next dropped batch Heq| | | | | | |]; try done. destruct o; simplify_eq/=.
  by apply bool_decide_eq_false in Ha.
Qed.

(** Rows of output belong to jobs. *)
Definition outputs_of_jobs (db : JobDB) : Prop := ∀ id, jobs db !! id = None → outputs db !! id = None.

Definition output_ok (b : Z * Z) (db : JobDB) (id : string) (log : list OutputAppend) : Prop :=
  match jobs db !! id with
  | None => outputs db !! id = None ∧ log = []
  | Some _ => ∃ s, out_state db id = Some s ∧ retains b log s
  end.

Lemma apply_output b db o id log : 0 <= b.1 ∧ 0 <= b.2 → db_ok db → output_ok b db id log →
  output_ok b (apply b db o) id (log ++ added db id o).
Proof.
  intros Hb Hok Ho. destruct (is_append id o) eqn:Ha.
  - destruct o as [| | | |i batch n| | | | | | | | |]; try done. simpl in Ha. apply bool_decide_eq_true in Ha as ->. unfold output_ok in Ho |- *. simpl.
    rewrite bool_decide_true by done. destruct (jobs db !! id) as [r|] eqn:Hr.
    + rewrite (bool_decide_true (is_Some _)) by eauto. cbn [andb].
      destruct (zlen batch <=? MAX_OUTPUT_APPEND_BATCH) eqn:Hl.
      * assert (∃ db', append_outputs b.1 b.2 db id batch = Ok db') as [db' Hdb'].
        { unfold append_outputs. rewrite Hl. cbn. rewrite Hr. case_bool_decide; eauto. }
        destruct (append_retains b db id batch db' log Hb Hdb' Ho) as (s & Hs & Hret). rewrite Hdb'. simpl.
        destruct (jobs db' !! id) eqn:E; [eauto|]. unfold out_state in Hs. by rewrite E in Hs.
      * unfold append_outputs. rewrite Hl. cbn. by rewrite Hr, app_nil_r.
    + rewrite (bool_decide_false (is_Some _)) by (by intros [? ?]). cbn [andb]. rewrite app_nil_r.
      unfold append_outputs. destruct (zlen batch <=? _); cbn; rewrite Hr; cbn; by rewrite ?Hr.
  - assert (added db id o = []) as -> by (destruct o; try done; simpl in *; by rewrite Ha). rewrite app_nil_r.
    pose proof (outputs_apply b db o id Ha) as Hout. unfold output_ok, out_state in *. rewrite Hout.
    destruct (apply_steps b db o (proj1 Hok)) as [[_ Hs]|(i & x & Hn & Hj & _ & _ & _ & _ & _ & _ & _ & _ & _ & _ & Hnx & Hdx & _)].
    + specialize (Hs id). destruct (jobs db !! id) as [r|] eqn:Hr; inversion Hs as [? r' Hstep|]; subst; [|done].
      destruct (row_step_output _ _ _ _ Ha Hstep) as [E1 E2]. simpl in *. by rewrite E1, E2.
    + rewrite Hj. destruct (decide (i = id)) as [->|Hne].
      * rewrite lookup_insert_eq. rewrite Hn in Ho. destruct Ho as [Ho ->]. simpl. rewrite Ho, Hnx, Hdx. eexists. split; [done|].
        exists O. split_and!; [simpl; lia|done|lia|by apply within_nil].
      * by rewrite lookup_insert_ne.
Qed.

Lemma run_output b l id : 0 <= b.1 ∧ 0 <= b.2 → output_ok b (run b empty_jobs l) id (appended b empty_jobs id l).
Proof.
  intros Hb. cut (∀ db log, db_ok db → output_ok b db id log → output_ok b (run b db l) id (log ++ appended b db id l)).
  { intros H. apply (H empty_jobs []); [apply empty_ok|done]. }
  induction l as [|o l IH]; intros db log Hok Ho; [by rewrite app_nil_r|]. simpl. rewrite (assoc_L (++)).
  apply IH; [by apply job_apply_ok|]. by apply apply_output.
Qed.

(** ** Readers *)

(** The rows after a cursor. *)
Definition rows_after (after : Z) (l : list OutputRow) : list OutputRow := filter (λ o, after < o_sequence o) l.

Lemma rows_after_numbered after n l : rows_after after (numbered n l)
  = numbered (n + Z.of_nat (Z.to_nat (after - n + 1))) (drop (Z.to_nat (after - n + 1)) l).
Proof.
  rewrite <-numbered_drop, <-numbered_filter. unfold rows_after. apply list_filter_iff. intros o. by rewrite Z.ltb_lt.
Qed.

Lemma select_take me mb l : ∀ n used, ∃ j, (j ≤ length l)%nat ∧ select_events me mb n used l = take j l ∧ (n = 0 → l ≠ [] → (1 ≤ j)%nat).
Proof.
  induction l as [|o l IH]; intros n used; [exists O; by split_and!|]. cbn [select_events]. cbv zeta.
  destruct ((0 <? n) && _) eqn:E.
  - exists O. split_and!; [simpl; lia|done|]. intros ->. discriminate E.
  - destruct ((me <=? n + 1) || _).
    + exists 1%nat. split_and!; [simpl; lia|done|lia].
    + destruct (IH (n + 1) (used + entry_size (o_entry o))) as (j & Hj & -> & _). exists (S j). split_and!; [simpl; lia|done|lia].
Qed.

Lemma last_numbered n l : last (numbered n l) = match l with [] => None | _ => MkOutput (n + zlen l - 1) <$> last l end.
Proof.
  destruct l as [|e l _] using rev_ind; [done|].
  assert (match l ++ [e] with [] => None | _ => MkOutput (n + zlen (l ++ [e]) - 1) <$> last (l ++ [e]) end
          = Some (MkOutput (n + zlen l) e)) as ->.
  { rewrite last_snoc. unfold zlen. rewrite length_app. simpl. destruct (l ++ [e]) eqn:E; [by destruct l|]. do 2 f_equal. lia. }
  rewrite numbered_app, numbered_cons. apply last_snoc.
Qed.

Lemma existsb_numbered a n l : existsb (λ o, a <? o_sequence o) (numbered n l) = bool_decide (l ≠ [] ∧ a < n + zlen l - 1).
Proof.
  revert n. induction l as [|e l IH]; intros n; [rewrite bool_decide_false; [done|by intros [? ?]]|].
  rewrite numbered_cons. cbn [existsb o_sequence]. rewrite IH. unfold zlen. cbn [length].
  apply eq_true_iff_eq. rewrite orb_true_iff, Z.ltb_lt, !bool_decide_eq_true.
  destruct l as [|x l]; cbn [length]; split.
  - intros [?|[Hx ?]]; [by split; [done|lia]|done].
  - intros [_ ?]. left. lia.
  - intros [?|[_ ?]]; split; try done; lia.
  - intros [_ ?]. right. split; [done|lia].
Qed.

Lemma stream_page db id r after me mb m k : jobs db !! id = Some r → is_ok (_record r) = true → 1 <= me → 1 <= mb →
  after < m → rows_after after (default [] (outputs db !! id)) = numbered m k →
  ∃ j, (j ≤ length k)%nat ∧ (k ≠ [] → (1 ≤ j)%nat)
  ∧ stream db id after me mb = Ok (MkPage (numbered m (take j k)) (if (0 <? j)%nat then m + Z.of_nat j - 1 else after)
      (j <? length k)%nat (after <? j_output_dropped_before r)).
Proof.
  intros Hr Hok Hme Hmb Hm Hrows. destruct (select_take me mb (numbered m k) 0 0) as (j & Hj & Hsel & Hj1).
  rewrite length_numbered in Hj. exists j. split_and!; [done|intros Hk; apply Hj1; [done|intros E; by destruct k]|].
  remember (j <? length k)%nat as more eqn:Emore. unfold stream. rewrite (require_true _ _ _ (proj2 (andb_true_iff _ _) (conj (proj2 (Z.leb_le _ _) Hme) (proj2 (Z.leb_le _ _) Hmb)))).
  cbn. rewrite Hr. unfold rows_after in Hrows. rewrite Hrows, Hsel. f_equal.
  assert (take j (numbered m k) = numbered m (take j k)) as Htk.
  { rewrite <-(take_drop j k) at 1. rewrite numbered_app, take_app_length'; [done|]. rewrite length_numbered, length_take. lia. }
  rewrite Htk.
  assert (match last (numbered m (take j k)) with Some o => o_sequence o | None => after end
          = if (0 <? j)%nat then m + Z.of_nat j - 1 else after) as Hnext.
  { rewrite last_numbered. destruct (take j k) as [|e t] eqn:E.
    - destruct (Nat.ltb_spec 0 j); [|done]. exfalso. apply (f_equal length) in E. rewrite length_take in E. simpl in E. lia.
    - assert (length (e :: t) = j) as Hl by (rewrite <-E, length_take; lia). destruct (Nat.ltb_spec 0 j); [|simpl in Hl; lia].
      destruct (last (e :: t)) eqn:El; [|by apply last_None in El]. simpl. unfold zlen. rewrite Hl. lia. }
  rewrite Hnext. f_equal. rewrite Emore. rewrite <-(take_drop j k) at 1. rewrite numbered_app, existsb_app.
  rewrite !existsb_numbered. unfold zlen. rewrite length_drop, length_take. destruct (Nat.ltb_spec 0 j), (Nat.ltb_spec j (length k)).
  - rewrite (bool_decide_true (drop j k ≠ [] ∧ _)); [by rewrite orb_true_r|]. split; [intros E; apply (f_equal length) in E; rewrite length_drop in E; simpl in E; lia|lia].
  - rewrite !bool_decide_false; [done| |]; intros [_ ?]; lia.
  - assert (k ≠ []) as Hk by (intros ->; simpl in *; lia). destruct (Hj1 eq_refl); [|lia|lia]. intros E. by destruct k.
  - assert (k = []) as -> by (apply nil_length_inv; lia). rewrite !bool_decide_false; [done| |]; intros [Hn _]; [by rewrite drop_nil in Hn|by rewrite take_nil in Hn].
Qed.

Lemma rows_after_again a a' l : a <= a' → rows_after a' (rows_after a l) = rows_after a' l.
Proof.
  intros Ha. unfold rows_after. rewrite list_filter_filter. apply list_filter_iff. intros o. lia.
Qed.

Lemma read_all_rows db id r me mb : jobs db !! id = Some r → is_ok (_record r) = true → 1 <= me → 1 <= mb →
  ∀ fuel after m k, (length k < fuel)%nat → after < m → rows_after after (default [] (outputs db !! id)) = numbered m k →
  read_all fuel db id after me mb = Some (numbered m k).
Proof.
  intros Hr Hok Hme Hmb. induction fuel as [|fuel IH]; intros after m k Hf Hm Hrows; [lia|].
  destruct (stream_page db id r after me mb m k Hr Hok Hme Hmb Hm Hrows) as (j & Hj & Hj1 & Hs).
  cbn [read_all]. rewrite Hs. cbn [pg_has_more pg_events pg_next]. destruct (Nat.ltb_spec j (length k)) as [Hlt|Hge].
  - assert (1 ≤ j)%nat as Hj0 by (apply Hj1; intros ->; simpl in Hlt; lia). rewrite (proj2 (Nat.ltb_lt 0 j)) by lia.
    rewrite (IH _ (m + Z.of_nat j) (drop j k)); [| rewrite length_drop; lia|lia|].
    + cbn. f_equal. rewrite <-(take_drop j k) at 3. rewrite numbered_app. do 2 f_equal. unfold zlen. rewrite length_take. lia.
    + rewrite <-(rows_after_again after) by lia. rewrite Hrows, rows_after_numbered. 
      replace (Z.to_nat (m + Z.of_nat j - 1 - m + 1)) with j by lia. done.
  - by rewrite take_ge by done.
Qed.

(** C10: the registry keeps the longest tail of a job's output.  After any operations the output rows of a
    job are the last lines of everything that was appended to it, numbered from one, as many as fit
    the bounds and no fewer; the next sequence and the number of lines dropped say where the tail
    lies.  How the lines were grouped into batches makes no difference. *)
Theorem output_is_longest_tail b l id r :
  1 <= b.1 → 1 <= b.2 → jobs (run b empty_jobs l) !! id = Some r →
  ∃ s, out_state (run b empty_jobs l) id = Some s ∧ retains b (appended b empty_jobs id l) s.
Proof.
  intros H1 H2 Hr. pose proof (run_output b l id ltac:(lia)) as H. unfold output_ok in H. by rewrite Hr in H.
Qed.

(** C17: paging reads everything that is retained, once and in order.  A reader that follows the watermark of each
    page, whatever its page bounds, ends and has seen exactly the retained lines after its cursor;
    the first page says whether lines it asked for were dropped. *)
Theorem stream_reads_tail b l id r after me mb :
  1 <= b.1 → 1 <= b.2 → 1 <= me → 1 <= mb → jobs (run b empty_jobs l) !! id = Some r →
  let log := appended b empty_jobs id l in
  let seen := Z.max after (j_output_dropped_before r) in
  read_all (S (length log)) (run b empty_jobs l) id after me mb = Some (numbered (seen + 1) (drop (Z.to_nat seen) log))
  ∧ ∃ p, stream (run b empty_jobs l) id after me mb = Ok p ∧ pg_truncated p = (after <? j_output_dropped_before r).
Proof.
  intros H1 H2 Hme Hmb Hr log seen. 
  assert (output_ok b (run b empty_jobs l) id log) as Ho by (apply run_output; lia).
  unfold output_ok in Ho. rewrite Hr in Ho. destruct Ho as (s & Hs & d & Hd & -> & _).
  unfold out_state in Hs. rewrite Hr in Hs. injection Hs as Hrows _ Hdrop.
  assert (is_ok (_record r) = true) as Hok by (rewrite row_ok_record; [done|by apply (proj2 (job_run_ok b l _ empty_ok) id)]).
  assert (rows_after after (default [] (outputs (run b empty_jobs l) !! id)) = numbered (seen + 1) (drop (Z.to_nat seen) log)) as Hra.
  { rewrite Hrows, rows_after_numbered, drop_drop. unfold seen. rewrite Hdrop. f_equal; [lia|]. f_equal. lia. }
  split.
  - apply (read_all_rows _ _ r); try done; [rewrite length_drop; lia|unfold seen; lia].
  - destruct (stream_page _ _ _ _ _ _ _ _ Hr Hok Hme Hmb (ltac:(unfold seen; lia) : after < seen + 1) Hra) as (j & _ & _ & ->).
    eauto.
Qed.

(** ** Witnesses *)

Definition demo_identity : JobIdentity := MkIdentity "j" "build" "op" "key" None None.
Definition line (s : string) : OutputAppend := MkAppend STDOUT s None.
Definition demo_output : list job_op :=
  [Start demo_identity None None None (PInt 3) None 0; Append "j" [line "one"; line "two"] 1; Append "j" [line "three"; line "four"] 2].

Lemma output_is_longest_tail_witness :
  ∃ s, out_state (run (3, 9) empty_jobs demo_output) "j" = Some s
  ∧ retains (3, 9) [line "one"; line "two"; line "three"; line "four"] s.
Proof.
  destruct (jobs (run (3, 9) empty_jobs demo_output) !! "j") as [r|] eqn:E; [|vm_compute in E; discriminate E].
  exact (output_is_longest_tail (3, 9) demo_output "j" r ltac:(done) ltac:(done) E).
Defined.

Lemma stream_reads_tail_witness :
  read_all 5 (run (3, 9) empty_jobs demo_output) "j" 0 1 100 = Some [MkOutput 3 (line "three"); MkOutput 4 (line "four")].
Proof.
  destruct (jobs (run (3, 9) empty_jobs demo_output) !! "j") as [r|] eqn:E; [|vm_compute in E; discriminate E].
  etransitivity; [exact (proj1 (stream_reads_tail (3, 9) demo_output "j" r 0 1 100 ltac:(done) ltac:(done) ltac:(done) ltac:(done) E))|].
  assert (j_output_dropped_before r = 2) as ->; [|reflexivity].
  assert (j_output_dropped_before <$> jobs (run (3, 9) empty_jobs demo_output) !! "j" = Some 2) as H by (vm_compute; reflexivity).
  rewrite E in H. by injection H.
Defined.
