(* ===== verification/WorkerCapacity.v ===== *)
(** Worker capacity: the values of [domain/worker_capacity.py] and the durable admission of
    [adapters/persistence/sqlite/worker_capacity.py], which shares its database with the job registry.

    The database is the one of the jobs with a table of budgets by host and a table of reservations by
    job.  Each operation is one transaction.  A time column is the instant its text denotes, and the
    SQL comparisons are those of the texts.  A random token, the reading of the clock and the
    fingerprint measured on the machine are arguments. *)
From S2P Require Import Prelude PyText CanonicalJson Sha256 PyDate JobRegistry JobLeases.
From Stdlib Require Import Ascii.

Local Open Scope Z_scope.

(** ** Values *)

Definition bounded_positive (name : string) (maximum : Z) (v : pyval) : res Z :=
  check_int 1 maximum ValueError (name +:+ " must be within 1.." +:+ pretty maximum) v.

Definition validate_physical_host_fingerprint (v : string) : res string :=
  _ ← require (is_digest v) ValueError "physical host fingerprint must be a lowercase SHA-256 fingerprint";
  Ok v.

(** [re.fullmatch(r'[A-Za-z0-9][A-Za-z0-9._-]{0,more}', s)] *)
Definition stable_identity (more : nat) (s : string) : bool :=
  match s with
  | EmptyString => false
  | String c s' =>
      is_alnum c && str_forallb (λ a, is_identity_char a && negb (Ascii.eqb a ":")) s' && (String.length s' <=? more)%nat
  end.

Record PhysicalHostIdentity := MkHostIdentity { authority_id : string; fingerprint : string; source : string }.
Definition PhysicalHostIdentity_init (authority fp src : string) : res PhysicalHostIdentity :=
  _ ← require (stable_identity 127 authority) ValueError "physical authority_id must be a bounded stable identity";
  _ ← validate_physical_host_fingerprint fp;
  _ ← require (stable_identity 63 src) ValueError "physical identity source must be bounded";
  Ok (MkHostIdentity authority fp src).

Record WorkerBudget := MkBudget {
  wb_host_id : string;
  wb_memory_bytes : Z;
  wb_max_jobs : Z;
  wb_fingerprint : option string
}.
Definition MAX_MEMORY : Z := Z.shiftl 1 50.

Definition WorkerBudget_init (host : string) (memory max_jobs : pyval) (fp : option string) : res WorkerBudget :=
  _ ← require (stable_identity 127 host) ValueError "worker host_id must be a bounded stable identity";
  m ← check_int 0 MAX_MEMORY ValueError "worker memory budget must be within 0..2^50" memory;
  n ← bounded_positive "worker max_jobs" 1024 max_jobs;
  match fp with
  | Some s => _ ← validate_physical_host_fingerprint s; Ok (MkBudget host m n fp)
  | None => Ok (MkBudget host m n fp)
  end.

Inductive LeaseState := RESERVED | DISPATCHED | RELEASED.
#[export] Instance lease_state_eq_dec : EqDecision LeaseState.
Proof. solve_decision. Defined.
Definition lease_state_of (s : string) : option LeaseState :=
  if String.eqb s "reserved" then Some RESERVED else if String.eqb s "dispatched" then Some DISPATCHED
  else if String.eqb s "released" then Some RELEASED else None.

Record CapacityReservation := MkReservation {
  cr_job_id : string;
  cr_token : string;
  cr_memory_bytes : Z;
  cr_expires_at : Z;
  cr_fingerprint : option string;
  cr_state : LeaseState
}.
Definition CapacityReservation_init (job token : string) (memory expires : Z) (fp : option string) (state : string)
  : res CapacityReservation :=
  _ ← match fp with Some s => validate_physical_host_fingerprint s | None => Ok "" end;
  match lease_state_of state with
  | Some st => Ok (MkReservation job token memory expires fp st)
  | None => throw ValueError "capacity reservation state is invalid"
  end.

Record CapacityReservationView := MkCapView {
  vw_job_id : string;
  vw_host_id : string;
  vw_request_sha256 : string;
  vw_memory_bytes : Z;
  vw_expires_at : Z;
  vw_state : LeaseState;
  vw_fingerprint : option string;
  vw_release_reason : string
}.
Inductive ViewStatus := VState (s : LeaseState) | VExpired.
Definition view_status (v : CapacityReservationView) : ViewStatus :=
  if bool_decide (vw_state v = RELEASED) && String.eqb (vw_release_reason v) "expired" then VExpired else VState (vw_state v).

Record CapacityReconciliation := MkCapReconciliation {
  cn_observed_at : Z;
  cn_expired : list CapacityReservationView;
  cn_inspected : Z
}.
Definition expired_job_ids (c : CapacityReconciliation) : list string := vw_job_id <$> cn_expired c.

(** ** Tables *)

Record BudgetRow := MkBudgetRow { bg_memory : Z; bg_max_jobs : Z; bg_fingerprint : string }.
Record LeaseRow := MkLeaseRow {
  lr_host_id : string;
  lr_request_sha256 : string;
  lr_token : string;
  lr_memory : Z;
  lr_expires : Z;
  lr_state : LeaseState;
  lr_fingerprint : string;
  lr_reason : string
}.
Record CapacityDB := MkCapDb {
  cd_jobs : JobDB;
  budgets : gmap string BudgetRow;
  leases : gmap string LeaseRow
}.
Definition empty_capacity : CapacityDB := MkCapDb empty_jobs ∅ ∅.
Definition set_leases (db : CapacityDB) (m : gmap string LeaseRow) : CapacityDB := MkCapDb (cd_jobs db) (budgets db) m.

Definition with_state (st : LeaseState) (reason : string) (r : LeaseRow) : LeaseRow :=
  MkLeaseRow (lr_host_id r) (lr_request_sha256 r) (lr_token r) (lr_memory r) (lr_expires r) st (lr_fingerprint r) reason.

(** [expires_at<=?] on the texts *)
Definition lapsed (now : Z) (r : LeaseRow) : bool := String.leb (isoformat (lr_expires r)) (isoformat now).
Definition due (now : Z) (r : LeaseRow) : bool := bool_decide (lr_state r = RESERVED) && lapsed now r.
(** [state='dispatched' OR (state='reserved' AND expires_at>?)] *)
Definition occupies (now : Z) (r : LeaseRow) : bool :=
  bool_decide (lr_state r = DISPATCHED) || (bool_decide (lr_state r = RESERVED) && negb (lapsed now r)).

(** ** Listing and reconciliation *)

(** [ORDER BY expires_at,job_id] *)
Definition lease_le (a b : string * LeaseRow) : bool :=
  match String.compare (isoformat (lr_expires a.2)) (isoformat (lr_expires b.2)) with
  | Lt => true | Gt => false | Eq => String.leb a.1 b.1
  end.
Definition select_leases (p : LeaseRow → bool) (limit : Z) (db : CapacityDB) : list (string * LeaseRow) :=
  take (Z.to_nat limit) (sort_by lease_le (filter (λ kv, p kv.2 = true) (map_to_list (leases db)))).

Definition _view (kv : string * LeaseRow) : CapacityReservationView :=
  MkCapView kv.1 (lr_host_id kv.2) (lr_request_sha256 kv.2) (lr_memory kv.2) (lr_expires kv.2) (lr_state kv.2)
    (if String.eqb (lr_fingerprint kv.2) "" then None else Some (lr_fingerprint kv.2)) (lr_reason kv.2).

Definition _MAX_RECONCILIATION_ROWS : Z := 1024.
Definition _MAX_LIST_ROWS : Z := 1024.

Definition expire (r : LeaseRow) : LeaseRow := with_state RELEASED "expired" r.
(** The update repeats the condition, so it changes the selected rows that are due. *)
Definition expire_all (now : Z) (ids : list string) (m : gmap string LeaseRow) : gmap string LeaseRow :=
  foldl (λ m id, alter (λ r, if due now r then expire r else r) id m) m ids.

Definition _reconcile_locked (db : CapacityDB) (now limit : Z) : CapacityDB * list CapacityReservationView :=
  let rows := select_leases (due now) limit db in
  (set_leases db (expire_all now rows.*1 (leases db)), (λ kv, _view (kv.1, expire kv.2)) <$> rows).

Definition reconcile_capacity (db : CapacityDB) (now : Z) (limit : pyval) : res (CapacityDB * CapacityReconciliation) :=
  n ← check_int 1 _MAX_RECONCILIATION_ROWS ValueError "capacity reconciliation limit must be within 1..1024" limit;
  let '(db', expired) := _reconcile_locked db now n in
  Ok (db', MkCapReconciliation now expired (zlen expired)).

Definition list_capacity (db : CapacityDB) (host_id : option string) (include_released : bool) (limit : pyval)
  : res (list CapacityReservationView) :=
  n ← check_int 1 _MAX_LIST_ROWS ValueError "capacity list limit must be within 1..1024" limit;
  _ ← require (match host_id with Some h => negb (String.eqb h "") | None => true end) ValueError
        "capacity host_id must be non-empty";
  Ok (_view <$> select_leases (λ r, match host_id with Some h => String.eqb (lr_host_id r) h | None => true end
                                   && (include_released || negb (bool_decide (lr_state r = RELEASED)))) n db).

(** ** Reservation *)

(** [LIKE 'compute-%'], which ignores the case of ASCII letters *)
Definition lower (c : ascii) : ascii := if ascii_between 65 90 c then ascii_of (byte_of c + 32) else c.
Fixpoint like_prefix (p s : string) : bool :=
  match p, s with
  | EmptyString, _ => true
  | String a p', String b s' => Ascii.eqb (lower a) (lower b) && like_prefix p' s'
  | _, _ => false
  end.

(** An execution job of the catalogue that is open and has no reservation. *)
Definition unowned (db : CapacityDB) (id : string) (j : JobRow) : bool :=
  like_prefix "compute-" (kind (j_identity j)) && negb (String.eqb (kind (j_identity j)) "compute-placement")
  && negb (terminal (j_status j)) && bool_decide (leases db !! id = None).
Definition has_row {A} (p : string → A → bool) (m : gmap string A) : bool := existsb (λ kv, p kv.1 kv.2) (map_to_list m).

(** [COALESCE(SUM(...),0)] over a table *)
Definition table_sum {A} (f : A → Z) (m : gmap string A) : Z := map_fold (λ _ r acc, f r + acc) 0 m.
Definition held_memory (host : string) (now : Z) (r : LeaseRow) : Z :=
  if String.eqb (lr_host_id r) host && occupies now r then lr_memory r else 0.
Definition held_job (host : string) (now : Z) (r : LeaseRow) : Z :=
  if String.eqb (lr_host_id r) host && occupies now r then 1 else 0.
Definition occupied (db : CapacityDB) (host : string) (now : Z) : Z * Z :=
  (table_sum (held_memory host now) (leases db), table_sum (held_job host now) (leases db)).

Definition _fingerprint (measured : string) (budget : WorkerBudget) : res string :=
  match wb_fingerprint budget with Some s => validate_physical_host_fingerprint s | None => Ok measured end.

Definition conflict {A} (msg : string) : res A := throw (Conflict "CONFLICT") msg.
Definition reject_if (cond : bool) (msg : string) : res unit := require (negb cond) (Conflict "CONFLICT") msg.

(** What an existing row of the job means for a request: an error, the lease itself, or that it may be
    used again. *)
Definition judge_existing (budget : WorkerBudget) (job sha fp : string) (explicit : bool) (demand now : Z) (r : LeaseRow)
  : res (option CapacityReservation) :=
  _ ← reject_if (negb (String.eqb (lr_host_id r) (wb_host_id budget) && String.eqb (lr_request_sha256 r) sha)
                 || (explicit && negb (lr_memory r =? demand))) "capacity job identity is already bound to another request";
  _ ← reject_if (negb (String.eqb (lr_fingerprint r) "") && negb (String.eqb (lr_fingerprint r) fp))
        "physical host identity changed for capacity job";
  if bool_decide (lr_state r = RESERVED) && negb (lapsed now r) then
    lease ← CapacityReservation_init job (lr_token r) (lr_memory r) (lr_expires r) (Some fp) "reserved"; Ok (Some lease)
  else
    let reusable := (due now r && mem (lr_reason r) [""; "expired"])
                    || (bool_decide (lr_state r = RELEASED) && String.eqb (lr_reason r) "expired") in
    _ ← reject_if (negb reusable) "capacity job has already been dispatched or released";
    Ok None.

(** The checks against the other rows and the budget of the host. *)
Definition check_capacity (db : CapacityDB) (budget : WorkerBudget) (fp : string) (demand now : Z) : res unit :=
  let host := wb_host_id budget in
  _ ← reject_if (has_row (λ _ r, negb (String.eqb (lr_host_id r) host) && occupies now r) (leases db))
        "physical host identity cannot change while capacity is occupied";
  _ ← reject_if (has_row (λ _ r, negb (mem (lr_fingerprint r) [fp; ""]) && occupies now r) (leases db))
        "physical host identity cannot change while capacity is occupied";
  let '(memory, count) := occupied db host now in
  _ ← require (negb ((wb_memory_bytes budget <? memory + demand) || (wb_max_jobs budget <=? count))) CapacityExceeded
        "worker catalog capacity is occupied";
  match budgets db !! host with
  | None => Ok tt
  | Some p =>
      _ ← reject_if (negb (String.eqb (bg_fingerprint p) "") && negb (String.eqb (bg_fingerprint p) fp))
            "physical host identity changed for capacity authority";
      _ ← reject_if (String.eqb (bg_fingerprint p) "" && negb (count =? 0))
            "physical host identity is unverified for occupied capacity";
      reject_if (negb ((bg_memory p =? wb_memory_bytes budget) && (bg_max_jobs p =? wb_max_jobs budget)) && negb (count =? 0))
        "worker budget cannot change while reservations are occupied"
  end.

Definition reserve_capacity (db : CapacityDB) (budget : WorkerBudget) (job sha : string) (memory_bytes lease_seconds : pyval)
  (measured token : string) (now : Z) : res (CapacityDB * CapacityReservation) :=
  _ ← require (negb (String.eqb job "") && (py_len job <=? 256)) ValueError "job_id must be bounded";
  _ ← require (is_digest sha) ValueError "request_sha256 must be SHA-256";
  seconds ← bounded_positive "reservation lease_seconds" 300 lease_seconds;
  let explicit := match memory_bytes with PNone => false | _ => true end in
  demand ← (if explicit then bounded_positive "memory reservation" MAX_MEMORY memory_bytes else Ok (wb_memory_bytes budget));
  _ ← require (negb ((wb_memory_bytes budget =? 0) || (wb_memory_bytes budget <? demand))) CapacityExceeded
        "worker RAM budget is unconfigured or insufficient";
  fp ← _fingerprint measured budget;
  let db1 := (_reconcile_locked db now _MAX_RECONCILIATION_ROWS).1 in
  expires ← add_seconds now seconds;
  _ ← require (negb (has_row (unowned db1) (jobs (cd_jobs db1)))) CapacityExceeded
        "existing catalog job has unknown capacity ownership";
  existing ← match leases db1 !! job with
             | Some r => judge_existing budget job sha fp explicit demand now r
             | None => Ok None
             end;
  match existing with
  | Some lease => Ok (db1, lease)
  | None =>
      _ ← check_capacity db1 budget fp demand now;
      lease ← CapacityReservation_init job token demand expires (Some fp) "reserved";
      Ok (MkCapDb (cd_jobs db1) (<[wb_host_id budget := MkBudgetRow (wb_memory_bytes budget) (wb_max_jobs budget) fp]> (budgets db1))
            (<[job := MkLeaseRow (wb_host_id budget) sha token demand expires RESERVED fp ""]> (leases db1)), lease)
  end.

Definition dispatch_capacity (db : CapacityDB) (job token : string) (now : Z) : res CapacityDB :=
  match leases db !! job with
  | Some r =>
      if String.eqb (lr_token r) token && bool_decide (lr_state r = RESERVED) && negb (lapsed now r)
      then Ok (set_leases db (<[job := with_state DISPATCHED (lr_reason r) r]> (leases db)))
      else conflict "worker capacity reservation is expired, consumed, or invalid"
  | None => conflict "worker capacity reservation is expired, consumed, or invalid"
  end.

Definition release_capacity (db : CapacityDB) (job : string) : CapacityDB :=
  match leases db !! job with
  | Some r => if bool_decide (lr_state r = DISPATCHED)
              then set_leases db (<[job := with_state RELEASED "cleanup-proven" r]> (leases db)) else db
  | None => db
  end.

(** ** Runs *)

Inductive cap_op :=
  | Jobs (b : Z * Z) (o : job_op)
  | Reserve (budget : WorkerBudget) (job sha : string) (memory_bytes lease_seconds : pyval) (measured token : string) (now : Z)
  | Dispatch (job token : string) (now : Z)
  | Release (job : string)
  | ReconcileCapacity (limit : pyval) (now : Z).

Definition cap_time (o : cap_op) : option Z :=
  match o with
  | Reserve _ _ _ _ _ _ _ n | Dispatch _ _ n | ReconcileCapacity _ n => Some n
  | Jobs _ _ | Release _ => None
  end.

(** A call that raises rolls its transaction back. *)
Definition committed {A} (db : CapacityDB) (m : res (CapacityDB * A)) : CapacityDB :=
  match m with Ok (db', _) => db' | Err _ => db end.

Definition cap_apply (db : CapacityDB) (o : cap_op) : CapacityDB :=
  match o with
  | Jobs b o => MkCapDb (apply b (cd_jobs db) o) (budgets db) (leases db)
  | Reserve budget job sha memory seconds measured token now =>
      committed db (reserve_capacity db budget job sha memory seconds measured token now)
  | Dispatch job token now => match dispatch_capacity db job token now with Ok db' => db' | Err _ => db end
  | Release job => release_capacity db job
  | ReconcileCapacity limit now => committed db (reconcile_capacity db now limit)
  end.
Definition cap_run (db : CapacityDB) (l : list cap_op) : CapacityDB := foldl cap_apply db l.

(** Operations with validated budgets whose clock does not run backwards, up to [now]. *)
Definition built (b : WorkerBudget) : Prop :=
  WorkerBudget_init (wb_host_id b) (PInt (wb_memory_bytes b)) (PInt (wb_max_jobs b)) (wb_fingerprint b) = Ok b.
Definition is_reserve (o : cap_op) : bool := match o with Reserve _ _ _ _ _ _ _ _ => true | _ => false end.
Definition well_typed (o : cap_op) : Prop := match o with Reserve budget _ _ _ _ _ _ _ => built budget | _ => True end.
Fixpoint timely (t : Z) (l : list cap_op) (now : Z) : Prop :=
  match l with
  | [] => t <= now ∧ instant now
  | o :: l' => well_typed o ∧ match cap_time o with Some n => t <= n ∧ instant n ∧ timely n l' now | None => timely t l' now end
  end.

(** ** Sums over a table *)

Lemma table_sum_insert {A} (f : A → Z) m i x : m !! i = None → table_sum f (<[i := x]> m) = f x + table_sum f m.
Proof. intros Hi. unfold table_sum. rewrite map_fold_insert_L; [done|intros; lia|done]. Qed.

Lemma table_sum_take {A} (f : A → Z) m i x : m !! i = Some x → table_sum f m = f x + table_sum f (delete i m).
Proof. intros Hi. rewrite <-(table_sum_insert f _ i x) by apply lookup_delete_eq. by rewrite insert_delete_id. Qed.

Lemma table_sum_nonneg {A} (f : A → Z) m : (∀ i x, m !! i = Some x → 0 <= f x) → 0 <= table_sum f m.
Proof.
  induction m as [|i x m Hi IH] using map_ind; intros Hf; [done|]. rewrite table_sum_insert by done.
  pose proof (Hf i x (lookup_insert_eq m i x)). assert (0 <= table_sum f m); [|lia]. apply IH. intros j y Hj. apply (Hf j).
  rewrite lookup_insert_ne; [done|congruence].
Qed.

(** The contribution of an entry. *)
Definition entry {A} (f : A → Z) (o : option A) : Z := match o with Some x => f x | None => 0 end.

Lemma table_sum_le {A} (f g : A → Z) m' : ∀ m, (∀ i x, m' !! i = Some x → 0 <= f x) → (∀ i x, m !! i = Some x → 0 <= g x) →
  (∀ i, entry f (m' !! i) <= entry g (m !! i)) → table_sum f m' <= table_sum g m.
Proof.
  induction m' as [|i x m' Hi IH] using map_ind; intros m Hf Hg Hle; [by apply table_sum_nonneg|].
  rewrite table_sum_insert by done. pose proof (Hle i) as Hx. rewrite lookup_insert_eq in Hx. simpl in Hx.
  assert (table_sum f m' <= table_sum g (delete i m)) as Hd.
  { apply IH.
    - intros j y Hj. apply (Hf j). rewrite lookup_insert_ne; [done|congruence].
    - intros j y [_ Hj]%lookup_delete_Some. by apply (Hg j).
    - intros j. destruct (decide (j = i)) as [->|Hne]; [by rewrite Hi, lookup_delete_eq|].
      specialize (Hle j). rewrite lookup_insert_ne in Hle by done. by rewrite lookup_delete_ne. }
  destruct (m !! i) as [y|] eqn:Hy.
  - rewrite (table_sum_take g m i y Hy). simpl in Hx. lia.
  - rewrite delete_id in Hd by done. simpl in Hx. lia.
Qed.

Lemma has_row_false {A} (p : string → A → bool) m : has_row p m = false ↔ ∀ i x, m !! i = Some x → p i x = false.
Proof.
  unfold has_row. rewrite <-not_true_iff_false, existsb_exists. split.
  - intros H i x Hi. destruct (p i x) eqn:E; [|done]. exfalso. apply H. exists (i, x). split; [|done].
    by apply list_elem_of_In, elem_of_map_to_list.
  - intros H ((i & x) & Hin & Hp). apply list_elem_of_In, elem_of_map_to_list in Hin. simpl in Hp. by rewrite (H i x Hin) in Hp.
Qed.

(** ** One row through one operation *)

Definition reusable (now : Z) (x : option LeaseRow) : Prop :=
  match x with None => True | Some r => due now r = true ∨ (lr_state r = RELEASED ∧ lr_reason r = "expired") end.

Inductive lease_step (o : cap_op) (id : string) : option LeaseRow → option LeaseRow → Prop :=
  | lease_same x : lease_step o id x x
  | lease_expired r now : cap_time o = Some now → due now r = true → lease_step o id (Some r) (Some (expire r))
  | lease_dispatched r now : o = Dispatch id (lr_token r) now → lr_state r = RESERVED → lapsed now r = false →
      lease_step o id (Some r) (Some (with_state DISPATCHED (lr_reason r) r))
  | lease_released r : o = Release id → lr_state r = DISPATCHED →
      lease_step o id (Some r) (Some (with_state RELEASED "cleanup-proven" r))
  | lease_reserved x budget sha memory seconds measured token now demand expires fp :
      o = Reserve budget id sha memory seconds measured token now → reusable now x →
      (built budget → 1 <= demand) → now < expires → min_us <= expires < end_us → is_digest fp = true →
      lease_step o id x (Some (MkLeaseRow (wb_host_id budget) sha token demand expires RESERVED fp "")).

Lemma expire_all_lookup now ids id : ∀ m, expire_all now ids m !! id = m !! id
  ∨ ∃ r, m !! id = Some r ∧ due now r = true ∧ expire_all now ids m !! id = Some (expire r).
Proof.
  unfold expire_all. induction ids as [|i ids IH]; intros m; [by left|]. cbn [foldl].
  destruct (decide (i = id)) as [->|Hne].
  - destruct (m !! id) as [r|] eqn:Hr.
    + destruct (due now r) eqn:Hd.
      * right. exists r. split_and!; [done..|]. destruct (IH (alter (λ r, if due now r then expire r else r) id m)) as [E|(r' & E & Hd' & _)].
        -- rewrite E, lookup_alter_eq, Hr. simpl. by rewrite Hd.
        -- rewrite lookup_alter_eq, Hr in E. simpl in E. rewrite Hd in E. injection E as <-. discriminate Hd'.
      * assert (alter (λ r, if due now r then expire r else r) id m = m) as ->; [|by rewrite <-Hr; apply IH].
        apply map_eq. intros j. destruct (decide (j = id)) as [->|]; [rewrite lookup_alter_eq, Hr; simpl; by rewrite Hd|by rewrite lookup_alter_ne].
    + assert (alter (λ r, if due now r then expire r else r) id m = m) as ->; [|by rewrite <-Hr; apply IH].
      apply map_eq. intros j. destruct (decide (j = id)) as [->|]; [by rewrite lookup_alter_eq, Hr|by rewrite lookup_alter_ne].
  - destruct (IH (alter (λ r, if due now r then expire r else r) i m)) as [E|(r & E & Hd & E')]; rewrite lookup_alter_ne in E by done; [by left|].
    right. by exists r.
Qed.

Lemma reconciled_row db now n id : leases (_reconcile_locked db now n).1 !! id = leases db !! id
  ∨ ∃ r, leases db !! id = Some r ∧ due now r = true ∧ leases (_reconcile_locked db now n).1 !! id = Some (expire r).
Proof. apply expire_all_lookup. Qed.

Lemma CapacityReservation_ok job token memory expires fp c :
  CapacityReservation_init job token memory expires (Some fp) "reserved" = Ok c →
  is_digest fp = true ∧ c = MkReservation job token memory expires (Some fp) RESERVED.
Proof. unfold CapacityReservation_init, validate_physical_host_fingerprint. intros H. by res_inv. Qed.

Lemma judge_existing_ok budget job sha fp explicit demand now r o :
  judge_existing budget job sha fp explicit demand now r = Ok o →
  lr_host_id r = wb_host_id budget ∧ lr_request_sha256 r = sha ∧
  match o with
  | Some c => is_digest fp = true ∧ lr_state r = RESERVED ∧ lapsed now r = false
      ∧ c = MkReservation job (lr_token r) (lr_memory r) (lr_expires r) (Some fp) RESERVED
  | None => reusable now (Some r)
  end.
Proof.
  unfold judge_existing, reject_if. intros H. res_inv. to_prop. apply negb_false_iff in H0. to_prop.
  split_and!; [by apply String.eqb_eq..|]. destruct (bool_decide (lr_state r = RESERVED) && _) eqn:E; res_inv.
  - to_prop. match goal with H : CapacityReservation_init _ _ _ _ _ _ = Ok _ |- _ => apply CapacityReservation_ok in H as [? ->] end. done.
  - match goal with H : negb (negb _) = true |- _ => rewrite negb_involutive in H; apply orb_true_iff in H as [H|H] end; to_prop; [by left|right].
    split; [done|by apply String.eqb_eq].
Qed.

(** What a reservation that succeeds has checked and written. *)
Lemma reserve_ok db budget job sha memory seconds measured token now db' c :
  reserve_capacity db budget job sha memory seconds measured token now = Ok (db', c) →
  let db1 := (_reconcile_locked db now _MAX_RECONCILIATION_ROWS).1 in
  ∃ demand fp expires,
    demand <= wb_memory_bytes budget ∧ (built budget → 1 <= demand) ∧ _fingerprint measured budget = Ok fp ∧ is_digest fp = true
    ∧ now < expires ∧ min_us <= expires < end_us ∧ (memory = PNone ∧ demand = wb_memory_bytes budget ∨ memory = PInt demand)
    ∧ ((∃ r, leases db1 !! job = Some r ∧ lr_state r = RESERVED ∧ lapsed now r = false ∧ lr_host_id r = wb_host_id budget
          ∧ lr_request_sha256 r = sha ∧ db' = db1 ∧ c = MkReservation job (lr_token r) (lr_memory r) (lr_expires r) (Some fp) RESERVED)
       ∨ (reusable now (leases db1 !! job) ∧ check_capacity db1 budget fp demand now = Ok tt
          ∧ db' = MkCapDb (cd_jobs db1)
              (<[wb_host_id budget := MkBudgetRow (wb_memory_bytes budget) (wb_max_jobs budget) fp]> (budgets db1))
              (<[job := MkLeaseRow (wb_host_id budget) sha token demand expires RESERVED fp ""]> (leases db1))
          ∧ c = MkReservation job token demand expires (Some fp) RESERVED)).
Proof.
  intros H db1. unfold reserve_capacity in H. fold db1 in H. clearbody db1. res_inv.
  assert (now < a5 ∧ min_us <= a5 < end_us) as [He Hr].
  { apply add_seconds_ok in Hok5. unfold bounded_positive in Hok1. res_inv. to_prop. lia. }
  exists a2, a4, a5. to_prop.
  assert ((built budget → 1 <= a2) ∧ (memory = PNone ∧ a2 = wb_memory_bytes budget ∨ memory = PInt a2)) as [Hd Hm].
  { unfold bounded_positive in Hok2. destruct memory; res_inv; (split; [intros Hb|try (by left); by right]).
    all: unfold built, WorkerBudget_init in Hb; res_inv; lia. }
  destruct a7 as [lease|]; simplify_eq.
  - destruct (leases db' !! job) as [r|] eqn:Hj; [|done]. apply judge_existing_ok in Hok7 as (Hh & Hs & Hdg & Hst & Hl & ->).
    split_and!; [done || lia..|]. left. by exists r.
  - res_inv. match goal with H : CapacityReservation_init _ _ _ _ _ _ = Ok _ |- _ => apply CapacityReservation_ok in H as [? ->] end.
    split_and!; [done || lia..|]. right. split_and!; [|by repeat match goal with u : () |- _ => destruct u end|done|done].
    destruct (leases db1 !! job); [by apply judge_existing_ok in Hok7 as (_ & _ & ?)|done].
Qed.

(** ** Every operation steps every row *)

Lemma due_expired now now' r : due now (expire r) = false ∧ occupies now' (expire r) = false.
Proof. done. Qed.

Lemma lease_step_reconciled o db now n id : cap_time o = Some now →
  lease_step o id (leases db !! id) (leases (_reconcile_locked db now n).1 !! id).
Proof.
  intros Ho. destruct (reconciled_row db now n id) as [->|(r & -> & Hd & ->)]; [apply lease_same|by eapply lease_expired].
Qed.

Lemma reusable_reconciled db now n id : reusable now (leases (_reconcile_locked db now n).1 !! id) → reusable now (leases db !! id).
Proof. destruct (reconciled_row db now n id) as [->|(r & -> & Hd & ->)]; [done|]. by left. Qed.

Lemma cap_steps db o id : lease_step o id (leases db !! id) (leases (cap_apply db o) !! id).
Proof.
  destruct o as [b o|budget job sha memory seconds measured token now|job token now|job|limit now]; cbn [cap_apply].
  - apply lease_same.
  - destruct (reserve_capacity _ _ _ _ _ _ _ _ _) as [[db' c]|] eqn:E; [|apply lease_same]. cbn [committed].
    apply reserve_ok in E as (demand & fp & expires & _ & Hd & _ & Hfp & He & Hr & _ & [(r & _ & _ & _ & _ & _ & -> & _)|(Hre & _ & -> & _)]).
    + by apply lease_step_reconciled.
    + cbn [leases]. destruct (decide (job = id)) as [->|Hne].
      * rewrite lookup_insert_eq. eapply lease_reserved; eauto. by eapply reusable_reconciled.
      * rewrite lookup_insert_ne by done. by apply lease_step_reconciled.
  - unfold dispatch_capacity. destruct (leases db !! job) as [r|] eqn:Hr; [|apply lease_same].
    destruct (_ && _) eqn:E; [|apply lease_same]. to_prop. cbn [leases set_leases].
    destruct (decide (job = id)) as [->|Hne]; [|rewrite lookup_insert_ne by done; apply lease_same].
    rewrite lookup_insert_eq, Hr. apply String.eqb_eq in H as <-. by eapply lease_dispatched.
  - unfold release_capacity. destruct (leases db !! job) as [r|] eqn:Hr; [|apply lease_same].
    case_bool_decide as Hs; [|apply lease_same]. cbn [leases set_leases].
    destruct (decide (job = id)) as [->|Hne]; [|rewrite lookup_insert_ne by done; apply lease_same].
    rewrite lookup_insert_eq, Hr. by eapply lease_released.
  - destruct (reconcile_capacity _ _ _) as [[db' c]|] eqn:E; [|apply lease_same]. unfold reconcile_capacity in E. res_inv.
    by apply (lease_step_reconciled _ db now a id).
Qed.

(** A property of one row that every step of a run keeps. *)
Lemma cap_row (P : option LeaseRow → Prop) (Q : cap_op → Prop) id l :
  (∀ o x x', Q o → P x → lease_step o id x x' → P x') → ∀ db, Forall Q l → P (leases db !! id) → P (leases (cap_run db l) !! id).
Proof.
  intros Hstep. induction l as [|o l IH]; intros db Hl HP; [done|]. inversion_clear Hl as [|? ? Ho Hl']. cbn [cap_run foldl].
  apply IH; [done|]. by eapply Hstep, cap_steps.
Qed.

(** ** A job is dispatched at most once *)

Definition spent (r : LeaseRow) (x : option LeaseRow) : Prop :=
  ∃ st reason, x = Some (with_state st reason r) ∧ (st = DISPATCHED ∧ reason = lr_reason r ∨ st = RELEASED ∧ reason = "cleanup-proven").

Lemma spent_step r o id x x' : spent r x → lease_step o id x x' → spent r x'.
Proof.
  intros (st & reason & -> & Hst) Hs. inversion Hs as [|y now Hn Hd|y now Ho Hr Hl|y Ho Hr|y ? ? ? ? ? ? ? ? ? ? Ho Hre]; simplify_eq/=; [by exists st, reason| | | |].
  - unfold due in Hd. destruct Hst as [[-> _]|[-> _]]; discriminate Hd.
  - by destruct Hst as [[? _]|[? _]].
  - exists RELEASED, "cleanup-proven". split; [done|by right].
  - unfold due in Hre. destruct Hre as [Hd|[? ?]], Hst as [[-> _]|[-> ->]]; simplify_eq/=.
Qed.

Lemma dispatched_step r o id x x' : o ≠ Release id → x = Some (with_state DISPATCHED (lr_reason r) r) → lease_step o id x x' → x' = x.
Proof.
  intros Hne -> Hs. inversion Hs as [|y now Hn Hd|y now Ho Hr Hl|y Ho Hr|y ? ? ? ? ? ? ? ? ? ? Ho Hre]; simplify_eq/=; try done.
  by destruct Hre as [?|[? ?]].
Qed.

(** C19: a job is dispatched at most once.  After a successful dispatch no token dispatches the job again
    and no request can reserve for it again, whatever happens in between; its row keeps the host and
    the memory it was granted, and stays dispatched, however late it is, until the job is released. *)
Theorem dispatched_once db job token now db1 l :
  dispatch_capacity db job token now = Ok db1 →
  (∃ r st reason, leases db !! job = Some r ∧ leases (cap_run db1 l) !! job = Some (with_state st reason r)
     ∧ (Release job ∉ l → st = DISPATCHED))
  ∧ (∀ token' now', is_ok (dispatch_capacity (cap_run db1 l) job token' now') = false)
  ∧ (∀ budget sha memory seconds measured token' now',
       is_ok (reserve_capacity (cap_run db1 l) budget job sha memory seconds measured token' now') = false).
Proof.
  intros Hd. unfold dispatch_capacity, conflict in Hd. destruct (leases db !! job) as [r|] eqn:Hr; [|done].
  destruct (_ && _) eqn:E in Hd; [|done]. injection Hd as <-. set (db1 := set_leases _ _).
  assert (leases db1 !! job = Some (with_state DISPATCHED (lr_reason r) r)) as H1 by apply lookup_insert_eq.
  assert (spent r (leases (cap_run db1 l) !! job)) as (st & reason & Hx & Hst).
  { apply (cap_row (spent r) (λ _, True) job l); [intros; by eapply spent_step|by apply Forall_true|]. rewrite H1.
    exists DISPATCHED, (lr_reason r). split; [done|by left]. }
  split_and!.
  - exists r, st, reason. split_and!; [done..|]. intros Hl.
    assert (leases (cap_run db1 l) !! job = leases db1 !! job) as Hk; [|rewrite Hx, H1 in Hk; by simplify_eq].
    apply (cap_row (λ x, x = leases db1 !! job) (λ o, o ≠ Release job) job l); [|apply Forall_forall; by intros o Ho ->|done].
    intros o x x' Ho -> Hs. rewrite H1 in *. by eapply dispatched_step.
  - intros token' now'. unfold dispatch_capacity. rewrite Hx. cbn.
    destruct Hst as [[-> _]|[-> _]]; rewrite andb_false_r; done.
  - intros. destruct (reserve_capacity _ _ _ _ _ _ _ _ _) as [[db' c]|] eqn:Er; [|done]. exfalso.
    apply reserve_ok in Er as (demand & fp & expires & _ & _ & _ & _ & _ & _ & _ & [(r' & Hr' & Hs' & _)|(Hre & _)]).
    + destruct (reconciled_row (cap_run db1 l) now' _MAX_RECONCILIATION_ROWS job) as [Ek|(r2 & Ek & Hdue & _)]; rewrite Hx in Ek.
      * rewrite Hr' in Ek. injection Ek as ->. simpl in Hs'. destruct Hst as [[-> _]|[-> _]]; done.
      * injection Ek as <-. unfold due in Hdue. destruct Hst as [[-> _]|[-> _]]; discriminate Hdue.
    + apply reusable_reconciled in Hre. rewrite Hx in Hre. unfold due in Hre. simpl in Hre.
      destruct Hst as [[-> _]|[-> ->]], Hre as [Hre|[? ?]]; simplify_eq/=.
Qed.

(** ** Capacity *)

Definition row_fine (r : LeaseRow) : Prop := instant (lr_expires r) ∧ is_digest (lr_fingerprint r) = true ∧ 0 <= lr_memory r.

Definition capacity_ok (db : CapacityDB) (t : Z) : Prop :=
  (∀ id r, leases db !! id = Some r → row_fine r)
  ∧ (∀ id r, leases db !! id = Some r → occupies t r = true →
       ∃ b, budgets db !! lr_host_id r = Some b ∧ bg_fingerprint b = lr_fingerprint r)
  ∧ (∀ id r id' r', leases db !! id = Some r → occupies t r = true → leases db !! id' = Some r' → occupies t r' = true →
       lr_host_id r = lr_host_id r')
  ∧ (∀ host b, budgets db !! host = Some b → (occupied db host t).1 <= bg_memory b ∧ (occupied db host t).2 <= bg_max_jobs b).

Lemma lapsed_leb now r : instant now → instant (lr_expires r) → lapsed now r = (lr_expires r <=? now).
Proof. intros. by apply iso_leb. Qed.

Lemma occupies_earlier t n r : t <= n → instant t → instant n → instant (lr_expires r) → occupies n r = true → occupies t r = true.
Proof.
  intros Hle Ht Hn Hr. unfold occupies. rewrite !lapsed_leb by done. rewrite !orb_true_iff, !andb_true_iff, !negb_true_iff.
  intros [?|[? ?]]; [by left|right]. split; [done|]. to_prop. apply Z.leb_gt. lia.
Qed.

Lemma held_memory_nonneg host t r : row_fine r → 0 <= held_memory host t r.
Proof. intros (_ & _ & ?). unfold held_memory. case_match; lia. Qed.
Lemma held_job_nonneg host t r : 0 <= held_job host t r.
Proof. unfold held_job. case_match; lia. Qed.

(** A change after which no row occupies more. *)
Definition static (r : LeaseRow) : string * Z * Z * string := (lr_host_id r, lr_memory r, lr_expires r, lr_fingerprint r).
Definition shrinks (t n : Z) (m m' : gmap string LeaseRow) : Prop :=
  ∀ id r', m' !! id = Some r' → ∃ r, m !! id = Some r ∧ static r' = static r ∧ (occupies n r' = true → occupies t r = true).

Lemma static_fine r r' : static r' = static r → row_fine r → row_fine r'.
Proof. unfold static, row_fine. by intros [= _ -> -> ->]. Qed.

Lemma held_shrinks host t n r r' : row_fine r → static r' = static r → (occupies n r' = true → occupies t r = true) →
  held_memory host n r' <= held_memory host t r ∧ held_job host n r' <= held_job host t r.
Proof.
  unfold held_memory, held_job. intros (_ & _ & ?) [= -> -> _ _] Ho. destruct (occupies n r') eqn:En.
  - rewrite Ho by done. case_match; lia.
  - rewrite andb_false_r. case_match; lia.
Qed.

Lemma occupied_shrinks db t db' n host : (∀ id r, leases db !! id = Some r → row_fine r) → shrinks t n (leases db) (leases db') →
  (occupied db' host n).1 <= (occupied db host t).1 ∧ (occupied db' host n).2 <= (occupied db host t).2.
Proof.
  intros HA Hs.
  assert (∀ i, entry (held_memory host n) (leases db' !! i) <= entry (held_memory host t) (leases db !! i)
             ∧ entry (held_job host n) (leases db' !! i) <= entry (held_job host t) (leases db !! i)) as Hle.
  { intros i. destruct (leases db' !! i) as [r'|] eqn:Hr'.
    - destruct (Hs i r' Hr') as (r & Hr & He & Ho). rewrite Hr. cbn. apply held_shrinks; [by eapply HA|done..].
    - destruct (leases db !! i) as [r|] eqn:Hr; cbn; [|done]. split; [by eapply held_memory_nonneg, HA|apply held_job_nonneg]. }
  split; apply table_sum_le; try (intros; by apply held_job_nonneg); try apply Hle.
  - intros i r' Hr'. destruct (Hs i r' Hr') as (r & Hr & He & _). by eapply held_memory_nonneg, static_fine, HA.
  - intros i r Hr. by eapply held_memory_nonneg, HA.
Qed.

Lemma capacity_shrinks db t db' n : budgets db' = budgets db → shrinks t n (leases db) (leases db') → capacity_ok db t → capacity_ok db' n.
Proof.
  intros Hb Hs (HA & HB & HC & HD). split_and!.
  - intros id r' Hr'. destruct (Hs id r' Hr') as (r & Hr & He & _). by eapply static_fine, HA.
  - intros id r' Hr' Ho. destruct (Hs id r' Hr') as (r & Hr & He & Hot). rewrite Hb. injection He as -> _ _ ->. eapply HB; eauto.
  - intros i r i2 r2 Hr Ho Hr2 Ho2. destruct (Hs i r Hr) as (x & Hx & [= -> _ _ _] & Hox), (Hs i2 r2 Hr2) as (y & Hy & [= -> _ _ _] & Hoy).
    eapply HC; eauto.
  - intros host b Hbud. rewrite Hb in Hbud. destruct (HD host b Hbud), (occupied_shrinks db t db' n host HA Hs). lia.
Qed.

(** Time passes, and a step that does not reserve. *)
Lemma shrinks_later t n m : (∀ id r, m !! id = Some r → row_fine r) → t <= n → instant t → instant n → shrinks t n m m.
Proof. intros HA Hle Ht Hn id r Hr. exists r. split_and!; [done..|]. apply occupies_earlier; [done..|]. by apply (HA id r). Qed.

Lemma reconciled_shrinks db now n : shrinks now now (leases db) (leases (_reconcile_locked db now n).1).
Proof.
  intros id r' Hr'. destruct (reconciled_row db now n id) as [E|(r & E & _ & E')].
  - rewrite Hr' in E. by exists r'.
  - rewrite Hr' in E'. injection E' as ->. exists r. by split_and!.
Qed.

Lemma step_shrinks db o t : (∀ n, cap_time o = Some n → n = t) → is_reserve o = false →
  shrinks t t (leases db) (leases (cap_apply db o)).
Proof.
  intros Ht Hne id r' Hr'. pose proof (cap_steps db o id) as Hs. rewrite Hr' in Hs.
  inversion Hs as [x E1 E2|r now Hn Hd E1 E2|r now Ho Hr Hl E1 E2|r Ho Hr E1 E2|x ? ? ? ? ? ? ? ? ? ? Ho]; simplify_eq/=; [by exists r'|..]; try done;
    exists r; (split_and!; [done..|]); try done.
  intros _. specialize (Ht now eq_refl) as ->. unfold occupies. by rewrite Hr, Hl.
Qed.

(** ** Reservations keep within the budget *)

Lemma table_sum_put {A} (f : A → Z) m i x : (∀ j y, m !! j = Some y → 0 <= f y) → table_sum f (<[i := x]> m) <= f x + table_sum f m.
Proof.
  intros Hf. rewrite <-insert_delete_eq, table_sum_insert by apply lookup_delete_eq. apply Zplus_le_compat_l. apply table_sum_le; [|done|].
  - intros j y [_ Hj]%lookup_delete_Some. by apply (Hf j).
  - intros j. destruct (decide (j = i)) as [->|]; [|by rewrite lookup_delete_ne]. rewrite lookup_delete_eq. cbn.
    destruct (m !! i) eqn:E; cbn; [by apply (Hf i)|done].
Qed.

Lemma reserved_capacity db budget job sha token fp demand expires now :
  capacity_ok db now → is_digest fp = true → instant expires → 0 <= demand → check_capacity db budget fp demand now = Ok tt →
  capacity_ok (MkCapDb (cd_jobs db) (<[wb_host_id budget := MkBudgetRow (wb_memory_bytes budget) (wb_max_jobs budget) fp]> (budgets db))
    (<[job := MkLeaseRow (wb_host_id budget) sha token demand expires RESERVED fp ""]> (leases db))) now.
Proof.
  intros (HA & HB & HC & HD) Hfp He Hdem Hchk. unfold check_capacity, reject_if in Hchk.
  destruct (occupied db (wb_host_id budget) now) as [memory count] eqn:Hocc. res_inv. to_prop. clear Hchk.
  rewrite has_row_false in Hok, Hok0. unfold occupied in Hocc. injection Hocc as Hmem Hcnt.
  assert (∀ id r, leases db !! id = Some r → occupies now r = true → lr_host_id r = wb_host_id budget ∧ lr_fingerprint r = fp) as Hsame.
  { intros id r Hr Ho. specialize (Hok id r Hr). specialize (Hok0 id r Hr). cbn in Hok, Hok0. rewrite Ho, andb_true_r in Hok, Hok0. to_prop.
    split; [by apply String.eqb_eq|]. destruct (HA id r Hr) as (_ & Hd & _). rewrite !elem_of_cons, elem_of_nil in Hok0.
    destruct Hok0 as [?|[E|?]]; [done| |done]. by rewrite E in Hd. }
  split_and!; cbn [leases budgets].
  - intros id r [[<- <-]|[_ Hr]]%lookup_insert_Some; [by split_and!|by eapply HA].
  - intros id r Hr Ho. eexists. enough (lr_host_id r = wb_host_id budget ∧ lr_fingerprint r = fp) as [-> ->] by by rewrite lookup_insert_eq.
    apply lookup_insert_Some in Hr as [[<- <-]|[_ Hr]]; [done|by eapply Hsame].
  - assert (∀ id r, <[job := MkLeaseRow (wb_host_id budget) sha token demand expires RESERVED fp ""]> (leases db) !! id = Some r →
      occupies now r = true → lr_host_id r = wb_host_id budget) as Hh; [|intros; etransitivity; [|symmetry]; by eapply Hh].
    intros id r [[<- <-]|[_ Hr]]%lookup_insert_Some Ho; [done|by eapply Hsame].
  - intros host b Hb. unfold occupied. cbn.
    pose proof (table_sum_put (held_memory host now) (leases db) job (MkLeaseRow (wb_host_id budget) sha token demand expires RESERVED fp "")
      (λ j y Hj, held_memory_nonneg host now y (HA j y Hj))) as H1.
    pose proof (table_sum_put (held_job host now) (leases db) job (MkLeaseRow (wb_host_id budget) sha token demand expires RESERVED fp "")
      (λ j y Hj, held_job_nonneg host now y)) as H2.
    unfold held_memory at 2 in H1. unfold held_job at 2 in H2. cbn in H1, H2.
    apply lookup_insert_Some in Hb as [[<- <-]|[Hne Hb]]; cbn.
    + rewrite String.eqb_refl in H1, H2. cbn in H1, H2. destruct (occupies now _); lia.
    + rewrite (proj2 (String.eqb_neq _ _) Hne) in H1, H2. destruct (HD host b Hb). unfold occupied in *. cbn in *. lia.
Qed.

Lemma reserve_keeps db t budget job sha memory seconds measured token now :
  built budget → t <= now → instant t → instant now → capacity_ok db t →
  capacity_ok (cap_apply db (Reserve budget job sha memory seconds measured token now)) now.
Proof.
  intros Hb Hle Ht Hn Hok. cbn [cap_apply].
  assert (capacity_ok db now) as Hnow by (apply (capacity_shrinks db t); [done| |exact Hok]; by apply shrinks_later; [apply Hok|..]).
  destruct (reserve_capacity _ _ _ _ _ _ _ _ _) as [[db' c]|] eqn:E; [|done]. cbn [committed].
  assert (capacity_ok (_reconcile_locked db now _MAX_RECONCILIATION_ROWS).1 now) as Hr
    by (by apply (capacity_shrinks db now); [|apply reconciled_shrinks|]).
  apply reserve_ok in E as (demand & fp & expires & _ & Hd & _ & Hfp & _ & He & _ & [(r & _ & _ & _ & _ & _ & -> & _)|(_ & Hc & -> & _)]); [done|].
  specialize (Hd Hb). apply reserved_capacity; [done..|lia|done].
Qed.

Lemma apply_budgets db o : is_reserve o = false → budgets (cap_apply db o) = budgets db.
Proof.
  destruct o; cbn; intros; try done.
  - unfold dispatch_capacity, conflict. by repeat case_match; simplify_eq.
  - unfold release_capacity. by repeat case_match.
  - destruct (reconcile_capacity _ _ _) as [[db' c]|] eqn:E; [|done]. unfold reconcile_capacity in E. by res_inv.
Qed.

Lemma timed_keeps db t o n : well_typed o → cap_time o = Some n → t <= n → instant t → instant n → capacity_ok db t →
  capacity_ok (cap_apply db o) n.
Proof.
  intros Hw Hn Hle Ht Hi Hok. destruct (is_reserve o) eqn:Hr.
  - destruct o; try done. simpl in Hn. injection Hn as ->. by eapply reserve_keeps.
  - eapply (capacity_shrinks db n); [by apply apply_budgets|apply step_shrinks; [intros m; by rewrite Hn; intros [= ->]|done]|].
    apply (capacity_shrinks db t); [done| |exact Hok]. by apply shrinks_later; [apply Hok|..].
Qed.

Lemma run_capacity l : ∀ db t now, timely t l now → instant t → capacity_ok db t → capacity_ok (cap_run db l) now.
Proof.
  induction l as [|o l IH]; intros db t now Hl Ht Hok.
  - destruct Hl. apply (capacity_shrinks db t); [done| |exact Hok]. by apply shrinks_later; [apply Hok|..].
  - destruct Hl as [Hw Hl]. cbn [cap_run foldl]. destruct (cap_time o) as [n|] eqn:En.
    + destruct Hl as (Hle & Hn & Hl). eapply IH; [exact Hl|done|]. by eapply timed_keeps.
    + eapply IH; [exact Hl|done|]. eapply (capacity_shrinks db t); [apply apply_budgets; by destruct o|apply step_shrinks; [by rewrite En|by destruct o]|done].
Qed.

Lemma empty_capacity_ok t : capacity_ok empty_capacity t.
Proof. by split_and!. Qed.

(** C4: a worker is never overcommitted.  While the clock does not run backwards, at every moment the rows
    that occupy capacity belong to one host and carry the fingerprint of its budget, their memory
    and their number stay within that budget, and every other host is free. *)
Theorem capacity_never_exceeded l now :
  timely min_us l now →
  let db := cap_run empty_capacity l in
  (∀ id r, leases db !! id = Some r → occupies now r = true →
     ∃ b, budgets db !! lr_host_id r = Some b ∧ bg_fingerprint b = lr_fingerprint r
     ∧ (occupied db (lr_host_id r) now).1 <= bg_memory b ∧ (occupied db (lr_host_id r) now).2 <= bg_max_jobs b)
  ∧ (∀ id r host, leases db !! id = Some r → occupies now r = true → host ≠ lr_host_id r → occupied db host now = (0, 0)).
Proof.
  intros Hl db. assert (capacity_ok db now) as (HA & HB & HC & HD)
    by (apply (run_capacity l _ min_us); [done|split; vm_compute; congruence|apply empty_capacity_ok]).
  split.
  - intros id r Hr Ho. destruct (HB id r Hr Ho) as (b & Hb & Hf). exists b. split_and!; [done..| |]; by apply HD.
  - intros id r host Hr Ho Hne.
    assert (∀ i x, leases db !! i = Some x → String.eqb (lr_host_id x) host && occupies now x = false) as Hz.
    { intros i x Hx. destruct (occupies now x) eqn:E; [|by rewrite andb_false_r]. rewrite andb_true_r. apply String.eqb_neq.
      intros <-. apply Hne. by eapply HC. }
    assert (∀ f, (∀ i x, leases db !! i = Some x → f x = 0) → table_sum f (leases db) = 0) as Hsum.
    { intros f Hf. apply Z.le_antisymm.
      - etransitivity; [apply (table_sum_le f (λ _, 0) _ ∅)|done]; [intros i x Hx; by rewrite (Hf i)|done|].
        intros i. rewrite lookup_empty. destruct (leases db !! i) eqn:E; cbn; [by rewrite (Hf i)|done].
      - apply table_sum_nonneg. intros i x Hx. by rewrite (Hf i). }
    unfold occupied. f_equal; apply Hsum; intros i x Hx; unfold held_memory, held_job; by rewrite (Hz i).
Qed.

(** ** A granted lease *)

(** Operations that leave the lease [token] of a job alone: clocks before its end, no dispatch with it. *)
Definition leaves (job token : string) (until : Z) (o : cap_op) : Prop :=
  match cap_time o with Some n => instant n ∧ n < until | None => True end
  ∧ match o with Dispatch j t _ => ¬ (j = job ∧ t = token) | _ => True end.

Definition granted (token : string) (until : Z) (x : option LeaseRow) : Prop :=
  ∃ r, x = Some r ∧ lr_state r = RESERVED ∧ lr_token r = token ∧ lr_expires r = until.

Lemma granted_step job token until o x x' : instant until → leaves job token until o → granted token until x →
  lease_step o job x x' → granted token until x'.
Proof.
  intros Hu [Ht Hd] (r & -> & Hs & Htok & He) Hstep.
  assert (∀ n, cap_time o = Some n → due n r = false) as Hdue.
  { intros n Hn. rewrite Hn in Ht. destruct Ht as [Hi Hlt]. unfold due. rewrite lapsed_leb by (by rewrite ?He).
    rewrite He, (proj2 (Z.leb_gt _ _)) by lia. by rewrite andb_false_r. }
  inversion Hstep as [y E1 E2|y n Hn Hdu E1 E2|y n Ho Hr Hl E1 E2|y Ho Hr E1 E2|y ? ? ? ? ? ? ? ? ? ? Ho Hre]; subst.
  - by exists r.
  - by rewrite (Hdue n) in Hdu.
  - exfalso. apply Hd. done.
  - congruence.
  - destruct Hre as [Hdu|[? _]]; [|congruence]. by rewrite (Hdue _ eq_refl) in Hdu.
Qed.

(** C18: a granted reservation can be dispatched until it expires.  From a reservation that was returned, new or
    repeated, to the end of its lease its token dispatches the job, whatever other hosts, jobs and
    requests do in between. *)
Theorem reservation_dispatchable l0 l t budget job sha memory seconds measured token now db1 c now' :
  timely min_us l0 t → t <= now → instant now →
  reserve_capacity (cap_run empty_capacity l0) budget job sha memory seconds measured token now = Ok (db1, c) →
  Forall (leaves job (cr_token c) (cr_expires_at c)) l → instant now' → now' < cr_expires_at c →
  is_ok (dispatch_capacity (cap_run db1 l) job (cr_token c) now') = true ∧ now < cr_expires_at c.
Proof.
  intros H0 Ht Hn Hr Hl Hn' Hlt.
  assert (capacity_ok (cap_run empty_capacity l0) t) as (HA & _)
    by (apply (run_capacity l0 _ min_us); [done|split; vm_compute; congruence|apply empty_capacity_ok]).
  assert (∃ r, leases db1 !! job = Some r ∧ granted (cr_token c) (cr_expires_at c) (Some r) ∧ instant (cr_expires_at c) ∧ now < cr_expires_at c)
    as (r & Hj & Hg & Hi & Hlive).
  { apply reserve_ok in Hr as (demand & fp & expires & _ & _ & _ & _ & He & Hie & _ & [(r & Hr & Hs & Hla & _ & _ & -> & ->)|(_ & _ & -> & ->)]).
    - exists r. cbn. assert (instant (lr_expires r)) as Hir.
      { destruct (reconciled_row (cap_run empty_capacity l0) now _MAX_RECONCILIATION_ROWS job) as [E|(x & E & _ & E')].
        - rewrite Hr in E. symmetry in E. apply (HA _ _ E).
        - rewrite Hr in E'. injection E' as ->. apply (HA _ _ E). }
      rewrite lapsed_leb in Hla by done. to_prop. split_and!; [done|by exists r|apply Hir|lia].
    - eexists. cbn. rewrite lookup_insert_eq. split_and!; [done|by eexists|apply Hie|done]. }
  split; [|done].
  assert (granted (cr_token c) (cr_expires_at c) (leases (cap_run db1 l) !! job)) as (x & Hx & Hs & Htok & He).
  { apply (cap_row _ (leaves job (cr_token c) (cr_expires_at c)) job l); [intros; by eapply granted_step|done|by rewrite Hj]. }
  unfold dispatch_capacity. rewrite Hx, Htok, Hs, String.eqb_refl, lapsed_leb by (by rewrite ?He).
  by rewrite He, (proj2 (Z.leb_gt _ _)) by lia.
Qed.

(** ** Witnesses *)

Definition demo_fp : string := "0123456789abcdef0123456789abcdef0123456789abcdef0123456789abcdef".
Definition demo_budget : WorkerBudget := MkBudget "host" 100 2 (Some demo_fp).
Definition demo_reserve (job token : string) (memory : Z) (now : Z) : cap_op :=
  Reserve demo_budget job demo_fp (PInt memory) (PInt 30) demo_fp token now.
Definition demo_ops : list cap_op :=
  [demo_reserve "a" "ta" 60 0; Dispatch "a" "ta" 1000000; demo_reserve "b" "tb" 40 2000000; demo_reserve "c" "tc" 40 3000000].

Lemma demo_instant n : bool_decide (min_us <= n < end_us) = true → instant n.
Proof. apply bool_decide_eq_true. Qed.

Lemma capacity_never_exceeded_witness :
  let db := cap_run empty_capacity demo_ops in
  occupied db "host" 4000000 = (100, 2) ∧ occupied db "other" 4000000 = (0, 0)
  ∧ ∃ b, budgets db !! "host" = Some b ∧ (occupied db "host" 4000000).1 <= bg_memory b.
Proof.
  assert ("other" ≠ "host") as Hne by done. intros db. assert (timely min_us demo_ops 4000000) as Ht by (repeat (split; [vm_compute; try done; congruence|]); split; vm_compute; done).
  destruct (capacity_never_exceeded demo_ops 4000000 Ht) as [Hin Hout].
  destruct (leases db !! "a") as [r|] eqn:E; [|vm_compute in E; discriminate E].
  assert (occupies 4000000 r = true ∧ lr_host_id r = "host") as [Ho Hh] by (vm_compute in E; injection E as <-; split; reflexivity).
  split_and!; [vm_compute; reflexivity|apply (Hout "a" r "other" E Ho); rewrite Hh; exact Hne|].
  destruct (Hin "a" r E Ho) as (b & Hb & _ & Hm & _). rewrite Hh in Hb, Hm. exists b. exact (conj Hb Hm).
Defined.

Lemma dispatched_once_witness :
  ∃ db1, dispatch_capacity (cap_run empty_capacity [demo_reserve "a" "ta" 60 0]) "a" "ta" 1000000 = Ok db1
  ∧ is_ok (dispatch_capacity (cap_run db1 [Release "a"]) "a" "ta" 2000000) = false
  ∧ is_ok (reserve_capacity (cap_run db1 [Release "a"]) demo_budget "a" demo_fp (PInt 60) (PInt 30) demo_fp "new" 9000000) = false.
Proof.
  eexists. split; [vm_compute; reflexivity|].
  assert (dispatch_capacity (cap_run empty_capacity [demo_reserve "a" "ta" 60 0]) "a" "ta" 1000000
          = Ok (cap_run empty_capacity [demo_reserve "a" "ta" 60 0; Dispatch "a" "ta" 1000000])) as H by (vm_compute; reflexivity).
  destruct (dispatched_once _ "a" "ta" 1000000 _ [Release "a"] H) as (_ & Hd & Hr). split; [apply Hd|apply Hr].
Defined.

Lemma reservation_dispatchable_witness :
  ∃ db1 c, reserve_capacity (cap_run empty_capacity []) demo_budget "a" demo_fp (PInt 60) (PInt 30) demo_fp "ta" 0 = Ok (db1, c)
  ∧ is_ok (dispatch_capacity (cap_run db1 [demo_reserve "b" "tb" 40 2000000]) "a" (cr_token c) 29000000) = true.
Proof.
  destruct (reserve_capacity (cap_run empty_capacity []) demo_budget "a" demo_fp (PInt 60) (PInt 30) demo_fp "ta" 0)
    as [[db1 c]|] eqn:E; [|vm_compute in E; discriminate E].
  exists db1, c. split; [reflexivity|].
  assert (cr_expires_at c = 30000000) as He by (vm_compute in E; by injection E as <- <-).
  refine (proj1 (reservation_dispatchable [] [demo_reserve "b" "tb" 40 2000000] min_us demo_budget "a" demo_fp (PInt 60) (PInt 30) demo_fp "ta" 0
    db1 c 29000000 _ _ _ E _ _ _)).
  - split; vm_compute; done.
  - vm_compute; done.
  - by apply demo_instant.
  - constructor; [|constructor]. rewrite He. split; [split; [by apply demo_instant|reflexivity]|exact I].
  - by apply demo_instant.
  - rewrite He. reflexivity.
Defined.
