(* ===== verification/DeploymentAdmission.v ===== *)
(** The admission of a model deployment onto worker capacity:
    [application/compute_fabric/deployment_admission.py] over the port of
    [application/compute_fabric/capacity.py].

    A capacity object is named by a number and its state lives in a store, since several hosts may
    share one object.  The port is a class of operations; its laws say what an implementation
    promises, and the SQLite adapter is an instance.  Clock readings, tokens and the measured
    fingerprint that the calls for one rank use are an argument, by the position of the rank. *)
From stdpp Require Import functions.
From S2P Require Import Prelude PyText CanonicalJson Sha256 PyDate JobRegistry JobLeases WorkerCapacity ModelPlacement.
From Stdlib Require Import Ascii.

Import ModelPlacement.Deployment.
Local Open Scope Z_scope.

(** ** The port *)

Class CapacityPort (E W : Type) := {
  p_reserve : E → WorkerBudget → string → string → Z → Z → W → W * res (dyn CapacityReservation);
  p_dispatch : E → string → string → W → W * res unit;
  p_release : E → string → W → W * res unit;
  p_reconcile : E → Z → W → W * res (dyn CapacityReconciliation)
}.

(** What a worker promises about the jobs that run on it, with their memory, and those that may be
    dispatched, with their token and memory. *)
Class CapacityLaws (E W : Type) `{CapacityPort E W} := {
  running : W → string → option Z;
  pending : W → string → option (string * Z);
  reserve_law e budget job sha memory seconds w w' r : p_reserve e budget job sha memory seconds w = (w', r) →
    (∀ j, running w' j = running w j)
    ∧ ∀ lease, r = Ok (Inst lease) → cr_job_id lease = job →
        match cr_state lease with
        | RESERVED => pending w' job = Some (cr_token lease, cr_memory_bytes lease)
        | DISPATCHED => running w' job = Some (cr_memory_bytes lease)
        | RELEASED => True
        end;
  dispatch_law e job token w w' r : p_dispatch e job token w = (w', r) →
    (∀ j, j ≠ job → running w' j = running w j)
    ∧ match r with
      | Ok _ => ∃ m, pending w job = Some (token, m) ∧ running w' job = Some m
      | Err _ => running w' job = running w job
      end;
  release_law e job w w' r : p_release e job w = (w', r) →
    (∀ j, j ≠ job → running w' j = running w j)
    ∧ match r with Ok _ => running w' job = None | Err _ => running w' job = running w job ∨ running w' job = None end
}.

(** ** Values *)

Definition _MAX_ACTIVE_ADMISSIONS : Z := 256.

Definition _identity (v : pyval) (field : string) : res string :=
  check_str is_identity ValueError (field +:+ " must be a bounded stable identity") v.
Definition _digest (v : pyval) (field : string) : res string :=
  check_str is_digest ValueError (field +:+ " must be a canonical SHA-256 digest") v.

Record DeploymentResourceRequest := MkRequest { rq_rank : ModelRank; rq_budget : WorkerBudget; rq_memory : Z }.
Definition Request_init (rank : dyn ModelRank) (budget : dyn WorkerBudget) (memory : pyval) : res DeploymentResourceRequest :=
  r ← inst_of TypeError "deployment rank must be a ModelRank" rank;
  b ← inst_of TypeError "deployment budget must be a WorkerBudget" budget;
  m ← bounded_positive "deployment memory_bytes" MAX_MEMORY memory;
  Ok (MkRequest r b m).

Record DeploymentReservation := MkEntry {
  dr_rank : Z;
  dr_host_id : string;
  dr_worker_id : string;
  dr_device_id : string;
  dr_job_id : string;
  dr_memory : Z
}.
#[export] Instance DeploymentReservation_eq_dec : EqDecision DeploymentReservation.
Proof. solve_decision. Defined.
Definition Reservation_init (rank : Z) (host worker device job : string) (memory : Z) : res DeploymentReservation :=
  _ ← require ((0 <=? rank) && (rank <=? 255)) ValueError "deployment reservation rank must be within 0..255";
  _ ← _identity (PStr host) "host_id";
  _ ← _identity (PStr worker) "worker_id";
  _ ← _identity (PStr device) "device_id";
  _ ← _identity (PStr job) "job_id";
  _ ← bounded_positive "deployment reservation memory_bytes" MAX_MEMORY (PInt memory);
  Ok (MkEntry rank host worker device job memory).

Record DeploymentAdmissionReceipt := MkAdmission {
  ad_cluster_id : string;
  ad_deployment_digest : string;
  ad_reservation_group : string;
  ad_plan_digest : string;
  ad_reservations : list DeploymentReservation
}.
#[export] Instance DeploymentAdmissionReceipt_eq_dec : EqDecision DeploymentAdmissionReceipt.
Proof. solve_decision. Defined.
Definition Receipt_init (cluster digest group plan : string) (reservations : list DeploymentReservation)
  : res DeploymentAdmissionReceipt :=
  _ ← _identity (PStr cluster) "cluster_id";
  _ ← _digest (PStr digest) "deployment_digest";
  _ ← _identity (PStr group) "reservation_group";
  _ ← _digest (PStr plan) "plan_digest";
  _ ← require (negb (bool_decide (reservations = []))) ValueError "deployment reservations must be a non-empty tuple";
  _ ← require (bool_decide (dr_rank <$> reservations = Z.of_nat <$> seq 0 (length reservations))) ValueError
        "deployment reservations must cover contiguous ranks";
  Ok (MkAdmission cluster digest group plan reservations).

Record DeploymentReconciliation := MkDeploymentReconciliation {
  dc_observed_at : Z;
  dc_expired_job_ids : list string;
  dc_affected : list string;
  dc_inspected : Z
}.
Definition Reconciliation_init (observed : Z) (expired affected : list string) (inspected : Z) : res DeploymentReconciliation :=
  _ ← mapM_res (λ j, _identity (PStr j) "expired job id") expired;
  _ ← mapM_res (λ j, _digest (PStr j) "affected plan digest") affected;
  _ ← require ((0 <=? inspected) && (inspected <=? _MAX_RECONCILIATION_ROWS)) ValueError
        "reconciliation inspected count is out of bounds";
  Ok (MkDeploymentReconciliation observed expired affected inspected).

Record LeaseBinding := MkBinding { lb_capacity : nat; lb_lease : CapacityReservation }.
Record ActiveAdmission := MkActive { ac_receipt : DeploymentAdmissionReceipt; ac_leases : list LeaseBinding }.

Record Service := MkService {
  sv_default : option nat;
  sv_capacities : gmap string nat;
  sv_reservation_seconds : Z;
  sv_max_active : Z;
  sv_active : gmap (string * string) ActiveAdmission
}.

(** The capacities of several hosts, or the one capacity of all. *)
Definition Service_init (capacity : nat + list (string * nat)) (seconds max_active : pyval) : res Service :=
  '(def, caps) ← match capacity with
    | inl c => Ok (Some c, ∅)
    | inr l =>
        _ ← require ((1 <=? zlen l) && (zlen l <=? _MAX_ACTIVE_ADMISSIONS)) ValueError "capacity map must contain 1..256 hosts";
        _ ← mapM_res (λ kv : string * nat, _identity (PStr kv.1) "capacity host_id") l;
        Ok (None, list_to_map l)
    end;
  s ← bounded_positive "reservation_seconds" 300 seconds;
  m ← check_int 1 _MAX_ACTIVE_ADMISSIONS ValueError "max_active_admissions must be within 1..256" max_active;
  Ok (MkService def caps s m ∅).

Definition with_active (sv : Service) (active : gmap (string * string) ActiveAdmission) : Service :=
  MkService (sv_default sv) (sv_capacities sv) (sv_reservation_seconds sv) (sv_max_active sv) active.

Definition _capacity_for (sv : Service) (host : string) : res nat :=
  match sv_default sv with
  | Some c => Ok c
  | None => match sv_capacities sv !! host with
            | Some c => Ok c
            | None => throw DependencyUnavailable "worker capacity is not configured for deployment host"
            end
  end.

(** [sorted] hosts, each object once *)
Definition _capacity_targets (sv : Service) : list nat :=
  match sv_default sv with
  | Some c => [c]
  | None => fromkeys (omap (λ h, sv_capacities sv !! h) (sorted_text (map_to_list (sv_capacities sv)).*1))
  end.

(** ** Digests and names *)

Definition budget_fingerprint_json (b : WorkerBudget) : json := match wb_fingerprint b with Some s => JStr s | None => JNull end.
Definition resource_json (q : DeploymentResourceRequest) : json :=
  JObj [("rank", JInt (rank (rq_rank q))); ("host_id", JStr (host_id (rq_rank q))); ("worker_id", JStr (worker_id (rq_rank q)));
        ("device_id", JStr (device_id (rq_rank q))); ("budget_host_id", JStr (wb_host_id (rq_budget q)));
        ("budget_memory_bytes", JInt (wb_memory_bytes (rq_budget q))); ("budget_max_jobs", JInt (wb_max_jobs (rq_budget q)));
        ("budget_physical_host_fingerprint", budget_fingerprint_json (rq_budget q)); ("memory_bytes", JInt (rq_memory q))].

Definition _plan_digest (d : ModelDeployment) (resources : list DeploymentResourceRequest) : string :=
  sha256_hex (json_dumps (JObj [("schema", JStr "sonder.model-deployment-admission.v1"); ("deployment_digest", JStr (digest d));
    ("cluster_id", JStr (cluster_id d)); ("deployment_id", JStr (deployment_id d)); ("revision", JInt (revision d));
    ("reservation_group", JStr (reservation_group d)); ("resources", JArr (List.map resource_json resources))])).

Definition nul : string := String (ascii_of 0) "".
Definition _job_id (d : ModelDeployment) (plan : string) (r : Z) : string :=
  "md-" +:+ String.substring 0 48 (sha256_hex (join_text nul [cluster_id d; reservation_group d; digest d; plan; pretty r]))
  +:+ "-" +:+ pretty r.
Definition _request_digest (plan : string) (q : DeploymentResourceRequest) : string :=
  sha256_hex (join_text nul [plan; pretty (rank (rq_rank q)); host_id (rq_rank q); worker_id (rq_rank q); device_id (rq_rank q);
                             pretty (rq_memory q)]).

(** ** Admission *)

Fixpoint check_resources (l : list (ModelRank * dyn DeploymentResourceRequest)) : res (list DeploymentResourceRequest) :=
  match l with
  | [] => Ok []
  | (expected, q) :: rest =>
      q' ← inst_of TypeError "deployment resources must contain typed requests" q;
      _ ← require (bool_decide (rq_rank q' = expected)) ValueError "deployment resources must preserve manifest rank order";
      _ ← require (String.eqb (wb_host_id (rq_budget q')) (host_id expected)) ValueError
            "deployment resource budget host must match rank host";
      _ ← require (negb ((wb_memory_bytes (rq_budget q') =? 0) || (wb_memory_bytes (rq_budget q') <? rq_memory q'))) CapacityExceeded
            "deployment resource demand exceeds worker budget";
      rest' ← check_resources rest;
      Ok (q' :: rest')
  end.

Definition _validate_resources (d : ModelDeployment) (resources : dyn (list (dyn DeploymentResourceRequest)))
  : res (list DeploymentResourceRequest) :=
  l ← inst_of TypeError "deployment resources must be an immutable tuple" resources;
  _ ← require (length l =? length (ranks d))%nat ValueError "deployment requires exactly one resource request per rank";
  check_resources (zip (ranks d) l).

(** [isinstance(exc, SonderError)] *)
Definition is_sonder_error (e : exn) : bool :=
  match exn_cls e with
  | CapacityExceeded | DependencyUnavailable | InvalidInput | Conflict _ | Forbidden _ | NotFound _ => true
  | _ => false
  end.

Definition unresolved : string := "deployment admission cleanup is unresolved".

Section Admission.
  Context {E W : Type} `{CapacityPort E W}.

(** The attempts made and what the loop ended with. *)
Fixpoint reserve_ranks (env : nat → E) (d : ModelDeployment) (plan : string) (seconds : Z) (i : nat)
  (todo : list (DeploymentResourceRequest * nat)) (store : nat → W) (attempted : list (nat * string)) (leases : list LeaseBinding)
  : (nat → W) * list (nat * string) * res (list LeaseBinding) :=
  match todo with
  | [] => (store, attempted, Ok leases)
  | (q, c) :: rest =>
      let job := _job_id d plan (rank (rq_rank q)) in
      let attempted' := attempted ++ [(c, job)] in
      let '(w1, got) := p_reserve (env i) (rq_budget q) job (_request_digest plan q) (rq_memory q) seconds (store c) in
      let store1 := <[c := w1]> store in
      match got with
      | Err e => (store1, attempted', Err e)
      | Ok Foreign => (store1, attempted', throw DependencyUnavailable "worker returned an invalid deployment reservation")
      | Ok (Inst lease) =>
          if negb (String.eqb (cr_job_id lease) job && (cr_memory_bytes lease =? rq_memory q)
                   && mem (cr_state lease) [RESERVED; DISPATCHED])
          then (store1, attempted', throw DependencyUnavailable "worker deployment reservation identity does not match request")
          else if bool_decide (cr_state lease = RESERVED) then
            let '(w2, out) := p_dispatch (env i) job (cr_token lease) (store1 c) in
            let store2 := <[c := w2]> store1 in
            match out with
            | Err e => (store2, attempted', Err e)
            | Ok _ =>
                let lease' := MkReservation (cr_job_id lease) (cr_token lease) (cr_memory_bytes lease) (cr_expires_at lease)
                                (cr_fingerprint lease) DISPATCHED in
                reserve_ranks env d plan seconds (S i) rest store2 attempted' (leases ++ [MkBinding c lease'])
            end
          else reserve_ranks env d plan seconds (S i) rest store1 attempted' (leases ++ [MkBinding c lease])
      end
  end.

(** Releases every job; the errors. *)
Fixpoint release_all (e : E) (l : list (nat * string)) (store : nat → W) : (nat → W) * list exn :=
  match l with
  | [] => (store, [])
  | (c, job) :: rest =>
      let '(w, out) := p_release e job (store c) in
      let '(store', errors) := release_all e rest (<[c := w]> store) in
      (store', match out with Ok _ => errors | Err x => x :: errors end)
  end.

Definition reservation_of (q : DeploymentResourceRequest) (b : LeaseBinding) : res DeploymentReservation :=
  Reservation_init (rank (rq_rank q)) (host_id (rq_rank q)) (worker_id (rq_rank q)) (device_id (rq_rank q))
    (cr_job_id (lb_lease b)) (cr_memory_bytes (lb_lease b)).

Definition admit_deployment (env : nat → E) (sv : Service) (store : nat → W) (deployment : dyn ModelDeployment)
  (resources : dyn (list (dyn DeploymentResourceRequest))) : Service * (nat → W) * res DeploymentAdmissionReceipt :=
  let prepared :=
    d ← inst_of TypeError "deployment must be a ModelDeployment" deployment;
    l ← _validate_resources d resources;
    targets ← mapM_res (λ q, _capacity_for sv (host_id (rq_rank q))) l;
    Ok (d, l, targets) in
  match prepared with
  | Err e => (sv, store, Err e)
  | Ok (d, l, targets) =>
      let plan := _plan_digest d l in
      let key := (cluster_id d, reservation_group d) in
      match sv_active sv !! key with
      | Some prior =>
          if String.eqb (ad_deployment_digest (ac_receipt prior)) (digest d) && String.eqb (ad_plan_digest (ac_receipt prior)) plan
          then (sv, store, Ok (ac_receipt prior))
          else (sv, store, throw (Conflict "CONFLICT") "deployment reservation group is already bound to another admission")
      | None =>
          if sv_max_active sv <=? Z.of_nat (size (sv_active sv))
          then (sv, store, throw CapacityExceeded "deployment admission capacity is full")
          else
            match reserve_ranks env d plan (sv_reservation_seconds sv) 0 (zip l targets) store [] [] with
            | (store1, attempted, Err e) =>
                let '(store2, errors) := release_all (env 0%nat) (rev attempted) store1 in
                (sv, store2,
                 if negb (bool_decide (errors = [])) then throw DependencyUnavailable unresolved
                 else if is_sonder_error e then Err e else throw DependencyUnavailable "deployment resource admission failed")
            | (store1, _, Ok leases) =>
                match (entries ← mapM_res (λ qb, reservation_of qb.1 qb.2) (zip l leases);
                       Receipt_init (cluster_id d) (digest d) (reservation_group d) plan entries) with
                | Ok receipt => (with_active sv (<[key := MkActive receipt leases]> (sv_active sv)), store1, Ok receipt)
                | Err e => (sv, store1, Err e)
                end
            end
      end
  end.

Definition release (e : E) (sv : Service) (store : nat → W) (receipt : dyn DeploymentAdmissionReceipt)
  : Service * (nat → W) * res DeploymentAdmissionReceipt :=
  match receipt with
  | Foreign => (sv, store, throw TypeError "deployment admission receipt is invalid")
  | Inst r =>
      let key := (ad_cluster_id r, ad_reservation_group r) in
      match sv_active sv !! key with
      | Some active =>
          if bool_decide (ac_receipt active = r) then
            let '(store', errors) :=
              release_all e (rev ((λ b, (lb_capacity b, cr_job_id (lb_lease b))) <$> ac_leases active)) store in
            if negb (bool_decide (errors = [])) then (sv, store', throw DependencyUnavailable unresolved)
            else (with_active sv (delete key (sv_active sv)), store', Ok r)
          else (sv, store, throw (NotFound "NOT_FOUND") "deployment admission was not found")
      | None => (sv, store, throw (NotFound "NOT_FOUND") "deployment admission was not found")
      end
  end.

(** The worker passes, with the budget of rows that remains. *)
Fixpoint reconcile_targets (e : E) (targets : list nat) (remaining : Z) (store : nat → W)
  : (nat → W) * res (list CapacityReconciliation) :=
  match targets with
  | [] => (store, Ok [])
  | c :: rest =>
      let '(w, out) := p_reconcile e remaining (store c) in
      let store' := <[c := w]> store in
      match out with
      | Err x => (store', Err x)
      | Ok Foreign => (store', throw DependencyUnavailable "worker returned invalid reconciliation evidence")
      | Ok (Inst result) =>
          if remaining - cn_inspected result <=? 0 then (store', Ok [result])
          else let '(store2, more) := reconcile_targets e rest (remaining - cn_inspected result) store' in
               (store2, results ← more; Ok (result :: results))
      end
  end.

Definition affected_plans (sv : Service) (expired : list string) : list string :=
  sorted_text ((λ a, ad_plan_digest (ac_receipt a)) <$>
    filter (λ a, existsb (λ b, mem (cr_job_id (lb_lease b)) expired) (ac_leases a) = true) (map_to_list (sv_active sv)).*2).

Definition reconcile (e : E) (sv : Service) (store : nat → W) (limit : pyval) : (nat → W) * res DeploymentReconciliation :=
  match check_int 1 _MAX_RECONCILIATION_ROWS ValueError "deployment reconciliation limit must be within 1..1024" limit with
  | Err x => (store, Err x)
  | Ok n =>
      match reconcile_targets e (_capacity_targets sv) n store with
      | (store', Err x) => (store', Err x)
      | (store', Ok []) => (store', throw DependencyUnavailable "worker capacity reconciliation is not configured")
      | (store', Ok ((first :: _) as results)) =>
          let expired := flat_map expired_job_ids results in
          (store', Reconciliation_init (cn_observed_at first) expired (affected_plans sv expired)
                     (foldr Z.add 0 (cn_inspected <$> results)))
      end
  end.

End Admission.

(** ** The SQLite worker *)

Record Mark := MkMark { mk_reserve_now : Z; mk_token : string; mk_measured : string; mk_dispatch_now : Z }.

#[export] Instance SQLiteCapacityPort : CapacityPort Mark CapacityDB := {
  p_reserve m budget job sha memory seconds db :=
    let out := WorkerCapacity.reserve_capacity db budget job sha (PInt memory) (PInt seconds) (mk_measured m) (mk_token m) (mk_reserve_now m) in
    (committed db out, r ← out; Ok (Inst r.2));
  p_dispatch m job token db :=
    match dispatch_capacity db job token (mk_dispatch_now m) with Ok db' => (db', Ok tt) | Err e => (db, Err e) end;
  p_release _ job db := (release_capacity db job, Ok tt);
  p_reconcile m limit db :=
    let out := WorkerCapacity.reconcile_capacity db (mk_reserve_now m) (PInt limit) in (committed db out, r ← out; Ok (Inst r.2))
}.

Definition sqlite_running (db : CapacityDB) (job : string) : option Z :=
  r ← leases db !! job; if bool_decide (lr_state r = DISPATCHED) then Some (lr_memory r) else None.
Definition sqlite_pending (db : CapacityDB) (job : string) : option (string * Z) :=
  r ← leases db !! job; if bool_decide (lr_state r = RESERVED) then Some (lr_token r, lr_memory r) else None.

Lemma running_step o id x x' : is_reserve o = true → lease_step o id x x' →
  (x ≫= λ r, if bool_decide (lr_state r = DISPATCHED) then Some (lr_memory r) else None)
  = (x' ≫= λ r, if bool_decide (lr_state r = DISPATCHED) then Some (lr_memory r) else None).
Proof.
  intros Ho Hs. destruct Hs as [x|r n Hn Hd|r n -> Hr Hl|r -> Hr|x ? ? ? ? ? ? n ? ? ? -> Hre]; try done; cbn.
  - unfold due in Hd. to_prop. by rewrite bool_decide_false by congruence.
  - destruct x as [r|]; [|done]. cbn. rewrite bool_decide_false; [done|].
    destruct Hre as [Hd|[? _]]; [unfold due in Hd; to_prop|]; congruence.
Qed.

Lemma reserve_pending db budget job sha memory seconds measured token now db' c :
  WorkerCapacity.reserve_capacity db budget job sha memory seconds measured token now = Ok (db', c) →
  cr_state c = RESERVED ∧ sqlite_pending db' job = Some (cr_token c, cr_memory_bytes c).
Proof.
  intros Er. unfold sqlite_pending.
  apply reserve_ok in Er as (demand & fp & expires & _ & _ & _ & _ & _ & _ & _ & [(r & Hr & Hs & _ & _ & _ & -> & ->)|(_ & _ & -> & ->)]).
  - rewrite Hr. cbn. by rewrite bool_decide_true.
  - cbn. by rewrite lookup_insert_eq.
Qed.

#[export] Program Instance SQLiteCapacityLaws : CapacityLaws Mark CapacityDB := {
  running := sqlite_running;
  pending := sqlite_pending
}.
Next Obligation.
  intros m budget job sha memory seconds db db' r [= <- <-]. split.
  - intros j. symmetry.
    exact (running_step (Reserve budget job sha (PInt memory) (PInt seconds) (mk_measured m) (mk_token m) (mk_reserve_now m)) j _ _
             eq_refl (cap_steps db _ j)).
  - intros lease Hl Hj. destruct (WorkerCapacity.reserve_capacity _ _ _ _ _ _ _ _ _) as [[db' c]|] eqn:Er; [|done]. cbn in Hl |- *.
    injection Hl as <-. destruct (reserve_pending _ _ _ _ _ _ _ _ _ _ _ Er) as [-> Hp]. exact Hp.
Qed.
Next Obligation.
  intros m job token db db' r Hd. cbn in Hd. unfold dispatch_capacity, conflict in Hd.
  destruct (leases db !! job) as [x|] eqn:Hx; [|by injection Hd as <- <-].
  destruct (_ && _) eqn:E; injection Hd as <- <-; [|done]. to_prop. split.
  - intros j Hj. unfold sqlite_running. cbn. by rewrite lookup_insert_ne.
  - exists (lr_memory x). unfold sqlite_running, sqlite_pending. cbn. rewrite Hx, lookup_insert_eq. cbn.
    rewrite bool_decide_true by done. apply String.eqb_eq in H as <-. done.
Qed.
Next Obligation.
  intros m job db db' r [= <- <-]. unfold release_capacity. destruct (leases db !! job) as [x|] eqn:Hx; cbn.
  - case_bool_decide as Hs; cbn.
    + split; [intros j Hj|]; unfold sqlite_running; cbn; [by rewrite lookup_insert_ne|by rewrite lookup_insert_eq].
    + split; [done|]. unfold sqlite_running. rewrite Hx. cbn. by rewrite bool_decide_false.
  - split; [done|]. unfold sqlite_running. by rewrite Hx.
Qed.

(** ** Names *)

Lemma app_text_inj s : ∀ s' t t', s +:+ t = s' +:+ t' → String.length s = String.length s' → s = s' ∧ t = t'.
Proof.
  induction s as [|a s IH]; intros [|b s'] t t' He Hl; try done.
  cbn in He. injection He as -> He. destruct (IH s' t t' He) as [-> ->]; [by injection Hl|done].
Qed.

Lemma length_substring n : ∀ s, (n ≤ String.length s)%nat → String.length (String.substring 0 n s) = n.
Proof. induction n as [|n IH]; intros [|a s] Hl; cbn in *; try done; try lia. f_equal. apply IH. lia. Qed.

Lemma substring_forallb p n : ∀ s, str_forallb p s = true → str_forallb p (String.substring 0 n s) = true.
Proof.
  induction n as [|n IH]; intros [|a s] Hp; try done. cbn in *. apply andb_true_iff in Hp as [-> Hp]. by apply IH.
Qed.

Lemma job_id_inj d plan r r' : _job_id d plan r = _job_id d plan r' → r = r'.
Proof.
  unfold _job_id. intros He. apply app_text_inj in He as [_ He]; [|done].
  assert (∀ m, String.length (String.substring 0 48 (sha256_hex m)) = 48%nat) as Hlen.
  { intros m. apply length_substring. pose proof (sha256_hex_is_digest m) as Hd. unfold is_digest in Hd. to_prop.
    apply Nat.eqb_eq in H0. lia. }
  apply app_text_inj in He as [_ He]; [|by rewrite !Hlen]. apply app_text_inj in He as [_ He]; [|done]. by apply (inj pretty) in He.
Qed.

(** ** The loops *)

Section Loops.
  Context {E W : Type} `{CapacityLaws E W}.

Definition job_of (d : ModelDeployment) (plan : string) (qc : DeploymentResourceRequest * nat) : nat * string :=
  (qc.2, _job_id d plan (rank (rq_rank qc.1))).

(** What runs is the same, except for the jobs of a list. *)
Definition same_but (l : list (nat * string)) (store store' : nat → W) : Prop :=
  ∀ c j, (c, j) ∉ l → running (store' c) j = running (store c) j.

Lemma same_but_refl l store : same_but l store store.
Proof. done. Qed.

Lemma same_but_trans l k m store1 store2 store3 : l ⊆ m → k ⊆ m → same_but l store1 store2 → same_but k store2 store3 →
  same_but m store1 store3.
Proof. intros Hl Hk H1 H2 c j Hn. rewrite H2 by set_solver. apply H1. set_solver. Qed.

(** A step of the object [c] on the job [j]. *)
Lemma same_but_step l c (store : nat → W) w : (∀ j, (c, j) ∉ l → running w j = running (store c) j) → same_but l store (<[c := w]> store).
Proof.
  intros Hw c' j Hn. destruct (decide (c' = c)) as [->|Hne]; [rewrite fn_lookup_insert; by apply Hw|by rewrite fn_lookup_insert_ne].
Qed.

Lemma reserve_ranks_spec env d plan seconds todo : ∀ i store attempted ls store' attempted' out,
  NoDup (job_of d plan <$> todo).*2 →
  reserve_ranks env d plan seconds i todo store attempted ls = (store', attempted', out) →
  match out with
  | Ok ls' => ∃ new, ls' = ls ++ new ∧ same_but (job_of d plan <$> todo) store store'
      ∧ Forall2 (λ qc b, lb_capacity b = qc.2 ∧ cr_job_id (lb_lease b) = (job_of d plan qc).2
                       ∧ cr_memory_bytes (lb_lease b) = rq_memory qc.1
                       ∧ running (store' qc.2) (job_of d plan qc).2 = Some (rq_memory qc.1)) todo new
  | Err _ => ∃ k, attempted' = attempted ++ take k (job_of d plan <$> todo) ∧ same_but (take k (job_of d plan <$> todo)) store store'
  end.
Proof.
  induction todo as [|[q c] todo IH]; intros i store attempted ls store' attempted' out Hnd Hrun.
  - injection Hrun as <- <- <-. exists []. rewrite app_nil_r. split_and!; [done|apply same_but_refl|constructor].
  - cbn [fmap list_fmap] in Hnd |- *. inversion_clear Hnd as [|? ? Hnot Hnd']. cbn [reserve_ranks] in Hrun.
    set (job := _job_id d plan (rank (rq_rank q))) in *. change (job_of d plan (q, c)) with (c, job) in *.
    set (goal := match out with Ok _ => _ | Err _ => _ end).
    assert (∀ store2 b, same_but [(c, job)] store store2 → running (store2 c) job = Some (rq_memory q) → lb_capacity b = c →
      cr_job_id (lb_lease b) = job → cr_memory_bytes (lb_lease b) = rq_memory q →
      reserve_ranks env d plan seconds (S i) todo store2 (attempted ++ [(c, job)]) (ls ++ [b]) = (store', attempted', out) → goal) as Hrec.
    { intros store2 b H1 Hrun2 Hb1 Hb2 Hb3 Hr. apply IH in Hr; [|done]. unfold goal. destruct out as [ls'|e].
      - destruct Hr as (new & -> & Hs & Hall). exists (b :: new). rewrite <-(assoc_L (++)). split_and!; [done| |].
        + eapply same_but_trans; [| |exact H1|exact Hs]; set_solver.
        + constructor; [|done]. cbn. split_and!; try done. rewrite Hs; [done|]. intros Hin. apply Hnot.
          apply list_elem_of_fmap. by exists (c, job).
      - destruct Hr as (k & -> & Hs). exists (S k). rewrite <-(assoc_L (++)). split; [done|]. cbn [take].
        eapply same_but_trans; [| |exact H1|exact Hs]; set_solver. }
    assert (∀ store2 e, same_but [(c, job)] store store2 → (store2, attempted ++ [(c, job)], Err e) = (store', attempted', out) → goal) as Herr.
    { intros store2 e H1 [= <- <- <-]. exists 1%nat. split; [done|]. exact H1. }
    destruct (p_reserve _ _ _ _ _ _ _) as [w1 got] eqn:Er. apply reserve_law in Er as [Hsame Hlease].
    assert (same_but [(c, job)] store (<[c := w1]> store)) as H1 by (apply same_but_step; intros; apply Hsame).
    destruct got as [[lease|]|e]; [|by eapply Herr..]. destruct (negb _) eqn:Ek; [by eapply Herr|]. to_prop.
    match goal with Hx : (cr_job_id _ =? _)%string = true |- _ => apply String.eqb_eq in Hx as Hj end. specialize (Hlease lease eq_refl Hj).
    case_bool_decide as Hst.
    + rewrite Hst in Hlease. rewrite fn_lookup_insert in Hrun. destruct (p_dispatch _ _ _ _) as [w2 out2] eqn:Ed.
      apply dispatch_law in Ed as [Hother Hd].
      assert (same_but [(c, job)] store (<[c := w2]> (<[c := w1]> store))) as Hss.
      { intros c' j Hn. destruct (decide (c' = c)) as [->|Hne]; [|by rewrite !fn_lookup_insert_ne].
        rewrite fn_lookup_insert, Hother, Hsame by set_solver. done. }
      destruct out2 as [u|e]; [|by eapply Herr]. destruct Hd as (m & Hp & Hm). rewrite Hlease in Hp. injection Hp as Hp.
      eapply Hrec; [exact Hss|rewrite fn_lookup_insert; congruence|..|exact Hrun]; done.
    + eapply Hrec; [exact H1|..|exact Hrun]; try done. rewrite fn_lookup_insert.
      destruct (cr_state lease); [done| |]; [by rewrite Hlease; f_equal|]. rewrite !elem_of_cons, elem_of_nil in *. naive_solver.
Qed.

Lemma release_all_spec e l : ∀ store store' errors, release_all e l store = (store', errors) →
  same_but l store store' ∧ (∀ c j, running (store' c) j = running (store c) j ∨ running (store' c) j = None)
  ∧ (errors = [] → ∀ c j, (c, j) ∈ l → running (store' c) j = None).
Proof.
  induction l as [|[c job] l IH]; intros store store' errors Hr.
  - injection Hr as <- <-. split_and!; [done|by left|]. intros _ c j Hin. by apply elem_of_nil in Hin.
  - cbn [release_all] in Hr. destruct (p_release _ _ _) as [w out] eqn:Ew. apply release_law in Ew as [Hother Ho].
    destruct (release_all e l _) as [store2 errs] eqn:El. injection Hr as <- <-. destruct (IH _ _ _ El) as (H1 & H2 & H3).
    assert (∀ c' j, running ((<[c := w]> store) c') j = running (store c') j ∨ running ((<[c := w]> store) c') j = None) as Hw.
    { intros c' j. destruct (decide (c' = c)) as [->|Hne]; [|rewrite fn_lookup_insert_ne by done; by left]. rewrite fn_lookup_insert.
      destruct (decide (j = job)) as [->|Hj]; [|left; by apply Hother]. destruct out; [by right|done]. }
    split_and!.
    + eapply same_but_trans; [| | |exact H1]; [|set_solver|]; [reflexivity|]. apply same_but_step. intros j Hj. apply Hother. set_solver.
    + intros c' j. destruct (H2 c' j) as [->|?]; [apply Hw|by right].
    + intros He c' j Hin. destruct out as [u|x]; [|done]. destruct (decide ((c', j) ∈ l)) as [?|Hn]; [by apply H3|].
      apply elem_of_cons in Hin as [[= -> ->]|Hin]; [|done]. rewrite H1 by done. by rewrite fn_lookup_insert.
Qed.
End Loops.

(** ** A receipt can always be written *)

Lemma stable_identity_ok s : is_stable_id s = true → is_identity s = true.
Proof.
  destruct s as [|a s]; [done|]. unfold is_stable_id, is_identity. intros Hs. to_prop. rewrite H, H0, andb_true_r. cbn.
  eapply str_forallb_impl; [|done]. unfold is_stable_char, is_identity_char. intros b. destruct (is_alnum b); [done|]. cbn.
  destruct (bool_decide (b = ":"%char)); [by rewrite !orb_true_r|]. by rewrite orb_false_r.
Qed.

Lemma rank_text r : 0 <= r <= 255 → str_forallb is_identity_char (pretty r) = true ∧ (String.length (pretty r) <= 3)%nat.
Proof.
  intros Hr. assert (forallb (λ n, str_forallb is_identity_char (pretty (Z.of_nat n)) && (String.length (pretty (Z.of_nat n)) <=? 3)%nat)
    (seq 0 256) = true) as Hall by (vm_compute; reflexivity).
  rewrite forallb_forall in Hall. specialize (Hall (Z.to_nat r)). rewrite Z2Nat.id in Hall by lia.
  rewrite in_seq in Hall. specialize (Hall ltac:(lia)). apply andb_true_iff in Hall as [? ?%Nat.leb_le]. done.
Qed.

Lemma job_id_identity d plan r : 0 <= r <= 255 → is_identity (_job_id d plan r) = true.
Proof.
  intros Hr. unfold _job_id. set (h := String.substring 0 48 _).
  assert (str_forallb is_identity_char h = true ∧ String.length h = 48%nat) as [Hc Hl].
  { unfold h. pose proof (sha256_hex_is_digest (join_text nul [cluster_id d; reservation_group d; digest d; plan; pretty r])) as Hd.
    unfold is_digest in Hd. to_prop. apply Nat.eqb_eq in H0. split; [|apply length_substring; lia].
    apply substring_forallb. eapply str_forallb_impl; [|done]. unfold is_hex_char, is_identity_char, is_alnum, ascii_between. intros a Ha.
    rewrite !orb_true_iff, !andb_true_iff, !N.leb_le in *. lia. }
  destruct (rank_text r Hr) as [Hp Hlp]. clearbody h.
  change ("md-" +:+ h +:+ "-" +:+ pretty r) with (String "m" (String "d" (String "-" (h +:+ "-" +:+ pretty r)))).
  unfold is_identity.
  assert (str_forallb is_identity_char (String "d" (String "-" (h +:+ "-" +:+ pretty r))) = true) as ->.
  { cbn. rewrite str_forallb_app, Hc. cbn. done. }
  apply Nat.leb_le. cbn [String.length]. rewrite !text_length_app. cbn [String.length]. lia.
Qed.

Definition request_ok (q : DeploymentResourceRequest) : Prop :=
  Request_init (Inst (rq_rank q)) (Inst (rq_budget q)) (PInt (rq_memory q)) = Ok q.
Definition entry_of (d : ModelDeployment) (plan : string) (q : DeploymentResourceRequest) : DeploymentReservation :=
  MkEntry (rank (rq_rank q)) (host_id (rq_rank q)) (worker_id (rq_rank q)) (device_id (rq_rank q))
    (_job_id d plan (rank (rq_rank q))) (rq_memory q).
Definition receipt_of (d : ModelDeployment) (l : list DeploymentResourceRequest) : DeploymentAdmissionReceipt :=
  MkAdmission (cluster_id d) (digest d) (reservation_group d) (_plan_digest d l) (entry_of d (_plan_digest d l) <$> l).

Lemma check_resources_ok rs : ∀ l l', length l = length rs → check_resources (zip rs (Inst <$> l)) = Ok l' →
  l' = l ∧ rq_rank <$> l = rs.
Proof.
  induction rs as [|a rs IH]; intros [|q l] l' Hl Hc; cbn in Hl; try done; [by injection Hc as <-|].
  cbn [zip_with fmap list_fmap check_resources] in Hc. cbn [inst_of] in Hc. res_inv. to_prop.
  match goal with H : check_resources _ = Ok _ |- _ => apply IH in H as [-> Hr]; [|done] end. split; [done|]. by f_equal.
Qed.

Lemma rank_ok_fields a : Recovery.rank_ok a →
  0 <= rank a <= 255 ∧ is_stable_id (host_id a) = true ∧ is_stable_id (worker_id a) = true ∧ is_stable_id (device_id a) = true.
Proof.
  unfold Recovery.rank_ok, ModelRank_init, _integer, Deployment._identity. intros H. res_inv.
  repeat match goal with H : py_str _ = Some _ |- _ => injection H as <- end. done.
Qed.

Lemma reservation_total d plan q b : Recovery.rank_ok (rq_rank q) → request_ok q →
  cr_job_id (lb_lease b) = _job_id d plan (rank (rq_rank q)) → cr_memory_bytes (lb_lease b) = rq_memory q →
  reservation_of q b = Ok (entry_of d plan q).
Proof.
  intros (Hr & Hh & Hw & Hd)%rank_ok_fields Hq Hj Hm. unfold reservation_of, Reservation_init, _identity. rewrite Hj, Hm.
  unfold request_ok, Request_init in Hq. cbn [inst_of] in Hq. res_inv.
  rewrite (require_true _ _ _ (proj2 (andb_true_iff _ _) (conj (proj2 (Z.leb_le _ _) (proj1 Hr)) (proj2 (Z.leb_le _ _) (proj2 Hr))))).
  rewrite !check_str_PStr by first [by apply stable_identity_ok | by apply job_id_identity]. cbn [mbind res_bind].
  unfold bounded_positive in *. res_inv. by rewrite check_int_PInt.
Qed.

Lemma entries_total d plan l new : Forall Recovery.rank_ok (rq_rank <$> l) → Forall request_ok l →
  Forall2 (λ q b, cr_job_id (lb_lease b) = _job_id d plan (rank (rq_rank q)) ∧ cr_memory_bytes (lb_lease b) = rq_memory q) l new →
  mapM_res (λ qb, reservation_of qb.1 qb.2) (zip l new) = Ok (entry_of d plan <$> l).
Proof.
  intros Hr Hq Hb. induction Hb as [|q b l new [Hj Hm] _ IH]; [done|]. cbn in Hr. inversion_clear Hr as [|? ? Hr1 Hr'].
  inversion_clear Hq as [|? ? Hq1 Hq']. cbn [zip_with mapM_res fst snd]. rewrite (reservation_total d plan q b) by done. cbn. by rewrite IH.
Qed.

Lemma receipt_total d l new : Recovery.deployment_ok d → Forall request_ok l → rq_rank <$> l = ranks d →
  Forall2 (λ q b, cr_job_id (lb_lease b) = _job_id d (_plan_digest d l) (rank (rq_rank q)) ∧ cr_memory_bytes (lb_lease b) = rq_memory q) l new →
  (entries ← mapM_res (λ qb, reservation_of qb.1 qb.2) (zip l new);
   Receipt_init (cluster_id d) (digest d) (reservation_group d) (_plan_digest d l) entries) = Ok (receipt_of d l).
Proof.
  intros [Hd Hrk] Hq Hl Hb. apply Recovery.rebuild_ok in Hd as [(Hc & _ & _ & Hg & _) (Hlen & _ & Hidx & _)].
  rewrite (entries_total d (_plan_digest d l)); [|by rewrite Hl|done|done]. cbn [mbind res_bind].
  unfold Receipt_init, _identity, _digest. rewrite !check_str_PStr by first [by apply stable_identity_ok | apply sha256_hex_is_digest].
  cbn [mbind res_bind]. assert (length l = length (ranks d)) as Hll by (by rewrite <-Hl, length_fmap).
  rewrite (bool_decide_false (_ = [])) by (intros He; apply (f_equal length) in He; rewrite length_fmap in He; unfold zlen in Hlen; simpl in He; lia).
  cbn [negb require mbind res_bind]. rewrite bool_decide_true; [done|]. apply list_eq. intros i. rewrite !list_lookup_fmap, !length_fmap.
  destruct (l !! i) as [q|] eqn:Hi; cbn [fmap option_fmap option_map entry_of dr_rank].
  - assert (rank (rq_rank q) = Z.of_nat i) as -> by (apply Hidx; by rewrite <-Hl, list_lookup_fmap, Hi).
    apply lookup_lt_Some in Hi. by rewrite (proj2 (lookup_seq _ _ _ _) (conj eq_refl Hi)).
  - apply lookup_ge_None in Hi. by rewrite lookup_seq_ge.
Qed.

Lemma elem_of_rev {A} (x : A) l : x ∈ rev l ↔ x ∈ l.
Proof. by rewrite !list_elem_of_In, <-in_rev. Qed.

Lemma Forall2_unzip {A B C} (P : A * B → C → Prop) (R : A → B → Prop) l ts new :
  Forall2 R l ts → Forall2 P (zip l ts) new → Forall2 (λ a c, ∃ b, R a b ∧ P (a, b) c) l new.
Proof.
  intros Hr. revert new. induction Hr as [|a b l ts Hab _ IH]; intros new Hp; inversion_clear Hp; constructor; eauto.
Qed.

(** ** Admission is all or nothing *)

Section Outcomes.
  Context {E W : Type} `{CapacityLaws E W}.

(** The jobs of a plan, each on the capacity of its host. *)
Definition planned (sv : Service) (d : ModelDeployment) (l : list DeploymentResourceRequest) (c : nat) (j : string) : Prop :=
  ∃ q, q ∈ l ∧ _capacity_for sv (host_id (rq_rank q)) = Ok c ∧ j = _job_id d (_plan_digest d l) (rank (rq_rank q)).

Lemma planned_jobs sv d l targets : Forall2 (λ q c, _capacity_for sv (host_id (rq_rank q)) = Ok c) l targets →
  ∀ c j, (c, j) ∈ job_of d (_plan_digest d l) <$> zip l targets → planned sv d l c j.
Proof.
  intros Ht c j Hin. apply list_elem_of_fmap in Hin as ([q c'] & [= -> ->] & Hin). apply list_elem_of_lookup in Hin as [i Hi].
  apply lookup_zip_with_Some in Hi as (q0 & c0 & [= <- <-] & Hq & Hc). exists q. split_and!; [by eapply list_elem_of_lookup_2| |done].
  exact (Forall2_lookup_lr _ _ _ _ _ _ Ht Hq Hc).
Qed.

Lemma jobs_distinct d plan l targets : (∀ i q, l !! i = Some q → rank (rq_rank q) = Z.of_nat i) →
  NoDup (job_of d plan <$> zip l targets).*2.
Proof.
  intros Hi. apply NoDup_alt. intros i k x Hx Hy. rewrite !list_lookup_fmap in Hx, Hy.
  apply fmap_Some in Hx as (p & Hx & ->). apply fmap_Some in Hx as ([q c] & Hx & ->).
  apply fmap_Some in Hy as (p' & Hy & He). apply fmap_Some in Hy as ([q' c'] & Hy & ->). cbn [job_of fst snd] in He.
  apply job_id_inj in He. apply lookup_zip_with_Some in Hx as (? & ? & [= <- <-] & Hq & _), Hy as (? & ? & [= <- <-] & Hq' & _).
  apply Hi in Hq, Hq'. lia.
Qed.

(** The parts of a prepared admission. *)
Lemma prepared_ok sv d l l' targets : Recovery.deployment_ok d →
  _validate_resources d (Inst (Inst <$> l)) = Ok l' → mapM_res (λ q, _capacity_for sv (host_id (rq_rank q))) l' = Ok targets →
  l' = l ∧ rq_rank <$> l = ranks d ∧ Forall2 (λ q c, _capacity_for sv (host_id (rq_rank q)) = Ok c) l targets
  ∧ ∀ i q, l !! i = Some q → rank (rq_rank q) = Z.of_nat i.
Proof.
  intros [Hd _] Hv Ht. apply Recovery.rebuild_ok in Hd as [_ (_ & _ & Hidx & _)]. unfold _validate_resources in Hv. cbn [inst_of] in Hv. res_inv.
  match goal with H : (_ =? _)%nat = true |- _ => apply Nat.eqb_eq in H; rewrite length_fmap in H end.
  match goal with H : check_resources _ = Ok _ |- _ => apply check_resources_ok in H as [-> Hr]; [|done] end.
  split_and!; [done..|]. intros i q Hq. apply Hidx. by rewrite <-Hr, list_lookup_fmap, Hq.
Qed.

(** C11: an admission is all or nothing, over any worker that keeps the laws of the port.  A new receipt means
    that every rank of the plan runs on the capacity of its host with the memory it asked for, in the
    order of the ranks, and nothing else changed.  If the admission raises, the index of active
    admissions is unchanged and no job runs that did not run before, unless the error says that the
    cleanup is unresolved; jobs outside the plan are never touched. *)
Theorem admission_all_or_nothing env sv store d l sv' store' out :
  Recovery.deployment_ok d → Forall request_ok l →
  admit_deployment env sv store (Inst d) (Inst (Inst <$> l)) = (sv', store', out) →
  let key := (cluster_id d, reservation_group d) in
  match out with
  | Ok receipt =>
      (sv' = sv ∧ store' = store ∧ ac_receipt <$> sv_active sv !! key = Some receipt)
      ∨ (sv_active sv !! key = None ∧ receipt = receipt_of d l
         ∧ (∃ bs, sv' = with_active sv (<[key := MkActive receipt bs]> (sv_active sv))
              ∧ Forall2 (λ q b, _capacity_for sv (host_id (rq_rank q)) = Ok (lb_capacity b)
                              ∧ cr_job_id (lb_lease b) = dr_job_id (entry_of d (_plan_digest d l) q)
                              ∧ running (store' (lb_capacity b)) (cr_job_id (lb_lease b)) = Some (rq_memory q)) l bs)
         ∧ ∀ c j, ¬ planned sv d l c j → running (store' c) j = running (store c) j)
  | Err e =>
      sv' = sv ∧ (∀ c j, ¬ planned sv d l c j → running (store' c) j = running (store c) j)
      ∧ (exn_msg e ≠ unresolved → ∀ c j, running (store' c) j = running (store c) j ∨ running (store' c) j = None)
  end.
Proof.
  intros Hd Hq Hadm key. unfold admit_deployment in Hadm. cbn [inst_of mbind res_bind] in Hadm.
  destruct (_validate_resources d _) as [l'|e] eqn:Hv; cbn [mbind res_bind] in Hadm; [|injection Hadm as <- <- <-; split_and!; [done..|by left]].
  destruct (mapM_res _ l') as [targets|e] eqn:Ht; cbn [mbind res_bind] in Hadm; [|injection Hadm as <- <- <-; split_and!; [done..|by left]].
  destruct (prepared_ok sv d l l' targets Hd Hv Ht) as (-> & Hr & Hcap & Hidx). fold key in Hadm.
  destruct (sv_active sv !! key) as [prior|] eqn:Hk.
  { destruct (_ && _); injection Hadm as <- <- <-; [left; by split_and!|split_and!; [done..|by left]]. }
  destruct (_ <=? _); [injection Hadm as <- <- <-; split_and!; [done..|by left]|].
  set (plan := _plan_digest d l) in *. set (todo := zip l targets) in *.
  destruct (reserve_ranks _ _ _ _ _ _ _ _ _) as [[store1 attempted] got] eqn:El.
  apply reserve_ranks_spec in El; [|by apply jobs_distinct]. destruct got as [bs|e].
  - destruct El as (new & -> & Hsame & Hall). cbn [app] in Hadm. apply (Forall2_unzip _ _ _ _ _ Hcap) in Hall.
    assert (Forall2 (λ q b, cr_job_id (lb_lease b) = _job_id d plan (rank (rq_rank q)) ∧ cr_memory_bytes (lb_lease b) = rq_memory q) l new)
      as Hb by (eapply Forall2_impl; [exact Hall|]; by intros q b (c & _ & _ & ? & ? & _)).
    pose proof (receipt_total d l new Hd Hq Hr Hb) as Hrec. fold plan in Hrec. rewrite Hrec in Hadm. clear Hrec.
    injection Hadm as <- <- <-. right. split_and!; [done..| |].
    + exists new. split; [done|]. eapply Forall2_impl; [exact Hall|]. intros q b (c & Hc & Hbc & Hj & _ & Hrun). cbn in Hbc. subst c.
      rewrite Hj. by split_and!.
    + intros c j Hn. apply Hsame. intros Hin. by eapply Hn, planned_jobs.
  - destruct El as (k & -> & Hsame). cbn [app] in Hadm. destruct (release_all _ _ _) as [store2 errors] eqn:Era.
    apply release_all_spec in Era as (Hout & Hless & Hgone). injection Hadm as <- <- <-.
    set (tried := take k (job_of d plan <$> todo)) in *.
    assert (∀ c j, (c, j) ∈ tried → planned sv d l c j) as Hpl.
    { intros c j Hin. eapply planned_jobs; [exact Hcap|]. fold plan todo. rewrite <-(take_drop k). apply elem_of_app. by left. }
    assert (∀ c j, (c, j) ∉ tried → running (store2 c) j = running (store c) j) as Hother.
    { intros c j Hn. rewrite Hout by (by rewrite elem_of_rev). by apply Hsame. }
    assert (errors = [] → ∀ c j, running (store2 c) j = running (store c) j ∨ running (store2 c) j = None) as Hnone.
    { intros He c j. destruct (decide ((c, j) ∈ tried)) as [Hin|Hn]; [right; apply Hgone; [done|by rewrite elem_of_rev]|left; by apply Hother]. }
    case_bool_decide as He; cbn [negb]; [destruct (is_sonder_error e)|]; (split_and!; [done|intros c j Hn; apply Hother; eauto|]);
      try by intros _; apply Hnone. by intros Hm.
Qed.
End Outcomes.

Section Release.
  Context {E W : Type} `{CapacityLaws E W}.

(** C35: a release frees exactly the jobs of its receipt.  It succeeds only for the receipt that is active; after
    it no lease of the receipt runs, nothing else changed, the group is free, and the same receipt
    cannot be released again.  A release that raises keeps the receipt active. *)
Theorem release_frees e sv store r sv' store' out :
  release e sv store (Inst r) = (sv', store', out) →
  match out with
  | Ok r' => r' = r ∧ ∃ a, let key := (ad_cluster_id r, ad_reservation_group r) in
      sv_active sv !! key = Some a ∧ ac_receipt a = r ∧ sv' = with_active sv (delete key (sv_active sv))
      ∧ (∀ b, b ∈ ac_leases a → running (store' (lb_capacity b)) (cr_job_id (lb_lease b)) = None)
      ∧ (∀ c j, (∀ b, b ∈ ac_leases a → (lb_capacity b, cr_job_id (lb_lease b)) ≠ (c, j)) → running (store' c) j = running (store c) j)
      ∧ ∀ e2 store2, (release e2 sv' store2 (Inst r)).2 = throw (NotFound "NOT_FOUND") "deployment admission was not found"
  | Err x => sv' = sv ∧ (exn_msg x ≠ unresolved → store' = store)
  end.
Proof.
  intros Hrel. unfold release in Hrel. destruct (sv_active sv !! _) as [a|] eqn:Ha; [|by injection Hrel as <- <- <-].
  case_bool_decide as Hac; [|by injection Hrel as <- <- <-].
  destruct (release_all _ _ _) as [store2 errors] eqn:Er. apply release_all_spec in Er as (Hother & _ & Hgone).
  case_bool_decide as He; cbn [negb] in Hrel; injection Hrel as <- <- <-; [|split; [done|intros Hm; by destruct Hm]].
  split; [done|]. exists a. split_and!; try done.
  - intros b Hb. apply Hgone; [done|]. rewrite elem_of_rev. apply list_elem_of_fmap. by exists b.
  - intros c j Hn. apply Hother. rewrite elem_of_rev, list_elem_of_fmap. intros (b & Hcj & Hb). by eapply Hn.
  - intros e2 store3. unfold release. cbn [sv_active with_active]. by rewrite lookup_delete_eq.
Qed.
End Release.

(** ** Examples *)

Definition demo_host (h : string) : WorkerBudget := MkBudget h 100 1 (Some demo_fp).
Definition demo_requests : list DeploymentResourceRequest :=
  [MkRequest (MkRank 0 "h0" "w0" "gpu0") (demo_host "h0") 60; MkRequest (MkRank 1 "h1" "w1" "gpu0") (demo_host "h1") 60].
Definition demo_service : Service := MkService None {["h0" := 0%nat; "h1" := 1%nat]} 30 256 ∅.
Definition demo_env (t : Z) (i : nat) : Mark := MkMark t ("tok" +:+ pretty (Z.of_nat i)) demo_fp (t + 1000000).
Definition demo_admit (sv : Service) (store : nat → CapacityDB) (t : Z) :=
  admit_deployment (demo_env t) sv store (Inst Recovery.sample) (Inst (Inst <$> demo_requests)).
Definition demo_jobs : list string := (λ r, _job_id Recovery.sample (_plan_digest Recovery.sample demo_requests) r) <$> [0; 1].
(** What runs on the two hosts. *)
Definition demo_view (store : nat → CapacityDB) : list (option Z) := imap (λ c j, sqlite_running (store c) j) demo_jobs.

Lemma demo_requests_ok : Forall request_ok demo_requests.
Proof. repeat constructor; vm_compute; reflexivity. Qed.

Lemma admission_all_or_nothing_witness :
  let '(sv', store', out) := demo_admit demo_service (λ _, empty_capacity) 0 in
  ∃ receipt, out = Ok receipt ∧ receipt = receipt_of Recovery.sample demo_requests ∧ demo_view store' = [Some 60; Some 60].
Proof.
  destruct (demo_admit demo_service (λ _, empty_capacity) 0) as [[sv' store'] out] eqn:Ea.
  pose proof (admission_all_or_nothing _ _ _ _ _ _ _ _ Recovery.sample_ok demo_requests_ok Ea) as H. cbv zeta in H.
  destruct out as [receipt|e].
  - destruct H as [(_ & _ & Hk)|(_ & Hr & _)]; [cbn in Hk; discriminate Hk|]. exists receipt. split_and!; [reflexivity|exact Hr|].
    assert (demo_view store' = demo_view (demo_admit demo_service (λ _, empty_capacity) 0).1.2) as -> by (rewrite Ea; reflexivity).
    vm_compute. reflexivity.
  - exfalso. assert (is_ok (demo_admit demo_service (λ _, empty_capacity) 0).2 = true) as Hok by (vm_compute; reflexivity).
    rewrite Ea in Hok. discriminate Hok.
Defined.

Lemma release_frees_witness :
  let '(sv, store, out) := demo_admit demo_service (λ _, empty_capacity) 0 in
  let r := receipt_of Recovery.sample demo_requests in
  let '(sv', store', out') := release (demo_env 2000000 0) sv store (Inst r) in
  out' = Ok r ∧ sv_active sv' = ∅ ∧ demo_view store' = [None; None].
Proof.
  destruct (demo_admit demo_service (λ _, empty_capacity) 0) as [[sv store] out] eqn:Ea. intros r.
  assert (sv = (demo_admit demo_service (λ _, empty_capacity) 0).1.1 ∧ store = (demo_admit demo_service (λ _, empty_capacity) 0).1.2) as [-> ->]
    by (rewrite Ea; split; reflexivity). clear Ea.
  destruct (release _ _ _ _) as [[sv' store'] out'] eqn:Er.
  assert (out' = (release (demo_env 2000000 0) (demo_admit demo_service (λ _, empty_capacity) 0).1.1
    (demo_admit demo_service (λ _, empty_capacity) 0).1.2 (Inst r)).2) as Ho by (rewrite Er; reflexivity).
  assert (out' = Ok r) as -> by (rewrite Ho; vm_compute; reflexivity).
  destruct (release_frees _ _ _ _ _ _ _ Er) as (_ & a & _ & _ & Hs & _).
  split_and!; [reflexivity|rewrite Hs; vm_compute; reflexivity|].
  assert (demo_view store' = demo_view (release (demo_env 2000000 0) (demo_admit demo_service (λ _, empty_capacity) 0).1.1
    (demo_admit demo_service (λ _, empty_capacity) 0).1.2 (Inst r)).1.2) as -> by (rewrite Er; reflexivity).
  vm_compute. reflexivity.
Defined.

(** A service that starts over and is asked for a deployment that runs raises, and its cleanup releases
    the capacity of the running deployment. *)
Example readmission_releases_live_capacity :
  let store := (demo_admit demo_service (λ _, empty_capacity) 0).1.2 in
  let again := demo_admit demo_service store 5000000 in
  demo_view store = [Some 60; Some 60]
  ∧ again.2 = throw (Conflict "CONFLICT") "capacity job has already been dispatched or released"
  ∧ demo_view again.1.2 = [None; Some 60].
Proof. vm_compute. repeat split. Qed.

(** After an admission that failed because a host was full, the same plan is refused for good, though the
    host is free. *)
Example failed_admission_not_retryable :
  let full := cap_run empty_capacity [Reserve (demo_host "h1") "other" demo_fp (PInt 60) (PInt 30) demo_fp "t" 0; Dispatch "other" "t" 1000000] in
  let first := demo_admit demo_service (λ c, if (c =? 1)%nat then full else empty_capacity) 2000000 in
  let freed := λ c, release_capacity (first.1.2 c) "other" in
  first.2 = throw CapacityExceeded "worker catalog capacity is occupied"
  ∧ (demo_admit demo_service freed 9000000).2 = throw (Conflict "CONFLICT") "capacity job has already been dispatched or released".
Proof. vm_compute. repeat split. Qed.
