(* ===== verification/ComputeFabric.v ===== *)
(** Compute nodes, workload requests and the placement scheduler: [domain/compute_fabric.py].

    A frozen set is a finite set, a datetime the instant it denotes in microseconds, a time difference
    its microseconds, a float its IEEE value.  The digests of a request and of a snapshot are
    arguments, since their text prints floats. *)
From S2P Require Import Prelude PyText PyFloat PyNumText PyDate WorkerCapacity.
From Stdlib Require Import Ascii.

Local Open Scope Z_scope.

(** ** Enumerations *)

Inductive WorkloadKind :=
  | BUILD | TEST | INDEX | ANALYSIS | FUZZ | EMBEDDING | TRAINING | RENDER | ENCODE | SERVICE | CONTAINER
  | W_STORAGE | INFERENCE.
#[export] Instance workload_eq_dec : EqDecision WorkloadKind.
Proof. solve_decision. Defined.
Definition all_workloads : list WorkloadKind :=
  [BUILD; TEST; INDEX; ANALYSIS; FUZZ; EMBEDDING; TRAINING; RENDER; ENCODE; SERVICE; CONTAINER; W_STORAGE; INFERENCE].
Definition workload_value (w : WorkloadKind) : string :=
  match w with
  | BUILD => "build" | TEST => "test" | INDEX => "index" | ANALYSIS => "analysis" | FUZZ => "fuzz" | EMBEDDING => "embedding"
  | TRAINING => "training" | RENDER => "render" | ENCODE => "encode" | SERVICE => "service" | CONTAINER => "container"
  | W_STORAGE => "storage" | INFERENCE => "inference"
  end.
Definition workload_of_value (s : string) : option WorkloadKind := List.find (λ w, String.eqb (workload_value w) s) all_workloads.
#[export] Program Instance workload_countable : Countable WorkloadKind := inj_countable workload_value workload_of_value _.
Next Obligation. by intros []. Qed.

Inductive ComputeCapability :=
  | CPU | RAM | CUDA | OLLAMA | LLAMACPP | DOCKER | PODMAN | KVM | CMAKE | MSVC | CLANG | CLANGD | CLANG_TIDY | SCCACHE
  | DISTCC | PYTEST | EMBEDDINGS | QLORA | FFMPEG | BLENDER | STORAGE | DATABASE.
#[export] Instance capability_eq_dec : EqDecision ComputeCapability.
Proof. solve_decision. Defined.
Definition all_capabilities : list ComputeCapability :=
  [CPU; RAM; CUDA; OLLAMA; LLAMACPP; DOCKER; PODMAN; KVM; CMAKE; MSVC; CLANG; CLANGD; CLANG_TIDY; SCCACHE; DISTCC; PYTEST;
   EMBEDDINGS; QLORA; FFMPEG; BLENDER; STORAGE; DATABASE].
Definition capability_value (c : ComputeCapability) : string :=
  match c with
  | CPU => "cpu" | RAM => "ram" | CUDA => "cuda" | OLLAMA => "ollama" | LLAMACPP => "llamacpp" | DOCKER => "docker"
  | PODMAN => "podman" | KVM => "kvm" | CMAKE => "cmake" | MSVC => "msvc" | CLANG => "clang" | CLANGD => "clangd"
  | CLANG_TIDY => "clang-tidy" | SCCACHE => "sccache" | DISTCC => "distcc" | PYTEST => "pytest" | EMBEDDINGS => "embeddings"
  | QLORA => "qlora" | FFMPEG => "ffmpeg" | BLENDER => "blender" | STORAGE => "storage" | DATABASE => "database"
  end.
Definition capability_of_value (s : string) : option ComputeCapability :=
  List.find (λ c, String.eqb (capability_value c) s) all_capabilities.
#[export] Program Instance capability_countable : Countable ComputeCapability := inj_countable capability_value capability_of_value _.
Next Obligation. by intros []. Qed.

Inductive NodeHealth := UNKNOWN | HEALTHY | UNHEALTHY.
#[export] Instance health_eq_dec : EqDecision NodeHealth.
Proof. solve_decision. Defined.
Inductive PlacementPolicy := LOCAL_ONLY | PREFER_REMOTE | RANK_ALL.
#[export] Instance policy_eq_dec : EqDecision PlacementPolicy.
Proof. solve_decision. Defined.

(** ** Validators *)

Definition _require_identity (label : string) (v : pyval) : res string :=
  check_str (stable_identity 127) ValueError (label +:+ " must be a bounded stable identity") v.

Definition _optional_nonnegative_int (label : string) (v : pyval) : res (option Z) :=
  match v with
  | PNone => Ok None
  | PInt z => if 0 <=? z then Ok (Some z) else throw ValueError (label +:+ " must be a non-negative integer or None")
  | _ => throw ValueError (label +:+ " must be a non-negative integer or None")
  end.

(** [float(x)] *)
Definition to_float (x : num) : res spec_float :=
  match x with
  | NFloat f => Ok f
  | NInt z => let f := f64_of_Z z in if f64_finite f then Ok f else throw OverflowError "int too large to convert to float"
  end.
Definition f64_between (lo hi : Z) (f : spec_float) : bool := f64_finite f && f64_leb (f64_of_Z lo) f && f64_leb f (f64_of_Z hi).

Definition _optional_fraction (label : string) (v : pyval) : res (option num) :=
  match v with
  | PNone => Ok None
  | _ => match py_num v with
         | None => throw ValueError (label +:+ " must be a finite fraction or None")
         | Some x => f ← to_float x; _ ← require (f64_between 0 1 f) ValueError (label +:+ " must be between 0 and 1"); Ok (Some x)
         end
  end.

Record NodeResources := MkResources {
  cpu_count : option Z;
  total_ram_bytes : option Z;
  free_ram_bytes : option Z;
  total_disk_bytes : option Z;
  free_disk_bytes : option Z;
  total_vram_bytes : option Z;
  free_vram_bytes : option Z;
  load_fraction : option num;
  gpu_utilization_fraction : option num
}.

Definition free_within (name total_name : string) (free total : option Z) : res unit :=
  require (match free, total with Some f, Some t => f <=? t | _, _ => true end) ValueError (name +:+ " cannot exceed " +:+ total_name).

Definition NodeResources_init (cpu total_ram free_ram total_disk free_disk total_vram free_vram load gpu : pyval) : res NodeResources :=
  cpu' ← _optional_nonnegative_int "cpu_count" cpu;
  total_ram' ← _optional_nonnegative_int "total_ram_bytes" total_ram;
  free_ram' ← _optional_nonnegative_int "free_ram_bytes" free_ram;
  total_disk' ← _optional_nonnegative_int "total_disk_bytes" total_disk;
  free_disk' ← _optional_nonnegative_int "free_disk_bytes" free_disk;
  total_vram' ← _optional_nonnegative_int "total_vram_bytes" total_vram;
  free_vram' ← _optional_nonnegative_int "free_vram_bytes" free_vram;
  _ ← require (negb (bool_decide (cpu' = Some 0))) ValueError "cpu_count must be positive when known";
  load' ← _optional_fraction "load_fraction" load;
  gpu' ← _optional_fraction "gpu_utilization_fraction" gpu;
  _ ← free_within "free_ram_bytes" "total_ram_bytes" free_ram' total_ram';
  _ ← free_within "free_disk_bytes" "total_disk_bytes" free_disk' total_disk';
  _ ← free_within "free_vram_bytes" "total_vram_bytes" free_vram' total_vram';
  Ok (MkResources cpu' total_ram' free_ram' total_disk' free_disk' total_vram' free_vram' load' gpu').
Definition no_resources : NodeResources := MkResources None None None None None None None None None.

(** ** Nodes *)

Record ComputeNode := MkNode {
  nd_node_id : string;
  nd_origin : option string;
  nd_local : bool;
  nd_allowed_workloads : gset WorkloadKind;
  nd_configured_capabilities : gset ComputeCapability;
  nd_workspace_mappings : gset string;
  nd_preference_weight : num
}.

(** The longest prefix of characters that pass, and the rest. *)
Fixpoint span_text (p : ascii → bool) (s : string) : string * string :=
  match s with
  | EmptyString => ("", "")
  | String c s' => if p c then let '(a, b) := span_text p s' in (String c a, b) else ("", s)
  end.
Definition is_digit (c : ascii) : bool := ascii_between 48 57 c.
Definition is_host_char (c : ascii) : bool := is_identity_char c && negb (Ascii.eqb c ":").
Definition is_address_char (c : ascii) : bool :=
  is_digit c || ascii_between 65 70 c || ascii_between 97 102 c || Ascii.eqb c ":" || Ascii.eqb c ".".

(** The text after ["https://"] and the host, if that much matches. *)
Definition after_host (s : string) : option string :=
  if negb (String.prefix "https://" s) then None
  else match String.substring 8 (String.length s - 8) s with
       | String "[" r => match span_text is_address_char r with
                         | (String _ _, String "]" t) => Some t
                         | _ => None
                         end
       | r => match span_text is_host_char r with (String _ _, t) => Some t | _ => None end
       end.

(** [_HTTPS_ORIGIN.fullmatch(origin)]: the number of group 1. *)
Definition https_port (s : string) : option Z :=
  match after_host s with
  | Some (String ":" t) =>
      let '(digits, rest) := span_text is_digit t in
      if (1 <=? String.length digits)%nat && (String.length digits <=? 5)%nat && mem rest [""; "/"]
      then Some (digits_from 0 0 false digits).1.1 else None
  | _ => None
  end.

Definition has_char (c : ascii) (s : string) : bool := negb (free_of c s).

Definition ComputeNode_init (node_id : pyval) (origin : pyval) (local : pyval) (workloads : gset WorkloadKind)
  (capabilities : gset ComputeCapability) (workspaces : gset string) (weight : pyval) : res ComputeNode :=
  id ← _require_identity "node_id" node_id;
  loc ← check_bool ValueError "local must be boolean" local;
  _ ← require (negb (bool_decide (workloads = ∅))) ValueError "allowed_workloads must not be empty";
  _ ← mapM_res (λ w, _require_identity "workspace mapping" (PStr w)) (elements workspaces);
  match py_num weight with
  | None => throw ValueError "preference_weight must be finite"
  | Some w =>
      f ← to_float w;
      _ ← require (f64_between (-100) 100 f) ValueError "preference_weight must be between -100 and 100";
      if (loc : bool) then
        _ ← require (match origin with PNone => true | _ => false end) ValueError "local nodes must not define an origin";
        Ok (MkNode id None true workloads capabilities workspaces w)
      else
        match py_str origin with
        | None => throw ValueError "remote nodes require an HTTPS origin"
        | Some o =>
            match https_port o with
            | None => if has_char "@" o then throw ValueError "remote node origins must not contain inline credentials"
                      else throw ValueError "remote nodes require an HTTPS origin with an explicit port"
            | Some port =>
                _ ← require ((1 <=? port) && (port <=? 65535)) ValueError "remote nodes require a valid HTTPS port";
                Ok (MkNode id (Some o) false workloads capabilities workspaces w)
            end
        end
  end.

(** ** Snapshots *)

Record NodeSnapshot := MkSnapshot {
  ns_node : ComputeNode;
  ns_observed_at : Z;
  ns_received_at : option Z;
  ns_health : NodeHealth;
  ns_live_capabilities : gset ComputeCapability;
  ns_advertised_workloads : gset WorkloadKind;
  ns_resources : NodeResources;
  ns_active_jobs : option Z;
  ns_round_trip_ms : option num;
  ns_models : list string;
  ns_evidence_ref : option string
}.
Definition ns_id (s : NodeSnapshot) : string := nd_node_id (ns_node s).

Definition round_trip_ok (v : pyval) : res (option num) :=
  match v with
  | PNone => Ok None
  | _ => match py_num v with
         | None => throw ValueError "round_trip_ms must be finite and bounded"
         | Some x =>
             f ← to_float x;
             _ ← require (f64_finite f && num_leb (NInt 0) x && num_leb x (NInt 3600000)) ValueError
                   "round_trip_ms must be finite and bounded";
             Ok (Some x)
         end
  end.

(** [active_jobs] goes through the check of optional counts, which lets [None] pass. *)
Definition NodeSnapshot_init (node : dyn ComputeNode) (observed : Z) (received : option Z) (health : NodeHealth)
  (capabilities : gset ComputeCapability) (workloads : gset WorkloadKind) (resources : NodeResources) (active_jobs round_trip : pyval)
  (models : list pyval) (evidence : option string) : res NodeSnapshot :=
  n ← inst_of ValueError "node must be a ComputeNode" node;
  jobs ← _optional_nonnegative_int "active_jobs" active_jobs;
  rtt ← round_trip_ok round_trip;
  _ ← require (zlen models <=? 256) ValueError "models must be a bounded tuple of identities";
  ms ← mapM_res (check_str (λ s, negb (String.eqb s "") && (py_len s <=? 256)) ValueError "models must be a bounded tuple of identities") models;
  _ ← require (match evidence with Some s => py_len s <=? 512 | None => true end) ValueError "evidence_ref must be bounded";
  Ok (MkSnapshot n observed received health capabilities workloads resources jobs rtt ms evidence).

Definition effective_capabilities (s : NodeSnapshot) : gset ComputeCapability :=
  nd_configured_capabilities (ns_node s) ∩ ns_live_capabilities s.
Definition effective_workloads (s : NodeSnapshot) : gset WorkloadKind := nd_allowed_workloads (ns_node s) ∩ ns_advertised_workloads s.
Definition freshness_at (s : NodeSnapshot) : Z :=
  match ns_received_at s with Some r => Z.min (ns_observed_at s) r | None => ns_observed_at s end.

(** ** Requests *)

Record WorkloadRequest := MkWorkload {
  wr_request_id : string;
  wr_kind : WorkloadKind;
  wr_required_capabilities : gset ComputeCapability;
  wr_any_capabilities : gset ComputeCapability;
  wr_any_capability_groups : list (gset ComputeCapability);
  wr_workspace_mapping : option string;
  wr_min_free_ram_bytes : option Z;
  wr_min_free_disk_bytes : option Z;
  wr_min_free_vram_bytes : option Z;
  wr_max_load_fraction : option num;
  wr_local_only : bool;
  wr_allow_remote : bool;
  wr_allow_local_fallback : bool;
  wr_preferred_node_ids : gset string;
  wr_avoided_node_ids : gset string;
  wr_required_model : option string;
  wr_idempotent : bool;
  wr_background_preferred : bool;
  wr_placement_policy : option PlacementPolicy;
  wr_priority : Z;
  wr_max_queue_depth : option Z
}.

Definition WorkloadRequest_init (request_id : pyval) (kind : WorkloadKind) (required any : gset ComputeCapability)
  (groups : list (gset ComputeCapability)) (workspace : pyval) (ram disk vram load : pyval)
  (local_only allow_remote local_fallback : pyval) (preferred avoided : gset string) (model : pyval)
  (idempotent background : pyval) (policy : option PlacementPolicy) (priority depth : pyval) : res WorkloadRequest :=
  id ← _require_identity "request_id" request_id;
  _ ← require ((zlen groups <=? 16) && forallb (λ g, negb (bool_decide (g = ∅))) groups) ValueError
        "any_capability_groups must contain bounded non-empty capability sets";
  ws ← match workspace with PNone => Ok None | _ => s ← _require_identity "workspace_mapping" workspace; Ok (Some s) end;
  ram' ← _optional_nonnegative_int "min_free_ram_bytes" ram;
  disk' ← _optional_nonnegative_int "min_free_disk_bytes" disk;
  vram' ← _optional_nonnegative_int "min_free_vram_bytes" vram;
  load' ← _optional_fraction "max_load_fraction" load;
  prio ← check_int (-100) 100 ValueError "priority must be within -100 and 100" priority;
  depth' ← _optional_nonnegative_int "max_queue_depth" depth;
  _ ← require (match depth' with Some n => n <=? 4096 | None => true end) ValueError "max_queue_depth must be at most 4096";
  _ ← mapM_res (λ w, _require_identity "preferred_node_ids" (PStr w)) (elements preferred);
  _ ← mapM_res (λ w, _require_identity "avoided_node_ids" (PStr w)) (elements avoided);
  _ ← require (bool_decide (preferred ## avoided)) ValueError "a node cannot be both preferred and avoided";
  model' ← match model with
           | PNone => Ok None
           | _ => s ← check_str (λ s, negb (String.eqb s "") && (py_len s <=? 256)) ValueError "required_model must be bounded" model; Ok (Some s)
           end;
  local_only' ← check_bool ValueError "workload flags must be boolean" local_only;
  allow_remote' ← check_bool ValueError "workload flags must be boolean" allow_remote;
  fallback' ← check_bool ValueError "workload flags must be boolean" local_fallback;
  idempotent' ← check_bool ValueError "workload flags must be boolean" idempotent;
  background' ← check_bool ValueError "workload flags must be boolean" background;
  _ ← require (negb ((local_only' : bool) && (allow_remote' : bool))) ValueError "local_only and allow_remote cannot both be enabled";
  _ ← require (negb ((fallback' : bool) && negb allow_remote')) ValueError "local fallback only applies to remote-enabled workloads";
  Ok (MkWorkload id kind required any groups ws ram' disk' vram' load' local_only' allow_remote' fallback' preferred avoided model'
        idempotent' background' policy prio depth').

(** ** Placement *)

Record CandidateDecision := MkCandidate { cd_node_id : string; cd_eligible : bool; cd_reason_code : string; cd_score : option spec_float }.
Record PlacementDecision := MkPlacement {
  pd_request_digest : string;
  pd_selected_node_id : option string;
  pd_candidates : list CandidateDecision;
  pd_ranked_node_ids : list string;
  pd_snapshot_digests : list (string * string)
}.

Record PlacementExplanation := MkExplanation {
  pe_node_id : string;
  pe_eligible : bool;
  pe_selected : bool;
  pe_reason_code : string;
  pe_message : string;
  pe_score : option spec_float;
  pe_rank : option Z
}.
Definition _PLACEMENT_REASON_MESSAGES : list (string * string) :=
  [("node_avoided", "candidate was explicitly avoided"); ("unhealthy", "candidate health evidence is not healthy");
   ("future_observation", "candidate evidence is from the future"); ("stale", "candidate evidence is older than the placement window");
   ("workload_not_allowed", "candidate does not advertise this workload"); ("local_only", "request policy requires local execution");
   ("remote_not_allowed", "remote execution consent is absent"); ("missing_capability", "candidate is missing a required capability");
   ("missing_any_capability", "candidate matches none of the capability alternatives");
   ("workspace_unavailable", "candidate does not expose the requested workspace");
   ("model_unavailable", "candidate does not advertise the requested model"); ("ram_unknown", "candidate has no usable RAM measurement");
   ("insufficient_ram", "candidate does not meet the RAM floor"); ("disk_unknown", "candidate has no usable disk measurement");
   ("insufficient_disk", "candidate does not meet the disk floor"); ("vram_unknown", "candidate has no usable VRAM measurement");
   ("insufficient_vram", "candidate does not meet the VRAM floor"); ("load_unknown", "candidate has no usable load measurement");
   ("load_too_high", "candidate exceeds the requested load ceiling"); ("queue_full", "candidate queue is at the request's bounded depth");
   ("eligible", "candidate satisfies the requested placement policy")].
Definition message_of (reason : string) : string :=
  match List.find (λ kv, String.eqb kv.1 reason) _PLACEMENT_REASON_MESSAGES with
  | Some kv => kv.2 | None => "candidate was rejected by a placement constraint"
  end.
(** [{node_id: index + 1 ...}.get(node_id)]: the last index of the name. *)
Definition rank_in (id : string) (l : list string) : option Z :=
  (λ p, Z.of_nat (length l - p.1)) <$> list_find (λ x, x = id) (rev l).
Definition explain (d : PlacementDecision) : list PlacementExplanation :=
  (λ c, MkExplanation (cd_node_id c) (cd_eligible c) (bool_decide (pd_selected_node_id d = Some (cd_node_id c))) (cd_reason_code c)
          (message_of (cd_reason_code c)) (cd_score c) (rank_in (cd_node_id c) (pd_ranked_node_ids d))) <$> pd_candidates d.

(** A resource floor against a measurement; a floor of [None] cannot be compared. *)
Definition floor_rejection (floor value : option Z) (unknown insufficient : string) : res (option string) :=
  match floor with
  | None => throw TypeError "'>' not supported between instances of 'NoneType' and 'int'"
  | Some f =>
      Ok (if 0 <? f then
            match value with
            | None => Some unknown
            | Some v => if v <? f then Some insufficient else None
            end
          else None)
  end.

Definition _resource_rejection (q : WorkloadRequest) (r : NodeResources) : res (option string) :=
  ram ← floor_rejection (wr_min_free_ram_bytes q) (free_ram_bytes r) "ram_unknown" "insufficient_ram";
  match ram with
  | Some why => Ok (Some why)
  | None =>
      disk ← floor_rejection (wr_min_free_disk_bytes q) (free_disk_bytes r) "disk_unknown" "insufficient_disk";
      match disk with
      | Some why => Ok (Some why)
      | None =>
          vram ← floor_rejection (wr_min_free_vram_bytes q) (free_vram_bytes r) "vram_unknown" "insufficient_vram";
          match vram with
          | Some why => Ok (Some why)
          | None =>
              Ok (match wr_max_load_fraction q, load_fraction r with
                  | None, _ => None
                  | Some _, None => Some "load_unknown"
                  | Some m, Some l => if num_ltb m l then Some "load_too_high" else None
                  end)
          end
      end
  end.

(** [n / (1 << 30)] of integers, rounded once *)
Definition gib (n : Z) : res spec_float :=
  let f := binary_normalize 53 1024 n (-30) false in
  if f64_finite f then Ok f else throw OverflowError "integer division result too large for a float".
Definition tenth : spec_float := of_decimal false 1 (-1).
Definition fifth : spec_float := of_decimal false 2 (-1).
Definition thousandth : spec_float := of_decimal false 1 (-3).

(** [round(x, 9)]: correctly rounded, ties to even *)
Definition billionths (m : positive) (e : Z) : Z :=
  if 0 <=? e then Zpos m * 2 ^ e * 1000000000 else half_even (Zpos m * 1000000000) (2 ^ (- e)).
Definition round9 (x : spec_float) : spec_float :=
  match x with S754_finite s m e => of_decimal s (billionths m e) (-9) | _ => x end.

(** [score += min(free / (1 << 30), cap) * weight], if the measurement is known *)
Definition add_room (score : spec_float) (free : option Z) (cap : Z) (weight : spec_float) : res spec_float :=
  match free with
  | None => Ok score
  | Some n => g ← gib n; Ok (f64_add score (f64_mul (f64_min g (f64_of_Z cap)) weight))
  end.

(** [min(x, 60_000.0)] of a number *)
Definition num_min (x y : num) : num := if num_ltb y x then y else x.

Definition score_of (q : WorkloadRequest) (s : NodeSnapshot) (jobs : Z) : res spec_float :=
  let r := ns_resources s in
  base ← to_float (nd_preference_weight (ns_node s));
  let score := if bool_decide (ns_id s ∈ wr_preferred_node_ids q) then f64_add base (f64_of_Z 100) else base in
  score ← add_room score (free_ram_bytes r) 256 tenth;
  score ← add_room score (free_disk_bytes r) 4096 thousandth;
  score ← add_room score (free_vram_bytes r) 256 fifth;
  score ← match load_fraction r with
          | None => Ok score
          | Some l => f ← to_float l; Ok (f64_sub score (f64_mul f (f64_of_Z (if wr_background_preferred q then 80 else 20))))
          end;
  j ← to_float (NInt jobs);
  let score := f64_sub score (f64_mul j (f64_of_Z 5)) in
  score ← match ns_round_trip_ms s with
          | None => Ok score
          | Some t => f ← to_float (num_min t (NFloat (f64_of_Z 60000))); Ok (f64_sub score (f64_mul f thousandth))
          end;
  Ok (round9 (match wr_required_model q with
              | Some m => if mem m (ns_models s) then f64_add score (f64_of_Z 20) else score
              | None => score
              end)).

Definition reject (s : NodeSnapshot) (why : string) : res CandidateDecision := Ok (MkCandidate (ns_id s) false why None).

(** The constraints before the resources, in the order of the code; the first that fails. *)
Definition meets_any (g c : gset ComputeCapability) : bool := negb (bool_decide (g ## c)).
Definition hard_rejection (ttl : Z) (q : WorkloadRequest) (s : NodeSnapshot) (now : Z) : res (option string) :=
  if bool_decide (ns_id s ∈ wr_avoided_node_ids q) then Ok (Some "node_avoided")
  else if negb (bool_decide (ns_health s = HEALTHY)) then Ok (Some "unhealthy")
  else
    horizon ← add_seconds now 5;
    Ok (if horizon <? freshness_at s then Some "future_observation"
        else if ttl <? now - freshness_at s then Some "stale"
        else if negb (bool_decide (wr_kind q ∈ effective_workloads s)) then Some "workload_not_allowed"
        else if (wr_local_only q || bool_decide (wr_placement_policy q = Some LOCAL_ONLY)) && negb (nd_local (ns_node s)) then Some "local_only"
        else if negb (nd_local (ns_node s)) && negb (wr_allow_remote q) then Some "remote_not_allowed"
        else if negb (bool_decide (wr_required_capabilities q ⊆ effective_capabilities s)) then Some "missing_capability"
        else if negb (bool_decide (wr_any_capabilities q = ∅)) && negb (meets_any (wr_any_capabilities q) (effective_capabilities s))
        then Some "missing_any_capability"
        else if existsb (λ g, negb (meets_any g (effective_capabilities s))) (wr_any_capability_groups q) then Some "missing_any_capability"
        else if match wr_workspace_mapping q with Some w => negb (bool_decide (w ∈ nd_workspace_mappings (ns_node s))) | None => false end
        then Some "workspace_unavailable"
        else if match wr_required_model q with Some m => negb (mem m (ns_models s)) | None => false end then Some "model_unavailable"
        else None).

Definition _assess (ttl : Z) (q : WorkloadRequest) (s : NodeSnapshot) (now : Z) : res CandidateDecision :=
  hard ← hard_rejection ttl q s now;
  match hard with
  | Some why => reject s why
  | None =>
      full ← match wr_max_queue_depth q, ns_active_jobs s with
             | None, _ => Ok false
             | Some d, Some j => Ok (d <=? j)
             | Some _, None => throw TypeError "'>=' not supported between instances of 'NoneType' and 'int'"
             end;
      if (full : bool) then reject s "queue_full"
      else
        why ← _resource_rejection q (ns_resources s);
        match why with
        | Some w => reject s w
        | None =>
            match ns_active_jobs s with
            | None => throw TypeError "unsupported operand type(s) for *: 'NoneType' and 'float'"
            | Some j => score ← score_of q s j; Ok (MkCandidate (ns_id s) true "eligible" (Some score))
            end
        end
  end.

(** The sort key [(-(score or 0.0), node_id)]: a higher score first, equal scores by name. *)
Definition score_key (c : CandidateDecision) : spec_float := default (f64_of_Z 0) (cd_score c).
Definition rank_le (a b : CandidateDecision) : bool :=
  f64_ltb (score_key b) (score_key a)
  || (negb (f64_ltb (score_key a) (score_key b)) && String.leb (cd_node_id a) (cd_node_id b)).
Definition snapshot_le (a b : NodeSnapshot) : bool := String.leb (ns_id a) (ns_id b).

Definition place (snapshot_digest : NodeSnapshot → string) (request_digest : WorkloadRequest → string) (ttl : Z)
  (q : WorkloadRequest) (snapshots : list NodeSnapshot) (now : Z) : res PlacementDecision :=
  _ ← require (negb (bool_decide (wr_kind q = INFERENCE))) ValueError "inference placement remains owned by the model gateway";
  let ordered := sort_by snapshot_le snapshots in
  _ ← require (no_dups (ns_id <$> ordered)) ValueError "snapshots contain duplicate node identities";
  decisions ← mapM_res (λ s, _assess ttl q s now) ordered;
  let eligible := List.filter cd_eligible decisions in
  let ranked := cd_node_id <$> sort_by rank_le eligible in
  Ok (MkPlacement (request_digest q) (head ranked) decisions ranked ((λ s, (ns_id s, snapshot_digest s)) <$> ordered)).

Definition Scheduler_init (ttl : Z) : res Z :=
  _ ← require (0 <? ttl) ValueError "snapshot_ttl must be positive";
  _ ← require (ttl <=? 3600000000) ValueError "snapshot_ttl must be at most one hour";
  Ok ttl.

(** ** What placement promises *)

Definition at_least (floor value : option Z) : Prop := match floor with Some f => 0 < f → ∃ v, value = Some v ∧ f <= v | None => False end.

(** The rules of the score, each with its sign: what a node gains and what it costs. *)
Definition when {A} (c : bool) (x : A) : list A := if c then [x] else [].
Definition known {A B} (o : option A) (f : A → B) : list B := match o with Some x => [f x] | None => [] end.
Definition gib_up_to (cap : Z) (weight : spec_float) (n : Z) : res spec_float :=
  g ← gib n; Ok (f64_mul (f64_min g (f64_of_Z cap)) weight).
Definition times (x : num) (weight : spec_float) : res spec_float := f ← to_float x; Ok (f64_mul f weight).

Definition score_rules (q : WorkloadRequest) (s : NodeSnapshot) (jobs : Z) : list (bool * res spec_float) :=
  let gain x := (true, x) in let cost x := (false, x) in
  when (bool_decide (ns_id s ∈ wr_preferred_node_ids q)) (gain (Ok (f64_of_Z 100)))
  ++ known (free_ram_bytes (ns_resources s)) (λ n, gain (gib_up_to 256 tenth n))
  ++ known (free_disk_bytes (ns_resources s)) (λ n, gain (gib_up_to 4096 thousandth n))
  ++ known (free_vram_bytes (ns_resources s)) (λ n, gain (gib_up_to 256 fifth n))
  ++ known (load_fraction (ns_resources s)) (λ l, cost (times l (f64_of_Z (if wr_background_preferred q then 80 else 20))))
  ++ [cost (times (NInt jobs) (f64_of_Z 5))]
  ++ known (ns_round_trip_ms s) (λ t, cost (times (num_min t (NFloat (f64_of_Z 60000))) thousandth))
  ++ known (wr_required_model q ≫= λ m, if mem m (ns_models s) then Some m else None) (λ _, gain (Ok (f64_of_Z 20))).

Definition apply_rule (total : res spec_float) (rule : bool * res spec_float) : res spec_float :=
  x ← total; y ← rule.2; Ok (if rule.1 then f64_add x y else f64_sub x y).

(** The score of a node whose jobs are known: its weight, the rules in their order, rounded once at the end. *)
Definition node_score (q : WorkloadRequest) (s : NodeSnapshot) : option spec_float :=
  jobs ← ns_active_jobs s;
  match foldl apply_rule (to_float (nd_preference_weight (ns_node s))) (score_rules q s jobs) with
  | Ok x => Some (round9 x) | Err _ => None
  end.

(** The constraints on the node and on what it offers. *)
Definition admissible (ttl : Z) (q : WorkloadRequest) (now : Z) (s : NodeSnapshot) : Prop :=
  (ns_id s ∉ wr_avoided_node_ids q) ∧ ns_health s = HEALTHY
  ∧ now - ttl <= freshness_at s <= now + 5000000
  ∧ wr_kind q ∈ effective_workloads s
  ∧ (nd_local (ns_node s) = false → wr_allow_remote q = true ∧ wr_local_only q = false ∧ wr_placement_policy q ≠ Some LOCAL_ONLY)
  ∧ wr_required_capabilities q ⊆ effective_capabilities s
  ∧ (wr_any_capabilities q ≠ ∅ → ¬ (wr_any_capabilities q ## effective_capabilities s))
  ∧ (∀ g, g ∈ wr_any_capability_groups q → ¬ (g ## effective_capabilities s))
  ∧ (∀ w, wr_workspace_mapping q = Some w → w ∈ nd_workspace_mappings (ns_node s))
  ∧ (∀ m, wr_required_model q = Some m → m ∈ ns_models s).

(** The constraints on its measurements. *)
Definition has_room (q : WorkloadRequest) (s : NodeSnapshot) : Prop :=
  (∀ d, wr_max_queue_depth q = Some d → ∃ j, ns_active_jobs s = Some j ∧ j < d)
  ∧ at_least (wr_min_free_ram_bytes q) (free_ram_bytes (ns_resources s))
  ∧ at_least (wr_min_free_disk_bytes q) (free_disk_bytes (ns_resources s))
  ∧ at_least (wr_min_free_vram_bytes q) (free_vram_bytes (ns_resources s))
  ∧ (∀ m, wr_max_load_fraction q = Some m → ∃ l, load_fraction (ns_resources s) = Some l ∧ num_ltb m l = false).

Lemma hard_rejection_ok ttl q s now o : hard_rejection ttl q s now = Ok o → o = None ↔ admissible ttl q now s.
Proof.
  unfold hard_rejection, admissible. intros H.
  case_bool_decide as Ha; [injection H as <-; split; [done|by intros (? & _)]|].
  case_bool_decide as Hh; cbn [negb] in H; [|injection H as <-; split; [done|by intros (_ & ? & _)]].
  apply bind_ok in H as (horizon & [-> _]%add_seconds_ok & H). injection H as H.
  destruct (Z.ltb_spec (now + 5 * 1000000) (freshness_at s)); [subst; split; [done|intros (_ & _ & ? & _); lia]|].
  destruct (Z.ltb_spec ttl (now - freshness_at s)); [subst; split; [done|intros (_ & _ & ? & _); lia]|].
  case_bool_decide as Hk; cbn [negb] in H; [|subst; split; [done|by intros (_ & _ & _ & ? & _)]].
  destruct ((wr_local_only q || _) && _) eqn:El.
  { subst. apply andb_true_iff in El as [El Hl%negb_true_iff]. split; [done|]. intros (_ & _ & _ & _ & Hr & _).
    destruct (Hr Hl) as (_ & Hlo & Hp). rewrite Hlo in El. by apply bool_decide_eq_true in El. }
  destruct (negb (nd_local _) && _) eqn:Er.
  { subst. to_prop. split; [done|]. intros (_ & _ & _ & _ & Hr & _). destruct Hr as [Hr _]; congruence. }
  case_bool_decide as Hc; cbn [negb] in H; [|subst; split; [done|by intros (_ & _ & _ & _ & _ & ? & _)]].
  destruct (negb (bool_decide (wr_any_capabilities q = ∅)) && _) eqn:Ean.
  { subst. unfold meets_any in Ean. to_prop. split; [done|]. intros (_ & _ & _ & _ & _ & _ & Hm & _). by destruct (Hm ltac:(done)). }
  destruct (existsb _ _) eqn:Eg.
  { subst. apply existsb_exists in Eg as (g & Hg & Hd). unfold meets_any in Hd. to_prop. split; [done|].
    intros (_ & _ & _ & _ & _ & _ & _ & Hm & _). exfalso. by apply (Hm g); [apply list_elem_of_In|]. }
  assert (∀ g, g ∈ wr_any_capability_groups q → ¬ (g ## effective_capabilities s)) as Hgr.
  { intros g Hg Hd. assert (existsb (λ g, negb (meets_any g (effective_capabilities s))) (wr_any_capability_groups q) = true); [|congruence].
    apply existsb_exists. exists g. split; [by apply list_elem_of_In|]. unfold meets_any. by rewrite bool_decide_true. }
  assert (wr_any_capabilities q ≠ ∅ → ¬ (wr_any_capabilities q ## effective_capabilities s)) as Han.
  { intros Hne Hd. unfold meets_any in Ean. by rewrite bool_decide_false, bool_decide_true in Ean. }
  assert (nd_local (ns_node s) = false → wr_allow_remote q = true ∧ wr_local_only q = false ∧ wr_placement_policy q ≠ Some LOCAL_ONLY) as Hl.
  { intros E. rewrite E in *. cbn in El, Er. rewrite andb_true_r in El. to_prop. done. }
  destruct (match wr_workspace_mapping q with Some _ => _ | None => _ end) eqn:Ew.
  { subst. destruct (wr_workspace_mapping q) as [w|]; [|done]. to_prop. split; [done|]. intros (_ & _ & _ & _ & _ & _ & _ & _ & Hw & _). by destruct (Ew (Hw w eq_refl)). }
  destruct (match wr_required_model q with Some _ => _ | None => _ end) eqn:Em; subst.
  - destruct (wr_required_model q) as [m|]; [|done]. to_prop. split; [done|]. intros (_ & _ & _ & _ & _ & _ & _ & _ & _ & Hm). by destruct (Em (Hm m eq_refl)).
  - split; [|done]. intros _. split_and!; try done; try lia.
    + intros w Hw. rewrite Hw in Ew. by to_prop.
    + intros m Hm. rewrite Hm in Em. by to_prop.
Qed.

Lemma floor_rejection_ok floor value unknown insufficient o : floor_rejection floor value unknown insufficient = Ok o →
  o = None ↔ at_least floor value.
Proof.
  unfold floor_rejection, at_least. destruct floor as [f|]; [|done]. intros [= <-]. destruct (Z.ltb_spec 0 f).
  - destruct value as [v|]; [|split; [done|intros H'; by destruct (H' ltac:(done)) as (? & ? & _)]].
    destruct (Z.ltb_spec v f).
    + split; [done|]. intros H'. destruct (H' ltac:(done)) as (v' & [= <-] & ?). lia.
    + split; [intros _ _; by exists v|done].
  - split; [|done]. intros _ ?. lia.
Qed.

Lemma resource_rejection_ok q s o : _resource_rejection q (ns_resources s) = Ok o →
  o = None ↔ at_least (wr_min_free_ram_bytes q) (free_ram_bytes (ns_resources s))
    ∧ at_least (wr_min_free_disk_bytes q) (free_disk_bytes (ns_resources s))
    ∧ at_least (wr_min_free_vram_bytes q) (free_vram_bytes (ns_resources s))
    ∧ (∀ m, wr_max_load_fraction q = Some m → ∃ l, load_fraction (ns_resources s) = Some l ∧ num_ltb m l = false).
Proof.
  unfold _resource_rejection. intros H. apply bind_ok in H as (ram & Hr%floor_rejection_ok & H).
  destruct ram as [why|]; [injection H as <-; split; [done|intros (Ha & _); by apply Hr in Ha]|].
  apply bind_ok in H as (disk & Hd%floor_rejection_ok & H).
  destruct disk as [why|]; [injection H as <-; split; [done|intros (_ & Ha & _); by apply Hd in Ha]|].
  apply bind_ok in H as (vram & Hv%floor_rejection_ok & H).
  destruct vram as [why|]; [injection H as <-; split; [done|intros (_ & _ & Ha & _); by apply Hv in Ha]|].
  injection H as <-. rewrite <-Hr, <-Hd, <-Hv.
  destruct (wr_max_load_fraction q) as [m|]; [|split; [intros _; by split_and!|done]].
  destruct (load_fraction (ns_resources s)) as [l|].
  - destruct (num_ltb m l) eqn:E; split; try done.
    + intros (_ & _ & _ & Hl). destruct (Hl m eq_refl) as (l' & [= <-] & ?). congruence.
    + intros _. split_and!; try done. intros m' [= <-]. eauto.
  - split; [done|]. intros (_ & _ & _ & Hl). by destruct (Hl m eq_refl) as (l' & ? & _).
Qed.

Lemma score_of_node q s jobs x : ns_active_jobs s = Some jobs → score_of q s jobs = Ok x → node_score q s = Some x.
Proof.
  unfold node_score, score_of, score_rules, add_room. intros ->. cbn [mbind option_bind]. intros H.
  apply bind_ok in H as (base & -> & H). apply bind_ok in H as (x1 & H1 & H). apply bind_ok in H as (x2 & H2 & H).
  apply bind_ok in H as (x3 & H3 & H). apply bind_ok in H as (x4 & H4 & H). apply bind_ok in H as (j & Hj & H).
  apply bind_ok in H as (x5 & H5 & [= <-]).
  assert (∀ o cap weight a b, match o with None => Ok a | Some n => g ← gib n; Ok (f64_add a (f64_mul (f64_min g (f64_of_Z cap)) weight)) end = Ok b →
    foldl apply_rule (Ok a) (known o (λ n, (true, gib_up_to cap weight n))) = Ok b) as Hroom.
  { intros [n|] cap weight a b; [|done]. intros (g & Hg & [= <-])%bind_ok. cbn. unfold apply_rule, gib_up_to. cbn. by rewrite Hg. }
  rewrite !foldl_app.
  assert (foldl apply_rule (Ok base) (when (bool_decide (ns_id s ∈ wr_preferred_node_ids q)) (true, Ok (f64_of_Z 100)))
          = Ok (if bool_decide (ns_id s ∈ wr_preferred_node_ids q) then f64_add base (f64_of_Z 100) else base)) as -> by by case_bool_decide.
  rewrite (Hroom _ _ _ _ _ H1), (Hroom _ _ _ _ _ H2), (Hroom _ _ _ _ _ H3).
  assert (foldl apply_rule (Ok x3) (known (load_fraction (ns_resources s))
            (λ l, (false, times l (f64_of_Z (if wr_background_preferred q then 80 else 20))))) = Ok x4) as ->.
  { destruct (load_fraction (ns_resources s)) as [l|]; [|done]. apply bind_ok in H4 as (f & Hf & [= <-]).
    unfold known, apply_rule, times. cbn [foldl fst snd]. by rewrite Hf. }
  cbn [foldl]. unfold apply_rule at 3, times at 2. rewrite Hj. cbn [mbind res_bind snd fst].
  assert (foldl apply_rule (Ok (f64_sub x4 (f64_mul j (f64_of_Z 5)))) (known (ns_round_trip_ms s)
            (λ t, (false, times (num_min t (NFloat (f64_of_Z 60000))) thousandth))) = Ok x5) as ->.
  { destruct (ns_round_trip_ms s) as [t|]; [|done]. apply bind_ok in H5 as (f & Hf & [= <-]).
    unfold known, apply_rule, times. cbn [foldl fst snd]. by rewrite Hf. }
  destruct (wr_required_model q) as [m|]; [|done]. cbn [mbind option_bind]. by destruct (mem m (ns_models s)).
Qed.

Lemma assess_ok ttl q s now c : _assess ttl q s now = Ok c →
  cd_node_id c = ns_id s ∧ (cd_eligible c = true ↔ admissible ttl q now s ∧ has_room q s)
  ∧ (cd_eligible c = true → is_Some (cd_score c) ∧ cd_score c = node_score q s).
Proof.
  unfold _assess, has_room. intros H. apply bind_ok in H as (hard & Hh%hard_rejection_ok & H).
  destruct hard as [why|]; [injection H as <-; split_and!; [done| |done]; cbn; split; [done|intros [Ha _]; by apply Hh in Ha]|].
  apply bind_ok in H as (full & Hf & H).
  assert ((full : bool) = false ↔ ∀ d, wr_max_queue_depth q = Some d → ∃ j, ns_active_jobs s = Some j ∧ j < d) as Hfull.
  { destruct (wr_max_queue_depth q) as [d|]; [|injection Hf as <-; split; [done|done]].
    destruct (ns_active_jobs s) as [j|]; [|done]. injection Hf as <-. rewrite Z.leb_gt. split.
    - intros ? d' [= <-]. eauto.
    - intros H'. by destruct (H' d eq_refl) as (? & [= <-] & ?). }
  destruct full; [injection H as <-; split_and!; [done| |done]; cbn; split; [done|intros (_ & Hq & _); by apply Hfull in Hq]|].
  apply bind_ok in H as (why & Hw%resource_rejection_ok & H).
  destruct why as [w|]; [injection H as <-; split_and!; [done| |done]; cbn; split; [done|intros (_ & _ & Hq); by apply Hw in Hq]|].
  destruct (ns_active_jobs s) as [j|] eqn:Ej; [|done]. apply bind_ok in H as (score & Hs & H). injection H as <-. cbn.
  split_and!; [done| |by rewrite (score_of_node q s j score); eauto]. split; [|done]. intros _. split_and!; [by apply Hh|by apply Hfull|by apply Hw..].
Qed.

(** ** The order of the scores *)

Definition rank_le_key (a b : CandidateDecision) : bool :=
  key_ltb (f64_key (score_key b)) (f64_key (score_key a))
  || (negb (key_ltb (f64_key (score_key a)) (f64_key (score_key b))) && String.leb (cd_node_id a) (cd_node_id b)).

Lemma key_ltb_spec a b : key_ltb a b = true ↔ a.1.1 < b.1.1 ∨ a.1.1 = b.1.1 ∧ (a.1.2 < b.1.2 ∨ a.1.2 = b.1.2 ∧ a.2 < b.2).
Proof. unfold key_ltb. by rewrite orb_true_iff, andb_true_iff, orb_true_iff, andb_true_iff, !Z.ltb_lt, !Z.eqb_eq. Qed.

Lemma key_ltb_false a b : key_ltb a b = false ↔ ¬ (a.1.1 < b.1.1 ∨ a.1.1 = b.1.1 ∧ (a.1.2 < b.1.2 ∨ a.1.2 = b.1.2 ∧ a.2 < b.2)).
Proof. by rewrite <-key_ltb_spec, not_true_iff_false. Qed.

#[export] Instance rank_sort_key : SortKey rank_le_key.
Proof.
  unfold rank_le_key. split.
  - intros x y. rewrite !orb_true_iff, !andb_true_iff, !negb_true_iff.
    destruct (key_ltb (f64_key (score_key x)) (f64_key (score_key y))) eqn:E1; [right; by left|].
    destruct (key_ltb (f64_key (score_key y)) (f64_key (score_key x))) eqn:E2; [left; by left|].
    destruct (String.leb_total (cd_node_id x) (cd_node_id y)); [left|right]; by right.
  - intros x y z. rewrite !orb_true_iff, !andb_true_iff, !negb_true_iff, !key_ltb_spec, !key_ltb_false.
    intros [H1|[H1 Hs1]] [H2|[H2 Hs2]]; [left; lia|left; lia|left; lia|].
    destruct (decide (key_ltb (f64_key (score_key z)) (f64_key (score_key x)) = true)) as [Hk|Hk]; [left; by apply key_ltb_spec|].
    right. split; [lia|]. by eapply (sort_trans (le := String.leb)).
Qed.

(** The judgements of an ordered list, name by name. *)
Lemma judged ttl q now l ds c : Forall2 (λ s c, _assess ttl q s now = Ok c) l ds → c ∈ ds → ∃ s, s ∈ l ∧ _assess ttl q s now = Ok c.
Proof.
  intros Hall [i Hi]%list_elem_of_lookup. destruct (Forall2_lookup_r _ _ _ _ _ Hall Hi) as (s & Hs & Ha). exists s.
  split; [by eapply list_elem_of_lookup_2|done].
Qed.

Lemma judged_names ttl q now l ds : Forall2 (λ s c, _assess ttl q s now = Ok c) l ds → cd_node_id <$> ds = ns_id <$> l.
Proof. induction 1 as [|s c l ds Ha _ IH]; [done|]. cbn. by rewrite IH, (proj1 (assess_ok _ _ _ _ _ Ha)). Qed.

Lemma rank_le_keys a b : score_key a ≠ S754_nan → score_key b ≠ S754_nan → rank_le a b = rank_le_key a b.
Proof. intros Ha Hb. unfold rank_le, rank_le_key. by rewrite !f64_ltb_key_ltb. Qed.

(** Of two places of a ranking without a NaN the earlier one has the higher score, or an equal one and
    the smaller name. *)
Lemma ranked_before l i j a b :
  (∀ c, c ∈ l → score_key c ≠ S754_nan) → NoDup (cd_node_id <$> l) → (i < j)%nat →
  sort_by rank_le l !! i = Some a → sort_by rank_le l !! j = Some b →
  f64_ltb (score_key b) (score_key a) = true
  ∨ f64_ltb (score_key a) (score_key b) = false ∧ f64_ltb (score_key b) (score_key a) = false
    ∧ String.ltb (cd_node_id a) (cd_node_id b) = true.
Proof.
  intros Hnan Hnd Hij Hi Hj.
  assert (∀ c k, sort_by rank_le l !! k = Some c → c ∈ l) as Hin
    by (intros c k Hk%list_elem_of_lookup_2; by rewrite sort_by_Permutation in Hk).
  pose proof (Hin _ _ Hi) as Ha. pose proof (Hin _ _ Hj) as Hb.
  assert (cd_node_id a ≠ cd_node_id b) as Hne.
  { intros E. rewrite <-(sort_by_Permutation rank_le l) in Hnd.
    assert (i = j); [|lia]. eapply (NoDup_lookup _ _ _ (cd_node_id a) Hnd); rewrite list_lookup_fmap; [by rewrite Hi|by rewrite Hj, E]. }
  rewrite (sort_by_ext rank_le rank_le_key) in Hi, Hj by (intros; apply rank_le_keys; auto).
  pose proof (StronglySorted_lookup_2 _ _ _ _ _ _ (sort_by_sorted rank_le_key l) Hij Hi Hj) as Hle. cbv beta in Hle.
  rewrite <-rank_le_keys in Hle by auto. unfold rank_le in Hle.
  destruct (f64_ltb (score_key b) (score_key a)); [by left|right]. apply andb_true_iff in Hle as [Hlt%negb_true_iff Hle].
  split_and!; [done|done|]. unfold String.leb, String.ltb in *. destruct (String.compare _ _) eqn:E; try done.
  by apply String.compare_eq_iff in E.
Qed.

(** C39: placement ranks exactly the nodes that satisfy every constraint of the request, each once, and
    selects the first.  Every node it was shown is judged under its own name, and a node that passes
    is given the score of the rules.  Unless a score is not a number, of two ranked nodes the earlier
    one has the higher score, or the same score and the smaller name. *)
Theorem place_ranks_admissible snapshot_digest request_digest ttl q snapshots now d :
  place snapshot_digest request_digest ttl q snapshots now = Ok d →
  (∀ id, id ∈ pd_ranked_node_ids d ↔ ∃ s, s ∈ snapshots ∧ ns_id s = id ∧ admissible ttl q now s ∧ has_room q s)
  ∧ NoDup (pd_ranked_node_ids d) ∧ pd_selected_node_id d = head (pd_ranked_node_ids d)
  ∧ cd_node_id <$> pd_candidates d ≡ₚ ns_id <$> snapshots
  ∧ (∀ c, c ∈ pd_candidates d → cd_eligible c = true → ∃ s, s ∈ snapshots ∧ ns_id s = cd_node_id c ∧ cd_score c = node_score q s)
  ∧ ((∀ s, s ∈ snapshots → node_score q s ≠ Some S754_nan) →
     ∀ i j a b, (i < j)%nat → pd_ranked_node_ids d !! i = Some a → pd_ranked_node_ids d !! j = Some b →
     ∃ sa sb x y, sa ∈ snapshots ∧ sb ∈ snapshots ∧ ns_id sa = a ∧ ns_id sb = b
       ∧ node_score q sa = Some x ∧ node_score q sb = Some y
       ∧ (f64_ltb y x = true ∨ f64_ltb x y = false ∧ f64_ltb y x = false ∧ String.ltb a b = true)).
Proof.
  unfold place. intros H. res_inv. to_prop.
  match goal with H : Forall2 _ _ _ |- _ => rename H into Hall end. match goal with H : NoDup _ |- _ => rename H into Hnd end.
  pose proof (judged_names _ _ _ _ _ Hall) as Hnames. rewrite <-Hnames in Hnd.
  assert (ns_id <$> sort_by snapshot_le snapshots ≡ₚ ns_id <$> snapshots) as Hperm by (apply fmap_Permutation, sort_by_Permutation).
  set (ds := a1) in *.
  assert (∀ c, c ∈ ds → cd_eligible c = true → ∃ s x, s ∈ snapshots ∧ ns_id s = cd_node_id c ∧ cd_score c = Some x ∧ node_score q s = Some x)
    as Hscore.
  { intros c Hc He. destruct (judged _ _ _ _ _ _ Hall Hc) as (s & Hs & Ha). rewrite sort_by_Permutation in Hs.
    apply assess_ok in Ha as (Hid & _ & Hsc). destruct (Hsc He) as [[x Hx] Heq]. exists s, x. split_and!; congruence. }
  split_and!; [|by rewrite sort_by_Permutation; apply NoDup_kept|done|by rewrite Hnames| |].
  - intros id. rewrite sort_by_Permutation, list_elem_of_fmap. split.
    + intros (c & -> & [Hc He]%elem_of_kept). destruct (judged _ _ _ _ _ _ Hall Hc) as (s & Hs & Ha).
      apply assess_ok in Ha as (-> & Hadm & _). exists s. rewrite sort_by_Permutation in Hs. split_and!; [done..| |]; by apply Hadm.
    + intros (s & Hs & <- & Hadm). rewrite <-(sort_by_Permutation snapshot_le) in Hs. apply list_elem_of_lookup in Hs as [i Hi].
      destruct (Forall2_lookup_l _ _ _ _ _ Hall Hi) as (c & Hc & Ha). apply assess_ok in Ha as (Hid & He & _). exists c.
      split; [done|]. apply elem_of_kept. split; [by eapply list_elem_of_lookup_2|by apply He].
  - intros c Hc He. destruct (Hscore c Hc He) as (s & x & ? & ? & -> & <-). by exists s.
  - intros Hnan i j x y Hij Hi Hj. rewrite list_lookup_fmap in Hi, Hj.
    apply fmap_Some in Hi as (ca & Hi & ->), Hj as (cb & Hj & ->).
    assert (∀ c, c ∈ List.filter cd_eligible ds → ∃ s x, s ∈ snapshots ∧ ns_id s = cd_node_id c ∧ score_key c = x ∧ node_score q s = Some x) as Hkept.
    { intros c [Hc He]%elem_of_kept. destruct (Hscore c Hc He) as (s & v & ? & ? & Hv & ?). exists s, v. unfold score_key. by rewrite Hv. }
    assert (∀ c k, sort_by rank_le (List.filter cd_eligible ds) !! k = Some c → c ∈ List.filter cd_eligible ds) as Hin
      by (intros c k Hk%list_elem_of_lookup_2; by rewrite sort_by_Permutation in Hk).
    destruct (Hkept ca (Hin _ _ Hi)) as (sa & xa & ? & ? & Ea & ?), (Hkept cb (Hin _ _ Hj)) as (sb & xb & ? & ? & Eb & ?).
    exists sa, sb, xa, xb. split_and!; try done. rewrite <-Ea, <-Eb. apply (ranked_before (List.filter cd_eligible ds) i j); try done.
    + intros c Hc. destruct (Hkept c Hc) as (s & v & Hs & _ & -> & Hv). intros ->. by apply (Hnan s Hs).
    + by apply NoDup_kept.
Qed.

(** ** Examples *)

Definition demo_node (id : string) (caps : gset ComputeCapability) : ComputeNode :=
  MkNode id None true {[BUILD; TEST]} caps ∅ (NInt 0).
Definition demo_snapshot (n : ComputeNode) (at_ ram jobs : Z) : NodeSnapshot :=
  MkSnapshot n at_ None HEALTHY {[CPU; CMAKE]} {[BUILD]} (MkResources None None (Some ram) None None None None None None) (Some jobs) None [] None.
Definition demo_request : WorkloadRequest :=
  MkWorkload "req" BUILD {[CMAKE]} ∅ [] None (Some 1073741824) (Some 0) (Some 0) None false false false ∅ {["n3"]} None false false None 0 None.
Definition demo_snapshots : list NodeSnapshot :=
  [demo_snapshot (demo_node "n2" {[CPU; CMAKE]}) 0 2147483648 0; demo_snapshot (demo_node "n1" {[CPU; CMAKE]}) 0 2147483648 0;
   demo_snapshot (demo_node "n3" {[CPU; CMAKE]}) 0 9147483648 0; demo_snapshot (demo_node "n0" {[CPU]}) 0 9147483648 0].

Lemma place_ranks_admissible_witness :
  ∃ d, place (λ _, "") (λ _, "") 30000000 demo_request demo_snapshots 1000000 = Ok d
  ∧ pd_ranked_node_ids d = ["n1"; "n2"] ∧ NoDup (pd_ranked_node_ids d) ∧ pd_selected_node_id d = Some "n1"
  ∧ ∃ sa sb x y, sa ∈ demo_snapshots ∧ sb ∈ demo_snapshots ∧ node_score demo_request sa = Some x ∧ node_score demo_request sb = Some y
      ∧ (f64_ltb y x = true ∨ f64_ltb x y = false ∧ f64_ltb y x = false ∧ String.ltb "n1" "n2" = true).
Proof.
  destruct (place (λ _, "") (λ _, "") 30000000 demo_request demo_snapshots 1000000) as [d|] eqn:E; [|vm_compute in E; discriminate E].
  exists d. assert (pd_ranked_node_ids d = ["n1"; "n2"]) as Hr by (vm_compute in E; injection E as <-; reflexivity).
  destruct (place_ranks_admissible _ _ _ _ _ _ _ E) as (_ & Hn & Hs & _ & _ & Horder). rewrite Hr in Hs.
  split_and!; [reflexivity|exact Hr|exact Hn|exact Hs|].
  destruct (Horder) with (i := 0%nat) (j := 1%nat) (a := "n1") (b := "n2") as (sa & sb & x & y & Ha & Hb & _ & _ & Hx & Hy & Ho).
  - unfold demo_snapshots. intros s Hsn. rewrite !elem_of_cons, elem_of_nil in Hsn.
    destruct Hsn as [->|[->|[->|[->|[]]]]]; vm_compute; discriminate.
  - constructor.
  - by rewrite Hr.
  - by rewrite Hr.
  - by exists sa, sb, x, y.
Defined.
