(* ===== verification/ComputeIndex.v ===== *)
(** The node registry and its index: [application/compute_fabric/index.py] and
    [application/compute_fabric/registry.py].

    The postings are finite sets of node names by key.  The expiry heap is the sorted list of its
    entries, of which the code only sees the least.  An update that raises after it has changed part
    of the index leaves what it changed, so an operation returns the state with its outcome.  The
    random generation, the digest of a snapshot and the clock are arguments; a page cursor is the
    pair its text encodes, or a text that does not decode to one. *)
From stdpp Require Import functions.
From S2P Require Import Prelude PyText PyFloat PyNumText PyDate WorkerCapacity ComputeFabric.
From Stdlib Require Import Ascii.

Local Open Scope Z_scope.

(** ** Postings *)

Inductive posting_key :=
  | KLocal (b : bool)
  | KWorkload (w : WorkloadKind)
  | KCap (c : ComputeCapability)
  | KWorkspace (s : string)
  | KModel (s : string).
#[export] Instance posting_key_eq_dec : EqDecision posting_key.
Proof. solve_decision. Defined.
#[export] Program Instance posting_key_countable : Countable posting_key :=
  inj_countable'
    (λ k, match k with
          | KLocal b => inl (inl b) | KWorkload w => inl (inr w) | KCap c => inr (inl c)
          | KWorkspace s => inr (inr (inl s)) | KModel s => inr (inr (inr s))
          end)
    (λ v, match v with
          | inl (inl b) => KLocal b | inl (inr w) => KWorkload w | inr (inl c) => KCap c
          | inr (inr (inl s)) => KWorkspace s | inr (inr (inr s)) => KModel s
          end) _.
Next Obligation. by intros []. Qed.

Notation Postings := (gmap posting_key (gset string)).
Definition posting (m : Postings) (k : posting_key) : gset string := default ∅ (m !! k).
Definition post (id : string) (m : Postings) (k : posting_key) : Postings := <[k := {[id]} ∪ posting m k]> m.
(** [posting.discard(identity)], and the key goes with its last name. *)
Definition unpost (id : string) (m : Postings) (k : posting_key) : Postings :=
  let rest := posting m k ∖ {[id]} in if decide (rest = ∅) then delete k m else <[k := rest]> m.

Definition _static_keys (n : ComputeNode) : list posting_key :=
  KLocal (nd_local n) :: (KWorkload <$> elements (nd_allowed_workloads n)) ++ (KCap <$> elements (nd_configured_capabilities n))
  ++ (KWorkspace <$> elements (nd_workspace_mappings n)).
Definition _live_keys (s : NodeSnapshot) : list posting_key :=
  KLocal (nd_local (ns_node s)) :: (KWorkload <$> elements (effective_workloads s)) ++ (KCap <$> elements (effective_capabilities s))
  ++ (KModel <$> ns_models s).

(** ** The index *)

(** An entry of the heap: when it expires, the revision of the observation, its node. *)
Definition Expiry : Type := Z * Z * string.
Definition expiry_le (a b : Expiry) : bool :=
  (a.1.1 <? b.1.1) || ((a.1.1 =? b.1.1) && ((a.1.2 <? b.1.2) || ((a.1.2 =? b.1.2) && String.leb a.2 b.2))).

Record ComputeIndex := MkIndex {
  ix_generation : string;
  ix_revision : Z;
  ix_nodes : gmap string ComputeNode;
  ix_static : Postings;
  ix_live : Postings;
  ix_observations : gmap string NodeSnapshot;
  ix_digests : gmap string string;
  ix_versions : gmap string Z;
  ix_ttl : Z;
  ix_expiry : list Expiry;
  ix_stale : gset string;
  ix_fresh_health : NodeHealth → Z;
  ix_active_jobs : Z;
  ix_last_summary_at : option Z
}.
Definition ix_ids (ix : ComputeIndex) : list string := sorted_text (map_to_list (ix_nodes ix)).*1.

Definition ComputeIndex_init (generation : string) (nodes : list ComputeNode) (ttl : Z) : ComputeIndex :=
  MkIndex generation 0 (list_to_map ((λ n, (nd_node_id n, n)) <$> nodes))
    (foldl (λ m n, foldl (post (nd_node_id n)) m (_static_keys n)) ∅ nodes)
    ∅ ∅ ∅ ∅ ttl [] ∅ (λ _, 0) 0 None.

(** [freshness_at + ttl], which must be a date. *)
Definition expires_at (ttl : Z) (s : NodeSnapshot) : res Z :=
  let t := freshness_at s + ttl in
  if (min_us <=? t) && (t <? end_us) then Ok t else throw OverflowError "date value out of range".

Definition set_expiry (ix : ComputeIndex) (l : list Expiry) : ComputeIndex :=
  MkIndex (ix_generation ix) (ix_revision ix) (ix_nodes ix) (ix_static ix) (ix_live ix) (ix_observations ix) (ix_digests ix)
    (ix_versions ix) (ix_ttl ix) l (ix_stale ix) (ix_fresh_health ix) (ix_active_jobs ix) (ix_last_summary_at ix).

Definition entry_of (ix : ComputeIndex) (kv : string * NodeSnapshot) : res Expiry :=
  t ← expires_at (ix_ttl ix) kv.2; Ok (t, default 0 (ix_versions ix !! kv.1), kv.1).
Definition _rebuild_expiry (ix : ComputeIndex) : ComputeIndex * res unit :=
  match mapM_res (entry_of ix) (filter (λ kv, kv.1 ∉ ix_stale ix) (map_to_list (ix_observations ix))) with
  | Ok l => (set_expiry ix (sort_by expiry_le l), Ok tt)
  | Err e => (ix, Err e)
  end.

(** The prior observation is taken out of the postings and the counts. *)
Definition forget_prior (ix : ComputeIndex) (id : string) (prior : NodeSnapshot) : ComputeIndex * res unit :=
  let live := foldl (unpost id) (ix_live ix) (_live_keys prior) in
  let with_live active health :=
    MkIndex (ix_generation ix) (ix_revision ix) (ix_nodes ix) (ix_static ix) live (ix_observations ix) (ix_digests ix)
      (ix_versions ix) (ix_ttl ix) (ix_expiry ix) (ix_stale ix) health active (ix_last_summary_at ix) in
  match ns_active_jobs prior with
  | None => (with_live (ix_active_jobs ix) (ix_fresh_health ix), throw TypeError "unsupported operand type(s) for -=")
  | Some j =>
      (with_live (ix_active_jobs ix - j)
         (if decide (id ∈ ix_stale ix) then ix_fresh_health ix
          else <[ns_health prior := ix_fresh_health ix (ns_health prior) - 1]> (ix_fresh_health ix)), Ok tt)
  end.

(** The new observation is entered. *)
Definition enter (ix : ComputeIndex) (id digest : string) (s : NodeSnapshot) : ComputeIndex * res unit :=
  let revision := ix_revision ix + 1 in
  let entered live active health expiry :=
    MkIndex (ix_generation ix) revision (ix_nodes ix) (ix_static ix) live (<[id := s]> (ix_observations ix))
      (<[id := digest]> (ix_digests ix)) (<[id := revision]> (ix_versions ix)) (ix_ttl ix) expiry (ix_stale ix ∖ {[id]}) health active
      (ix_last_summary_at ix) in
  match ns_active_jobs s with
  | None => (entered (ix_live ix) (ix_active_jobs ix) (ix_fresh_health ix) (ix_expiry ix), throw TypeError "unsupported operand type(s) for +=")
  | Some j =>
      let active := ix_active_jobs ix + j in
      let health := <[ns_health s := ix_fresh_health ix (ns_health s) + 1]> (ix_fresh_health ix) in
      let live := foldl (post id) (ix_live ix) (_live_keys s) in
      match expires_at (ix_ttl ix) s with
      | Err e => (entered live active health (ix_expiry ix), Err e)
      | Ok t =>
          let ix' := entered live active health (insert_by expiry_le (t, revision, id) (ix_expiry ix)) in
          if Z.max 1 (2 * Z.of_nat (size (ix_nodes ix))) <? zlen (ix_expiry ix') then _rebuild_expiry ix' else (ix', Ok tt)
      end
  end.

Definition update (snapshot_digest : NodeSnapshot → string) (ix : ComputeIndex) (s : NodeSnapshot) : ComputeIndex * res unit :=
  let digest := snapshot_digest s in
  let id := ns_id s in
  match ix_observations ix !! id with
  | None => enter ix id digest s
  | Some prior =>
      match forget_prior ix id prior with
      | (ix', Err e) => (ix', Err e)
      | (ix', Ok _) => enter ix' id digest s
      end
  end.

(** The loop that pops entries that lie before [now]. *)
Fixpoint pop_expired (now : Z) (versions : gmap string Z) (observations : gmap string NodeSnapshot) (l : list Expiry)
  (stale : gset string) (fresh : NodeHealth → Z) : list Expiry * gset string * (NodeHealth → Z) :=
  match l with
  | [] => ([], stale, fresh)
  | (t, revision, id) :: rest =>
      if t <? now then
        match observations !! id with
        | Some s =>
            if bool_decide (versions !! id = Some revision) && bool_decide (id ∉ stale)
            then pop_expired now versions observations rest ({[id]} ∪ stale) (<[ns_health s := fresh (ns_health s) - 1]> fresh)
            else pop_expired now versions observations rest stale fresh
        | None => pop_expired now versions observations rest stale fresh
        end
      else (l, stale, fresh)
  end.

Record Summary := MkSummary {
  sm_configured : Z; sm_live : Z; sm_healthy : Z; sm_unhealthy : Z; sm_stale : Z; sm_active_jobs : Z
}.

Definition count_health (m : gmap string NodeSnapshot) (h : NodeHealth) : Z :=
  zlen (filter (λ kv : string * NodeSnapshot, ns_health kv.2 = h) (map_to_list m)).

(** A clock that went back makes every observation fresh again. *)
Definition rewind (ix : ComputeIndex) : ComputeIndex * res unit :=
  _rebuild_expiry (MkIndex (ix_generation ix) (ix_revision ix) (ix_nodes ix) (ix_static ix) (ix_live ix) (ix_observations ix)
    (ix_digests ix) (ix_versions ix) (ix_ttl ix) (ix_expiry ix) ∅ (count_health (ix_observations ix)) (ix_active_jobs ix) (ix_last_summary_at ix)).

Definition summary (ix : ComputeIndex) (now : Z) : ComputeIndex * res Summary :=
  let '(ix1, out) := match ix_last_summary_at ix with
                     | Some t => if now <? t then rewind ix else (ix, Ok tt)
                     | None => (ix, Ok tt)
                     end in
  match out with
  | Err e => (ix1, Err e)
  | Ok _ =>
      let '(expiry, stale, fresh) := pop_expired now (ix_versions ix1) (ix_observations ix1) (ix_expiry ix1) (ix_stale ix1) (ix_fresh_health ix1) in
      (MkIndex (ix_generation ix1) (ix_revision ix1) (ix_nodes ix1) (ix_static ix1) (ix_live ix1) (ix_observations ix1) (ix_digests ix1)
         (ix_versions ix1) (ix_ttl ix1) expiry stale fresh (ix_active_jobs ix1) (Some now),
       Ok (MkSummary (Z.of_nat (size (ix_nodes ix1))) (Z.of_nat (size (ix_observations ix1)) - Z.of_nat (size stale)) (fresh HEALTHY)
             (fresh UNHEALTHY) (Z.of_nat (size stale)) (ix_active_jobs ix1)))
  end.

(** ** Queries *)

(** [set().union(...)] over the alternatives of a group *)
Definition any_posting (m : Postings) (g : gset ComputeCapability) : gset string := ⋃ ((λ c, posting m (KCap c)) <$> elements g).

(** [smallest, *others = sorted(sets, key=len)], and the intersection of all. *)
Definition intersect_sets (sets : list (gset string)) : option (gset string) :=
  match sort_by (λ a b : gset string, (size a <=? size b)%nat) sets with
  | [] => None
  | smallest :: others => Some (foldl (∩) smallest others)
  end.

Definition any_groups (q : WorkloadRequest) : list (gset ComputeCapability) :=
  (if decide (wr_any_capabilities q = ∅) then [] else [wr_any_capabilities q]) ++ wr_any_capability_groups q.

Definition matching_sets (ix : ComputeIndex) (q : WorkloadRequest) (observed : bool) (local : option bool) : list (gset string) :=
  let m := if observed then ix_live ix else ix_static ix in
  posting m (KWorkload (wr_kind q))
  :: (match local with Some b => [posting m (KLocal b)] | None => [] end)
  ++ ((λ c, posting m (KCap c)) <$> elements (wr_required_capabilities q))
  ++ (any_posting m <$> any_groups q)
  ++ (match wr_workspace_mapping q with Some w => [posting (ix_static ix) (KWorkspace w)] | None => [] end)
  ++ (match wr_required_model q with Some md => if observed then [posting (ix_live ix) (KModel md)] else [] | None => [] end).
Definition matching (ix : ComputeIndex) (q : WorkloadRequest) (observed : bool) (local : option bool) : gset string :=
  default ∅ (intersect_sets (matching_sets ix q observed local)) ∖ wr_avoided_node_ids q.

Definition capability_ids (ix : ComputeIndex) (required any : gset ComputeCapability) (groups : list (gset ComputeCapability))
  (local : option bool) : res (gset string) :=
  _ ← require ((zlen groups <=? 16) && forallb (λ g, negb (bool_decide (g = ∅))) groups) ValueError
        "any_capability_groups must contain bounded capability sets";
  let sets := (match local with Some b => [posting (ix_live ix) (KLocal b)] | None => [] end)
              ++ ((λ c, posting (ix_live ix) (KCap c)) <$> elements required)
              ++ (any_posting (ix_live ix) <$> (if decide (any = ∅) then [] else [any]) ++ groups) in
  Ok (default (dom (ix_observations ix)) (intersect_sets sets)).

Record PlacementInventoryScope := MkScope {
  sc_generation : string; sc_revision : Z; sc_configured : Z; sc_observed : Z; sc_considered : Z; sc_excluded : Z
}.
Record IndexedCandidates := MkCandidates {
  ic_snapshots : list NodeSnapshot; ic_digests : list (string * string); ic_scope : PlacementInventoryScope
}.

(** [sorted(ids)]; a name that is not observed raises. *)
Definition candidates_from_ids (ix : ComputeIndex) (ids : gset string) (configured observed : Z) : res IndexedCandidates :=
  let names := sorted_text (elements ids) in
  snapshots ← mapM_res (λ id, match ix_observations ix !! id with Some s => Ok s | None => throw KeyError id end) names;
  digests ← mapM_res (λ id, match ix_digests ix !! id with Some d => Ok (id, d) | None => throw KeyError id end) names;
  Ok (MkCandidates snapshots digests
        (MkScope (ix_generation ix) (ix_revision ix) configured observed (zlen names) (Z.max 0 (observed - zlen names)))).

Definition local_count (all : Z) (m : Postings) (local : option bool) : Z :=
  match local with None => all | Some b => Z.of_nat (size (posting m (KLocal b))) end.
Definition candidates (ix : ComputeIndex) (q : WorkloadRequest) (local : option bool) : res IndexedCandidates :=
  candidates_from_ids ix (matching ix q true local) (local_count (Z.of_nat (size (ix_nodes ix))) (ix_static ix) local)
    (local_count (Z.of_nat (size (ix_observations ix))) (ix_live ix) local).

(** ** The registry *)

Record Registry := MkRegistry {
  rg_nodes : gmap string ComputeNode;
  rg_observations : gmap string NodeSnapshot;
  rg_probe_errors : gmap string string;
  rg_ttl : Z;
  rg_index : ComputeIndex
}.

Definition Registry_init (generation : string) (nodes : list ComputeNode) (ttl : Z) : res Registry :=
  _ ← require ((0 <? ttl) && (ttl <=? 3600000000)) ValueError "snapshot_ttl must be within zero and one hour";
  _ ← require (no_dups (nd_node_id <$> nodes)) ValueError "duplicate configured node identity";
  Ok (MkRegistry (list_to_map ((λ n, (nd_node_id n, n)) <$> nodes)) ∅ ∅ ttl (ComputeIndex_init generation nodes ttl)).

Definition get_node (rg : Registry) (id : string) : res ComputeNode :=
  match rg_nodes rg !! id with Some n => Ok n | None => throw KeyError ("compute node " +:+ id +:+ " is not configured") end.

Definition receipt_time (s : NodeSnapshot) : Z := default (ns_observed_at s) (ns_received_at s).

(** [replace(snapshot, node=..., received_at=..., health=...)] *)
Definition rebind (s : NodeSnapshot) (node : ComputeNode) (received : Z) (health : NodeHealth) : NodeSnapshot :=
  MkSnapshot node (ns_observed_at s) (Some received) health (ns_live_capabilities s) (ns_advertised_workloads s) (ns_resources s)
    (ns_active_jobs s) (ns_round_trip_ms s) (ns_models s) (ns_evidence_ref s).

(** The index first, then the observation and the error of the node. *)
Definition record_observation (snapshot_digest : NodeSnapshot → string) (rg : Registry) (s : NodeSnapshot) (error : option string)
  : Registry * res NodeSnapshot :=
  let id := ns_id s in
  match update snapshot_digest (rg_index rg) s with
  | (ix, Err e) => (MkRegistry (rg_nodes rg) (rg_observations rg) (rg_probe_errors rg) (rg_ttl rg) ix, Err e)
  | (ix, Ok _) =>
      (MkRegistry (rg_nodes rg) (<[id := s]> (rg_observations rg))
         (match error with Some e => <[id := e]> (rg_probe_errors rg) | None => delete id (rg_probe_errors rg) end) (rg_ttl rg) ix, Ok s)
  end.

Definition backwards (prior : option NodeSnapshot) (t : Z) : bool := match prior with Some p => t <? receipt_time p | None => false end.
Definition moved_back : string := "compute node receipt time cannot move backwards".

Definition observe (snapshot_digest : NodeSnapshot → string) (rg : Registry) (s : NodeSnapshot) (received_at : option Z)
  : Registry * res NodeSnapshot :=
  let checked :=
    configured ← get_node rg (ns_id s);
    _ ← require (Bool.eqb (nd_local (ns_node s)) (nd_local configured)) ValueError "observed node locality conflicts with configured authority";
    _ ← require (bool_decide (nd_origin (ns_node s) = nd_origin configured)) ValueError "observed node origin conflicts with configured origin";
    let controller_time := match received_at with Some t => t | None => receipt_time s end in
    _ ← require (negb (backwards (rg_observations rg !! nd_node_id configured) controller_time)) ValueError moved_back;
    Ok (rebind s configured controller_time (ns_health s)) in
  match checked with
  | Err e => (rg, Err e)
  | Ok narrowed => record_observation snapshot_digest rg narrowed None
  end.

Definition mark_probe_failed (snapshot_digest : NodeSnapshot → string) (rg : Registry) (id : string) (received_at : Z) (evidence : string)
  : Registry * res NodeSnapshot :=
  let checked :=
    configured ← get_node rg id;
    _ ← require (negb (String.eqb evidence "") && (py_len evidence <=? 512)) ValueError "probe failure evidence must be a bounded string";
    _ ← require (negb (backwards (rg_observations rg !! id) received_at)) ValueError moved_back;
    Ok (match rg_observations rg !! id with
        | None => MkSnapshot configured received_at (Some received_at) UNHEALTHY ∅ ∅ no_resources (Some 0) None [] (Some evidence)
        | Some prior => rebind prior configured received_at UNHEALTHY
        end) in
  match checked with
  | Err e => (rg, Err e)
  | Ok failed => record_observation snapshot_digest rg failed (Some evidence)
  end.

Definition last_probe_error (rg : Registry) (id : string) : res (option string) := _ ← get_node rg id; Ok (rg_probe_errors rg !! id).
Definition last_observation (rg : Registry) (id : string) : res (option NodeSnapshot) := _ ← get_node rg id; Ok (rg_observations rg !! id).
Definition observation_version (rg : Registry) (id : string) : res (option NodeSnapshot * Z) :=
  _ ← get_node rg id; Ok (rg_observations rg !! id, default 0 (ix_versions (rg_index rg) !! id)).
Definition list_snapshots (rg : Registry) : list NodeSnapshot :=
  omap (λ id, rg_observations rg !! id) (sorted_text (map_to_list (rg_observations rg)).*1).
Definition stale_by (ttl now : Z) (s : NodeSnapshot) : bool := ttl <? now - freshness_at s.
Definition is_stale (rg : Registry) (id : string) (now : Z) : res bool :=
  observed ← last_observation rg id;
  Ok (match observed with None => true | Some s => stale_by (rg_ttl rg) now s end).

Definition registry_candidates (rg : Registry) (q : WorkloadRequest) (local : option bool) : res IndexedCandidates :=
  candidates (rg_index rg) q local.
Definition configured_candidates (rg : Registry) (q : WorkloadRequest) (local : option bool) : list ComputeNode :=
  omap (λ id, rg_nodes rg !! id) (sorted_text (elements (matching (rg_index rg) q false local))).
Definition capability_candidates (rg : Registry) (required any : gset ComputeCapability) (groups : list (gset ComputeCapability))
  (local : option bool) : res IndexedCandidates :=
  ids ← capability_ids (rg_index rg) required any groups local;
  candidates_from_ids (rg_index rg) ids (local_count (Z.of_nat (size (rg_nodes rg))) (ix_static (rg_index rg)) local)
    (local_count (Z.of_nat (size (rg_observations rg))) (ix_live (rg_index rg)) local).

Definition inventory_summary (rg : Registry) (now : Z) : Registry * res Summary :=
  let '(ix, out) := summary (rg_index rg) now in
  (MkRegistry (rg_nodes rg) (rg_observations rg) (rg_probe_errors rg) (rg_ttl rg) ix, out).

(** ** Pages *)

Inductive Cursor := CText (generation node_id : string) | CGarbage.

Record InventoryRow := MkRow {
  iv_node_id : string;
  iv_local : bool;
  iv_stale : bool;
  iv_observed : option NodeSnapshot;
  iv_revision : Z;
  iv_workloads : list string;
  iv_capabilities : list string;
  iv_probe_error : string
}.
Record InventoryPage := MkInventory { ip_rows : list InventoryRow; ip_next : option Cursor; ip_generation : string; ip_revision : Z; ip_configured : Z }.

Definition inventory_row (rg : Registry) (now : Z) (id : string) (n : ComputeNode) : InventoryRow :=
  let observed := rg_observations rg !! id in
  MkRow id (nd_local n) (match observed with None => true | Some s => stale_by (rg_ttl rg) now s end) observed
    (default 0 (ix_versions (rg_index rg) !! id)) (sorted_text (workload_value <$> elements (nd_allowed_workloads n)))
    (match observed with Some s => sorted_text (capability_value <$> elements (effective_capabilities s)) | None => [] end)
    (default "" (rg_probe_errors rg !! id)).

(** [bisect_right(ids, after)] of a sorted list *)
Definition bisect_right (l : list string) (x : string) : nat := length (List.filter (λ y, String.leb y x) l).

Definition cursor_after (rg : Registry) (cursor : option Cursor) : res string :=
  match cursor with
  | None => Ok ""
  | Some (CText g id) =>
      _ ← require (String.eqb g (ix_generation (rg_index rg)) && bool_decide (is_Some (rg_nodes rg !! id))) ValueError
            "invalid or expired inventory cursor";
      Ok id
  | Some CGarbage => throw ValueError "invalid or expired inventory cursor"
  end.

Definition inventory_page (rg : Registry) (now : Z) (limit : pyval) (cursor : option Cursor) : res InventoryPage :=
  n ← check_int 1 64 ValueError "inventory limit must be within 1..64" limit;
  after ← cursor_after rg cursor;
  let ids := ix_ids (rg_index rg) in
  let start := bisect_right ids after in
  let identities := take (Z.to_nat n + 1) (drop start ids) in
  let has_more := (Z.to_nat n <? length identities)%nat in
  let selected := take (Z.to_nat n) identities in
  rows ← mapM_res (λ id, match rg_nodes rg !! id with Some node => Ok (inventory_row rg now id node) | None => throw KeyError id end) selected;
  Ok (MkInventory rows
        (if has_more then CText (ix_generation (rg_index rg)) <$> last selected else None)
        (ix_generation (rg_index rg)) (ix_revision (rg_index rg)) (Z.of_nat (size (rg_nodes rg)))).

(** ** Runs *)

Inductive reg_op :=
  | Observe (s : NodeSnapshot) (received_at : option Z)
  | MarkFailed (id : string) (received_at : Z) (evidence : string)
  | Summarise (now : Z).

Definition reg_apply (snapshot_digest : NodeSnapshot → string) (rg : Registry) (o : reg_op) : Registry :=
  match o with
  | Observe s t => (observe snapshot_digest rg s t).1
  | MarkFailed id t e => (mark_probe_failed snapshot_digest rg id t e).1
  | Summarise now => (inventory_summary rg now).1
  end.
Definition reg_run (snapshot_digest : NodeSnapshot → string) (rg : Registry) (l : list reg_op) : Registry :=
  foldl (reg_apply snapshot_digest) rg l.

(** ** Postings *)

Lemma posting_insert m k X k' : posting (<[k := X]> m) k' = if decide (k' = k) then X else posting m k'.
Proof. unfold posting. destruct (decide (k' = k)) as [->|]; [by rewrite lookup_insert_eq|by rewrite lookup_insert_ne]. Qed.

Lemma posting_delete m k k' : posting (delete k m) k' = if decide (k' = k) then ∅ else posting m k'.
Proof. unfold posting. destruct (decide (k' = k)) as [->|]; [by rewrite lookup_delete_eq|by rewrite lookup_delete_ne]. Qed.

Lemma posting_post id m k k' : posting (post id m k) k' = if decide (k' = k) then {[id]} ∪ posting m k' else posting m k'.
Proof. unfold post. rewrite posting_insert. by destruct (decide (k' = k)) as [->|]. Qed.

Lemma posting_unpost id m k k' : posting (unpost id m k) k' = if decide (k' = k) then posting m k' ∖ {[id]} else posting m k'.
Proof.
  unfold unpost. cbv zeta. destruct (decide (posting m k ∖ {[id]} = ∅)) as [E|E]; rewrite ?posting_insert, ?posting_delete;
    by destruct (decide (k' = k)) as [->|].
Qed.

Lemma elem_posts id ks : ∀ m k x, x ∈ posting (foldl (post id) m ks) k ↔ x ∈ posting m k ∨ (x = id ∧ k ∈ ks).
Proof.
  induction ks as [|k0 ks IH]; intros m k x; cbn [foldl]; [set_solver|]. rewrite IH, posting_post.
  destruct (decide (k = k0)) as [->|]; set_solver.
Qed.

Lemma elem_unposts id ks : ∀ m k x, x ∈ posting (foldl (unpost id) m ks) k ↔ x ∈ posting m k ∧ ¬ (x = id ∧ k ∈ ks).
Proof.
  induction ks as [|k0 ks IH]; intros m k x; cbn [foldl]; [set_solver|]. rewrite IH, posting_unpost.
  destruct (decide (k = k0)) as [->|]; set_solver.
Qed.

(** ** Sums over the observations *)

Definition keyed_sum {A} (f : string → A → Z) (m : gmap string A) : Z := map_fold (λ i x acc, f i x + acc) 0 m.

Lemma keyed_sum_insert {A} (f : string → A → Z) m i x : m !! i = None → keyed_sum f (<[i := x]> m) = f i x + keyed_sum f m.
Proof. intros Hi. unfold keyed_sum. rewrite map_fold_insert_L; [done|intros; lia|done]. Qed.

Lemma keyed_sum_ext {A} (f g : string → A → Z) m : (∀ i x, m !! i = Some x → f i x = g i x) → keyed_sum f m = keyed_sum g m.
Proof.
  induction m as [|i x m Hi IH] using map_ind; intros Hfg; [done|]. rewrite !keyed_sum_insert by done.
  rewrite (Hfg i x) by apply lookup_insert_eq. f_equal. apply IH. intros j y Hj. apply Hfg. rewrite lookup_insert_ne; [done|congruence].
Qed.

Lemma keyed_sum_take {A} (f : string → A → Z) m i x : m !! i = Some x → keyed_sum f m = f i x + keyed_sum f (delete i m).
Proof. intros Hi. rewrite <-(keyed_sum_insert f _ i x) by apply lookup_delete_eq. by rewrite insert_delete_id. Qed.

(** Replacing an entry, with another measure on the others that agrees. *)
Lemma keyed_sum_put {A} (f g : string → A → Z) m i x : (∀ j y, j ≠ i → m !! j = Some y → g j y = f j y) →
  keyed_sum g (<[i := x]> m) = g i x + (keyed_sum f m - match m !! i with Some y => f i y | None => 0 end).
Proof.
  intros Hfg. rewrite <-insert_delete_eq, keyed_sum_insert by apply lookup_delete_eq. f_equal.
  assert (keyed_sum g (delete i m) = keyed_sum f (delete i m)) as ->.
  { apply keyed_sum_ext. intros j y [Hne Hj]%lookup_delete_Some. by apply Hfg. }
  destruct (m !! i) as [y|] eqn:Hi; [rewrite (keyed_sum_take f m i y Hi); lia|rewrite delete_id by done; lia].
Qed.

Lemma keyed_sum_one {A} (f g : string → A → Z) m i x : m !! i = Some x → (∀ j y, j ≠ i → m !! j = Some y → g j y = f j y) →
  keyed_sum g m = keyed_sum f m - f i x + g i x.
Proof.
  intros Hi Hfg. rewrite <-(insert_id m i x) at 1 by done. rewrite (keyed_sum_put f g) by done. rewrite Hi. lia.
Qed.

Lemma size_keyed {A} (m : gmap string A) : Z.of_nat (size m) = keyed_sum (λ _ _, 1) m.
Proof.
  induction m as [|i x m Hi IH] using map_ind; [done|]. rewrite map_size_insert_None, keyed_sum_insert by done. lia.
Qed.

Lemma size_set_keyed {A} (m : gmap string A) (X : gset string) : X ⊆ dom m →
  Z.of_nat (size X) = keyed_sum (λ i _, if decide (i ∈ X) then 1 else 0) m.
Proof.
  revert m. induction X as [|i X Hi IH] using set_ind_L; intros m Hs.
  - rewrite size_empty. rewrite (keyed_sum_ext _ (λ _ _, 0)) by (intros j y _; by rewrite decide_False by set_solver).
    clear. induction m as [|j y m Hj IH] using map_ind; [done|]. rewrite keyed_sum_insert by done. lia.
  - rewrite size_union, size_singleton by set_solver. assert (is_Some (m !! i)) as [x Hx] by (apply elem_of_dom; set_solver).
    rewrite (keyed_sum_one (λ i _, if decide (i ∈ X) then 1 else 0) _ m i x Hx).
    + rewrite decide_False, decide_True by set_solver. rewrite <-(IH m) by set_solver. lia.
    + intros j y Hne _. destruct (decide (j ∈ X)); [rewrite decide_True by set_solver|rewrite decide_False by set_solver]; done.
Qed.

Lemma count_health_keyed m h : count_health m h = keyed_sum (λ _ s, if decide (ns_health s = h) then 1 else 0) m.
Proof.
  unfold count_health, zlen. induction m as [|i x m Hi IH] using map_ind; [done|]. rewrite keyed_sum_insert by done.
  rewrite (map_to_list_insert m i x Hi). rewrite filter_cons. cbn. case_decide; cbn [length]; lia.
Qed.

(** ** The invariant of the index *)

(** An observation the index can hold: it counts its jobs, and its times are dates to which the
    time to live can be added. *)
Definition sound_time (ttl t : Z) : Prop := min_us <= t ∧ t + ttl < end_us.
Definition sound_snapshot (ttl : Z) (s : NodeSnapshot) : Prop :=
  is_Some (ns_active_jobs s) ∧ sound_time ttl (ns_observed_at s) ∧ ∀ t, ns_received_at s = Some t → min_us <= t.

Definition fresh_weight (stale : gset string) (h : NodeHealth) (id : string) (s : NodeSnapshot) : Z :=
  if decide (ns_health s = h ∧ id ∉ stale) then 1 else 0.
Definition jobs_weight (_ : string) (s : NodeSnapshot) : Z := default 0 (ns_active_jobs s).

Record index_core (ix : ComputeIndex) : Prop := {
  ok_ttl : 0 < ix_ttl ix;
  ok_sound : ∀ id s, ix_observations ix !! id = Some s → sound_snapshot (ix_ttl ix) s;
  ok_live : ∀ k id, id ∈ posting (ix_live ix) k ↔ ∃ s, ix_observations ix !! id = Some s ∧ k ∈ _live_keys s;
  ok_digests : dom (ix_digests ix) = dom (ix_observations ix);
  ok_versions : ∀ id, is_Some (ix_observations ix !! id) ↔ is_Some (ix_versions ix !! id);
  ok_revision : ∀ id v, ix_versions ix !! id = Some v → v <= ix_revision ix;
  ok_jobs : ix_active_jobs ix = keyed_sum jobs_weight (ix_observations ix);
  ok_fresh : ∀ h, ix_fresh_health ix h = keyed_sum (fresh_weight (ix_stale ix) h) (ix_observations ix);
  ok_stale : ∀ id, id ∈ ix_stale ix → ∃ s t, ix_observations ix !! id = Some s ∧ ix_last_summary_at ix = Some t ∧ freshness_at s + ix_ttl ix < t
}.
Record index_heap (ix : ComputeIndex) : Prop := {
  ok_sorted : StronglySorted (λ a b, expiry_le a b = true) (ix_expiry ix);
  ok_entries : ∀ t v id, (t, v, id) ∈ ix_expiry ix → v <= ix_revision ix
    ∧ ∀ s, ix_versions ix !! id = Some v → ix_observations ix !! id = Some s → t = freshness_at s + ix_ttl ix;
  ok_pending : ∀ id s v, ix_observations ix !! id = Some s → ix_versions ix !! id = Some v → id ∉ ix_stale ix →
    (freshness_at s + ix_ttl ix, v, id) ∈ ix_expiry ix
}.
Definition index_ok (ix : ComputeIndex) : Prop := index_core ix ∧ index_heap ix.

Lemma sound_expires ttl s : 0 < ttl → sound_snapshot ttl s → expires_at ttl s = Ok (freshness_at s + ttl).
Proof.
  intros Hp (_ & [Ho Hu] & Hr). unfold expires_at. cbv zeta. rewrite (proj2 (andb_true_iff _ _)); [done|].
  rewrite Z.leb_le, Z.ltb_lt. unfold freshness_at. destruct (ns_received_at s) as [t|]; [specialize (Hr t eq_refl)|]; lia.
Qed.

#[export] Instance expiry_sort_key : SortKey expiry_le.
Proof.
  unfold expiry_le. split.
  - intros x y. rewrite !orb_true_iff, !andb_true_iff, !orb_true_iff, !andb_true_iff, !Z.ltb_lt, !Z.eqb_eq.
    destruct (Z.lt_trichotomy x.1.1 y.1.1) as [?|[E1|?]]; [left; by left| |right; by left].
    destruct (Z.lt_trichotomy x.1.2 y.1.2) as [?|[E2|?]]; [left; right; split; [done|by left]| |right; right; split; [done|by left]].
    destruct (String.leb_total x.2 y.2); [left|right]; right; (split; [done|right; by split]).
  - intros x y z. rewrite !orb_true_iff, !andb_true_iff, !orb_true_iff, !andb_true_iff, !Z.ltb_lt, !Z.eqb_eq.
    intros [H1|[H1 [H2|[H2 Hs]]]] [H3|[H3 [H4|[H4 Ht]]]]; try (left; lia); right; (split; [lia|]); try (left; lia).
    right. split; [lia|]. by eapply (sort_trans (le := String.leb)).
Qed.

(** Rebuilding the heap. *)
Lemma rebuild_expiry_ok ix : index_core ix → ∃ ix', _rebuild_expiry ix = (ix', Ok tt) ∧ index_ok ix'
  ∧ ix_observations ix' = ix_observations ix ∧ ix_nodes ix' = ix_nodes ix ∧ ix_static ix' = ix_static ix ∧ ix_ttl ix' = ix_ttl ix
  ∧ ix_last_summary_at ix' = ix_last_summary_at ix ∧ ix_generation ix' = ix_generation ix ∧ ix_stale ix' = ix_stale ix.
Proof.
  intros [H1 H2 H3 H4 H5 H6 H7 H8 H9]. unfold _rebuild_expiry.
  set (rows := filter _ _).
  assert (∀ id s, (id, s) ∈ rows ↔ ix_observations ix !! id = Some s ∧ id ∉ ix_stale ix) as Hrows.
  { intros id s. unfold rows. rewrite list_elem_of_filter, elem_of_map_to_list. cbn. tauto. }
  set (entry := λ kv : string * NodeSnapshot, (freshness_at kv.2 + ix_ttl ix, default 0 (ix_versions ix !! kv.1), kv.1)).
  assert (mapM_res (entry_of ix) rows = Ok (entry <$> rows)) as ->.
  { apply mapM_res_ok. apply Forall2_fmap_r, Forall_Forall2_diag, Forall_forall. intros [id s] [Hs _]%Hrows. unfold entry_of. cbn [fst snd].
    by rewrite (sound_expires _ s H1 (H2 id s Hs)). }
  eexists. split; [done|]. split; [|by split_and!]. split; [by constructor|]. constructor; cbn.
  - apply sort_by_sorted, _.
  - intros t v id. rewrite sort_by_Permutation. intros ([i s] & [= -> -> ->] & [Hs Hn]%Hrows)%list_elem_of_fmap. cbn in *.
    destruct (proj1 (H5 i) ltac:(eauto)) as [w Hw]. rewrite Hw. cbn. split; [by eapply H6|]. intros s' _ Hs'. by simplify_eq.
  - intros id s v Hs Hv Hn. rewrite sort_by_Permutation. apply list_elem_of_fmap. exists (id, s). split; [|by apply Hrows].
    unfold entry. cbn. by rewrite Hv.
Qed.

(** What is left when the prior observation of a node has been taken out. *)
Definition prior_weight (f : string → NodeSnapshot → Z) (ix : ComputeIndex) (id : string) : Z :=
  match ix_observations ix !! id with Some p => f id p | None => 0 end.
Definition forgotten (ix : ComputeIndex) (id : string) (ix0 : ComputeIndex) : Prop :=
  ∃ live fresh active,
    ix0 = MkIndex (ix_generation ix) (ix_revision ix) (ix_nodes ix) (ix_static ix) live (ix_observations ix) (ix_digests ix)
            (ix_versions ix) (ix_ttl ix) (ix_expiry ix) (ix_stale ix) fresh active (ix_last_summary_at ix)
    ∧ (∀ k x, x ∈ posting live k ↔ x ≠ id ∧ ∃ s, ix_observations ix !! x = Some s ∧ k ∈ _live_keys s)
    ∧ active = keyed_sum jobs_weight (ix_observations ix) - prior_weight jobs_weight ix id
    ∧ ∀ h, fresh h = keyed_sum (fresh_weight (ix_stale ix) h) (ix_observations ix) - prior_weight (fresh_weight (ix_stale ix) h) ix id.

Lemma forget_none ix id : index_ok ix → ix_observations ix !! id = None → forgotten ix id ix.
Proof.
  intros [[_ _ H3 _ _ _ H7 H8 _] _] Hn. exists (ix_live ix), (ix_fresh_health ix), (ix_active_jobs ix). unfold prior_weight. rewrite Hn.
  split_and!; [by destruct ix| |lia|intros h; rewrite H8; lia].
  intros k x. rewrite H3. split; [|by intros [_ ?]]. intros (s & Hs & Hk). split; [congruence|by exists s].
Qed.

Lemma forget_prior_ok ix id p : index_ok ix → ix_observations ix !! id = Some p →
  ∃ ix0, forget_prior ix id p = (ix0, Ok tt) ∧ forgotten ix id ix0.
Proof.
  intros [[_ H2 H3 _ _ _ H7 H8 _] _] Hp. destruct (H2 id p Hp) as ([j Hj] & _). unfold forget_prior. rewrite Hj.
  eexists. split; [done|]. eexists _, _, _. split; [done|]. unfold prior_weight. rewrite Hp. split_and!.
  - intros k x. rewrite elem_unposts, H3. split.
    + intros [(s & Hs & Hk) Hn]. split; [|by exists s]. intros ->. apply Hn. by simplify_eq.
    + intros [Hne He]. split; [done|]. by intros [? _].
  - rewrite H7. f_equal. unfold jobs_weight. by rewrite Hj.
  - intros h. unfold fresh_weight at 2. destruct (decide (id ∈ ix_stale ix)) as [Hin|Hni].
    + rewrite decide_False by (by intros [_ ?]). rewrite H8. lia.
    + destruct (decide (ns_health p = h)) as [<-|Hne].
      * rewrite decide_True by done. rewrite fn_lookup_insert, H8. lia.
      * rewrite decide_False by (by intros [? _]). rewrite fn_lookup_insert_ne, H8 by done. lia.
Qed.

(** The index with the new observation entered, before the heap is rebuilt. *)
Definition entered (ix ix0 : ComputeIndex) (id digest : string) (s : NodeSnapshot) (jobs t : Z) : ComputeIndex :=
  let revision := ix_revision ix + 1 in
  MkIndex (ix_generation ix) revision (ix_nodes ix) (ix_static ix) (foldl (post id) (ix_live ix0) (_live_keys s))
    (<[id := s]> (ix_observations ix)) (<[id := digest]> (ix_digests ix)) (<[id := revision]> (ix_versions ix)) (ix_ttl ix)
    (insert_by expiry_le (t, revision, id) (ix_expiry ix)) (ix_stale ix ∖ {[id]})
    (<[ns_health s := ix_fresh_health ix0 (ns_health s) + 1]> (ix_fresh_health ix0)) (ix_active_jobs ix0 + jobs) (ix_last_summary_at ix).

Lemma entered_ok ix ix0 id digest s j : index_ok ix → forgotten ix id ix0 → sound_snapshot (ix_ttl ix) s → ns_active_jobs s = Some j →
  index_ok (entered ix ix0 id digest s j (freshness_at s + ix_ttl ix)).
Proof.
  intros [[H1 H2 H3 H4 H5 H6 H7 H8 H9] [H10 H11 H12]] (live & fresh & active & -> & Hlive & -> & Hfresh) Hs Hj.
  split; constructor; cbn -[foldl _live_keys]; try done.
  - intros i x [[<- <-]|[_ Hx]]%lookup_insert_Some; [done|by eapply H2].
  - intros k x. rewrite elem_posts, Hlive. split.
    + intros [[Hne (y & Hy & Hk)]|[-> Hk]]; [exists y; by rewrite lookup_insert_ne|exists s; by rewrite lookup_insert_eq].
    + intros (y & [[<- <-]|[Hne Hy]]%lookup_insert_Some & Hk); [by right|]. left. split; [done|by exists y].
  - by rewrite !dom_insert_L, H4.
  - intros i. rewrite !lookup_insert_is_Some, H5. tauto.
  - intros i v [[_ <-]|[_ Hv]]%lookup_insert_Some; [lia|]. specialize (H6 i v Hv). lia.
  - rewrite (keyed_sum_put jobs_weight jobs_weight) by done. unfold prior_weight.
    assert (jobs_weight id s = j) as -> by (unfold jobs_weight; by rewrite Hj). destruct (ix_observations ix !! id); lia.
  - intros h. rewrite (keyed_sum_put (fresh_weight (ix_stale ix) h) (fresh_weight (ix_stale ix ∖ {[id]}) h))
      by (intros i y Hne _; unfold fresh_weight; apply decide_ext; set_solver).
    assert (fresh_weight (ix_stale ix ∖ {[id]}) h id s = if decide (ns_health s = h) then 1 else 0) as ->
      by (unfold fresh_weight; apply decide_ext; set_solver).
    destruct (decide (ns_health s = h)) as [<-|Hne].
    + rewrite fn_lookup_insert, Hfresh. unfold prior_weight. destruct (ix_observations ix !! id); lia.
    + rewrite fn_lookup_insert_ne, Hfresh by done. unfold prior_weight. destruct (ix_observations ix !! id); lia.
  - intros i [Hi Hne]%elem_of_difference. destruct (H9 i Hi) as (y & t & Hy & Ht & Hlt). exists y, t. split_and!; [|done..].
    rewrite lookup_insert_ne by set_solver. done.
  - apply insert_by_sorted, H10. apply _.
  - intros t v i. rewrite elem_insert_by. intros [[= -> -> ->]|Hin].
    + split; [lia|]. intros y _ Hy. rewrite lookup_insert_eq in Hy. by simplify_eq.
    + destruct (H11 t v i Hin) as [Hv He]. split; [lia|]. intros y [[<- <-]|[Hne Hw]]%lookup_insert_Some; [lia|].
      rewrite lookup_insert_ne by done. by apply He.
  - intros i y v Hy Hv Hn. rewrite elem_insert_by. destruct (decide (i = id)) as [->|Hne].
    + rewrite lookup_insert_eq in Hy. rewrite lookup_insert_eq in Hv. simplify_eq. by left.
    + rewrite lookup_insert_ne in Hy by done. rewrite lookup_insert_ne in Hv by done. right. apply H12; [done..|set_solver].
Qed.

Lemma update_ok d ix s : index_ok ix → sound_snapshot (ix_ttl ix) s →
  ∃ ix', update d ix s = (ix', Ok tt) ∧ index_ok ix' ∧ ix_observations ix' = <[ns_id s := s]> (ix_observations ix)
  ∧ ix_nodes ix' = ix_nodes ix ∧ ix_static ix' = ix_static ix ∧ ix_ttl ix' = ix_ttl ix ∧ ix_generation ix' = ix_generation ix.
Proof.
  intros Hok Hs. pose proof Hs as ([j Hj] & _).
  assert (∀ ix0, forgotten ix (ns_id s) ix0 → ∃ ix', enter ix0 (ns_id s) (d s) s = (ix', Ok tt) ∧ index_ok ix'
    ∧ ix_observations ix' = <[ns_id s := s]> (ix_observations ix) ∧ ix_nodes ix' = ix_nodes ix ∧ ix_static ix' = ix_static ix
    ∧ ix_ttl ix' = ix_ttl ix ∧ ix_generation ix' = ix_generation ix) as Henter.
  { intros ix0 Hf. pose proof (entered_ok ix ix0 (ns_id s) (d s) s j Hok Hf Hs Hj) as He.
    assert (enter ix0 (ns_id s) (d s) s = let ix1 := entered ix ix0 (ns_id s) (d s) s j (freshness_at s + ix_ttl ix) in
      if Z.max 1 (2 * Z.of_nat (size (ix_nodes ix1))) <? zlen (ix_expiry ix1) then _rebuild_expiry ix1 else (ix1, Ok tt)) as ->.
    { destruct Hf as (live & fresh & active & -> & _). unfold enter. rewrite Hj. cbn -[foldl _live_keys _rebuild_expiry].
      by rewrite (sound_expires _ s (ok_ttl ix (proj1 Hok))). }
    cbv zeta. destruct (_ <? _).
    - destruct (rebuild_expiry_ok _ (proj1 He)) as (ix' & Hr & Hok' & Hobs & Hn & Hst & Htt & _ & Hg & _). exists ix'. by rewrite Hobs, Hn, Hst, Htt, Hg.
    - eexists. by split_and!. }
  unfold update. destruct (ix_observations ix !! ns_id s) as [p|] eqn:Hp.
  - destruct (forget_prior_ok ix _ p Hok Hp) as (ix0 & -> & Hf). by apply Henter.
  - by apply Henter, forget_none.
Qed.

(** ** The summary *)

Definition expired_by (ttl now : Z) (s : NodeSnapshot) : bool := freshness_at s + ttl <? now.
Definition count_obs (p : NodeSnapshot → bool) (m : gmap string NodeSnapshot) : Z := keyed_sum (λ _ s, if p s then 1 else 0) m.

Lemma pop_expired_ok now versions obs l : ∀ stale fresh l' stale' fresh',
  StronglySorted (λ a b, expiry_le a b = true) l →
  (∀ id, is_Some (versions !! id) → is_Some (obs !! id)) →
  (∀ h, fresh h = keyed_sum (fresh_weight stale h) obs) →
  pop_expired now versions obs l stale fresh = (l', stale', fresh') →
  (∀ x, x ∈ stale' ↔ x ∈ stale ∨ ∃ t v, (t, v, x) ∈ l ∧ t < now ∧ versions !! x = Some v)
  ∧ StronglySorted (λ a b, expiry_le a b = true) l' ∧ (∀ e, e ∈ l' ↔ e ∈ l ∧ now <= e.1.1)
  ∧ (∀ h, fresh' h = keyed_sum (fresh_weight stale' h) obs).
Proof.
  induction l as [|[[t v] id] l IH]; intros stale fresh l' stale' fresh' Hs Hv Hf Hp.
  - injection Hp as <- <- <-. split_and!; [|constructor| |done]; set_solver.
  - inversion_clear Hs as [|? ? Hs' Hall]. cbn [pop_expired] in Hp. destruct (Z.ltb_spec t now) as [Hlt|Hge].
    + assert (∀ stale1 fresh1, (∀ x, x ∈ stale1 ↔ x ∈ stale ∨ x = id ∧ versions !! x = Some v) →
        (∀ h, fresh1 h = keyed_sum (fresh_weight stale1 h) obs) → pop_expired now versions obs l stale1 fresh1 = (l', stale', fresh') →
        (∀ x, x ∈ stale' ↔ x ∈ stale ∨ ∃ t0 v0, (t0, v0, x) ∈ (t, v, id) :: l ∧ t0 < now ∧ versions !! x = Some v0)
        ∧ StronglySorted (λ a b, expiry_le a b = true) l' ∧ (∀ e, e ∈ l' ↔ e ∈ (t, v, id) :: l ∧ now <= e.1.1)
        ∧ (∀ h, fresh' h = keyed_sum (fresh_weight stale' h) obs)) as Hgo.
      { intros stale1 fresh1 Hst Hf1 Hp1. destruct (IH _ _ _ _ _ Hs' Hv Hf1 Hp1) as (Ha & Hb & Hc & Hd). split_and!; [|done| |done].
        - intros x. rewrite Ha, Hst. split.
          + intros [[?|[-> ?]]|(t0 & v0 & ? & ? & ?)]; [by left|right; exists t, v; split_and!; [by left|done..]|].
            right. exists t0, v0. split_and!; [by right|done..].
          + intros [?|(t0 & v0 & Hin & ? & ?)]; [left; by left|]. apply elem_of_cons in Hin as [[= -> -> ->]|Hin]; [left; by right|].
            right. by exists t0, v0.
        - intros e. rewrite Hc, elem_of_cons. split; [intros [? ?]; split; [by right|done]|]. intros [[->|?] ?]; [simpl in *; lia|done]. }
      destruct (obs !! id) as [s|] eqn:Ho.
      * destruct (bool_decide (versions !! id = Some v) && _) eqn:E.
        -- to_prop. eapply Hgo; [|intros h|exact Hp]; [intros x; rewrite elem_of_union, elem_of_singleton; naive_solver|].
           rewrite (keyed_sum_one (fresh_weight stale h) _ obs id s Ho); [|intros j y Hne _; unfold fresh_weight; apply decide_ext; set_solver].
           unfold fresh_weight at 2 3. rewrite (decide_False (P := _ ∧ id ∉ {[id]} ∪ stale)) by set_solver.
           destruct (decide (ns_health s = h)) as [<-|Hne].
           ++ rewrite fn_lookup_insert, decide_True, Hf by done. lia.
           ++ rewrite fn_lookup_insert_ne, decide_False, Hf by (done || by intros [? _]). lia.
        -- eapply Hgo; [|exact Hf|exact Hp]. intros x. split; [by left|]. intros [?|[-> Hx]]; [done|].
           apply andb_false_iff in E as [E|E]; to_prop; [done|]. by apply dec_stable.
      * eapply Hgo; [|exact Hf|exact Hp]. intros x. split; [by left|]. intros [?|[-> Hx]]; [done|].
        destruct (Hv id ltac:(eauto)). congruence.
    + injection Hp as <- <- <-. assert (∀ e, e ∈ l → now <= e.1.1) as Hl.
      { intros e He. rewrite Forall_forall in Hall. specialize (Hall e He). unfold expiry_le in Hall. cbn in Hall. lia. }
      split_and!; [|by constructor| |done].
      * intros x. split; [by left|]. intros [?|(t0 & v0 & Hin & ? & _)]; [done|].
        apply elem_of_cons in Hin as [[= -> -> ->]|Hin]; [lia|]. specialize (Hl _ Hin). simpl in Hl. lia.
      * intros e. split; [|by intros [? _]]. intros He. split; [done|]. apply elem_of_cons in He as [->|He]; [done|by apply Hl].
Qed.

Lemma keyed_sum_add {A} (f g h : string → A → Z) m : (∀ i x, m !! i = Some x → h i x = f i x + g i x) →
  keyed_sum h m = keyed_sum f m + keyed_sum g m.
Proof.
  induction m as [|i x m Hi IH] using map_ind; intros Hh; [done|]. rewrite !keyed_sum_insert by done.
  rewrite (Hh i x) by apply lookup_insert_eq. rewrite IH; [lia|]. intros j y Hj. apply Hh. rewrite lookup_insert_ne; [done|congruence].
Qed.

(** The first half of [summary]: whatever is marked as stale lies before [now]. *)
Lemma rewind_ok ix now : index_ok ix → ∃ ix1,
  match ix_last_summary_at ix with Some t => if now <? t then rewind ix else (ix, Ok tt) | None => (ix, Ok tt) end = (ix1, Ok tt)
  ∧ index_ok ix1 ∧ (∀ id, id ∈ ix_stale ix1 → ∃ s, ix_observations ix !! id = Some s ∧ expired_by (ix_ttl ix) now s = true)
  ∧ ix_observations ix1 = ix_observations ix ∧ ix_nodes ix1 = ix_nodes ix ∧ ix_static ix1 = ix_static ix ∧ ix_ttl ix1 = ix_ttl ix
  ∧ ix_generation ix1 = ix_generation ix.
Proof.
  intros Hok. pose proof Hok as [[H1 H2 H3 H4 H5 H6 H7 H8 H9] _]. unfold expired_by.
  destruct (ix_last_summary_at ix) as [t|] eqn:Et; [|exists ix; split_and!; try done; intros id Hid; destruct (H9 id Hid) as (? & ? & _ & ? & _); congruence].
  destruct (Z.ltb_spec now t).
  - unfold rewind.
    match goal with |- context [_rebuild_expiry ?i] => assert (index_core i) as Hc end.
    { constructor; cbn; try done. intros h. rewrite count_health_keyed. apply keyed_sum_ext. intros i s _.
      unfold fresh_weight. apply decide_ext. set_solver. }
    apply rebuild_expiry_ok in Hc as (ix1 & Hr & Hok1 & Hobs & Hn & Hst & Htt & _ & Hg & Hs). exists ix1. split_and!; try done.
    intros id Hid. rewrite Hs in Hid. set_solver.
  - exists ix. split_and!; try done. intros id Hid. destruct (H9 id Hid) as (s & t' & Hs & [= <-] & Hlt). exists s. split; [done|lia].
Qed.

(** What [summary] should say, counted over the observations. *)
Definition recount (nodes : gmap string ComputeNode) (observations : gmap string NodeSnapshot) (ttl now : Z) : Summary :=
  MkSummary (Z.of_nat (size nodes)) (count_obs (λ s, negb (expired_by ttl now s)) observations)
    (count_obs (λ s, bool_decide (ns_health s = HEALTHY) && negb (expired_by ttl now s)) observations)
    (count_obs (λ s, bool_decide (ns_health s = UNHEALTHY) && negb (expired_by ttl now s)) observations)
    (count_obs (expired_by ttl now) observations) (keyed_sum jobs_weight observations).

Lemma summary_ok ix now : index_ok ix → ∃ ix',
  summary ix now = (ix', Ok (recount (ix_nodes ix) (ix_observations ix) (ix_ttl ix) now)) ∧ index_ok ix'
  ∧ ix_observations ix' = ix_observations ix ∧ ix_nodes ix' = ix_nodes ix ∧ ix_static ix' = ix_static ix ∧ ix_ttl ix' = ix_ttl ix
  ∧ ix_generation ix' = ix_generation ix.
Proof.
  intros (ix1 & Hrw & Hok1 & Hst1 & Hobs & Hn & Hs & Ht & Hg)%(rewind_ok ix now). unfold summary. rewrite Hrw.
  pose proof Hok1 as [[H1 H2 H3 H4 H5 H6 H7 H8 H9] [H10 H11 H12]].
  destruct (pop_expired _ _ _ _ _ _) as [[l' stale'] fresh'] eqn:Hp.
  apply pop_expired_ok in Hp as (Ha & Hb & Hc & Hd); [|done|intros; by apply H5|done].
  assert (∀ id, id ∈ stale' ↔ ∃ s, ix_observations ix1 !! id = Some s ∧ expired_by (ix_ttl ix1) now s = true) as Hex.
  { intros id. rewrite Ha. split.
    - intros [Hid|(t & v & Hin & Hlt & Hv)]; [rewrite Hobs, Ht; by apply Hst1|]. destruct (proj2 (H5 id) ltac:(eauto)) as [s Hs'].
      exists s. split; [done|]. destruct (H11 t v id Hin) as [_ He]. rewrite (He s Hv Hs') in Hlt. unfold expired_by. lia.
    - intros (s & Hs' & He). destruct (decide (id ∈ ix_stale ix1)) as [?|Hni]; [by left|]. right.
      destruct (proj1 (H5 id) ltac:(eauto)) as [v Hv]. exists (freshness_at s + ix_ttl ix1), v. split_and!; [by apply H12| |done].
      unfold expired_by in He. lia. }
  assert (∀ id s, ix_observations ix1 !! id = Some s → id ∈ stale' ↔ expired_by (ix_ttl ix1) now s = true) as Hexs.
  { intros id s Hs'. rewrite Hex. split; [intros (? & ? & ?); by simplify_eq|eauto]. }
  assert (Z.of_nat (size stale') = count_obs (expired_by (ix_ttl ix1) now) (ix_observations ix1)) as Hsize.
  { rewrite (size_set_keyed (ix_observations ix1)).
    - apply keyed_sum_ext. intros i s Hi. specialize (Hexs i s Hi). case_decide as Hin.
      + by rewrite (proj1 Hexs Hin).
      + destruct (expired_by _ _ _); [|done]. by destruct Hin; apply Hexs.
    - intros id (s & Hs' & _)%Hex. by apply elem_of_dom_2 in Hs'. }
  assert (∀ h, fresh' h = count_obs (λ s, bool_decide (ns_health s = h) && negb (expired_by (ix_ttl ix1) now s)) (ix_observations ix1)) as Hfr.
  { intros h. rewrite Hd. apply keyed_sum_ext. intros i s Hi. specialize (Hexs i s Hi). unfold fresh_weight.
    destruct (decide (ns_health s = h)) as [E|E]; [rewrite (bool_decide_true _ E)|rewrite (bool_decide_false _ E); cbn; by rewrite decide_False by (by intros [? _])].
    cbn. destruct (expired_by _ _ _); cbn; [rewrite decide_False; [done|]; intros [_ Hni]; by apply Hni, Hexs|].
    rewrite decide_True; [done|]. split; [done|]. by intros ?%Hexs. }
  assert (MkSummary (Z.of_nat (size (ix_nodes ix1))) (Z.of_nat (size (ix_observations ix1)) - Z.of_nat (size stale')) (fresh' HEALTHY)
            (fresh' UNHEALTHY) (Z.of_nat (size stale')) (ix_active_jobs ix1)
          = recount (ix_nodes ix) (ix_observations ix) (ix_ttl ix) now) as Hsum.
  { unfold recount. rewrite Hsize, !Hfr, H7, Hn, Hobs, Ht. f_equal. rewrite size_keyed.
    rewrite (keyed_sum_add (λ _ s, if negb (expired_by (ix_ttl ix) now s) then 1 else 0) (λ _ s, if expired_by (ix_ttl ix) now s then 1 else 0));
      [unfold count_obs; lia|]. intros i s _. by destruct (expired_by _ _ _). }
  eexists. split; [by rewrite Hsum|split; [|by split_and!]].
  - split; constructor; cbn; try done.
    + intros id (s & Hs' & He)%Hex. exists s, now. split_and!; [done..|]. unfold expired_by in He. lia.
    + intros t v id [Hin _]%Hc. by apply H11.
    + intros id s v Hs' Hv Hni. apply Hc. cbn. split.
      * apply H12; [done..|]. intros Hin. apply Hni, Ha. by left.
      * destruct (expired_by (ix_ttl ix1) now s) eqn:E; [by destruct Hni; apply (Hexs id s)|]. unfold expired_by in E. lia.
Qed.
