(* ===== verification/ComputeRegistry.v ===== *)
(** The registry of compute nodes over its index: that its counts are a recount of its observations,
    that placement over the indexed candidates decides what a scan of every observation decides, and
    that a walk over its pages shows every configured node once. *)
From stdpp Require Import functions.
From S2P Require Import Prelude PyText PyFloat PyNumText PyDate WorkerCapacity ComputeFabric ComputeIndex.
From Stdlib Require Import Ascii.

Local Open Scope Z_scope.

(** ** Definitions *)

(** An operation whose observation counts its jobs and whose times are dates to which the time to
    live can be added.  The registry also accepts an observation whose [active_jobs] is [None]; what
    follows then is in [uncounted_jobs_poison_the_index]. *)
Definition sound_op (ttl : Z) (o : reg_op) : Prop :=
  match o with
  | Observe s t => is_Some (ns_active_jobs s) ∧ sound_time ttl (ns_observed_at s) ∧ min_us <= default (receipt_time s) t
  | MarkFailed _ t _ => sound_time ttl t
  | Summarise _ => True
  end.

(** What the two modes of selection range over. *)
Definition in_scope (local : option bool) (s : NodeSnapshot) : bool :=
  match local with Some b => Bool.eqb (nd_local (ns_node s)) b | None => true end.

(** A client that walks the pages while the registry changes: [at_page n] is the registry when it
    asks for page [n]. *)
Fixpoint walk_pages (at_page : nat → Registry) (now : Z) (limit : Z) (fuel n : nat) (cursor : option Cursor) : res (list InventoryRow) :=
  match fuel with
  | O => throw ValueError "out of fuel"
  | S fuel' =>
      page ← inventory_page (at_page n) now (PInt limit) cursor;
      match ip_next page with
      | None => Ok (ip_rows page)
      | Some c => rest ← walk_pages at_page now limit fuel' (S n) (Some c); Ok (ip_rows page ++ rest)
      end
  end.

(** ** The invariant of the registry *)

Record reg_ok (rg : Registry) : Prop := {
  rok_index : index_ok (rg_index rg);
  rok_observations : ix_observations (rg_index rg) = rg_observations rg;
  rok_nodes : ix_nodes (rg_index rg) = rg_nodes rg;
  rok_ttl : ix_ttl (rg_index rg) = rg_ttl rg;
  rok_names : ∀ id n, rg_nodes rg !! id = Some n → nd_node_id n = id;
  rok_bound : ∀ id s, rg_observations rg !! id = Some s → rg_nodes rg !! id = Some (ns_node s);
  rok_static : ∀ k id, id ∈ posting (ix_static (rg_index rg)) k ↔ ∃ n, rg_nodes rg !! id = Some n ∧ k ∈ _static_keys n
}.

(** What no operation changes. *)
Definition same_authority (rg rg' : Registry) : Prop :=
  rg_nodes rg' = rg_nodes rg ∧ rg_ttl rg' = rg_ttl rg ∧ ix_generation (rg_index rg') = ix_generation (rg_index rg)
  ∧ ix_static (rg_index rg') = ix_static (rg_index rg) ∧ ix_nodes (rg_index rg') = ix_nodes (rg_index rg).

Lemma elem_static_keys (nodes : list ComputeNode) : ∀ m k x,
  x ∈ posting (foldl (λ m n, foldl (post (nd_node_id n)) m (_static_keys n)) m nodes) k ↔
  x ∈ posting m k ∨ ∃ n, n ∈ nodes ∧ nd_node_id n = x ∧ k ∈ _static_keys n.
Proof.
  induction nodes as [|n nodes IH]; intros m k x; cbn [foldl]; [set_solver|]. rewrite IH, elem_posts. split.
  - intros [[?|[-> ?]]|(n' & ? & ? & ?)]; [by left|right; exists n; split_and!; [by left|done..]|].
    right. exists n'. split_and!; [by right|done..].
  - intros [?|(n' & [->|?]%elem_of_cons & <- & ?)]; [by left; left|by left; right|]. right. by exists n'.
Qed.

Lemma configured_lookup (nodes : list ComputeNode) id n : NoDup (nd_node_id <$> nodes) →
  (list_to_map ((λ n, (nd_node_id n, n)) <$> nodes) : gmap string ComputeNode) !! id = Some n ↔ n ∈ nodes ∧ nd_node_id n = id.
Proof.
  intros Hnd. rewrite <-elem_of_list_to_map.
  - rewrite list_elem_of_fmap. split; [intros (? & [= -> ->] & ?); done|]. intros [? <-]. by exists n.
  - by rewrite <-list_fmap_compose.
Qed.

Lemma Registry_init_ok g nodes ttl rg : Registry_init g nodes ttl = Ok rg → reg_ok rg ∧ rg_ttl rg = ttl ∧ ix_generation (rg_index rg) = g
  ∧ (∀ id n, rg_nodes rg !! id = Some n ↔ n ∈ nodes ∧ nd_node_id n = id) ∧ rg_nodes rg = list_to_map ((λ n, (nd_node_id n, n)) <$> nodes).
Proof.
  unfold Registry_init. intros H. res_inv. to_prop.
  assert (∀ id n, (list_to_map ((λ n, (nd_node_id n, n)) <$> nodes) : gmap string ComputeNode) !! id = Some n ↔ n ∈ nodes ∧ nd_node_id n = id) as Hn
    by (intros; by apply configured_lookup).
  split_and!; [|done..]. constructor; cbn; try done.
  - split; constructor; cbn; try done; try set_solver; try lia.
    + intros id. by rewrite !lookup_empty.
    + constructor.
  - intros id n [_ ?]%Hn. done.
  - intros k id. rewrite elem_static_keys. unfold posting. rewrite lookup_empty. split.
    + intros [?|(n & ? & ? & ?)]; [set_solver|]. exists n. rewrite Hn. done.
    + intros (n & [? ?]%Hn & ?). right. by exists n.
Qed.

Lemma record_observation_ok d rg s e : reg_ok rg → sound_snapshot (rg_ttl rg) s → rg_nodes rg !! ns_id s = Some (ns_node s) →
  ∃ rg', record_observation d rg s e = (rg', Ok s) ∧ reg_ok rg' ∧ same_authority rg rg' ∧ rg_observations rg' = <[ns_id s := s]> (rg_observations rg).
Proof.
  intros [H1 H2 H3 H4 H5 H6 H7] Hs Hn. rewrite <-H4 in Hs. destruct (update_ok d (rg_index rg) s H1 Hs) as (ix' & Hu & Hok & Ho & Hno & Hst & Ht & Hg).
  unfold record_observation. rewrite Hu. eexists. split; [done|]. split; [|unfold same_authority; by split_and!].
  constructor; cbn; rewrite ?Ho, ?H2, ?Hno, ?Ht, ?Hst; try done.
  intros id s' [[<- <-]|[_ ?]]%lookup_insert_Some; [done|by apply H6].
Qed.

Lemma same_authority_refl rg : same_authority rg rg.
Proof. by split_and!. Qed.

Lemma reg_apply_ok d rg o : reg_ok rg → sound_op (rg_ttl rg) o → reg_ok (reg_apply d rg o) ∧ same_authority rg (reg_apply d rg o).
Proof.
  intros Hok Hs. pose proof Hok as [H1 H2 H3 H4 H5 H6 H7]. pose proof (same_authority_refl rg). destruct o as [s t|id t ev|now]; cbn.
  - destruct Hs as (Hj & Ho & Ht). unfold observe, get_node. destruct (rg_nodes rg !! ns_id s) as [n|] eqn:En; [|done]. cbn [mbind res_bind].
    destruct (Bool.eqb _ _); [|done]. destruct (bool_decide _); [|done]. destruct (negb (backwards _ _)); [|done]. cbn.
    destruct (record_observation_ok d rg (rebind s n (match t with Some t0 => t0 | None => receipt_time s end) (ns_health s)) None Hok) as (rg' & -> & ? & ? & _); [|cbn|done].
    + split_and!; cbn; [done|apply Ho..|]. intros t' [= <-]. by destruct t.
    + unfold ns_id. cbn. by rewrite (H5 _ _ En).
  - unfold mark_probe_failed, get_node. destruct (rg_nodes rg !! id) as [n|] eqn:En; [|done]. cbn [mbind res_bind].
    destruct (_ && _); [|done]. destruct (negb (backwards _ _)); [|done]. cbn.
    match goal with |- context [record_observation d rg ?s _] => destruct (record_observation_ok d rg s (Some ev) Hok) as (rg' & -> & ? & ? & _); [| |done] end.
    + destruct (rg_observations rg !! id) as [p|] eqn:Ep.
      * pose proof (ok_sound _ (proj1 H1) id p) as Hp. rewrite H2, H4 in Hp. destruct (Hp Ep) as (? & ? & _).
        split_and!; cbn; [done|done..|]. intros t' [= <-]. apply Hs.
      * split_and!; cbn; [by eexists|apply Hs..|]. intros t' [= <-]. apply Hs.
    + assert (∀ s, ns_node s = n → rg_nodes rg !! ns_id s = Some (ns_node s)) as Hb by (intros s <-; unfold ns_id; by rewrite (H5 _ _ En)).
      apply Hb. by destruct (rg_observations rg !! id).
  - unfold inventory_summary. destruct (summary_ok (rg_index rg) now H1) as (ix' & -> & Hok' & Ho & Hno & Hst & Htt & Hg). cbn.
    split; [|unfold same_authority; by split_and!]. constructor; cbn; rewrite ?Ho, ?Hno, ?Htt, ?Hst; done.
Qed.

Lemma reg_run_ok d l : ∀ rg, reg_ok rg → Forall (sound_op (rg_ttl rg)) l → reg_ok (reg_run d rg l) ∧ same_authority rg (reg_run d rg l).
Proof.
  induction l as [|o l IH]; intros rg Hok Hl; [by split; [|apply same_authority_refl]|].
  inversion_clear Hl as [|? ? Ho Hl']. destruct (reg_apply_ok d rg o Hok Ho) as [Hok' Ha].
  destruct (IH (reg_apply d rg o) Hok') as [Hr Ha']; [by rewrite (proj1 (proj2 Ha))|]. split; [done|].
  destruct Ha as (? & ? & ? & ? & ?), Ha' as (? & ? & ? & ? & ?). unfold same_authority. cbn. split_and!; etrans; eauto.
Qed.

Lemma reachable_ok d g nodes ttl rg0 l : Registry_init g nodes ttl = Ok rg0 → Forall (sound_op ttl) l →
  reg_ok (reg_run d rg0 l) ∧ same_authority rg0 (reg_run d rg0 l).
Proof. intros (Hok & <- & _)%Registry_init_ok Hl. by apply reg_run_ok. Qed.

(** C9: the totals the registry reports, which it keeps by adding and subtracting as observations come
    and as entries of its heap expire, are those of a recount of its observations, for clocks that go
    forwards or backwards, after any history whose observations count their active jobs and whose
    times are dates to which the time to live can be added ([sound_op]); the report does not fail
    then.  Without that condition it is false: see [uncounted_jobs_poison_the_index]. *)
Theorem summary_recount d g nodes ttl rg0 l now : Registry_init g nodes ttl = Ok rg0 → Forall (sound_op ttl) l →
  let rg := reg_run d rg0 l in
  (inventory_summary rg now).2 = Ok (recount (rg_nodes rg) (rg_observations rg) ttl now)
  ∧ rg_observations (inventory_summary rg now).1 = rg_observations rg.
Proof.
  intros Hi Hl rg. pose proof (Registry_init_ok _ _ _ _ Hi) as (_ & Ht & _). destruct (reachable_ok d _ _ _ _ _ Hi Hl) as [[H1 H2 H3 H4 _ _ _] (_ & Htt & _)].
  fold rg in H1, H2, H3, H4, Htt. unfold inventory_summary. destruct (summary_ok (rg_index rg) now H1) as (ix' & -> & _).
  cbn. split; [|done]. by rewrite H2, H3, H4, Htt, Ht.
Qed.

(** ** Placement over the index *)

Lemma elem_intersections (x : string) (sets : list (gset string)) : ∀ X, x ∈ foldl (∩) X sets ↔ x ∈ X ∧ ∀ Y, Y ∈ sets → x ∈ Y.
Proof.
  induction sets as [|Y sets IH]; intros X; cbn [foldl]; [set_solver|]. rewrite IH, elem_of_intersection. split.
  - intros [[? ?] Hs]. split; [done|]. intros Z [->|?]%elem_of_cons; [done|by apply Hs].
  - intros [? Hs]. split_and!; [done|apply Hs; by left|]. intros Z ?. apply Hs. by right.
Qed.

Lemma elem_intersect_sets x sets : sets ≠ [] → x ∈ default ∅ (intersect_sets sets) ↔ ∀ X, X ∈ sets → x ∈ X.
Proof.
  intros Hne. unfold intersect_sets. set (le := λ a b : gset string, (size a <=? size b)%nat).
  pose proof (sort_by_Permutation le sets) as Hp. destruct (sort_by le sets) as [|X l].
  { by apply Permutation_nil_l in Hp; subst. }
  cbn. rewrite elem_intersections. setoid_rewrite <-Hp. setoid_rewrite elem_of_cons. naive_solver.
Qed.

Lemma elem_any_posting x m g : x ∈ any_posting m g ↔ ∃ c, c ∈ g ∧ x ∈ posting m (KCap c).
Proof.
  unfold any_posting. rewrite elem_of_union_list. split.
  - intros (X & (c & -> & Hc)%list_elem_of_fmap & Hx). exists c. by rewrite elem_of_elements in Hc.
  - intros (c & Hc & Hx). exists (posting m (KCap c)). split; [|done]. apply list_elem_of_fmap. exists c. by rewrite elem_of_elements.
Qed.

(** What a set of postings selects. *)
Lemma elem_live_keys s : (∀ b, KLocal b ∈ _live_keys s ↔ b = nd_local (ns_node s))
  ∧ (∀ w, KWorkload w ∈ _live_keys s ↔ w ∈ effective_workloads s) ∧ (∀ c, KCap c ∈ _live_keys s ↔ c ∈ effective_capabilities s)
  ∧ (∀ m, KModel m ∈ _live_keys s ↔ m ∈ ns_models s).
Proof.
  unfold _live_keys. split_and!; intros y; rewrite elem_of_cons, !elem_of_app, !list_elem_of_fmap;
    repeat setoid_rewrite elem_of_elements; naive_solver.
Qed.

Lemma elem_workspace_key n w : KWorkspace w ∈ _static_keys n ↔ w ∈ nd_workspace_mappings n.
Proof.
  unfold _static_keys. rewrite elem_of_cons, !elem_of_app, !list_elem_of_fmap. repeat setoid_rewrite elem_of_elements. naive_solver.
Qed.

(** A selected node is observed, in scope and not avoided. *)
Lemma matching_observed rg q local id : reg_ok rg → id ∈ matching (rg_index rg) q true local →
  ∃ s, rg_observations rg !! id = Some s ∧ ns_id s = id ∧ in_scope local s = true.
Proof.
  intros [[Hc _] H2 _ _ H5 H6 _]. unfold matching. intros [Hin _]%elem_of_difference.
  rewrite elem_intersect_sets in Hin by done. unfold matching_sets in Hin.
  destruct (proj1 (ok_live _ Hc (KWorkload (wr_kind q)) id)) as (s & Hs & _); [apply Hin; by left|]. rewrite H2 in Hs.
  exists s. split_and!; [done|apply (H5 id), H6, Hs|]. unfold in_scope. destruct local as [b|]; [|done].
  destruct (proj1 (ok_live _ Hc (KLocal b) id)) as (s' & Hs' & Hk); [apply Hin; right; by left|].
  rewrite H2 in Hs'. simplify_eq. apply elem_live_keys in Hk as ->. apply eqb_reflx.
Qed.

(** A node that passes the constraints is selected. *)
Lemma matching_complete rg q local id s ttl now : reg_ok rg → rg_observations rg !! id = Some s → in_scope local s = true →
  admissible ttl q now s → id ∈ matching (rg_index rg) q true local.
Proof.
  intros [[Hc _] H2 _ _ H5 H6 H7] Hs Hsc (Ha & _ & _ & Hk & _ & Hreq & Hany & Hgr & Hw & Hm).
  assert (ns_id s = id) as Hid by (apply (H5 id), H6, Hs). rewrite Hid in Ha.
  assert (∀ k, k ∈ _live_keys s → id ∈ posting (ix_live (rg_index rg)) k) as Hin by (intros k ?; apply (ok_live _ Hc); exists s; by rewrite H2).
  destruct (elem_live_keys s) as (K1 & K2 & K3 & K4).
  apply elem_of_difference. split; [|done]. rewrite elem_intersect_sets by done. unfold matching_sets. intros X.
  rewrite elem_of_cons, !elem_of_app. intros [->|[HX|[HX|[HX|[HX|HX]]]]].
  - by apply Hin, K2.
  - destruct local as [b|]; [|by apply not_elem_of_nil in HX]. apply list_elem_of_singleton in HX as ->. apply Hin, K1. symmetry. by apply eqb_prop.
  - apply list_elem_of_fmap in HX as (c & -> & Hc'). apply Hin, K3, Hreq. by apply elem_of_elements in Hc'.
  - apply list_elem_of_fmap in HX as (g & -> & Hg). apply elem_any_posting.
    assert (¬ (g ## effective_capabilities s)) as Hd.
    { unfold any_groups in Hg. apply elem_of_app in Hg as [Hg|Hg]; [|by apply Hgr]. destruct (decide _) as [|Hne]; [by apply not_elem_of_nil in Hg|].
      apply list_elem_of_singleton in Hg as ->. by apply Hany. }
    destruct (decide (g ∩ effective_capabilities s = ∅)) as [E|E]; [by destruct Hd; apply disjoint_intersection_L|].
    apply set_choose_L in E as [c [? ?]%elem_of_intersection]. exists c. split; [done|]. by apply Hin, K3.
  - destruct (wr_workspace_mapping q) as [w|]; [|by apply not_elem_of_nil in HX]. apply list_elem_of_singleton in HX as ->.
    apply H7. exists (ns_node s). split; [by apply H6|]. apply elem_workspace_key. by apply Hw.
  - destruct (wr_required_model q) as [m|]; [|by apply not_elem_of_nil in HX]. apply list_elem_of_singleton in HX as ->. by apply Hin, K4, Hm.
Qed.

(** The observations of a registry, by name. *)
Lemma list_snapshots_ok rg : reg_ok rg → (∀ s, s ∈ list_snapshots rg ↔ rg_observations rg !! ns_id s = Some s) ∧ NoDup (ns_id <$> list_snapshots rg).
Proof.
  intros [_ _ _ _ H5 H6 _]. unfold list_snapshots.
  assert (∀ id s, rg_observations rg !! id = Some s → ns_id s = id) as Hid by (intros id s Hs; apply (H5 id), H6, Hs).
  set (names := sorted_text _).
  assert (∀ id, id ∈ names ↔ is_Some (rg_observations rg !! id)) as Hn.
  { intros id. unfold names, sorted_text. rewrite sort_by_Permutation, list_elem_of_fmap. split.
    - intros ([i s] & -> & ?%elem_of_map_to_list). by exists s.
    - intros [s Hs]. exists (id, s). by rewrite elem_of_map_to_list. }
  split.
  - intros s. rewrite list_elem_of_omap. split; [intros (id & _ & Hs)|intros Hs]; [by rewrite (Hid _ _ Hs)|]. exists (ns_id s). split; [|done].
    apply Hn. by exists s.
  - assert (NoDup names) as Hnd by (unfold names, sorted_text; rewrite sort_by_Permutation; apply NoDup_fst_map_to_list).
    clear Hn. induction names as [|id names IH]; [constructor|]. inversion_clear Hnd as [|? ? Hni Hnd']. cbn.
    destruct (rg_observations rg !! id) as [s|] eqn:E; [|by apply IH]. cbn. constructor; [|by apply IH].
    rewrite (Hid _ _ E). intros (s' & Hs' & (j & Hj & Hl)%list_elem_of_omap)%list_elem_of_fmap. apply Hni. by rewrite Hs', (Hid _ _ Hl).
Qed.

Lemma indexed_candidates_ok rg q local : reg_ok rg → ∃ ic, registry_candidates rg q local = Ok ic
  ∧ (∀ s, s ∈ ic_snapshots ic ↔ rg_observations rg !! ns_id s = Some s ∧ ns_id s ∈ matching (rg_index rg) q true local)
  ∧ NoDup (ns_id <$> ic_snapshots ic).
Proof.
  intros Hok. pose proof Hok as [[Hc _] H2 _ _ H5 H6 _]. unfold registry_candidates, candidates, candidates_from_ids.
  set (ids := matching _ _ _ _).
  assert (∀ id, id ∈ sorted_text (elements ids) ↔ id ∈ ids) as Hin by (intros; unfold sorted_text; by rewrite sort_by_Permutation, elem_of_elements).
  assert (∀ id, id ∈ ids → ∃ s, rg_observations rg !! id = Some s ∧ ns_id s = id) as Hob
    by (intros id (s & ? & ? & _)%(matching_observed _ _ _ _ Hok); by exists s).
  assert (∃ l, mapM_res (λ id, match ix_observations (rg_index rg) !! id with Some s => Ok s | None => throw KeyError id end)
                 (sorted_text (elements ids)) = Ok l
          ∧ Forall2 (λ id s, rg_observations rg !! id = Some s ∧ ns_id s = id) (sorted_text (elements ids)) l) as (l & -> & Hl).
  { rewrite H2. assert (∀ id, id ∈ sorted_text (elements ids) → id ∈ ids) as Hs by (intros ?; by rewrite Hin). clear Hin. revert Hs.
    induction (sorted_text (elements ids)) as [|id l IH]; intros Hs; [by exists []|].
    destruct (Hob id) as (s & Hs' & Hid); [apply Hs; by left|]. destruct IH as (k & Hk & Hf); [intros; apply Hs; by right|].
    exists (s :: k). cbn. rewrite Hs'. cbn. rewrite Hk. split; [done|by constructor]. }
  assert (∃ ds, mapM_res (λ id, match ix_digests (rg_index rg) !! id with Some d => Ok (id, d) | None => throw KeyError id end)
                 (sorted_text (elements ids)) = Ok ds) as (ds & ->).
  { assert (∀ id, id ∈ sorted_text (elements ids) → is_Some (ix_digests (rg_index rg) !! id)) as Hd.
    { intros id (s & Hs & _)%Hin%Hob. rewrite <-elem_of_dom, (ok_digests _ Hc), elem_of_dom, H2. by exists s. }
    clear Hl Hin. induction (sorted_text (elements ids)) as [|id l' IH]; [by eexists|]. destruct (Hd id) as [dg Hdg]; [by left|].
    destruct IH as (k & Hk); [intros; apply Hd; by right|]. cbn. rewrite Hdg. cbn. rewrite Hk. by eexists. }
  eexists. split; [done|]. cbn.
  assert (ns_id <$> l = sorted_text (elements ids)) as Hnames by (clear -Hl; induction Hl as [|? ? ? ? [_ ?] _ IH]; [done|]; cbn; congruence).
  split; [|rewrite Hnames; unfold sorted_text; rewrite sort_by_Permutation; apply NoDup_elements].
  intros s. split.
  - intros [i Hi]%list_elem_of_lookup. destruct (Forall2_lookup_r _ _ _ _ _ Hl Hi) as (id & Hid & Hs & <-). split; [done|].
    apply Hin. by eapply list_elem_of_lookup_2.
  - intros [Hs Hid%Hin]. apply list_elem_of_lookup in Hid as [i Hi]. destruct (Forall2_lookup_l _ _ _ _ _ Hl Hi) as (s' & Hs' & Hs'' & _).
    simplify_eq. by eapply list_elem_of_lookup_2.
Qed.

#[export] Instance snapshot_sort_key : SortKey snapshot_le.
Proof.
  unfold snapshot_le. split.
  - intros x y. apply String.leb_total.
  - intros x y z Hxy Hyz. by eapply (sort_trans (le := String.leb)).
Qed.

(** Sorting the selected snapshots is selecting from the sorted ones. *)
Lemma sort_selected (full part : list NodeSnapshot) (p : NodeSnapshot → bool) :
  NoDup (ns_id <$> full) → NoDup (ns_id <$> part) → (∀ s, s ∈ part ↔ s ∈ full ∧ p s = true) →
  sort_by snapshot_le part = List.filter p (sort_by snapshot_le full).
Proof.
  intros Hf Hp Hin.
  assert (∀ s, s ∈ List.filter p (sort_by snapshot_le full) ↔ s ∈ full ∧ p s = true) as Hk by (intros; by rewrite elem_of_kept, sort_by_Permutation).
  apply (StronglySorted_unique_strong (λ a b, snapshot_le a b = true)).
  - intros x y Hx Hy Hxy Hyx. rewrite sort_by_Permutation, Hin in Hx. apply Hk in Hy.
    assert (ns_id x = ns_id y) as Hid by by apply String.leb_antisym.
    destruct Hx as [[i Hi]%list_elem_of_lookup _], Hy as [[j Hj]%list_elem_of_lookup _].
    assert (i = j) as ->; [|congruence]. eapply NoDup_lookup; [exact Hf|by rewrite list_lookup_fmap, Hi|by rewrite list_lookup_fmap, Hj, Hid].
  - apply sort_by_sorted, _.
  - apply StronglySorted_kept, sort_by_sorted, _.
  - apply NoDup_Permutation.
    + rewrite sort_by_Permutation. by eapply NoDup_fmap_1.
    + eapply (NoDup_fmap_1 ns_id), NoDup_kept. by rewrite sort_by_Permutation.
    + intros s. by rewrite sort_by_Permutation, Hin, Hk.
Qed.

(** Leaving out snapshots that are not eligible changes no eligible judgement. *)
Lemma judge_selected ttl q now (p : NodeSnapshot → bool) l ds : Forall2 (λ s c, _assess ttl q s now = Ok c) l ds →
  (∀ s c, s ∈ l → _assess ttl q s now = Ok c → cd_eligible c = true → p s = true) →
  ∃ ds', mapM_res (λ s, _assess ttl q s now) (List.filter p l) = Ok ds' ∧ List.filter cd_eligible ds' = List.filter cd_eligible ds.
Proof.
  induction 1 as [|s c l ds Hc _ IH]; intros Hel; [by exists []|].
  destruct IH as (ds' & Hm & He); [intros s' c' Hs'; apply Hel; by right|]. cbn. destruct (p s) eqn:Ep.
  - exists (c :: ds'). cbn. rewrite Hc. cbn. rewrite Hm. split; [done|]. cbn. by rewrite He.
  - exists ds'. split; [done|]. destruct (cd_eligible c) eqn:Ec; [|done]. rewrite (Hel s c) in Ep; [done|by left|done..].
Qed.

(** C8: placement over the candidates the index selects decides what placement over every observation
    decides.  Whenever a scan of all observations of the wanted locality places a request, the index
    answers, placement over what it answers succeeds, and the selected node and the whole ranking are
    the same, after any history of observations, failures and summaries whose observations count their
    active jobs and whose times are dates to which the time to live can be added ([sound_op]).
    Without that condition it is false: see [uncounted_jobs_poison_the_index]. *)
Theorem indexed_placement_equals_full_scan d g nodes ttl rg0 l snapshot_digest request_digest window q local now full :
  Registry_init g nodes ttl = Ok rg0 → Forall (sound_op ttl) l →
  let rg := reg_run d rg0 l in
  place snapshot_digest request_digest window q (List.filter (in_scope local) (list_snapshots rg)) now = Ok full →
  ∃ ic indexed, registry_candidates rg q local = Ok ic
  ∧ place snapshot_digest request_digest window q (ic_snapshots ic) now = Ok indexed
  ∧ pd_selected_node_id indexed = pd_selected_node_id full ∧ pd_ranked_node_ids indexed = pd_ranked_node_ids full.
Proof.
  intros Hi Hl rg Hp. destruct (reachable_ok d _ _ _ _ _ Hi Hl) as [Hok _]. fold rg in Hok.
  destruct (indexed_candidates_ok rg q local Hok) as (ic & Hic & Hin & Hnd). destruct (list_snapshots_ok rg Hok) as [Hls Hlnd].
  exists ic. unfold place in Hp. res_inv. to_prop.
  match goal with H : Forall2 _ _ _ |- _ => rename H into Hall end.
  set (p := λ s, bool_decide (ns_id s ∈ matching (rg_index rg) q true local)).
  assert (sort_by snapshot_le (ic_snapshots ic) = List.filter p (sort_by snapshot_le (List.filter (in_scope local) (list_snapshots rg)))) as Hsort.
  { apply sort_selected; [by apply NoDup_kept|done|]. intros s. unfold p. rewrite Hin, elem_of_kept, Hls, bool_decide_eq_true.
    split; [|tauto]. intros [Hs Hm]. split_and!; [done| |done]. apply (matching_observed _ _ _ _ Hok) in Hm as (s' & Hs' & _ & ?). by simplify_eq. }
  destruct (judge_selected _ _ _ p _ _ Hall) as (ds' & Hm & He).
  { intros s c Hs Hc Hel. rewrite sort_by_Permutation in Hs. apply elem_of_kept in Hs as [Hs%Hls Hsc].
    apply assess_ok in Hc as (_ & Hadm & _). apply bool_decide_eq_true. eapply (matching_complete rg q local (ns_id s) s window now Hok Hs Hsc).
    by apply Hadm. }
  eexists. split; [exact Hic|]. unfold place. rewrite (bool_decide_false (wr_kind q = INFERENCE)) by done. rewrite Hsort. cbn [negb require mbind res_bind].
  assert (no_dups (ns_id <$> List.filter p (sort_by snapshot_le (List.filter (in_scope local) (list_snapshots rg)))) = true) as ->
    by (apply no_dups_spec, NoDup_kept; rewrite sort_by_Permutation; by apply NoDup_kept).
  cbn [require mbind res_bind]. rewrite Hm. cbn. rewrite He. done.
Qed.

(** ** Pages *)

Lemma bisect_right_sorted l a x : StronglySorted (λ a b, String.leb a b = true) l → NoDup l → l !! a = Some x → bisect_right l x = S a.
Proof.
  unfold bisect_right. intros Hs. revert a. induction Hs as [|y l _ IH Hy]; intros a Hnd Ha; [done|]. inversion_clear Hnd as [|? ? Hni Hnd'].
  rewrite Forall_forall in Hy. destruct a as [|a]; cbn in Ha.
  - injection Ha as ->. cbn. assert (String.leb x x = true) as -> by (by destruct (String.leb_total x x)). cbn. f_equal.
    assert (List.filter (λ y, String.leb y x) l = []) as ->; [|done].
    destruct (List.filter _ l) as [|z k] eqn:E; [done|]. assert (z ∈ List.filter (λ y, String.leb y x) l) as [Hz Hle]%elem_of_kept by (rewrite E; by left).
    assert (z = x) as ->; [|done]. apply String.leb_antisym; [done|by apply Hy].
  - assert (x ∈ l) as Hx by by eapply list_elem_of_lookup_2. cbn. rewrite (Hy x Hx). cbn. by rewrite (IH a).
Qed.

Lemma bisect_right_empty l : "" ∉ l → bisect_right l "" = 0%nat.
Proof.
  unfold bisect_right. intros Hl. destruct (List.filter _ l) as [|z k] eqn:E; [done|].
  assert (z ∈ List.filter (λ y, String.leb y "") l) as [Hz Hle]%elem_of_kept by (rewrite E; by left).
  assert (z = "") as ->; [|done]. apply String.leb_antisym; [done|by destruct z].
Qed.

(** Where a cursor stands in the list of names. *)
Definition cursor_at (rg : Registry) (k : nat) (cursor : option Cursor) : Prop :=
  match cursor with
  | None => k = 0%nat
  | Some (CText g id) => g = ix_generation (rg_index rg) ∧ ∃ j, k = S j ∧ ix_ids (rg_index rg) !! j = Some id
  | Some CGarbage => False
  end.

Lemma ids_ok rg : reg_ok rg → NoDup (ix_ids (rg_index rg)) ∧ StronglySorted (λ a b, String.leb a b = true) (ix_ids (rg_index rg))
  ∧ ∀ id, id ∈ ix_ids (rg_index rg) ↔ is_Some (rg_nodes rg !! id).
Proof.
  intros [_ _ H3 _ _ _ _]. unfold ix_ids, sorted_text. rewrite H3. split_and!.
  - rewrite sort_by_Permutation. apply NoDup_fst_map_to_list.
  - apply sort_by_sorted, _.
  - intros id. rewrite sort_by_Permutation, list_elem_of_fmap. split.
    + intros ([i n] & -> & ?%elem_of_map_to_list). by exists n.
    + intros [n Hn]. exists (id, n). by rewrite elem_of_map_to_list.
Qed.

Lemma page_ok rg now limit k cursor : reg_ok rg → 1 <= limit <= 64 → "" ∉ ix_ids (rg_index rg) → cursor_at rg k cursor →
  ∃ page, inventory_page rg now (PInt limit) cursor = Ok page
  ∧ iv_node_id <$> ip_rows page = take (Z.to_nat limit) (drop k (ix_ids (rg_index rg)))
  ∧ match ip_next page with
    | None => (length (ix_ids (rg_index rg)) <= k + Z.to_nat limit)%nat
    | Some c => (k + Z.to_nat limit < length (ix_ids (rg_index rg)))%nat ∧ cursor_at rg (k + Z.to_nat limit) (Some c)
    end.
Proof.
  intros Hok Hlim Hne Hcur. destruct (ids_ok rg Hok) as (Hnd & Hs & Hids). unfold inventory_page, check_int. cbn [py_int mbind res_bind].
  rewrite (proj2 (Z.leb_le 1 limit)), (proj2 (Z.leb_le limit 64)) by lia. cbn [andb mbind res_bind].
  assert (∃ after, cursor_after rg cursor = Ok after ∧ bisect_right (ix_ids (rg_index rg)) after = k) as (after & -> & Hb).
  { destruct cursor as [[g id|]|]; cbn in Hcur; [|done|].
    - destruct Hcur as (-> & j & -> & Hj). exists id. cbn. rewrite String.eqb_refl, bool_decide_true by (apply Hids; by eapply list_elem_of_lookup_2).
      split; [done|]. by apply bisect_right_sorted.
    - subst. exists "". split; [done|]. by apply bisect_right_empty. }
  cbn [mbind res_bind]. rewrite Hb. set (ids := ix_ids (rg_index rg)) in *. set (L := Z.to_nat limit). assert (1 <= L)%nat by lia.
  rewrite take_take, Nat.min_l, length_take, length_drop by lia.
  assert (∃ rows, mapM_res (λ id, match rg_nodes rg !! id with Some node => Ok (inventory_row rg now id node) | None => throw KeyError id end)
            (take L (drop k ids)) = Ok rows ∧ iv_node_id <$> rows = take L (drop k ids)) as (rows & -> & Hrows).
  { assert (∀ id, id ∈ take L (drop k ids) → is_Some (rg_nodes rg !! id)) as Hin
      by (intros id Hid; apply Hids; apply list_elem_of_lookup in Hid as [i [Hi _]%lookup_take_Some]; rewrite lookup_drop in Hi; by eapply list_elem_of_lookup_2).
    induction (take L (drop k ids)) as [|id l IH]; [by exists []|]. destruct (Hin id) as [n Hn]; [by left|].
    destruct IH as (rows & Hr & Hn'); [intros; apply Hin; by right|]. exists (inventory_row rg now id n :: rows). cbn. rewrite Hn. cbn. rewrite Hr.
    split; [done|]. cbn. by rewrite Hn'. }
  cbn [mbind res_bind]. eexists. split; [done|]. split; [done|]. cbn [ip_next].
  destruct (Nat.ltb_spec L ((L + 1) `min` (length ids - k))).
  - assert (is_Some (ids !! (k + L - 1)%nat)) as [id Hid] by (apply lookup_lt_is_Some_2; lia).
    assert (last (take L (drop k ids)) = Some id) as ->.
    { rewrite last_lookup, length_take, length_drop, lookup_take_lt, lookup_drop by lia. rewrite <-Hid. f_equal. lia. }
    cbn. split; [lia|]. split; [done|]. exists (k + L - 1)%nat. split; [lia|done].
  - cbn. lia.
Qed.

Lemma walk_ok at_page rg now limit : (∀ n, reg_ok (at_page n) ∧ same_authority rg (at_page n)) → 1 <= limit <= 64 → "" ∉ ix_ids (rg_index rg) →
  ∀ fuel n k cursor, cursor_at rg k cursor → (length (ix_ids (rg_index rg)) - k < fuel)%nat →
  ∃ rows, walk_pages at_page now limit fuel n cursor = Ok rows ∧ iv_node_id <$> rows = drop k (ix_ids (rg_index rg)).
Proof.
  intros Hat Hlim Hne. induction fuel as [|fuel IH]; intros n k cursor Hcur Hfuel; [lia|]. cbn [walk_pages].
  destruct (Hat n) as [Hok (Hn & _ & Hg & _ & Hix)].
  assert (ix_ids (rg_index (at_page n)) = ix_ids (rg_index rg)) as Hids by (unfold ix_ids; by rewrite Hix).
  destruct (page_ok (at_page n) now limit k cursor Hok Hlim) as (page & -> & Hrows & Hnext).
  { by rewrite Hids. }
  { destruct cursor as [[]|]; cbn in *; by rewrite ?Hids, ?Hg. }
  rewrite Hids in Hrows, Hnext. cbn [mbind res_bind]. destruct (ip_next page) as [c|].
  - destruct Hnext as [Hlt Hc]. destruct (IH (S n) (k + Z.to_nat limit)%nat (Some c)) as (rest & -> & Hrest).
    { cbn in Hc. by rewrite Hids, Hg in Hc. }
    { lia. }
    cbn. eexists. split; [done|]. rewrite fmap_app, Hrows, Hrest, <-drop_drop. apply take_drop.
  - eexists. split; [done|]. rewrite Hrows. apply take_ge. rewrite length_drop. lia.
Qed.

(** C38: a client that follows the cursors of the inventory, with any page size, sees every configured
    node exactly once and in order, whatever observations ([sound_op]), failures and summaries the
    registry takes between its pages; it asks for at most one page more than there are nodes. *)
Theorem inventory_pages_complete d g nodes ttl rg0 (history : nat → list reg_op) now limit fuel : Registry_init g nodes ttl = Ok rg0 →
  (∀ n, Forall (sound_op ttl) (history n)) → 1 <= limit <= 64 → "" ∉ nd_node_id <$> nodes → (length nodes < fuel)%nat →
  ∃ rows, walk_pages (λ n, reg_run d rg0 (history n)) now limit fuel 0 None = Ok rows
  ∧ iv_node_id <$> rows ≡ₚ nd_node_id <$> nodes ∧ StronglySorted (λ a b, String.leb a b = true) (iv_node_id <$> rows).
Proof.
  intros Hi Hh Hlim Hne Hfuel. destruct (Registry_init_ok _ _ _ _ Hi) as (Hok0 & _ & _ & Hn & _). destruct (ids_ok rg0 Hok0) as (Hnd & Hs & Hids).
  assert (ix_ids (rg_index rg0) ≡ₚ nd_node_id <$> nodes) as Hp.
  { apply NoDup_Permutation; [done|unfold Registry_init in Hi; res_inv; by to_prop|]. intros id. rewrite Hids, list_elem_of_fmap. split.
    - intros [n [? ?]%Hn]. by exists n.
    - intros (n & -> & ?). exists n. by apply Hn. }
  destruct (walk_ok (λ n, reg_run d rg0 (history n)) rg0 now limit) with (fuel := fuel) (n := 0%nat) (k := 0%nat) (cursor := @None Cursor) as (rows & Hw & Hr).
  - intros n. by eapply reachable_ok.
  - done.
  - by rewrite Hp.
  - done.
  - rewrite Hp, length_fmap. lia.
  - exists rows. rewrite Hr. done.
Qed.

(** ** Examples *)

Definition demo_nodes : list ComputeNode := [demo_node "n2" {[CPU; CMAKE]}; demo_node "n1" {[CPU; CMAKE]}; demo_node "n0" {[CPU]}].
Definition demo_digest (s : NodeSnapshot) : string := ns_id s.
Definition demo_registry : Registry :=
  MkRegistry (list_to_map ((λ n, (nd_node_id n, n)) <$> demo_nodes)) ∅ ∅ 30000000 (ComputeIndex_init "gen" demo_nodes 30000000).
Definition demo_history : list reg_op :=
  [Observe (demo_snapshot (demo_node "n2" {[CPU; CMAKE]}) 0 2147483648 2) None;
   Observe (demo_snapshot (demo_node "n0" {[CPU]}) 1000000 2147483648 1) (Some 2000000);
   Summarise 31000000;
   Observe (demo_snapshot (demo_node "n1" {[CPU; CMAKE]}) 28000000 2147483648 3) None;
   MarkFailed "n0" 29000000 "timeout"; Summarise 20000000].

Lemma demo_registry_ok : Registry_init "gen" demo_nodes 30000000 = Ok demo_registry.
Proof. unfold Registry_init. assert (no_dups (nd_node_id <$> demo_nodes) = true) as -> by (vm_compute; reflexivity). reflexivity. Qed.

Lemma demo_history_sound : Forall (sound_op 30000000) demo_history.
Proof. repeat constructor; cbn; try lia; try done; intros; simplify_eq; cbn; lia. Qed.

Lemma summary_recount_witness :
  (inventory_summary (reg_run demo_digest demo_registry demo_history) 32000000).2 = Ok (MkSummary 3 1 1 0 2 6).
Proof.
  rewrite (proj1 (summary_recount demo_digest _ _ _ _ demo_history 32000000 demo_registry_ok demo_history_sound)). vm_compute. reflexivity.
Defined.

Lemma indexed_placement_equals_full_scan_witness : ∃ ic indexed,
  registry_candidates (reg_run demo_digest demo_registry demo_history) demo_request None = Ok ic ∧ ns_id <$> ic_snapshots ic = ["n1"; "n2"]
  ∧ place demo_digest (λ _, "") 30000000 demo_request (ic_snapshots ic) 30000000 = Ok indexed ∧ pd_ranked_node_ids indexed = ["n2"; "n1"].
Proof.
  assert (match place demo_digest (λ _, "") 30000000 demo_request
    (List.filter (in_scope None) (list_snapshots (reg_run demo_digest demo_registry demo_history))) 30000000 with
    Ok full => pd_ranked_node_ids full | Err _ => [] end = ["n2"; "n1"]) as Hfull by (vm_compute; reflexivity).
  assert (match registry_candidates (reg_run demo_digest demo_registry demo_history) demo_request None with
    Ok ic => ns_id <$> ic_snapshots ic | Err _ => [] end = ["n1"; "n2"]) as Hnames by (vm_compute; reflexivity).
  destruct (place demo_digest (λ _, "") 30000000 demo_request
    (List.filter (in_scope None) (list_snapshots (reg_run demo_digest demo_registry demo_history))) 30000000) as [full|] eqn:Hp; [|discriminate Hfull].
  destruct (indexed_placement_equals_full_scan demo_digest _ _ _ _ demo_history demo_digest (λ _, "") 30000000 demo_request None 30000000 full
    demo_registry_ok demo_history_sound Hp) as (ic & indexed & Hic & Hpl & _ & Hr).
  exists ic, indexed. rewrite Hic in Hnames. split_and!; [exact Hic|exact Hnames|exact Hpl|by rewrite Hr].
Defined.

Lemma inventory_pages_complete_witness : ∃ rows,
  walk_pages (λ n, reg_run demo_digest demo_registry (take n demo_history)) 32000000 2 4 0 None = Ok rows
  ∧ iv_node_id <$> rows ≡ₚ ["n2"; "n1"; "n0"].
Proof.
  destruct (inventory_pages_complete demo_digest _ _ _ _ (λ n, take n demo_history) 32000000 2 4 demo_registry_ok) as (rows & Hw & Hr & _).
  - intros n. apply Forall_take, demo_history_sound.
  - lia.
  - cbn. rewrite !not_elem_of_cons. split_and!; [discriminate..|apply not_elem_of_nil].
  - cbn. lia.
  - exists rows. split; [exact Hw|exact Hr].
Defined.

Definition uncounted : NodeSnapshot :=
  MkSnapshot (demo_node "n1" {[CPU; CMAKE]}) 0 None HEALTHY {[CPU]} {[BUILD]} no_resources None None [] None.

(** An observation that does not count its jobs passes the checks of [NodeSnapshot] and of the
    registry, raises in the middle of an update of the index, and leaves the index so that every later
    observation of that node, complete as it may be, raises as well. *)
Example uncounted_jobs_poison_the_index :
  let rg1 := (observe demo_digest demo_registry uncounted None).1 in
  let later := observe demo_digest rg1 (demo_snapshot (demo_node "n1" {[CPU; CMAKE]}) 1000000 2147483648 1) None in
  NodeSnapshot_init (Inst (ns_node uncounted)) 0 None HEALTHY {[CPU]} {[BUILD]} no_resources PNone PNone [] None = Ok uncounted
  ∧ (observe demo_digest demo_registry uncounted None).2 = throw TypeError "unsupported operand type(s) for +="
  ∧ later.2 = throw TypeError "unsupported operand type(s) for -="
  ∧ bool_decide (is_Some (rg_observations later.1 !! "n1")) = false ∧ bool_decide (is_Some (ix_observations (rg_index later.1) !! "n1")) = true.
Proof. split_and!; [reflexivity|vm_compute; reflexivity..]. Qed.
