(* ===== verification/PlacementQueue.v ===== *)
(** The bounded queue of requests that wait for placement:
    [application/compute_fabric/placement_queue.py].

    The items are a map from request identity; every view of them is sorted by a total order.  The
    digest of a request is an argument.  A wait is compared as the quotient of its microseconds, which
    rounds to a number of seconds only when it is one. *)
From S2P Require Import Prelude PyText PyFloat PyNumText WorkerCapacity ComputeFabric.
From Stdlib Require Import Ascii.

Local Open Scope Z_scope.

Definition _MAX_QUEUE_DEPTH : Z := 4096.
Definition _MAX_EXPIRE_ROWS : Z := 1024.

Record PlacementQueueItem := MkItem {
  qi_request_id : string;
  qi_request_digest : string;
  qi_priority : Z;
  qi_enqueued_at : Z
}.
#[export] Instance queue_item_eq_dec : EqDecision PlacementQueueItem.
Proof. solve_decision. Defined.

Definition Item_init (id digest priority : pyval) (enqueued_at : Z) : res PlacementQueueItem :=
  id' ← check_str (stable_identity 127) ValueError "placement queue request_id must be a bounded identity" id;
  digest' ← check_str is_digest ValueError "placement queue request_digest must be SHA-256" digest;
  priority' ← check_int (-100) 100 ValueError "placement queue priority must be within -100..100" priority;
  Ok (MkItem id' digest' priority' enqueued_at).

Record QueueAdmission := MkAdmission {
  qa_request_id : string;
  qa_admitted : bool;
  qa_reason_code : string;
  qa_depth : Z;
  qa_position : option Z;
  qa_priority : Z
}.
Record QueueExplanation := MkQueueExplanation {
  qe_request_id : string;
  qe_reason_code : string;
  qe_message : string;
  qe_depth : Z;
  qe_position : option Z;
  qe_priority : option Z
}.

Record PlacementQueue := MkQueue { q_max_depth : Z; q_items : gmap string PlacementQueueItem }.
Definition Queue_init (max_depth : pyval) : res PlacementQueue :=
  n ← check_int 1 _MAX_QUEUE_DEPTH ValueError "placement queue max_depth must be within 1..4096" max_depth;
  Ok (MkQueue n ∅).
Definition with_items (q : PlacementQueue) (m : gmap string PlacementQueueItem) : PlacementQueue := MkQueue (q_max_depth q) m.

(** [(-priority, enqueued_at, request_id)] *)
Definition item_le (a b : PlacementQueueItem) : bool :=
  (qi_priority b <? qi_priority a)
  || ((qi_priority a =? qi_priority b)
      && ((qi_enqueued_at a <? qi_enqueued_at b)
          || ((qi_enqueued_at a =? qi_enqueued_at b) && String.leb (qi_request_id a) (qi_request_id b)))).
Definition _ordered_locked (q : PlacementQueue) : list PlacementQueueItem := sort_by item_le (map_to_list (q_items q)).*2.
Definition depth (q : PlacementQueue) : Z := Z.of_nat (size (q_items q)).
Definition snapshot (q : PlacementQueue) : list PlacementQueueItem := _ordered_locked q.

(** [ordered.index(item) + 1] *)
Definition position_in (l : list PlacementQueueItem) (it : PlacementQueueItem) : res Z :=
  match list_find (λ x, x = it) l with
  | Some (i, _) => Ok (Z.of_nat i + 1)
  | None => throw ValueError "tuple.index(x): x not in tuple"
  end.

Definition enqueue (request_digest : WorkloadRequest → string) (q : PlacementQueue) (request : dyn WorkloadRequest) (now : Z)
  : PlacementQueue * res QueueAdmission :=
  let prepared :=
    r ← inst_of TypeError "placement queue accepts WorkloadRequest values" request;
    Item_init (PStr (wr_request_id r)) (PStr (request_digest r)) (PInt (wr_priority r)) now in
  match prepared with
  | Err e => (q, Err e)
  | Ok it =>
      match q_items q !! qi_request_id it with
      | Some existing =>
          (q,
           _ ← require (String.eqb (qi_request_digest existing) (qi_request_digest it)) (Conflict "CONFLICT")
                 "placement queue identity is already bound to another request";
           p ← position_in (_ordered_locked q) existing;
           Ok (MkAdmission (qi_request_id it) true "already_queued" (depth q) (Some p) (qi_priority existing)))
      | None =>
          if q_max_depth q <=? depth q
          then (q, Ok (MkAdmission (qi_request_id it) false "queue_full" (depth q) None (qi_priority it)))
          else
            let q' := with_items q (<[qi_request_id it := it]> (q_items q)) in
            (q', p ← position_in (_ordered_locked q') it;
                 Ok (MkAdmission (qi_request_id it) true "queued" (depth q') (Some p) (qi_priority it)))
      end
  end.

Definition drop_items (l : list PlacementQueueItem) (m : gmap string PlacementQueueItem) : gmap string PlacementQueueItem :=
  foldl (λ m it, delete (qi_request_id it) m) m l.

Definition claim (q : PlacementQueue) (limit : pyval) : PlacementQueue * res (list PlacementQueueItem) :=
  match check_int 1 (q_max_depth q) ValueError "placement queue claim limit is outside the queue bound" limit with
  | Err e => (q, Err e)
  | Ok n => let selected := take (Z.to_nat n) (_ordered_locked q) in (with_items q (drop_items selected (q_items q)), Ok selected)
  end.

Definition check_request_id (id : pyval) : res string :=
  check_str (λ s, negb (String.eqb s "")) ValueError "placement queue request_id must be non-empty" id.

Definition remove (q : PlacementQueue) (id : pyval) : PlacementQueue * res bool :=
  match check_request_id id with
  | Err e => (q, Err e)
  | Ok i => (with_items q (delete i (q_items q)), Ok (bool_decide (is_Some (q_items q !! i))))
  end.

Definition explain (q : PlacementQueue) (id : pyval) : res QueueExplanation :=
  i ← check_request_id id;
  let ordered := _ordered_locked q in
  match q_items q !! i with
  | None => Ok (MkQueueExplanation i "not_queued" "request is not waiting for placement" (zlen ordered) None None)
  | Some it =>
      p ← position_in ordered it;
      Ok (MkQueueExplanation i "queued"
            ("queued at priority " +:+ pretty (qi_priority it) +:+ "; " +:+ pretty (p - 1) +:+ " request(s) ahead")
            (zlen ordered) (Some p) (Some (qi_priority it)))
  end.

(** [(now - enqueued_at).total_seconds() >= seconds] *)
Definition waited (now seconds : Z) (it : PlacementQueueItem) : bool := seconds * 1000000 <=? now - qi_enqueued_at it.

Definition expire (q : PlacementQueue) (now : Z) (max_wait_seconds limit : pyval) : PlacementQueue * res (list QueueExplanation) :=
  let bounds :=
    s ← check_int 1 86400 ValueError "placement queue max_wait_seconds must be within 1..86400" max_wait_seconds;
    n ← check_int 1 _MAX_EXPIRE_ROWS ValueError "placement queue expire limit must be within 1..1024" limit;
    Ok (s, n) in
  match bounds with
  | Err e => (q, Err e)
  | Ok (s, n) =>
      let ordered := _ordered_locked q in
      let expired := take (Z.to_nat n) (List.filter (waited now s) ordered) in
      (with_items q (drop_items expired (q_items q)),
       mapM_res (λ it, p ← position_in ordered it;
                       Ok (MkQueueExplanation (qi_request_id it) "queue_expired"
                             ("queue wait exceeded " +:+ pretty s +:+ " second(s)") (zlen ordered) (Some p) (Some (qi_priority it)))) expired)
  end.

(** ** Runs *)

Inductive queue_op :=
  | Enqueue (r : dyn WorkloadRequest) (now : Z)
  | Claim (limit : pyval)
  | Remove (id : pyval)
  | Expire (now : Z) (max_wait_seconds limit : pyval).

(** What the answer to an operation says: the request it let in, the requests it let go. *)
Definition queue_step (d : WorkloadRequest → string) (q : PlacementQueue) (o : queue_op) : PlacementQueue * list string * list string :=
  match o with
  | Enqueue r now =>
      let '(q', out) := enqueue d q r now in
      (q', match out with Ok a => if String.eqb (qa_reason_code a) "queued" then [qa_request_id a] else [] | Err _ => [] end, [])
  | Claim limit => let '(q', out) := claim q limit in (q', [], match out with Ok l => qi_request_id <$> l | Err _ => [] end)
  | Remove id => let '(q', out) := remove q id in
                 (q', [], match out, py_str id with Ok true, Some i => [i] | _, _ => [] end)
  | Expire now s limit => let '(q', out) := expire q now s limit in (q', [], match out with Ok l => qe_request_id <$> l | Err _ => [] end)
  end.

Fixpoint queue_run (d : WorkloadRequest → string) (q : PlacementQueue) (l : list queue_op) : PlacementQueue * list string * list string :=
  match l with
  | [] => (q, [], [])
  | o :: rest =>
      let '(q1, ins1, outs1) := queue_step d q o in
      let '(q2, ins2, outs2) := queue_run d q1 rest in (q2, ins1 ++ ins2, outs1 ++ outs2)
  end.

(** ** The order *)

#[export] Instance item_sort_key : SortKey item_le.
Proof.
  unfold item_le. split.
  - intros x y. rewrite !orb_true_iff, !andb_true_iff, !orb_true_iff, !andb_true_iff, !Z.ltb_lt, !Z.eqb_eq.
    destruct (Z.lt_trichotomy (qi_priority x) (qi_priority y)) as [?|[E1|?]]; [right; by left| |left; by left].
    destruct (Z.lt_trichotomy (qi_enqueued_at x) (qi_enqueued_at y)) as [?|[E2|?]]; [left; right; split; [done|by left]| |right; right; split; [done|by left]].
    destruct (String.leb_total (qi_request_id x) (qi_request_id y)); [left|right]; right; (split; [done|right; by split]).
  - intros x y z. rewrite !orb_true_iff, !andb_true_iff, !orb_true_iff, !andb_true_iff, !Z.ltb_lt, !Z.eqb_eq.
    intros [H1|[H1 [H2|[H2 Hs]]]] [H3|[H3 [H4|[H4 Ht]]]]; try (left; lia); right; (split; [lia|]); try (left; lia).
    right. split; [lia|]. by eapply (sort_trans (le := String.leb)).
Qed.

Lemma item_le_antisym a b : item_le a b = true → item_le b a = true → qi_request_id a = qi_request_id b.
Proof.
  unfold item_le. rewrite !orb_true_iff, !andb_true_iff, !orb_true_iff, !andb_true_iff, !Z.ltb_lt, !Z.eqb_eq.
  intros [H1|[H1 [H2|[H2 Hs]]]] [H3|[H3 [H4|[H4 Ht]]]]; try lia. by apply String.leb_antisym.
Qed.

Record queue_ok (q : PlacementQueue) : Prop := {
  qok_ids : ∀ id it, q_items q !! id = Some it → qi_request_id it = id;
  qok_depth : depth q <= q_max_depth q
}.
Definition waiting (q : PlacementQueue) : list string := (map_to_list (q_items q)).*1.

Lemma elem_ordered q it : queue_ok q → it ∈ _ordered_locked q ↔ q_items q !! qi_request_id it = Some it.
Proof.
  intros [Hid _]. unfold _ordered_locked. rewrite sort_by_Permutation, list_elem_of_fmap. split.
  - intros ([i x] & -> & Hx%elem_of_map_to_list). cbn. by rewrite (Hid i x Hx).
  - intros Hx. exists (qi_request_id it, it). by rewrite elem_of_map_to_list.
Qed.

Lemma ordered_waiting q : queue_ok q → qi_request_id <$> _ordered_locked q ≡ₚ waiting q.
Proof.
  intros [Hid _]. unfold _ordered_locked, waiting. rewrite sort_by_Permutation, <-list_fmap_compose.
  assert (∀ l : list (string * PlacementQueueItem), (∀ i x, (i, x) ∈ l → qi_request_id x = i) → (qi_request_id ∘ snd) <$> l = l.*1) as H.
  { induction l as [|[i x] l IH]; intros Hl; [done|]. cbn. rewrite (Hl i x) by by left. f_equal. apply IH. intros j y Hj. apply Hl. by right. }
  rewrite H; [done|]. intros i x Hx%elem_of_map_to_list. by apply Hid.
Qed.

Lemma ordered_NoDup q : queue_ok q → NoDup (qi_request_id <$> _ordered_locked q).
Proof. intros Hok. rewrite (ordered_waiting q Hok). apply NoDup_fst_map_to_list. Qed.

Lemma queue_ordered_sorted q : StronglySorted (λ a b, item_le a b = true) (_ordered_locked q).
Proof. apply sort_by_sorted, _. Qed.

Lemma zlen_ordered q : zlen (_ordered_locked q) = depth q.
Proof. unfold zlen, depth, _ordered_locked. rewrite sort_by_Permutation, length_fmap. by rewrite length_map_to_list. Qed.

Lemma position_in_lookup l it i : NoDup (qi_request_id <$> l) → l !! i = Some it → position_in l it = Ok (Z.of_nat i + 1).
Proof.
  intros Hnd Hi. unfold position_in. assert (list_find (λ x, x = it) l = Some (i, it)) as ->; [|done].
  apply list_find_Some. split_and!; [done..|]. intros j x Hj Hlt ->.
  assert (j = i); [|lia]. eapply NoDup_lookup; [exact Hnd|by rewrite list_lookup_fmap, Hj|by rewrite list_lookup_fmap, Hi].
Qed.

(** ** Items that leave *)

Lemma drop_items_lookup l : ∀ m id, drop_items l m !! id = if decide (id ∈ qi_request_id <$> l) then None else m !! id.
Proof.
  unfold drop_items. induction l as [|it l IH]; intros m id; cbn [foldl]; [done|]. rewrite IH.
  destruct (decide (id ∈ qi_request_id <$> it :: l)) as [H|H]; cbn in H.
  - apply elem_of_cons in H as [->|H]; [rewrite lookup_delete_eq; by destruct (decide _)|by rewrite decide_True].
  - apply not_elem_of_cons in H as [Hne Hni]. rewrite decide_False, lookup_delete_ne by done. done.
Qed.

Lemma drop_items_waiting l : ∀ m, NoDup (qi_request_id <$> l) → (∀ it, it ∈ l → m !! qi_request_id it = Some it) →
  (map_to_list m).*1 ≡ₚ (qi_request_id <$> l) ++ (map_to_list (drop_items l m)).*1.
Proof.
  induction l as [|it l IH]; intros m Hnd Hm; [done|]. inversion_clear Hnd as [|? ? Hni Hnd'].
  rewrite <-(map_to_list_delete m (qi_request_id it) it) by (apply Hm; by left). cbn. constructor. apply IH; [done|].
  intros x Hx. rewrite lookup_delete_ne; [apply Hm; by right|]. intros E. apply Hni. rewrite E. by apply list_elem_of_fmap_2.
Qed.

Lemma drop_items_ok q l : queue_ok q → NoDup (qi_request_id <$> l) → (∀ it, it ∈ l → it ∈ _ordered_locked q) →
  queue_ok (with_items q (drop_items l (q_items q))) ∧ waiting q ≡ₚ (qi_request_id <$> l) ++ waiting (with_items q (drop_items l (q_items q))).
Proof.
  intros Hok Hnd Hl. assert (waiting q ≡ₚ (qi_request_id <$> l) ++ waiting (with_items q (drop_items l (q_items q)))) as Hp.
  { apply drop_items_waiting; [done|]. intros it Hit. by apply elem_ordered, Hl. }
  split; [|done]. split; cbn.
  - intros id it. rewrite drop_items_lookup. destruct (decide _); [done|]. apply (qok_ids q Hok).
  - pose proof (qok_depth q Hok) as Hd. unfold depth in *. cbn. apply Permutation_length in Hp. unfold waiting in Hp.
    rewrite length_app, !length_fmap, !length_map_to_list in Hp. cbn in Hp. lia.
Qed.

(** What is left stays in order. *)
Lemma ordered_after q l : queue_ok q → NoDup (qi_request_id <$> l) → (∀ it, it ∈ l → it ∈ _ordered_locked q) →
  _ordered_locked (with_items q (drop_items l (q_items q))) = List.filter (λ it, negb (mem (qi_request_id it) (qi_request_id <$> l))) (_ordered_locked q).
Proof.
  intros Hok Hnd Hl. pose proof (proj1 (drop_items_ok q l Hok Hnd Hl)) as Hok'.
  assert (∀ it, it ∈ _ordered_locked (with_items q (drop_items l (q_items q))) ↔
    it ∈ List.filter (λ it, negb (mem (qi_request_id it) (qi_request_id <$> l))) (_ordered_locked q)) as Heq.
  { intros it. rewrite (elem_ordered _ _ Hok'), elem_of_kept, (elem_ordered q it Hok). cbn. rewrite drop_items_lookup. unfold mem.
    destruct (decide (qi_request_id it ∈ qi_request_id <$> l)); [rewrite bool_decide_true by done|rewrite bool_decide_false by done]; cbn; split; try done.
    - by intros [_ ?].
    - by intros [? _]. }
  apply (StronglySorted_unique_strong (λ a b, item_le a b = true)).
  - intros x y Hx Hy Hxy Hyx. apply (elem_ordered _ _ Hok') in Hx. apply Heq, (elem_ordered _ _ Hok') in Hy.
    pose proof (item_le_antisym x y Hxy Hyx) as E. rewrite E in Hx. congruence.
  - apply queue_ordered_sorted.
  - apply StronglySorted_kept, queue_ordered_sorted.
  - apply NoDup_Permutation; [by eapply NoDup_fmap_1, ordered_NoDup|by eapply (NoDup_fmap_1 qi_request_id), NoDup_kept, ordered_NoDup|done].
Qed.

(** ** Operations *)

Lemma enqueue_ok d q r now q' out : queue_ok q → enqueue d q r now = (q', out) →
  queue_ok q' ∧ q_max_depth q' = q_max_depth q
  ∧ (match out with Ok a => if String.eqb (qa_reason_code a) "queued" then [qa_request_id a] else [] | Err _ => [] end) ++ waiting q ≡ₚ waiting q'.
Proof.
  intros Hok. unfold enqueue. destruct (r' ← inst_of _ _ r; _) as [it|e]; [|by intros [= <- <-]].
  destruct (q_items q !! qi_request_id it) as [old|] eqn:Eo.
  - intros [= <- <-]. split_and!; [done..|]. destruct (require _ _ _); [|done]. cbn. by destruct (position_in _ _).
  - destruct (Z.leb_spec (q_max_depth q) (depth q)); [by intros [= <- <-]|]. set (q1 := with_items q _).
    assert (queue_ok q1) as Hok1.
    { split; cbn.
      - intros id x [[<- <-]|[_ Hx]]%lookup_insert_Some; [done|by apply (qok_ids q Hok)].
      - unfold depth in *. cbn. rewrite map_size_insert_None by done. lia. }
    assert (it ∈ _ordered_locked q1) as [i Hi]%list_elem_of_lookup by (apply elem_ordered; [done|cbn; apply lookup_insert_eq]).
    rewrite (position_in_lookup _ _ _ (ordered_NoDup q1 Hok1) Hi). cbn. intros [= <- <-]. split_and!; [done..|]. cbn.
    unfold waiting. cbn. by rewrite map_to_list_insert.
Qed.

Lemma kept_all {A} (p : A → bool) l : (∀ x, x ∈ l → p x = true) → List.filter p l = l.
Proof. intros H. apply List.forallb_filter_id, forallb_forall. intros x Hx%list_elem_of_In. by apply H. Qed.
Lemma kept_none {A} (p : A → bool) l : (∀ x, x ∈ l → p x = false) → List.filter p l = [].
Proof. induction l as [|x l IH]; intros H; [done|]. cbn. rewrite H by by left. apply IH. intros y Hy. apply H. by right. Qed.

Lemma kept_after_prefix (a b : list PlacementQueueItem) : NoDup (qi_request_id <$> a ++ b) →
  List.filter (λ it, negb (mem (qi_request_id it) (qi_request_id <$> a))) (a ++ b) = b.
Proof.
  rewrite fmap_app. intros (_ & Hdis & _)%NoDup_app. rewrite List.filter_app, kept_none, kept_all; [done|..].
  - intros x Hx. apply negb_true_iff, not_true_iff_false. rewrite mem_spec. intros Hx'. apply (Hdis _ Hx'). by apply list_elem_of_fmap_2.
  - intros x Hx. apply negb_false_iff, mem_spec. by apply list_elem_of_fmap_2.
Qed.

Lemma queue_claim_ok q n : queue_ok q → 1 <= n <= q_max_depth q →
  let q' := with_items q (drop_items (take (Z.to_nat n) (_ordered_locked q)) (q_items q)) in
  claim q (PInt n) = (q', Ok (take (Z.to_nat n) (_ordered_locked q))) ∧ queue_ok q'
  ∧ waiting q ≡ₚ (qi_request_id <$> take (Z.to_nat n) (_ordered_locked q)) ++ waiting q' ∧ _ordered_locked q' = drop (Z.to_nat n) (_ordered_locked q).
Proof.
  intros Hok Hn q'. assert (NoDup (qi_request_id <$> take (Z.to_nat n) (_ordered_locked q))) as Hnd.
  { rewrite fmap_take. eapply sublist_NoDup; [by apply ordered_NoDup|apply sublist_take]. }
  assert (∀ it, it ∈ take (Z.to_nat n) (_ordered_locked q) → it ∈ _ordered_locked q) as Hin.
  { intros it [i [Hi _]%lookup_take_Some]%list_elem_of_lookup. by eapply list_elem_of_lookup_2. }
  destruct (drop_items_ok q _ Hok Hnd Hin) as [Hok' Hp]. split_and!; [|done..|].
  - unfold claim, check_int. cbn [py_int]. by rewrite (proj2 (Z.leb_le 1 n)), (proj2 (Z.leb_le n (q_max_depth q))) by lia.
  - unfold q'. rewrite (ordered_after q _ Hok Hnd Hin).
    pose proof (kept_after_prefix (take (Z.to_nat n) (_ordered_locked q)) (drop (Z.to_nat n) (_ordered_locked q))) as H.
    rewrite take_drop in H. apply H. by apply ordered_NoDup.
Qed.

Lemma mapM_res_total {A B} (f : A → res B) (P : A → B → Prop) l :
  (∀ x, x ∈ l → ∃ y, f x = Ok y ∧ P x y) → ∃ k, mapM_res f l = Ok k ∧ Forall2 P l k.
Proof.
  induction l as [|x l IH]; intros Hl; [by exists []|]. destruct (Hl x) as (y & Hy & HP); [by left|].
  destruct IH as (k & Hk & HF); [intros z Hz; apply Hl; by right|]. exists (y :: k). split; [|by constructor].
  apply mapM_res_ok. constructor; [done|]. by apply mapM_res_ok.
Qed.

Lemma expire_ok q now s n : queue_ok q → 1 <= s <= 86400 → 1 <= n <= _MAX_EXPIRE_ROWS →
  let expired := take (Z.to_nat n) (List.filter (waited now s) (_ordered_locked q)) in
  let q' := with_items q (drop_items expired (q_items q)) in
  ∃ l, expire q now (PInt s) (PInt n) = (q', Ok l) ∧ qe_request_id <$> l = qi_request_id <$> expired
  ∧ queue_ok q' ∧ waiting q ≡ₚ (qi_request_id <$> expired) ++ waiting q'.
Proof.
  intros Hok Hs Hn expired q'. assert (NoDup (qi_request_id <$> expired)) as Hnd.
  { unfold expired. rewrite fmap_take. eapply sublist_NoDup; [|apply sublist_take]. by apply NoDup_kept, ordered_NoDup. }
  assert (∀ it, it ∈ expired → it ∈ _ordered_locked q) as Hin.
  { intros it [i [Hi _]%lookup_take_Some]%list_elem_of_lookup. apply list_elem_of_lookup_2 in Hi. by apply elem_of_kept in Hi as [? _]. }
  destruct (drop_items_ok q _ Hok Hnd Hin) as [Hok' Hp].
  destruct (mapM_res_total (λ it, p ← position_in (_ordered_locked q) it;
      Ok (MkQueueExplanation (qi_request_id it) "queue_expired" ("queue wait exceeded " +:+ pretty s +:+ " second(s)")
            (zlen (_ordered_locked q)) (Some p) (Some (qi_priority it)))) (λ it e, qe_request_id e = qi_request_id it) expired)
    as (l & Hl & HF).
  { intros it [i Hi]%Hin%list_elem_of_lookup. rewrite (position_in_lookup _ _ _ (ordered_NoDup q Hok) Hi). cbn. by eexists. }
  exists l. split_and!; [|by clear -HF; induction HF as [|it e ? ? He _ IH]; cbn; [|rewrite He, IH]|done|done].
  unfold expire. rewrite !check_int_PInt by done. cbn [mbind res_bind]. fold expired. by rewrite Hl.
Qed.

Lemma queue_remove_ok q i : queue_ok q →
  let q' := with_items q (delete i (q_items q)) in
  queue_ok q' ∧ waiting q ≡ₚ (if bool_decide (is_Some (q_items q !! i)) then [i] else []) ++ waiting q'.
Proof.
  intros Hok q'. case_bool_decide as Hi.
  - destruct Hi as [it Hit]. pose proof (qok_ids q Hok i it Hit) as Eid. subst i.
    apply (drop_items_ok q [it] Hok); [apply NoDup_singleton|]. intros x ->%list_elem_of_singleton. by apply elem_ordered.
  - assert (q_items q !! i = None) as Hn by (destruct (q_items q !! i); [by destruct Hi|done]).
    assert (q' = q) as ->; [|by split]. unfold q'. rewrite delete_id by done. by destruct q.
Qed.

Lemma queue_step_ok d q o q' ins outs : queue_ok q → queue_step d q o = (q', ins, outs) →
  queue_ok q' ∧ q_max_depth q' = q_max_depth q ∧ ins ++ waiting q ≡ₚ outs ++ waiting q'.
Proof.
  intros Hok. destruct o as [r now|limit|id|now s limit]; cbn [queue_step].
  - destruct (enqueue d q r now) as [q1 out] eqn:E. intros [= <- <- <-]. by apply (enqueue_ok d q r now).
  - destruct (check_int 1 (q_max_depth q) ValueError "placement queue claim limit is outside the queue bound" limit) as [n|e] eqn:En.
    + apply check_int_ok in En as [-> Hn]. destruct (queue_claim_ok q n Hok Hn) as (-> & Hok' & Hp & _). by intros [= <- <- <-].
    + unfold claim. rewrite En. by intros [= <- <- <-].
  - unfold remove. destruct (check_request_id id) as [i|e] eqn:Ei; [|by intros [= <- <- <-]].
    unfold check_request_id in Ei. apply check_str_ok in Ei as [-> _]. destruct (queue_remove_ok q i Hok) as [Hok' Hp].
    intros [= <- <- <-]. split_and!; [done..|]. rewrite Hp. by case_bool_decide.
  - destruct (check_int 1 86400 ValueError "placement queue max_wait_seconds must be within 1..86400" s) as [s'|e] eqn:Es;
      [|unfold expire; rewrite Es; by intros [= <- <- <-]].
    destruct (check_int 1 _MAX_EXPIRE_ROWS ValueError "placement queue expire limit must be within 1..1024" limit) as [n|e] eqn:En;
      [|unfold expire; rewrite Es, En; by intros [= <- <- <-]].
    apply check_int_ok in Es as [-> Hs], En as [-> Hn]. destruct (expire_ok q now s' n Hok Hs Hn) as (l & -> & El & Hok' & Hp).
    intros [= <- <- <-]. split_and!; [done..|]. by rewrite El.
Qed.

Lemma queue_run_ok d l : ∀ q q' ins outs, queue_ok q → queue_run d q l = (q', ins, outs) →
  queue_ok q' ∧ q_max_depth q' = q_max_depth q ∧ ins ++ waiting q ≡ₚ outs ++ waiting q'.
Proof.
  induction l as [|o l IH]; intros q q' ins outs Hok; cbn; [by intros [= <- <- <-]|].
  destruct (queue_step d q o) as [[q1 ins1] outs1] eqn:E1. destruct (queue_run d q1 l) as [[q2 ins2] outs2] eqn:E2.
  destruct (queue_step_ok d q o q1 ins1 outs1 Hok E1) as (Hok1 & Hm1 & Hp1).
  destruct (IH q1 q2 ins2 outs2 Hok1 E2) as (Hok2 & Hm2 & Hp2). intros [= <- <- <-]. split_and!; [done|congruence|].
  transitivity (ins2 ++ (ins1 ++ waiting q)); [by solve_Permutation|]. rewrite Hp1.
  transitivity (outs1 ++ (ins2 ++ waiting q1)); [by solve_Permutation|]. rewrite Hp2. by solve_Permutation.
Qed.

Lemma Queue_init_ok m q : Queue_init m = Ok q → queue_ok q ∧ waiting q = [] ∧ 1 <= q_max_depth q <= _MAX_QUEUE_DEPTH.
Proof.
  unfold Queue_init. intros (n & [-> Hn]%check_int_ok & [= <-])%bind_ok. split_and!; [|done|apply Hn..].
  split; [done|]. unfold depth. cbn. rewrite map_size_empty. lia.
Qed.

(** ** Theorems *)

(** [a] is served before [b]: a higher priority, or the same and it came earlier, or at the same
    instant and its identity is smaller. *)
Definition ahead (a b : PlacementQueueItem) : bool :=
  (qi_priority b <? qi_priority a)
  || (qi_priority a =? qi_priority b) && (qi_enqueued_at a <? qi_enqueued_at b)
  || (qi_priority a =? qi_priority b) && (qi_enqueued_at a =? qi_enqueued_at b) && String.ltb (qi_request_id a) (qi_request_id b).

Lemma ahead_le a b : qi_request_id a ≠ qi_request_id b → ahead a b = item_le a b.
Proof.
  intros Hne. unfold ahead, item_le. assert (String.ltb (qi_request_id a) (qi_request_id b) = String.leb (qi_request_id a) (qi_request_id b)) as ->.
  { unfold String.ltb, String.leb. destruct (String.compare _ _) eqn:E; try done. by apply String.compare_eq_iff in E. }
  destruct (_ <? _), (_ =? _), (_ <? _), (_ =? _); done.
Qed.

Lemma ahead_irrefl a : ahead a a = false.
Proof.
  unfold ahead. rewrite !Z.ltb_irrefl, andb_false_r. unfold String.ltb. pose proof (String.compare_antisym (qi_request_id a) (qi_request_id a)) as H.
  destruct (String.compare _ _); by rewrite ?andb_false_r.
Qed.

(** In the order of the queue the items before a place are those ahead of it. *)
Lemma ordered_ahead q i j a b : queue_ok q → _ordered_locked q !! i = Some a → _ordered_locked q !! j = Some b →
  ahead a b = true ↔ (i < j)%nat.
Proof.
  intros Hok Hi Hj. destruct (decide (i = j)) as [->|Hne].
  { simplify_eq. rewrite ahead_irrefl. split; [done|lia]. }
  assert (qi_request_id a ≠ qi_request_id b) as Hid.
  { intros E. destruct Hne. eapply NoDup_lookup; [by apply (ordered_NoDup q)|by rewrite list_lookup_fmap, Hi|by rewrite list_lookup_fmap, Hj, E]. }
  rewrite ahead_le by done. split.
  - intros Hle. destruct (decide (i < j)%nat); [done|]. destruct Hid.
    apply item_le_antisym; [done|]. eapply (StronglySorted_lookup_2 _ _ _ _ _ _ (queue_ordered_sorted q)); [|exact Hj|exact Hi]. lia.
  - intros Hlt. eapply (StronglySorted_lookup_2 _ _ _ _ _ _ (queue_ordered_sorted q)); [exact Hlt|exact Hi|exact Hj].
Qed.

Lemma count_ahead q i it : queue_ok q → _ordered_locked q !! i = Some it →
  length (List.filter (λ x, ahead x it) (_ordered_locked q)) = i.
Proof.
  intros Hok Hi. rewrite <-(take_drop i (_ordered_locked q)) at 1. rewrite List.filter_app.
  rewrite kept_all, kept_none, app_nil_r.
  - rewrite length_take. apply lookup_lt_Some in Hi. lia.
  - intros x [k Hk]%list_elem_of_lookup. rewrite lookup_drop in Hk. apply not_true_iff_false. rewrite (ordered_ahead q _ _ _ _ Hok Hk Hi). lia.
  - intros x [k [Hk ?]%lookup_take_Some]%list_elem_of_lookup. by apply (ordered_ahead q _ _ _ _ Hok Hk Hi).
Qed.

(** No request is lost or handed out twice.  Whatever is enqueued, claimed, removed and expired, the
    requests let in are, as a multiset, those handed out and those that wait, no identity waits
    twice, and the queue never holds more than its depth. *)
Theorem queue_conserves_requests d m q0 l q ins outs :
  Queue_init m = Ok q0 → queue_run d q0 l = (q, ins, outs) →
  ins ≡ₚ outs ++ (qi_request_id <$> snapshot q) ∧ NoDup (qi_request_id <$> snapshot q)
  ∧ depth q = zlen (snapshot q) ∧ depth q <= q_max_depth q0.
Proof.
  intros (Hok0 & Hw & _)%Queue_init_ok Hr. destruct (queue_run_ok d l q0 q ins outs Hok0 Hr) as (Hok & Hm & Hp).
  rewrite Hw, app_nil_r in Hp. split_and!.
  - unfold snapshot. by rewrite (ordered_waiting q Hok).
  - by apply ordered_NoDup.
  - symmetry. apply zlen_ordered.
  - rewrite <-Hm. apply Hok.
Qed.

(** The queue serves in order.  A claim takes as many requests as asked for or as there are, no request
    it leaves is ahead of one it takes, and what is left keeps its order; and the position a waiting
    request is told is one more than the number of requests ahead of it. *)
Theorem queue_serves_in_order d m q0 l q ins outs n :
  Queue_init m = Ok q0 → queue_run d q0 l = (q, ins, outs) → 1 <= n <= q_max_depth q0 →
  (∃ q' taken, claim q (PInt n) = (q', Ok taken) ∧ snapshot q = taken ++ snapshot q' ∧ zlen taken = Z.min n (depth q)
     ∧ ∀ a b, a ∈ taken → b ∈ snapshot q' → ahead a b = true ∧ ahead b a = false)
  ∧ ∀ id it, q_items q !! id = Some it → id ≠ "" → ∃ e, explain q (PStr id) = Ok e
      ∧ qe_position e = Some (1 + zlen (List.filter (λ x, ahead x it) (snapshot q))).
Proof.
  intros (Hok0 & _ & _)%Queue_init_ok Hr Hn. destruct (queue_run_ok d l q0 q ins outs Hok0 Hr) as (Hok & Hm & _).
  rewrite <-Hm in Hn. split.
  - destruct (queue_claim_ok q n Hok Hn) as (Hc & _ & _ & Ho). eexists _, _. split; [exact Hc|]. unfold snapshot. rewrite Ho. split_and!.
    + by rewrite take_drop.
    + rewrite <-zlen_ordered. unfold zlen. rewrite length_take. lia.
    + intros a b [i [Hi ?]%lookup_take_Some]%list_elem_of_lookup [j Hj]%list_elem_of_lookup. rewrite lookup_drop in Hj.
      rewrite <-not_true_iff_false, (ordered_ahead q _ _ _ _ Hok Hi Hj), (ordered_ahead q _ _ _ _ Hok Hj Hi). lia.
  - intros id it Hit Hne. pose proof (qok_ids q Hok id it Hit) as <-. unfold explain, check_request_id, check_str. cbn [py_str].
    rewrite (proj2 (String.eqb_neq _ _) Hne). cbn [negb mbind res_bind]. rewrite Hit.
    apply (elem_ordered q it Hok) in Hit as [i Hi]%list_elem_of_lookup.
    rewrite (position_in_lookup _ _ _ (ordered_NoDup q Hok) Hi). cbn [mbind res_bind]. eexists. split; [reflexivity|]. cbn.
    unfold snapshot, zlen. rewrite (count_ahead q i it Hok Hi). f_equal. lia.
Qed.

(** ** Examples *)

Definition demo_digest (r : WorkloadRequest) : string := "0123456789abcdef0123456789abcdef0123456789abcdef0123456789abcdef".
Definition demo_waiting (id : string) (priority : Z) : WorkloadRequest :=
  MkWorkload id BUILD ∅ ∅ [] None (Some 0) (Some 0) (Some 0) None false false false ∅ ∅ None false false None priority None.
Definition demo_ops : list queue_op :=
  [Enqueue (Inst (demo_waiting "a" 0)) 0; Enqueue (Inst (demo_waiting "b" 5)) 1000000; Enqueue (Inst (demo_waiting "c" 0)) 2000000].
Definition demo_queue : PlacementQueue * list string * list string := queue_run demo_digest (MkQueue 2 ∅) demo_ops.

Lemma demo_queue_eq : queue_run demo_digest (MkQueue 2 ∅) demo_ops = (demo_queue.1.1, ["a"; "b"], []).
Proof. vm_compute. reflexivity. Qed.

Lemma queue_conserves_requests_witness :
  Queue_init (PInt 2) = Ok (MkQueue 2 ∅) ∧ ["a"; "b"] ≡ₚ [] ++ (qi_request_id <$> snapshot demo_queue.1.1) ∧ depth demo_queue.1.1 <= 2.
Proof.
  assert (Queue_init (PInt 2) = Ok (MkQueue 2 ∅)) as Hi by reflexivity. split; [exact Hi|].
  destruct (queue_conserves_requests demo_digest (PInt 2) _ demo_ops _ _ _ Hi demo_queue_eq) as (Hp & _ & _ & Hd).
  split; [exact Hp|exact Hd].
Defined.

Lemma queue_serves_in_order_witness :
  ∃ q' taken, claim demo_queue.1.1 (PInt 1) = (q', Ok taken) ∧ snapshot demo_queue.1.1 = taken ++ snapshot q' ∧ zlen taken = 1.
Proof.
  assert (Queue_init (PInt 2) = Ok (MkQueue 2 ∅)) as Hi by reflexivity.
  assert (1 <= 1 <= q_max_depth (MkQueue 2 ∅)) as Hn by (split; discriminate).
  destruct (queue_serves_in_order demo_digest (PInt 2) _ demo_ops _ _ _ 1 Hi demo_queue_eq Hn) as ((q' & taken & Hc & Hs & Hl & _) & _).
  exists q', taken. split; [exact Hc|]. split; [exact Hs|]. rewrite Hl. assert (depth demo_queue.1.1 = 2) as -> by (vm_compute; reflexivity). reflexivity.
Defined.

(** The request with the higher priority is claimed first; the third was refused, the queue was full. *)
Example demo_claimed :
  match (claim demo_queue.1.1 (PInt 2)).2 with Ok l => qi_request_id <$> l | Err _ => [] end = ["b"; "a"].
Proof. vm_compute. reflexivity. Qed.
